(* ===== verification/_CoqProject ===== *)
-Q . S2P
Prelude.v
Locks.v
ListNode.v
Bitmap.v
CString.v
PhysMem.v
Arena.v
Cache.v
CacheLog.v
CacheAlloc.v
Inode.v
InodeIO.v
Console.v
File.v
VirtMem.v
UserMem.v
KernelPt.v
Interrupt.v
Mbox.v
VmTest.v
VmFree.v
Sched.v
SchedMachine.v
SchedInv.v
SchedSafe.v
Proc.v
ProcSpec.v
SysArg.v
SysFile.v
Exec.v
Syscall.v
Trap.v
Format.v
Uart.v
Printf.v
Boot.v
Main.v
Sh.v
ShSpec.v
ShRefine.v
Libc.v
ShRun.v
UserProgs.v
Buf.v
Sd.v
SdSpec.v
SdInit.v
SdInitSpec.v
BlockDev.v
Mkfs.v
MkfsSpec.v
