(* ===== verification/Prelude.v ===== *)
(** * A model of the rpi-os teaching kernel

    The repository is a small multi-core kernel for the Raspberry Pi 3 with a few
    user programs. This library translates its C code (under src/src/, all paths below
    are relative to it) into Rocq functions and proves what makes the code correct.

    ** The program and its parts

    The kernel proper (core/) has a page allocator, an allocator of objects in pages,
    page tables of user processes, processes with a scheduler in each of the nested
    containers, a console, the loader of programs, and the system calls. The file
    system (fs/) is a stack: open files over inodes and directories, over a block cache
    with a write-ahead log, over the SD card driver (driver/sd.c). common/ has locks,
    lists, bitmaps, strings and formatted output, driver/ the serial port, the clock and
    the interrupts, aarch64/ the page tables of the kernel. The programs are the shell
    (user/sh), a few small tools (user/cat, user/echo, user/mkdir), and the tool that
    builds the file system image on the host (user/mkfs). The parts meet at few places: a table of function pointers
    between the inode layer and the cache and between the arenas and the page
    allocator, the lock of the process table that is passed from one thread to another
    across [swtch], [sleep] and [wakeup], and the disk format that the kernel and mkfs
    share.

    ** How the code is modelled

    A C integer is a [Z] kept in the range of its type by [u8], [u32], [u64], [i32] and
    [i64], which are written where the C operation can leave the range. Memory is as
    detailed as the code that works on it needs: bytes (CString), pages of 512 words
    (PhysMem, VirtMem, Proc), nodes with link fields (ListNode, Buf), or records by
    address. A function is a state transformer [M S A]; its outcome is [Ok] with the
    result and the new state, [Panic], [Blocked] (it waits for a lock another thread
    holds), [Undef] (C leaves the behaviour open), or [NoFuel]. A function that gives up
    the CPU is cut there, and its two parts are definitions of their own.

    A C type of function pointers is a type class with the operations, and a second class
    has the laws that its clients rely on: [PageAllocator] (Arena; PhysMem implements it),
    [BlockDevice] and [ObjectPool] (Cache), [BlockCache] (Inode, laws and an
    implementation in InodeIO), [Transactions] (File). [Emmc] (Sd) are the registers of
    the controller, and [EmmcAnswers] and [EmmcCard] what the theorems assume of it; in the
    same way [Mmio] and [CoreTimer] (Interrupt) are the registers of the other devices, and
    [IrqController] (Interrupt) and [MiniUart] (Uart) what their manuals say.

    A user program is an interaction tree whose events are the calls of the C library
    (Libc); [behaves] relates it to what its processes do when these calls behave as POSIX
    says. A concrete device, file system or scheduler instantiates each of these
    interfaces, so that the theorems are about something.

    A loop that is not structural takes fuel. The definitions that other code calls
    compute enough of it from their arguments (one unit per block, page, byte or entry
    that the loop can visit), or take it as an argument, as [my_uvm_copy], [fork] and
    [parsecmd] do; the theorems then say how much is enough (the number of pages, of bytes,
    or the length of the line) and show that the function returns. The polling loops of
    the SD driver have the bounds of the source. [NoFuel] is not a behaviour of C: no
    theorem about a result accepts it.

    ** The files

    - Prelude: integers, outcomes, the monad and its rules, lists and bytes.
    - Locks (common/spinlock.c, core/sleeplock.c, common/rc.c): the operations, and the
      spin lock as a step relation. Mutual exclusion in every interleaving.
    - ListNode (common/list.c): circular lists in a heap of nodes, with the two lemmas
      that let the cache and the inodes treat such a list as a sequence.
    - Bitmap (common/bitmap.c, common/defines.h) and CString (common/string.c).
    - Format (common/format.c): [vformat] prints what a directive asks for.
    - PhysMem (core/physical_memory.c): the list of free pages; allocating and freeing.
    - Arena (core/arena.c): objects in pages over any page allocator; objects in use are
      distinct, do not overlap and belong to one arena; [clear_arena] terminates.
    - Cache, CacheLog, CacheAlloc (fs/cache.c): the cache shows clients the content they
      wrote; a commit interrupted by a crash happens entirely or not at all; the
      reservations keep the log from overflowing; the bitmap of blocks.
    - Inode, InodeIO (fs/inode.c): the block table of an inode, reading and writing as
      operations on a sequence of bytes, directories as a map from names, paths.
    - File (fs/file.c): reference counts and offsets of open files.
    - Console (core/console.c): the input ring is a line editor over a bounded queue.
    - Printf (core/console.c): messages are printed whole, and a panic is the last one.
    - VirtMem, UserMem, VmFree (core/virtual_memory.c, aarch64/mmu.h): a page table as a
      partial function on virtual pages; mapping, unmapping, copying and freeing.
    - KernelPt (aarch64/kernel_pt.c, aarch64/mmu.h): the literal tables of the kernel and
      the walk of the MMU; user code reaches its own pages and nothing else.
    - VmTest (core/virtual_memory.c): the structure of function pointers and the test at
      boot, which passes.
    - Interrupt (driver/interrupt.c, driver/clock.c, driver/irq.h), Uart (driver/uart.c,
      core/char_device.c), Boot (their initialisation): every enabled line has a handler,
      and the serial interrupt runs the line editor on the received bytes.
    - Mbox (driver/mbox.c): the two questions to the firmware.
    - Main (main.c): the CPUs at the start, around [init_lock].
    - Sched, SchedMachine, SchedInv, SchedSafe (core/sched.c, core/container.c, the part of
      core/proc.c on the process table): the scheduler threads of all CPUs and containers
      as one machine, with an invariant that every step keeps. A process runs on one CPU,
      no wakeup is lost, the table locks do not deadlock, no runnable process is skipped.
    - Proc, ProcSpec (core/proc.c, core/container.c, core/trapframe.h): [fork], [exit],
      [wait], [growproc] and the first processes.
    - SysArg, SysFile, Exec, Syscall (core/syscall.c, core/sysfile.c, core/exec.c,
      core/sysproc.c, core/sysproc_my.c, core/trap.c):
      the system calls, the loader and the stack it builds, the trap handler. What comes
      from the C library (the layout of ELF files, flags, the stat structure, the numbers
      of the calls) is a parameter. Trap follows the call that makes a process from the
      exception through the table of calls to [fork] and back.
    - Sh, ShSpec, ShRefine (user/sh/main.c): the parser of the shell refines a parser on
      tokens, which decides the grammar; printing and parsing.
    - Libc, ShRun (user/sh/main.c): the shell runs the processes that a line means, with
      the descriptors of its redirections and pipes. UserProgs (user/cat, user/echo,
      user/mkdir): what these print.
    - Buf, Sd, SdSpec (driver/buf.c, driver/sd.c): the request queue, the interrupt
      handler and the command layer. The driver serves requests first in, first out, one
      transfer at a time, for every controller that follows the phases of a transfer.
    - SdInit, SdInitSpec (driver/sd.c): the clock divider, the capacity of the card and
      the initialisation, which returns for every behaviour of the controller.
    - BlockDev (fs/block_device.c): [sd_read] and [sd_write] make an array of blocks.
    - Mkfs, MkfsSpec (user/mkfs/main.c): the image that mkfs writes satisfies the invariant
      that InodeIO assumes of a disk, and holds the input files.

    ** Assumptions

    Threads interleave where they take or release a lock or switch; within such a section
    the state is changed by one thread only (Locks shows it for the spin lock). Atomic
    operations are sequentially consistent. A write of one disk block is atomic. The MMU
    walks tables as the manual of the architecture says, and a TLB shows no stale entries.
    [char] is unsigned, as it is on this architecture.

    ** Not modelled

    - core/sched_simple.c is compiled out ([MULTI_SCHEDULER]); fs/ocache.c is an earlier
      copy of fs/cache.c that the linker does not take.
    - The intrinsics, the context switch, the exception vectors and the boot code in
      assembly.
    - [init_trap], [sdParseCID], which only prints, the self-tests [arena_test],
      [container_test] and [sd_test], and init_filesystem of fs/fs.c, which calls three
      functions that are modelled.
    - user/init, which never ends, while [behaves] is about programs that do; user/ls,
      which prints what the C library returns for each entry. *)

From stdpp Require Export base numbers list gmap strings.
From Stdlib Require Ascii.

#[global] Set Default Goal Selector "!".

Declare Scope rpi_scope.
Delimit Scope rpi_scope with rpi.
#[global] Open Scope Z_scope.

(** ** Machine integers

    A C value of an unsigned type of [w] bits is a [Z] in [0, 2^w); every
    arithmetic operation that can leave the range is followed by the
    corresponding wrap-around. Signed types wrap to [-2^(w-1), 2^(w-1)). *)
Definition wrap (w : Z) (x : Z) : Z := x mod 2 ^ w.
Definition u8 (x : Z) : Z := wrap 8 x.
Definition u16 (x : Z) : Z := wrap 16 x.
Definition u32 (x : Z) : Z := wrap 32 x.
Definition u64 (x : Z) : Z := wrap 64 x.
Definition swrap (w : Z) (x : Z) : Z := (x + 2 ^ (w - 1)) mod 2 ^ w - 2 ^ (w - 1).
Definition i32 (x : Z) : Z := swrap 32 x.
Definition i64 (x : Z) : Z := swrap 64 x.

(** [NULL]. *)
Definition NULL : Z := 0.

(** [x & m] used as a C truth value. *)
Definition test (x m : Z) : bool := negb (Z.land x m =? 0).

(** ** Outcomes and the state monad

    A kernel function is a function from the state it works on to an outcome:
    it returns a value and the new state, it panics ([PANIC], a failed
    [assert]), it has to wait for another thread (a held spin lock, [sleep]),
    or it does something the C language leaves undefined (a null or dangling
    dereference, an index out of bounds). [NoFuel] is the outcome of a loop
    whose fuel ran out; no C behaviour corresponds to it, and the theorems
    exclude it. *)
Inductive outcome (S A : Type) : Type :=
| Ok (a : A) (s : S)
| Panic (msg : string)
| Blocked (s : S)
| Undef
| NoFuel.
Arguments Ok {S A} a s.
Arguments Panic {S A} msg.
Arguments Blocked {S A} s.
Arguments Undef {S A}.
Arguments NoFuel {S A}.

Definition M (S A : Type) : Type := S → outcome S A.

#[global] Instance M_ret {S} : MRet (M S) := λ A a s, Ok a s.
#[global] Instance M_bind {S} : MBind (M S) := λ A B k m s,
  match m s with
  | Ok a s' => k a s'
  | Panic e => Panic e
  | Blocked s' => Blocked s'
  | Undef => Undef
  | NoFuel => NoFuel
  end.

Section primitives.
Context {S : Type}.

Definition getS : M S S := λ s, Ok s s.
Definition putS (s' : S) : M S unit := λ _, Ok () s'.
Definition gets {A} (f : S → A) : M S A := λ s, Ok (f s) s.
Definition modify (f : S → S) : M S unit := λ s, Ok () (f s).
Definition panic {A} (msg : string) : M S A := λ _, Panic msg.
Definition undef {A} : M S A := λ _, Undef.
Definition blocked {A} : M S A := λ s, Blocked s.
Definition nofuel {A} : M S A := λ _, NoFuel.
(** [assert(b)] / [asserts(b, ...)] of core/console.h. *)
Definition assertM (b : bool) (msg : string) : M S unit :=
  if b then mret () else panic msg.
(** Read a value that must be there: the C code dereferences it. *)
Definition derefM {A} (o : option A) : M S A :=
  match o with Some a => mret a | None => undef end.
Definition whenM (b : bool) (m : M S unit) : M S unit :=
  if b then m else mret ().

(** [for (i = i0; i < i0 + n; i++) body], where [body] leaves the loop
    early (a [break] or a [return]) by giving [Some]. *)
Fixpoint for_loop {R} (n : nat) (i : Z) (body : Z → M S (option R)) : M S (option R) :=
  match n with
  | O => mret None
  | Datatypes.S n' =>
      body i ≫= λ r,
      match r with
      | Some v => mret (Some v)
      | None => for_loop n' (i + 1) body
      end
  end.
End primitives.

(** Run an operation of a component inside a larger state. *)
Definition zoom {S T A} (get : S → T) (put : T → S → S) (m : M T A) : M S A := λ s,
  match m (get s) with
  | Ok a t => Ok a (put t s)
  | Panic e => Panic e
  | Blocked t => Blocked (put t s)
  | Undef => Undef
  | NoFuel => NoFuel
  end.

#[global] Open Scope rpi_scope.

(** ** Total-correctness weakest preconditions

    [wp m Q s] says that [m] run from [s] returns (it neither panics, waits,
    is undefined nor runs out of fuel) and that [Q] holds of the result. *)
Definition wp {S A} (m : M S A) (Q : A → S → Prop) (s : S) : Prop :=
  match m s with Ok a s' => Q a s' | _ => False end.

Section wp.
Context {S : Type}.
Implicit Types s : S.

Lemma wp_ret {A} (a : A) Q s : Q a s → wp (mret a) Q s.
Proof. done. Qed.

Lemma wp_bind {A B} (m : M S A) (k : A → M S B) Q s :
  wp m (λ a s', wp (k a) Q s') s → wp (m ≫= k) Q s.
Proof. unfold wp, mbind, M_bind. by destruct (m s). Qed.

Lemma wp_bind_inv {A B} (m : M S A) (k : A → M S B) Q s :
  wp (m ≫= k) Q s → wp m (λ a s', wp (k a) Q s') s.
Proof. unfold wp, mbind, M_bind. by destruct (m s). Qed.

Lemma wp_mono {A} (m : M S A) (Q Q' : A → S → Prop) s :
  wp m Q s → (∀ a s', Q a s' → Q' a s') → wp m Q' s.
Proof. unfold wp. destruct (m s); naive_solver. Qed.

Lemma wp_Ok {A} (m : M S A) (Q : A → S → Prop) s :
  wp m Q s ↔ ∃ a s', m s = Ok a s' ∧ Q a s'.
Proof.
  unfold wp. split; [destruct (m s); by eauto|].
  intros (a & s' & -> & HQ). done.
Qed.

Lemma wp_assertM b msg (Q : unit → S → Prop) s :
  b = true → Q () s → wp (assertM b msg) Q s.
Proof. by intros ->. Qed.

Lemma wp_derefM {A} (o : option A) a (Q : A → S → Prop) s :
  o = Some a → Q a s → wp (derefM o) Q s.
Proof. by intros ->. Qed.

Lemma bind_Ok {A B} (m : M S A) (k : A → M S B) s a s' :
  m s = Ok a s' → (m ≫= k) s = k a s'.
Proof. unfold mbind, M_bind. by intros ->. Qed.

Lemma bind_Ok_inv {A B} (m : M S A) (k : A → M S B) s b s'' :
  (m ≫= k) s = Ok b s'' → ∃ a s', m s = Ok a s' ∧ k a s' = Ok b s''.
Proof. unfold mbind, M_bind. destruct (m s); naive_solver. Qed.

(** A loop whose body never leaves early keeps an invariant indexed by the
    loop counter. *)
Lemma wp_for_loop {R} (I : Z → S → Prop) (body : Z → M S (option R)) n :
  ∀ i s (Q : option R → S → Prop),
  I i s →
  (∀ j s', i ≤ j < i + Z.of_nat n → I j s' →
     wp (body j) (λ r s'', match r with
                           | None => I (j + 1) s''
                           | Some v => Q (Some v) s'' end) s') →
  (∀ s', I (i + Z.of_nat n) s' → Q None s') →
  wp (for_loop n i body) Q s.
Proof.
  induction n as [|n IH]; intros i s Q HI Hbody HQ; simpl.
  { apply wp_ret, HQ. by replace (i + Z.of_nat 0) with i by lia. }
  apply wp_bind. eapply wp_mono; [apply Hbody; [lia|done]|].
  intros [v|] s' Hs'; simpl; [by apply wp_ret|].
  apply IH; [done| |].
  - intros j s'' Hj. apply Hbody. lia.
  - intros s''. replace (i + 1 + Z.of_nat n) with (i + Z.of_nat (Datatypes.S n)) by lia. auto.
Qed.
End wp.

Lemma zoom_Ok {S T A} (get : S → T) (put : T → S → S) (m : M T A) s a t :
  m (get s) = Ok a t → zoom get put m s = Ok a (put t s).
Proof. unfold zoom. by intros ->. Qed.

Lemma wp_zoom {S T A} (get : S → T) (put : T → S → S) (m : M T A) Q s :
  wp m (λ a t, Q a (put t s)) (get s) → wp (zoom get put m) Q s.
Proof. unfold wp, zoom. by destruct (m (get s)). Qed.

(** ** Ltac of the development *)

(** One symbolic-execution step of a [wp] goal. *)
Ltac wp_step :=
  first
    [ apply wp_bind
    | apply wp_ret
    | apply wp_assertM; [try done; try lia|]
    | eapply wp_derefM; [eassumption || reflexivity|]
    | match goal with
      | |- wp getS _ _ => unfold wp, getS
      | |- wp (gets _) _ _ => unfold wp, gets
      | |- wp (modify _) _ _ => unfold wp, modify
      | |- wp (putS _) _ _ => unfold wp, putS
      end ].
Ltac wp_steps := repeat (wp_step; cbn beta iota).

(** Decide a boolean guard from the arithmetic facts at hand. *)
Ltac bool_decide_lia :=
  repeat match goal with
  | |- context [Z.ltb ?a ?b] => destruct (Z.ltb_spec a b); try lia
  | |- context [Z.leb ?a ?b] => destruct (Z.leb_spec a b); try lia
  | |- context [Z.eqb ?a ?b] => destruct (Z.eqb_spec a b); try lia
  end.

(** ** Generic lemmas on integers *)

Create HintDb rpi.

Lemma wrap_range w x : 0 ≤ w → 0 ≤ wrap w x < 2 ^ w.
Proof. intros. apply Z.mod_pos_bound. lia. Qed.

Lemma wrap_small w x : 0 ≤ x < 2 ^ w → wrap w x = x.
Proof. apply Z.mod_small. Qed.

Lemma u64_small x : 0 ≤ x < 2 ^ 64 → u64 x = x.
Proof. apply Z.mod_small. Qed.

Lemma u32_small x : 0 ≤ x < 2 ^ 32 → u32 x = x.
Proof. apply Z.mod_small. Qed.

Lemma i32_small z : - 2 ^ 31 ≤ z < 2 ^ 31 → i32 z = z.
Proof. intros. unfold i32, swrap. change (2 ^ (32 - 1)) with (2 ^ 31). rewrite Z.mod_small; lia. Qed.

Lemma i64_small z : - 2 ^ 63 ≤ z < 2 ^ 63 → i64 z = z.
Proof. intros. unfold i64, swrap. change (2 ^ (64 - 1)) with (2 ^ 63). rewrite Z.mod_small; lia. Qed.

Lemma u64_range x : 0 ≤ u64 x < 2 ^ 64.
Proof. by apply wrap_range. Qed.

Lemma u32_range x : 0 ≤ u32 x < 2 ^ 32.
Proof. by apply wrap_range. Qed.

#[export] Hint Resolve u64_range u32_range : rpi.

(** ** Byte strings *)

(** Replace the bytes of [dst] from [off] on by [src]. *)
Definition splice {A} (off : nat) (src dst : list A) : list A :=
  take off dst ++ src ++ drop (off + length src) dst.
Definition slice {A} (off n : nat) (l : list A) : list A := take n (drop off l).

Section splice.
Context {A : Type}.
Implicit Types l src dst : list A.

Lemma length_splice off src dst :
  (off + length src ≤ length dst)%nat → length (splice off src dst) = length dst.
Proof. intros. unfold splice. rewrite !length_app, length_take, length_drop. lia. Qed.

Lemma length_slice off n l : (off + n ≤ length l)%nat → length (slice off n l) = n.
Proof. intros. unfold slice. rewrite length_take, length_drop. lia. Qed.

Lemma lookup_slice off n l i :
  slice off n l !! i = if decide (i < n)%nat then l !! (off + i)%nat else None.
Proof.
  unfold slice. case_decide.
  - by rewrite lookup_take_lt, lookup_drop by lia.
  - by rewrite lookup_take_ge by lia.
Qed.

Lemma lookup_splice off src dst i :
  (off + length src ≤ length dst)%nat →
  splice off src dst !! i =
    if decide (off ≤ i < off + length src)%nat then src !! (i - off)%nat else dst !! i.
Proof.
  intros Hlen. unfold splice.
  destruct (decide (i < off)%nat).
  { rewrite lookup_app_l by (rewrite length_take; lia).
    rewrite lookup_take_lt by lia. by rewrite decide_False by lia. }
  rewrite lookup_app_r by (rewrite length_take; lia).
  rewrite length_take, Nat.min_l by lia.
  case_decide.
  - by rewrite lookup_app_l by lia.
  - rewrite lookup_app_r by lia. rewrite lookup_drop. f_equal. lia.
Qed.

Lemma slice_splice_eq off src dst :
  (off + length src ≤ length dst)%nat → slice off (length src) (splice off src dst) = src.
Proof.
  intros. apply list_eq; intros i. rewrite lookup_slice, lookup_splice by lia.
  case_decide; [|by rewrite lookup_ge_None_2 by lia].
  rewrite decide_True by lia. f_equal. lia.
Qed.

Lemma slice_splice_ne off src dst off' n :
  (off + length src ≤ length dst)%nat →
  (off' + n ≤ off ∨ off + length src ≤ off')%nat →
  slice off' n (splice off src dst) = slice off' n dst.
Proof.
  intros. apply list_eq; intros i. rewrite !lookup_slice. case_decide; [|done].
  rewrite lookup_splice by lia. rewrite decide_False by lia. done.
Qed.
End splice.

(** The bytes of a string literal. *)
Fixpoint str (s : string) : list Z :=
  match s with
  | EmptyString => []
  | String a s' => Z.of_N (Ascii.N_of_ascii a) :: str s'
  end.
(** A literal that ends with a newline. *)
Definition strln (s : string) : list Z := str s ++ [10].

(** Little-endian layout of an [n]-byte integer, as on the target. *)
Fixpoint le_bytes (n : nat) (z : Z) : list Z :=
  match n with
  | O => []
  | S n' => z mod 256 :: le_bytes n' (z / 256)
  end.
Fixpoint le_val (l : list Z) : Z :=
  match l with
  | [] => 0
  | b :: l' => b + 256 * le_val l'
  end.

Lemma length_le_bytes n z : length (le_bytes n z) = n.
Proof. revert z. induction n; intros; simpl; auto. Qed.

Lemma le_val_bytes n z : le_val (le_bytes n z) = z mod 256 ^ Z.of_nat n.
Proof.
  revert z. induction n as [|n IH]; intros z; [by rewrite Z.mod_1_r|].
  cbn [le_bytes le_val]. rewrite IH.
  rewrite Nat2Z.inj_succ, Z.pow_succ_r by lia.
  rewrite Z.rem_mul_r by lia. lia.
Qed.

Lemma le_val_bytes_small n z :
  0 ≤ z < 256 ^ Z.of_nat n → le_val (le_bytes n z) = z.
Proof. intros. rewrite le_val_bytes. by apply Z.mod_small. Qed.

Lemma le_bytes_range n z : Forall (λ b, 0 ≤ b < 256) (le_bytes n z).
Proof.
  revert z. induction n; intros z; simpl; constructor; auto.
  apply Z.mod_pos_bound. lia.
Qed.

Lemma length_bind_le_bytes n (l : list Z) : length (l ≫= le_bytes n) = (n * length l)%nat.
Proof. induction l as [|x l IH]; [simpl; lia|]. rewrite bind_cons, length_app, length_le_bytes, IH. simpl. lia. Qed.

Lemma Forall_bind_le_bytes n (l : list Z) : Forall (λ b, 0 ≤ b < 256) (l ≫= le_bytes n).
Proof. induction l as [|x l IH]; [constructor|]. rewrite bind_cons. apply Forall_app. split; [apply le_bytes_range|done]. Qed.

Lemma le_val_range l :
  Forall (λ b, 0 ≤ b < 256) l → 0 ≤ le_val l < 256 ^ Z.of_nat (length l).
Proof.
  induction 1 as [|b l Hb Hl IH]; cbn [length le_val]; [lia|].
  rewrite Nat2Z.inj_succ, Z.pow_succ_r by lia. lia.
Qed.

Lemma le_bytes_val l :
  Forall (λ b, 0 ≤ b < 256) l → le_bytes (length l) (le_val l) = l.
Proof.
  induction 1 as [|b l Hb Hl IH]; simpl; [done|]. f_equal.
  - rewrite (Z.mul_comm 256), Z.mod_add by lia. by apply Z.mod_small.
  - rewrite (Z.mul_comm 256), Z.div_add, Z.div_small by lia. done.
Qed.

(** ** Counting *)

(** How many of [0 .. n-1] satisfy [f]. *)
Fixpoint count_upto (f : Z → bool) (n : nat) : Z :=
  match n with
  | O => 0
  | S n' => (if f (Z.of_nat n') then 1 else 0) + count_upto f n'
  end.

Section count.
Implicit Types f g : Z → bool.

Lemma count_upto_ext f g n :
  (∀ i, 0 ≤ i < Z.of_nat n → f i = g i) → count_upto f n = count_upto g n.
Proof.
  induction n as [|n IH]; intros Hfg; [done|]. cbn [count_upto].
  rewrite Hfg by lia. rewrite IH; [done|]. intros. apply Hfg. lia.
Qed.

Lemma count_upto_bounds f n : 0 ≤ count_upto f n ≤ Z.of_nat n.
Proof. induction n; cbn [count_upto]; [lia|]. destruct (f _); lia. Qed.

Lemma count_upto_none f n : (∀ i, 0 ≤ i < Z.of_nat n → f i = false) → count_upto f n = 0.
Proof.
  induction n as [|n IH]; intros Hf; [done|]. cbn [count_upto]. rewrite Hf by lia.
  rewrite IH; [done|]. intros. apply Hf. lia.
Qed.

(** Setting one element raises the count by one. *)
Lemma count_upto_set f g n i :
  0 ≤ i < Z.of_nat n → f i = false → g i = true → (∀ j, 0 ≤ j → j ≠ i → g j = f j) →
  count_upto g n = count_upto f n + 1.
Proof.
  intros Hi Hf Hg Hfg. induction n as [|n IH]; [lia|]. cbn [count_upto].
  destruct (decide (i = Z.of_nat n)) as [->|].
  - rewrite Hf, Hg. rewrite (count_upto_ext g f); [lia|]. intros. apply Hfg; lia.
  - rewrite Hfg by lia. rewrite IH by lia. lia.
Qed.

Lemma count_upto_not_full f n :
  count_upto f n < Z.of_nat n → ∃ i, 0 ≤ i < Z.of_nat n ∧ f i = false ∧ ∀ j, 0 ≤ j < i → f j = true.
Proof.
  induction n as [|n IH]; [simpl; lia|]. cbn [count_upto]. intros Hc.
  destruct (decide (count_upto f n < Z.of_nat n)) as [Hlt|Hge].
  { destruct (IH Hlt) as (i & ? & ? & ?). exists i. split_and!; [lia|lia|done..]. }
  pose proof (count_upto_bounds f n). exists (Z.of_nat n). split; [lia|]. split.
  { destruct (f _); [lia|done]. }
  clear IH Hc. assert (count_upto f n = Z.of_nat n) as E by lia. clear - E.
  induction n as [|n IH]; intros j Hj; [lia|]. cbn [count_upto] in E.
  pose proof (count_upto_bounds f n). destruct (f (Z.of_nat n)) eqn:Ef; [|lia].
  destruct (decide (j = Z.of_nat n)) as [->|]; [done|]. apply IH; lia.
Qed.

Lemma count_upto_pos f n i : 0 ≤ i < Z.of_nat n → f i = true → 0 < count_upto f n.
Proof.
  intros Hi Hf. induction n as [|n IH]; [lia|]. cbn [count_upto].
  pose proof (count_upto_bounds f n).
  destruct (decide (i = Z.of_nat n)) as [->|]; [rewrite Hf; lia|].
  specialize (IH ltac:(lia)). destruct (f (Z.of_nat n)); lia.
Qed.
End count.

Lemma u64_add_l a b : u64 (u64 a + b) = u64 (a + b).
Proof. unfold u64, wrap. by rewrite Zplus_mod_idemp_l. Qed.
Lemma u64_sub_l a b : u64 (u64 a - b) = u64 (a - b).
Proof. unfold u64, wrap. by rewrite Zminus_mod_idemp_l. Qed.

(** [wp] of a function whose result is known. *)
Lemma wp_of_Ok {S A} (m : M S A) (Q : A → S → Prop) s a s' :
  m s = Ok a s' → Q a s' → wp m Q s.
Proof. unfold wp. by intros ->. Qed.

(** A search loop: the body does nothing until index [k], where it leaves. *)
Lemma for_loop_first {S R} (body : Z → M S (option R)) n i k r s s' :
  i ≤ k < i + Z.of_nat n → (∀ j, i ≤ j < k → body j s = Ok None s) →
  body k s = Ok (Some r) s' → for_loop n i body s = Ok (Some r) s'.
Proof.
  revert i. induction n as [|n IH]; intros i Hk Hb Hr; [lia|]. cbn [for_loop].
  destruct (decide (k = i)) as [->|].
  - by erewrite bind_Ok by exact Hr.
  - erewrite bind_Ok by (apply Hb; lia). cbn beta iota. apply IH; [lia| |done].
    intros. apply Hb. lia.
Qed.

Lemma for_loop_app {S R} (body : Z → M S (option R)) n m i s s' :
  for_loop n i body s = Ok None s' → for_loop (n + m) i body s = for_loop m (i + Z.of_nat n) body s'.
Proof.
  revert i s. induction n as [|n IH]; intros i s; cbn [for_loop Nat.add].
  { intros [= <-]. by rewrite Z.add_0_r. }
  intros (r & s1 & E & E2)%bind_Ok_inv. erewrite bind_Ok by exact E. destruct r; [done|]. rewrite (IH _ _ E2). f_equal. lia.
Qed.
Lemma for_loop_none {S R} (body : Z → M S (option R)) n i s :
  (∀ j, i ≤ j < i + Z.of_nat n → body j s = Ok None s) → for_loop n i body s = Ok None s.
Proof.
  revert i. induction n as [|n IH]; intros i Hb; [done|]. cbn [for_loop].
  erewrite bind_Ok by (apply Hb; lia). cbn beta iota. apply IH. intros. apply Hb. lia.
Qed.

(** Sequencing, reassociated. *)
Lemma bind_assoc {S A B E} (m : M S A) (k : A → M S B) (k' : B → M S E) s :
  ((m ≫= k) ≫= k') s = (m ≫= λ a, k a ≫= k') s.
Proof. unfold mbind, M_bind. by destruct (m s). Qed.
Lemma bind_ext {S A B} (m m' : M S A) (k k' : A → M S B) s :
  m s = m' s → (∀ a s', m s = Ok a s' → k a s' = k' a s') → (m ≫= k) s = (m' ≫= k') s.
Proof. intros E Hk. unfold mbind, M_bind. rewrite <- E. destruct (m s); auto. Qed.
Lemma wp_bind_assoc {S A B E} (m : M S A) (k : A → M S B) (k' : B → M S E) (Q : E → S → Prop) s :
  wp ((m ≫= k) ≫= k') Q s → wp (m ≫= λ a, k a ≫= k') Q s.
Proof. intros H. apply wp_bind. apply wp_bind_inv in H. apply wp_bind_inv in H. eapply wp_mono; [exact H|]. intros a s' H'. by apply wp_bind. Qed.
