(* ===== verification/Locks.v ===== *)
(** * Spin locks, sleep locks and reference counts

    common/spinlock.c, core/sleeplock.c and common/rc.c. The operations are
    given twice: as the functions other components call ([acquire_spinlock] is
    [Blocked] while another CPU holds the lock), and, for the spin lock, as a
    step relation in which the load of [locked], the test-and-set, the store to
    [cpu] and the clear are separate steps that any number of CPUs interleave. *)
From S2P Require Import Prelude.

(** ** common/spinlock.c *)

Record SpinLock := mkSpinLock {
  locked : bool;
  lcpu : option Z;   (* [cpu]: the index of the holder in [cpus], or [NULL] *)
  lname : string
}.

#[global] Instance SpinLock_eq_dec : EqDecision SpinLock.
Proof. solve_decision. Defined.

Definition init_spinlock (name : string) : SpinLock :=
  {| locked := false; lcpu := None; lname := name |}.

(** [__atomic_test_and_set(&lock->locked, ...)]: the previous value is the
    result, the new value is [true]. *)
Definition test_and_set (l : SpinLock) : bool * SpinLock :=
  (locked l, {| locked := true; lcpu := lcpu l; lname := lname l |}).

Definition try_acquire_spinlock (me : Z) : M SpinLock bool := λ l,
  if locked l then Ok false l
  else
    let '(old, l') := test_and_set l in
    if old then Ok false l'
    else Ok true {| locked := locked l'; lcpu := Some me; lname := lname l' |}.

(** The loop leaves the lock unchanged until a [try] succeeds, so a failed
    attempt means that the CPU spins until another one releases the lock. *)
Definition acquire_spinlock (me : Z) : M SpinLock unit :=
  got ← try_acquire_spinlock me;
  if (got : bool) then mret () else blocked.

Definition holding_spinlock (l : SpinLock) : bool := locked l.

Definition release_spinlock : M SpinLock unit := λ l,
  if negb (holding_spinlock l) then Panic "release: lock not held"
  else Ok () {| locked := false; lcpu := None; lname := lname l |}.

Definition wait_spinlock (me : Z) : M SpinLock unit :=
  acquire_spinlock me;; release_spinlock.

Lemma acquire_spinlock_free me l :
  locked l = false →
  acquire_spinlock me l = Ok () {| locked := true; lcpu := Some me; lname := lname l |}.
Proof.
  intros H. unfold acquire_spinlock, mbind, M_bind, try_acquire_spinlock. by rewrite H; simpl; rewrite H.
Qed.

Lemma acquire_spinlock_held me l : locked l = true → acquire_spinlock me l = Blocked l.
Proof.
  intros H. unfold acquire_spinlock, mbind, M_bind, try_acquire_spinlock. by rewrite H.
Qed.

Lemma release_spinlock_held l :
  locked l = true → release_spinlock l = Ok () (init_spinlock (lname l)).
Proof. intros H. unfold release_spinlock, holding_spinlock. by rewrite H. Qed.

(** *** Interleaving *)
Module SpinStep.
(** Where a CPU is in [acquire_spinlock] / [release_spinlock]. *)
Inductive pc :=
| Out          (* about to read [lock->locked] in [try_acquire_spinlock] *)
| Saw          (* read [false], about to test-and-set *)
| Won          (* test-and-set returned [false], about to store [cpu] *)
| Crit         (* returned from [acquire_spinlock] *)
| Rel          (* in [release_spinlock], after [lock->cpu = NULL] *)
| Dead.        (* in [PANIC("release: lock %s not held\n")] *)

Record sys := mkSys { lk : SpinLock; pcs : Z → pc }.

Definition set_pc (i : Z) (p : pc) (f : Z → pc) : Z → pc :=
  λ j, if decide (j = i) then p else f j.

Inductive step : sys → sys → Prop :=
| step_read_free i σ :
    pcs σ i = Out → locked (lk σ) = false →
    step σ (mkSys (lk σ) (set_pc i Saw (pcs σ)))
| step_read_held i σ :
    pcs σ i = Out → locked (lk σ) = true →
    step σ σ
| step_tas i σ :
    pcs σ i = Saw →
    step σ (mkSys (snd (test_and_set (lk σ)))
              (set_pc i (if fst (test_and_set (lk σ)) then Out else Won) (pcs σ)))
| step_set_cpu i σ :
    pcs σ i = Won →
    step σ (mkSys (mkSpinLock (locked (lk σ)) (Some i) (lname (lk σ)))
              (set_pc i Crit (pcs σ)))
| step_release i σ :
    pcs σ i = Crit → holding_spinlock (lk σ) = true →
    step σ (mkSys (mkSpinLock (locked (lk σ)) None (lname (lk σ)))
              (set_pc i Rel (pcs σ)))
| step_release_panic i σ :
    pcs σ i = Crit → holding_spinlock (lk σ) = false →
    step σ (mkSys (lk σ) (set_pc i Dead (pcs σ)))
| step_clear i σ :
    pcs σ i = Rel →
    step σ (mkSys (mkSpinLock false (lcpu (lk σ)) (lname (lk σ)))
              (set_pc i Out (pcs σ))).

Definition init_sys (name : string) : sys := mkSys (init_spinlock name) (λ _, Out).
Definition reachable (name : string) (σ : sys) : Prop := rtc step (init_sys name) σ.

(** Between a successful test-and-set and the clear. *)
Definition owns (p : pc) : bool :=
  match p with Won | Crit | Rel => true | _ => false end.

Record inv (σ : sys) : Prop := {
  inv_unique : ∀ i j, owns (pcs σ i) = true → owns (pcs σ j) = true → i = j;
  inv_locked : ∀ i, owns (pcs σ i) = true → locked (lk σ) = true;
  inv_owned : locked (lk σ) = true → ∃ i, owns (pcs σ i) = true;
  inv_cpu : ∀ i, pcs σ i = Crit → lcpu (lk σ) = Some i;
  inv_dead : ∀ i, pcs σ i ≠ Dead
}.

Lemma inv_init name : inv (init_sys name).
Proof. split; simpl; congruence. Qed.

Ltac pc_cases :=
  unfold set_pc in *; simpl in *;
  repeat (match goal with
          | H : context [decide (?a = ?b)] |- _ => destruct (decide (a = b)); subst
          | |- context [decide (?a = ?b)] => destruct (decide (a = b)); subst
          end; simpl in *).

Lemma inv_step σ σ' : inv σ → step σ σ' → inv σ'.
Proof.
  intros [Hu Hl Ho Hc Hd] Hs.
  inversion Hs as [i ? Hp Hk|i ? Hp Hk|i ? Hp|i ? Hp|i ? Hp Hk|i ? Hp Hk|i ? Hp];
    subst; clear Hs; unfold test_and_set; simpl.
  - (* read false *)
    split; intros; pc_cases; try congruence; eauto.
  - by split.
  - (* test-and-set *)
    destruct (locked (lk σ)) eqn:Hk.
    + destruct (Ho eq_refl) as [k Hk'].
      assert (k ≠ i) by (intros ->; by rewrite Hp in Hk').
      split; intros; pc_cases; try congruence; eauto.
      exists k. by pc_cases.
    + assert (∀ j, owns (pcs σ j) = false) as Hno.
      { intros j. destruct (owns (pcs σ j)) eqn:E; [|done]. apply Hl in E. congruence. }
      split; intros; pc_cases; try congruence; try (by rewrite Hno in *); eauto.
      exists i. by pc_cases.
  - (* store cpu *)
    assert (owns (pcs σ i) = true) as Hi by by rewrite Hp.
    split; intros; pc_cases; try congruence; eauto.
    + exists i. by pc_cases.
    + exfalso. apply n. apply Hu; [|done]. match goal with H : _ = Crit |- _ => by rewrite H end.
  - (* release: cpu = NULL *)
    assert (owns (pcs σ i) = true) as Hi by by rewrite Hp.
    split; intros; pc_cases; try congruence; eauto.
    + exists i. by pc_cases.
    + exfalso. apply n. apply Hu; [|done]. match goal with H : _ = Crit |- _ => by rewrite H end.
  - (* a CPU in its critical section always finds the lock held *)
    exfalso. unfold holding_spinlock in Hk. rewrite (Hl i) in Hk; [done|by rewrite Hp].
  - (* clear *)
    assert (Hi : owns (pcs σ i) = true) by by rewrite Hp.
    assert (∀ j, j ≠ i → owns (pcs σ j) = false) as Hno.
    { intros j Hj. destruct (owns (pcs σ j)) eqn:E; [|done]. by rewrite (Hu j i E Hi) in Hj. }
    split; intros; pc_cases; try congruence; try (by rewrite Hno in *); eauto.
Qed.

Lemma inv_reachable name σ : reachable name σ → inv σ.
Proof.
  unfold reachable. intros H. remember (init_sys name) as σ0 eqn:E.
  assert (inv σ0) as Hi by (subst; apply inv_init). clear E.
  induction H; eauto using inv_step.
Qed.

(** The function other components call is a schedule of these steps. *)
Lemma set_pc_set_pc i p q f j : set_pc i p (set_pc i q f) j = set_pc i p f j.
Proof. unfold set_pc. by case_decide. Qed.
End SpinStep.

(** C32. In every interleaving of [acquire_spinlock] and [release_spinlock]
    by any number of CPUs, at most one CPU is between a successful test-and-set
    and the clear, a CPU that returned from [acquire_spinlock] finds its own
    index in [lock->cpu], and [release_spinlock] never panics for it. *)
Theorem spinlock_mutual_exclusion name σ i j :
  SpinStep.reachable name σ →
  (SpinStep.owns (SpinStep.pcs σ i) = true → SpinStep.owns (SpinStep.pcs σ j) = true → i = j) ∧
  (SpinStep.pcs σ i = SpinStep.Crit →
     holding_spinlock (SpinStep.lk σ) = true ∧ lcpu (SpinStep.lk σ) = Some i) ∧
  SpinStep.pcs σ i ≠ SpinStep.Dead.
Proof.
  intros H%SpinStep.inv_reachable. destruct H as [Hu Hl Ho Hc Hd].
  split_and!; [by auto| |by auto].
  intros E. split; [|by auto]. apply (Hl i). by rewrite E.
Qed.

(** CPU 0 acquires the lock while CPU 1 has already seen it free. *)
Lemma spinlock_mutual_exclusion_witness :
  ∃ σ, SpinStep.pcs σ 0 = SpinStep.Crit ∧ SpinStep.pcs σ 1 = SpinStep.Out ∧
    (SpinStep.owns (SpinStep.pcs σ 0) = true → SpinStep.owns (SpinStep.pcs σ 1) = true → 0 = 1) ∧
    (SpinStep.pcs σ 0 = SpinStep.Crit →
       holding_spinlock (SpinStep.lk σ) = true ∧ lcpu (SpinStep.lk σ) = Some 0) ∧
    SpinStep.pcs σ 0 ≠ SpinStep.Dead.
Proof.
  eexists. split; [|split; [|apply (spinlock_mutual_exclusion "demo" _ 0 1)]].
  3:{ eapply rtc_l; [by apply (SpinStep.step_read_free 1)|].
      eapply rtc_l; [by apply (SpinStep.step_read_free 0)|].
      eapply rtc_l; [by apply (SpinStep.step_tas 0)|].
      eapply rtc_l; [by apply (SpinStep.step_set_cpu 0)|].
      eapply rtc_l; [by apply (SpinStep.step_tas 1)|]. apply rtc_refl. }
  - by vm_compute.
  - by vm_compute.
Defined.

(** ** core/sleeplock.c

    [wakeup] belongs to the process table (core/proc.c); here the channels it is
    called on are recorded, newest first. *)
Record SleepLock := mkSleepLock { slk : SpinLock; slocked : bool }.

#[global] Instance SleepLock_eq_dec : EqDecision SleepLock.
Proof. solve_decision. Defined.

Definition init_sleeplock (name : string) : SleepLock :=
  {| slk := init_spinlock name; slocked := false |}.

Definition set_slk (k : SpinLock) (l : SleepLock) : SleepLock :=
  {| slk := k; slocked := slocked l |}.

(** [Blocked]: the caller sleeps on [lock], with the inner spin lock released
    by [sleep], and starts over when it is woken up. *)
Definition acquire_sleeplock (me : Z) : M SleepLock unit :=
  zoom slk set_slk (acquire_spinlock me);;
  held ← gets slocked;
  if (held : bool) then zoom slk set_slk release_spinlock;; blocked
  else
    modify (λ l, {| slk := slk l; slocked := true |});;
    zoom slk set_slk release_spinlock.

Definition release_sleeplock (me addr : Z) : M (SleepLock * list Z) unit :=
  zoom fst (λ l s, (l, s.2))
    (zoom slk set_slk (acquire_spinlock me);;
     modify (λ l, {| slk := slk l; slocked := false |});;
     zoom slk set_slk release_spinlock);;
  modify (λ s, (s.1, addr :: s.2)).

Lemma acquire_sleeplock_spec me l :
  locked (slk l) = false →
  acquire_sleeplock me l =
    if slocked l then Blocked {| slk := init_spinlock (lname (slk l)); slocked := true |}
    else Ok () {| slk := init_spinlock (lname (slk l)); slocked := true |}.
Proof.
  intros H. unfold acquire_sleeplock, zoom, mbind, M_bind.
  rewrite acquire_spinlock_free by done. simpl.
  by destruct l as [k []].
Qed.

Lemma release_sleeplock_spec me addr l wk :
  locked (slk l) = false →
  release_sleeplock me addr (l, wk) =
    Ok () ({| slk := init_spinlock (lname (slk l)); slocked := false |}, addr :: wk).
Proof.
  intros H. unfold release_sleeplock, zoom, mbind, M_bind. simpl.
  by rewrite acquire_spinlock_free.
Qed.

(** ** common/rc.c *)
Record RefCount := mkRefCount { rcount : Z }.

Definition init_rc : RefCount := {| rcount := 0 |}.
Definition increment_rc (rc : RefCount) : RefCount := {| rcount := i64 (rcount rc + 1) |}.
Definition decrement_rc (rc : RefCount) : bool * RefCount :=
  let c := i64 (rcount rc - 1) in (c <=? 0, {| rcount := c |}).
