(* ===== verification/ListNode.v ===== *)
(** * Circular doubly linked lists (common/list.c)

    Nodes live in a heap from addresses to [ListNode] structures; a null or
    dangling dereference is [Undef]. [circ h l] says that the nodes of [l] form
    one circular list of [h] in that order, starting anywhere; the theorems show
    that [merge_list] and [detach_from_list] implement concatenation and removal
    on it, so that the components that embed [ListNode]s (arena, block cache,
    inode list) can be modelled on the sequence of their elements. *)
From S2P Require Import Prelude.

Record ListNode := mkListNode { prev : Z; next : Z }.

Abbreviation heap := (gmap Z ListNode).

Definition load (p : Z) : M heap ListNode := h ← getS; derefM (h !! p).
Definition store (p : Z) (n : ListNode) : M heap unit :=
  load p;; modify (λ h, <[p := n]> h).
Definition set_next (p q : Z) : M heap unit :=
  n ← load p; store p {| prev := prev n; next := q |}.
Definition set_prev (p q : Z) : M heap unit :=
  n ← load p; store p {| prev := q; next := next n |}.

Definition init_list_node (node : Z) : M heap unit :=
  store node {| prev := node; next := node |}.

Definition merge_list (node1 node2 : Z) : M heap Z :=
  if node1 =? NULL then mret node2
  else if node2 =? NULL then mret node1
  else
    n1 ← load node1; n2 ← load node2;
    let node3 := next n1 in
    let node4 := prev n2 in
    set_next node1 node2;;
    set_prev node2 node1;;
    set_next node4 node3;;
    set_prev node3 node4;;
    mret node1.

Definition detach_from_list (node : Z) : M heap Z :=
  n ← load node;
  let prev0 := prev n in
  (* node->prev->next = node->next; node->next->prev = node->prev *)
  set_next (prev n) (next n);;
  n' ← load node;
  set_prev (next n') (prev n');;
  init_list_node node;;
  if prev0 =? node then mret NULL else mret prev0.

(** ** The list a node belongs to *)
Definition next_of (h : heap) (p : Z) : option Z := next <$> h !! p.
Definition prev_of (h : heap) (p : Z) : option Z := prev <$> h !! p.
Definition link (h : heap) (a b : Z) : Prop := next_of h a = Some b ∧ prev_of h b = Some a.

(** From [a], through the nodes of [l], to [b]. *)
Fixpoint chain (h : heap) (a : Z) (l : list Z) (b : Z) : Prop :=
  match l with
  | [] => link h a b
  | x :: l' => link h a x ∧ chain h x l' b
  end.

Definition circ (h : heap) (l : list Z) : Prop :=
  match l with
  | [] => False
  | x :: l' => NoDup l ∧ chain h x l' x
  end.

Lemma chain_app h a l1 x l2 b :
  chain h a (l1 ++ x :: l2) b ↔ chain h a l1 x ∧ chain h x l2 b.
Proof. revert a. induction l1 as [|y l1 IH]; intros a; simpl; [done|]. rewrite IH. tauto. Qed.

Lemma circ_rotate h l1 x l2 : circ h (l1 ++ x :: l2) → circ h (x :: l2 ++ l1).
Proof.
  destruct l1 as [|y l1]; [by rewrite app_nil_r|].
  cbn [app circ]. intros [Hnd Hc]. apply chain_app in Hc as [Hc1 Hc2]. split.
  - rewrite app_comm_cons, (Permutation_app_comm (x :: l2)). by simpl.
  - apply chain_app. done.
Qed.

Lemma circ_NoDup h l : circ h l → NoDup l.
Proof. destruct l; [done|]. by intros []. Qed.

Lemma next_of_load h p q : next_of h p = Some q → ∃ n, h !! p = Some n ∧ next n = q.
Proof. unfold next_of. destruct (h !! p); naive_solver. Qed.
Lemma prev_of_load h p q : prev_of h p = Some q → ∃ n, h !! p = Some n ∧ prev n = q.
Proof. unfold prev_of. destruct (h !! p); naive_solver. Qed.

(** Field updates as heap functions. *)
Definition upd_next (p q : Z) (h : heap) : heap :=
  alter (λ n, {| prev := prev n; next := q |}) p h.
Definition upd_prev (p q : Z) (h : heap) : heap :=
  alter (λ n, {| prev := q; next := next n |}) p h.

Lemma alter_insert_some (f : ListNode → ListNode) (h : heap) p n :
  h !! p = Some n → alter f p h = <[p := f n]> h.
Proof.
  intros H. apply map_eq; intros q. destruct (decide (q = p)) as [->|].
  - by rewrite lookup_alter_eq, H, lookup_insert_eq.
  - by rewrite lookup_alter_ne, lookup_insert_ne.
Qed.

Lemma set_next_Ok h p q : is_Some (h !! p) → set_next p q h = Ok () (upd_next p q h).
Proof.
  intros [n Hn]. unfold set_next, store, load, mbind, M_bind, getS. rewrite Hn. simpl. rewrite Hn.
  unfold modify, upd_next. by erewrite alter_insert_some.
Qed.
Lemma set_prev_Ok h p q : is_Some (h !! p) → set_prev p q h = Ok () (upd_prev p q h).
Proof.
  intros [n Hn]. unfold set_prev, store, load, mbind, M_bind, getS. rewrite Hn. simpl. rewrite Hn.
  unfold modify, upd_prev. by erewrite alter_insert_some.
Qed.
Lemma load_Ok h p n : h !! p = Some n → load p h = Ok n h.
Proof. intros Hn. unfold load, mbind, M_bind, getS. by rewrite Hn. Qed.

Lemma upd_next_is_Some p q h x : is_Some (h !! x) → is_Some (upd_next p q h !! x).
Proof. unfold upd_next. rewrite lookup_alter_is_Some. done. Qed.
Lemma upd_prev_is_Some p q h x : is_Some (h !! x) → is_Some (upd_prev p q h !! x).
Proof. unfold upd_prev. rewrite lookup_alter_is_Some. done. Qed.
#[export] Hint Resolve upd_next_is_Some upd_prev_is_Some : rpi.

Lemma next_upd_next p q h x :
  is_Some (h !! p) → next_of (upd_next p q h) x = if decide (x = p) then Some q else next_of h x.
Proof.
  intros [n Hn]. unfold next_of, upd_next. case_decide; subst.
  - by rewrite lookup_alter_eq, Hn.
  - by rewrite lookup_alter_ne.
Qed.
Lemma prev_upd_next p q h x : prev_of (upd_next p q h) x = prev_of h x.
Proof.
  unfold prev_of, upd_next. destruct (decide (x = p)) as [->|].
  - rewrite lookup_alter_eq. by destruct (h !! p).
  - by rewrite lookup_alter_ne.
Qed.
Lemma prev_upd_prev p q h x :
  is_Some (h !! p) → prev_of (upd_prev p q h) x = if decide (x = p) then Some q else prev_of h x.
Proof.
  intros [n Hn]. unfold prev_of, upd_prev. case_decide; subst.
  - by rewrite lookup_alter_eq, Hn.
  - by rewrite lookup_alter_ne.
Qed.
Lemma next_upd_prev p q h x : next_of (upd_prev p q h) x = next_of h x.
Proof.
  unfold next_of, upd_prev. destruct (decide (x = p)) as [->|].
  - rewrite lookup_alter_eq. by destruct (h !! p).
  - by rewrite lookup_alter_ne.
Qed.

(** A chain only depends on the [next] of the nodes it leaves and the [prev] of
    the nodes it enters. *)
Lemma chain_ext h h' a l b :
  chain h a l b →
  (∀ x, x ∈ a :: l → next_of h' x = next_of h x) →
  (∀ x, x ∈ l ++ [b] → prev_of h' x = prev_of h x) →
  chain h' a l b.
Proof.
  revert a. induction l as [|y l IH]; intros a; simpl.
  - intros [H1 H2] Hn Hp. split.
    + rewrite Hn; [done|set_solver].
    + rewrite Hp; [done|set_solver].
  - intros [[H1 H2] Hc] Hn Hp. split.
    + split; [rewrite Hn|rewrite Hp]; set_solver.
    + apply IH; [done|intros; apply Hn; set_solver|intros; apply Hp; set_solver].
Qed.

(** The node before the end of a chain. *)
Fixpoint last_of (a : Z) (l : list Z) : Z :=
  match l with [] => a | x :: l' => last_of x l' end.

Lemma chain_last h a l b : chain h a l b → link h (last_of a l) b.
Proof.
  revert a. induction l as [|x l IH]; intros a; simpl; [done|].
  intros [_ Hc]. by apply IH.
Qed.
Lemma chain_first h a l b : chain h a l b → link h a (default b (head l)).
Proof. destruct l; simpl; [done|by intros []]. Qed.

Lemma last_of_elem a l : last_of a l ∈ a :: l.
Proof.
  revert a. induction l as [|x l IH]; intros a; simpl; [set_solver|].
  specialize (IH x). set_solver.
Qed.

Lemma circ_is_Some h l x : circ h l → x ∈ l → is_Some (h !! x).
Proof.
  destruct l as [|a l]; [done|]. intros [_ Hc] Hx.
  assert (∀ a b, chain h a l b → x ∈ a :: l → is_Some (h !! x)) as Hgen.
  { clear. induction l as [|y l IH]; intros a b; simpl.
    - intros [H _] ?. apply next_of_load in H as (n&?&_). assert (x = a) as -> by set_solver. eauto.
    - intros [[H _] Hc] Hx. apply next_of_load in H as (n&?&_).
      apply elem_of_cons in Hx as [->|Hx]; [eauto|]. eapply IH; eauto. }
  eapply Hgen; eauto.
Qed.

Lemma last_of_snoc a l x : last_of a (l ++ [x]) = x.
Proof. revert a. induction l; intros; simpl; auto. Qed.

(** Cut the last node off a chain. *)
Lemma chain_snoc h a l x b : chain h a (l ++ [x]) b ↔ chain h a l x ∧ link h x b.
Proof. apply chain_app. Qed.

Lemma list_snoc_or_nil (l : list Z) : l = [] ∨ ∃ l' x, l = l' ++ [x].
Proof. destruct l as [|? ? _] using rev_ind; eauto. Qed.

(** Rewriting pointer fields of an updated heap. *)
Ltac heap_simpl :=
  repeat first
    [ rewrite next_upd_next by eauto with rpi
    | rewrite prev_upd_prev by eauto with rpi
    | rewrite prev_upd_next
    | rewrite next_upd_prev ].

(** The heap [merge_list] leaves behind. *)
Definition merged (n1 n2 n3 n4 : Z) (h : heap) : heap :=
  upd_prev n3 n4 (upd_next n4 n3 (upd_prev n2 n1 (upd_next n1 n2 h))).

Lemma merge_list_Ok h n1 n2 l1 l2 :
  n1 ≠ NULL → n2 ≠ NULL → circ h (n1 :: l1) → circ h (n2 :: l2) →
  merge_list n1 n2 h = Ok n1 (merged n1 n2 (default n1 (head l1)) (last_of n2 l2) h).
Proof.
  intros Hn1 Hn2 Hc1 Hc2. unfold merge_list.
  rewrite (proj2 (Z.eqb_neq _ _) Hn1), (proj2 (Z.eqb_neq _ _) Hn2).
  pose proof (chain_first _ _ _ _ (proj2 Hc1)) as [Hf1 Hf2].
  pose proof (chain_last _ _ _ _ (proj2 Hc2)) as [Hf3 Hf4].
  apply next_of_load in Hf1 as (nd1 & E1 & Ep1).
  apply prev_of_load in Hf4 as (nd2 & E2 & Ep2).
  erewrite bind_Ok by (by apply load_Ok). erewrite bind_Ok by (by apply load_Ok).
  cbn zeta. rewrite Ep1, Ep2.
  apply prev_of_load in Hf2 as (nd3 & E3%mk_is_Some & _).
  apply next_of_load in Hf3 as (nd4 & E4%mk_is_Some & _).
  apply mk_is_Some in E1, E2.
  erewrite bind_Ok by (apply set_next_Ok; eauto with rpi).
  erewrite bind_Ok by (apply set_prev_Ok; eauto with rpi).
  erewrite bind_Ok by (apply set_next_Ok; eauto 10 with rpi).
  erewrite bind_Ok by (apply set_prev_Ok; eauto 10 with rpi).
  done.
Qed.

Lemma merged_chain h n1 n2 l1 l2 :
  circ h (n1 :: l1) → circ h (n2 :: l2) → (n1 :: l1) ## (n2 :: l2) →
  circ (merged n1 n2 (default n1 (head l1)) (last_of n2 l2) h) (n1 :: n2 :: l2 ++ l1).
Proof.
  intros Hc1 Hc2 Hdisj.
  assert (is_Some (h !! n1)) as S1 by (eapply circ_is_Some; [exact Hc1|set_solver]).
  assert (is_Some (h !! n2)) as S2 by (eapply circ_is_Some; [exact Hc2|set_solver]).
  assert (is_Some (h !! last_of n2 l2)) as S4
    by (eapply circ_is_Some; [exact Hc2|apply last_of_elem]).
  assert (is_Some (h !! default n1 (head l1))) as S3.
  { destruct l1; simpl; [done|]. eapply circ_is_Some; [exact Hc1|set_solver]. }
  destruct Hc1 as [Hnd1 Hch1], Hc2 as [Hnd2 Hch2].
  assert (NoDup ((n1 :: l1) ++ (n2 :: l2))) as Hnd by (apply NoDup_app; split_and!; set_solver).
  split.
  { rewrite (Permutation_app_comm l2 l1), (Permutation_middle l1 l2 n2).
    by rewrite (app_comm_cons l1). }
  apply NoDup_cons in Hnd1 as [Hn1 Hnd1]. apply NoDup_cons in Hnd2 as [Hn2 Hnd2].
  unfold merged. cbn [chain]. split.
  { split; heap_simpl; repeat case_decide; subst; try done; exfalso.
    - pose proof (last_of_elem n2 l2). set_solver.
    - destruct l1; simpl in *; set_solver. }
  (* n2 .. l2 .. then into l1 *)
  assert (chain (upd_prev (default n1 (head l1)) (last_of n2 l2)
           (upd_next (last_of n2 l2) (default n1 (head l1))
              (upd_prev n2 n1 (upd_next n1 n2 h)))) n2 l2 (default n1 (head l1))) as Hleft.
  { destruct (list_snoc_or_nil l2) as [->|(l & x & ->)].
    - simpl. split; heap_simpl; by rewrite decide_True.
    - rewrite last_of_snoc in *. apply chain_snoc in Hch2 as [Hch2 _]. apply chain_snoc. split.
      + eapply chain_ext; [exact Hch2|..]; intros y Hy; heap_simpl;
          repeat case_decide; subst; try done; exfalso.
        * apply NoDup_app in Hnd2 as (_&Hnd2&_). set_solver.
        * set_solver.
        * destruct l1; simpl in *; set_solver.
      + split; heap_simpl; by rewrite decide_True. }
  destruct l1 as [|y l1]; simpl in *.
  { by rewrite app_nil_r. }
  apply chain_app. split; [done|]. destruct Hch1 as [_ Hch1].
  eapply chain_ext; [exact Hch1|..]; intros z Hz; heap_simpl;
    repeat case_decide; subst; try done; exfalso.
  - pose proof (last_of_elem n2 l2). set_solver.
  - apply NoDup_cons in Hnd1 as [? _]. set_solver.
  - set_solver.
Qed.

(** Lists that share no node with an updated one are not affected. *)
Lemma circ_ext h h' k :
  circ h k →
  (∀ x, x ∈ k → next_of h' x = next_of h x ∧ prev_of h' x = prev_of h x) →
  circ h' k.
Proof.
  destruct k as [|a k]; [done|]. intros [Hnd Hc] Hext. split; [done|].
  eapply chain_ext; [done|..]; intros x Hx; apply Hext; set_solver.
Qed.

Lemma merged_frame h n1 n2 l1 l2 k :
  circ h (n1 :: l1) → circ h (n2 :: l2) → circ h k →
  k ## n1 :: l1 → k ## n2 :: l2 →
  circ (merged n1 n2 (default n1 (head l1)) (last_of n2 l2) h) k.
Proof.
  intros Hc1 Hc2 Hk Hd1 Hd2.
  assert (is_Some (h !! n1)) as S1 by (eapply circ_is_Some; [exact Hc1|set_solver]).
  assert (is_Some (h !! n2)) as S2 by (eapply circ_is_Some; [exact Hc2|set_solver]).
  assert (default n1 (head l1) ∈ n1 :: l1) as E3 by (destruct l1; set_solver).
  pose proof (circ_is_Some _ _ _ Hc1 E3) as S3.
  pose proof (last_of_elem n2 l2) as E4. pose proof (circ_is_Some _ _ _ Hc2 E4) as S4.
  eapply circ_ext; [exact Hk|]. intros x Hx. unfold merged.
  split; heap_simpl; repeat case_decide; subst; try done; exfalso; set_solver.
Qed.

(** The heap [detach_from_list] leaves behind. *)
Definition detached (n p q : Z) (h : heap) : heap :=
  <[n := {| prev := n; next := n |}]> (upd_prev q p (upd_next p q h)).

Lemma next_insert h n nd x :
  next_of (<[n := nd]> h) x = if decide (x = n) then Some (next nd) else next_of h x.
Proof.
  unfold next_of. case_decide; subst; [by rewrite lookup_insert_eq|by rewrite lookup_insert_ne].
Qed.
Lemma prev_insert h n nd x :
  prev_of (<[n := nd]> h) x = if decide (x = n) then Some (prev nd) else prev_of h x.
Proof.
  unfold prev_of. case_decide; subst; [by rewrite lookup_insert_eq|by rewrite lookup_insert_ne].
Qed.

Lemma detach_Ok h n l :
  circ h (n :: l) →
  let p := last_of n l in
  let q := default n (head l) in
  detach_from_list n h = Ok (if p =? n then NULL else p) (detached n p q h).
Proof.
  intros Hc p q. pose proof Hc as [Hnd Hch].
  pose proof (chain_first _ _ _ _ Hch) as [Hf _]. pose proof (chain_last _ _ _ _ Hch) as [_ Hl].
  fold p in Hl. fold q in Hf.
  assert (is_Some (h !! p)) as Sp by (eapply circ_is_Some; [exact Hc|apply last_of_elem]).
  assert (is_Some (h !! q)) as Sq.
  { eapply circ_is_Some; [exact Hc|]. unfold q. destruct l; set_solver. }
  assert (is_Some (h !! n)) as Sn by (eapply circ_is_Some; [exact Hc|set_solver]).
  pose proof Sn as [nd E]. unfold next_of in Hf. unfold prev_of in Hl. rewrite E in Hf, Hl.
  injection Hf as Hf. injection Hl as Hl.
  unfold detach_from_list. erewrite bind_Ok by (by apply load_Ok). cbn zeta. rewrite Hf, Hl.
  erewrite bind_Ok by (by apply set_next_Ok).
  assert (∃ nd', upd_next p q h !! n = Some nd' ∧ prev nd' = p ∧ next nd' = q) as (nd'&E'&Hp'&Hn').
  { unfold upd_next. destruct (decide (n = p)) as [<-|Hne].
    - rewrite lookup_alter_eq, E. eexists. split; [done|]. by split.
    - rewrite lookup_alter_ne by done. rewrite E. eauto. }
  erewrite bind_Ok by (by apply load_Ok). rewrite Hp', Hn'.
  erewrite bind_Ok by (apply set_prev_Ok; eauto with rpi).
  assert (is_Some (upd_prev q p (upd_next p q h) !! n)) as [nd3 E3] by eauto with rpi.
  unfold init_list_node, store. erewrite bind_Ok by (erewrite bind_Ok by (by apply load_Ok); done).
  destruct (p =? n); done.
Qed.

Lemma detached_circ h n x l :
  circ h (n :: x :: l) →
  let h' := detached n (last_of x l) x h in
  circ h' (x :: l) ∧ circ h' [n].
Proof.
  intros Hc h'. pose proof Hc as [Hnd [Hl1 Hch]].
  apply NoDup_cons in Hnd as [Hn Hnd].
  assert (is_Some (h !! last_of x l)) as Sp.
  { eapply circ_is_Some; [exact Hc|]. pose proof (last_of_elem x l). set_solver. }
  assert (is_Some (h !! x)) as Sq by (eapply circ_is_Some; [exact Hc|set_solver]).
  split; [split; [done|]|split; [apply NoDup_singleton|]]; unfold h', detached.
  - destruct (list_snoc_or_nil l) as [->|(l' & y & ->)]; simpl in *.
    { split; rewrite ?next_insert, ?prev_insert; heap_simpl;
        rewrite decide_False, decide_True by set_solver; done. }
    rewrite last_of_snoc in *. apply chain_snoc in Hch as [Hch _]. apply chain_snoc. split.
    + eapply chain_ext; [exact Hch|..]; intros z Hz;
        rewrite ?next_insert, ?prev_insert; heap_simpl; repeat case_decide; subst; try done.
      * exfalso. set_solver.
      * exfalso. apply NoDup_cons in Hnd as [? Hnd]. apply NoDup_app in Hnd as (_&Hnd&_). set_solver.
      * exfalso. set_solver.
      * exfalso. apply NoDup_cons in Hnd as [? Hnd]. set_solver.
    + split; rewrite ?next_insert, ?prev_insert; heap_simpl;
        rewrite decide_False, decide_True by set_solver; done.
  - split; rewrite ?next_insert, ?prev_insert; by rewrite decide_True.
Qed.

Lemma detached_frame h n l k :
  circ h (n :: l) → circ h k → k ## n :: l →
  circ (detached n (last_of n l) (default n (head l)) h) k.
Proof.
  intros Hc Hk Hd.
  pose proof (last_of_elem n l) as Ep. pose proof (circ_is_Some _ _ _ Hc Ep) as Sp.
  assert (default n (head l) ∈ n :: l) as Eq by (destruct l; set_solver).
  pose proof (circ_is_Some _ _ _ Hc Eq) as Sq.
  eapply circ_ext; [exact Hk|]. intros x Hx. unfold detached.
  split; rewrite ?next_insert, ?prev_insert; heap_simpl; repeat case_decide; subst; try done;
    exfalso; set_solver.
Qed.

(** [merge_list] joins two disjoint circular lists into one: read from
    [node1], the result is [node1], then the whole second list from [node2], then
    the rest of the first; [node1] is returned and no other list changes. *)
Lemma merge_list_correct (h : heap) n1 n2 l1 l2 :
  n1 ≠ NULL → n2 ≠ NULL →
  circ h (n1 :: l1) → circ h (n2 :: l2) → (n1 :: l1) ## (n2 :: l2) →
  wp (merge_list n1 n2)
     (λ r h', r = n1 ∧ circ h' (n1 :: n2 :: l2 ++ l1) ∧
        ∀ k, circ h k → k ## n1 :: l1 → k ## n2 :: l2 → circ h' k) h.
Proof.
  intros Hn1 Hn2 Hc1 Hc2 Hd. apply wp_Ok.
  eexists _, _. split; [by eapply merge_list_Ok|].
  split; [done|]. split; [by apply merged_chain|]. intros. by apply merged_frame.
Qed.

Lemma last_of_in_ne n x l : n ∉ x :: l → (last_of x l =? n) = false.
Proof. intros H. apply Z.eqb_neq. intros <-. apply H. apply last_of_elem. Qed.

(** [detach_from_list] removes a node that is not alone: the remaining
    nodes keep their order, the node becomes a list of its own, its predecessor is
    returned, and no other list changes. *)
Lemma detach_from_list_correct (h : heap) n x l :
  circ h (n :: x :: l) →
  wp (detach_from_list n)
     (λ r h', r = last_of x l ∧ circ h' (x :: l) ∧ circ h' [n] ∧
        ∀ k, circ h k → k ## n :: x :: l → circ h' k) h.
Proof.
  intros Hc. apply wp_Ok. eexists _, _. split; [by apply detach_Ok|].
  pose proof (circ_NoDup _ _ Hc) as [Hn _]%NoDup_cons.
  cbn [last_of head default]. rewrite last_of_in_ne by done.
  pose proof (detached_circ _ _ _ _ Hc) as [??].
  split_and!; try done. intros k Hk Hd. by apply (detached_frame _ _ _ _ Hc Hk Hd).
Qed.

(** A node alone in its list stays alone, and [NULL] is returned. *)
Lemma detach_from_list_single (h : heap) n :
  circ h [n] → wp (detach_from_list n) (λ r h', r = NULL ∧ circ h' [n]) h.
Proof.
  intros Hc. apply wp_Ok. eexists _, _. split; [by apply detach_Ok|].
  simpl. rewrite Z.eqb_refl. split; [done|]. split; [apply NoDup_singleton|].
  unfold detached. split; rewrite ?next_insert, ?prev_insert; by rewrite decide_True.
Qed.

(** A fresh node is a list of its own. *)
Lemma init_list_node_circ (h : heap) n :
  is_Some (h !! n) → wp (init_list_node n) (λ _ h', circ h' [n]) h.
Proof.
  intros [nd E]. unfold init_list_node, store. apply wp_bind. unfold wp. rewrite (load_Ok _ _ _ E).
  split; [apply NoDup_singleton|]. split; rewrite ?next_insert, ?prev_insert; by rewrite decide_True.
Qed.

(** *** Lists with a sentinel

    [head] below is the sentinel node of the block cache and of the inode list:
    inserting after it and removing an element are [::] and list deletion on the
    sequence of the other nodes. *)
Lemma insert_after_head (h : heap) hd p l :
  hd ≠ NULL → p ≠ NULL → circ h (hd :: l) → circ h [p] → p ∉ hd :: l →
  wp (merge_list hd p) (λ _ h', circ h' (hd :: p :: l)) h.
Proof.
  intros. apply wp_Ok. eexists _, _. split; [by apply (merge_list_Ok h hd p l [])|].
  apply (merged_chain h hd p l []); set_solver.
Qed.

Lemma detach_from_sentinel (h : heap) hd p l1 l2 :
  circ h (hd :: l1 ++ p :: l2) →
  wp (detach_from_list p) (λ r h', r = last_of hd l1 ∧ circ h' (hd :: l1 ++ l2) ∧ circ h' [p] ∧
    ∀ k, circ h k → k ## hd :: l1 ++ p :: l2 → circ h' k) h.
Proof.
  intros Hc.
  assert (circ h (p :: l2 ++ hd :: l1)) as Hr by (apply (circ_rotate h (hd :: l1) p l2); done).
  apply wp_Ok. eexists _, _. split; [by apply detach_Ok|].
  assert (p ∉ l2 ++ hd :: l1) as Hp by (by apply circ_NoDup, NoDup_cons in Hr as [? _]).
  assert (last_of p (l2 ++ hd :: l1) = last_of hd l1) as El.
  { clear. generalize p. induction l2; intros; simpl; auto. }
  assert (∀ k, circ h k → k ## hd :: l1 ++ p :: l2 →
    circ (detached p (last_of p (l2 ++ hd :: l1)) (default p (head (l2 ++ hd :: l1))) h) k) as Hfr.
  { intros k Hk Hd. apply (detached_frame _ _ _ _ Hr Hk). set_solver. }
  rewrite El in *. rewrite last_of_in_ne by set_solver. split; [done|].
  destruct l2 as [|y l2]; simpl in *.
  - rewrite app_nil_r. pose proof (detached_circ _ _ _ _ Hr) as [Hc1 Hc2].
    split; [exact Hc1|]. split; [exact Hc2|exact Hfr].
  - pose proof (detached_circ _ _ _ _ Hr) as [Hc1 Hc2].
    assert (last_of y (l2 ++ hd :: l1) = last_of hd l1) as El2 by done.
    rewrite El2 in *. split; [by apply (circ_rotate _ (y :: l2) hd l1)|]. split; [exact Hc2|exact Hfr].
Qed.

(** Two lists of three and two nodes, for the witnesses. *)
Definition demo_heap : heap :=
  list_to_map [(1, mkListNode 3 2); (2, mkListNode 1 3); (3, mkListNode 2 1);
               (10, mkListNode 20 20); (20, mkListNode 10 10)].

Lemma demo_circ1 : circ demo_heap [1; 2; 3].
Proof. split; [by apply (bool_decide_unpack _)|]. repeat split; vm_compute; reflexivity. Defined.
Lemma demo_circ2 : circ demo_heap [10; 20].
Proof. split; [by apply (bool_decide_unpack _)|]. repeat split; vm_compute; reflexivity. Defined.

Lemma merge_list_correct_witness :
  wp (merge_list 1 10)
     (λ r h', r = 1 ∧ circ h' [1; 10; 20; 2; 3] ∧
        ∀ k, circ demo_heap k → k ## [1; 2; 3] → k ## [10; 20] → circ h' k) demo_heap.
Proof.
  apply (merge_list_correct demo_heap 1 10 [2; 3] [20]); try done.
  - exact demo_circ1.
  - exact demo_circ2.
  - set_solver.
Defined.

Lemma detach_from_list_correct_witness :
  wp (detach_from_list 1)
     (λ r h', r = 3 ∧ circ h' [2; 3] ∧ circ h' [1] ∧
        ∀ k, circ demo_heap k → k ## [1; 2; 3] → circ h' k) demo_heap.
Proof. apply (detach_from_list_correct demo_heap 1 2 [3]). exact demo_circ1. Defined.
