(* ===== verification/Bitmap.v ===== *)
(** * Bitmaps (common/bitmap.h, common/bitmap.c) and rounding (common/defines.h)

    A bitmap is the array of its 64-bit cells. An access to a cell outside the
    array is undefined in C and is [None] here. *)
From S2P Require Import Prelude.

Definition BITMAP_BITS_PER_CELL : Z := 64.
Definition BITMAP_TO_NUM_CELLS (size : Z) : Z :=
  u64 (size + BITMAP_BITS_PER_CELL - 1) / BITMAP_BITS_PER_CELL.
Definition BIT (i : Z) : Z := u64 (Z.shiftl 1 i).

(** The pair [(idx, offset)]. *)
Definition BITMAP_PARSE_INDEX (index : Z) : Z * Z :=
  (index / BITMAP_BITS_PER_CELL, index mod BITMAP_BITS_PER_CELL).

Definition init_bitmap (size : Z) : list Z := replicate (Z.to_nat (BITMAP_TO_NUM_CELLS size)) 0.

Definition bitmap_get (bitmap : list Z) (index : Z) : option bool :=
  let '(idx, offset) := BITMAP_PARSE_INDEX index in
  c ← bitmap !! Z.to_nat idx;
  Some (negb (Z.land (Z.shiftr c offset) 1 =? 0)).

Definition bitmap_set (bitmap : list Z) (index : Z) : option (list Z) :=
  let '(idx, offset) := BITMAP_PARSE_INDEX index in
  c ← bitmap !! Z.to_nat idx;
  Some (<[Z.to_nat idx := Z.lor c (BIT offset)]> bitmap).

Definition bitmap_clear (bitmap : list Z) (index : Z) : option (list Z) :=
  let '(idx, offset) := BITMAP_PARSE_INDEX index in
  c ← bitmap !! Z.to_nat idx;
  Some (<[Z.to_nat idx := Z.land c (u64 (Z.lnot (BIT offset)))]> bitmap).

(** Rounding, common/defines.h. [a % 0] is undefined. *)
Definition round_down (a b : Z) : Z := u64 (a - a mod b).
Definition round_up (a b : Z) : Z := round_down (u64 (u64 (a + b) - 1)) b.

(** Every cell holds a 64-bit value. *)
Definition bitmap_wf (bitmap : list Z) : Prop := Forall (λ c, 0 ≤ c < 2 ^ 64) bitmap.
Definition bitmap_size (bitmap : list Z) : Z := 64 * Z.of_nat (length bitmap).

(** ** Bits of a cell *)
Lemma testbit_of_land x o : 0 ≤ o → negb (Z.land (Z.shiftr x o) 1 =? 0) = Z.testbit x o.
Proof.
  intros Ho. change 1 with (Z.ones 1). rewrite Z.land_ones by lia. change (2 ^ 1) with 2.
  rewrite <- Z.bit0_mod, Z.shiftr_spec, Z.add_0_l by lia. by destruct (Z.testbit x o).
Qed.

Lemma BIT_pow o : 0 ≤ o < 64 → BIT o = 2 ^ o.
Proof.
  intros. unfold BIT. rewrite Z.shiftl_1_l. apply u64_small. split; [lia|].
  apply Z.pow_lt_mono_r; lia.
Qed.

Lemma testbit_BIT o j : 0 ≤ o < 64 → Z.testbit (BIT o) j = bool_decide (j = o).
Proof.
  intros. rewrite BIT_pow by done. case_bool_decide; subst.
  - apply Z.pow2_bits_true. lia.
  - apply Z.pow2_bits_false. lia.
Qed.

Lemma testbit_above w x j : 0 ≤ x < 2 ^ w → w ≤ j → Z.testbit x j = false.
Proof.
  intros. destruct (Z.lt_decidable w 0); [rewrite Z.pow_neg_r in *; lia|].
  rewrite <- (Z.mod_small x (2 ^ w)) by done. apply Z.mod_pow2_bits_high. lia.
Qed.

Lemma lt_pow2_testbit w x :
  0 ≤ w → 0 ≤ x → (∀ j, w ≤ j → Z.testbit x j = false) → x < 2 ^ w.
Proof.
  intros Hw Hx Hb. assert (x = x mod 2 ^ w) as ->; [|apply Z.mod_pos_bound; lia].
  apply Z.bits_inj'. intros j Hj. destruct (Z.lt_ge_cases j w).
  - by rewrite Z.mod_pow2_bits_low.
  - rewrite Z.mod_pow2_bits_high by lia. auto.
Qed.

Lemma lor_range w x y : 0 ≤ w → 0 ≤ x < 2 ^ w → 0 ≤ y < 2 ^ w → 0 ≤ Z.lor x y < 2 ^ w.
Proof.
  intros. assert (0 ≤ Z.lor x y) by (apply Z.lor_nonneg; lia). split; [done|].
  apply lt_pow2_testbit; [done..|].
  intros. rewrite Z.lor_spec, !(testbit_above w) by done. done.
Qed.
Lemma land_range w x y : 0 ≤ w → 0 ≤ x < 2 ^ w → 0 ≤ y → 0 ≤ Z.land x y < 2 ^ w.
Proof.
  intros. assert (0 ≤ Z.land x y) by (apply Z.land_nonneg; lia). split; [done|].
  apply lt_pow2_testbit; [done..|]. intros. by rewrite Z.land_spec, (testbit_above w x).
Qed.

Lemma testbit_cell_set c o j :
  0 ≤ o < 64 → Z.testbit (Z.lor c (BIT o)) j = Z.testbit c j || bool_decide (j = o).
Proof. intros. by rewrite Z.lor_spec, testbit_BIT. Qed.

Lemma testbit_cell_clear c o j :
  0 ≤ o < 64 → 0 ≤ j < 64 →
  Z.testbit (Z.land c (u64 (Z.lnot (BIT o)))) j = Z.testbit c j && negb (bool_decide (j = o)).
Proof.
  intros. rewrite Z.land_spec. f_equal. unfold u64, wrap.
  rewrite Z.mod_pow2_bits_low, Z.lnot_spec, testbit_BIT by lia. done.
Qed.

Lemma parse_index_eq i j :
  0 ≤ i → 0 ≤ j → i / 64 = j / 64 → i mod 64 = j mod 64 → i = j.
Proof. intros. rewrite (Z.div_mod i 64), (Z.div_mod j 64) by lia. congruence. Qed.

Lemma bitmap_cell bitmap i :
  0 ≤ i < bitmap_size bitmap → ∃ c, bitmap !! Z.to_nat (i / 64) = Some c.
Proof.
  unfold bitmap_size. intros. apply lookup_lt_is_Some. apply Nat2Z.inj_lt.
  rewrite Z2Nat.id by (apply Z.div_pos; lia). apply Z.div_lt_upper_bound; lia.
Qed.

Lemma bitmap_get_testbit bitmap i c :
  bitmap !! Z.to_nat (i / 64) = Some c →
  bitmap_get bitmap i = Some (Z.testbit c (i mod 64)).
Proof.
  intros E. unfold bitmap_get, BITMAP_PARSE_INDEX, BITMAP_BITS_PER_CELL. rewrite E. simpl.
  rewrite testbit_of_land; [done|]. apply Z.mod_pos_bound. lia.
Qed.

Lemma bitmap_get_is_Some bitmap i :
  0 ≤ i < bitmap_size bitmap → ∃ b, bitmap_get bitmap i = Some b.
Proof. intros H. destruct (bitmap_cell _ _ H) as [c E]. eauto using bitmap_get_testbit. Qed.

(** Changing the cell of [i] with [f] changes exactly bit [i], when [f] does. *)
Lemma bitmap_get_update bitmap i j c c' (b : bool) :
  0 ≤ i → 0 ≤ j →
  bitmap !! Z.to_nat (i / 64) = Some c →
  (∀ k, 0 ≤ k < 64 → Z.testbit c' k = if bool_decide (k = i mod 64) then b else Z.testbit c k) →
  bitmap_get (<[Z.to_nat (i / 64) := c']> bitmap) j =
    if bool_decide (j = i) then Some b else bitmap_get bitmap j.
Proof.
  intros Hi Hj E Hbits. pose proof (lookup_lt_Some _ _ _ E) as Hlen.
  assert (0 ≤ i / 64 ∧ 0 ≤ j / 64) as [? ?] by (split; apply Z.div_pos; lia).
  assert (0 ≤ j mod 64 < 64) by (apply Z.mod_pos_bound; lia).
  destruct (decide (j / 64 = i / 64)) as [Hd|Hd].
  - rewrite (bitmap_get_testbit _ j c') by (rewrite Hd; by apply list_lookup_insert_eq).
    rewrite Hbits by done. rewrite (bitmap_get_testbit bitmap j c) by (by rewrite Hd).
    case_bool_decide as Hm; case_bool_decide as Hji; subst; try done.
    exfalso. apply Hji. by apply parse_index_eq.
  - unfold bitmap_get, BITMAP_PARSE_INDEX, BITMAP_BITS_PER_CELL.
    rewrite list_lookup_insert_ne by (intros ?%Z2Nat.inj; auto).
    rewrite bool_decide_eq_false_2; [done|]. by intros ->.
Qed.

Lemma bitmap_set_spec bitmap i :
  bitmap_wf bitmap → 0 ≤ i < bitmap_size bitmap →
  ∃ bitmap', bitmap_set bitmap i = Some bitmap' ∧ bitmap_wf bitmap' ∧
    length bitmap' = length bitmap ∧
    ∀ j, 0 ≤ j → bitmap_get bitmap' j =
      if bool_decide (j = i) then Some true else bitmap_get bitmap j.
Proof.
  intros Hwf Hi. destruct (bitmap_cell _ _ Hi) as [c E].
  assert (0 ≤ i mod 64 < 64) by (apply Z.mod_pos_bound; lia).
  unfold bitmap_set, BITMAP_PARSE_INDEX, BITMAP_BITS_PER_CELL. rewrite E. simpl.
  eexists. split; [done|]. split_and!.
  - apply Forall_insert; [done|]. eapply Forall_lookup_1 in Hwf; [|exact E].
    apply lor_range; [lia|done|]. apply u64_range.
  - apply length_insert.
  - intros j Hj. apply (bitmap_get_update _ i j c); [lia|done..|].
    intros k Hk. rewrite testbit_cell_set by done. case_bool_decide; by destruct (Z.testbit c k).
Qed.

Lemma bitmap_clear_spec bitmap i :
  bitmap_wf bitmap → 0 ≤ i < bitmap_size bitmap →
  ∃ bitmap', bitmap_clear bitmap i = Some bitmap' ∧ bitmap_wf bitmap' ∧
    length bitmap' = length bitmap ∧
    ∀ j, 0 ≤ j → bitmap_get bitmap' j =
      if bool_decide (j = i) then Some false else bitmap_get bitmap j.
Proof.
  intros Hwf Hi. destruct (bitmap_cell _ _ Hi) as [c E].
  assert (0 ≤ i mod 64 < 64) by (apply Z.mod_pos_bound; lia).
  unfold bitmap_clear, BITMAP_PARSE_INDEX, BITMAP_BITS_PER_CELL. rewrite E. simpl.
  eexists. split; [done|]. split_and!.
  - apply Forall_insert; [done|]. eapply Forall_lookup_1 in Hwf; [|exact E].
    apply land_range; [lia|done|]. apply u64_range.
  - apply length_insert.
  - intros j Hj. apply (bitmap_get_update _ i j c); [lia|done..|].
    intros k Hk. rewrite testbit_cell_clear by done. case_bool_decide; by destruct (Z.testbit c k).
Qed.

Lemma init_bitmap_get size i :
  0 ≤ size < 2 ^ 63 → 0 ≤ i < size → bitmap_get (init_bitmap size) i = Some false.
Proof.
  intros Hs Hi. rewrite (bitmap_get_testbit _ _ 0); [by rewrite Z.testbit_0_l|].
  unfold init_bitmap. apply lookup_replicate_2.
  assert (0 ≤ i / 64) by (apply Z.div_pos; lia).
  apply Z2Nat.inj_lt; [done|unfold BITMAP_TO_NUM_CELLS, BITMAP_BITS_PER_CELL; apply Z.div_pos; [apply u64_range|lia]|].
  unfold BITMAP_TO_NUM_CELLS, BITMAP_BITS_PER_CELL. rewrite u64_small by lia.
  apply Z.div_lt_upper_bound; [lia|].
  pose proof (Z.div_mod (size + 64 - 1) 64). pose proof (Z.mod_pos_bound (size + 64 - 1) 64). lia.
Qed.

Lemma init_bitmap_wf size : bitmap_wf (init_bitmap size).
Proof. apply Forall_replicate. lia. Qed.

(** On a well-formed bitmap, [bitmap_set] and [bitmap_clear] at an
    index inside it succeed, keep it well-formed and of the same size, and change
    exactly that bit as [bitmap_get] sees it. *)
Theorem bitmap_set_clear_get bitmap i :
  bitmap_wf bitmap → 0 ≤ i < bitmap_size bitmap →
  (∃ s, bitmap_set bitmap i = Some s ∧ bitmap_wf s ∧ length s = length bitmap ∧
     ∀ j, 0 ≤ j → bitmap_get s j = if bool_decide (j = i) then Some true else bitmap_get bitmap j) ∧
  (∃ c, bitmap_clear bitmap i = Some c ∧ bitmap_wf c ∧ length c = length bitmap ∧
     ∀ j, 0 ≤ j → bitmap_get c j = if bool_decide (j = i) then Some false else bitmap_get bitmap j).
Proof. intros. split; [by apply bitmap_set_spec|by apply bitmap_clear_spec]. Qed.

Lemma bitmap_set_clear_get_witness :
  (∃ s, bitmap_set [5; 0] 70 = Some s ∧ bitmap_wf s ∧ length s = 2%nat ∧
     ∀ j, 0 ≤ j → bitmap_get s j = if bool_decide (j = 70) then Some true else bitmap_get [5; 0] j) ∧
  (∃ c, bitmap_clear [5; 0] 70 = Some c ∧ bitmap_wf c ∧ length c = 2%nat ∧
     ∀ j, 0 ≤ j → bitmap_get c j = if bool_decide (j = 70) then Some false else bitmap_get [5; 0] j).
Proof.
  apply (bitmap_set_clear_get [5; 0] 70).
  - repeat constructor; vm_compute; congruence.
  - vm_compute. split; congruence.
Defined.

(** [round_down a b] is the largest multiple of [b] that is at most
    [a], and, while [a + b] does not overflow, [round_up a b] the smallest that
    is at least [a]. *)
Theorem round_correct a b :
  0 ≤ a → 0 < b → a + b < 2 ^ 64 →
  (round_down a b mod b = 0 ∧ round_down a b ≤ a < round_down a b + b) ∧
  (round_up a b mod b = 0 ∧ a ≤ round_up a b < a + b).
Proof.
  intros Ha Hb Hab.
  assert (∀ x, 0 ≤ x < 2 ^ 64 → round_down x b = b * (x / b)) as Hd.
  { intros x Hx. unfold round_down. pose proof (Z.mod_le x b). pose proof (Z.div_mod x b). pose proof (Z.mod_pos_bound x b Hb).
    rewrite u64_small by lia. lia. }
  unfold round_up. rewrite (u64_small (a + b)) by lia. rewrite (u64_small (a + b - 1)) by lia.
  rewrite !Hd by lia. rewrite !(Z.mul_comm b), !Z.mod_mul by lia.
  pose proof (Z.div_mod a b). pose proof (Z.mod_pos_bound a b Hb).
  pose proof (Z.div_mod (a + b - 1) b). pose proof (Z.mod_pos_bound (a + b - 1) b Hb). lia.
Qed.

Lemma round_correct_witness :
  (round_down 4097 4096 mod 4096 = 0 ∧ round_down 4097 4096 ≤ 4097 < round_down 4097 4096 + 4096) ∧
  (round_up 4097 4096 mod 4096 = 0 ∧ 4097 ≤ round_up 4097 4096 < 4097 + 4096).
Proof. apply (round_correct 4097 4096); vm_compute; congruence. Defined.
