(* ===== verification/CString.v ===== *)
(** * Memory and string routines (common/string.c)

    Memory is a byte-addressed finite map; touching an address outside it is
    [Undef]. [char] is unsigned on the target. [has m p l] says that the bytes of
    [l] are stored from address [p] on. *)
From S2P Require Import Prelude.

Abbreviation mem := (gmap Z Z).

Definition ld (p : Z) : M mem Z := m ← getS; derefM (m !! p).
Definition st (p b : Z) : M mem unit := ld p;; modify (λ m, <[p := b]> m).

(** [for (i = 0; i < n; i++) s[i] = (u8)(c & 0xff);] *)
Fixpoint memset_loop (s c : Z) (n : nat) : M mem unit :=
  match n with
  | O => mret ()
  | S n' => st s (u8 (Z.land c 255));; memset_loop (s + 1) c n'
  end.
Definition memset (s c n : Z) : M mem Z := memset_loop s c (Z.to_nat n);; mret s.

Fixpoint copy_fwd (d s : Z) (n : nat) : M mem unit :=
  match n with
  | O => mret ()
  | S n' => x ← ld s; st d x;; copy_fwd (d + 1) (s + 1) n'
  end.
(** [while (n-- > 0) *--d = *--s;] *)
Fixpoint copy_bwd (d s : Z) (n : nat) : M mem unit :=
  match n with
  | O => mret ()
  | S n' => x ← ld (s - 1); st (d - 1) x;; copy_bwd (d - 1) (s - 1) n'
  end.

Definition memcpy (dest src n : Z) : M mem Z := copy_fwd dest src (Z.to_nat n);; mret dest.

Definition memmove (dest src n : Z) : M mem Z :=
  (if (src <? dest) && (u64 (dest - src) <? n)
   then copy_bwd (dest + n) (src + n) (Z.to_nat n)
   else copy_fwd dest src (Z.to_nat n));;
  mret dest.

Fixpoint memcmp_loop (s1 s2 : Z) (n : nat) : M mem Z :=
  match n with
  | O => mret 0
  | S n' =>
      c1 ← ld s1; c2 ← ld s2;
      if negb (c1 =? c2) then mret (c1 - c2) else memcmp_loop (s1 + 1) (s2 + 1) n'
  end.
Definition memcmp (s1 s2 n : Z) : M mem Z := memcmp_loop s1 s2 (Z.to_nat n).

(** The two loops of [strncpy]; the first stops at the terminator or after [n]
    bytes, the second fills the rest. *)
Fixpoint strncpy_fill (dest : Z) (n : nat) : M mem unit :=
  match n with
  | O => mret ()
  | S n' => st dest 0;; strncpy_fill (dest + 1) n'
  end.
Fixpoint strncpy_loop (dest src : Z) (n : nat) : M mem unit :=
  match n with
  | O => mret ()
  | S n' =>
      c ← ld src;
      if c =? 0 then strncpy_fill dest n
      else st dest c;; strncpy_loop (dest + 1) (src + 1) n'
  end.
Definition strncpy (dest src n : Z) : M mem Z := strncpy_loop dest src (Z.to_nat n);; mret dest.

Fixpoint strncpy_fast_loop (dest src : Z) (n : nat) : M mem unit :=
  match n with
  | O => mret ()
  | S n' =>
      c ← ld src;
      if c =? 0 then st dest 0
      else st dest c;; strncpy_fast_loop (dest + 1) (src + 1) n'
  end.
Definition strncpy_fast (dest src n : Z) : M mem Z :=
  strncpy_fast_loop dest src (Z.to_nat n);; mret dest.

Fixpoint strncmp_loop (s1 s2 : Z) (n : nat) : M mem Z :=
  match n with
  | O => mret 0
  | S n' =>
      c1 ← ld s1; c2 ← ld s2;
      if negb (c1 =? c2) then mret (c1 - c2)
      else if (c1 =? 0) || (c2 =? 0) then mret 0
      else strncmp_loop (s1 + 1) (s2 + 1) n'
  end.
Definition strncmp (s1 s2 n : Z) : M mem Z := strncmp_loop s1 s2 (Z.to_nat n).

(** Unbounded search for the terminator: [fuel] bounds the bytes looked at. *)
Fixpoint strlen_loop (s i : Z) (fuel : nat) : M mem Z :=
  match fuel with
  | O => nofuel
  | S fuel' =>
      c ← ld (s + i);
      if c =? 0 then mret i else strlen_loop s (i + 1) fuel'
  end.
Definition strlen (fuel : nat) (s : Z) : M mem Z := strlen_loop s 0 fuel.

(** ** Contents of memory *)
Definition has (m : mem) (p : Z) (l : list Z) : Prop :=
  ∀ i x, l !! i = Some x → m !! (p + Z.of_nat i) = Some x.
Definition mapped (m : mem) (p : Z) (n : nat) : Prop :=
  ∀ a, p ≤ a < p + Z.of_nat n → is_Some (m !! a).

Lemma has_cons m p x l : has m p (x :: l) ↔ m !! p = Some x ∧ has m (p + 1) l.
Proof.
  split.
  - intros H. split; [by specialize (H 0%nat x eq_refl); rewrite Z.add_0_r in H|].
    intros i y Hy. specialize (H (S i) y Hy). by replace (p + 1 + Z.of_nat i) with (p + Z.of_nat (S i)) by lia.
  - intros [Hx H] [|i] y; simpl; [intros [= ->]; by rewrite Z.add_0_r|].
    intros Hy. apply H in Hy. by replace (p + Z.of_nat (S i)) with (p + 1 + Z.of_nat i) by lia.
Qed.

Lemma has_nil m p : has m p [].
Proof. intros i x. by rewrite lookup_nil. Qed.

Lemma has_snoc m p l x : has m p (l ++ [x]) ↔ has m p l ∧ m !! (p + Z.of_nat (length l)) = Some x.
Proof.
  split.
  - intros H. split.
    + intros i y Hy. apply H. by apply lookup_app_l_Some.
    + apply H. by rewrite lookup_app_r, Nat.sub_diag.
  - intros [H Hx] i y [Hy|[Hi Hy]]%lookup_app_Some; [by apply H|].
    apply list_lookup_singleton_Some in Hy as [Hi' <-].
    by replace (Z.of_nat i) with (Z.of_nat (length l)) by lia.
Qed.

Lemma has_ext m m' p l :
  has m p l → (∀ a, p ≤ a < p + Z.of_nat (length l) → m' !! a = m !! a) → has m' p l.
Proof.
  intros H He i x Hx. rewrite He; [by apply H|]. apply lookup_lt_Some in Hx. lia.
Qed.

Lemma has_mapped m p l : has m p l → mapped m p (length l).
Proof.
  intros H a Ha. destruct (lookup_lt_is_Some_2 l (Z.to_nat (a - p))) as [x Hx]; [lia|].
  specialize (H _ _ Hx). exists x. by replace (p + Z.of_nat (Z.to_nat (a - p))) with a in H by lia.
Qed.

Lemma has_inj m p l l' : has m p l → has m p l' → length l = length l' → l = l'.
Proof.
  intros H H' Hlen. apply list_eq_same_length with (length l); [done..|].
  intros i x y _ Hx Hy. apply H in Hx. apply H' in Hy. congruence.
Qed.

Lemma wp_ld (m : mem) p x (Q : Z → mem → Prop) : m !! p = Some x → Q x m → wp (ld p) Q m.
Proof. intros E HQ. unfold wp, ld, mbind, M_bind, getS. by rewrite E. Qed.
Lemma wp_st (m : mem) p b (Q : unit → mem → Prop) :
  is_Some (m !! p) → Q () (<[p := b]> m) → wp (st p b) Q m.
Proof. intros [x E] HQ. unfold wp, st, ld, mbind, M_bind, getS. by rewrite E. Qed.

Lemma mapped_S m p n : mapped m p (S n) ↔ is_Some (m !! p) ∧ mapped m (p + 1) n.
Proof.
  split.
  - intros H. split; [apply H; lia|]. intros a Ha. apply H. lia.
  - intros [H0 H] a Ha. destruct (decide (a = p)) as [->|]; [done|]. apply H. lia.
Qed.
Lemma mapped_insert m p n a b : mapped m p n → mapped (<[a := b]> m) p n.
Proof. intros H c Hc. destruct (H c Hc) as [x E]. rewrite lookup_insert. case_decide; eauto. Qed.

(** ** What the loops leave in memory *)
Definition same_outside (m m' : mem) (p : Z) (n : Z) : Prop :=
  ∀ a, ¬ (p ≤ a < p + n) → m' !! a = m !! a.

(** Write the head of a region, then its rest. *)
Lemma region_cons (m m' : mem) d x l :
  has m' (d + 1) l →
  same_outside (<[d := x]> m) m' (d + 1) (Z.of_nat (length l)) →
  has m' d (x :: l) ∧ same_outside m m' d (Z.of_nat (length (x :: l))).
Proof.
  intros H Hs. cbn [length]. split.
  - apply has_cons. split; [|done]. rewrite Hs by lia. by rewrite lookup_insert_eq.
  - intros a Ha. rewrite Hs by lia. rewrite lookup_insert_ne by lia. done.
Qed.

Lemma copy_fwd_spec l : ∀ m d s,
  has m s l → mapped m d (length l) → (d ≤ s ∨ s + Z.of_nat (length l) ≤ d) →
  wp (copy_fwd d s (length l))
     (λ _ m', has m' d l ∧ same_outside m m' d (Z.of_nat (length l))) m.
Proof.
  induction l as [|x l IH]; intros m d s Hs Hd Hord; cbn [copy_fwd length] in *.
  { split; [apply has_nil|]. by intros a _. }
  apply has_cons in Hs as [Hx Hs]. apply mapped_S in Hd as [Hd0 Hd].
  apply wp_bind. eapply wp_ld; [done|]. apply wp_bind. apply wp_st; [done|].
  eapply wp_mono.
  - apply IH.
    + eapply has_ext; [exact Hs|]. intros a Ha. rewrite lookup_insert_ne by lia. done.
    + by apply mapped_insert.
    + lia.
  - intros _ m' [H1 H2]. by apply region_cons.
Qed.

Lemma copy_bwd_spec l : ∀ m d s,
  has m s l → mapped m d (length l) → s ≤ d →
  wp (copy_bwd (d + Z.of_nat (length l)) (s + Z.of_nat (length l)) (length l))
     (λ _ m', has m' d l ∧ same_outside m m' d (Z.of_nat (length l))) m.
Proof.
  induction l as [|x l IH] using rev_ind; intros m d s Hs Hd Hord.
  { split; [apply has_nil|]. by intros a _. }
  rewrite length_app in *. cbn [length] in *. rewrite Nat.add_comm in *. cbn [Nat.add copy_bwd] in *.
  apply has_snoc in Hs as [Hs Hx].
  replace (s + Z.of_nat (S (length l)) - 1) with (s + Z.of_nat (length l)) by lia.
  replace (d + Z.of_nat (S (length l)) - 1) with (d + Z.of_nat (length l)) by lia.
  apply wp_bind. eapply wp_ld; [done|]. apply wp_bind. apply wp_st; [apply Hd; lia|].
  eapply wp_mono.
  - apply IH; [|apply mapped_insert; intros a Ha; apply Hd; lia|done].
    eapply has_ext; [exact Hs|]. intros a Ha. rewrite lookup_insert_ne by lia. done.
  - intros _ m' [H1 H2]. split.
    + apply has_snoc. split; [done|]. rewrite H2 by lia. by rewrite lookup_insert_eq.
    + intros a Ha. rewrite H2 by lia. rewrite lookup_insert_ne by lia. done.
Qed.

(** [memmove] copies correctly whether or not, and whichever way, the
    two regions overlap: afterwards the destination holds the bytes the source
    held before, every other byte of memory is unchanged, and [dest] is
    returned. *)
Lemma memmove_correct (m : mem) dest src (l : list Z) :
  0 ≤ src < 2 ^ 64 → 0 ≤ dest < 2 ^ 64 →
  has m src l → mapped m dest (length l) →
  wp (memmove dest src (Z.of_nat (length l)))
     (λ r m', r = dest ∧ has m' dest l ∧ same_outside m m' dest (Z.of_nat (length l))) m.
Proof.
  intros Hsr Hdr Hs Hd. unfold memmove. rewrite Nat2Z.id. apply wp_bind.
  eapply (wp_mono _ (λ _ m', has m' dest l ∧ same_outside m m' dest (Z.of_nat (length l))));
    [|intros _ m' ?; by apply wp_ret].
  destruct (Z.ltb_spec src dest); simpl; [|apply copy_fwd_spec; auto; lia].
  rewrite u64_small by lia. destruct (Z.ltb_spec (dest - src) (Z.of_nat (length l))).
  - apply copy_bwd_spec; auto; lia.
  - apply copy_fwd_spec; auto; lia.
Qed.

(** Eight bytes at address 100, for the witnesses. *)
Definition demo_mem : mem :=
  list_to_map (zip (seqZ 100 8) [104; 101; 108; 108; 111; 0; 7; 9]).

Lemma demo_mem_has (p : Z) (l : list Z) :
  forallb (λ '(i, x), bool_decide (demo_mem !! (p + Z.of_nat i) = Some x)) (imap pair l) = true →
  has demo_mem p l.
Proof.
  intros H i x Hx. rewrite forallb_forall in H.
  assert (In (i, x) (imap pair l)) as Hin.
  { apply list_elem_of_In, list_elem_of_lookup. exists i. by rewrite list_lookup_imap, Hx. }
  apply H in Hin. by apply bool_decide_eq_true in Hin.
Qed.

Lemma memmove_correct_witness :
  wp (memmove 102 100 5)
     (λ r m', r = 102 ∧ has m' 102 [104; 101; 108; 108; 111] ∧ same_outside demo_mem m' 102 5) demo_mem.
Proof.
  apply (memmove_correct demo_mem 102 100 [104; 101; 108; 108; 111]); try lia.
  - apply demo_mem_has. by vm_compute.
  - apply (has_mapped demo_mem 102 [108; 108; 111; 0; 7]). apply demo_mem_has. by vm_compute.
Defined.

(** [memcpy] on regions that do not overlap ([restrict]). *)
Lemma memcpy_correct (m : mem) dest src (l : list Z) :
  has m src l → mapped m dest (length l) →
  (dest + Z.of_nat (length l) ≤ src ∨ src + Z.of_nat (length l) ≤ dest) →
  wp (memcpy dest src (Z.of_nat (length l)))
     (λ r m', r = dest ∧ has m' dest l ∧ same_outside m m' dest (Z.of_nat (length l))) m.
Proof.
  intros Hs Hd Hov. unfold memcpy. rewrite Nat2Z.id. apply wp_bind.
  eapply wp_mono; [apply copy_fwd_spec; [done..|lia]|]. intros ? m' []. by apply wp_ret.
Qed.

Lemma memset_correct (m : mem) s c n :
  0 ≤ n → mapped m s (Z.to_nat n) →
  wp (memset s c n)
     (λ r m', r = s ∧ has m' s (replicate (Z.to_nat n) (c mod 256)) ∧ same_outside m m' s n) m.
Proof.
  intros Hn Hm. unfold memset. apply wp_bind.
  assert (Hb : u8 (Z.land c 255) = c mod 256).
  { change 255 with (Z.ones 8). rewrite Z.land_ones by lia. apply Z.mod_mod. lia. }
  assert (∀ k p m, mapped m p k → wp (memset_loop p c k)
     (λ _ m', has m' p (replicate k (c mod 256)) ∧ same_outside m m' p (Z.of_nat k)) m) as Hl.
  { clear -Hb. induction k as [|k IH]; intros p m Hm; cbn [memset_loop replicate].
    - split; [apply has_nil|]. by intros a _.
    - apply mapped_S in Hm as [H0 Hm]. apply wp_bind, wp_st; [done|]. rewrite Hb.
      eapply wp_mono; [apply IH; by apply mapped_insert|].
      intros _ m' [H1 H2].
      rewrite <- (length_replicate (S k) (c mod 256)). cbn [replicate].
      apply region_cons; [done|]. by rewrite length_replicate. }
  eapply wp_mono; [by apply Hl|]. intros _ m' [H1 H2]. apply wp_ret.
  rewrite Z2Nat.id in H2 by done. done.
Qed.

(** ** Terminated strings *)

(** The characters of a buffer up to its first 0 byte. *)
Fixpoint until_nul (l : list Z) : list Z :=
  match l with
  | [] => []
  | c :: l' => if c =? 0 then [] else c :: until_nul l'
  end.

(** [strncmp] returns 0 exactly when the two buffers hold the same
    string, read up to the terminator or up to [n] characters. *)
Theorem strncmp_correct (m : mem) s1 s2 (l1 l2 : list Z) :
  length l1 = length l2 → has m s1 l1 → has m s2 l2 →
  wp (strncmp s1 s2 (Z.of_nat (length l1)))
     (λ r m', m' = m ∧ (r = 0 ↔ until_nul l1 = until_nul l2)) m.
Proof.
  unfold strncmp. rewrite Nat2Z.id.
  revert s1 s2 l2. induction l1 as [|c1 l1 IH]; intros s1 s2 [|c2 l2] Hlen H1 H2; try done.
  apply has_cons in H1 as [E1 H1]. apply has_cons in H2 as [E2 H2].
  cbn [strncmp_loop length until_nul].
  apply wp_bind. eapply wp_ld; [done|]. apply wp_bind. eapply wp_ld; [done|].
  destruct (Z.eqb_spec c1 c2) as [->|Hne]; simpl.
  - destruct (Z.eqb_spec c2 0) as [->|Hc]; simpl; [by apply wp_ret|].
    eapply wp_mono; [apply (IH (s1 + 1) (s2 + 1) l2); [simpl in *; lia|done..]|]. intros r m' [-> Hr]. split; [done|]. rewrite Hr.
    split; [by intros ->|by intros [=]].
  - apply wp_ret. split; [done|]. split; [lia|].
    destruct (Z.eqb_spec c1 0); destruct (Z.eqb_spec c2 0); congruence.
Qed.

Lemma strncmp_correct_witness :
  wp (strncmp 102 103 4)
     (λ r m', m' = demo_mem ∧ (r = 0 ↔ until_nul [108; 108; 111; 0] = until_nul [108; 111; 0; 7])) demo_mem.
Proof.
  apply (strncmp_correct demo_mem 102 103 [108; 108; 111; 0] [108; 111; 0; 7]); [done|..];
    apply demo_mem_has; by vm_compute.
Defined.

Lemma until_nul_length l : (length (until_nul l) ≤ length l)%nat.
Proof. induction l as [|c l IH]; simpl; [lia|]. destruct (c =? 0); simpl; lia. Qed.

Lemma strncpy_fill_spec n : ∀ m d,
  mapped m d n →
  wp (strncpy_fill d n)
     (λ _ m', has m' d (replicate n 0) ∧ same_outside m m' d (Z.of_nat n)) m.
Proof.
  induction n as [|n IH]; intros m d Hd; cbn [strncpy_fill replicate].
  { split; [apply has_nil|]. by intros a _. }
  apply mapped_S in Hd as [H0 Hd]. apply wp_bind, wp_st; [done|].
  eapply wp_mono; [apply IH; by apply mapped_insert|]. intros _ m' [H1 H2].
  rewrite <- (length_replicate (S n) 0). cbn [replicate].
  apply region_cons; [done|]. by rewrite length_replicate.
Qed.

(** [strncpy] fills the destination completely: the string of the
    source, cut at [n] characters, padded with zeroes to [n] bytes; nothing else
    changes. *)
Theorem strncpy_correct (m : mem) dest src (l : list Z) :
  has m src l → mapped m dest (length l) →
  (dest + Z.of_nat (length l) ≤ src ∨ src + Z.of_nat (length l) ≤ dest) →
  wp (strncpy dest src (Z.of_nat (length l)))
     (λ r m', r = dest ∧
        has m' dest (until_nul l ++ replicate (length l - length (until_nul l)) 0) ∧
        same_outside m m' dest (Z.of_nat (length l))) m.
Proof.
  unfold strncpy. rewrite Nat2Z.id. intros Hs Hd Hov. apply wp_bind.
  eapply (wp_mono _ (λ _ m',
     has m' dest (until_nul l ++ replicate (length l - length (until_nul l)) 0) ∧
     same_outside m m' dest (Z.of_nat (length l)))); [|intros _ m' ?; by apply wp_ret].
  revert m dest src Hs Hd Hov.
  induction l as [|c l IH]; intros m dest src Hs Hd Hov; cbn [strncpy_loop until_nul length] in *.
  { split; [apply has_nil|]. by intros a _. }
  apply has_cons in Hs as [Hc Hs].
  apply wp_bind. eapply wp_ld; [done|]. destruct (Z.eqb_spec c 0) as [->|Hne].
  { by apply (strncpy_fill_spec (S (length l))). }
  apply mapped_S in Hd as [H0 Hd]. apply wp_bind, wp_st; [done|].
  eapply wp_mono.
  - apply IH.
    + eapply has_ext; [exact Hs|]. intros a Ha. by rewrite lookup_insert_ne by lia.
    + by apply mapped_insert.
    + lia.
  - intros _ m' [H1 H2]. cbn [app length].
    replace (S (length l) - S (length (until_nul l)))%nat with (length l - length (until_nul l))%nat by lia.
    pose proof (until_nul_length l).
    replace (Z.of_nat (S (length l))) with
      (Z.of_nat (length (c :: until_nul l ++ replicate (length l - length (until_nul l)) 0)))
      by (cbn [length]; rewrite length_app, length_replicate; lia).
    apply region_cons; [done|]. rewrite length_app, length_replicate.
    by replace (length (until_nul l) + (length l - length (until_nul l)))%nat with (length l) by lia.
Qed.

Lemma strncpy_correct_witness :
  wp (strncpy 104 100 3)
     (λ r m', r = 104 ∧
        has m' 104 (until_nul [104; 101; 108] ++ replicate (3 - length (until_nul [104; 101; 108])) 0) ∧
        same_outside demo_mem m' 104 3) demo_mem.
Proof.
  apply (strncpy_correct demo_mem 104 100 [104; 101; 108]).
  - apply demo_mem_has. by vm_compute.
  - apply (has_mapped demo_mem 104 [111; 0; 7]). apply demo_mem_has. by vm_compute.
  - right. vm_compute. congruence.
Defined.

(** [strncpy_fast] writes the same string but only one terminator. *)
Lemma strncpy_fast_correct (m : mem) dest src (l : list Z) :
  has m src l → mapped m dest (length l) →
  (dest + Z.of_nat (length l) ≤ src ∨ src + Z.of_nat (length l) ≤ dest) →
  wp (strncpy_fast dest src (Z.of_nat (length l)))
     (λ r m', r = dest ∧
        has m' dest (until_nul l ++ (if decide (length (until_nul l) < length l)%nat then [0] else [])) ∧
        same_outside m m' dest (Z.of_nat (length l))) m.
Proof.
  unfold strncpy_fast. rewrite Nat2Z.id. intros Hs Hd Hov. apply wp_bind.
  eapply (wp_mono _ (λ _ m',
     has m' dest (until_nul l ++ (if decide (length (until_nul l) < length l)%nat then [0] else [])) ∧
     same_outside m m' dest (Z.of_nat (length l)))); [|intros ? m' []; by apply wp_ret].
  revert m dest src Hs Hd Hov.
  induction l as [|c l IH]; intros m dest src Hs Hd Hov; cbn [strncpy_fast_loop until_nul length] in *.
  { split; [apply has_nil|]. by intros a _. }
  apply has_cons in Hs as [Hc Hs]. apply mapped_S in Hd as [H0 Hd].
  apply wp_bind. eapply wp_ld; [done|]. destruct (Z.eqb_spec c 0) as [->|Hne].
  { apply wp_st; [done|]. split.
    - apply has_cons. split; [by rewrite lookup_insert_eq|apply has_nil].
    - intros a Ha. by rewrite lookup_insert_ne by lia. }
  apply wp_bind, wp_st; [done|]. eapply wp_mono.
  - apply IH; [|by apply mapped_insert|lia].
    eapply has_ext; [exact Hs|]. intros a Ha. by rewrite lookup_insert_ne by lia.
  - intros _ m' [H1 H2]. split.
    + cbn [app length]. rewrite (decide_ext _ (length (until_nul l) < length l)%nat) by lia.
      apply has_cons. split; [|done]. rewrite H2 by lia. by rewrite lookup_insert_eq.
    + intros a Ha. rewrite H2 by lia. by rewrite lookup_insert_ne by lia.
Qed.

(** Enough fuel finds the terminator. *)
Lemma strlen_correct (m : mem) s (l : list Z) fuel :
  has m s (l ++ [0]) → Forall (λ c, c ≠ 0) l → (length l < fuel)%nat →
  wp (strlen fuel s) (λ r m', r = Z.of_nat (length l) ∧ m' = m) m.
Proof.
  intros Hs Hnz Hf. unfold strlen.
  assert (∀ k i fuel, drop k (l ++ [0]) ≠ [] → i = Z.of_nat k → (length l - k < fuel)%nat →
    wp (strlen_loop s i fuel) (λ r m', r = Z.of_nat (length l) ∧ m' = m) m) as Hgen.
  { clear fuel Hf. intros k i fuel. revert k i.
    induction fuel as [|fuel IH]; intros k i Hk -> Hf; [lia|]. cbn [strlen_loop].
    destruct ((l ++ [0]) !! k) as [c|] eqn:E.
    2:{ apply lookup_ge_None in E. by rewrite drop_ge in Hk. }
    apply wp_bind. eapply wp_ld; [by apply Hs|].
    apply lookup_app_Some in E as [E|[Hge E]].
    - rewrite Forall_lookup in Hnz. apply Hnz in E as Hc. rewrite (proj2 (Z.eqb_neq _ _) Hc).
      apply lookup_lt_Some in E. apply (IH (S k)); [|lia|lia].
      intros Hd%(f_equal length). rewrite length_drop, length_app in Hd. simpl in Hd. lia.
    - apply list_lookup_singleton_Some in E as [Hk' <-]. simpl. apply wp_ret. split; [lia|done]. }
  apply (Hgen 0%nat); [by destruct l|done|lia].
Qed.

(** [memcmp] returns 0 exactly on equal buffers. *)
Lemma memcmp_correct (m : mem) s1 s2 (l1 l2 : list Z) :
  length l1 = length l2 → has m s1 l1 → has m s2 l2 →
  wp (memcmp s1 s2 (Z.of_nat (length l1))) (λ r m', m' = m ∧ (r = 0 ↔ l1 = l2)) m.
Proof.
  unfold memcmp. rewrite Nat2Z.id.
  revert s1 s2 l2. induction l1 as [|c1 l1 IH]; intros s1 s2 [|c2 l2] Hlen H1 H2; try done.
  apply has_cons in H1 as [E1 H1]. apply has_cons in H2 as [E2 H2].
  cbn [memcmp_loop length].
  apply wp_bind. eapply wp_ld; [done|]. apply wp_bind. eapply wp_ld; [done|].
  destruct (Z.eqb_spec c1 c2) as [->|Hne]; simpl.
  - eapply wp_mono; [apply (IH (s1 + 1) (s2 + 1) l2); [simpl in *; lia|done..]|].
    intros r m' [-> Hr]. split; [done|]. rewrite Hr. split; [by intros ->|by intros [=]].
  - apply wp_ret. split; [done|]. split; [lia|congruence].
Qed.
