(* ===== verification/PhysMem.v ===== *)
(** * The physical page allocator (core/physical_memory.c)

    Memory is a map from page addresses (kernel virtual addresses) to the 512
    64-bit words of the page. A free page holds the address of the next free page
    in its first word, as [FreeListNode] does. [kend] is the linker symbol [end]. *)
From S2P Require Import Prelude Locks Bitmap.

Definition PAGE_SIZE : Z := 4096.
Definition KSPACE_MASK : Z := 0xffff000000000000.
Definition K2P (a : Z) : Z := u64 (a - KSPACE_MASK).
Definition P2K (a : Z) : Z := u64 (a + KSPACE_MASK).
Definition PHYSTOP : Z := 0x3F000000.

(** [ROUNDDOWN] and [ROUNDUP] of common/types.h. *)
Definition ROUNDDOWN (a n : Z) : Z := u64 (a - a mod n).
Definition ROUNDUP (a n : Z) : Z := ROUNDDOWN (u64 (u64 (a + n) - 1)) n.

Abbreviation page := (list Z).
Definition zero_page : page := replicate 512 0.

Record PMemory := mkPMemory {
  pm_lock : SpinLock;
  pm_head : Z;              (* [head.next], reached through [pmem.struct_ptr] *)
  pm_mem : gmap Z page
}.

Definition set_pm_lock (l : SpinLock) (s : PMemory) : PMemory :=
  {| pm_lock := l; pm_head := pm_head s; pm_mem := pm_mem s |}.
Definition set_pm_head (h : Z) (s : PMemory) : PMemory :=
  {| pm_lock := pm_lock s; pm_head := h; pm_mem := pm_mem s |}.
Definition set_pm_mem (m : gmap Z page) (s : PMemory) : PMemory :=
  {| pm_lock := pm_lock s; pm_head := pm_head s; pm_mem := m |}.

(** Word [i] of the page at [p]. *)
Definition read_word (p : Z) (i : nat) : M PMemory Z :=
  s ← getS; pg ← derefM (pm_mem s !! p); derefM (pg !! i).
Definition write_word (p : Z) (i : nat) (w : Z) : M PMemory unit :=
  s ← getS; pg ← derefM (pm_mem s !! p);
  if decide (i < length pg)%nat
  then putS (set_pm_mem (<[p := <[i := w]> pg]> (pm_mem s)) s) else undef.
(** [for (i = 0; i < PAGE_SIZE; i++) ((char* )p)[i] = 0;] *)
Definition zero_fill (p : Z) : M PMemory unit :=
  s ← getS; derefM (pm_mem s !! p);; putS (set_pm_mem (<[p := zero_page]> (pm_mem s)) s).

Section pmem.
Context (kend : Z) (me : Z).

Definition freelist_alloc : M PMemory Z :=
  f ← gets pm_head;
  if negb (f =? NULL) then
    nx ← read_word f 0;
    modify (set_pm_head nx);;
    zero_fill f;;
    mret f
  else mret f.

(** The guard of [freelist_free]: misaligned, below the kernel image, or at or
    above the top of physical memory. *)
Definition err_addr (p : Z) : bool :=
  negb (p mod PAGE_SIZE =? 0) || (p <? kend) || (P2K PHYSTOP <=? p).

Definition freelist_free (p : Z) : M PMemory unit :=
  if err_addr p then panic "ERR ADDR"
  else
    zero_fill p;;
    h ← gets pm_head;
    write_word p 0 h;;
    modify (set_pm_head p).

(** [for (p = start; p + PAGE_SIZE <= end; p += PAGE_SIZE)], at most [fuel]
    times. *)
Fixpoint free_range (fuel : nat) (start stop : Z) : M PMemory unit :=
  match fuel with
  | O => nofuel
  | S fuel' =>
      if start + PAGE_SIZE <=? stop then
        freelist_free start;; free_range fuel' (start + PAGE_SIZE) stop
      else mret ()
  end.

Definition freelist_init (fuel : nat) (start stop : Z) : M PMemory unit :=
  free_range fuel start stop.

(** One more than the number of pages of the range is always enough fuel. *)
Definition init_memory_manager : M PMemory unit :=
  let start := ROUNDUP kend PAGE_SIZE in
  let stop := P2K PHYSTOP in
  freelist_init (S (Z.to_nat ((stop - start) / PAGE_SIZE))) start stop;;
  modify (set_pm_lock (init_spinlock "pmem")).

Definition kalloc : M PMemory Z :=
  zoom pm_lock set_pm_lock (acquire_spinlock me);;
  p ← freelist_alloc;
  zoom pm_lock set_pm_lock release_spinlock;;
  mret p.

Definition kfree (p : Z) : M PMemory unit :=
  zoom pm_lock set_pm_lock (acquire_spinlock me);;
  freelist_free p;;
  zoom pm_lock set_pm_lock release_spinlock.

(** ** The free list *)
Fixpoint freelist (m : gmap Z page) (p : Z) (l : list Z) : Prop :=
  match l with
  | [] => p = NULL
  | x :: l' => p = x ∧ x ≠ NULL ∧
      ∃ pg nx, m !! x = Some pg ∧ length pg = 512%nat ∧ pg !! 0%nat = Some nx ∧ freelist m nx l'
  end.

Record pm_inv (s : PMemory) (free : list Z) : Prop := {
  pi_list : freelist (pm_mem s) (pm_head s) free;
  pi_nodup : NoDup free;
  pi_ok : Forall (λ p, err_addr p = false) free
}.

Lemma freelist_ext m m' p l :
  freelist m p l → (∀ x, x ∈ l → m' !! x = m !! x) → freelist m' p l.
Proof.
  revert p. induction l as [|x l IH]; intros p; simpl; [done|].
  intros (->&Hx&pg&nx&E&Hlen&Hn&Hl) Hext. split_and!; [done..|].
  exists pg, nx. split_and!; [|done..|].
  - rewrite Hext; [done|set_solver].
  - apply IH; [done|]. intros. apply Hext. set_solver.
Qed.

Lemma zero_fill_Ok s p pg :
  pm_mem s !! p = Some pg →
  zero_fill p s = Ok () (set_pm_mem (<[p := zero_page]> (pm_mem s)) s).
Proof. intros E. unfold zero_fill, mbind, M_bind, getS. by rewrite E. Qed.

Lemma write_word_Ok s p i w pg :
  pm_mem s !! p = Some pg → (i < length pg)%nat →
  write_word p i w s = Ok () (set_pm_mem (<[p := <[i := w]> pg]> (pm_mem s)) s).
Proof.
  intros E Hi. unfold write_word, mbind, M_bind, getS. rewrite E. simpl.
  by rewrite decide_True.
Qed.

Lemma read_word_Ok s p i w pg :
  pm_mem s !! p = Some pg → pg !! i = Some w → read_word p i s = Ok w s.
Proof. intros E Hi. unfold read_word, mbind, M_bind, getS. rewrite E. simpl. by rewrite Hi. Qed.

(** The page of a free list, with the link in word 0. *)
Definition free_page (nx : Z) : page := <[0%nat := nx]> zero_page.

Lemma freelist_free_Ok s p free pg :
  pm_inv s free → err_addr p = false → p ≠ NULL → pm_mem s !! p = Some pg →
  freelist_free p s =
    Ok () (set_pm_head p (set_pm_mem (<[p := free_page (pm_head s)]> (pm_mem s)) s)).
Proof.
  intros _ He Hp E. unfold freelist_free. rewrite He.
  erewrite bind_Ok by (by eapply zero_fill_Ok). erewrite bind_Ok by done.
  erewrite bind_Ok.
  2:{ eapply write_word_Ok; [apply lookup_insert_eq|]. unfold zero_page. rewrite length_replicate. lia. }
  unfold modify, set_pm_mem, set_pm_head, free_page. simpl. by rewrite insert_insert_eq.
Qed.

Lemma freelist_free_inv s p free :
  pm_inv s free → err_addr p = false → p ≠ NULL → p ∉ free →
  pm_inv (set_pm_head p (set_pm_mem (<[p := free_page (pm_head s)]> (pm_mem s)) s)) (p :: free).
Proof.
  intros [Hl Hnd Hok] He Hp Hnew. split; simpl.
  - split_and!; [done..|]. exists (free_page (pm_head s)), (pm_head s). split_and!.
    + apply lookup_insert_eq.
    + unfold free_page, zero_page. by rewrite length_insert, length_replicate.
    + unfold free_page. apply list_lookup_insert_eq. unfold zero_page. rewrite length_replicate. lia.
    + eapply freelist_ext; [exact Hl|]. intros x Hx. rewrite lookup_insert_ne; [done|]. by intros ->.
  - by constructor.
  - by constructor.
Qed.

Lemma freelist_alloc_Ok s p free :
  pm_inv s (p :: free) →
  ∃ nx, freelist_alloc s =
      Ok p (set_pm_mem (<[p := zero_page]> (pm_mem s)) (set_pm_head nx s)) ∧
    pm_inv (set_pm_mem (<[p := zero_page]> (pm_mem s)) (set_pm_head nx s)) free.
Proof.
  intros [(Hh & Hp & pg & nx & E & Hlen & Hn & Hl) Hnd Hok]. exists nx.
  apply NoDup_cons in Hnd as [Hnew Hnd]. apply Forall_cons in Hok as [He Hok]. split.
  - unfold freelist_alloc. erewrite bind_Ok by done. rewrite Hh.
    rewrite (proj2 (Z.eqb_neq _ _) Hp). simpl.
    erewrite bind_Ok by (by eapply read_word_Ok). erewrite bind_Ok by done.
    erewrite bind_Ok by (by eapply zero_fill_Ok). done.
  - split; simpl; [|done..].
    eapply freelist_ext; [exact Hl|]. intros x Hx. rewrite lookup_insert_ne; [done|]. by intros ->.
Qed.
End pmem.

Lemma set_lock_mem l m s : set_pm_lock l (set_pm_mem m s) = set_pm_mem m (set_pm_lock l s).
Proof. done. Qed.

Section pmem_theorems.
Context (kend : Z) (me : Z).

Lemma pm_inv_lock s l free : pm_inv kend s free → pm_inv kend (set_pm_lock l s) free.
Proof. intros []. by split. Qed.

(** [kalloc] and [kfree] run with the lock free, and leave it free. *)
Lemma kalloc_Ok s p free :
  pm_inv kend s (p :: free) → locked (pm_lock s) = false →
  ∃ s', kalloc me s = Ok p s' ∧ pm_inv kend s' free ∧ locked (pm_lock s') = false ∧
    pm_mem s' = <[p := zero_page]> (pm_mem s).
Proof.
  intros Hinv Hlk. unfold kalloc.
  erewrite bind_Ok by (apply zoom_Ok; by apply acquire_spinlock_free).
  set (l' := mkSpinLock true (Some me) _).
  destruct (freelist_alloc_Ok kend _ _ _ (pm_inv_lock _ l' _ Hinv)) as (nx & E & Hinv').
  erewrite bind_Ok by exact E. erewrite bind_Ok by (apply zoom_Ok; by apply release_spinlock_held).
  eexists. split; [done|]. split_and!; [|done..]. by apply pm_inv_lock.
Qed.

Lemma kalloc_empty s :
  pm_inv kend s [] → locked (pm_lock s) = false →
  ∃ s', kalloc me s = Ok NULL s' ∧ pm_inv kend s' [] ∧ locked (pm_lock s') = false ∧
    pm_mem s' = pm_mem s.
Proof.
  intros Hinv Hlk. unfold kalloc.
  erewrite bind_Ok by (apply zoom_Ok; by apply acquire_spinlock_free).
  set (l' := mkSpinLock true (Some me) _).
  assert (freelist_alloc (set_pm_lock l' s) = Ok NULL (set_pm_lock l' s)) as E.
  { destruct Hinv as [Hh _ _]. simpl in Hh. unfold freelist_alloc. erewrite bind_Ok by done.
    simpl. by rewrite Hh. }
  erewrite bind_Ok by exact E. erewrite bind_Ok by (apply zoom_Ok; by apply release_spinlock_held).
  eexists. split; [done|]. split_and!; [|done..]. by do 2 apply pm_inv_lock.
Qed.

Lemma kfree_Ok s p free pg :
  pm_inv kend s free → locked (pm_lock s) = false →
  err_addr kend p = false → p ≠ NULL → p ∉ free → pm_mem s !! p = Some pg →
  ∃ s', kfree kend me p s = Ok () s' ∧ pm_inv kend s' (p :: free) ∧
    locked (pm_lock s') = false ∧
    pm_mem s' = <[p := free_page (pm_head s)]> (pm_mem s).
Proof.
  intros Hinv Hlk He Hp Hnew E. unfold kfree.
  erewrite bind_Ok by (apply zoom_Ok; by apply acquire_spinlock_free).
  set (l' := mkSpinLock true (Some me) _).
  pose proof (pm_inv_lock _ l' _ Hinv) as Hinv'.
  erewrite bind_Ok by (eapply freelist_free_Ok; [exact Hinv'|done..]).
  eexists. split; [apply zoom_Ok; by apply release_spinlock_held|]. split_and!; [|done..].
  apply pm_inv_lock. by apply (freelist_free_inv _ (set_pm_lock l' s)).
Qed.

Lemma kfree_panic s p :
  locked (pm_lock s) = false → err_addr kend p = true → kfree kend me p s = Panic "ERR ADDR".
Proof.
  intros Hlk He. unfold kfree.
  erewrite bind_Ok by (apply zoom_Ok; by apply acquire_spinlock_free).
  unfold freelist_free. by rewrite He.
Qed.
End pmem_theorems.

(** ** Initialisation *)

(** The page addresses of [start, start + n pages). *)
Fixpoint page_range (n : nat) (start : Z) : list Z :=
  match n with O => [] | S n' => start :: page_range n' (start + PAGE_SIZE) end.

Lemma elem_of_page_range n start x :
  x ∈ page_range n start ↔ ∃ k : nat, (k < n)%nat ∧ x = start + Z.of_nat k * PAGE_SIZE.
Proof.
  revert start. induction n as [|n IH]; intros start; simpl.
  - split; [by intros ?%elem_of_nil|]. intros (k&?&_). lia.
  - rewrite elem_of_cons, IH. unfold PAGE_SIZE. split.
    + intros [->|(k&?&->)]; [exists 0%nat; lia|exists (S k); lia].
    + intros ([|k]&?&->); [left; lia|right; exists k; lia].
Qed.

(** Freeing a range of pages puts exactly its whole pages on the list. *)
Lemma free_range_Ok kend : ∀ n s start stop free,
  pm_inv kend s free →
  (0 < start) →
  (∀ k : nat, (k < n)%nat → err_addr kend (start + Z.of_nat k * PAGE_SIZE) = false) →
  (∀ k : nat, (k < n)%nat → start + Z.of_nat k * PAGE_SIZE ∉ free) →
  (∀ k : nat, (k < n)%nat → is_Some (pm_mem s !! (start + Z.of_nat k * PAGE_SIZE))) →
  start + Z.of_nat n * PAGE_SIZE ≤ stop < start + Z.of_nat n * PAGE_SIZE + PAGE_SIZE →
  ∃ s', free_range kend (S n) start stop s = Ok () s' ∧
    pm_inv kend s' (reverse (page_range n start) ++ free) ∧ pm_lock s' = pm_lock s.
Proof.
  unfold PAGE_SIZE. induction n as [|n IH]; intros s start stop free Hinv H0 He Hf Hm Hr.
  { exists s. cbn [free_range]. unfold PAGE_SIZE.
    destruct (Z.leb_spec (start + 4096) stop); [lia|done]. }
  cbn [free_range]. unfold PAGE_SIZE at 1. destruct (Z.leb_spec (start + 4096) stop); [|lia].
  assert (err_addr kend start = false) as He0
    by (specialize (He 0%nat ltac:(lia)); by rewrite Z.add_0_r in He).
  assert (start ∉ free) as Hf0 by (specialize (Hf 0%nat ltac:(lia)); by rewrite Z.add_0_r in Hf).
  destruct (Hm 0%nat ltac:(lia)) as [pg E]. rewrite Z.add_0_r in E.
  erewrite bind_Ok by (eapply freelist_free_Ok; [done|done|unfold NULL; lia|done]).
  pose proof (freelist_free_inv _ _ _ _ Hinv He0 ltac:(unfold NULL; lia) Hf0) as Hinv'.
  destruct (IH _ (start + 4096) stop (start :: free) Hinv') as (s' & E' & Hi' & Hl').
  - lia.
  - intros k Hk. specialize (He (S k) ltac:(lia)).
    by replace (start + 4096 + Z.of_nat k * 4096) with (start + Z.of_nat (S k) * 4096) by lia.
  - intros k Hk. specialize (Hf (S k) ltac:(lia)).
    replace (start + 4096 + Z.of_nat k * 4096) with (start + Z.of_nat (S k) * 4096) by lia.
    apply not_elem_of_cons. split; [lia|done].
  - intros k Hk. destruct (Hm (S k) ltac:(lia)) as [pg' E']. simpl. exists pg'.
    replace (start + 4096 + Z.of_nat k * 4096) with (start + Z.of_nat (S k) * 4096) by lia.
    rewrite lookup_insert_ne by lia. done.
  - lia.
  - exists s'. split; [exact E'|]. split; [|done]. cbn [page_range]. rewrite reverse_cons.
    rewrite <- app_assoc. exact Hi'.
Qed.

Lemma ROUNDDOWN_eq a n : 0 < n → 0 ≤ a < 2 ^ 64 → ROUNDDOWN a n = n * (a / n).
Proof.
  intros. unfold ROUNDDOWN. pose proof (Z.mod_le a n). pose proof (Z.div_mod a n).
  pose proof (Z.mod_pos_bound a n). rewrite u64_small; lia.
Qed.
Lemma ROUNDUP_eq a n : 0 < n → 0 ≤ a → a + n < 2 ^ 64 → ROUNDUP a n = n * ((a + n - 1) / n).
Proof.
  intros. unfold ROUNDUP. rewrite (u64_small (a + n)) by lia. rewrite (u64_small (a + n - 1)) by lia.
  apply ROUNDDOWN_eq; lia.
Qed.
Lemma ROUNDUP_bounds a n :
  0 < n → 0 ≤ a → a + n < 2 ^ 64 → ROUNDUP a n mod n = 0 ∧ a ≤ ROUNDUP a n < a + n.
Proof.
  intros. rewrite ROUNDUP_eq by lia. pose proof (Z.div_mod (a + n - 1) n).
  pose proof (Z.mod_pos_bound (a + n - 1) n). rewrite Z.mul_comm, Z.mod_mul by lia. lia.
Qed.

Lemma P2K_PHYSTOP : P2K PHYSTOP = 0xffff00003F000000.
Proof. by vm_compute. Qed.

Lemma err_addr_false kend p :
  err_addr kend p = false ↔ p mod PAGE_SIZE = 0 ∧ kend ≤ p < P2K PHYSTOP.
Proof.
  unfold err_addr. rewrite !orb_false_iff, negb_false_iff, Z.eqb_eq, Z.ltb_ge, Z.leb_gt. lia.
Qed.

Lemma init_memory_manager_Ok kend s :
  0 < kend ≤ P2K PHYSTOP - PAGE_SIZE → pm_head s = NULL →
  (∀ p, err_addr kend p = false → is_Some (pm_mem s !! p)) →
  ∃ s' free, init_memory_manager kend s = Ok () s' ∧ pm_inv kend s' free ∧
    pm_lock s' = init_spinlock "pmem" ∧ ∀ p, p ∈ free ↔ err_addr kend p = false.
Proof.
  intros Hk Hh Hm. unfold init_memory_manager.
  rewrite P2K_PHYSTOP in *. unfold PAGE_SIZE in *. cbn zeta.
  pose proof (ROUNDUP_bounds kend 4096 ltac:(lia) ltac:(lia) ltac:(lia)) as [Hal Hb].
  set (start := ROUNDUP kend 4096) in *. set (stop := 0xffff00003F000000) in *.
  set (n := Z.to_nat ((stop - start) / 4096)).
  assert (Z.of_nat n = (stop - start) / 4096) as En by (apply Z2Nat.id; apply Z.div_pos; lia).
  pose proof (Z.div_mod (stop - start) 4096 ltac:(lia)) as Hdm.
  pose proof (Z.mod_pos_bound (stop - start) 4096 ltac:(lia)) as Hmb.
  assert (∀ k : nat, (k < n)%nat → err_addr kend (start + Z.of_nat k * 4096) = false) as He.
  { intros k Hlt. apply err_addr_false. rewrite P2K_PHYSTOP. unfold PAGE_SIZE.
    rewrite Z.mod_add, Hal by lia. fold stop. lia. }
  destruct (free_range_Ok kend n s start stop []) as (s' & E & Hi & Hlk).
  - split; [done|apply NoDup_nil_2|constructor].
  - lia.
  - exact He.
  - intros. apply not_elem_of_nil.
  - intros k Hlt. by apply Hm, He.
  - unfold PAGE_SIZE. lia.
  - rewrite app_nil_r in Hi. unfold freelist_init. erewrite bind_Ok by exact E.
    eexists _, _. split; [done|]. split; [by apply pm_inv_lock|]. split; [done|].
    intros p. rewrite elem_of_reverse, elem_of_page_range. unfold PAGE_SIZE. split.
    + intros (k&Hlt&->). by apply He.
    + rewrite err_addr_false, P2K_PHYSTOP. unfold PAGE_SIZE. fold stop. intros [Hpa Hpr].
      assert (start ≤ p) as Hsp.
      { pose proof (Z.div_mod p 4096). pose proof (Z.div_mod start 4096). lia. }
      pose proof (Z.div_mod p 4096 ltac:(lia)). pose proof (Z.div_mod start 4096 ltac:(lia)).
      assert (stop mod 4096 = 0) by (by vm_compute). pose proof (Z.div_mod stop 4096 ltac:(lia)).
      exists (Z.to_nat (p / 4096 - start / 4096)). lia.
Qed.

(** [kalloc] hands out the first page of the free list, filled with
    zeroes and no longer on the list, and changes no other page; with no page
    free it returns 0. The lock is free again afterwards. *)
Lemma kalloc_correct kend me s free :
  pm_inv kend s free → locked (pm_lock s) = false →
  wp (kalloc me) (λ p s', locked (pm_lock s') = false ∧
    match free with
    | [] => p = NULL ∧ pm_mem s' = pm_mem s ∧ pm_inv kend s' []
    | x :: rest => p = x ∧ p ≠ NULL ∧ p ∉ rest ∧ err_addr kend p = false ∧
        pm_inv kend s' rest ∧ pm_mem s' = <[p := zero_page]> (pm_mem s)
    end) s.
Proof.
  intros Hinv Hlk. apply wp_Ok. destruct free as [|x rest].
  - destruct (kalloc_empty _ me _ Hinv Hlk) as (s' & E & Hi & Hl & Hm). naive_solver.
  - destruct (kalloc_Ok _ me _ _ _ Hinv Hlk) as (s' & E & Hi & Hl & Hm).
    destruct Hinv as [(_ & Hx & _) Hnd Hok].
    apply NoDup_cons in Hnd as [Hnew _]. apply Forall_cons in Hok as [He _].
    eexists _, _. split; [done|]. by split_and!.
Qed.

(** Two free pages above a kernel that ends at 0xffff000000100000. *)
Definition demo_kend : Z := 0xffff000000100000.
Definition demo_pmem : PMemory :=
  {| pm_lock := init_spinlock "pmem";
     pm_head := 0xffff000000101000;
     pm_mem := {[ 0xffff000000101000 := free_page 0xffff000000100000;
                  0xffff000000100000 := free_page 0;
                  0xffff000000102000 := replicate 512 7 ]} |}.

Lemma demo_pm_inv : pm_inv demo_kend demo_pmem [0xffff000000101000; 0xffff000000100000].
Proof.
  split.
  - split; [done|]. split; [done|]. eexists _, _. split; [reflexivity|]. split; [done|].
    split; [reflexivity|]. split; [done|]. split; [done|]. eexists _, _. split; [reflexivity|].
    split; [done|]. by split.
  - by apply (bool_decide_unpack _).
  - repeat constructor.
Defined.

Lemma kalloc_correct_witness :
  wp (kalloc 0) (λ p s', locked (pm_lock s') = false ∧ p = 0xffff000000101000 ∧ p ≠ NULL ∧
    p ∉ [0xffff000000100000] ∧ err_addr demo_kend p = false ∧
    pm_inv demo_kend s' [0xffff000000100000] ∧ pm_mem s' = <[p := zero_page]> (pm_mem demo_pmem)) demo_pmem.
Proof. apply (kalloc_correct demo_kend 0 demo_pmem _ demo_pm_inv). reflexivity. Defined.

(** The addresses of the pages that the allocator may own: aligned to 4096 bytes, from the
    end of the kernel image up to the top of the physical memory, in the kernel's map. *)
Definition managed (kend p : Z) : Prop := p mod 4096 = 0 ∧ kend ≤ p ∧ p < 0xffff000000000000 + 0x3F000000.
Lemma err_addr_managed kend p : err_addr kend p = false ↔ managed kend p.
Proof. rewrite err_addr_false, P2K_PHYSTOP. unfold managed, PAGE_SIZE. lia. Qed.

(** C33. [kfree] of a page that is not free puts it at the front of the list, keeps the
    list well formed and changes no other page, so that the next [kalloc] returns the
    same page and leaves the list as it was. An address that is not a multiple of the
    page size, lies below the end of the kernel or at or above the top of memory
    panics instead. *)
Theorem kfree_correct kend me s free p :
  pm_inv kend s free → locked (pm_lock s) = false → 0 < kend → p ∉ free → is_Some (pm_mem s !! p) →
  (managed kend p →
   wp (kfree kend me p) (λ _ s', pm_inv kend s' (p :: free) ∧ Forall (managed kend) (p :: free) ∧ locked (pm_lock s') = false ∧
     (∀ q, q ≠ p → pm_mem s' !! q = pm_mem s !! q) ∧
     wp (kalloc me) (λ p' s'', p' = p ∧ pm_inv kend s'' free ∧ ∀ q, q ≠ p → pm_mem s'' !! q = pm_mem s !! q) s') s) ∧
  (¬ managed kend p → kfree kend me p s = Panic "ERR ADDR").
Proof.
  intros Hinv Hlk Hk Hnew [pg E]. rewrite <- err_addr_managed. split.
  2:{ intros He%not_false_iff_true. by apply kfree_panic. }
  intros He. assert (p ≠ NULL). { apply err_addr_false in He. unfold NULL. lia. }
  destruct (kfree_Ok _ me _ _ _ _ Hinv Hlk He ltac:(done) Hnew E) as (s' & E' & Hi & Hl & Hm).
  assert (∀ q, q ≠ p → pm_mem s' !! q = pm_mem s !! q) as Hq by (intros q Hq; by rewrite Hm, lookup_insert_ne).
  apply wp_Ok. eexists _, _. split; [exact E'|]. split_and!; try done.
  { eapply Forall_impl; [apply (pi_ok _ _ _ Hi)|]. intros x. apply err_addr_managed. }
  destruct (kalloc_Ok _ me _ _ _ Hi Hl) as (s'' & E'' & Hi' & Hl' & Hm').
  apply wp_Ok. eexists _, _. split; [exact E''|]. split_and!; try done.
  intros q Hne. rewrite Hm', lookup_insert_ne by done. by apply Hq.
Qed.

Lemma kfree_correct_witness :
  wp (kfree demo_kend 0 0xffff000000102000) (λ _ s',
      pm_inv demo_kend s' [0xffff000000102000; 0xffff000000101000; 0xffff000000100000] ∧
      Forall (managed demo_kend) [0xffff000000102000; 0xffff000000101000; 0xffff000000100000] ∧ locked (pm_lock s') = false ∧
      (∀ q, q ≠ 0xffff000000102000 → pm_mem s' !! q = pm_mem demo_pmem !! q) ∧
      wp (kalloc 0) (λ p' s'', p' = 0xffff000000102000 ∧ pm_inv demo_kend s'' [0xffff000000101000; 0xffff000000100000] ∧
        ∀ q, q ≠ 0xffff000000102000 → pm_mem s'' !! q = pm_mem demo_pmem !! q) s') demo_pmem.
Proof.
  apply (kfree_correct demo_kend 0 demo_pmem _ 0xffff000000102000 demo_pm_inv); try reflexivity.
  - by apply (bool_decide_unpack _).
  - by eexists.
  - split; [reflexivity|]. vm_compute. split; congruence.
Defined.

(** [init_memory_manager] puts on the free list exactly the aligned
    pages between the end of the kernel image and the top of physical memory, and
    leaves the allocator lock initialised. *)
Lemma init_memory_manager_correct kend s :
  0 < kend ≤ P2K PHYSTOP - PAGE_SIZE → pm_head s = NULL →
  (∀ p, p mod PAGE_SIZE = 0 ∧ kend ≤ p < P2K PHYSTOP → is_Some (pm_mem s !! p)) →
  wp (init_memory_manager kend) (λ _ s', ∃ free, pm_inv kend s' free ∧
    pm_lock s' = init_spinlock "pmem" ∧
    ∀ p, p ∈ free ↔ p mod PAGE_SIZE = 0 ∧ kend ≤ p < P2K PHYSTOP) s.
Proof.
  intros Hk Hh Hm. destruct (init_memory_manager_Ok kend s Hk Hh) as (s' & free & E & Hi & Hl & Hf).
  { intros p Hp. by apply Hm, err_addr_false. }
  apply wp_Ok. eexists _, _. split; [done|]. exists free. split_and!; [done..|].
  intros p. by rewrite Hf, err_addr_false.
Qed.

(** A kernel image that leaves the last two pages of memory. *)
Lemma init_memory_manager_correct_witness :
  let s := {| pm_lock := init_spinlock "bss"; pm_head := 0;
              pm_mem := {[ 0xffff00003EFFE000 := replicate 512 1; 0xffff00003EFFF000 := replicate 512 2 ]} |} in
  wp (init_memory_manager 0xffff00003EFFD008) (λ _ s', ∃ free, pm_inv 0xffff00003EFFD008 s' free ∧
    pm_lock s' = init_spinlock "pmem" ∧
    ∀ p, p ∈ free ↔ p mod PAGE_SIZE = 0 ∧ 0xffff00003EFFD008 ≤ p < P2K PHYSTOP) s.
Proof.
  intros s. apply (init_memory_manager_correct 0xffff00003EFFD008 s).
  - vm_compute. split; congruence.
  - reflexivity.
  - intros p [Hp1 Hp2]. rewrite P2K_PHYSTOP in Hp2. unfold PAGE_SIZE in Hp1.
    assert (p = 0xffff00003EFFE000 ∨ p = 0xffff00003EFFF000) as [-> | ->].
    { pose proof (Z.div_mod p 4096 ltac:(lia)). lia. }
    + by eexists.
    + by eexists.
Defined.
