(* ===== verification/Arena.v ===== *)
(** * The slab allocator (core/arena.c, core/arena.h)

    An arena carves fixed-size objects out of pages it gets from a page
    allocator, which is an interface here ([PageAllocator], the function pointers
    of [ArenaPageAllocator]); the physical page allocator is one instance. The
    pages of an arena form a circular list threaded through the pages themselves,
    and the nodes of that list live in the heap of ListNode.v. *)
From S2P Require Import Prelude Locks ListNode Bitmap PhysMem.

Definition ARENA_PAGE_SIZE : Z := PAGE_SIZE.
Definition ARENA_MIN_OBJECT_SIZE : Z := 16.
Definition ARENA_BITMAP_SIZE : Z := ARENA_PAGE_SIZE / ARENA_MIN_OBJECT_SIZE.

(** [arena] (8 bytes), [list] (16), [used] (4 cells of 8), [count] (8); [data]
    follows. *)
Definition sizeof_ArenaPage : Z := 64.
Definition ARENA_PAGE_CAPACITY : Z := ARENA_PAGE_SIZE - sizeof_ArenaPage.

Record ArenaPage := mkArenaPage {
  ap_arena : Z;
  ap_used : list Z;
  ap_count : Z
}.

Record Arena := mkArena {
  ar_lock : SpinLock;
  ar_object_size : Z;
  ar_max_count : Z;
  ar_pages : Z;
  ar_num_objects : Z;
  ar_num_pages : Z
}.

(** [&page->list], and [container_of(node, ArenaPage, list)]. *)
Definition node_of (page : Z) : Z := page + 8.
Definition page_of (node : Z) : Z := node - 8.

(** The page allocator an arena is given, and what it must promise: the pages
    handed out and not yet given back are [live]; [allocate] returns an aligned
    page that is not live, or [NULL]; [free] takes back a live page. *)
Class PageAllocator (T : Type) := {
  pa_allocate : M T Z;
  pa_free : Z → M T unit
}.

Class PageAllocatorLaws (T : Type) `{PageAllocator T} := {
  pa_inv : T → gset Z → Prop;
  pa_allocate_spec : ∀ t live, pa_inv t live →
    wp pa_allocate (λ p t',
      (p = NULL ∧ pa_inv t' live) ∨
      (p ∉ live ∧ p mod ARENA_PAGE_SIZE = 0 ∧ 0 < p ∧ p + ARENA_PAGE_SIZE ≤ 2 ^ 64 ∧
       pa_inv t' ({[p]} ∪ live))) t;
  pa_free_spec : ∀ t live p, pa_inv t live → p ∈ live →
    wp (pa_free p) (λ _ t', pa_inv t' (live ∖ {[p]})) t
}.

Record world (T : Type) := mkWorld {
  aw_arenas : gmap Z Arena;
  aw_pages : gmap Z ArenaPage;
  aw_nodes : heap;
  aw_alloc : T
}.
Arguments mkWorld {T} _ _ _ _.
Arguments aw_arenas {T} _.
Arguments aw_pages {T} _.
Arguments aw_nodes {T} _.
Arguments aw_alloc {T} _.

Section arena.
Context {T : Type} `{PageAllocator T}.
Context (me : Z).

Definition put_arenas (x : gmap Z Arena) (w : world T) : world T :=
  mkWorld x (aw_pages w) (aw_nodes w) (aw_alloc w).
Definition put_pages (x : gmap Z ArenaPage) (w : world T) : world T :=
  mkWorld (aw_arenas w) x (aw_nodes w) (aw_alloc w).
Definition put_nodes (x : heap) (w : world T) : world T :=
  mkWorld (aw_arenas w) (aw_pages w) x (aw_alloc w).
Definition put_alloc (x : T) (w : world T) : world T :=
  mkWorld (aw_arenas w) (aw_pages w) (aw_nodes w) x.

Definition get_arena (a : Z) : M (world T) Arena := w ← getS; derefM (aw_arenas w !! a).
Definition set_arena (a : Z) (ar : Arena) : M (world T) unit :=
  get_arena a;; modify (λ w, put_arenas (<[a := ar]> (aw_arenas w)) w).
Definition get_page (p : Z) : M (world T) ArenaPage := w ← getS; derefM (aw_pages w !! p).
Definition set_page (p : Z) (pg : ArenaPage) : M (world T) unit :=
  modify (λ w, put_pages (<[p := pg]> (aw_pages w)) w).
Definition on_nodes {A} (m : M heap A) : M (world T) A := zoom aw_nodes put_nodes m.
Definition on_alloc {A} (m : M T A) : M (world T) A := zoom aw_alloc put_alloc m.

Definition with_lock (ar : Arena) (l : SpinLock) : Arena :=
  mkArena l (ar_object_size ar) (ar_max_count ar) (ar_pages ar) (ar_num_objects ar) (ar_num_pages ar).
Definition with_pages (ar : Arena) (p : Z) : Arena :=
  mkArena (ar_lock ar) (ar_object_size ar) (ar_max_count ar) p (ar_num_objects ar) (ar_num_pages ar).
Definition with_counts (ar : Arena) (no np : Z) : Arena :=
  mkArena (ar_lock ar) (ar_object_size ar) (ar_max_count ar) (ar_pages ar) no np.

(** [acquire_spinlock(&arena->lock)] and its release. *)
Definition on_lock (a : Z) (m : M SpinLock unit) : M (world T) unit :=
  ar ← get_arena a;
  zoom (λ _, ar_lock ar) (λ l w, put_arenas (<[a := with_lock ar l]> (aw_arenas w)) w) m.

Definition init_arena (arena object_size : Z) : M (world T) unit :=
  assertM (ARENA_MIN_OBJECT_SIZE <=? object_size) "object_size is too small";;
  assertM (object_size <=? ARENA_PAGE_CAPACITY) "object_size is too large";;
  modify (λ w, put_arenas (<[arena :=
    {| ar_lock := init_spinlock "arena";
       ar_object_size := object_size;
       ar_max_count := ARENA_PAGE_CAPACITY / object_size;
       ar_pages := NULL;
       ar_num_objects := 0;
       ar_num_pages := 0 |}]> (aw_arenas w)) w).

(** The page goes back to the allocator: its fields and its node may no longer
    be used. *)
Definition free_page_of_node (node : Z) : M (world T) unit :=
  on_alloc (pa_free (page_of node));;
  modify (λ w, put_pages (delete (page_of node) (aw_pages w)) (put_nodes (delete node (aw_nodes w)) w)).

(** [do { ... } while (current != head)]. *)
Fixpoint clear_loop (fuel : nat) (head current : Z) : M (world T) unit :=
  match fuel with
  | O => nofuel
  | S fuel' =>
      nd ← on_nodes (load current);
      free_page_of_node current;;
      if next nd =? head then mret () else clear_loop fuel' head (next nd)
  end.

(** There are at most as many iterations as nodes in the heap. *)
Definition clear_arena (arena : Z) : M (world T) unit :=
  on_lock arena (acquire_spinlock me);;
  ar ← get_arena arena;
  (if negb (ar_pages ar =? NULL) then
     let head := node_of (ar_pages ar) in
     w ← getS;
     clear_loop (size (aw_nodes w)) head head;;
     ar ← get_arena arena;
     set_arena arena (with_counts (with_pages ar NULL) 0 0)
   else mret ());;
  on_lock arena release_spinlock.

(** The page is fresh from the allocator: its bytes are ours to type. *)
Definition init_arena_page (arena page : Z) : M (world T) unit :=
  modify (λ w, put_nodes (<[node_of page := {| prev := 0; next := 0 |}]> (aw_nodes w)) w);;
  on_nodes (init_list_node (node_of page));;
  set_page page {| ap_arena := arena; ap_used := init_bitmap ARENA_BITMAP_SIZE; ap_count := 0 |}.

Definition insert_page (arena page : Z) : M (world T) unit :=
  ar ← get_arena arena;
  if negb (ar_pages ar =? NULL) then
    head ← on_nodes (merge_list (node_of page) (node_of (ar_pages ar)));
    set_arena arena (with_pages ar (page_of head))
  else set_arena arena (with_pages ar page).

Definition add_page (arena : Z) : M (world T) Z :=
  page ← on_alloc pa_allocate;
  assertM (page mod ARENA_PAGE_SIZE =? 0) "page address must be aligned on ARENA_PAGE_SIZE";;
  whenM (negb (page =? NULL))
    (init_arena_page arena page;;
     insert_page arena page;;
     ar ← get_arena arena;
     set_arena arena (with_counts ar (ar_num_objects ar) (u64 (ar_num_pages ar + 1))));;
  mret page.

(** One iteration of the search for an empty slot. *)
Definition try_slot (arena page index : Z) : M (world T) (option Z) :=
  pg ← get_page page;
  used ← derefM (bitmap_get (ap_used pg) index);
  if negb used then
    ar ← get_arena arena;
    let object := u64 (page + sizeof_ArenaPage + index * ar_object_size ar) in
    used' ← derefM (bitmap_set (ap_used pg) index);
    set_page page {| ap_arena := ap_arena pg; ap_used := used'; ap_count := u64 (ap_count pg + 1) |};;
    set_arena arena (with_counts ar (u64 (ar_num_objects ar + 1)) (ar_num_pages ar));;
    mret (Some object)
  else mret None.

(** [alloc_object] from the search for an empty slot on. *)
Definition alloc_from_head (arena : Z) : M (world T) Z :=
  ar ← get_arena arena;
  let page := ar_pages ar in
  object ← for_loop (Z.to_nat (ar_max_count ar)) 0 (try_slot arena page);
  let object := default NULL object in
  assertM (negb (object =? NULL)) "arena failed to allocate object";;
  pg ← get_page page;
  ar ← get_arena arena;
  whenM (ar_max_count ar <=? ap_count pg)
    (nd ← on_nodes (load (node_of page));
     set_arena arena (with_pages ar (page_of (next nd))));;
  on_lock arena release_spinlock;;
  mret object.

Definition alloc_object (arena : Z) : M (world T) Z :=
  on_lock arena (acquire_spinlock me);;
  ar ← get_arena arena;
  no_slot ← (if ar_pages ar =? NULL then mret true
             else pg ← get_page (ar_pages ar); mret (ar_max_count ar <=? ap_count pg));
  whenM no_slot (add_page arena;; mret ());;
  alloc_from_head arena.

Definition get_container_page (object : Z) : Z := round_down object ARENA_PAGE_SIZE.

Definition move_page_to_head (arena page : Z) : M (world T) unit :=
  ar ← get_arena arena;
  if negb (ar_pages ar =? page) then
    on_nodes (detach_from_list (node_of page));;
    insert_page arena page
  else mret ().

Definition free_object (object : Z) : M (world T) unit :=
  let page := get_container_page object in
  pg ← get_page page;
  let arena := ap_arena pg in
  on_lock arena (acquire_spinlock me);;
  ar ← get_arena arena;
  let offset := u64 (object - (page + sizeof_ArenaPage)) in
  (if ar_object_size ar =? 0 then undef else mret ());;
  assertM (offset mod ar_object_size ar =? 0) "unexpected object offset";;
  let index := offset / ar_object_size ar in
  used ← derefM (bitmap_get (ap_used pg) index);
  assertM used "double free object";;
  used' ← derefM (bitmap_clear (ap_used pg) index);
  set_page page {| ap_arena := arena; ap_used := used'; ap_count := u64 (ap_count pg - 1) |};;
  set_arena arena (with_counts ar (u64 (ar_num_objects ar - 1)) (ar_num_pages ar));;
  move_page_to_head arena page;;
  on_lock arena release_spinlock.
End arena.

(** ** The invariant of an arena *)
Definition slot_used (pg : ArenaPage) (i : Z) : bool := bool_decide (bitmap_get (ap_used pg) i = Some true).

Record page_ok (a : Z) (maxc : Z) (p : Z) (pg : ArenaPage) : Prop := {
  po_arena : ap_arena pg = a;
  po_wf : bitmap_wf (ap_used pg);
  po_len : length (ap_used pg) = 4%nat;
  po_count : ap_count pg = count_upto (slot_used pg) (Z.to_nat maxc);
  po_high : ∀ i, maxc ≤ i → slot_used pg i = false;
  po_align : p mod ARENA_PAGE_SIZE = 0;
  po_range : 0 < p ∧ p + ARENA_PAGE_SIZE ≤ 2 ^ 64
}.

Definition count_of (pages : gmap Z ArenaPage) (p : Z) : Z :=
  match pages !! p with Some pg => ap_count pg | None => 0 end.
Definition sum_counts (pages : gmap Z ArenaPage) (L : list Z) : Z := foldr (λ p n, count_of pages p + n) 0 L.

Lemma sum_counts_perm pages L L' : L ≡ₚ L' → sum_counts pages L = sum_counts pages L'.
Proof. induction 1; simpl; unfold sum_counts in *; simpl; lia. Qed.

Lemma sum_counts_ext pages pages' L :
  (∀ p, p ∈ L → pages' !! p = pages !! p) → sum_counts pages' L = sum_counts pages L.
Proof.
  induction L as [|x L IH]; intros Hext; [done|]. simpl. unfold count_of at 1.
  rewrite Hext by set_solver. fold (count_of pages x). f_equal. apply IH. set_solver.
Qed.

Lemma sum_counts_update pages L p pg pg' :
  NoDup L → p ∈ L → pages !! p = Some pg →
  sum_counts (<[p := pg']> pages) L = sum_counts pages L + (ap_count pg' - ap_count pg).
Proof.
  intros Hnd Hp E. apply list_elem_of_split in Hp as (l1 & l2 & ->).
  assert (NoDup (p :: l1 ++ l2)) as [Hn _]%NoDup_cons by (by rewrite Permutation_middle).
  rewrite !(sum_counts_perm _ (l1 ++ p :: l2) (p :: l1 ++ l2)) by (by rewrite Permutation_middle).
  simpl. unfold count_of at 1 2. rewrite lookup_insert_eq, E.
  rewrite (sum_counts_ext pages (<[p := pg']> pages)); [lia|].
  intros q Hq. rewrite lookup_insert_ne; [done|]. by intros ->.
Qed.

Section inv.
Context {T : Type} `{PageAllocator T}.
Context (me : Z).
Implicit Types (w : world T) (L : list Z) (a p : Z) (ar : Arena).

Definition not_full (maxc : Z) w p : Prop := count_of (aw_pages w) p < maxc.
Definition is_full (maxc : Z) w p : Prop := count_of (aw_pages w) p = maxc.

(** What does not depend on the order of the pages, ... *)
Record arena_core w a ar L : Prop := {
  ai_arena : aw_arenas w !! a = Some ar;
  ai_size : ARENA_MIN_OBJECT_SIZE ≤ ar_object_size ar ≤ ARENA_PAGE_CAPACITY;
  ai_max : ar_max_count ar = ARENA_PAGE_CAPACITY / ar_object_size ar;
  ai_nodup : NoDup L;
  ai_pages : ∀ p, p ∈ L → ∃ pg, aw_pages w !! p = Some pg ∧ page_ok a (ar_max_count ar) p pg;
  ai_objects : ar_num_objects ar = u64 (sum_counts (aw_pages w) L);
  ai_num : ar_num_pages ar = u64 (Z.of_nat (length L))
}.
(** ... and what does: the pages with an empty slot come first. *)
Record arena_shape w ar L : Prop := {
  ai_head : ar_pages ar = default NULL (head L);
  ai_circ : L = [] ∨ circ (aw_nodes w) (node_of <$> L);
  ai_order : ∃ L1 L2, L = L1 ++ L2 ∧
    Forall (not_full (ar_max_count ar) w) L1 ∧ Forall (is_full (ar_max_count ar) w) L2
}.
Definition arena_inv w a ar L : Prop := arena_core w a ar L ∧ arena_shape w ar L.

(** The objects of the arena in use. *)
Definition is_object w ar L (o : Z) : Prop :=
  ∃ p pg i, p ∈ L ∧ aw_pages w !! p = Some pg ∧ 0 ≤ i < ar_max_count ar ∧
    slot_used pg i = true ∧ o = p + sizeof_ArenaPage + i * ar_object_size ar.

(** Nothing but arena [a] and the pages of [X] changes. *)
Record frame w w' a (X : list Z) : Prop := {
  fr_arenas : ∀ b, b ≠ a → aw_arenas w' !! b = aw_arenas w !! b;
  fr_pages : ∀ p, p ∉ X → aw_pages w' !! p = aw_pages w !! p;
  fr_circ : ∀ k, circ (aw_nodes w) k → k ## (node_of <$> X) → circ (aw_nodes w') k
}.

Lemma frame_refl w a X : frame w w a X.
Proof. by split. Qed.
Lemma frame_trans w1 w2 w3 a X Y :
  frame w1 w2 a X → frame w2 w3 a Y → X ⊆ Y → frame w1 w3 a Y.
Proof.
  intros [A1 P1 C1] [A2 P2 C2] Hsub. split.
  - intros b Hb. by rewrite A2, A1.
  - intros p Hp. rewrite P2 by done. apply P1. set_solver.
  - intros k Hk Hd. apply C2; [|done]. apply C1; [done|]. set_solver.
Qed.

Lemma frame_arena w w' a X L b br :
  frame w w' a X → b ≠ a → L ## X → arena_inv w b br L → arena_inv w' b br L.
Proof.
  intros [FA FP FC] Hb Hd [[C1 C2 C3 C4 C5 C6 C7] [S1 S2 S3]].
  assert (∀ p, p ∈ L → aw_pages w' !! p = aw_pages w !! p) as Hext by set_solver.
  assert (∀ p, p ∈ L → count_of (aw_pages w') p = count_of (aw_pages w) p) as Hcnt.
  { intros p Hp. unfold count_of. by rewrite Hext. }
  split; split; try done.
  - by rewrite FA.
  - intros p Hp. rewrite Hext by done. by apply C5.
  - by rewrite (sum_counts_ext (aw_pages w)).
  - destruct S2 as [|S2]; [by left|right]. apply FC; [done|].
    intros n [p [-> Hp]]%list_elem_of_fmap [q [Hq Hq']]%list_elem_of_fmap.
    unfold node_of in Hq. assert (p = q) as -> by lia. set_solver.
  - destruct S3 as (L1 & L2 & -> & HL1 & HL2). exists L1, L2. split; [done|].
    split.
    + rewrite Forall_forall in *. intros p Hp. unfold not_full. rewrite Hcnt by set_solver. by apply HL1.
    + rewrite Forall_forall in *. intros p Hp. unfold is_full. rewrite Hcnt by set_solver. by apply HL2.
Qed.

Lemma arena_geometry w a ar L :
  arena_core w a ar L →
  0 < ar_object_size ar ∧ 1 ≤ ar_max_count ar ≤ 252 ∧
  ar_max_count ar * ar_object_size ar ≤ ARENA_PAGE_CAPACITY.
Proof.
  intros [_ Hs Hm _ _ _ _]. unfold ARENA_MIN_OBJECT_SIZE in *. split; [lia|].
  rewrite Hm. change ARENA_PAGE_CAPACITY with 4032 in *. split; [split|].
  - apply Z.div_le_lower_bound; lia.
  - apply Z.div_le_upper_bound; lia.
  - rewrite Z.mul_comm. apply Z.mul_div_le. lia.
Qed.

(** *** Locking *)
Lemma put_arenas_put x y w : put_arenas x (put_arenas y w) = put_arenas x w.
Proof. done. Qed.

Lemma arena_inv_lock w a ar L l :
  arena_inv w a ar L →
  arena_inv (put_arenas (<[a := with_lock ar l]> (aw_arenas w)) w) a (with_lock ar l) L.
Proof. intros [[] []]. split; split; try done. apply lookup_insert_eq. Qed.

Lemma frame_arenas w a ar X :
  frame w (put_arenas (<[a := ar]> (aw_arenas w)) w) a X.
Proof. split; try done. intros b Hb. simpl. by rewrite lookup_insert_ne. Qed.

Lemma get_arena_Ok w a ar : aw_arenas w !! a = Some ar → get_arena a w = Ok ar w.
Proof. unfold get_arena, mbind, M_bind, getS. by intros ->. Qed.
Lemma get_page_Ok w p pg : aw_pages w !! p = Some pg → get_page p w = Ok pg w.
Proof. unfold get_page, mbind, M_bind, getS. by intros ->. Qed.
Lemma set_arena_Ok w a ar ar' :
  aw_arenas w !! a = Some ar → set_arena a ar' w = Ok () (put_arenas (<[a := ar']> (aw_arenas w)) w).
Proof. intros E. unfold set_arena. erewrite bind_Ok by (by apply get_arena_Ok). done. Qed.

Lemma arena_lock_Ok w a ar :
  aw_arenas w !! a = Some ar → locked (ar_lock ar) = false →
  on_lock a (acquire_spinlock me) w =
    Ok () (put_arenas (<[a := with_lock ar (mkSpinLock true (Some me) (lname (ar_lock ar)))]> (aw_arenas w)) w).
Proof.
  intros E Hl. unfold on_lock. erewrite bind_Ok by (by apply get_arena_Ok).
  unfold zoom. rewrite (acquire_spinlock_free me _ Hl). done.
Qed.
Lemma arena_unlock_Ok w a ar :
  aw_arenas w !! a = Some ar → locked (ar_lock ar) = true →
  on_lock a release_spinlock w =
    Ok () (put_arenas (<[a := with_lock ar (mkSpinLock false None (lname (ar_lock ar)))]> (aw_arenas w)) w).
Proof.
  intros E Hl. unfold on_lock. erewrite bind_Ok by (by apply get_arena_Ok).
  unfold zoom. rewrite (release_spinlock_held _ Hl). done.
Qed.

(** *** Adding a page *)
Lemma circ_insert_fresh (h : heap) n nd k : circ h k → n ∉ k → circ (<[n := nd]> h) k.
Proof.
  intros Hk Hn. eapply circ_ext; [exact Hk|]. intros x Hx.
  rewrite next_insert, prev_insert. rewrite !decide_False by (by intros ->). done.
Qed.

Lemma node_of_notin p L : p ∉ L → node_of p ∉ node_of <$> L.
Proof. intros Hp [q [E Hq]]%list_elem_of_fmap. unfold node_of in E. assert (p = q) as -> by lia. done. Qed.

Lemma page_of_node_of p : page_of (node_of p) = p.
Proof. unfold page_of, node_of. lia. Qed.

Lemma insert_page_Ok w a ar L p :
  aw_arenas w !! a = Some ar → ar_pages ar = default NULL (head L) →
  L = [] ∨ circ (aw_nodes w) (node_of <$> L) →
  circ (aw_nodes w) [node_of p] → p ∉ L → Forall (λ q, 0 < q) (p :: L) →
  ∃ h', insert_page a p w = Ok () (put_arenas (<[a := with_pages ar p]> (aw_arenas w)) (put_nodes h' w)) ∧
    circ h' (node_of <$> p :: L) ∧
    ∀ k, circ (aw_nodes w) k → k ## (node_of <$> p :: L) → circ h' k.
Proof.
  intros E Hh Hc Hp Hnew [H0 HL]%Forall_cons. unfold insert_page.
  erewrite bind_Ok by (by apply get_arena_Ok). rewrite Hh. destruct L as [|q L]; simpl.
  - erewrite set_arena_Ok by done. exists (aw_nodes w). by destruct w.
  - destruct Hc as [|Hc]; [done|]. apply Forall_cons in HL as [Hq _]. unfold NULL.
    destruct (Z.eqb_spec q 0); [lia|]. simpl.
    assert ([node_of p] ## node_of <$> q :: L) as Hd.
    { pose proof (node_of_notin _ _ Hnew). set_solver. }
    erewrite bind_Ok.
    2:{ apply zoom_Ok. apply (merge_list_Ok _ _ _ [] (node_of <$> L)); [..|done|done]; unfold node_of, NULL; lia. }
    rewrite page_of_node_of. erewrite set_arena_Ok by done. eexists. split; [done|]. split.
    + pose proof (merged_chain _ _ _ _ _ Hp Hc Hd) as Hm. by rewrite app_nil_r in Hm.
    + intros k Hk Hdk. apply (merged_frame _ _ _ [] (node_of <$> L)); [done..| |]; set_solver.
Qed.

Lemma arena_positive w a ar L : arena_core w a ar L → Forall (λ q, 0 < q) L.
Proof.
  intros HC. apply Forall_forall. intros q Hq. destruct (ai_pages _ _ _ _ HC q Hq) as (pg & _ & Hok).
  apply Hok.
Qed.

Definition fresh_page (a : Z) : ArenaPage :=
  {| ap_arena := a; ap_used := init_bitmap ARENA_BITMAP_SIZE; ap_count := 0 |}.

Lemma fresh_page_slot a i : slot_used (fresh_page a) i = false.
Proof.
  unfold slot_used. apply bool_decide_eq_false_2. simpl.
  unfold bitmap_get. cbn [BITMAP_PARSE_INDEX]. change (init_bitmap ARENA_BITMAP_SIZE) with (replicate 4 0).
  destruct (replicate 4 0 !! _) as [c|] eqn:E; [|done]. apply lookup_replicate in E as [-> _].
  simpl. rewrite Z.shiftr_0_l. done.
Qed.

Lemma fresh_page_ok a maxc p :
  p mod ARENA_PAGE_SIZE = 0 → 0 < p ∧ p + ARENA_PAGE_SIZE ≤ 2 ^ 64 → page_ok a maxc p (fresh_page a).
Proof.
  intros. split; try done.
  - apply init_bitmap_wf.
  - rewrite count_upto_none; [done|]. intros. apply fresh_page_slot.
  - intros. apply fresh_page_slot.
Qed.

Lemma add_page_Ok w a ar L p t' :
  arena_inv w a ar L → Forall (is_full (ar_max_count ar) w) L →
  pa_allocate (aw_alloc w) = Ok p t' → p ∉ L →
  p mod ARENA_PAGE_SIZE = 0 → 0 < p ∧ p + ARENA_PAGE_SIZE ≤ 2 ^ 64 →
  ∃ w', let ar' := with_counts (with_pages ar p) (ar_num_objects ar) (u64 (ar_num_pages ar + 1)) in
    add_page a w = Ok p w' ∧ arena_inv w' a ar' (p :: L) ∧ frame w w' a (p :: L) ∧
    aw_alloc w' = t' ∧ aw_pages w' = <[p := fresh_page a]> (aw_pages w).
Proof.
  intros [HC HS] Hfull Ha Hnew Hal Hr. pose proof (arena_geometry _ _ _ _ HC) as (_ & Hm & _).
  pose proof (arena_positive _ _ _ _ HC) as Hpos.
  destruct HC as [E Hsz Hmx Hnd Hpg Hob Hnp], HS as [Hh Hc Ho].
  unfold add_page. erewrite bind_Ok by (by apply zoom_Ok).
  rewrite Hal. simpl (assertM _ _). erewrite bind_Ok by done.
  destruct (Z.eqb_spec p NULL) as [->|_]; [unfold NULL in *; lia|]. simpl (whenM _ _).
  set (nd0 := {| prev := 0; next := 0 |}).
  set (h1 := <[node_of p := {| prev := node_of p; next := node_of p |}]> (aw_nodes w)).
  set (w1 := mkWorld (aw_arenas w) (<[p := fresh_page a]> (aw_pages w)) h1 t').
  assert (init_arena_page a p (put_alloc t' w) = Ok () w1) as E1.
  { unfold init_arena_page. erewrite bind_Ok by done. erewrite bind_Ok.
    2:{ apply zoom_Ok. unfold init_list_node, store. erewrite bind_Ok; [|apply load_Ok, lookup_insert_eq].
        unfold modify. done. }
    simpl. rewrite insert_insert_eq. done. }
  assert (∀ k, circ (aw_nodes w) k → node_of p ∉ k → circ h1 k) as Hfr by (intros; by apply circ_insert_fresh).
  destruct (insert_page_Ok w1 a ar L p) as (h' & E2 & Hc' & Hk'); [done|done| | |done|constructor; [lia|done]|].
  { destruct Hc as [|Hc]; [by left|right]. apply Hfr; [done|by apply node_of_notin]. }
  { change (circ h1 [node_of p]). split; [apply NoDup_singleton|]. unfold h1.
    split; rewrite ?next_insert, ?prev_insert; by rewrite decide_True. }
  erewrite bind_Ok.
  2:{ erewrite bind_Ok by exact E1. erewrite bind_Ok by exact E2.
      erewrite bind_Ok by (apply get_arena_Ok, lookup_insert_eq). eapply set_arena_Ok, lookup_insert_eq. }
  eexists. split; [done|]. rewrite put_arenas_put. cbn. rewrite insert_insert_eq.
  set (ar' := with_counts _ _ _).
  assert (∀ q, q ∈ L → <[p:=fresh_page a]> (aw_pages w) !! q = aw_pages w !! q) as Hext.
  { intros q Hq. rewrite lookup_insert_ne; [done|]. by intros ->. }
  assert (∀ q, q ∈ L → count_of (<[p:=fresh_page a]> (aw_pages w)) q = count_of (aw_pages w) q) as Hcnt.
  { intros q Hq. unfold count_of. by rewrite Hext. }
  split; [split; split; try done|split; [|done]].
  - apply lookup_insert_eq.
  - by constructor.
  - intros q [->|Hq]%elem_of_cons; simpl.
    + rewrite lookup_insert_eq. eexists. split; [done|]. by apply fresh_page_ok.
    + rewrite Hext by done. by apply Hpg.
  - simpl. unfold count_of. rewrite lookup_insert_eq. simpl. rewrite Hob.
    f_equal. rewrite <- (sum_counts_ext (aw_pages w) (<[p := fresh_page a]> (aw_pages w))) by done. done.
  - simpl. rewrite Hnp, u64_add_l. f_equal. lia.
  - by right.
  - exists [p], L. split; [done|]. split.
    + constructor; [|done]. unfold not_full, count_of. simpl. rewrite lookup_insert_eq. simpl. lia.
    + rewrite Forall_forall in *. intros q Hq. unfold is_full. simpl. rewrite Hcnt by done. by apply Hfull.
  - split; simpl.
    + intros b Hb. by rewrite lookup_insert_ne.
    + intros q Hq. rewrite lookup_insert_ne; [done|]. set_solver.
    + intros k Hk Hd. apply Hk'; [|done]. apply Hfr; [done|]. set_solver.
Qed.

(** *** Taking and giving back a slot *)
Definition with_slot w a ar p pg' no : world T :=
  put_arenas (<[a := with_counts ar no (ar_num_pages ar)]> (aw_arenas w))
    (put_pages (<[p := pg']> (aw_pages w)) w).

Lemma arena_core_update w a ar L p pg pg' no :
  arena_core w a ar L → p ∈ L → aw_pages w !! p = Some pg →
  page_ok a (ar_max_count ar) p pg' →
  no = u64 (ar_num_objects ar + (ap_count pg' - ap_count pg)) →
  arena_core (with_slot w a ar p pg' no) a (with_counts ar no (ar_num_pages ar)) L.
Proof.
  intros [E Hsz Hmx Hnd Hpg Hob Hnp] Hp Ep Hok ->. split; try done.
  - apply lookup_insert_eq.
  - intros q Hq. simpl. destruct (decide (q = p)) as [->|].
    + rewrite lookup_insert_eq. eauto.
    + rewrite lookup_insert_ne by done. by apply Hpg.
  - simpl. rewrite (sum_counts_update _ _ _ pg) by done. by rewrite Hob, u64_add_l.
Qed.

Lemma arena_core_perm w a ar L L' h p :
  arena_core w a ar L → L ≡ₚ L' →
  arena_core (put_arenas (<[a := with_pages ar p]> (aw_arenas w)) (put_nodes h w)) a (with_pages ar p) L'.
Proof.
  intros [E Hsz Hmx Hnd Hpg Hob Hnp] HP. split; try done.
  - apply lookup_insert_eq.
  - by rewrite <- HP.
  - intros q Hq. apply Hpg. by rewrite HP.
  - simpl. by rewrite <- (sum_counts_perm _ L L').
  - simpl. by rewrite <- HP.
Qed.

Lemma used_page_bits maxc a p pg i :
  page_ok a maxc p pg → 0 ≤ i < maxc → maxc ≤ 252 →
  bitmap_get (ap_used pg) i = Some (slot_used pg i).
Proof.
  intros Hok Hi Hm. destruct (bitmap_get_is_Some (ap_used pg) i) as [b E].
  { unfold bitmap_size. rewrite (po_len _ _ _ _ Hok). lia. }
  unfold slot_used. rewrite E. by destruct b.
Qed.

(** The page with slot [i] taken or given back. *)
Lemma slot_change_ok a maxc p pg i used' (b : bool) :
  page_ok a maxc p pg → 1 ≤ maxc ≤ 252 → 0 ≤ i < maxc → slot_used pg i = negb b →
  bitmap_wf used' → length used' = length (ap_used pg) →
  (∀ j, 0 ≤ j → bitmap_get used' j = if bool_decide (j = i) then Some b else bitmap_get (ap_used pg) j) →
  let pg' := {| ap_arena := ap_arena pg; ap_used := used';
                ap_count := u64 (ap_count pg + (if b then 1 else -1)) |} in
  page_ok a maxc p pg' ∧ (∀ j, 0 ≤ j → slot_used pg' j = if bool_decide (j = i) then b else slot_used pg j) ∧
  ap_count pg' = ap_count pg + (if b then 1 else -1).
Proof.
  intros Hok Hm Hi Hs Hwf Hlen Hget pg'. destruct Hok as [P1 P2 P3 P4 P5 P6 P7].
  assert (∀ j, 0 ≤ j → slot_used pg' j = if bool_decide (j = i) then b else slot_used pg j) as Hsl.
  { intros j Hj. unfold slot_used. simpl. rewrite Hget by done.
    destruct (bool_decide (j = i)); [by destruct b|done]. }
  assert (count_upto (slot_used pg') (Z.to_nat maxc) = ap_count pg + (if b then 1 else -1)) as Hc.
  { rewrite P4. destruct b; simpl in Hs.
    - apply (count_upto_set _ _ _ i); [lia|done|by rewrite Hsl, bool_decide_eq_true_2 by lia|].
      intros j Hj Hne. by rewrite Hsl, bool_decide_eq_false_2.
    - rewrite (count_upto_set (slot_used pg') (slot_used pg) _ i); [lia|lia| |done|].
      + by rewrite Hsl, bool_decide_eq_true_2 by lia.
      + intros j Hj Hne. by rewrite Hsl, bool_decide_eq_false_2. }
  assert (ap_count pg' = ap_count pg + (if b then 1 else -1)) as Hc'.
  { unfold pg'. simpl. apply u64_small. rewrite <- Hc. pose proof (count_upto_bounds (slot_used pg') (Z.to_nat maxc)). lia. }
  split; [|done]. split; try done.
  - simpl. by rewrite Hlen.
  - by rewrite Hc', Hc.
  - intros j Hj. rewrite Hsl by lia. rewrite bool_decide_eq_false_2 by lia. auto.
Qed.

Lemma find_slot_Ok w a ar L p pg :
  arena_core w a ar L → p ∈ L → aw_pages w !! p = Some pg → ap_count pg < ar_max_count ar →
  ∃ i pg', 0 ≤ i < ar_max_count ar ∧ slot_used pg i = false ∧
    page_ok a (ar_max_count ar) p pg' ∧ ap_count pg' = ap_count pg + 1 ∧
    (∀ j, 0 ≤ j → slot_used pg' j = if bool_decide (j = i) then true else slot_used pg j) ∧
    for_loop (Z.to_nat (ar_max_count ar)) 0 (try_slot a p) w =
      Ok (Some (p + sizeof_ArenaPage + i * ar_object_size ar))
         (with_slot w a ar p pg' (u64 (ar_num_objects ar + 1))).
Proof.
  intros HC Hp Ep Hlt. destruct (ai_pages _ _ _ _ HC p Hp) as (pg0 & Ep0 & Hok).
  assert (pg0 = pg) as -> by congruence.
  pose proof (arena_geometry _ _ _ _ HC) as (Hsz & Hm & Hcap).
  pose proof (ai_arena _ _ _ _ HC) as Ea.
  rewrite (po_count _ _ _ _ Hok) in Hlt.
  destruct (count_upto_not_full (slot_used pg) (Z.to_nat (ar_max_count ar))) as (i & Hi & Hf & Hbefore); [lia|].
  destruct (bitmap_set_spec (ap_used pg) i) as (used' & Eset & Hwf & Hlen & Hget).
  { apply Hok. }
  { unfold bitmap_size. rewrite (po_len _ _ _ _ Hok). lia. }
  destruct (slot_change_ok a (ar_max_count ar) p pg i used' true) as (Hok' & Hsl & Hcnt); try done; [lia|].
  exists i. eexists. split; [lia|]. split; [done|]. split; [exact Hok'|]. split; [exact Hcnt|]. split; [exact Hsl|].
  apply (for_loop_first _ _ _ i); [lia| |].
  - intros j Hj. unfold try_slot. erewrite bind_Ok by (by apply get_page_Ok).
    erewrite (used_page_bits (ar_max_count ar)) by (done || lia).
    rewrite Hbefore by lia. erewrite bind_Ok by done. done.
  - unfold try_slot. erewrite bind_Ok by (by apply get_page_Ok).
    erewrite (used_page_bits (ar_max_count ar)) by (done || lia).
    rewrite Hf. erewrite bind_Ok by done. simpl (if negb false then _ else _).
    erewrite bind_Ok by (by apply get_arena_Ok). rewrite Eset. erewrite bind_Ok by done.
    erewrite bind_Ok by done. erewrite bind_Ok by (by eapply set_arena_Ok).
    rewrite u64_small; [done|]. pose proof (po_range _ _ _ _ Hok).
    unfold ARENA_PAGE_CAPACITY, ARENA_PAGE_SIZE, PAGE_SIZE, sizeof_ArenaPage in *. nia.
Qed.

Lemma object_inj p q i j size maxc :
  p mod ARENA_PAGE_SIZE = 0 → q mod ARENA_PAGE_SIZE = 0 → 0 < size →
  maxc * size ≤ ARENA_PAGE_CAPACITY → 0 ≤ i < maxc → 0 ≤ j < maxc →
  p + sizeof_ArenaPage + i * size = q + sizeof_ArenaPage + j * size → p = q ∧ i = j.
Proof.
  unfold ARENA_PAGE_CAPACITY, ARENA_PAGE_SIZE, PAGE_SIZE, sizeof_ArenaPage.
  intros Hp Hq Hs Hc Hi Hj E.
  assert (0 ≤ i * size < 4032 ∧ 0 ≤ j * size < 4032) as [? ?] by nia.
  pose proof (Z.div_mod p 4096 ltac:(lia)). pose proof (Z.div_mod q 4096 ltac:(lia)).
  assert (p = q) as -> by lia. split; [done|]. nia.
Qed.

(** Changing the slots of one page changes the objects of the arena at that
    slot only. *)
Lemma is_object_update w w' a ar ar' L L' p pg pg' i (b : bool) :
  arena_core w a ar L → p ∈ L → aw_pages w !! p = Some pg → L ≡ₚ L' →
  aw_pages w' = <[p := pg']> (aw_pages w) →
  ar_max_count ar' = ar_max_count ar → ar_object_size ar' = ar_object_size ar →
  0 ≤ i < ar_max_count ar →
  (∀ j, 0 ≤ j → slot_used pg' j = if bool_decide (j = i) then b else slot_used pg j) →
  let o := p + sizeof_ArenaPage + i * ar_object_size ar in
  (is_object w ar L o ↔ slot_used pg i = true) ∧
  (∀ o', is_object w' ar' L' o' ↔
     if bool_decide (o' = o) then b = true else is_object w ar L o').
Proof.
  intros HC Hp Ep HP Ew Hmx Hsz Hi Hsl o.
  pose proof (arena_geometry _ _ _ _ HC) as (Hs & Hm & Hcap).
  assert (∀ q, q ∈ L → q mod ARENA_PAGE_SIZE = 0) as Hal.
  { intros q Hq. destruct (ai_pages _ _ _ _ HC q Hq) as (pq & _ & Hok). apply Hok. }
  assert (∀ q j, q ∈ L → 0 ≤ j < ar_max_count ar →
            o = q + sizeof_ArenaPage + j * ar_object_size ar → q = p ∧ j = i) as Hinj.
  { intros q j Hq Hj Ho. unfold o in Ho. destruct (object_inj p q i j _ _ (Hal _ Hp) (Hal _ Hq) Hs Hcap Hi Hj Ho). done. }
  split.
  - split.
    + intros (q & pq & j & Hq & Eq & Hj & Hu & Ho). destruct (Hinj _ _ Hq Hj Ho) as [-> ->]. congruence.
    + intros Hu. by exists p, pg, i.
  - intros o'. unfold is_object. rewrite Hmx, Hsz, Ew. case_bool_decide as Ho.
    + subst o'. split.
      * intros (q & pq & j & Hq & Eq & Hj & Hu & Ho). rewrite <- HP in Hq.
        destruct (Hinj _ _ Hq Hj Ho) as [-> ->]. rewrite lookup_insert_eq in Eq. injection Eq as <-.
        rewrite Hsl, bool_decide_eq_true_2 in Hu by lia. done.
      * intros ->. exists p, pg', i. rewrite <- HP. split_and!; [done|apply lookup_insert_eq|lia|lia| |done].
        rewrite Hsl, bool_decide_eq_true_2 by lia. done.
    + split.
      * intros (q & pq & j & Hq & Eq & Hj & Hu & Ho'). rewrite <- HP in Hq.
        destruct (decide (q = p)) as [->|].
        -- rewrite lookup_insert_eq in Eq. injection Eq as <-. rewrite Hsl in Hu by lia.
           case_bool_decide; [subst j o'; done|]. by exists p, pg, j.
        -- rewrite lookup_insert_ne in Eq by done. by exists q, pq, j.
      * intros (q & pq & j & Hq & Eq & Hj & Hu & Ho'). exists q.
        destruct (decide (q = p)) as [->|].
        -- exists pg', j. rewrite <- HP, lookup_insert_eq. split_and!; try done; [lia..|].
           rewrite Hsl by lia. case_bool_decide; [subst j o'; done|]. congruence.
        -- exists pq, j. rewrite <- HP, lookup_insert_ne by done. done.
Qed.

Lemma count_of_update pages p pg q : q ≠ p → count_of (<[p := pg]> pages) q = count_of pages q.
Proof. intros. unfold count_of. by rewrite lookup_insert_ne. Qed.

Lemma Forall_count_update (P : Z → Prop) pages p pg L :
  p ∉ L → Forall (λ q, P (count_of pages q)) L → Forall (λ q, P (count_of (<[p := pg]> pages) q)) L.
Proof.
  intros Hp HF. rewrite Forall_forall in *. intros q Hq. rewrite count_of_update; [by apply HF|].
  by intros ->.
Qed.

(** The order of the pages once the head has one more object. *)
Lemma order_after_alloc w w' maxc p pg L c :
  (∃ L1 L2, p :: L = L1 ++ L2 ∧ Forall (not_full maxc w) L1 ∧ Forall (is_full maxc w) L2) →
  NoDup (p :: L) → not_full maxc w p → aw_pages w' = <[p := pg]> (aw_pages w) → ap_count pg = c → c ≤ maxc →
  ∃ L1 L2, (if maxc <=? c then L ++ [p] else p :: L) = L1 ++ L2 ∧
    Forall (not_full maxc w') L1 ∧ Forall (is_full maxc w') L2.
Proof.
  intros (L1 & L2 & E & H1 & H2) [Hp Hnd]%NoDup_cons Hnf Ew Hc Hle.
  destruct L1 as [|x L1]; simpl in E.
  { rewrite <- E in H2. apply Forall_cons in H2 as [Hx _]. unfold not_full, is_full in *. lia. }
  injection E as <- ->. apply Forall_cons in H1 as [_ H1].
  assert (Forall (not_full maxc w') L1) as H1'.
  { unfold not_full. rewrite Ew. apply (Forall_count_update (λ n, n < maxc)); [set_solver|done]. }
  assert (Forall (is_full maxc w') L2) as H2'.
  { unfold is_full. rewrite Ew. apply (Forall_count_update (λ n, n = maxc)); [set_solver|done]. }
  assert (count_of (aw_pages w') p = c) as Hcp by (unfold count_of; by rewrite Ew, lookup_insert_eq).
  destruct (Z.leb_spec maxc c).
  - exists L1, (L2 ++ [p]). rewrite <- app_assoc. split; [done|]. split; [done|].
    apply Forall_app. split; [done|]. constructor; [|done]. unfold is_full. lia.
  - exists (p :: L1), L2. split; [done|]. split; [|done]. constructor; [|done]. unfold not_full. lia.
Qed.

Lemma circ_rotate_one (h : heap) p L :
  circ h (node_of <$> p :: L) →
  ∃ nd, h !! node_of p = Some nd ∧ page_of (next nd) = default NULL (head (L ++ [p])) ∧
    circ h (node_of <$> L ++ [p]).
Proof.
  intros Hc. pose proof Hc as [Hnd Hch]. pose proof (chain_first _ _ _ _ Hch) as [Hn _].
  apply next_of_load in Hn as (nd & E & En). exists nd. split; [done|]. rewrite En.
  destruct L as [|x L]; simpl in *.
  - split; [apply page_of_node_of|done].
  - split; [apply page_of_node_of|]. rewrite fmap_app. simpl.
    apply (circ_rotate h [node_of p] (node_of x) (node_of <$> L)). done.
Qed.

(** *** [alloc_object] *)

(** What an allocation of [o] leaves behind. *)
Record allocated w a ar L o w' ar' L' : Prop := {
  al_inv : arena_inv w' a ar' L';
  al_unlocked : locked (ar_lock ar') = false;
  al_geometry : ar_object_size ar' = ar_object_size ar ∧ ar_max_count ar' = ar_max_count ar;
  al_fresh : ¬ is_object w ar L o;
  al_objects : ∀ o', is_object w' ar' L' o' ↔ o' = o ∨ is_object w ar L o';
  al_frame : frame w w' a L'
}.

Lemma with_slot_frame w a ar p pg' no X : p ∈ X → frame w (with_slot w a ar p pg' no) a X.
Proof.
  intros Hp. split; simpl; try done.
  - intros b Hb. by rewrite lookup_insert_ne.
  - intros q Hq. rewrite lookup_insert_ne; [done|]. by intros ->.
Qed.

Lemma alloc_from_head_Ok w a ar p L :
  arena_inv w a ar (p :: L) → not_full (ar_max_count ar) w p → locked (ar_lock ar) = true →
  ∃ o w' ar' L', alloc_from_head a w = Ok o w' ∧ L' ≡ₚ p :: L ∧ aw_alloc w' = aw_alloc w ∧
    allocated w a ar (p :: L) o w' ar' L'.
Proof.
  intros [HC HS] Hnf Hl.
  destruct (ai_pages _ _ _ _ HC p ltac:(set_solver)) as (pg & Ep & Hok).
  assert (ap_count pg < ar_max_count ar) as Hlt by (unfold not_full, count_of in Hnf; by rewrite Ep in Hnf).
  destruct (find_slot_Ok w a ar (p :: L) p pg) as (i & pg' & Hi & Hfree & Hok' & Hcnt & Hsl & Eloop);
    [done|set_solver|done|done|].
  set (no := u64 (ar_num_objects ar + 1)) in *. set (w1 := with_slot w a ar p pg' no) in *.
  set (ar1 := with_counts ar no (ar_num_pages ar)).
  assert (arena_core w1 a ar1 (p :: L)) as HC1.
  { eapply (arena_core_update _ _ _ _ _ pg); [done|set_solver|done|done|]. by rewrite Hcnt, Z.add_simpl_l. }
  pose proof (ai_arena _ _ _ _ HC1) as E1. pose proof (ai_head _ _ _ HS) as Hh. simpl in Hh.
  destruct (ai_circ _ _ _ HS) as [|Hcirc]; [done|].
  pose proof (order_after_alloc w w1 (ar_max_count ar) p pg' L _ (ai_order _ _ _ HS) (ai_nodup _ _ _ _ HC) Hnf
                eq_refl eq_refl ltac:(lia)) as Hord.
  set (o := p + sizeof_ArenaPage + i * ar_object_size ar) in *.
  assert (o ≠ NULL) as Ho.
  { pose proof (po_range _ _ _ _ Hok). pose proof (arena_geometry _ _ _ _ HC). unfold o, NULL, sizeof_ArenaPage. nia. }
  unfold alloc_from_head. erewrite bind_Ok by (by apply get_arena_Ok, HC). cbn zeta. rewrite Hh.
  erewrite bind_Ok by exact Eloop. cbn [default from_option id].
  rewrite (proj2 (Z.eqb_neq _ _) Ho). cbn [negb assertM]. erewrite bind_Ok by done.
  erewrite bind_Ok by (apply get_page_Ok, lookup_insert_eq).
  erewrite bind_Ok by (apply get_arena_Ok; exact E1). change (ar_max_count ar1) with (ar_max_count ar).
  assert (∃ w2 ar2 L', whenM (ar_max_count ar <=? ap_count pg')
      (nd ← on_nodes (load (node_of p)); set_arena a (with_pages ar1 (page_of (next nd)))) w1 = Ok () w2 ∧
      arena_inv w2 a ar2 L' ∧ L' ≡ₚ p :: L ∧ ar_lock ar2 = ar_lock ar ∧
      (ar_object_size ar2 = ar_object_size ar ∧ ar_max_count ar2 = ar_max_count ar) ∧
      aw_pages w2 = aw_pages w1 ∧ aw_alloc w2 = aw_alloc w ∧ frame w1 w2 a L') as
    (w2 & ar2 & L' & E2 & HI2 & HP & Hl2 & Hg2 & Hp2 & Ha2 & Hf2).
  { destruct (ar_max_count ar <=? ap_count pg'); simpl.
    - destruct (circ_rotate_one _ _ _ Hcirc) as (nd & En & Hnx & Hc').
      erewrite bind_Ok by (apply zoom_Ok, load_Ok; exact En).
      erewrite set_arena_Ok by exact E1. eexists _, (with_pages ar1 (page_of (next nd))), (L ++ [p]).
      split; [done|]. split; [split|].
      + assert (p :: L ≡ₚ L ++ [p]) as HP by apply Permutation_cons_append.
        by apply (arena_core_perm _ _ _ _ _ (aw_nodes w1) (page_of (next nd)) HC1) in HP.
      + split; [done|by right|done].
      + split; [by rewrite <- Permutation_cons_append|]. split_and!; try done. apply frame_arenas.
    - eexists w1, ar1, (p :: L). split; [done|]. split; [split; [done|]|].
      + split; [done|by right|done].
      + split_and!; try done. }
  erewrite bind_Ok by exact E2.
  erewrite bind_Ok by (apply arena_unlock_Ok; [apply HI2|by rewrite Hl2]).
  eexists o, _, (with_lock ar2 _), L'. split; [done|]. split; [done|]. split; [done|].
  destruct (is_object_update w (put_arenas (<[a := with_lock ar2 (mkSpinLock false None (lname (ar_lock ar2)))]> (aw_arenas w2)) w2)
              a ar (with_lock ar2 (mkSpinLock false None (lname (ar_lock ar2)))) (p :: L) L' p pg pg' i true)
    as [Hbefore Hafter]; try done; [set_solver|apply Hg2|apply Hg2|].
  split.
  - by apply arena_inv_lock.
  - done.
  - done.
  - fold o in Hbefore. rewrite Hbefore. by rewrite Hfree.
  - intros o'. rewrite Hafter. fold o. case_bool_decide; naive_solver.
  - eapply frame_trans; [apply (with_slot_frame w a ar p pg' no L'); rewrite HP; set_solver| |done].
    eapply frame_trans; [exact Hf2|apply frame_arenas|done].
Qed.

Lemma is_object_ext w w' ar ar' L L' :
  L ≡ₚ L' → (∀ p, p ∈ L → aw_pages w' !! p = aw_pages w !! p) →
  ar_max_count ar' = ar_max_count ar → ar_object_size ar' = ar_object_size ar →
  ∀ o, is_object w' ar' L' o ↔ is_object w ar L o.
Proof.
  intros HP Hpg Hm Hs o. unfold is_object. rewrite Hm, Hs.
  split; intros (p & pg & i & Hp & E & Hrest); exists p, pg, i.
  - rewrite <- HP in Hp. rewrite Hpg in E by done. done.
  - rewrite <- HP. rewrite Hpg by done. done.
Qed.

Lemma is_object_fresh_page w w' a ar ar' L p :
  p ∉ L → aw_pages w' = <[p := fresh_page a]> (aw_pages w) →
  ar_max_count ar' = ar_max_count ar → ar_object_size ar' = ar_object_size ar →
  ∀ o, is_object w' ar' (p :: L) o ↔ is_object w ar L o.
Proof.
  intros Hp Ew Hm Hs o. unfold is_object. rewrite Hm, Hs, Ew.
  split; intros (q & pg & i & Hq & E & Hi & Hu & Ho).
  - apply elem_of_cons in Hq as [->|Hq].
    + rewrite lookup_insert_eq in E. injection E as <-. by rewrite fresh_page_slot in Hu.
    + rewrite lookup_insert_ne in E by (by intros ->). by exists q, pg, i.
  - exists q, pg, i. rewrite lookup_insert_ne by (by intros ->). split_and!; try done; [set_solver|lia|lia].
Qed.

(** The head page has no slot exactly when no page of the arena has one. *)
Definition all_full w ar L : Prop := Forall (is_full (ar_max_count ar) w) L.

Lemma head_full_all w a ar p L :
  arena_inv w a ar (p :: L) → ar_max_count ar ≤ count_of (aw_pages w) p → all_full w ar (p :: L).
Proof.
  intros [HC HS] Hp. destruct (ai_order _ _ _ HS) as (L1 & L2 & E & H1 & H2).
  destruct L1 as [|x L1]; simpl in E; [unfold all_full; by rewrite E|]. injection E as <- _.
  apply Forall_cons in H1 as [Hx _]. unfold not_full in Hx. lia.
Qed.

Lemma all_full_head w a ar p L :
  all_full w ar (p :: L) → ar_max_count ar ≤ count_of (aw_pages w) p.
Proof. intros [Hp _]%Forall_cons. unfold is_full in Hp. lia. Qed.

Lemma alloc_prefix_Ok w a ar L :
  arena_inv w a ar L → locked (ar_lock ar) = false →
  ∃ w1 ar1 (full : bool), arena_inv w1 a ar1 L ∧ locked (ar_lock ar1) = true ∧
    aw_pages w1 = aw_pages w ∧ aw_alloc w1 = aw_alloc w ∧ frame w w1 a L ∧
    (ar_object_size ar1 = ar_object_size ar ∧ ar_max_count ar1 = ar_max_count ar) ∧
    (if full then all_full w1 ar1 L else ∃ p L', L = p :: L' ∧ not_full (ar_max_count ar1) w1 p) ∧
    alloc_object me a w =
      (whenM full (add_page a;; mret ());; alloc_from_head a) w1.
Proof.
  intros HI Hl. pose proof HI as [HC HS]. unfold alloc_object.
  erewrite bind_Ok by (by eapply arena_lock_Ok, Hl; apply HC).
  set (l1 := mkSpinLock true _ _). set (w1 := put_arenas _ _).
  pose proof (arena_inv_lock _ _ _ _ l1 HI) as HI1. fold w1 in HI1.
  erewrite bind_Ok by (apply get_arena_Ok, HI1). simpl (ar_pages (with_lock ar l1)).
  rewrite (ai_head _ _ _ HS).
  destruct L as [|p L]; simpl.
  { eexists w1, (with_lock ar l1), true. split_and!; try done; [apply frame_arenas|constructor]. }
  destruct (ai_pages _ _ _ _ HC p ltac:(set_solver)) as (pg & Ep & Hok).
  pose proof (po_range _ _ _ _ Hok). destruct (Z.eqb_spec p NULL); [unfold NULL in *; lia|].
  exists w1, (with_lock ar l1), (ar_max_count ar <=? ap_count pg).
  split_and!; try done; [apply frame_arenas| |].
  - assert (count_of (aw_pages w) p = ap_count pg) as Hcp by (unfold count_of; by rewrite Ep).
    destruct (Z.leb_spec (ar_max_count ar) (ap_count pg)).
    + apply (head_full_all w a ar p L) in HI; [done|]. lia.
    + exists p, L. split; [done|]. unfold not_full. simpl. lia.
  - erewrite bind_Ok; [|erewrite bind_Ok by (by apply get_page_Ok); done]. done.
Qed.

Lemma alloc_object_Ok w a ar L :
  arena_inv w a ar L → locked (ar_lock ar) = false →
  (¬ all_full w ar L →
     ∃ o w' ar' L', alloc_object me a w = Ok o w' ∧ L' ≡ₚ L ∧ aw_alloc w' = aw_alloc w ∧
       allocated w a ar L o w' ar' L') ∧
  (∀ p t', all_full w ar L → pa_allocate (aw_alloc w) = Ok p t' → p ∉ L →
     p mod ARENA_PAGE_SIZE = 0 → 0 < p ∧ p + ARENA_PAGE_SIZE ≤ 2 ^ 64 →
     ∃ o w' ar' L', alloc_object me a w = Ok o w' ∧ L' ≡ₚ p :: L ∧ aw_alloc w' = t' ∧
       allocated w a ar L o w' ar' L').
Proof.
  intros HI Hl.
  destruct (alloc_prefix_Ok w a ar L HI Hl) as (w1 & ar1 & full & HI1 & Hl1 & Hp1 & Ha1 & Hf1 & [Hs1 Hm1] & Hfull & E).
  assert (∀ M', all_full w1 ar1 M' ↔ all_full w ar M') as Haf.
  { intros M'. unfold all_full, is_full. by rewrite Hp1, Hm1. }
  rewrite E. split.
  - intros Hnf. destruct full; [by rewrite Haf in Hfull|]. destruct Hfull as (p & L0 & -> & Hpf).
    simpl (whenM _ _). erewrite bind_Ok by done.
    destruct (alloc_from_head_Ok w1 a ar1 p L0 HI1 Hpf Hl1) as (o & w' & ar' & L' & E' & HP & Ha & [I U G F O R]).
    exists o, w', ar', L'. split; [done|]. split; [done|]. split; [congruence|].
    assert (∀ o, is_object w1 ar1 (p :: L0) o ↔ is_object w ar (p :: L0) o) as Ho.
    { apply is_object_ext; [done|by rewrite Hp1|done..]. }
    split; try done.
    + by rewrite Hs1, Hm1 in G.
    + by rewrite <- Ho.
    + intros o'. rewrite O. by rewrite Ho.
    + eapply frame_trans; [exact Hf1|exact R|]. intros q Hq. by rewrite HP.
  - intros p t' Hf Hal Hnew Halign Hr. destruct full.
    2:{ destruct Hfull as (q & L0 & -> & Hq). apply Haf, all_full_head in Hf; [|exact a].
        unfold not_full in Hq. lia. }
    simpl (whenM _ _). rewrite <- Ha1 in Hal.
    destruct (add_page_Ok w1 a ar1 L p t' HI1 Hfull Hal Hnew Halign Hr) as (w2 & E2 & HI2 & Hf2 & Ha2 & Hp2).
    erewrite bind_Ok; [|erewrite bind_Ok by exact E2; done].
    set (ar2 := with_counts _ _ _) in *.
    destruct (alloc_from_head_Ok w2 a ar2 p L HI2) as (o & w' & ar' & L' & E' & HP & Ha & [I U G F O R]); [|done|].
    { unfold not_full, count_of. rewrite Hp2, lookup_insert_eq. simpl. rewrite Hm1.
      pose proof (arena_geometry _ _ _ _ (proj1 HI)). lia. }
    exists o, w', ar', L'. split; [done|]. split; [done|]. split; [congruence|].
    assert (∀ o, is_object w2 ar2 (p :: L) o ↔ is_object w ar L o) as Ho.
    { apply (is_object_fresh_page _ _ a); [done|by rewrite Hp2, Hp1|simpl; done..]. }
    split; try done.
    + destruct G as [G1 G2]. rewrite G1, G2. done.
    + by rewrite <- Ho.
    + intros o'. rewrite O. by rewrite Ho.
    + eapply frame_trans; [exact Hf1| |].
      * eapply frame_trans; [exact Hf2|exact R|]. intros q Hq. by rewrite HP.
      * intros q Hq. rewrite HP. set_solver.
Qed.

(** No slot and no page: the C code dereferences a null page when the arena
    is empty, and panics otherwise. *)
Lemma alloc_object_oom w a ar L t' :
  arena_inv w a ar L → locked (ar_lock ar) = false → all_full w ar L →
  pa_allocate (aw_alloc w) = Ok NULL t' → aw_pages w !! NULL = None →
  alloc_object me a w = if bool_decide (L = []) then Undef else Panic "arena failed to allocate object".
Proof.
  intros HI Hl Hf Ha Hnull.
  destruct (alloc_prefix_Ok w a ar L HI Hl) as (w1 & ar1 & full & HI1 & Hl1 & Hp1 & Ha1 & Hf1 & [Hs1 Hm1] & Hfull & E).
  rewrite E. destruct full.
  2:{ destruct Hfull as (q & L0 & -> & Hq). apply all_full_head in Hf; [|exact a].
      unfold not_full in Hq. rewrite Hp1, Hm1 in Hq. lia. }
  simpl (whenM _ _). rewrite <- Ha1 in Ha.
  assert (add_page a w1 = Ok NULL (put_alloc t' w1)) as E1.
  { unfold add_page. by erewrite bind_Ok by (by apply zoom_Ok). }
  erewrite bind_Ok; [|erewrite bind_Ok by exact E1; done].
  unfold alloc_from_head. erewrite bind_Ok by (apply get_arena_Ok, HI1). cbn zeta.
  destruct HI1 as [HC1 HS1]. rewrite (ai_head _ _ _ HS1).
  pose proof (arena_geometry _ _ _ _ HC1) as (_ & Hm & _).
  destruct L as [|p L]; simpl.
  - destruct (Z.to_nat (ar_max_count ar1)) as [|n] eqn:En; [lia|]. cbn [for_loop].
    unfold mbind, M_bind, try_slot, get_page, mbind, M_bind, getS. simpl. by rewrite Hp1, Hnull.
  - destruct (ai_pages _ _ _ _ HC1 p ltac:(set_solver)) as (pg & Ep & Hok).
    rewrite (bind_Ok _ _ _ None (put_alloc t' w1)); [done|]. apply for_loop_none. intros j Hj. unfold try_slot.
    erewrite bind_Ok by (by apply get_page_Ok).
    erewrite (used_page_bits (ar_max_count ar1)) by (done || lia).
    assert (slot_used pg j = true) as ->; [|by erewrite bind_Ok by done].
    assert (count_of (aw_pages w1) p = ar_max_count ar1) as Hcp.
    { unfold all_full in Hfull. by apply Forall_cons in Hfull as [Hp _]. }
    unfold count_of in Hcp. rewrite Ep, (po_count _ _ _ _ Hok) in Hcp.
    destruct (slot_used pg j) eqn:Eu; [done|].
    set (g := λ k, if bool_decide (k = j) then true else slot_used pg k).
    assert (count_upto g (Z.to_nat (ar_max_count ar1)) = ar_max_count ar1 + 1).
    { rewrite <- Hcp at 2. apply (count_upto_set _ _ _ j); unfold g; [lia|done|by rewrite bool_decide_eq_true_2|].
      intros k _ Hk. by rewrite bool_decide_eq_false_2. }
    pose proof (count_upto_bounds g (Z.to_nat (ar_max_count ar1))). lia.
Qed.

(** *** [free_object] *)
Record freed w a ar L o w' ar' L' : Prop := {
  fd_inv : arena_inv w' a ar' L';
  fd_unlocked : locked (ar_lock ar') = false;
  fd_geometry : ar_object_size ar' = ar_object_size ar ∧ ar_max_count ar' = ar_max_count ar;
  fd_objects : ∀ o', is_object w' ar' L' o' ↔ o' ≠ o ∧ is_object w ar L o';
  fd_head : head L' = Some (get_container_page o);
  fd_frame : frame w w' a L'
}.

Lemma container_page p i size maxc :
  p mod ARENA_PAGE_SIZE = 0 → 0 < p ∧ p + ARENA_PAGE_SIZE ≤ 2 ^ 64 → 0 < size →
  maxc * size ≤ ARENA_PAGE_CAPACITY → 0 ≤ i < maxc →
  get_container_page (p + sizeof_ArenaPage + i * size) = p.
Proof.
  unfold ARENA_PAGE_CAPACITY, ARENA_PAGE_SIZE, PAGE_SIZE, sizeof_ArenaPage, get_container_page, round_down.
  intros Hal Hr Hs Hc Hi. change (ARENA_PAGE_SIZE) with 4096.
  assert (0 ≤ i * size < 4032) by nia.
  assert ((p + 64 + i * size) mod 4096 = 64 + i * size) as ->.
  { rewrite <- Z.add_assoc, Z.add_mod, Hal, Z.add_0_l, Z.mod_mod by lia. apply Z.mod_small. lia. }
  rewrite u64_small by lia. lia.
Qed.

Lemma move_page_to_head_Ok w a ar L p :
  arena_core w a ar L → ar_pages ar = default NULL (head L) → circ (aw_nodes w) (node_of <$> L) → p ∈ L →
  ∃ h' L', move_page_to_head a p w =
      Ok () (put_arenas (<[a := with_pages ar p]> (aw_arenas w)) (put_nodes h' w)) ∧
    (∃ l1 l2, L = l1 ++ p :: l2 ∧ L' = p :: l1 ++ l2) ∧ circ h' (node_of <$> L') ∧
    (∀ k, circ (aw_nodes w) k → k ## (node_of <$> L) → circ h' k).
Proof.
  intros HC Hh Hc Hp. pose proof (ai_arena _ _ _ _ HC) as E. pose proof (ai_nodup _ _ _ _ HC) as Hnd.
  pose proof (arena_positive _ _ _ _ HC) as Hpos.
  apply list_elem_of_split in Hp as (l1 & l2 & ->). unfold move_page_to_head.
  erewrite bind_Ok by (by apply get_arena_Ok). rewrite Hh. destruct l1 as [|hd l1]; simpl.
  - rewrite Z.eqb_refl. simpl. exists (aw_nodes w), (p :: l2). split; [|by split; [exists [], l2|]].
    f_equal. simpl in Hh. assert (with_pages ar p = ar) as -> by (destruct ar; simpl in *; by subst).
    rewrite insert_id by done. by destruct w.
  - assert (p ∉ hd :: l1 ++ l2) as Hpn.
    { assert (NoDup (p :: hd :: l1 ++ l2)) as [? _]%NoDup_cons; [|done].
      apply (NoDup_Permutation_proper _ ((hd :: l1) ++ p :: l2)); [|done].
      by rewrite <- (Permutation_middle (hd :: l1)). }
    destruct (Z.eqb_spec hd p); [set_solver|]. simpl.
    rewrite fmap_app in Hc. simpl in Hc. rewrite fmap_cons in Hc || idtac.
    pose proof (detach_from_sentinel _ _ _ _ _ Hc) as (r & h1 & Ed & _ & Hc1 & Hcp & Hfr)%wp_Ok.
    erewrite bind_Ok by (by apply zoom_Ok).
    destruct (insert_page_Ok (put_nodes h1 w) a ar (hd :: l1 ++ l2) p) as (h' & Ei & Hc' & Hfr'); try done.
    { right. simpl. by rewrite fmap_app. }
    { rewrite !Forall_forall in *. intros x Hx. apply Hpos. set_solver. }
    exists h', (p :: hd :: l1 ++ l2). rewrite Ei. split; [done|]. split; [by exists (hd :: l1), l2|].
    split; [done|]. intros k Hk Hd. apply Hfr'; simpl.
    + apply Hfr; [done|]. rewrite fmap_app in Hd. simpl in Hd. done.
    + rewrite fmap_app in *. simpl in Hd. set_solver.
Qed.

Lemma order_after_free w w' maxc p pg l1 l2 :
  (∃ L1 L2, l1 ++ p :: l2 = L1 ++ L2 ∧ Forall (not_full maxc w) L1 ∧ Forall (is_full maxc w) L2) →
  NoDup (l1 ++ p :: l2) → aw_pages w' = <[p := pg]> (aw_pages w) → ap_count pg < maxc →
  ∃ L1 L2, p :: l1 ++ l2 = L1 ++ L2 ∧ Forall (not_full maxc w') L1 ∧ Forall (is_full maxc w') L2.
Proof.
  intros (L1 & L2 & E & H1 & H2) Hnd Ew Hc.
  assert (p ∉ l1 ++ l2) as Hp.
  { assert (NoDup (p :: l1 ++ l2)) as [? _]%NoDup_cons; [|done]. by rewrite Permutation_middle. }
  assert (not_full maxc w' p) as Hnp by (unfold not_full, count_of; by rewrite Ew, lookup_insert_eq).
  assert (∀ k, p ∉ k → Forall (not_full maxc w) k → Forall (not_full maxc w') k) as Hn.
  { intros k Hk HF. unfold not_full. rewrite Ew. by apply (Forall_count_update (λ n, n < maxc)). }
  assert (∀ k, p ∉ k → Forall (is_full maxc w) k → Forall (is_full maxc w') k) as Hf.
  { intros k Hk HF. unfold is_full. rewrite Ew. by apply (Forall_count_update (λ n, n = maxc)). }
  apply app_eq_inv in E as [(k & -> & ->)|(k & -> & Hk)].
  - apply Forall_app in H2 as [H2 [_ H2']%Forall_cons]. exists (p :: L1), (k ++ l2). rewrite <- app_assoc.
    split; [done|]. split.
    + constructor; [done|]. apply Hn; [set_solver|done].
    + apply Hf; [set_solver|]. by apply Forall_app.
  - apply Forall_app in H1 as [H1 H1']. destruct k as [|x k]; simpl in Hk; [subst L2|injection Hk as <- ->].
    + apply Forall_cons in H2 as [_ H2]. exists (p :: l1), l2. split; [done|]. split.
      * constructor; [done|]. apply Hn; [set_solver|done].
      * apply Hf; [set_solver|done].
    + apply Forall_cons in H1' as [_ H1']. exists (p :: l1 ++ k), L2. simpl. rewrite <- app_assoc.
      split; [done|]. split.
      * constructor; [done|]. apply Hn; [set_solver|]. by apply Forall_app.
      * apply Hf; [set_solver|done].
Qed.

(** The checks [free_object] makes on a page [p] of the arena. *)
Lemma free_prefix_Ok w a ar L p pg o :
  arena_inv w a ar L → locked (ar_lock ar) = false → p ∈ L → aw_pages w !! p = Some pg →
  get_container_page o = p →
  let l1 := mkSpinLock true (Some me) (lname (ar_lock ar)) in
  let w1 := put_arenas (<[a := with_lock ar l1]> (aw_arenas w)) w in
  let offset := u64 (o - (p + sizeof_ArenaPage)) in
  arena_inv w1 a (with_lock ar l1) L ∧
  free_object me o w =
    (assertM (offset mod ar_object_size ar =? 0) "unexpected object offset";;
     used ← derefM (bitmap_get (ap_used pg) (offset / ar_object_size ar));
     assertM used "double free object";;
     used' ← derefM (bitmap_clear (ap_used pg) (offset / ar_object_size ar));
     set_page p {| ap_arena := a; ap_used := used'; ap_count := u64 (ap_count pg - 1) |};;
     set_arena a (with_counts (with_lock ar l1) (u64 (ar_num_objects ar - 1)) (ar_num_pages ar));;
     move_page_to_head a p;;
     on_lock a release_spinlock) w1.
Proof.
  intros HI Hl Hp Ep Hcp l1 w1 offset. split; [by apply arena_inv_lock|].
  unfold free_object. rewrite Hcp. cbn zeta. erewrite bind_Ok by (by apply get_page_Ok).
  destruct (ai_pages _ _ _ _ (proj1 HI) p Hp) as (pg0 & Ep0 & Hok).
  assert (pg0 = pg) as -> by congruence. rewrite (po_arena _ _ _ _ Hok).
  erewrite bind_Ok by (by eapply arena_lock_Ok, Hl; apply HI).
  erewrite bind_Ok by (apply get_arena_Ok, lookup_insert_eq).
  pose proof (arena_geometry _ _ _ _ (proj1 HI)) as (Hs & _ & _). cbn [with_lock ar_object_size].
  destruct (Z.eqb_spec (ar_object_size ar) 0); [lia|]. by erewrite bind_Ok by done.
Qed.

Lemma free_object_Ok w a ar L o :
  arena_inv w a ar L → locked (ar_lock ar) = false → is_object w ar L o →
  ∃ w' ar' L', free_object me o w = Ok () w' ∧ L' ≡ₚ L ∧ aw_alloc w' = aw_alloc w ∧
    freed w a ar L o w' ar' L'.
Proof.
  intros HI Hl (p & pg & i & Hp & Ep & Hi & Hu & Ho). pose proof HI as [HC HS].
  destruct (ai_pages _ _ _ _ HC p Hp) as (pg0 & Ep0 & Hok). assert (pg0 = pg) as -> by congruence.
  pose proof (arena_geometry _ _ _ _ HC) as (Hs & Hm & Hcap).
  assert (get_container_page o = p) as Hcp.
  { rewrite Ho. apply (container_page _ _ _ (ar_max_count ar)); try done; apply Hok. }
  destruct (free_prefix_Ok w a ar L p pg o HI Hl Hp Ep Hcp) as [HI1 ->].
  set (l1 := mkSpinLock true _ _) in *. set (w1 := put_arenas _ _) in *. set (ar1 := with_lock ar l1) in *.
  assert (u64 (o - (p + sizeof_ArenaPage)) = i * ar_object_size ar) as ->.
  { rewrite Ho. rewrite u64_small; [lia|]. unfold ARENA_PAGE_CAPACITY, ARENA_PAGE_SIZE, PAGE_SIZE, sizeof_ArenaPage in *. nia. }
  rewrite Z.mod_mul, Z.div_mul by lia. cbn [Z.eqb assertM]. erewrite bind_Ok by done.
  erewrite (used_page_bits (ar_max_count ar)) by (done || lia). rewrite Hu. erewrite bind_Ok by done.
  erewrite bind_Ok by done.
  destruct (bitmap_clear_spec (ap_used pg) i) as (used' & Ec & Hwf & Hlen & Hget).
  { apply Hok. }
  { unfold bitmap_size. rewrite (po_len _ _ _ _ Hok). lia. }
  rewrite Ec. erewrite bind_Ok by done. erewrite bind_Ok by done.
  destruct (slot_change_ok a (ar_max_count ar) p pg i used' false) as (Hok' & Hsl & Hcnt); try done.
  rewrite (po_arena _ _ _ _ Hok) in Hok', Hsl, Hcnt.
  change (ap_count pg + -1) with (ap_count pg - 1) in *.
  set (pg' := {| ap_arena := a; ap_used := used'; ap_count := u64 (ap_count pg - 1) |}) in *.
  erewrite bind_Ok by (eapply set_arena_Ok; simpl; apply lookup_insert_eq).
  set (no := u64 (ar_num_objects ar - 1)).
  change (put_arenas _ _) with (with_slot w1 a ar1 p pg' no).
  set (w2 := with_slot w1 a ar1 p pg' no). set (ar2 := with_counts ar1 no (ar_num_pages ar1)).
  assert (arena_core w2 a ar2 L) as HC2.
  { apply (arena_core_update w1 a ar1 L p pg pg'); [apply HI1|done|done|done|]. rewrite Hcnt. unfold no. f_equal. simpl. lia. }
  assert (L ≠ []) as HL by (by intros ->; apply elem_of_nil in Hp).
  destruct (ai_circ _ _ _ HS) as [|Hcirc]; [done|].
  destruct (move_page_to_head_Ok w2 a ar2 L p HC2 (ai_head _ _ _ HS) Hcirc Hp)
    as (h' & L' & E3 & (k1 & k2 & EL & EL') & Hc3 & Hfr3).
  erewrite bind_Ok by exact E3.
  assert (L ≡ₚ L') as HP by (rewrite EL, EL'; by rewrite Permutation_middle).
  pose proof (arena_core_perm w2 a ar2 L L' h' p HC2 HP) as HC3.
  set (w3 := put_arenas _ (put_nodes h' w2)) in *. set (ar3 := with_pages ar2 p) in *.
  assert (arena_inv w3 a ar3 L') as HI3.
  { split; [done|]. split; [by rewrite EL'|by right|]. rewrite EL'.
    apply (order_after_free w1 w3 (ar_max_count ar) p pg' k1 k2); [|rewrite <- EL; apply HC|done|].
    - rewrite <- EL. apply (ai_order _ _ _ (proj2 HI1)).
    - rewrite Hcnt. assert (ap_count pg ≤ ar_max_count ar); [|lia].
      rewrite (po_count _ _ _ _ Hok). pose proof (count_upto_bounds (slot_used pg) (Z.to_nat (ar_max_count ar))). lia. }
  rewrite (arena_unlock_Ok w3 a ar3) by (done || apply HC3).
  eexists _, (with_lock ar3 (mkSpinLock false None (lname (ar_lock ar3)))), L'. split; [done|]. split; [done|]. split; [done|].
  split; try done.
  - by apply arena_inv_lock.
  - destruct (is_object_update w (put_arenas (<[a := with_lock ar3 (mkSpinLock false None (lname (ar_lock ar3)))]> (aw_arenas w3)) w3)
                a ar (with_lock ar3 (mkSpinLock false None (lname (ar_lock ar3)))) L L' p pg pg' i false)
      as [_ Hafter]; try done.
    intros o'. rewrite Hafter, <- Ho. case_bool_decide; naive_solver.
  - by rewrite Hcp, EL'.
  - split; simpl.
    + intros b Hb. by rewrite !lookup_insert_ne.
    + intros q Hq. rewrite lookup_insert_ne; [done|]. intros ->. apply Hq. by rewrite <- HP.
    + intros k Hk Hd. apply Hfr3; [done|]. rewrite EL' in Hd. rewrite EL. set_solver.
Qed.

(** An address inside a page of the arena that is not an object in use is
    caught. *)
Lemma free_object_bad w a ar L p i :
  arena_inv w a ar L → locked (ar_lock ar) = false → p ∈ L →
  0 ≤ i < ar_max_count ar → ¬ is_object w ar L (p + sizeof_ArenaPage + i * ar_object_size ar) →
  free_object me (p + sizeof_ArenaPage + i * ar_object_size ar) w = Panic "double free object".
Proof.
  intros HI Hl Hp Hi Hno. pose proof HI as [HC HS].
  destruct (ai_pages _ _ _ _ HC p Hp) as (pg & Ep & Hok).
  pose proof (arena_geometry _ _ _ _ HC) as (Hs & Hm & Hcap).
  set (o := p + sizeof_ArenaPage + i * ar_object_size ar) in *.
  assert (get_container_page o = p) as Hcp.
  { apply (container_page _ _ _ (ar_max_count ar)); try done; apply Hok. }
  destruct (free_prefix_Ok w a ar L p pg o HI Hl Hp Ep Hcp) as [_ ->].
  assert (u64 (o - (p + sizeof_ArenaPage)) = i * ar_object_size ar) as ->.
  { unfold o. rewrite u64_small; [lia|]. unfold ARENA_PAGE_CAPACITY, ARENA_PAGE_SIZE, PAGE_SIZE, sizeof_ArenaPage in *. nia. }
  rewrite Z.mod_mul, Z.div_mul by lia. cbn [Z.eqb assertM]. erewrite bind_Ok by done.
  erewrite (used_page_bits (ar_max_count ar)) by (done || lia).
  assert (slot_used pg i = false) as ->; [|by erewrite bind_Ok by done].
  destruct (slot_used pg i) eqn:Eu; [|done]. exfalso. apply Hno. by exists p, pg, i.
Qed.

(** *** [clear_arena] *)
Context `{!PageAllocatorLaws T}.

(** The [next] pointers lead from [q] through [R] to [stop]. *)
Fixpoint next_chain (h : heap) (q : Z) (R : list Z) (stop : Z) : Prop :=
  match R with
  | [] => next_of h (node_of q) = Some stop
  | x :: R' => next_of h (node_of q) = Some (node_of x) ∧ next_chain h x R' stop
  end.

Lemma chain_next_chain h q R stop :
  chain h (node_of q) (node_of <$> R) stop → next_chain h q R stop.
Proof. revert q. induction R as [|x R IH]; intros q; simpl; [by intros [? _]|]. intros [[? _] ?]. auto. Qed.

Lemma next_chain_delete h q R stop n :
  next_chain h q R stop → n ∉ node_of <$> q :: R → next_chain (delete n h) q R stop.
Proof.
  revert q. induction R as [|x R IH]; intros q Hc Hn; simpl in *; unfold next_of in *.
  - rewrite lookup_delete_ne; [done|]. intros ->. set_solver.
  - destruct Hc as [Hc1 Hc2]. split; [|apply IH; set_solver].
    rewrite lookup_delete_ne; [done|]. intros ->. set_solver.
Qed.

Lemma clear_loop_Ok hd R : ∀ q w live fuel,
  next_chain (aw_nodes w) q R hd → hd ∉ node_of <$> R → NoDup (q :: R) →
  pa_inv (aw_alloc w) live → (∀ x, x ∈ q :: R → x ∈ live) → (length (q :: R) ≤ fuel)%nat →
  wp (clear_loop fuel hd (node_of q)) (λ _ w',
    aw_arenas w' = aw_arenas w ∧
    (∀ p, aw_pages w' !! p = if decide (p ∈ q :: R) then None else aw_pages w !! p) ∧
    (∀ n, n ∉ node_of <$> q :: R → aw_nodes w' !! n = aw_nodes w !! n) ∧
    pa_inv (aw_alloc w') (live ∖ list_to_set (q :: R))) w.
Proof.
  induction R as [|x R IH]; intros q w live fuel Hc Hhd Hnd Ha Hlive Hfuel;
    (destruct fuel as [|fuel]; [simpl in *; lia|]); cbn [clear_loop].
  - simpl in Hc. apply next_of_load in Hc as (nd & E & En).
    pose proof (pa_free_spec _ _ q Ha (Hlive q ltac:(set_solver))) as ([] & t' & Ef & Ha')%wp_Ok.
    apply wp_bind. eapply wp_of_Ok; [apply zoom_Ok, load_Ok; exact E|]. cbn beta.
    unfold free_page_of_node. rewrite page_of_node_of.
    apply wp_bind, wp_bind. eapply wp_of_Ok; [apply zoom_Ok; exact Ef|]. unfold wp at 1, modify.
    rewrite En, Z.eqb_refl. apply wp_ret. simpl. split_and!; try done.
    + intros p. case_decide as Hp.
      * assert (p = q) as -> by set_solver. apply lookup_delete_eq.
      * rewrite lookup_delete_ne; [done|]. set_solver.
    + intros n Hn. rewrite lookup_delete_ne; [done|]. set_solver.
    + by rewrite union_empty_r_L.
  - destruct Hc as [Hc1 Hc2]. apply next_of_load in Hc1 as (nd & E & En).
    apply NoDup_cons in Hnd as [Hq Hnd].
    pose proof (pa_free_spec _ _ q Ha (Hlive q ltac:(set_solver))) as ([] & t' & Ef & Ha')%wp_Ok.
    apply wp_bind. eapply wp_of_Ok; [apply zoom_Ok, load_Ok; exact E|]. cbn beta.
    unfold free_page_of_node. rewrite page_of_node_of.
    apply wp_bind, wp_bind. eapply wp_of_Ok; [apply zoom_Ok; exact Ef|]. unfold wp at 1, modify.
    rewrite En. destruct (Z.eqb_spec (node_of x) hd) as [<-|_]; [set_solver|].
    eapply wp_mono; [apply (IH x _ (live ∖ {[q]}))|].
    + simpl. apply next_chain_delete; [done|]. by apply node_of_notin.
    + set_solver.
    + done.
    + done.
    + set_solver.
    + simpl in *. lia.
    + intros ? w' (H1 & H2 & H3 & H4). simpl in *. split_and!; try done.
      * intros p. rewrite H2. destruct (decide (p ∈ x :: R)) as [Hin|Hin].
        { by rewrite decide_True by (by apply elem_of_cons; right). }
        destruct (decide (p = q)) as [->|Hne].
        -- rewrite decide_True by (by apply elem_of_cons; left). apply lookup_delete_eq.
        -- rewrite decide_False by (by intros [?|?]%elem_of_cons). by rewrite lookup_delete_ne.
      * intros n Hn. rewrite H3 by set_solver. rewrite lookup_delete_ne; [done|]. set_solver.
      * by rewrite <- difference_difference_l_L.
Qed.

Lemma nodes_size (h : heap) l : circ h l → (length l ≤ size h)%nat.
Proof.
  intros Hc. rewrite <- size_dom. rewrite <- (size_list_to_set (C := gset Z) l) by (by apply circ_NoDup in Hc).
  apply subseteq_size. intros x Hx%elem_of_list_to_set. apply elem_of_dom. by eapply circ_is_Some.
Qed.

Lemma clear_arena_Ok w a ar L live :
  arena_inv w a ar L → locked (ar_lock ar) = false →
  pa_inv (aw_alloc w) live → (∀ x, x ∈ L → x ∈ live) →
  wp (clear_arena me a) (λ _ w', ∃ ar', arena_inv w' a ar' [] ∧ locked (ar_lock ar') = false ∧
    (ar_object_size ar' = ar_object_size ar ∧ ar_max_count ar' = ar_max_count ar) ∧
    frame w w' a L ∧ (∀ p, p ∈ L → aw_pages w' !! p = None) ∧
    pa_inv (aw_alloc w') (live ∖ list_to_set L)) w.
Proof.
  intros HI Hl Ha Hlive. pose proof HI as [HC HS]. unfold clear_arena. apply wp_bind.
  eapply wp_of_Ok; [by eapply arena_lock_Ok, Hl; apply HC|]. cbn beta.
  set (l1 := mkSpinLock true _ _). set (ar1 := with_lock ar l1). set (w1 := put_arenas _ _).
  apply wp_bind. eapply wp_of_Ok; [apply get_arena_Ok, lookup_insert_eq|]. cbn beta.
  change (ar_pages ar1) with (ar_pages ar). rewrite (ai_head _ _ _ HS).
  destruct L as [|p L].
  { simpl. apply wp_bind, wp_ret. eapply wp_of_Ok; [apply arena_unlock_Ok; [apply lookup_insert_eq|done]|].
    exists (with_lock ar1 (mkSpinLock false None (lname (ar_lock ar1)))). simpl. rewrite insert_insert_eq. split_and!; try done.
    - apply (arena_inv_lock _ _ _ _ (mkSpinLock false None (lname (ar_lock ar)))) in HI. done.
    - apply (frame_arenas w a (with_lock ar1 _)).
    - set_solver.
    - by rewrite difference_empty_L. }
  pose proof (arena_positive _ _ _ _ HC) as [Hpos _]%Forall_cons.
  simpl (default NULL (head (p :: L))). destruct (Z.eqb_spec p NULL); [unfold NULL in *; lia|]. cbn [negb].
  destruct (ai_circ _ _ _ HS) as [|Hc]; [done|]. pose proof Hc as [Hndn Hch]. fold (fmap node_of L) in Hch.
  apply wp_bind, wp_bind. unfold wp at 1, getS. apply wp_bind.
  eapply wp_mono; [apply (clear_loop_Ok (node_of p) L p w1 live (size (aw_nodes w1)))|].
  - by apply chain_next_chain.
  - apply NoDup_cons in Hndn as [Hn _]. done.
  - apply HC.
  - done.
  - done.
  - pose proof (nodes_size _ _ Hc) as Hsz. by rewrite length_fmap in Hsz.
  - intros ? w2 (H1 & H2 & H3 & H4). cbn beta.
    assert (aw_arenas w2 !! a = Some ar1) as E2 by (rewrite H1; apply lookup_insert_eq).
    apply wp_bind. eapply wp_of_Ok; [by apply get_arena_Ok|]. cbn beta.
    eapply wp_of_Ok; [by eapply set_arena_Ok|]. cbn beta.
    eapply wp_of_Ok; [apply arena_unlock_Ok; [apply lookup_insert_eq|done]|].
    set (ar3 := with_lock _ _). exists ar3. simpl. rewrite insert_insert_eq.
    split_and!; try done.
    + split; split; try done; try (apply HC).
      * apply lookup_insert_eq.
      * constructor.
      * set_solver.
      * by left.
      * exists [], []. done.
    + split; simpl.
      * intros b Hb. rewrite lookup_insert_ne by done. rewrite H1. simpl. by rewrite lookup_insert_ne.
      * intros q Hq. rewrite H2. by rewrite decide_False.
      * intros k Hk Hd. eapply circ_ext; [exact Hk|]. intros x Hx. unfold next_of, prev_of.
        rewrite H3; [done|]. set_solver.
    + intros q Hq. rewrite H2. by rewrite decide_True.
Qed.
End inv.

(** ** All arenas of the system *)
Section world.
Context {T : Type} `{PageAllocatorLaws T}.
Context (me : Z).
Implicit Types (w : world T) (Ls : gmap Z (list Z)) (live : gset Z).

(** [Ls] gives the pages of every arena; no page belongs to two. *)
Record world_inv w Ls live : Prop := {
  wi_arena : ∀ a L, Ls !! a = Some L → ∃ ar, arena_inv w a ar L;
  wi_disj : ∀ a b La Lb p, Ls !! a = Some La → Ls !! b = Some Lb → p ∈ La → p ∈ Lb → a = b;
  wi_live : ∀ a L p, Ls !! a = Some L → p ∈ L → p ∈ live;
  wi_alloc : pa_inv (aw_alloc w) live
}.

Lemma world_frame w w' Ls live a ar L L' live' :
  world_inv w Ls live → Ls !! a = Some L → frame w w' a L' → arena_inv w' a ar L' →
  pa_inv (aw_alloc w') live' → (∀ p, p ∈ L' → p ∈ live') →
  (∀ p, p ∈ L' → p ∈ L ∨ p ∉ live) →
  (∀ p, p ∈ live → p ∉ L → p ∈ live') →
  world_inv w' (<[a := L']> Ls) live'.
Proof.
  intros [W1 W2 W3 W4] Ea Hf HI Hpa Hin Hnew Hkeep.
  assert (∀ b Lb p, b ≠ a → Ls !! b = Some Lb → p ∈ Lb → p ∉ L' ∧ p ∉ L) as Hdisj.
  { intros b Lb p Hb Eb Hp. assert (p ∉ L) as HpL by (intros HpL; exact (Hb (W2 b a Lb L p Eb Ea Hp HpL))).
    split; [|done]. intros [?|Hl]%Hnew; [done|]. exact (Hl (W3 b Lb p Eb Hp)). }
  split; [| | |done].
  - intros b Lb. destruct (decide (b = a)) as [->|Hb].
    + rewrite lookup_insert_eq. intros [= <-]. eauto.
    + rewrite lookup_insert_ne by done. intros Eb. destruct (W1 _ _ Eb) as [br Hbr].
      exists br. eapply frame_arena; [exact Hf|done| |done]. intros p Hp Hp'.
      by destruct (Hdisj b Lb p Hb Eb Hp) as [? _].
  - intros b c Lb Lc p Eb Ec Hb Hc.
    destruct (decide (b = a)) as [->|], (decide (c = a)) as [->|]; try done.
    + rewrite lookup_insert_eq in Eb. rewrite lookup_insert_ne in Ec by done. injection Eb as <-.
      by destruct (Hdisj c Lc p ltac:(done) Ec Hc) as [? _].
    + rewrite lookup_insert_eq in Ec. rewrite lookup_insert_ne in Eb by done. injection Ec as <-.
      by destruct (Hdisj b Lb p ltac:(done) Eb Hb) as [? _].
    + rewrite lookup_insert_ne in Eb, Ec by done. by eapply W2.
  - intros b Lb p. destruct (decide (b = a)) as [->|Hb].
    + rewrite lookup_insert_eq. intros [= <-]. auto.
    + rewrite lookup_insert_ne by done. intros Eb Hp. apply Hkeep; [by eapply W3|].
      by destruct (Hdisj b Lb p Hb Eb Hp) as [_ ?].
Qed.

(** All pages of the arena are given up. *)
Lemma world_frame_clear w w' Ls live a ar L :
  world_inv w Ls live → Ls !! a = Some L → frame w w' a L → arena_inv w' a ar [] →
  pa_inv (aw_alloc w') (live ∖ list_to_set L) →
  world_inv w' (<[a := []]> Ls) (live ∖ list_to_set L).
Proof.
  intros [W1 W2 W3 W4] Ea Hf HI Hpa.
  assert (∀ b Lb p, b ≠ a → Ls !! b = Some Lb → p ∈ Lb → p ∉ L) as Hdisj.
  { intros b Lb p Hb Eb Hp HpL. exact (Hb (W2 b a Lb L p Eb Ea Hp HpL)). }
  split; [| | |done].
  - intros b Lb. destruct (decide (b = a)) as [->|Hb].
    + rewrite lookup_insert_eq. intros [= <-]. eauto.
    + rewrite lookup_insert_ne by done. intros Eb. destruct (W1 _ _ Eb) as [br Hbr].
      exists br. eapply frame_arena; [exact Hf|done| |done]. intros p Hp Hp'. by eapply Hdisj.
  - intros b c Lb Lc p Eb Ec Hb Hc.
    destruct (decide (b = a)) as [->|], (decide (c = a)) as [->|]; try done.
    + rewrite lookup_insert_eq in Eb. injection Eb as <-. by apply elem_of_nil in Hb.
    + rewrite lookup_insert_eq in Ec. injection Ec as <-. by apply elem_of_nil in Hc.
    + rewrite lookup_insert_ne in Eb, Ec by done. by eapply W2.
  - intros b Lb p. destruct (decide (b = a)) as [->|Hb].
    + rewrite lookup_insert_eq. intros [= <-] ?%elem_of_nil. done.
    + rewrite lookup_insert_ne by done. intros Eb Hp. apply elem_of_difference. split; [by eapply W3|].
      rewrite elem_of_list_to_set. by eapply Hdisj.
Qed.

(** The objects of the other arenas. *)
Lemma world_other_objects w w' Ls live a L L' b br Lb :
  world_inv w Ls live → Ls !! a = Some L → frame w w' a L' → (∀ p, p ∈ L' → p ∈ L ∨ p ∉ live) →
  b ≠ a → Ls !! b = Some Lb → aw_arenas w !! b = Some br →
  aw_arenas w' !! b = Some br ∧ ∀ o, is_object w' br Lb o ↔ is_object w br Lb o.
Proof.
  intros [W1 W2 W3 W4] Ea [F1 F2 F3] Hnew Hb Eb Ebr. split; [by rewrite F1|].
  apply is_object_ext; [done| |done..]. intros p Hp. apply F2. intros [HpL|Hl]%Hnew.
  - exact (Hb (W2 b a Lb L p Eb Ea Hp HpL)).
  - exact (Hl (W3 b Lb p Eb Hp)).
Qed.

Lemma objects_apart w a ar L o o' :
  arena_inv w a ar L → is_object w ar L o → is_object w ar L o' → o ≠ o' →
  o + ar_object_size ar ≤ o' ∨ o' + ar_object_size ar ≤ o.
Proof.
  intros [HC _] (p & pg & i & Hp & Ep & Hi & Hu & ->) (q & qg & j & Hq & Eq & Hj & Hu' & ->) Hne.
  pose proof (arena_geometry _ _ _ _ HC) as (Hs & Hm & Hcap).
  destruct (ai_pages _ _ _ _ HC p Hp) as (? & _ & Hokp). destruct (ai_pages _ _ _ _ HC q Hq) as (? & _ & Hokq).
  pose proof (po_align _ _ _ _ Hokp) as Hap. pose proof (po_align _ _ _ _ Hokq) as Haq.
  unfold ARENA_PAGE_CAPACITY, ARENA_PAGE_SIZE, PAGE_SIZE, sizeof_ArenaPage in *.
  assert (i * ar_object_size ar + ar_object_size ar ≤ 4032) by nia.
  assert (j * ar_object_size ar + ar_object_size ar ≤ 4032) by nia.
  assert (0 ≤ i * ar_object_size ar) by nia. assert (0 ≤ j * ar_object_size ar) by nia.
  pose proof (Z.div_mod p 4096 ltac:(lia)). pose proof (Z.div_mod q 4096 ltac:(lia)).
  destruct (Z.lt_trichotomy p q) as [?|[->|?]]; [lia| |lia].
  destruct (Z.lt_trichotomy i j) as [?|[->|?]]; [|done|].
  - left. nia.
  - right. nia.
Qed.

Lemma alloc_object_world w Ls live a ar L :
  world_inv w Ls live → Ls !! a = Some L → aw_arenas w !! a = Some ar → locked (ar_lock ar) = false →
  (all_full w ar L → ∀ t', pa_allocate (aw_alloc w) ≠ Ok NULL t') →
  ∃ o w' ar' L' live', alloc_object me a w = Ok o w' ∧
    allocated w a ar L o w' ar' L' ∧ world_inv w' (<[a := L']> Ls) live' ∧
    (∀ p, p ∈ L' → p ∈ L ∨ p ∉ live) ∧ (¬ all_full w ar L → L' ≡ₚ L ∧ live' = live).
Proof.
  intros HW Ea Ear Hl Hoom. destruct (wi_arena _ _ _ HW a L Ea) as [ar0 HI].
  assert (ar0 = ar) as -> by (pose proof (ai_arena _ _ _ _ (proj1 HI)); congruence).
  destruct (alloc_object_Ok me w a ar L HI Hl) as [Hhas Hadd].
  assert (Decision (all_full w ar L)) as [Hf|Hf].
  { unfold all_full, is_full. apply _. }
  - pose proof (pa_allocate_spec _ _ (wi_alloc _ _ _ HW)) as (p & t' & Ep & Hp)%wp_Ok.
    destruct Hp as [[-> _]|(Hnew & Hal & Hpos & Hr & Hpa)]; [by eapply Hoom in Ep|].
    assert (p ∉ L) as HpL by (intros HpL; by eapply Hnew, wi_live).
    destruct (Hadd p t' Hf Ep HpL Hal (conj Hpos Hr)) as (o & w' & ar' & L' & E & HP & Ha & HA).
    exists o, w', ar', L', ({[p]} ∪ live). split; [done|]. split; [done|].
    assert (∀ q, q ∈ L' → q ∈ L ∨ q ∉ live) as Hnew'.
    { intros q. rewrite HP, elem_of_cons. intros [->|?]; [by right|by left]. }
    split_and!; [|done|by intros ?].
    eapply world_frame; [exact HW|exact Ea|apply HA|apply HA|by rewrite Ha| |done|set_solver].
    intros q. rewrite HP, elem_of_cons. intros [->|?]; [set_solver|]. apply elem_of_union_r. by eapply wi_live.
  - destruct (Hhas Hf) as (o & w' & ar' & L' & E & HP & Ha & HA).
    exists o, w', ar', L', live. split; [done|]. split; [done|].
    assert (∀ q, q ∈ L' → q ∈ L ∨ q ∉ live) as Hnew' by (intros q; rewrite HP; auto).
    split_and!; [|done|done].
    eapply world_frame; [exact HW|exact Ea|apply HA|apply HA|rewrite Ha; apply HW| |done|done].
    intros q. rewrite HP. by eapply wi_live.
Qed.

Lemma free_object_world w Ls live a ar L o :
  world_inv w Ls live → Ls !! a = Some L → aw_arenas w !! a = Some ar → locked (ar_lock ar) = false →
  is_object w ar L o →
  ∃ w' ar' L', free_object me o w = Ok () w' ∧ L' ≡ₚ L ∧
    freed w a ar L o w' ar' L' ∧ world_inv w' (<[a := L']> Ls) live.
Proof.
  intros HW Ea Ear Hl Ho. destruct (wi_arena _ _ _ HW a L Ea) as [ar0 HI].
  assert (ar0 = ar) as -> by (pose proof (ai_arena _ _ _ _ (proj1 HI)); congruence).
  destruct (free_object_Ok me w a ar L o HI Hl Ho) as (w' & ar' & L' & E & HP & Ha & HA).
  exists w', ar', L'. split; [done|]. split; [done|]. split; [done|].
  eapply world_frame; [exact HW|exact Ea|apply HA|apply HA|rewrite Ha; apply HW| | |done].
  - intros q. rewrite HP. by eapply wi_live.
  - intros q. rewrite HP. auto.
Qed.
End world.

(** ** The physical page allocator is such an allocator *)
Definition pmem_allocator (kend me : Z) : PageAllocator PMemory :=
  {| pa_allocate := kalloc me; pa_free := kfree kend me |}.

Definition pmem_live (kend : Z) (s : PMemory) (live : gset Z) : Prop :=
  locked (pm_lock s) = false ∧ ∃ free, pm_inv kend s free ∧
    ∀ p, p ∈ live → err_addr kend p = false ∧ p ∉ free ∧ is_Some (pm_mem s !! p).

Lemma pmem_laws (kend me : Z) : 0 < kend → @PageAllocatorLaws PMemory (pmem_allocator kend me).
Proof.
  intros Hk. refine (@Build_PageAllocatorLaws _ (pmem_allocator kend me) (pmem_live kend) _ _).
  - intros s live (Hl & free & Hinv & Hlive). apply wp_Ok. simpl. destruct free as [|p free].
    + destruct (kalloc_empty _ me _ Hinv Hl) as (s' & E & Hi & Hl' & Hm).
      eexists _, _. split; [exact E|]. left. split; [done|]. split; [done|]. exists []. split; [done|].
      intros q Hq. rewrite Hm. by apply Hlive.
    + destruct (kalloc_Ok _ me _ _ _ Hinv Hl) as (s' & E & Hi & Hl' & Hm).
      eexists _, _. split; [exact E|]. right. destruct Hinv as [_ Hnd Hok].
      apply NoDup_cons in Hnd as [Hn _]. apply Forall_cons in Hok as [He _]. pose proof He as [Ha Hr]%err_addr_false.
      split; [intros Hp; apply Hlive in Hp as (_ & Hp & _); set_solver|]. split; [done|]. split; [lia|].
      split; [rewrite P2K_PHYSTOP in Hr; unfold ARENA_PAGE_SIZE, PAGE_SIZE; lia|]. split; [done|].
      exists free. split; [done|]. intros q [->%elem_of_singleton|Hq]%elem_of_union.
      * rewrite Hm, lookup_insert_eq. eauto.
      * destruct (Hlive q Hq) as (H1 & H2 & H3). split; [done|]. split; [set_solver|].
        rewrite Hm. destruct (decide (q = p)) as [->|]; [set_solver|]. by rewrite lookup_insert_ne.
  - intros s live p (Hl & free & Hinv & Hlive) Hp. destruct (Hlive p Hp) as (He & Hf & [pg Hm]).
    pose proof He as [Ha Hr]%err_addr_false.
    destruct (kfree_Ok kend me s p free pg Hinv Hl He ltac:(unfold NULL; lia) Hf Hm) as (s' & E & Hi & Hl' & Hm').
    apply wp_Ok. eexists _, _. split; [exact E|]. split; [done|]. exists (p :: free). split; [done|].
    intros q [Hq Hqp]%elem_of_difference. destruct (Hlive q Hq) as (H1 & H2 & H3). split; [done|].
    assert (q ≠ p) by set_solver. split; [set_solver|]. rewrite Hm'. by rewrite lookup_insert_ne.
Defined.

(** ** Theorems *)

(** C9. [alloc_object] on any arena of the system, with memory left when
    all its pages are full, returns an object that was not in use and that
    overlaps none in use; exactly that object is added to the arena, the objects of
    every other arena stay as they are, the invariant of all arenas is kept with the
    lock free again, and a new page is taken only when no page has an empty slot. *)
Theorem alloc_object_correct {T} `{PageAllocatorLaws T} (me : Z) (w : world T) Ls live a ar L :
  world_inv w Ls live → Ls !! a = Some L → aw_arenas w !! a = Some ar → locked (ar_lock ar) = false →
  (all_full w ar L → ∀ t', pa_allocate (aw_alloc w) ≠ Ok NULL t') →
  wp (alloc_object me a) (λ o w', ∃ ar' L' live',
    world_inv w' (<[a := L']> Ls) live' ∧
    aw_arenas w' !! a = Some ar' ∧ locked (ar_lock ar') = false ∧
    ¬ is_object w ar L o ∧
    (∀ o', is_object w' ar' L' o' ↔ o' = o ∨ is_object w ar L o') ∧
    (∀ o', is_object w ar L o' → o + ar_object_size ar ≤ o' ∨ o' + ar_object_size ar ≤ o) ∧
    (∀ b br Lb o', b ≠ a → Ls !! b = Some Lb → aw_arenas w !! b = Some br →
       aw_arenas w' !! b = Some br ∧ (is_object w' br Lb o' ↔ is_object w br Lb o')) ∧
    (¬ all_full w ar L → L' ≡ₚ L ∧ live' = live)) w.
Proof.
  intros HW Ea Ear Hl Hoom. apply wp_Ok.
  destruct (alloc_object_world me w Ls live a ar L HW Ea Ear Hl Hoom)
    as (o & w' & ar' & L' & live' & E & [I U [G1 G2] F O R] & HW' & Hnew & Hpg).
  exists o, w'. split; [done|]. exists ar', L', live'. split; [done|]. split; [apply I|].
  split; [done|]. split; [done|]. split; [done|]. split; [|split; [|done]].
  - intros o' Ho'. rewrite <- G1. eapply (objects_apart w' a ar' L'); [done|apply O; by left|apply O; by right|].
    by intros ->.
  - intros b br Lb o' Hb Eb Ebr.
    destruct (world_other_objects w w' Ls live a L L' b br Lb HW Ea R Hnew Hb Eb Ebr) as [? Ho]. by split.
Qed.

(** The arena of [arena_test]: objects of 1032 bytes, three to a page, on the
    two free pages of the page allocator example. *)
Definition demo_world : world PMemory :=
  match init_arena 64 1032 (mkWorld ∅ ∅ ∅ demo_pmem) with Ok _ w => w | _ => mkWorld ∅ ∅ ∅ demo_pmem end.
Definition demo_arena : Arena :=
  {| ar_lock := init_spinlock "arena"; ar_object_size := 1032; ar_max_count := 3;
     ar_pages := 0; ar_num_objects := 0; ar_num_pages := 0 |}.
#[local] Existing Instance pmem_allocator.
Definition demo_laws := pmem_laws demo_kend 0 (eq_refl : 0 < demo_kend).
#[local] Existing Instance demo_laws.

Lemma demo_world_inv : @world_inv PMemory (pmem_allocator demo_kend 0) demo_laws demo_world {[ 64 := [] ]} ∅.
Proof.
  split.
  - intros a L [<- <-]%lookup_singleton_Some. exists demo_arena. split; split; try done.
    + constructor.
    + set_solver.
    + by left.
    + by exists [], [].
  - intros a b La Lb p [<- <-]%lookup_singleton_Some [<- _]%lookup_singleton_Some. done.
  - intros a L p [<- <-]%lookup_singleton_Some. set_solver.
  - split; [done|]. eexists. split; [exact demo_pm_inv|]. set_solver.
Qed.

Lemma demo_world_alloc (t' : PMemory) : @pa_allocate _ (pmem_allocator demo_kend 0) (aw_alloc demo_world) ≠ Ok NULL t'.
Proof. vm_compute. discriminate. Qed.

Lemma alloc_object_correct_witness :
  wp (@alloc_object _ (pmem_allocator demo_kend 0) 0 64) (λ o w', ∃ ar' L' live',
    @world_inv _ _ demo_laws w' (<[64 := L']> {[ 64 := [] ]}) live' ∧
    aw_arenas w' !! 64 = Some ar' ∧ locked (ar_lock ar') = false ∧
    ¬ is_object demo_world demo_arena [] o ∧
    (∀ o', is_object w' ar' L' o' ↔ o' = o ∨ is_object demo_world demo_arena [] o') ∧
    (∀ o', is_object demo_world demo_arena [] o' → o + 1032 ≤ o' ∨ o' + 1032 ≤ o) ∧
    (∀ b br Lb o', b ≠ 64 → ({[ 64 := [] ]} : gmap Z (list Z)) !! b = Some Lb → aw_arenas demo_world !! b = Some br →
       aw_arenas w' !! b = Some br ∧ (is_object w' br Lb o' ↔ is_object demo_world br Lb o')) ∧
    (¬ all_full demo_world demo_arena [] → L' ≡ₚ [] ∧ live' = ∅)) demo_world.
Proof.
  apply (@alloc_object_correct PMemory _ demo_laws 0 demo_world {[ 64 := [] ]} ∅ 64 demo_arena []).
  - exact demo_world_inv.
  - reflexivity.
  - reflexivity.
  - reflexivity.
  - intros _. exact demo_world_alloc.
Defined.

(** [free_object] of an object in use finds its arena from the
    address alone and removes exactly that object, moves its page to the head of the
    arena, keeps the invariant of all arenas, and a second [free_object] of the same
    address is caught. *)
Lemma free_object_correct {T} `{PageAllocatorLaws T} (me : Z) (w : world T) Ls live a ar L o :
  world_inv w Ls live → Ls !! a = Some L → aw_arenas w !! a = Some ar → locked (ar_lock ar) = false →
  is_object w ar L o →
  wp (free_object me o) (λ _ w', ∃ ar' L',
    world_inv w' (<[a := L']> Ls) live ∧
    aw_arenas w' !! a = Some ar' ∧ locked (ar_lock ar') = false ∧
    L' ≡ₚ L ∧ head L' = Some (get_container_page o) ∧
    (∀ o', is_object w' ar' L' o' ↔ o' ≠ o ∧ is_object w ar L o') ∧
    free_object me o w' = Panic "double free object") w.
Proof.
  intros HW Ea Ear Hl Ho. apply wp_Ok.
  destruct (free_object_world me w Ls live a ar L o HW Ea Ear Hl Ho) as (w' & ar' & L' & E & HP & [I U [G1 G2] O Hh R] & HW').
  exists (), w'. split; [done|]. exists ar', L'. split_and!; try done; [apply I|].
  destruct Ho as (p & pg & i & Hp & Ep & Hi & Hu & ->). rewrite <- G1, <- G2 in *.
  eapply free_object_bad; [done|done|by rewrite HP|done|]. by intros [? _]%O.
Qed.

Lemma free_object_correct_witness :
  ∃ o w ar L live, @alloc_object _ (pmem_allocator demo_kend 0) 0 64 demo_world = Ok o w ∧
    wp (@free_object PMemory 0 o) (λ _ w', ∃ ar' L',
      @world_inv _ _ demo_laws w' (<[64 := L']> (<[64 := L]> {[ 64 := [] ]})) live ∧
      aw_arenas w' !! 64 = Some ar' ∧ locked (ar_lock ar') = false ∧
      L' ≡ₚ L ∧ head L' = Some (get_container_page o) ∧
      (∀ o', is_object w' ar' L' o' ↔ o' ≠ o ∧ is_object w ar L o') ∧
      @free_object PMemory 0 o w' = Panic "double free object") w.
Proof.
  destruct (@alloc_object_world PMemory _ demo_laws 0 demo_world {[ 64 := [] ]} ∅ 64 demo_arena [])
    as (o & w & ar & L & live & E & HA & HW & _); [exact demo_world_inv|reflexivity..|intros _; exact demo_world_alloc|].
  exists o, w, ar, L, live. split; [exact E|].
  apply (@free_object_correct PMemory _ demo_laws 0 w _ live 64 ar L o HW).
  - apply lookup_insert_eq.
  - apply HA.
  - apply HA.
  - apply HA. by left.
Defined.

(** C31. [clear_arena] terminates, gives every page of the arena back to the
    page allocator and leaves the arena empty and usable, for objects of the same size;
    every other arena keeps its record, its pages with their contents, and exactly the
    objects it had. *)
Theorem clear_arena_correct {T} `{PageAllocatorLaws T} (me : Z) (w : world T) Ls live a ar L :
  world_inv w Ls live → Ls !! a = Some L → aw_arenas w !! a = Some ar → locked (ar_lock ar) = false →
  wp (clear_arena me a) (λ _ w', ∃ ar',
    world_inv w' (<[a := []]> Ls) (live ∖ list_to_set L) ∧
    aw_arenas w' !! a = Some ar' ∧ locked (ar_lock ar') = false ∧ ar_num_objects ar' = 0 ∧ ar_num_pages ar' = 0 ∧
    ar_object_size ar' = ar_object_size ar ∧ ar_max_count ar' = ar_max_count ar ∧
    (∀ p, p ∈ L → aw_pages w' !! p = None) ∧
    (∀ b br Lb, b ≠ a → Ls !! b = Some Lb → aw_arenas w !! b = Some br →
       aw_arenas w' !! b = Some br ∧ (∀ p, p ∈ Lb → aw_pages w' !! p = aw_pages w !! p) ∧
       ∀ o, is_object w' br Lb o ↔ is_object w br Lb o)) w.
Proof.
  intros HW Ea Ear Hl. destruct (wi_arena _ _ _ HW a L Ea) as [ar0 HI].
  assert (ar0 = ar) as -> by (pose proof (ai_arena _ _ _ _ (proj1 HI)); congruence).
  eapply wp_mono; [apply (clear_arena_Ok me w a ar L live HI Hl); [apply HW|intros x; by apply (wi_live _ _ _ HW a L)]|].
  intros ? w' (ar' & HI' & Hl' & [Hg1 Hg2] & Hf & Hd & Hpa). exists ar'.
  pose proof (proj1 HI') as [C1 _ _ _ _ C6 C7].
  split_and!; try done; [by apply (world_frame_clear w w' Ls live a ar' L)|].
  intros b br Lb Hb Eb Ebr. destruct (world_other_objects w w' Ls live a L L b br Lb HW Ea Hf) as [H1 H2]; try done; [by left|].
  split_and!; try done. intros p Hp. apply Hf. intros HpL. exact (Hb (wi_disj _ _ _ HW b a Lb L p Eb Ea Hp HpL)).
Qed.

Lemma clear_arena_correct_witness :
  ∃ o w ar L live, @alloc_object _ (pmem_allocator demo_kend 0) 0 64 demo_world = Ok o w ∧
    wp (@clear_arena _ (pmem_allocator demo_kend 0) 0 64) (λ _ w', ∃ ar',
      @world_inv _ _ demo_laws w' (<[64 := []]> (<[64 := L]> {[ 64 := [] ]})) (live ∖ list_to_set L) ∧
      aw_arenas w' !! 64 = Some ar' ∧ locked (ar_lock ar') = false ∧ ar_num_objects ar' = 0 ∧ ar_num_pages ar' = 0 ∧
      ar_object_size ar' = ar_object_size ar ∧ ar_max_count ar' = ar_max_count ar ∧
      (∀ p, p ∈ L → aw_pages w' !! p = None) ∧
      (∀ b br Lb, b ≠ 64 → (<[64 := L]> {[ 64 := [] ]} : gmap Z (list Z)) !! b = Some Lb → aw_arenas w !! b = Some br →
         aw_arenas w' !! b = Some br ∧ (∀ p, p ∈ Lb → aw_pages w' !! p = aw_pages w !! p) ∧
         ∀ o, is_object w' br Lb o ↔ is_object w br Lb o)) w.
Proof.
  destruct (@alloc_object_world PMemory _ demo_laws 0 demo_world {[ 64 := [] ]} ∅ 64 demo_arena [])
    as (o & w & ar & L & live & E & HA & HW & _); [exact demo_world_inv|reflexivity..|intros _; exact demo_world_alloc|].
  exists o, w, ar, L, live. split; [exact E|].
  apply (@clear_arena_correct PMemory _ demo_laws 0 w _ live 64 ar L HW).
  - apply lookup_insert_eq.
  - apply HA.
  - apply HA.
Defined.
