(* ===== verification/Cache.v ===== *)
(** * The block cache (fs/cache.c, fs/cache.h, fs/defines.h)

    [Cache] holds the variables of fs/cache.c. The list of cached blocks, a
    circular list with the sentinel [head], is the sequence [c_lru] of the blocks
    from [head.next] to [head.prev]: [insert_after_head] and [detach_from_sentinel]
    of ListNode.v show that [merge_list(&head, p)] and [detach_from_list(p)] are
    [p ::] and removal on that sequence. The memory pool and the block device are
    interfaces. *)
From S2P Require Import Prelude Locks.

Definition BLOCK_SIZE : Z := 512.
Definition LOG_MAX_SIZE : Z := (BLOCK_SIZE - 8) / 8.
Definition OP_MAX_NUM_BLOCKS : Z := 10.
Definition EVICTION_THRESHOLD : Z := 20.
Definition BIT_PER_BLOCK : Z := BLOCK_SIZE * 8.

Record SuperBlock := mkSuperBlock {
  sb_num_blocks : Z;
  sb_num_data_blocks : Z;
  sb_num_inodes : Z;
  sb_num_log_blocks : Z;
  sb_log_start : Z;
  sb_inode_start : Z;
  sb_bitmap_start : Z
}.

Record Block := mkBlock {
  b_block_no : Z;
  b_acquired : bool;
  b_pinned : bool;
  b_lock : SleepLock;
  b_valid : bool;
  b_data : list Z
}.

(** [block_no] 8 bytes, [node] 16, the two flags padded to 8, [lock] 32,
    [valid] and [data] 513, padded to a multiple of 8. *)
Definition sizeof_Block : Z := 584.

Record OpContext := mkOpContext { ctx_ts : Z; ctx_rm : Z }.

Record LogHeader := mkLogHeader { lh_num_blocks : Z; lh_block_no : list Z }.

Record LOG := mkLOG {
  log_lock : SpinLock;
  log_outstanding : Z;
  log_committing : bool;
  log_mu : Z;
  log_mx : Z
}.

(** [BlockDevice] of fs/block_device.h. *)
Class BlockDevice (D : Type) := {
  dev_read : Z → M D (list Z);
  dev_write : Z → list Z → M D unit
}.

(** The disk a device stores, and the writes that reached it, oldest first. *)
Class BlockDeviceLaws (D : Type) `{BlockDevice D} := {
  dev_disk : D → Z → list Z;
  dev_writes : D → list (Z * list Z);
  dev_ok : D → Prop;
  dev_disk_size : ∀ d n, dev_ok d →
    length (dev_disk d n) = Z.to_nat BLOCK_SIZE ∧ Forall (λ x, 0 ≤ x < 256) (dev_disk d n);
  dev_read_spec : ∀ d n, dev_ok d →
    wp (dev_read n) (λ v d', dev_ok d' ∧ v = dev_disk d n ∧
      (∀ m, dev_disk d' m = dev_disk d m) ∧ dev_writes d' = dev_writes d) d;
  dev_write_spec : ∀ d n v, dev_ok d →
    length v = Z.to_nat BLOCK_SIZE → Forall (λ x, 0 ≤ x < 256) v →
    wp (dev_write n v) (λ _ d', dev_ok d' ∧
      (∀ m, dev_disk d' m = if decide (m = n) then v else dev_disk d m) ∧
      dev_writes d' = dev_writes d ++ [(n, v)]) d
}.

(** The arena of [Block]s, as the cache uses it: [op_inv a live room] says that
    the objects of [live] are in use and that [room] more can be allocated. *)
Class ObjectPool (A : Type) := {
  op_init : Z → M A unit;
  op_alloc : M A Z;
  op_free : Z → M A unit
}.
Class ObjectPoolLaws (A : Type) `{ObjectPool A} := {
  op_fresh : A → nat → Prop;
  op_inv : A → gset Z → nat → Prop;
  op_init_spec : ∀ a room, op_fresh a room →
    wp (op_init sizeof_Block) (λ _ a', op_inv a' ∅ room) a;
  op_alloc_spec : ∀ a live room, op_inv a live (S room) →
    wp op_alloc (λ o a', o ∉ live ∧ o ≠ NULL ∧ op_inv a' ({[o]} ∪ live) room) a;
  op_free_spec : ∀ a live room o, op_inv a live room → o ∈ live →
    wp (op_free o) (λ _ a', op_inv a' (live ∖ {[o]}) (S room)) a
}.

Record Cache (A D : Type) := mkCache {
  c_lock : SpinLock;
  c_arena : A;
  c_blocks : gmap Z Block;
  c_lru : list Z;
  c_header : LogHeader;
  c_log : LOG;
  c_dev : D;
  c_wakeups : list Z
}.
Arguments mkCache {A D} _ _ _ _ _ _ _ _.
Arguments c_lock {A D} _.
Arguments c_arena {A D} _.
Arguments c_blocks {A D} _.
Arguments c_lru {A D} _.
Arguments c_header {A D} _.
Arguments c_log {A D} _.
Arguments c_dev {A D} _.
Arguments c_wakeups {A D} _.

(** ** Log header on disk *)
Definition header_bytes (h : LogHeader) : list Z :=
  le_bytes 8 (lh_num_blocks h) ++ (lh_block_no h ≫= le_bytes 8).
Fixpoint words (n : nat) (l : list Z) : list Z :=
  match n with O => [] | S n' => le_val (take 8 l) :: words n' (drop 8 l) end.
Definition header_of_bytes (l : list Z) : LogHeader :=
  {| lh_num_blocks := le_val (take 8 l); lh_block_no := words (Z.to_nat LOG_MAX_SIZE) (drop 8 l) |}.

Section cache.
Context {A D : Type} `{ObjectPool A} `{BlockDevice D}.
Context (sb : SuperBlock) (me : Z).
Abbreviation C := (Cache A D).

Definition set_c_lock x (c : C) : C :=
  mkCache x (c_arena c) (c_blocks c) (c_lru c) (c_header c) (c_log c) (c_dev c) (c_wakeups c).
Definition set_c_arena x (c : C) : C :=
  mkCache (c_lock c) x (c_blocks c) (c_lru c) (c_header c) (c_log c) (c_dev c) (c_wakeups c).
Definition set_c_blocks x (c : C) : C :=
  mkCache (c_lock c) (c_arena c) x (c_lru c) (c_header c) (c_log c) (c_dev c) (c_wakeups c).
Definition set_c_lru x (c : C) : C :=
  mkCache (c_lock c) (c_arena c) (c_blocks c) x (c_header c) (c_log c) (c_dev c) (c_wakeups c).
Definition set_c_header x (c : C) : C :=
  mkCache (c_lock c) (c_arena c) (c_blocks c) (c_lru c) x (c_log c) (c_dev c) (c_wakeups c).
Definition set_c_log x (c : C) : C :=
  mkCache (c_lock c) (c_arena c) (c_blocks c) (c_lru c) (c_header c) x (c_dev c) (c_wakeups c).
Definition set_c_dev x (c : C) : C :=
  mkCache (c_lock c) (c_arena c) (c_blocks c) (c_lru c) (c_header c) (c_log c) x (c_wakeups c).
Definition set_c_wakeups x (c : C) : C :=
  mkCache (c_lock c) (c_arena c) (c_blocks c) (c_lru c) (c_header c) (c_log c) (c_dev c) x.

Definition set_log_lock x (l : LOG) : LOG :=
  mkLOG x (log_outstanding l) (log_committing l) (log_mu l) (log_mx l).
Definition set_outstanding x (l : LOG) : LOG :=
  mkLOG (log_lock l) x (log_committing l) (log_mu l) (log_mx l).
Definition set_committing x (l : LOG) : LOG :=
  mkLOG (log_lock l) (log_outstanding l) x (log_mu l) (log_mx l).
Definition set_mu x (l : LOG) : LOG :=
  mkLOG (log_lock l) (log_outstanding l) (log_committing l) x (log_mx l).

Definition with_acquired x (b : Block) : Block :=
  mkBlock (b_block_no b) x (b_pinned b) (b_lock b) (b_valid b) (b_data b).
Definition with_pinned x (b : Block) : Block :=
  mkBlock (b_block_no b) (b_acquired b) x (b_lock b) (b_valid b) (b_data b).
Definition with_block_lock x (b : Block) : Block :=
  mkBlock (b_block_no b) (b_acquired b) (b_pinned b) x (b_valid b) (b_data b).
Definition with_valid x (b : Block) : Block :=
  mkBlock (b_block_no b) (b_acquired b) (b_pinned b) (b_lock b) x (b_data b).
Definition with_data x (b : Block) : Block :=
  mkBlock (b_block_no b) (b_acquired b) (b_pinned b) (b_lock b) (b_valid b) x.
Definition with_block_no x (b : Block) : Block :=
  mkBlock x (b_acquired b) (b_pinned b) (b_lock b) (b_valid b) (b_data b).

Definition get_block (b : Z) : M C Block := c ← getS; derefM (c_blocks c !! b).
Definition set_block (b : Z) (x : Block) : M C unit :=
  get_block b;; modify (λ c, set_c_blocks (<[b := x]> (c_blocks c)) c).
Definition upd_block (b : Z) (f : Block → Block) : M C unit := x ← get_block b; set_block b (f x).
Definition upd_log (f : LOG → LOG) : M C unit := modify (λ c, set_c_log (f (c_log c)) c).

Definition on_cache_lock (m : M SpinLock unit) : M C unit := zoom c_lock set_c_lock m.
Definition on_log_lock (m : M SpinLock unit) : M C unit :=
  zoom (λ c, log_lock (c_log c)) (λ l c, set_c_log (set_log_lock l (c_log c)) c) m.
Definition lock_block (b : Z) : M C unit :=
  x ← get_block b;
  zoom (λ _, b_lock x) (λ l c, set_c_blocks (<[b := with_block_lock l x]> (c_blocks c)) c)
    (acquire_sleeplock me).
Definition unlock_block (b : Z) : M C unit :=
  x ← get_block b;
  zoom (λ c, (b_lock x, c_wakeups c))
    (λ lw c, set_c_wakeups lw.2 (set_c_blocks (<[b := with_block_lock lw.1 x]> (c_blocks c)) c))
    (release_sleeplock me b).

Definition dev_block (block_no : Z) : Z := u64 (block_no + 0x20800).
Definition device_read (b : Z) : M C unit :=
  x ← get_block b;
  v ← zoom c_dev set_c_dev (dev_read (dev_block (b_block_no x)));
  set_block b (with_data v x).
Definition device_write (b : Z) : M C unit :=
  x ← get_block b;
  zoom c_dev set_c_dev (dev_write (dev_block (b_block_no x)) (b_data x)).
Definition read_header : M C unit :=
  v ← zoom c_dev set_c_dev (dev_read (sb_log_start sb));
  modify (set_c_header (header_of_bytes v)).
Definition write_header : M C unit :=
  h ← gets c_header;
  zoom c_dev set_c_dev (dev_write (sb_log_start sb) (header_bytes h)).

(** [b] is a fresh object of the arena: all of its fields are set. *)
Definition init_block (b : Z) : M C unit :=
  modify (λ c, set_c_blocks (<[b :=
    {| b_block_no := 0; b_acquired := false; b_pinned := false;
       b_lock := init_sleeplock "block"; b_valid := false;
       b_data := replicate (Z.to_nat BLOCK_SIZE) 0 |}]> (c_blocks c)) c).

Definition get_num_cached_blocks : M C Z := gets (λ c, u64 (Z.of_nat (length (c_lru c)))).

(** The search of [cache_acquire], from [head.next] on. *)
Fixpoint find_block (l : list Z) (block_no : Z) : M C (option Z) :=
  match l with
  | [] => mret None
  | p :: l' =>
      b ← get_block p;
      if b_block_no b =? block_no then mret (Some p) else find_block l' block_no
  end.

Definition list_remove_Z (x : Z) (l : list Z) : list Z := filter (λ y, y ≠ x) l.

(** The eviction loop, from [head.prev] towards the head; [l] is the rest of
    the list in that direction. *)
Fixpoint evict (l : list Z) (sz : Z) : M C unit :=
  match l with
  | [] => mret ()
  | q :: l' =>
      if EVICTION_THRESHOLD <=? sz then
        b ← get_block q;
        if negb (b_pinned b) && negb (b_acquired b) then
          modify (λ c, set_c_lru (list_remove_Z q (c_lru c)) c);;
          zoom c_arena set_c_arena (op_free q);;
          modify (λ c, set_c_blocks (delete q (c_blocks c)) c);;
          evict l' (u64 (sz - 1))
        else evict l' sz
      else mret ()
  end.

Definition cache_acquire (block_no : Z) : M C Z :=
  on_cache_lock (acquire_spinlock me);;
  c ← getS;
  found ← find_block (c_lru c) block_no;
  match found with
  | Some p =>
      modify (λ c, set_c_lru (p :: list_remove_Z p (c_lru c)) c);;
      on_cache_lock release_spinlock;;
      lock_block p;;
      mret p
  | None =>
      sz ← get_num_cached_blocks;
      whenM (EVICTION_THRESHOLD <=? sz) (evict (reverse (c_lru c)) sz);;
      b ← zoom c_arena set_c_arena op_alloc;
      init_block b;;
      modify (λ c, set_c_lru (b :: c_lru c) c);;
      upd_block b (with_block_no block_no);;
      on_cache_lock release_spinlock;;
      lock_block b;;
      device_read b;;
      upd_block b (with_valid true);;
      upd_block b (with_acquired true);;
      mret b
  end.

Definition cache_release (block : Z) : M C unit :=
  upd_block block (with_acquired false);;
  unlock_block block.

(** [memmove(dst->data, src->data, BLOCK_SIZE)] between two blocks. *)
Definition copy_block (dst src : Z) : M C unit :=
  s ← get_block src; upd_block dst (with_data (b_data s)).

Definition log_block_no (i : Z) : M C Z :=
  h ← gets c_header; derefM (lh_block_no h !! Z.to_nat i).

(** One iteration of the loop of [install_trans]; the block number of the log
    block is computed in 32 bits. *)
Definition install_one (recovering : bool) (tail : Z) : M C (option unit) :=
  lbuf ← cache_acquire (u32 (sb_log_start sb + tail + 1));
  n ← log_block_no tail;
  dbuf ← cache_acquire n;
  copy_block dbuf lbuf;;
  device_write dbuf;;
  whenM recovering (upd_block dbuf (with_pinned false));;
  cache_release lbuf;;
  cache_release dbuf;;
  mret None.

Definition install_trans (recovering : bool) : M C unit :=
  h ← gets c_header;
  for_loop (Z.to_nat (lh_num_blocks h)) 0 (install_one recovering);;
  mret ().

Definition set_num_blocks (n : Z) : M C unit :=
  modify (λ c, set_c_header {| lh_num_blocks := n; lh_block_no := lh_block_no (c_header c) |} c).

Definition recover_from_log : M C unit :=
  read_header;;
  install_trans true;;
  set_num_blocks 0;;
  write_header.

Definition init_bcache : M C unit :=
  modify (set_c_lru []);;
  modify (set_c_lock (init_spinlock "bcache"));;
  zoom c_arena set_c_arena (op_init sizeof_Block);;
  upd_log (set_log_lock (init_spinlock "log"));;
  upd_log (set_mu 0);;
  upd_log (λ l, mkLOG (log_lock l) (log_outstanding l) (log_committing l) (log_mu l)
    (Z.min (u32 (sb_num_log_blocks sb - 1)) LOG_MAX_SIZE));;
  recover_from_log.

(** [Blocked]: the caller sleeps on [&log] with the lock released. *)
Definition cache_begin_op : M C OpContext :=
  on_log_lock (acquire_spinlock me);;
  c ← getS;
  let log := c_log c in
  if log_committing log then on_log_lock release_spinlock;; blocked
  else if log_mx log <? i32 (i32 (i32 (lh_num_blocks (c_header c)) + log_mu log) + OP_MAX_NUM_BLOCKS)
  then on_log_lock release_spinlock;; blocked
  else
    upd_log (set_outstanding (i32 (log_outstanding log + 1)));;
    upd_log (set_mu (i32 (log_mu log + OP_MAX_NUM_BLOCKS)));;
    on_log_lock release_spinlock;;
    mret {| ctx_ts := u64 (i32 (log_outstanding log + 1)); ctx_rm := OP_MAX_NUM_BLOCKS |}.

(** The index of the first of the first [cnt] entries equal to [n], or [cnt]. *)
Fixpoint find_entry (l : list Z) (cnt : nat) (n : Z) : nat :=
  match cnt, l with
  | S cnt', x :: l' => if x =? n then O else S (find_entry l' cnt' n)
  | _, _ => O
  end.

Definition cache_sync (ctx : option OpContext) (block : Z) : M C (option OpContext) :=
  match ctx with
  | Some ctx =>
      on_log_lock (acquire_spinlock me);;
      c ← getS;
      let h := c_header c in
      let log := c_log c in
      (if log_mx log <=? i32 (lh_num_blocks h) then panic "too big a transaction" else mret ());;
      (if log_outstanding log <? 1 then panic "log_write outside of trans" else mret ());;
      x ← get_block block;
      let i := find_entry (lh_block_no h) (Z.to_nat (lh_num_blocks h)) (b_block_no x) in
      (if decide (i < length (lh_block_no h))%nat then mret () else undef);;
      modify (set_c_header {| lh_num_blocks := lh_num_blocks h;
                              lh_block_no := <[i := b_block_no x]> (lh_block_no h) |});;
      ctx' ← (if Z.of_nat i =? lh_num_blocks h then
                set_num_blocks (u64 (lh_num_blocks h + 1));;
                upd_block block (with_pinned true);;
                if 0 <? ctx_rm ctx then
                  upd_log (set_mu (i32 (log_mu log - 1)));;
                  mret {| ctx_ts := ctx_ts ctx; ctx_rm := ctx_rm ctx - 1 |}
                else panic "OP_MAX_BLOCK exceeded"
              else mret ctx);
      on_log_lock release_spinlock;;
      mret (Some ctx')
  | None => device_write block;; mret None
  end.

Definition write_log_one (tail : Z) : M C (option unit) :=
  n ← log_block_no tail;
  from ← cache_acquire n;
  to ← cache_acquire (u32 (sb_log_start sb + tail + 1));
  copy_block to from;;
  device_write to;;
  cache_release from;;
  cache_release to;;
  mret None.
Definition write_log : M C unit :=
  h ← gets c_header;
  for_loop (Z.to_nat (lh_num_blocks h)) 0 write_log_one;;
  mret ().

Definition commit : M C unit :=
  h ← gets c_header;
  if 0 <? lh_num_blocks h then
    write_log;;
    write_header;;
    install_trans false;;
    set_num_blocks 0;;
    write_header
  else mret ().

(** The channels [&log] and [&log.outstanding]. *)
Context (chan_log chan_outstanding : Z).
Definition wakeup_on (chan : Z) : M C unit := modify (λ c, set_c_wakeups (chan :: c_wakeups c) c).

(** The critical section that ends an operation: the answer is [do_commit].
    When other operations are outstanding the caller sleeps until the commit
    and then returns. *)
Definition end_op_enter (ctx : OpContext) : M C bool :=
  on_log_lock (acquire_spinlock me);;
  l ← gets c_log;
  upd_log (set_outstanding (i32 (log_outstanding l - 1)));;
  upd_log (set_mu (i32 (log_mu l - i32 (ctx_rm ctx))));;
  (if log_committing l then panic "log committing" else mret ());;
  if i32 (log_outstanding l - 1) =? 0 then
    upd_log (set_committing true);;
    on_log_lock release_spinlock;;
    mret true
  else
    wakeup_on chan_log;;
    on_log_lock release_spinlock;;
    mret false.
Definition end_op_leave : M C unit :=
  on_log_lock (acquire_spinlock me);;
  upd_log (set_committing false);;
  wakeup_on chan_outstanding;;
  wakeup_on chan_log;;
  on_log_lock release_spinlock.
Definition cache_end_op (ctx : OpContext) : M C unit :=
  do_commit ← end_op_enter ctx;
  if (do_commit : bool) then commit;; end_op_leave
  else blocked.

Definition BBLOCK (b : Z) : Z := u64 (b / BIT_PER_BLOCK + sb_bitmap_start sb).

Definition bzero (ctx : option OpContext) (block_no : Z) : M C (option OpContext) :=
  bp ← cache_acquire block_no;
  upd_block bp (with_data (replicate (Z.to_nat BLOCK_SIZE) 0));;
  ctx ← cache_sync ctx bp;
  cache_release bp;;
  mret ctx.

(** The inner loop of [cache_alloc]: the first clear bit of the bitmap block
    [data], among the first [n]. *)
Definition bit_mask (bi : Z) : Z := u8 (Z.shiftl 1 (bi mod 8)).
Fixpoint first_free (data : list Z) (bi : Z) (n : nat) : option Z :=
  match n with
  | O => None
  | S n' =>
      match data !! Z.to_nat (bi / 8) with
      | Some x => if Z.land x (bit_mask bi) =? 0 then Some bi else first_free data (bi + 1) n'
      | None => None
      end
  end.
Definition set_bit (data : list Z) (bi : Z) : list Z :=
  alter (λ x, Z.lor x (bit_mask bi)) (Z.to_nat (bi / 8)) data.
Definition clear_bit (data : list Z) (bi : Z) : list Z :=
  alter (λ x, u8 (Z.land x (Z.lnot (Z.shiftl 1 (bi mod 8))))) (Z.to_nat (bi / 8)) data.

Fixpoint alloc_loop (fuel : nat) (ctx : option OpContext) (b : Z) : M C (Z * option OpContext) :=
  match fuel with
  | O => nofuel
  | S fuel' =>
      if b <? sb_num_blocks sb then
        bp ← cache_acquire (BBLOCK b);
        x ← get_block bp;
        match first_free (b_data x) 0 (Z.to_nat (Z.min BIT_PER_BLOCK (sb_num_blocks sb - b))) with
        | Some bi =>
            upd_block bp (with_data (set_bit (b_data x) bi));;
            ctx ← cache_sync ctx bp;
            cache_release bp;;
            ctx ← bzero ctx (u32 (b + bi));
            mret (u32 (b + bi), ctx)
        | None => cache_release bp;; alloc_loop fuel' ctx (u32 (b + BIT_PER_BLOCK))
        end
      else panic "cache_alloc: no free block"
  end.
Definition cache_alloc (ctx : option OpContext) : M C (Z * option OpContext) :=
  alloc_loop (S (Z.to_nat (sb_num_blocks sb / BIT_PER_BLOCK + 1))) ctx 0.

Definition cache_free (ctx : option OpContext) (block_no : Z) : M C (option OpContext) :=
  bp ← cache_acquire (BBLOCK block_no);
  let bi := block_no mod BIT_PER_BLOCK in
  x ← get_block bp;
  v ← derefM (b_data x !! Z.to_nat (bi / 8));
  (if Z.land v (Z.shiftl 1 (bi mod 8)) =? 0 then panic "freeing free block" else mret ());;
  upd_block bp (with_data (clear_bit (b_data x) bi));;
  ctx ← cache_sync ctx bp;
  cache_release bp;;
  mret ctx.
End cache.

(** ** The invariant of the cache *)
Definition bytes512 (l : list Z) : Prop :=
  length l = Z.to_nat BLOCK_SIZE ∧ Forall (λ x, 0 ≤ x < 256) l.

(** The cached block with number [bn]. *)
Fixpoint find_addr (blocks : gmap Z Block) (l : list Z) (bn : Z) : option Z :=
  match l with
  | [] => None
  | p :: l' =>
      match blocks !! p with
      | Some x => if b_block_no x =? bn then Some p else find_addr blocks l' bn
      | None => find_addr blocks l' bn
      end
  end.

Lemma find_addr_Some blocks l bn p :
  find_addr blocks l bn = Some p → p ∈ l ∧ ∃ x, blocks !! p = Some x ∧ b_block_no x = bn.
Proof.
  induction l as [|q l IH]; simpl; [done|]. destruct (blocks !! q) as [x|] eqn:E.
  - destruct (Z.eqb_spec (b_block_no x) bn); [intros [= <-]; eauto using list_elem_of_here|].
    intros [? ?]%IH. eauto using list_elem_of_further.
  - intros [? ?]%IH. eauto using list_elem_of_further.
Qed.

Lemma find_addr_None blocks l bn :
  find_addr blocks l bn = None → ∀ p x, p ∈ l → blocks !! p = Some x → b_block_no x ≠ bn.
Proof.
  induction l as [|q l IH]; simpl; intros Hf p x Hp Ex; [by apply elem_of_nil in Hp|].
  destruct (blocks !! q) as [y|] eqn:E.
  - destruct (Z.eqb_spec (b_block_no y) bn); [done|].
    apply elem_of_cons in Hp as [->|Hp]; [congruence|by eapply IH].
  - apply elem_of_cons in Hp as [->|Hp]; [congruence|by eapply IH].
Qed.

Section inv.
Context {A D : Type} `{ObjectPoolLaws A} `{BlockDeviceLaws D}.
Context (sb : SuperBlock) (me : Z).
Implicit Types (c : Cache A D) (b : Z) (x : Block) (bn : Z).

Record cache_inv c (room : nat) : Prop := {
  ci_pool : op_inv (c_arena c) (dom (c_blocks c)) room;
  ci_nodup : NoDup (c_lru c);
  ci_dom : ∀ b, b ∈ c_lru c ↔ is_Some (c_blocks c !! b);
  ci_uniq : ∀ b1 b2 x1 x2, c_blocks c !! b1 = Some x1 → c_blocks c !! b2 = Some x2 →
    b_block_no x1 = b_block_no x2 → b1 = b2;
  ci_wf : ∀ b x, c_blocks c !! b = Some x → bytes512 (b_data x) ∧ locked (slk (b_lock x)) = false;
  ci_range : ∀ b x, c_blocks c !! b = Some x → 0 ≤ b_block_no x < 2 ^ 32;
  ci_dev : dev_ok (c_dev c);
  ci_len : Z.of_nat (length (c_lru c) + room) < 2 ^ 64
}.

(** The content of block [bn] as a client of the cache sees it. *)
Definition view c bn : list Z :=
  match find_addr (c_blocks c) (c_lru c) bn with
  | Some p => match c_blocks c !! p with Some x => b_data x | None => [] end
  | None => dev_disk (c_dev c) (dev_block bn)
  end.

(** A block that may be dropped from the cache holds what the disk holds. *)
Definition evictable x : Prop := b_pinned x = false ∧ b_acquired x = false.
Definition clean c x : Prop := b_data x = dev_disk (c_dev c) (dev_block (b_block_no x)).
Definition evict_safe c : Prop := ∀ b x, c_blocks c !! b = Some x → evictable x → clean c x.

Lemma view_hit c room b x :
  cache_inv c room → c_blocks c !! b = Some x → view c (b_block_no x) = b_data x.
Proof.
  intros HI E. unfold view. destruct (find_addr _ _ _) as [p|] eqn:Ef.
  - apply find_addr_Some in Ef as (_ & y & Ey & Hn). assert (p = b) as -> by (by eapply ci_uniq).
    by rewrite E.
  - eapply find_addr_None in Ef; [|eapply ci_dom; eauto|exact E]. done.
Qed.

Lemma view_miss c room bn :
  cache_inv c room → (∀ b x, c_blocks c !! b = Some x → b_block_no x ≠ bn) →
  view c bn = dev_disk (c_dev c) (dev_block bn).
Proof.
  intros HI Hno. unfold view. destruct (find_addr _ _ _) as [p|] eqn:Ef; [|done].
  apply find_addr_Some in Ef as (_ & y & Ey & Hn). by apply Hno in Ey.
Qed.

Lemma find_addr_cases c room bn :
  cache_inv c room →
  (∃ b x, find_addr (c_blocks c) (c_lru c) bn = Some b ∧ c_blocks c !! b = Some x ∧ b_block_no x = bn) ∨
  (find_addr (c_blocks c) (c_lru c) bn = None ∧ ∀ b x, c_blocks c !! b = Some x → b_block_no x ≠ bn).
Proof.
  intros HI. destruct (find_addr _ _ _) as [p|] eqn:Ef.
  - left. apply find_addr_Some in Ef as (_ & x & Ex & Hn). eauto.
  - right. split; [done|]. intros b x E. eapply find_addr_None; [exact Ef| |done]. eapply ci_dom; eauto.
Qed.

(** What the caching itself never touches. *)
Record same_env c c' : Prop := {
  se_lock : locked (c_lock c') = locked (c_lock c);
  se_header : c_header c' = c_header c;
  se_log : c_log c' = c_log c;
  se_wakeups : c_wakeups c' = c_wakeups c;
  se_disk : ∀ n, dev_disk (c_dev c') n = dev_disk (c_dev c) n;
  se_writes : dev_writes (c_dev c') = dev_writes (c_dev c)
}.
Lemma same_env_refl c : same_env c c.
Proof. by split. Qed.
Lemma same_env_trans c1 c2 c3 : same_env c1 c2 → same_env c2 c3 → same_env c1 c3.
Proof.
  intros [] []. split; congruence.
Qed.

Lemma get_block_Ok c b x : c_blocks c !! b = Some x → get_block b c = Ok x c.
Proof. unfold get_block, mbind, M_bind, getS. by intros ->. Qed.
Lemma upd_block_Ok c b x f :
  c_blocks c !! b = Some x → upd_block b f c = Ok () (set_c_blocks (<[b := f x]> (c_blocks c)) c).
Proof.
  intros E. unfold upd_block, set_block. erewrite bind_Ok by (by apply get_block_Ok).
  erewrite bind_Ok by (by apply get_block_Ok). done.
Qed.

Lemma find_block_Ok c l bn :
  (∀ p, p ∈ l → is_Some (c_blocks c !! p)) →
  find_block l bn c = Ok (find_addr (c_blocks c) l bn) c.
Proof.
  induction l as [|q l IH]; intros Hl; simpl; [done|].
  destruct (Hl q ltac:(set_solver)) as [x Ex]. erewrite bind_Ok by (by apply get_block_Ok). rewrite Ex.
  destruct (b_block_no x =? bn); [done|]. apply IH. set_solver.
Qed.

Lemma lock_block_Ok c b x :
  c_blocks c !! b = Some x → locked (slk (b_lock x)) = false → slocked (b_lock x) = false →
  lock_block me b c = Ok () (set_c_blocks (<[b := with_block_lock
    {| slk := init_spinlock (lname (slk (b_lock x))); slocked := true |} x]> (c_blocks c)) c).
Proof.
  intros E H1' H2'. unfold lock_block. erewrite bind_Ok by (by apply get_block_Ok).
  unfold zoom. rewrite acquire_sleeplock_spec, H2' by done. done.
Qed.
Lemma unlock_block_Ok c b x :
  c_blocks c !! b = Some x → locked (slk (b_lock x)) = false →
  unlock_block me b c = Ok () (set_c_wakeups (b :: c_wakeups c) (set_c_blocks (<[b := with_block_lock
    {| slk := init_spinlock (lname (slk (b_lock x))); slocked := false |} x]> (c_blocks c)) c)).
Proof.
  intros E H1'. unfold unlock_block. erewrite bind_Ok by (by apply get_block_Ok).
  unfold zoom. rewrite release_sleeplock_spec by done. done.
Qed.

(** *** Eviction *)
Lemma elem_of_list_remove_Z y p l : y ∈ list_remove_Z p l ↔ y ≠ p ∧ y ∈ l.
Proof. unfold list_remove_Z. by rewrite list_elem_of_filter. Qed.
Lemma NoDup_list_remove_Z p l : NoDup l → NoDup (list_remove_Z p l).
Proof. intros. by apply NoDup_filter. Qed.
Lemma list_remove_Z_notin p l : p ∉ l → list_remove_Z p l = l.
Proof.
  induction l as [|y l IH]; intros Hp; [done|]. unfold list_remove_Z in *.
  rewrite filter_cons_True by set_solver. f_equal. apply IH. set_solver.
Qed.
Lemma length_list_remove_Z p l : NoDup l → p ∈ l → length l = S (length (list_remove_Z p l)).
Proof.
  induction 1 as [|y l Hy Hl IH]; intros Hp; [by apply elem_of_nil in Hp|].
  unfold list_remove_Z in *. destruct (decide (y = p)) as [->|Hne].
  - rewrite filter_cons_False by auto. simpl. fold (list_remove_Z p l). by rewrite list_remove_Z_notin.
  - rewrite filter_cons_True by done. simpl. f_equal. apply IH. set_solver.
Qed.

Definition dropped c q a' : Cache A D :=
  set_c_blocks (delete q (c_blocks c)) (set_c_arena a' (set_c_lru (list_remove_Z q (c_lru c)) c)).

Lemma dropped_inv c room q a' :
  cache_inv c room → q ∈ c_lru c → op_inv a' (dom (c_blocks c) ∖ {[q]}) (S room) →
  cache_inv (dropped c q a') (S room).
Proof.
  intros [P1 P2 P3 P4 P5 PR P6 P7] Hq Ha.
  pose proof (length_list_remove_Z q (c_lru c) P2 Hq) as Hlen.
  split; simpl; try done.
  - by rewrite dom_delete_L.
  - by apply NoDup_list_remove_Z.
  - intros b. rewrite elem_of_list_remove_Z, P3, lookup_delete_is_Some. naive_solver.
  - intros b1 b2 x1 x2 [? E1]%lookup_delete_Some [? E2]%lookup_delete_Some. by apply P4.
  - intros b x [? E]%lookup_delete_Some. by eapply P5.
  - intros b x [? E]%lookup_delete_Some. by eapply PR.
  - lia.
Qed.

Lemma evict_Ok l : ∀ c room sz,
  cache_inv c room → NoDup l → (∀ q, q ∈ l → q ∈ c_lru c) → sz = Z.of_nat (length (c_lru c)) →
  wp (evict l sz) (λ _ c', ∃ room', cache_inv c' room' ∧ (room ≤ room')%nat ∧ same_env c c' ∧
    (∀ b x, c_blocks c' !! b = Some x → c_blocks c !! b = Some x) ∧
    (∀ b x, c_blocks c !! b = Some x → c_blocks c' !! b = None → evictable x) ∧
    (Z.of_nat (length (c_lru c')) < EVICTION_THRESHOLD ∨
     ∀ q x, q ∈ l → c_blocks c' !! q = Some x → ¬ evictable x)) c.
Proof.
  induction l as [|q l IH]; intros c room sz HI Hnd Hl ->; cbn [evict].
  { apply wp_ret. exists room. split_and!; try done; [|right; set_solver]. intros b x E1 E2. congruence. }
  apply NoDup_cons in Hnd as [Hq Hnd].
  destruct (Z.leb_spec EVICTION_THRESHOLD (Z.of_nat (length (c_lru c)))).
  2:{ apply wp_ret. exists room. split_and!; try done; [|by left]. intros b x E1 E2. congruence. }
  assert (q ∈ c_lru c) as Hqin by (apply Hl; set_solver).
  destruct (proj1 (ci_dom _ _ HI q) Hqin) as [x Ex].
  apply wp_bind. eapply wp_of_Ok; [by apply get_block_Ok|]. cbn beta.
  destruct (b_pinned x) eqn:Ep; [|destruct (b_acquired x) eqn:Ea]; cbn [negb andb].
  - eapply wp_mono; [apply (IH c room _ HI Hnd); [set_solver|done]|].
    intros ? c' (room' & HI' & Hr & He & H1' & H2' & H3'). exists room'. split_and!; try done.
    destruct H3' as [?|H3']; [by left|right]. intros q' y [->|Hq']%elem_of_cons E'; [|by eapply H3'].
    apply H1' in E'. intros [? ?]. congruence.
  - eapply wp_mono; [apply (IH c room _ HI Hnd); [set_solver|done]|].
    intros ? c' (room' & HI' & Hr & He & H1' & H2' & H3'). exists room'. split_and!; try done.
    destruct H3' as [?|H3']; [by left|right]. intros q' y [->|Hq']%elem_of_cons E'; [|by eapply H3'].
    apply H1' in E'. intros [? ?]. congruence.
  - apply wp_bind. unfold wp at 1, modify.
    pose proof (op_free_spec _ _ _ q (ci_pool _ _ HI) ltac:(by apply elem_of_dom)) as ([] & a' & Ef & Ha')%wp_Ok.
    apply wp_bind. eapply wp_of_Ok; [by apply zoom_Ok|]. cbn beta. apply wp_bind. unfold wp at 1, modify.
    change (set_c_blocks _ _) with (dropped c q a').
    pose proof (dropped_inv _ _ _ _ HI Hqin Ha') as HI'.
    pose proof (length_list_remove_Z q (c_lru c) (ci_nodup _ _ HI) Hqin) as Hlen.
    pose proof (ci_len _ _ HI). unfold EVICTION_THRESHOLD in *.
    eapply wp_mono; [apply (IH (dropped c q a') (S room) _ HI' Hnd)|].
    + intros p Hp. simpl. apply elem_of_list_remove_Z. split; [by intros ->|]. apply Hl. set_solver.
    + simpl. rewrite u64_small by lia. lia.
    + intros ? c' (room' & HI'' & Hr & He & H1' & H2' & H3'). exists room'. split; [done|]. split; [lia|].
      split; [eapply same_env_trans; [|exact He]; by split|]. split_and!.
      * intros b y E. apply H1' in E. simpl in E. by apply lookup_delete_Some in E as [_ ?].
      * intros b y E1 E2. destruct (decide (b = q)) as [->|]; [by assert (y = x) as -> by congruence|].
        eapply H2'; [|done]. simpl. by rewrite lookup_delete_ne.
      * destruct H3' as [?|H3']; [by left|right]. intros q' y [->|Hq']%elem_of_cons E'; [|by eapply H3'].
        apply H1' in E'. simpl in E'. by rewrite lookup_delete_eq in E'.
Qed.

(** *** Changing one block *)
Definition put_block c b x : Cache A D := set_c_blocks (<[b := x]> (c_blocks c)) c.

Lemma put_block_inv c room b x y :
  cache_inv c room → c_blocks c !! b = Some x → b_block_no y = b_block_no x →
  bytes512 (b_data y) → locked (slk (b_lock y)) = false → cache_inv (put_block c b y) room.
Proof.
  intros [P1 P2 P3 P4 P5 PR P6 P7] E Hn Hd Hl. split; simpl; try done.
  - replace (dom (<[b := y]> (c_blocks c))) with (dom (c_blocks c)); [done|].
    rewrite dom_insert_L. apply elem_of_dom_2 in E. set_solver.
  - intros b'. rewrite P3, lookup_insert_is_Some'. split; [by right|]. intros [->|?]; eauto.
  - intros b1 b2 x1 x2 E1 E2 Heq.
    assert (∀ b' x', <[b := y]> (c_blocks c) !! b' = Some x' →
      ∃ x0, c_blocks c !! b' = Some x0 ∧ b_block_no x0 = b_block_no x') as Hold.
    { intros b' x' E'. destruct (decide (b' = b)) as [->|].
      - rewrite lookup_insert_eq in E'. injection E' as <-. eauto.
      - rewrite lookup_insert_ne in E' by done. eauto. }
    apply Hold in E1 as (y1 & E1 & ?), E2 as (y2 & E2 & ?). eapply P4; [exact E1|exact E2|congruence].
  - intros b' x' E'. destruct (decide (b' = b)) as [->|].
    + rewrite lookup_insert_eq in E'. by injection E' as <-.
    + rewrite lookup_insert_ne in E' by done. by eapply P5.
  - intros b' x' [[<- <-]|[? E']]%lookup_insert_Some; [rewrite Hn|]; by eapply PR.
Qed.

Lemma put_block_view c room b x y :
  cache_inv c room → c_blocks c !! b = Some x → b_block_no y = b_block_no x →
  bytes512 (b_data y) → locked (slk (b_lock y)) = false →
  ∀ bn, view (put_block c b y) bn = if decide (bn = b_block_no x) then b_data y else view c bn.
Proof.
  intros HI E Hn Hd Hl bn. pose proof (put_block_inv _ _ _ _ _ HI E Hn Hd Hl) as HI'.
  case_decide as Hbn.
  - subst bn. rewrite <- Hn. eapply view_hit; [exact HI'|]. apply lookup_insert_eq.
  - destruct (find_addr_cases c room bn HI) as [(p & z & _ & Ez & Hz)|(_ & Hno)].
    + assert (p ≠ b) by (intros ->; congruence). subst bn. rewrite (view_hit c room p z) by done.
      eapply view_hit; [exact HI'|]. simpl. by rewrite lookup_insert_ne.
    + rewrite (view_miss c room bn) by done. rewrite (view_miss _ _ bn HI'); [done|].
      intros b' x' E'. simpl in E'. destruct (decide (b' = b)) as [->|].
      * rewrite lookup_insert_eq in E'. injection E' as <-. congruence.
      * rewrite lookup_insert_ne in E' by done. by eapply Hno.
Qed.

Lemma lru_perm_inv c room l :
  cache_inv c room → l ≡ₚ c_lru c → cache_inv (set_c_lru l c) room.
Proof.
  intros [P1 P2 P3 P4 P5 PR P6 P7] HP. split; simpl; try done.
  - by rewrite HP.
  - intros b. by rewrite HP.
  - by rewrite HP.
Qed.

Lemma move_front_perm p l : NoDup l → p ∈ l → p :: list_remove_Z p l ≡ₚ l.
Proof.
  intros Hnd Hp. apply NoDup_Permutation; [|done|].
  - constructor; [|by apply NoDup_list_remove_Z]. rewrite elem_of_list_remove_Z. tauto.
  - intros y. rewrite elem_of_cons, elem_of_list_remove_Z.
    destruct (decide (y = p)) as [->|]; naive_solver.
Qed.

(** Two caches with the same blocks and disk show the same content. *)
Lemma view_ext c c' room room' :
  cache_inv c room → cache_inv c' room' → c_blocks c' = c_blocks c →
  (∀ n, dev_disk (c_dev c') n = dev_disk (c_dev c) n) → ∀ bn, view c' bn = view c bn.
Proof.
  intros HI HI' Hb Hd bn. destruct (find_addr_cases c room bn HI) as [(p & z & _ & Ez & <-)|(_ & Hno)].
  - rewrite (view_hit c room p z) by done. eapply view_hit; [exact HI'|]. by rewrite Hb.
  - rewrite (view_miss c room), (view_miss c' room'), Hd; try done. by rewrite Hb.
Qed.

(** Dropping evictable, clean blocks does not change what clients see. *)
Lemma view_evict c c' room room' :
  cache_inv c room → cache_inv c' room' → evict_safe c → same_env c c' →
  (∀ b x, c_blocks c' !! b = Some x → c_blocks c !! b = Some x) →
  (∀ b x, c_blocks c !! b = Some x → c_blocks c' !! b = None → evictable x) →
  ∀ bn, view c' bn = view c bn.
Proof.
  intros HI HI' Hs He H1' H2' bn. destruct (find_addr_cases c room bn HI) as [(p & z & _ & Ez & <-)|(_ & Hno)].
  - rewrite (view_hit c room p z) by done. destruct (c_blocks c' !! p) as [z'|] eqn:E'.
    + pose proof (H1' _ _ E'). assert (z' = z) as -> by congruence. by eapply view_hit.
    + rewrite (Hs p z) by eauto. rewrite <- (se_disk _ _ He). eapply view_miss; [exact HI'|].
      intros b x E Hn. pose proof (H1' _ _ E) as E0. assert (b = p) as -> by (by apply (ci_uniq _ _ HI b p x z)). congruence.
  - rewrite (view_miss c room) by done. rewrite <- (se_disk _ _ He). eapply view_miss; [exact HI'|].
    intros b x E. by eapply Hno, H1'.
Qed.

(** *** [cache_acquire] *)
Definition cached c bn : Prop := ∃ b y, c_blocks c !! b = Some y ∧ b_block_no y = bn.

Record acquired_post c bn room b c' room' : Prop := {
  aq_inv : cache_inv c' room';
  aq_room : (room ≤ S room')%nat;
  aq_env : same_env c c';
  aq_block : ∃ x, c_blocks c' !! b = Some x ∧ b_block_no x = bn ∧ slocked (b_lock x) = true ∧
    b_data x = view c bn ∧
    ((∃ y, c_blocks c !! b = Some y ∧ b_block_no y = bn ∧ b_pinned x = b_pinned y ∧ b_acquired x = b_acquired y) ∨
     (¬ cached c bn ∧ b_pinned x = false ∧ b_acquired x = true));
  aq_keep : ∀ b' y, c_blocks c !! b' = Some y → b_block_no y ≠ bn → cached c bn ∨ ¬ evictable y →
    b' ≠ b ∧ c_blocks c' !! b' = Some y;
  aq_old : ∀ b' y, c_blocks c' !! b' = Some y → b' ≠ b → c_blocks c !! b' = Some y;
  aq_view : ∀ n, view c' n = view c n;
  aq_safe : evict_safe c';
  aq_bound : cached c bn ∨ Z.of_nat (length (c_lru c')) ≤ EVICTION_THRESHOLD ∨
    ∀ b' y, c_blocks c' !! b' = Some y → ¬ evictable y;
  aq_head : head (c_lru c') = Some b
}.

Lemma acquire_hit_Ok c room bn b y :
  cache_inv c room → locked (c_lock c) = false → evict_safe c → c_blocks c !! b = Some y → b_block_no y = bn → slocked (b_lock y) = false →
  wp (cache_acquire me bn) (λ b' c', b' = b ∧ acquired_post c bn room b c' room) c.
Proof.
  intros HI Hlk Hs E Hn Hl. unfold cache_acquire. apply wp_bind.
  eapply wp_of_Ok; [by apply zoom_Ok, acquire_spinlock_free|]. cbn beta.
  set (lk := mkSpinLock true _ _). apply wp_bind. unfold wp at 1, getS. apply wp_bind.
  eapply wp_of_Ok; [apply find_block_Ok; simpl; apply HI|]. cbn beta. simpl c_lru. simpl c_blocks.
  assert (find_addr (c_blocks c) (c_lru c) bn = Some b) as ->.
  { destruct (find_addr_cases c room bn HI) as [(p & z & -> & Ez & Hz)|(_ & Hno)]; [|by apply Hno in E].
    f_equal. eapply ci_uniq; [done..|congruence]. }
  apply wp_bind. unfold wp at 1, modify. apply wp_bind.
  eapply wp_of_Ok; [apply zoom_Ok, release_spinlock_held; done|]. cbn beta.
  apply wp_bind. eapply wp_of_Ok; [by apply lock_block_Ok; [|by eapply ci_wf|]|]. cbn beta. apply wp_ret.
  split; [done|]. simpl lname. set (y' := with_block_lock _ y).
  assert (b ∈ c_lru c) as Hb by (eapply ci_dom; eauto).
  set (c1 := set_c_lru (b :: list_remove_Z b (c_lru c)) c).
  assert (cache_inv c1 room) as HI1.
  { apply lru_perm_inv; [done|]. apply move_front_perm; [apply HI|done]. }
  set (c2 := set_c_lock (init_spinlock (lname (c_lock c))) (put_block c1 b y')).
  assert (cache_inv (put_block c1 b y') room) as HIp.
  { apply (put_block_inv c1 room b y); try done. by apply (ci_wf _ _ HI b y). }
  assert (cache_inv c2 room) as HI2.
  { destruct HIp. by split. }
  assert (∀ n, view c2 n = view c n) as Hv.
  { intros n. rewrite (view_ext (put_block c1 b y') c2 room room); try done.
    rewrite (put_block_view c1 room b y y') by (done || by apply (ci_wf _ _ HI b y)). case_decide as Hbn.
    - subst n. symmetry. by apply (view_hit c room b y).
    - by eapply view_ext. }
  split; try done.
  - lia.
  - exists y'. split; [apply lookup_insert_eq|]. split_and!; try done; [|left; eauto].
    subst bn. symmetry. by apply (view_hit c room b y).
  - intros b' z E' Hne _. assert (b' ≠ b) by (intros ->; congruence). split; [done|].
    simpl. by rewrite lookup_insert_ne.
  - intros b' z E' Hne. simpl in E'. by rewrite lookup_insert_ne in E'.
  - intros b' z E' Hev. simpl in E'. destruct (decide (b' = b)) as [->|].
    + rewrite lookup_insert_eq in E'. injection E' as <-. by apply (Hs b y).
    + rewrite lookup_insert_ne in E' by done. by apply (Hs b' z).
  - left. by exists b, y.
Qed.

(** The cache with a new block at the front of the list. *)
Definition added c o x a' d' : Cache A D :=
  mkCache (c_lock c) a' (<[o := x]> (c_blocks c)) (o :: c_lru c) (c_header c) (c_log c) d' (c_wakeups c).

Lemma added_inv c room o x a' d' :
  cache_inv c (S room) → o ∉ dom (c_blocks c) → op_inv a' ({[o]} ∪ dom (c_blocks c)) room →
  dev_ok d' → (∀ b y, c_blocks c !! b = Some y → b_block_no y ≠ b_block_no x) →
  bytes512 (b_data x) → locked (slk (b_lock x)) = false → 0 ≤ b_block_no x < 2 ^ 32 →
  cache_inv (added c o x a' d') room.
Proof.
  intros [P1 P2 P3 P4 P5 PR P6 P7] Ho Ha Hd Hno Hb Hl Hr. apply not_elem_of_dom in Ho.
  split; simpl; try done.
  - by rewrite dom_insert_L.
  - constructor; [|done]. rewrite P3, Ho. by intros [? ?].
  - intros b. rewrite elem_of_cons, P3, lookup_insert_is_Some'. naive_solver.
  - intros b1 b2 x1 x2 [[<- <-]|[? E1]]%lookup_insert_Some [[<- <-]|[? E2]]%lookup_insert_Some Heq; try done.
    + by apply Hno in E2.
    + by apply Hno in E1.
    + by eapply P4.
  - intros b y [[<- <-]|[? E]]%lookup_insert_Some; [done|]. by eapply P5.
  - intros b y [[<- <-]|[? E]]%lookup_insert_Some; [done|]. by eapply PR.
  - lia.
Qed.

Lemma added_view c room o x a' d' :
  cache_inv c room → cache_inv (added c o x a' d') (pred room) → o ∉ dom (c_blocks c) →
  (∀ n, dev_disk d' n = dev_disk (c_dev c) n) → b_data x = view c (b_block_no x) →
  ∀ n, view (added c o x a' d') n = view c n.
Proof.
  intros HI HI' Ho Hd Hx n. apply not_elem_of_dom in Ho.
  destruct (decide (n = b_block_no x)) as [->|Hn].
  - rewrite <- Hx. eapply view_hit; [exact HI'|]. apply lookup_insert_eq.
  - destruct (find_addr_cases c room n HI) as [(p & z & _ & Ez & <-)|(_ & Hno)].
    + rewrite (view_hit c room p z) by done. eapply view_hit; [exact HI'|]. simpl.
      rewrite lookup_insert_ne; [done|]. intros ->. congruence.
    + rewrite (view_miss c room) by done. rewrite <- Hd. eapply (view_miss (added c o x a' d')); [exact HI'|].
      simpl. intros b y [[<- <-]|[? E]]%lookup_insert_Some; [done|]. by eapply Hno.
Qed.

(** What evicting leaves: room for one more block, unless every block is in use. *)
Record made_room c room c1 room1 : Prop := {
  mr_inv : cache_inv c1 room1;
  mr_room : (room ≤ room1)%nat;
  mr_env : same_env c c1;
  mr_old : ∀ b x, c_blocks c1 !! b = Some x → c_blocks c !! b = Some x;
  mr_gone : ∀ b x, c_blocks c !! b = Some x → c_blocks c1 !! b = None → evictable x;
  mr_bound : Z.of_nat (length (c_lru c1)) < EVICTION_THRESHOLD ∨ ∀ q x, c_blocks c1 !! q = Some x → ¬ evictable x
}.
Lemma make_room_Ok c room : cache_inv c room →
  wp (whenM (EVICTION_THRESHOLD <=? Z.of_nat (length (c_lru c))) (evict (reverse (c_lru c)) (Z.of_nat (length (c_lru c)))))
    (λ _ c', ∃ room', made_room c room c' room') c.
Proof.
  intros HI. destruct (Z.leb_spec EVICTION_THRESHOLD (Z.of_nat (length (c_lru c)))); simpl whenM.
  - eapply wp_mono; [apply (evict_Ok (reverse (c_lru c)) c room); try done|].
    + rewrite reverse_Permutation; apply HI.
    + intros q. by rewrite elem_of_reverse.
    + intros ? c' (room' & HI' & Hr & He & H1' & H2' & H3'). exists room'. split; try done.
      destruct H3' as [|H3']; [by left|right]. intros q x E'. apply (H3' q x); [|done].
      rewrite elem_of_reverse. apply (ci_dom _ _ HI). apply H1' in E'. eauto.
  - apply wp_ret. exists room. split; try done; [by intros b x -> |by left].
Qed.

(** The block that was read is the content of the disk, and joins the others. *)
Lemma added_post c room bn c1 room1 lk o lx a' d' nm :
  cache_inv c room → locked (c_lock c) = false → evict_safe c → (∀ b y, c_blocks c !! b = Some y → b_block_no y ≠ bn) →
  made_room (set_c_lock lk c) room c1 (S room1) → op_inv a' ({[o]} ∪ dom (c_blocks c1)) room1 → dev_ok d' → 0 ≤ bn < 2 ^ 32 →
  o ∉ dom (c_blocks c1) → (∀ n, dev_disk d' n = dev_disk (c_dev c1) n) → dev_writes d' = dev_writes (c_dev c1) →
  slocked lx = true → locked (slk lx) = false →
  acquired_post c bn room o (added (set_c_lock (init_spinlock nm) c1) o (mkBlock bn true false lx true (dev_disk (c_dev c1) (dev_block bn))) a' d') room1.
Proof.
  intros HI Hlk Hs Hno [HI1 Hr1 He1 Hold Hgone Hbound] Ha' Hd' Hbn Hfresh Hdk Hwr Hsl Hxl.
  set (ck := set_c_lock (init_spinlock nm) c1). set (v := dev_disk (c_dev c1) (dev_block bn)). set (x := mkBlock bn true false lx true v).
  assert (cache_inv (set_c_lock lk c) room) as HI0 by (destruct HI; by split).
  assert (∀ b y, c_blocks c1 !! b = Some y → b_block_no y ≠ bn) as Hno1 by (intros b y E; by eapply Hno, Hold).
  assert (c_blocks c1 !! o = None) as Ho1 by (by apply not_elem_of_dom).
  assert (cache_inv ck (S room1)) as HIk by (destruct HI1; by split).
  assert (bytes512 v) as Hbv by (by apply dev_disk_size, HI1).
  assert (cache_inv (added ck o x a' d') room1) as HI' by (by apply added_inv).
  assert (∀ n, view c1 n = view c n) as Hv1.
  { intros n. rewrite <- (view_ext c (set_c_lock lk c) room room) by done. by eapply (view_evict (set_c_lock lk c) c1). }
  assert (∀ n, view ck n = view c1 n) as Hvk by (by eapply view_ext).
  assert (v = view c bn) as Hvc by (by rewrite <- Hv1, (view_miss c1 (S room1))).
  assert (¬ cached c bn) as Hnc by (intros (b & y & E & Hn); by apply Hno in E).
  split; try done.
  - split; simpl; [by rewrite Hlk|apply He1|apply He1|apply He1|intros n; rewrite Hdk; apply He1|rewrite Hwr; apply He1].
  - exists x. split; [apply lookup_insert_eq|]. by split_and!; [..|right].
  - intros b y E Hne [?|Hev]; [done|]. simpl. destruct (c_blocks c1 !! b) as [y'|] eqn:E1; [|by apply Hgone in E].
    assert (b ≠ o) by (intros ->; congruence). split; [done|]. rewrite lookup_insert_ne by done.
    rewrite E1, <- E. symmetry. by apply Hold.
  - intros b y E Hne. simpl in E. rewrite lookup_insert_ne in E by done. by apply Hold.
  - intros n. rewrite <- Hv1, <- Hvk. apply (added_view ck (S room1)); try done. by rewrite Hvk, Hv1.
  - intros b y E Hev. unfold clean. simpl in *. rewrite Hdk, (se_disk _ _ He1).
    apply lookup_insert_Some in E as [[<- <-]|[Hne E]]; [by destruct Hev|]. by apply (Hs b y), Hev; apply Hold.
  - right. destruct Hbound as [Hb|Hb]; [left; simpl; lia|right]. simpl.
    intros b y [[<- <-]|[Hne E]]%lookup_insert_Some; [by intros [? ?]|by eapply Hb].
Qed.

Lemma acquire_miss_Ok c room bn :
  0 ≤ bn < 2 ^ 32 → cache_inv c (S room) → locked (c_lock c) = false → evict_safe c →
  (∀ b y, c_blocks c !! b = Some y → b_block_no y ≠ bn) →
  wp (cache_acquire me bn) (λ b c', ∃ room', acquired_post c bn (S room) b c' room') c.
Proof.
  intros Hbn HI Hlk Hs Hno. unfold cache_acquire. apply wp_bind.
  eapply wp_of_Ok; [by apply zoom_Ok, acquire_spinlock_free|]. cbn beta.
  set (lk := mkSpinLock true _ _). set (c0 := set_c_lock lk c).
  assert (cache_inv c0 (S room)) as HI0 by (destruct HI; by split).
  apply wp_bind. unfold wp at 1, getS. apply wp_bind.
  eapply wp_of_Ok; [apply find_block_Ok; simpl; apply HI|]. cbn beta. simpl c_lru. simpl c_blocks.
  destruct (find_addr_cases c (S room) bn HI) as [(p & z & _ & Ez & Hz)|(-> & _)]; [by apply Hno in Ez|].
  apply wp_bind. unfold get_num_cached_blocks, wp at 1, gets.
  pose proof (ci_len _ _ HI). rewrite u64_small by (simpl; lia). simpl c_lru. apply wp_bind.
  change (c_lru c) with (c_lru c0). eapply wp_mono; [by apply (make_room_Ok c0 (S room))|].
  intros ? c1 (room1 & HR). pose proof HR as [HI1 Hr1 He1 _ _ _]. cbn beta.
  destruct room1 as [|room1]; [lia|].
  pose proof (op_alloc_spec _ _ _ (ci_pool _ _ HI1)) as (o & a' & Ea & Hfresh & Hnz & Ha')%wp_Ok.
  assert (c_blocks c1 !! o = None) as Ho1 by (by apply not_elem_of_dom).
  apply wp_bind. eapply wp_of_Ok; [by apply zoom_Ok|]. cbn beta.
  apply wp_bind. unfold init_block, wp at 1, modify. apply wp_bind. unfold wp at 1, modify.
  apply wp_bind. eapply wp_of_Ok; [apply upd_block_Ok, lookup_insert_eq|]. cbn beta. simpl. rewrite insert_insert_eq.
  apply wp_bind. eapply wp_of_Ok.
  { apply zoom_Ok, release_spinlock_held. simpl. by rewrite (se_lock _ _ He1). }
  cbn beta. apply wp_bind. eapply wp_of_Ok; [by apply lock_block_Ok; [apply lookup_insert_eq|..]|].
  cbn beta. simpl. rewrite insert_insert_eq. unfold device_read at 1.
  apply wp_bind, wp_bind. eapply wp_of_Ok; [apply get_block_Ok, lookup_insert_eq|]. cbn beta.
  pose proof (dev_read_spec (c_dev c1) (dev_block bn) (ci_dev _ _ HI1)) as (v & d' & Er & Hd' & Hv & Hdk & Hwr)%wp_Ok.
  apply wp_bind. eapply wp_of_Ok; [apply zoom_Ok; simpl; exact Er|]. cbn beta. unfold set_block at 1.
  apply wp_bind. eapply wp_of_Ok; [apply get_block_Ok, lookup_insert_eq|]. cbn beta. unfold wp at 1, modify.
  simpl. rewrite insert_insert_eq.
  apply wp_bind. eapply wp_of_Ok; [apply upd_block_Ok, lookup_insert_eq|]. cbn beta. simpl. rewrite insert_insert_eq.
  apply wp_bind. eapply wp_of_Ok; [apply upd_block_Ok, lookup_insert_eq|]. cbn beta. simpl. rewrite insert_insert_eq.
  apply wp_ret. unfold with_acquired, with_valid, with_data, with_block_lock, with_block_no. simpl.
  exists room1. subst v. by apply (added_post c (S room) bn c1 room1 lk o _ a' d' _ HI Hlk Hs Hno HR Ha' Hd' Hbn Hfresh Hdk Hwr).
Qed.

(** The block [bn], if cached, is not locked. *)
Definition unlocked c bn : Prop :=
  ∀ b y, c_blocks c !! b = Some y → b_block_no y = bn → slocked (b_lock y) = false.

Lemma acquire_Ok c room bn :
  0 ≤ bn < 2 ^ 32 → cache_inv c (S room) → locked (c_lock c) = false → evict_safe c → unlocked c bn →
  wp (cache_acquire me bn) (λ b c', ∃ room', acquired_post c bn (S room) b c' room') c.
Proof.
  intros Hbn HI Hlk Hs Hu. destruct (find_addr_cases c _ bn HI) as [(p & z & _ & Ez & Hz)|(_ & Hno)].
  - eapply wp_mono; [by apply (acquire_hit_Ok c _ bn p z HI); eauto|]. intros b c' [-> ?]. eauto.
  - by apply acquire_miss_Ok.
Qed.

(** *** [cache_release] *)
Definition released c b x : Cache A D :=
  set_c_wakeups (b :: c_wakeups c) (put_block c b (with_block_lock
    {| slk := init_spinlock (lname (slk (b_lock x))); slocked := false |} (with_acquired false x))).

Lemma release_Ok c b x :
  c_blocks c !! b = Some x → locked (slk (b_lock x)) = false → cache_release me b c = Ok () (released c b x).
Proof.
  intros E Hl. unfold cache_release. erewrite bind_Ok by (by apply upd_block_Ok).
  erewrite unlock_block_Ok by (done || apply lookup_insert_eq). simpl. by rewrite insert_insert_eq.
Qed.

Lemma released_inv c room b x :
  cache_inv c room → c_blocks c !! b = Some x →
  cache_inv (released c b x) room ∧ ∀ n, view (released c b x) n = view c n.
Proof.
  intros HI E. pose proof (ci_wf _ _ HI b x E) as [Hb Hl].
  set (y := with_block_lock {| slk := init_spinlock (lname (slk (b_lock x))); slocked := false |} (with_acquired false x)).
  assert (cache_inv (put_block c b y) room) as HI1 by (by apply (put_block_inv c room b x)).
  assert (cache_inv (released c b x) room) as HI2 by (destruct HI1; by split).
  split; [done|]. intros n. rewrite (view_ext (put_block c b y) (released c b x) room room) by done.
  rewrite (put_block_view c room b x y) by done. case_decide; [|done]. subst n. symmetry. by apply (view_hit c room b x).
Qed.
End inv.

(** ** A disk in memory and an unbounded pool

    The simplest device and pool that keep the laws, for running the model. *)
Record RamDisk := mkRamDisk { rd_disk : gmap Z (list Z); rd_writes : list (Z * list Z) }.
Definition zero_block : list Z := replicate (Z.to_nat BLOCK_SIZE) 0.
Definition rd_block (d : RamDisk) (n : Z) : list Z := default zero_block (rd_disk d !! n).
#[global] Instance ram_device : BlockDevice RamDisk := {|
  dev_read n := λ d, Ok (rd_block d n) d;
  dev_write n v := λ d, Ok () {| rd_disk := <[n := v]> (rd_disk d); rd_writes := rd_writes d ++ [(n, v)] |}
|}.
Definition ram_ok (d : RamDisk) : Prop := map_Forall (λ _ v, bytes512 v) (rd_disk d).

Lemma zero_block_bytes : bytes512 zero_block.
Proof. unfold zero_block. split; [by rewrite length_replicate|]. apply Forall_replicate. lia. Qed.

#[global] Instance ram_laws : BlockDeviceLaws RamDisk.
Proof.
  refine {| dev_disk := rd_block; dev_writes := rd_writes; dev_ok := ram_ok |}.
  - intros d n Hd. unfold rd_block. destruct (rd_disk d !! n) as [v|] eqn:E; [by apply (Hd n)|].
    apply zero_block_bytes.
  - intros d n Hd. done.
  - intros d n v Hd Hl Hb. unfold wp. simpl. split; [|split; [|done]].
    + by apply map_Forall_insert_2.
    + intros m. unfold rd_block. simpl. case_decide as Hm; [by subst; rewrite lookup_insert_eq|].
      by rewrite lookup_insert_ne.
Defined.

(** The next address to hand out. *)
#[global] Instance bump_pool : ObjectPool Z := {|
  op_init _ := λ a, Ok () a;
  op_alloc := λ a, Ok a (a + 1);
  op_free _ := λ a, Ok () a
|}.
#[global] Instance bump_laws : ObjectPoolLaws Z.
Proof.
  refine {| op_fresh := λ a _, 0 < a; op_inv := λ a live _, 0 < a ∧ ∀ o, o ∈ live → o < a |}.
  - intros a room Ha. split; [done|]. set_solver.
  - intros a live room [Ha Hl]. unfold wp. simpl. split_and!; [intros ?%Hl; lia|unfold NULL; lia|lia|].
    intros o [->%elem_of_singleton|?%Hl]%elem_of_union; lia.
  - intros a live room o [Ha Hl] Ho. split; [done|]. set_solver.
Defined.

(** Every block that a thread holds is pinned or marked as acquired. A miss keeps this; a
    hit does not mark the block that it returns (CacheAlloc.held_block_evicted). *)
Definition held_marked {A D} (c : Cache A D) : Prop :=
  ∀ b x, c_blocks c !! b = Some x → slocked (b_lock x) = true → b_pinned x || b_acquired x = true.

(** C26. On a cache that keeps its invariant and in which every held block is marked or
    pinned, [cache_acquire] returns a locked block with the requested number and the
    content clients see, changes no content and writes nothing to the disk; every pinned
    block and every block that a thread holds stays in the cache as it is. After a miss
    the new block is marked, so that every held block is again, and the cache holds at
    most the threshold or only blocks that are pinned or marked. Releasing the block
    unlocks it and keeps the content. *)
Theorem cache_acquire_correct {A D} `{ObjectPoolLaws A} `{BlockDeviceLaws D} (me : Z) (c : Cache A D) room bn :
  0 ≤ bn < 2 ^ 32 → cache_inv c (S room) → locked (c_lock c) = false → evict_safe c → unlocked c bn → held_marked c →
  wp (cache_acquire me bn) (λ b c', ∃ room' x,
    cache_inv c' room' ∧ evict_safe c' ∧ locked (c_lock c') = false ∧
    c_blocks c' !! b = Some x ∧ b_block_no x = bn ∧ slocked (b_lock x) = true ∧ b_data x = view c bn ∧
    (∀ n, view c' n = view c n) ∧ dev_writes (c_dev c') = dev_writes (c_dev c) ∧
    (∀ b' y, c_blocks c !! b' = Some y → b_block_no y ≠ bn → b_pinned y = true ∨ slocked (b_lock y) = true → c_blocks c' !! b' = Some y) ∧
    (¬ cached c bn → b_acquired x = true ∧ held_marked c' ∧
       (Z.of_nat (length (c_lru c')) ≤ EVICTION_THRESHOLD ∨ ∀ b' y, c_blocks c' !! b' = Some y → b_pinned y || b_acquired y = true)) ∧
    wp (cache_release me b) (λ _ c'',
      cache_inv c'' room' ∧ unlocked c'' bn ∧ ∀ n, view c'' n = view c n) c') c.
Proof.
  intros Hbn HI Hlk Hs Hu Hm. eapply wp_mono; [by apply acquire_Ok|].
  intros b c' (room' & [Hinv Hroom Henv (x & Ex & Hno & Hsl & Hd & Hmark) Hkeep Hold Hview Hsafe Hbound _]).
  exists room', x. pose proof (ci_wf _ _ Hinv b x Ex) as [_ Hwl]. split_and!; try done.
  - by rewrite (se_lock _ _ Henv).
  - apply Henv.
  - intros b' y E Hne Hp. apply Hkeep; [done..|]. right. intros [H3 H4]. destruct Hp as [Hp|Hp]; [congruence|].
    apply (Hm _ _ E) in Hp. by rewrite H3, H4 in Hp.
  - intros Hmiss. destruct Hmark as [(y & Ey & Hy & _)|(_ & _ & Hacq)]; [exfalso; apply Hmiss; by exists b, y|].
    split_and!; [done| |].
    + intros b' y E Hl. destruct (decide (b' = b)) as [->|Hne]; [|eapply Hm; [by apply Hold|done]].
      rewrite Ex in E. injection E as <-. rewrite Hacq. apply orb_true_r.
    + destruct Hbound as [?|[?|Hall]]; [done|by left|right].
      intros b' y E. apply Hall in E. unfold evictable in E. destruct (b_pinned y), (b_acquired y); naive_solver.
  - eapply wp_of_Ok; [by apply release_Ok|]. destruct (released_inv c' room' b x Hinv Ex) as [HI'' Hv''].
    split_and!; [done| |by intros; rewrite Hv''].
    intros b' y E Hb'. destruct (decide (b' = b)) as [->|Hne].
    + simpl in E. rewrite lookup_insert_eq in E. by injection E as <-.
    + exfalso. apply Hne. eapply (ci_uniq _ _ HI'' b' b y); [exact E|simpl; apply lookup_insert_eq|]. simpl. congruence.
Qed.

(** An empty cache over an empty disk. *)
Definition demo_cache : Cache Z RamDisk :=
  {| c_lock := init_spinlock "bcache"; c_arena := 1; c_blocks := ∅; c_lru := [];
     c_header := {| lh_num_blocks := 0; lh_block_no := replicate 63 0 |};
     c_log := {| log_lock := init_spinlock "log"; log_outstanding := 0; log_committing := false;
                 log_mu := 0; log_mx := 63 |};
     c_dev := {| rd_disk := ∅; rd_writes := [] |}; c_wakeups := [] |}.
Lemma demo_cache_inv room : Z.of_nat room < 2 ^ 64 → cache_inv demo_cache room.
Proof.
  intros Hr. split; simpl; try (by intros * ?%lookup_empty_Some); try done.
  - constructor.
  - intros b. rewrite lookup_empty. split; [by intros ?%elem_of_nil|by intros []].
Qed.

Lemma cache_acquire_correct_witness :
  wp (cache_acquire 0 7) (λ b c', ∃ room' x,
    cache_inv c' room' ∧ evict_safe c' ∧ locked (c_lock c') = false ∧
    c_blocks c' !! b = Some x ∧ b_block_no x = 7 ∧ slocked (b_lock x) = true ∧ b_data x = view demo_cache 7 ∧
    (∀ n, view c' n = view demo_cache n) ∧ dev_writes (c_dev c') = dev_writes (c_dev demo_cache) ∧
    (∀ b' y, c_blocks demo_cache !! b' = Some y → b_block_no y ≠ 7 → b_pinned y = true ∨ slocked (b_lock y) = true → c_blocks c' !! b' = Some y) ∧
    (¬ cached demo_cache 7 → b_acquired x = true ∧ held_marked c' ∧
       (Z.of_nat (length (c_lru c')) ≤ EVICTION_THRESHOLD ∨ ∀ b' y, c_blocks c' !! b' = Some y → b_pinned y || b_acquired y = true)) ∧
    wp (cache_release 0 b) (λ _ c'',
      cache_inv c'' room' ∧ unlocked c'' 7 ∧ ∀ n, view c'' n = view demo_cache n) c') demo_cache.
Proof.
  refine (cache_acquire_correct 0 demo_cache 99 7 _ _ _ _ _ _).
  - lia.
  - apply demo_cache_inv. reflexivity.
  - reflexivity.
  - intros b x E. simpl in E. by apply lookup_empty_Some in E.
  - intros b x E. simpl in E. by apply lookup_empty_Some in E.
  - intros b x E. simpl in E. by apply lookup_empty_Some in E.
Defined.
