(* ===== verification/CacheLog.v ===== *)
(** * The write-ahead log of the block cache (fs/cache.c)

    The commit protocol and its recovery, on top of the caching lemmas of Cache.v:
    what [write_log], [install_trans], [commit] and [recover_from_log] do to the
    disk, that a crash between any two disk writes of a commit leaves either all or
    none of its blocks, and that the reservation of log space by [begin_op] keeps
    the log from overflowing. *)
From S2P Require Import Prelude Locks Cache.

Section copy.
Context {A D : Type} `{ObjectPoolLaws A} `{BlockDeviceLaws D}.
Context (sb : SuperBlock) (me : Z).
Implicit Types (c : Cache A D) (b : Z) (x : Block) (bn : Z).

(** No block is in use. *)
Definition quiet c : Prop :=
  ∀ b y, c_blocks c !! b = Some y → slocked (b_lock y) = false ∧ b_acquired y = false.
Definition pinned_in c bn : Prop := ∃ b y, c_blocks c !! b = Some y ∧ b_block_no y = bn ∧ b_pinned y = true.

(** The state between two operations of the cache. *)
Record idle c (room : nat) : Prop := {
  id_inv : cache_inv c room;
  id_lock : locked (c_lock c) = false;
  id_safe : evict_safe c;
  id_quiet : quiet c
}.

Lemma dev_block_inj n m : 0 ≤ n < 2 ^ 32 → 0 ≤ m < 2 ^ 32 → dev_block n = dev_block m → n = m.
Proof. intros Hn Hm. unfold dev_block. rewrite !u64_small by lia. lia. Qed.
Lemma dev_block_small n : 0 ≤ n < 2 ^ 32 → dev_block n = n + 0x20800.
Proof. intros. unfold dev_block. apply u64_small. lia. Qed.

(** Both loops of the commit protocol copy one block onto another through the
    cache and write it out. *)
Definition copy_through (src_no : Z) (dst_noM : M (Cache A D) Z) (unpin : bool) : M (Cache A D) (option unit) :=
  src ← cache_acquire me src_no;
  dst_no ← dst_noM;
  dst ← cache_acquire me dst_no;
  copy_block dst src;;
  device_write dst;;
  whenM unpin (upd_block dst (with_pinned false));;
  cache_release me src;;
  cache_release me dst;;
  mret None.

Lemma install_one_copy recovering tail c :
  install_one sb me recovering tail c =
    copy_through (u32 (sb_log_start sb + tail + 1)) (log_block_no tail) recovering c.
Proof. done. Qed.
Lemma write_log_one_copy tail c n :
  log_block_no tail c = Ok n c →
  write_log_one sb me tail c = copy_through n (mret (u32 (sb_log_start sb + tail + 1))) false c.
Proof. intros E. unfold write_log_one. by erewrite bind_Ok by exact E. Qed.

Lemma set_dev_inv c room d' : cache_inv c room → dev_ok d' → cache_inv (set_c_dev d' c) room.
Proof. intros [] ?. by split. Qed.

(** Writing out a cached block shows clients nothing new. *)
Lemma set_dev_view c room b x d' :
  cache_inv c room → c_blocks c !! b = Some x → dev_ok d' →
  (∀ m, dev_disk d' m = if decide (m = dev_block (b_block_no x)) then b_data x else dev_disk (c_dev c) m) →
  ∀ n, 0 ≤ n < 2 ^ 32 → view (set_c_dev d' c) n = view c n.
Proof.
  intros HI E Hd Hdisk n Hn. pose proof (set_dev_inv c room d' HI Hd) as HI'.
  destruct (find_addr_cases c room n HI) as [(p & z & _ & Ez & <-)|(_ & Hno)].
  - rewrite (view_hit c room p z) by done. by apply (view_hit _ room p z HI').
  - rewrite (view_miss c room n HI Hno), (view_miss _ room n HI' Hno). simpl. rewrite Hdisk.
    rewrite decide_False; [done|]. intros Heq%dev_block_inj; [|done|by eapply ci_range]. subst n. by eapply Hno.
Qed.

Record copied c room src_no dst_no (unpin : bool) c' room' : Prop := {
  cp_idle : idle c' room';
  cp_room : (room ≤ room')%nat;
  cp_header : c_header c' = c_header c;
  cp_log : c_log c' = c_log c;
  cp_view : ∀ n, 0 ≤ n < 2 ^ 32 → view c' n = if decide (n = dst_no) then view c src_no else view c n;
  cp_disk : ∀ m, dev_disk (c_dev c') m =
    if decide (m = dev_block dst_no) then view c src_no else dev_disk (c_dev c) m;
  cp_writes : dev_writes (c_dev c') = dev_writes (c_dev c) ++ [(dev_block dst_no, view c src_no)];
  cp_pinned : ∀ n, pinned_in c n → (unpin = true → n ≠ dst_no) → pinned_in c' n;
  cp_cached : ∀ n, cached c' n → cached c n ∨ n = src_no ∨ n = dst_no
}.

(** The block an acquisition returns, when it is not pinned, is clean. *)
Lemma acquired_clean c room bn b c' room' x :
  idle c room → acquired_post c bn room b c' room' → c_blocks c' !! b = Some x →
  b_pinned x = false → b_data x = dev_disk (c_dev c) (dev_block bn).
Proof.
  intros [HI _ Hs Hq] [_ _ _ (x' & Ex & Hn & _ & Hd & Hsrc) _ _ _ _ _ _] E Hp.
  assert (x' = x) as -> by congruence. destruct Hsrc as [(y & Ey & Hy & Hpy & _)|(Hnc & _)].
  - rewrite Hd, <- Hy. rewrite (view_hit c room b y) by done. apply (Hs b y Ey).
    split; [congruence|by eapply Hq].
  - rewrite Hd. eapply view_miss; [done|]. intros b' y E' Hn'. apply Hnc. by exists b', y.
Qed.

Lemma acquired_pinned c room bn b c' room' n :
  cache_inv c room → acquired_post c bn room b c' room' → pinned_in c n → pinned_in c' n.
Proof.
  intros HI [HI' _ _ (x & Ex & Hn & _ & _ & Hsrc) Hkeep _ _ _ _ _] (b' & y & E & Hy & Hp).
  destruct (decide (n = bn)) as [->|Hne].
  - destruct Hsrc as [(y' & Ey & Hy' & Hpy & _)|(Hnc & _)]; [|by destruct Hnc; exists b', y].
    exists b, x. split_and!; try done. assert (b' = b) as -> by (apply (ci_uniq _ _ HI b' b y y'); congruence).
    congruence.
  - destruct (Hkeep b' y E) as [_ E']; [congruence|right; intros [? _]; congruence|]. by exists b', y.
Qed.

(** The state after a copy, before the two releases. *)
Definition copy_state c2 b2 x5 d' : Cache A D := put_block (set_c_dev d' c2) b2 x5.

Lemma copy_state_inv c2 room b2 x2 x5 d' v :
  cache_inv c2 room → c_blocks c2 !! b2 = Some x2 → dev_ok d' → bytes512 v →
  b_block_no x5 = b_block_no x2 → b_data x5 = v → b_lock x5 = b_lock x2 →
  (∀ m, dev_disk d' m = if decide (m = dev_block (b_block_no x2)) then v else dev_disk (c_dev c2) m) →
  cache_inv (copy_state c2 b2 x5 d') room ∧
  ∀ n, 0 ≤ n < 2 ^ 32 → view (copy_state c2 b2 x5 d') n = if decide (n = b_block_no x2) then v else view c2 n.
Proof.
  intros HI E Hd Hv Hno Hdata Hlock Hdisk. pose proof (ci_wf _ _ HI b2 x2 E) as [_ Hl].
  pose proof (set_dev_inv c2 room d' HI Hd) as HI1.
  assert (bytes512 (b_data x5)) as Hb5 by (by rewrite Hdata).
  assert (locked (slk (b_lock x5)) = false) as Hl5 by (by rewrite Hlock).
  split; [by apply (put_block_inv _ room b2 x2)|]. intros n Hn. unfold copy_state.
  rewrite (put_block_view _ room b2 x2 x5) by done. rewrite Hdata. case_decide as Hbn; [done|].
  destruct (find_addr_cases c2 room n HI) as [(p & z & _ & Ez & <-)|(_ & Hno2)].
  - rewrite (view_hit c2 room p z) by done. by apply (view_hit _ room p z HI1).
  - rewrite (view_miss c2 room n HI Hno2), (view_miss _ room n HI1 Hno2). simpl. rewrite Hdisk.
    rewrite decide_False; [done|]. intros Heq%dev_block_inj; [done..|]. by eapply ci_range.
Qed.

Lemma copy_body_Ok c2 room b1 b2 x1 x2 (unpin : bool) :
  cache_inv c2 room → c_blocks c2 !! b1 = Some x1 → c_blocks c2 !! b2 = Some x2 → b1 ≠ b2 →
  ∃ d', let x5 := if unpin then with_pinned false (with_data (b_data x1) x2) else with_data (b_data x1) x2 in
    let c5 := copy_state c2 b2 x5 d' in
    (copy_block b2 b1;; device_write b2;; whenM unpin (upd_block b2 (with_pinned false));;
     cache_release me b1;; cache_release me b2;; mret (None : option unit)) c2
      = Ok None (released (released c5 b1 x1) b2 x5) ∧
    dev_ok d' ∧
    (∀ m, dev_disk d' m = if decide (m = dev_block (b_block_no x2)) then b_data x1 else dev_disk (c_dev c2) m) ∧
    dev_writes d' = dev_writes (c_dev c2) ++ [(dev_block (b_block_no x2), b_data x1)].
Proof.
  intros HI E1 E2 Hne. pose proof (ci_wf _ _ HI b1 x1 E1) as [[Hlen Hby] Hl1].
  pose proof (ci_wf _ _ HI b2 x2 E2) as [_ Hl2].
  pose proof (dev_write_spec (c_dev c2) (dev_block (b_block_no x2)) (b_data x1) (ci_dev _ _ HI) Hlen Hby)
    as ([] & d' & Ew & Hok & Hdisk & Hwr)%wp_Ok.
  exists d'. cbn zeta. split; [|done].
  set (x5 := if unpin then _ else _).
  unfold copy_block. erewrite bind_Ok; [|erewrite bind_Ok by (by apply get_block_Ok); by apply upd_block_Ok].
  unfold device_write. erewrite bind_Ok.
  2:{ erewrite bind_Ok by (apply get_block_Ok, lookup_insert_eq). apply zoom_Ok. simpl. exact Ew. }
  assert (whenM unpin (upd_block b2 (with_pinned false))
      (set_c_dev d' (set_c_blocks (<[b2 := with_data (b_data x1) x2]> (c_blocks c2)) c2)) =
      Ok () (copy_state c2 b2 x5 d')) as E5.
  { unfold x5. destruct unpin; [|done]. simpl whenM. erewrite upd_block_Ok by (simpl; apply lookup_insert_eq).
    simpl. unfold copy_state, put_block, set_c_blocks. simpl. by rewrite insert_insert_eq. }
  erewrite bind_Ok by exact E5.
  erewrite bind_Ok by (apply release_Ok; [simpl; by rewrite lookup_insert_ne|done]).
  erewrite bind_Ok; [done|]. apply release_Ok.
  - simpl. rewrite lookup_insert_ne by done. apply lookup_insert_eq.
  - unfold x5. by destruct unpin.
Qed.

(** Both blocks in hand. *)
Lemma acquire_both c room src_no dst_no (dst_noM : M (Cache A D) Z) :
  idle c (S (S room)) → 0 ≤ src_no < 2 ^ 32 → 0 ≤ dst_no < 2 ^ 32 → src_no ≠ dst_no →
  (∀ c1, c_header c1 = c_header c → dst_noM c1 = Ok dst_no c1) →
  cached c dst_no ∨ ¬ cached c src_no ∨ pinned_in c src_no →
  ∃ b1 c1 r1 b2 c2 r2 x1 x2,
    cache_acquire me src_no c = Ok b1 c1 ∧ dst_noM c1 = Ok dst_no c1 ∧
    cache_acquire me dst_no c1 = Ok b2 c2 ∧ b1 ≠ b2 ∧
    acquired_post c src_no (S (S room)) b1 c1 (S r1) ∧ acquired_post c1 dst_no (S r1) b2 c2 r2 ∧
    c_blocks c1 !! b1 = Some x1 ∧ b_block_no x1 = src_no ∧ b_data x1 = view c src_no ∧
    c_blocks c2 !! b1 = Some x1 ∧ c_blocks c2 !! b2 = Some x2 ∧ b_block_no x2 = dst_no.
Proof.
  intros HId Hs Hd Hne HM Hprot. pose proof HId as [HI Hlk Hsafe Hq].
  assert (unlocked c src_no) as Hu by (intros b y E _; by eapply Hq).
  pose proof (acquire_Ok me c (S room) src_no Hs HI Hlk Hsafe Hu) as (b1 & c1 & E1 & r1 & AP1)%wp_Ok.
  pose proof AP1 as [HI1 Hr1 He1 (x1 & Ex1 & Hn1 & _ & Hd1 & Hsrc1) Hkeep1 Hold1 Hv1 Hs1 _ _].
  destruct r1 as [|r1]; [lia|].
  assert (unlocked c1 dst_no) as Hu1.
  { intros b y E Hy. destruct (decide (b = b1)) as [->|]; [exfalso; congruence|]. by eapply Hq, Hold1. }
  assert (locked (c_lock c1) = false) as Hlk1 by (by rewrite (se_lock _ _ He1)).
  pose proof (acquire_Ok me c1 r1 dst_no Hd HI1 Hlk1 Hs1 Hu1) as (b2 & c2 & E2 & r2 & AP2)%wp_Ok.
  pose proof AP2 as [HI2 Hr2 He2 (x2 & Ex2 & Hn2 & _) Hkeep2 Hold2 Hv2 Hs2 _ _].
  assert (cached c1 dst_no ∨ ¬ evictable x1) as Hsafe1.
  { destruct Hprot as [(b & y & E & Hy)|Hprot].
    - destruct (decide (b_pinned y || b_acquired y)) as [Hp|Hp].
      + left. exists b, y. split; [|done]. apply (Hkeep1 b y E); [congruence|]. right. intros [Hp' Ha']. by rewrite Hp', Ha' in Hp.
      + destruct Hsrc1 as [(y1 & Ey1 & Hy1 & _)|(_ & _ & Ha)]; [|right; intros [_ ?]; congruence].
        left. exists b, y. split; [|done]. apply (Hkeep1 b y E); [congruence|]. left. by exists b1, y1.
    - right. destruct Hsrc1 as [(y1 & Ey1 & Hy1 & Hp1 & _)|(_ & _ & Ha)]; [|intros [_ ?]; congruence].
      destruct Hprot as [Hnc|(b & y & E & Hy & Hp)]; [destruct Hnc; by exists b1, y1|].
      assert (b = b1) as -> by (apply (ci_uniq _ _ HI b b1 y y1); congruence). intros [? _]. congruence. }
  destruct (Hkeep2 b1 x1 Ex1) as [Hb12 E12]; [congruence|done|].
  exists b1, c1, r1, b2, c2, r2, x1, x2. split_and!; try done. apply HM, He1.
Qed.

Lemma copy_through_Ok c room src_no dst_no (dst_noM : M (Cache A D) Z) (unpin : bool) :
  idle c (S (S room)) → 0 ≤ src_no < 2 ^ 32 → 0 ≤ dst_no < 2 ^ 32 → src_no ≠ dst_no →
  (∀ c1, c_header c1 = c_header c → dst_noM c1 = Ok dst_no c1) →
  cached c dst_no ∨ ¬ cached c src_no ∨ pinned_in c src_no →
  wp (copy_through src_no dst_noM unpin) (λ r c', r = None ∧ ∃ room', copied c room src_no dst_no unpin c' room') c.
Proof.
  intros HId Hs Hd Hne HM Hprot.
  destruct (acquire_both c room src_no dst_no dst_noM HId Hs Hd Hne HM Hprot)
    as (b1 & c1 & r1 & b2 & c2 & r2 & x1 & x2 & E1 & EM & E2 & Hb12 & AP1 & AP2 & Ex1 & Hn1 & Hd1 & Ex12 & Ex2 & Hn2).
  destruct (copy_body_Ok c2 r2 b1 b2 x1 x2 unpin (aq_inv _ _ _ _ _ _ AP2) Ex12 Ex2 Hb12)
    as (d' & Ebody & Hdok & Hdisk & Hwr).
  set (x5 := if unpin then _ else _) in *. set (c5 := copy_state c2 b2 x5 d') in *.
  apply wp_Ok. eexists _, _. split.
  { unfold copy_through. erewrite bind_Ok by exact E1. erewrite bind_Ok by exact EM.
    erewrite bind_Ok by exact E2. exact Ebody. }
  split; [done|]. exists r2. pose proof HId as [HI Hlk Hsafe Hq].
  pose proof AP1 as [HI1 Hr1 He1 _ Hkeep1 Hold1 Hv1 Hs1 _ _].
  pose proof AP2 as [HI2 Hr2 He2 _ Hkeep2 Hold2 Hv2 Hs2 _ _].
  assert (b_data x5 = view c src_no ∧ b_block_no x5 = dst_no) as [Hx5 Hn5] by (unfold x5; by destruct unpin).
  rewrite Hn2, Hd1 in Hdisk. rewrite Hn2, Hd1 in Hwr.
  assert (∀ n, dev_disk (c_dev c2) n = dev_disk (c_dev c) n) as Hdisk2.
  { intros n. rewrite (se_disk _ _ He2). apply He1. }
  destruct (copy_state_inv c2 r2 b2 x2 x5 d' (view c src_no)) as [HI5 Hv5]; try done.
  { rewrite <- Hd1. by apply (ci_wf _ _ HI2 b1 x1). }
  { congruence. }
  { unfold x5; by destruct unpin. }
  { by rewrite Hn2. }
  assert (c_blocks c5 !! b1 = Some x1) as E51 by (unfold c5; simpl; by rewrite lookup_insert_ne).
  destruct (released_inv c5 r2 b1 x1 HI5 E51) as [HI6 Hv6].
  assert (c_blocks (released c5 b1 x1) !! b2 = Some x5) as E62.
  { simpl. rewrite lookup_insert_ne by done. apply lookup_insert_eq. }
  destruct (released_inv _ r2 b2 x5 HI6 E62) as [HI7 Hv7].
  assert (∀ b y, c_blocks (released (released c5 b1 x1) b2 x5) !! b = Some y → b ≠ b1 → b ≠ b2 →
            c_blocks c2 !! b = Some y ∧ c_blocks c !! b = Some y) as Hother.
  { intros b y E Hn Hn'. simpl in E. rewrite !lookup_insert_ne in E by done. split; [done|].
    apply Hold1; [|done]. by apply Hold2. }
  split; simpl.
  - split; [done|simpl; by rewrite (se_lock _ _ He2), (se_lock _ _ He1)| |].
    + intros b y E Hev. unfold clean. simpl. rewrite Hdisk. destruct (decide (b = b2)) as [->|Hn2'].
      { simpl in E. rewrite lookup_insert_eq in E. injection E as <-. simpl. rewrite Hn5, decide_True by done. by rewrite Hx5. }
      destruct (decide (b = b1)) as [->|Hn1'].
      { simpl in E. rewrite lookup_insert_ne, lookup_insert_eq in E by done. injection E as <-. simpl. rewrite Hn1.
        rewrite decide_False by (by intros ?%dev_block_inj). rewrite Hdisk2.
        eapply acquired_clean; [exact HId|exact AP1|exact Ex1|apply Hev]. }
      destruct (Hother b y E Hn1' Hn2') as [Ey2 Ey]. rewrite decide_False; [by apply (Hs2 b y)|].
      intros Heq%dev_block_inj; [|by eapply ci_range|done].
      apply Hn2'. apply (ci_uniq _ _ HI2 b b2 y x2); congruence.
    + intros b y E. destruct (decide (b = b2)) as [->|Hn2'].
      { simpl in E. rewrite lookup_insert_eq in E. injection E as <-. unfold x5. by destruct unpin. }
      destruct (decide (b = b1)) as [->|Hn1'].
      { simpl in E. rewrite lookup_insert_ne, lookup_insert_eq in E by done. by injection E as <-. }
      destruct (Hother b y E Hn1' Hn2') as [_ Ey]. by eapply Hq.
  - lia.
  - rewrite (se_header _ _ He2). apply He1.
  - rewrite (se_log _ _ He2). apply He1.
  - intros n Hn. rewrite Hv7, Hv6, Hv5, Hn2 by done. case_decide; [done|]. by rewrite Hv2, Hv1.
  - intros m. rewrite Hdisk. by rewrite Hdisk2.
  - rewrite Hwr, (se_writes _ _ He2), (se_writes _ _ He1). done.
  - intros n Hp Hun.
    pose proof (acquired_pinned _ _ _ _ _ _ _ HI AP1 Hp) as Hp1.
    destruct (acquired_pinned _ _ _ _ _ _ _ HI1 AP2 Hp1) as (b & y & E & Hy & Hpy).
    destruct (decide (b = b2)) as [->|Hn2'].
    { destruct unpin; [exfalso; apply (Hun eq_refl); congruence|].
      eexists b2, _. split; [simpl; apply lookup_insert_eq|]. simpl. split; [congruence|]. congruence. }
    destruct (decide (b = b1)) as [->|Hn1'].
    { eexists b1, _. split; [simpl; rewrite lookup_insert_ne by done; apply lookup_insert_eq|]. simpl. split; congruence. }
    exists b, y. split; [simpl; by rewrite !lookup_insert_ne by done|done].
  - intros n (b & y & E & Hy). destruct (decide (b = b2)) as [->|Hn2'].
    { simpl in E. rewrite lookup_insert_eq in E. injection E as <-. right; right. simpl in Hy. congruence. }
    destruct (decide (b = b1)) as [->|Hn1'].
    { simpl in E. rewrite lookup_insert_ne, lookup_insert_eq in E by done. injection E as <-.
      right; left. simpl in Hy. congruence. }
    left. exists b, y. split; [|done]. by apply Hother.
Qed.
End copy.

(** ** Sequences of writes *)
Fixpoint apply_writes (f : Z → list Z) (ws : list (Z * list Z)) : Z → list Z :=
  match ws with
  | [] => f
  | (m, v) :: ws' => apply_writes (λ n, if decide (n = m) then v else f n) ws'
  end.

Lemma apply_writes_app f ws ws' n : apply_writes f (ws ++ ws') n = apply_writes (apply_writes f ws) ws' n.
Proof. revert f. induction ws as [|[m v] ws IH]; intros f; simpl; auto. Qed.
Lemma apply_writes_snoc f ws m v n :
  apply_writes f (ws ++ [(m, v)]) n = if decide (n = m) then v else apply_writes f ws n.
Proof. by rewrite apply_writes_app. Qed.
Lemma apply_writes_ext f g ws n : f n = g n → apply_writes f ws n = apply_writes g ws n.
Proof.
  revert f g. induction ws as [|[m v] ws IH]; intros f g Hfg; simpl; [done|]. apply IH. by case_decide.
Qed.
Lemma apply_writes_notin f ws n : n ∉ ws.*1 → apply_writes f ws n = f n.
Proof.
  revert f. induction ws as [|[m v] ws IH]; intros f Hn; simpl in *; [done|].
  rewrite IH by set_solver. rewrite decide_False; [done|]. set_solver.
Qed.
Lemma apply_writes_in f ws n v : NoDup ws.*1 → (n, v) ∈ ws → apply_writes f ws n = v.
Proof.
  revert f. induction ws as [|[m u] ws IH]; intros f Hnd Hin; simpl in *; [by apply elem_of_nil in Hin|].
  apply NoDup_cons in Hnd as [Hm Hnd]. apply elem_of_cons in Hin as [[= -> ->]|Hin]; [|by apply IH].
  rewrite apply_writes_notin by done. by rewrite decide_True.
Qed.

Section loops.
Context {A D : Type} `{ObjectPoolLaws A} `{BlockDeviceLaws D}.
Context (sb : SuperBlock) (me : Z).
Implicit Types (c : Cache A D) (pairs : list (Z * Z)).

Definition to_view c : Z * Z → Z * list Z := λ sd, (sd.2, view c sd.1).
Definition to_disk c : Z * Z → Z * list Z := λ sd, (dev_block sd.2, view c sd.1).

Record looped c R pairs (unpin : bool) c' : Prop := {
  lp_idle : ∃ R', idle c' R' ∧ (R ≤ R' + 2 * length pairs)%nat;
  lp_header : c_header c' = c_header c;
  lp_log : c_log c' = c_log c;
  lp_view : ∀ n, 0 ≤ n < 2 ^ 32 → view c' n = apply_writes (view c) (to_view c <$> pairs) n;
  lp_disk : ∀ m, dev_disk (c_dev c') m = apply_writes (dev_disk (c_dev c)) (to_disk c <$> pairs) m;
  lp_writes : dev_writes (c_dev c') = dev_writes (c_dev c) ++ (to_disk c <$> pairs);
  lp_pinned : unpin = false → ∀ n, pinned_in c n → pinned_in c' n;
  lp_cached : ∀ n, cached c' n → cached c n ∨ n ∈ pairs.*1 ∨ n ∈ pairs.*2
}.

Definition pairs_ok pairs : Prop :=
  (∀ s d, (s, d) ∈ pairs → 0 ≤ s < 2 ^ 32 ∧ 0 ≤ d < 2 ^ 32) ∧ pairs.*1 ## pairs.*2.
Definition pairs_protected c pairs (unpin : bool) : Prop :=
  (unpin = false ∧ ∀ s d, (s, d) ∈ pairs → pinned_in c s ∨ pinned_in c d) ∨
  (NoDup pairs.*1 ∧ ∀ s d, (s, d) ∈ pairs → ¬ cached c s).
Definition body_copies c pairs unpin (body : Z → M (Cache A D) (option unit)) : Prop :=
  ∀ i s d c1, pairs !! i = Some (s, d) → c_header c1 = c_header c →
    ∃ dM, (∀ c2, c_header c2 = c_header c → dM c2 = Ok d c2) ∧
      body (Z.of_nat i) c1 = copy_through me s dM unpin c1.

Lemma looped_step c R pairs unpin c1 s d c2 r :
  looped c R pairs unpin c1 → idle c1 (S (S r)) → (R ≤ S (S r) + 2 * length pairs)%nat →
  0 ≤ s < 2 ^ 32 → s ∉ pairs.*2 →
  (∃ r', copied c1 r s d unpin c2 r') → looped c R (pairs ++ [(s, d)]) unpin c2.
Proof.
  intros HL HI HR Hs Hsd (r' & C). destruct HL as [_ L2 L3 L4 L5 L6 L7 L8].
  destruct C as [C1 C2 C3 C4 C5 C6 C7 C8 C9].
  assert (view c1 s = view c s) as Hvs.
  { rewrite L4 by done. apply apply_writes_notin. rewrite <- list_fmap_compose.
    intros (p & -> & Hp)%list_elem_of_fmap. apply Hsd. apply list_elem_of_fmap. by exists p. }
  split.
  - exists r'. split; [done|]. rewrite length_app. simpl. lia.
  - congruence.
  - congruence.
  - intros n Hn. rewrite C5 by done. rewrite fmap_app. simpl. change (to_view c (s, d)) with (d, view c s).
    rewrite apply_writes_snoc, Hvs. case_decide; [done|]. by apply L4.
  - intros m. rewrite C6. rewrite fmap_app. simpl. change (to_disk c (s, d)) with (dev_block d, view c s).
    rewrite apply_writes_snoc, Hvs. case_decide; [done|]. apply L5.
  - rewrite C7, L6, fmap_app, <- app_assoc, Hvs. done.
  - intros -> n Hp. apply C8; [by apply L7|done].
  - intros n Hc. rewrite !fmap_app. destruct (C9 n Hc) as [Hc'|[-> | ->]]; [|set_solver..].
    destruct (L8 n Hc') as [?|[?|?]]; set_solver.
Qed.

Lemma copy_loop_Ok c R pairs (unpin : bool) (body : Z → M (Cache A D) (option unit)) :
  idle c R → (2 * length pairs ≤ R)%nat → pairs_ok pairs → pairs_protected c pairs unpin →
  body_copies c pairs unpin body →
  wp (for_loop (length pairs) 0 body) (λ _ c', looped c R pairs unpin c') c.
Proof.
  intros HI HR [Hrange Hdisj] Hprot Hbody.
  eapply (wp_for_loop (λ i c', 0 ≤ i ≤ Z.of_nat (length pairs) ∧ looped c R (take (Z.to_nat i) pairs) unpin c')).
  - split; [lia|]. rewrite take_0. split; simpl; try done; [exists R; split; [done|lia]| |by left].
    by rewrite app_nil_r.
  - intros j c1 Hj [_ HL]. assert (∃ i : nat, j = Z.of_nat i) as [i ->] by (exists (Z.to_nat j); lia).
    destruct (lookup_lt_is_Some_2 pairs i ltac:(lia)) as [[s d] Esd].
    pose proof (list_elem_of_lookup_2 _ _ _ Esd) as Hin. destruct (Hrange s d Hin) as [Hs Hd].
    destruct (lp_idle _ _ _ _ _ HL) as (R1 & HI1 & HR1). rewrite Nat2Z.id, length_take in HR1.
    destruct R1 as [|[|r]]; [lia..|].
    destruct (Hbody i s d c1 Esd (lp_header _ _ _ _ _ HL)) as (dM & HdM & Eb).
    assert (∀ k, k ∈ (take i pairs).*2 → k ∈ pairs.*2) as Hsub2.
    { intros k (p & -> & Hp)%list_elem_of_fmap. apply list_elem_of_fmap. exists p. split; [done|].
      by eapply elem_of_take_weaken || (apply elem_of_take in Hp as (? & ? & _); by eapply list_elem_of_lookup_2). }
    assert (s ∈ pairs.*1 ∧ d ∈ pairs.*2) as [Hs1 Hd2].
    { split; apply list_elem_of_fmap; by exists (s, d). }
    assert (cached c1 d ∨ ¬ cached c1 s ∨ pinned_in c1 s) as Hp1.
    { destruct Hprot as [[-> Hpin]|[Hnd Hnc]].
      - destruct (Hpin s d Hin) as [Hps|Hpd]; [right; right|left].
        + by apply (lp_pinned _ _ _ _ _ HL).
        + destruct (lp_pinned _ _ _ _ _ HL eq_refl d Hpd) as (b & y & ? & ? & ?). by exists b, y.
      - right; left. intros [Hc|[Hc|Hc]]%(lp_cached _ _ _ _ _ HL).
        + by eapply Hnc.
        + rewrite Nat2Z.id in Hc. apply list_elem_of_lookup in Hc as (k & Ek).
          assert (k < i)%nat by (apply lookup_lt_Some in Ek; rewrite length_fmap, length_take in Ek; lia).
          rewrite fmap_take, lookup_take_lt in Ek by done.
          assert (pairs.*1 !! i = Some s) as Ei by (by rewrite list_lookup_fmap, Esd).
          pose proof (NoDup_lookup _ _ _ _ Hnd Ek Ei). lia.
        + rewrite Nat2Z.id in Hc. apply Hsub2 in Hc. by apply (Hdisj s). }
    eapply wp_mono.
    { unfold wp. rewrite Eb. apply (copy_through_Ok me c1 r s d dM unpin); try done.
      - intros ->. by apply (Hdisj d).
      - intros c2 E2. apply HdM. rewrite E2. apply HL. }
    intros res c2 [-> Hcp]. split; [lia|]. replace (Z.to_nat (Z.of_nat i + 1)) with (S i) by lia.
    rewrite (take_S_r _ _ _ Esd). rewrite Nat2Z.id in HL.
    eapply looped_step; [exact HL|exact HI1|rewrite length_take; lia|done| |done].
    intros Hc%Hsub2. by apply (Hdisj s).
  - intros c' [_ HL]. rewrite Z.add_0_l, Nat2Z.id, firstn_all in HL. done.
Qed.
End loops.

(** ** The log header on disk *)
Definition word64 (x : Z) : Prop := 0 ≤ x < 2 ^ 64.

Lemma words_le_bytes l : Forall word64 l → words (length l) (l ≫= le_bytes 8) = l.
Proof.
  induction 1 as [|x l Hx Hl IH]; [done|]. rewrite bind_cons. cbn [length words].
  rewrite take_app_length', drop_app_length' by (by rewrite length_le_bytes).
  rewrite IH, le_val_bytes_small; [done|]. exact Hx.
Qed.

Lemma header_round_trip h :
  word64 (lh_num_blocks h) → Forall word64 (lh_block_no h) → length (lh_block_no h) = Z.to_nat LOG_MAX_SIZE →
  header_of_bytes (header_bytes h) = h.
Proof.
  intros Hn Hb Hl. unfold header_of_bytes, header_bytes.
  rewrite take_app_length', drop_app_length' by (by rewrite length_le_bytes).
  rewrite le_val_bytes_small by exact Hn. rewrite <- Hl, words_le_bytes by done. by destruct h.
Qed.

Lemma header_bytes_512 h : length (lh_block_no h) = Z.to_nat LOG_MAX_SIZE → bytes512 (header_bytes h).
Proof.
  intros Hl. unfold header_bytes. split.
  - rewrite length_app, length_le_bytes, length_bind_le_bytes, Hl. done.
  - apply Forall_app. split; [apply le_bytes_range|]. apply Forall_bind_le_bytes.
Qed.

(** ** Commit *)
Section commit.
Context {A D : Type} `{ObjectPoolLaws A} `{BlockDeviceLaws D}.
Context (sb : SuperBlock) (me : Z).
Implicit Types (c : Cache A D) (h : LogHeader).

Definition entries h : list Z := take (Z.to_nat (lh_num_blocks h)) (lh_block_no h).
(** The log block of entry [i]. *)
Definition log_no (i : nat) : Z := sb_log_start sb + Z.of_nat i + 1.
Definition in_log (n : Z) : Prop := sb_log_start sb ≤ n < sb_log_start sb + sb_num_log_blocks sb.

(** The disk layout: the log area lies inside the first sectors, before the
    partition, where the header is written. *)
Definition layout_ok : Prop :=
  0 ≤ sb_log_start sb ∧ 0 < sb_num_log_blocks sb ∧ sb_log_start sb + sb_num_log_blocks sb ≤ 0x20800.

Record log_ok h : Prop := {
  lo_num : 0 ≤ lh_num_blocks h ≤ LOG_MAX_SIZE;
  lo_fits : lh_num_blocks h < sb_num_log_blocks sb;
  lo_len : length (lh_block_no h) = Z.to_nat LOG_MAX_SIZE;
  lo_words : Forall word64 (lh_block_no h);
  lo_nodup : NoDup (entries h);
  lo_entries : Forall (λ e, 0 ≤ e < 2 ^ 32 ∧ ¬ in_log e) (entries h)
}.

Definition write_pairs h : list (Z * Z) := imap (λ i e, (e, log_no i)) (entries h).
Definition install_pairs h : list (Z * Z) := imap (λ i e, (log_no i, e)) (entries h).

Lemma length_entries h : log_ok h → length (entries h) = Z.to_nat (lh_num_blocks h).
Proof.
  intros [H1' _ H3' _ _ _]. unfold entries. rewrite length_take, H3'. unfold LOG_MAX_SIZE, BLOCK_SIZE in *. lia.
Qed.

Lemma entries_lookup h i e :
  entries h !! i = Some e → lh_block_no h !! i = Some e ∧ (i < Z.to_nat (lh_num_blocks h))%nat.
Proof. unfold entries. intros [? ?]%lookup_take_Some. done. Qed.

Lemma log_no_in_log h i : layout_ok → log_ok h → (i < Z.to_nat (lh_num_blocks h))%nat →
  in_log (log_no i) ∧ 0 ≤ log_no i < 2 ^ 32 ∧ u32 (sb_log_start sb + Z.of_nat i + 1) = log_no i.
Proof.
  intros (L1 & L2 & L3) [H1' H2' _ _ _ _] Hi. unfold in_log, log_no.
  assert (Z.of_nat i < lh_num_blocks h) by lia. split; [lia|]. split; [lia|]. apply u32_small. lia.
Qed.

Lemma elem_write_pairs h s d : (s, d) ∈ write_pairs h ↔ ∃ i, entries h !! i = Some s ∧ d = log_no i.
Proof.
  unfold write_pairs. rewrite elem_of_lookup_imap. split.
  - intros (i & e & [= -> ->] & E). eauto.
  - intros (i & E & ->). by exists i, s.
Qed.
Lemma elem_install_pairs h s d : (s, d) ∈ install_pairs h ↔ ∃ i, entries h !! i = Some d ∧ s = log_no i.
Proof.
  unfold install_pairs. rewrite elem_of_lookup_imap. split.
  - intros (i & e & [= -> ->] & E). eauto.
  - intros (i & E & ->). by exists i, d.
Qed.

Lemma entry_ok h i e : log_ok h → entries h !! i = Some e → 0 ≤ e < 2 ^ 32 ∧ ¬ in_log e.
Proof. intros HO E. eapply (Forall_lookup_1 _ _ _ _ (lo_entries _ HO)) in E. done. Qed.

Lemma write_pairs_ok h : layout_ok → log_ok h → pairs_ok (write_pairs h).
Proof.
  intros HL HO. split.
  - intros s d (i & E & ->)%elem_write_pairs. pose proof (entry_ok _ _ _ HO E) as [? _].
    pose proof (log_no_in_log h i HL HO) as Hi. destruct Hi; [by apply entries_lookup in E as [_ ?]|]. lia.
  - intros n ([s d] & -> & (i & E & Hd)%elem_write_pairs)%list_elem_of_fmap
             ([s' d'] & Hs & (j & E' & Hd')%elem_write_pairs)%list_elem_of_fmap. simpl in *. subst d' s.
    apply entries_lookup in E' as [_ Hj]. destruct (log_no_in_log h j HL HO Hj) as [Hlog _].
    by apply (entry_ok _ _ _ HO E).
Qed.
Lemma install_pairs_ok h : layout_ok → log_ok h → pairs_ok (install_pairs h).
Proof.
  intros HL HO. split.
  - intros s d (i & E & ->)%elem_install_pairs. pose proof (entry_ok _ _ _ HO E) as [? _].
    pose proof (log_no_in_log h i HL HO) as Hi. destruct Hi; [by apply entries_lookup in E as [_ ?]|]. lia.
  - intros n ([s d] & -> & (i & E & Hd)%elem_install_pairs)%list_elem_of_fmap
             ([s' d'] & Hs & (j & E' & Hd')%elem_install_pairs)%list_elem_of_fmap. simpl in *. subst s s' d'.
    apply entries_lookup in E as [_ Hi]. destruct (log_no_in_log h i HL HO Hi) as [Hlog _].
    by apply (entry_ok _ _ _ HO E').
Qed.

Lemma write_body h c : layout_ok → log_ok h → c_header c = h →
  body_copies me c (write_pairs h) false (write_log_one sb me).
Proof.
  intros HL HO Hh i s d c1 Ei Hc1.
  assert (entries h !! i = Some s ∧ d = log_no i) as [E ->].
  { unfold write_pairs in Ei. rewrite list_lookup_imap in Ei. destruct (entries h !! i); simplify_eq/=. done. }
  pose proof (entries_lookup _ _ _ E) as [El Hi].
  destruct (log_no_in_log h i HL HO Hi) as (_ & _ & Hu).
  exists (mret (u32 (sb_log_start sb + Z.of_nat i + 1)) : M (Cache A D) Z). split; [by rewrite Hu|].
  apply write_log_one_copy. unfold log_block_no. erewrite bind_Ok by done.
  rewrite Hc1, Hh, Nat2Z.id, El. done.
Qed.
Lemma install_body h c unpin : layout_ok → log_ok h → c_header c = h →
  body_copies me c (install_pairs h) unpin (install_one sb me unpin).
Proof.
  intros HL HO Hh i s d c1 Ei Hc1.
  assert (entries h !! i = Some d ∧ s = log_no i) as [E ->].
  { unfold install_pairs in Ei. rewrite list_lookup_imap in Ei. destruct (entries h !! i); simplify_eq/=. done. }
  pose proof (entries_lookup _ _ _ E) as [El Hi].
  destruct (log_no_in_log h i HL HO Hi) as (_ & _ & Hu).
  exists (log_block_no (Z.of_nat i)). split.
  - intros c2 Hc2. unfold log_block_no. erewrite bind_Ok by done. by rewrite Hc2, Hh, Nat2Z.id, El.
  - rewrite install_one_copy. by rewrite Hu.
Qed.

Lemma idle_set_header c R h : idle c R → idle (set_c_header h c) R ∧ ∀ n, view (set_c_header h c) n = view c n.
Proof. intros [[] ? ? ?]. split; [|done]. by split. Qed.

Lemma idle_set_dev c R d' :
  idle c R → dev_ok d' →
  (∀ n, 0 ≤ n < 2 ^ 32 → dev_disk d' (dev_block n) = dev_disk (c_dev c) (dev_block n)) →
  idle (set_c_dev d' c) R ∧ ∀ n, 0 ≤ n < 2 ^ 32 → view (set_c_dev d' c) n = view c n.
Proof.
  intros [HI Hlk Hs Hq] Hd Hdisk. pose proof (set_dev_inv c R d' HI Hd) as HI'. split.
  - split; try done. intros b y E Hev. unfold clean. simpl. rewrite Hdisk by (by eapply ci_range). by apply (Hs b y).
  - intros n Hn. destruct (find_addr_cases c R n HI) as [(p & z & _ & Ez & <-)|(_ & Hno)].
    + rewrite (view_hit c R p z) by done. by apply (view_hit _ R p z HI').
    + rewrite (view_miss c R n HI Hno), (view_miss _ R n HI' Hno). simpl. by apply Hdisk.
Qed.

Lemma header_sector n : layout_ok → 0 ≤ n < 2 ^ 32 → dev_block n ≠ sb_log_start sb.
Proof. intros (L1 & L2 & L3) Hn. rewrite dev_block_small by done. lia. Qed.

Lemma write_header_Ok c R :
  layout_ok → idle c R → length (lh_block_no (c_header c)) = Z.to_nat LOG_MAX_SIZE →
  ∃ d', write_header sb c = Ok () (set_c_dev d' c) ∧ idle (set_c_dev d' c) R ∧
    (∀ n, 0 ≤ n < 2 ^ 32 → view (set_c_dev d' c) n = view c n) ∧
    (∀ m, dev_disk d' m = if decide (m = sb_log_start sb) then header_bytes (c_header c) else dev_disk (c_dev c) m) ∧
    dev_writes d' = dev_writes (c_dev c) ++ [(sb_log_start sb, header_bytes (c_header c))].
Proof.
  intros HL HId Hlen. destruct (header_bytes_512 (c_header c) Hlen) as [Hl Hb].
  pose proof (dev_write_spec (c_dev c) (sb_log_start sb) _ (ci_dev _ _ (id_inv _ _ HId)) Hl Hb)
    as ([] & d' & Ew & Hok & Hdisk & Hwr)%wp_Ok.
  destruct (idle_set_dev c R d' HId Hok) as [HI' Hv'].
  { intros n Hn. rewrite Hdisk, decide_False; [done|]. by apply header_sector. }
  exists d'. split_and!; try done. unfold write_header. erewrite bind_Ok by done. by apply zoom_Ok.
Qed.

(** What [commit] writes, in order. *)
Definition zero_header h : LogHeader := {| lh_num_blocks := 0; lh_block_no := lh_block_no h |}.
Definition log_writes c : list (Z * list Z) := to_disk c <$> write_pairs (c_header c).
Definition install_writes c : list (Z * list Z) := (λ e, (dev_block e, view c e)) <$> entries (c_header c).
Definition commit_writes c : list (Z * list Z) :=
  log_writes c ++ [(sb_log_start sb, header_bytes (c_header c))] ++
  install_writes c ++ [(sb_log_start sb, header_bytes (zero_header (c_header c)))].

Lemma write_log_Ok c R :
  layout_ok → log_ok (c_header c) → idle c R → (2 * length (entries (c_header c)) ≤ R)%nat →
  (∀ e, e ∈ entries (c_header c) → pinned_in c e) →
  wp (write_log sb me) (λ _ c', looped c R (write_pairs (c_header c)) false c') c.
Proof.
  intros HL HO HId HR Hpin. unfold write_log. apply wp_bind. unfold wp at 1, gets. apply wp_bind.
  rewrite <- (length_entries _ HO). rewrite <- (length_imap (λ i e, (e, log_no i)) (entries (c_header c))).
  eapply wp_mono.
  - apply (copy_loop_Ok me c R (write_pairs (c_header c)) false); [done| | | |].
    + unfold write_pairs. by rewrite length_imap.
    + by apply write_pairs_ok.
    + left. split; [done|]. intros s d (i & E & _)%elem_write_pairs. left. apply Hpin. by eapply list_elem_of_lookup_2.
    + by apply write_body.
  - intros r c' Hlp. by apply wp_ret.
Qed.

Lemma install_trans_Ok c R (unpin : bool) :
  layout_ok → log_ok (c_header c) → idle c R → (2 * length (entries (c_header c)) ≤ R)%nat →
  (unpin = false ∧ (∀ e, e ∈ entries (c_header c) → pinned_in c e)) ∨ (∀ n, in_log n → ¬ cached c n) →
  wp (install_trans sb me unpin) (λ _ c', looped c R (install_pairs (c_header c)) unpin c') c.
Proof.
  intros HL HO HId HR Hprot. unfold install_trans. apply wp_bind. unfold wp at 1, gets. apply wp_bind.
  rewrite <- (length_entries _ HO). rewrite <- (length_imap (λ i e, (log_no i, e)) (entries (c_header c))).
  eapply wp_mono.
  - apply (copy_loop_Ok me c R (install_pairs (c_header c)) unpin); [done| | | |].
    + unfold install_pairs. by rewrite length_imap.
    + by apply install_pairs_ok.
    + destruct Hprot as [[-> Hpin]|Hnc]; [left|right]; split; [done| | |].
      * intros s d (i & E & _)%elem_install_pairs. right. apply Hpin. by eapply list_elem_of_lookup_2.
      * unfold install_pairs. rewrite fmap_imap. apply NoDup_alt.
        intros i j x (y & _ & ->)%list_lookup_imap_Some (z & _ & Hz)%list_lookup_imap_Some.
        unfold log_no in Hz. simpl in Hz. lia.
      * intros s d (i & E & ->)%elem_install_pairs. apply Hnc.
        apply entries_lookup in E as [_ Hi]. by apply (log_no_in_log (c_header c)).
    + by apply install_body.
  - intros r c' Hlp. by apply wp_ret.
Qed.

Lemma install_pairs_NoDup c h : log_ok h → NoDup (to_view c <$> install_pairs h).*1.
Proof.
  intros HO. unfold install_pairs. rewrite !fmap_imap. apply NoDup_alt.
  intros i j x (y & Ey & ->)%list_lookup_imap_Some (z & Ez & Hz)%list_lookup_imap_Some.
  simpl in Hz. subst z. by eapply NoDup_lookup; [apply HO|..].
Qed.

(** After [write_log] the log blocks hold the content of their entries. *)
Lemma logged_view c R c1 i e :
  layout_ok → log_ok (c_header c) → looped c R (write_pairs (c_header c)) false c1 →
  entries (c_header c) !! i = Some e → view c1 (log_no i) = view c e.
Proof.
  intros HL HO HLp E. pose proof (entries_lookup _ _ _ E) as [_ Hi].
  destruct (log_no_in_log _ _ HL HO Hi) as (_ & Hr & _).
  rewrite (lp_view _ _ _ _ _ HLp) by done. apply apply_writes_in.
  - unfold write_pairs. rewrite !fmap_imap. apply NoDup_alt.
    intros k j x (y & _ & ->)%list_lookup_imap_Some (z & _ & Hz)%list_lookup_imap_Some.
    unfold log_no in Hz. simpl in Hz. lia.
  - apply list_elem_of_fmap. exists (e, log_no i). split; [done|]. apply elem_write_pairs. by exists i.
Qed.

Lemma install_writes_eq c R c1 c2 :
  layout_ok → log_ok (c_header c) → looped c R (write_pairs (c_header c)) false c1 →
  (∀ n, 0 ≤ n < 2 ^ 32 → view c2 n = view c1 n) →
  to_disk c2 <$> install_pairs (c_header c) = install_writes c.
Proof.
  intros HL HO HLp Hv. unfold install_writes, install_pairs. rewrite fmap_imap.
  apply list_eq. intros i. rewrite list_lookup_imap, list_lookup_fmap.
  destruct (entries (c_header c) !! i) as [e|] eqn:E; [|done]. simpl. unfold to_disk. simpl.
  pose proof (entries_lookup _ _ _ E) as [_ Hi]. destruct (log_no_in_log _ _ HL HO Hi) as (_ & Hr & _).
  rewrite Hv by done. by erewrite logged_view by done.
Qed.

Record committed c c' : Prop := {
  cm_idle : ∃ R', idle c' R';
  cm_header : c_header c' = zero_header (c_header c);
  cm_log : c_log c' = c_log c;
  cm_view : ∀ n, 0 ≤ n < 2 ^ 32 → ¬ in_log n → view c' n = view c n;
  cm_disk : ∀ m, dev_disk (c_dev c') m = apply_writes (dev_disk (c_dev c)) (commit_writes c) m;
  cm_writes : dev_writes (c_dev c') = dev_writes (c_dev c) ++ commit_writes c;
  cm_pinned : ∀ n, pinned_in c n → pinned_in c' n
}.

Lemma commit_Ok c R :
  layout_ok → log_ok (c_header c) → idle c R → (4 * length (entries (c_header c)) ≤ R)%nat →
  (∀ e, e ∈ entries (c_header c) → pinned_in c e) → 0 < lh_num_blocks (c_header c) →
  wp (commit sb me) (λ _ c', committed c c') c.
Proof.
  intros HL HO HId HR Hpin Hnum. pose proof (length_entries _ HO) as Hlen.
  unfold commit. apply wp_bind. unfold wp at 1, gets. destruct (Z.ltb_spec 0 (lh_num_blocks (c_header c))); [|lia].
  apply wp_bind. eapply wp_mono; [apply (write_log_Ok c R); try done; lia|]. intros ? c1 L1.
  destruct (lp_idle _ _ _ _ _ L1) as (R1 & HI1 & HR1). unfold write_pairs in HR1. rewrite length_imap in HR1.
  destruct (write_header_Ok c1 R1 HL HI1) as (d2 & E2 & HI2 & Hv2 & Hd2 & Hw2).
  { rewrite (lp_header _ _ _ _ _ L1). apply HO. }
  rewrite (lp_header _ _ _ _ _ L1) in Hd2, Hw2.
  apply wp_bind. eapply wp_of_Ok; [exact E2|]. cbn beta. set (c2 := set_c_dev d2 c1) in *.
  assert (c_header c2 = c_header c) as Hh2 by (apply (lp_header _ _ _ _ _ L1)).
  apply wp_bind. eapply wp_mono.
  { apply (install_trans_Ok c2 R1 false); rewrite ?Hh2; try done; [lia|]. left. split; [done|].
    intros e He. apply (lp_pinned _ _ _ _ _ L1); auto. }
  intros ? c3 L3. rewrite Hh2 in L3.
  pose proof (install_writes_eq c R c1 c2 HL HO L1 Hv2) as HIW.
  destruct (lp_idle _ _ _ _ _ L3) as (R3 & HI3 & _).
  apply wp_bind. unfold set_num_blocks, wp at 1, modify. rewrite (lp_header _ _ _ _ _ L3), Hh2.
  change {| lh_num_blocks := 0; lh_block_no := lh_block_no (c_header c) |} with (zero_header (c_header c)).
  destruct (idle_set_header c3 R3 (zero_header (c_header c)) HI3) as [HI4 Hv4].
  set (c4 := set_c_header (zero_header (c_header c)) c3) in *.
  destruct (write_header_Ok c4 R3 HL HI4) as (d5 & E5 & HI5 & Hv5 & Hd5 & Hw5); [apply HO|].
  eapply wp_of_Ok; [exact E5|]. split; try done.
  - eauto.
  - simpl. rewrite (lp_log _ _ _ _ _ L3). apply L1.
  - intros n Hn Hnl. rewrite Hv5, Hv4 by done. rewrite (lp_view _ _ _ _ _ L3) by done.
    assert (∀ i, n ≠ log_no i ∨ ¬ (i < Z.to_nat (lh_num_blocks (c_header c)))%nat) as Hnlog.
    { intros i. destruct (decide (i < Z.to_nat (lh_num_blocks (c_header c)))%nat) as [Hi|]; [left|by right].
      intros ->. by destruct (log_no_in_log _ _ HL HO Hi) as [? _]. }
    assert (view c1 n = view c n) as Hv1.
    { rewrite (lp_view _ _ _ _ _ L1) by done. apply apply_writes_notin. rewrite <- list_fmap_compose.
      intros ([s d] & -> & (i & E & ->)%elem_write_pairs)%list_elem_of_fmap.
      destruct (Hnlog i) as [?|Hi]; [done|]. by apply entries_lookup in E as [_ ?]. }
    destruct (decide (n ∈ entries (c_header c))) as [Hin|Hin].
    + apply list_elem_of_lookup in Hin as [i E].
      replace (view c n) with (view c2 (log_no i)).
      2:{ pose proof (entries_lookup _ _ _ E) as [_ Hi]. destruct (log_no_in_log _ _ HL HO Hi) as (_ & Hr & _).
          rewrite Hv2 by done. exact (logged_view c R c1 i n HL HO L1 E). }
      apply apply_writes_in.
      * by apply install_pairs_NoDup.
      * apply list_elem_of_fmap. exists (log_no i, n). split; [done|]. apply elem_install_pairs. by exists i.
    + rewrite apply_writes_notin; [by rewrite Hv2|]. rewrite <- list_fmap_compose.
      intros ([s d] & -> & (i & E & ->)%elem_install_pairs)%list_elem_of_fmap.
      apply Hin. by eapply list_elem_of_lookup_2.
  - intros m. simpl. rewrite Hd5. unfold commit_writes. rewrite !app_assoc, apply_writes_snoc.
    case_decide; [done|]. simpl. rewrite (lp_disk _ _ _ _ _ L3), HIW, apply_writes_app.
    apply apply_writes_ext. simpl. rewrite Hd2, apply_writes_snoc. case_decide; [done|]. apply L1.
  - simpl. rewrite Hw5. simpl. rewrite (lp_writes _ _ _ _ _ L3), HIW. simpl. rewrite Hw2, (lp_writes _ _ _ _ _ L1).
    unfold commit_writes, log_writes. by rewrite <- !app_assoc.
  - intros n Hp. apply (lp_pinned _ _ _ _ _ L3 eq_refl n), (lp_pinned _ _ _ _ _ L1 eq_refl n), Hp.
Qed.

(** *** Recovery *)
Lemma words_wf n l : Forall (λ b, 0 ≤ b < 256) l → length (words n l) = n ∧ Forall word64 (words n l).
Proof.
  revert l. induction n as [|n IH]; intros l Hl; [done|]. cbn [words length].
  destruct (IH (drop 8 l)) as [IH1 IH2]; [by apply Forall_drop|]. split; [by rewrite IH1|]. constructor; [|done].
  assert (Forall (λ b, 0 ≤ b < 256) (take 8 l)) as Ht by (by apply Forall_take).
  pose proof (le_val_range _ Ht) as Hr. unfold word64. split; [lia|].
  assert (256 ^ Z.of_nat (length (take 8 l)) ≤ 256 ^ 8); [|lia].
  apply Z.pow_le_mono_r; [lia|]. rewrite length_take. lia.
Qed.

Lemma header_of_bytes_empty l :
  bytes512 l → lh_num_blocks (header_of_bytes l) = 0 → 0 < sb_num_log_blocks sb → log_ok (header_of_bytes l).
Proof.
  intros [_ Hb] Hn Hs. destruct (words_wf (Z.to_nat LOG_MAX_SIZE) (drop 8 l)) as [Hl Hw]; [by apply Forall_drop|].
  assert (entries (header_of_bytes l) = []) as He by (unfold entries; by rewrite Hn).
  split; rewrite ?Hn, ?He; try done; constructor.
Qed.

(** What clients see and what is on disk agree. *)
Definition cold c : Prop := ∀ n, 0 ≤ n < 2 ^ 32 → view c n = dev_disk (c_dev c) (dev_block n).

Lemma apply_disk_view (f : Z → list Z) (g : Z → list Z) c pairs n :
  (∀ s d, (s, d) ∈ pairs → 0 ≤ d < 2 ^ 32) → 0 ≤ n < 2 ^ 32 → f (dev_block n) = g n →
  apply_writes f (to_disk c <$> pairs) (dev_block n) = apply_writes g (to_view c <$> pairs) n.
Proof.
  revert f g. induction pairs as [|[s d] pairs IH]; intros f g Hr Hn Hfg; simpl; [done|].
  apply IH; [intros s' d' Hin; eapply Hr, elem_of_cons; by right|done|].
  cbn beta. destruct (decide (n = d)) as [->|Hne]; [by rewrite decide_True|].
  rewrite decide_False; [done|].
  intros ?%dev_block_inj; [done..|]. eapply (Hr s), elem_of_cons. by left.
Qed.

Lemma recover_Ok c R :
  let h := header_of_bytes (dev_disk (c_dev c) (sb_log_start sb)) in
  layout_ok → log_ok h → idle c R → (2 * length (entries h) ≤ R)%nat → (∀ n, ¬ cached c n) →
  wp (recover_from_log sb me) (λ _ c', (∃ R', idle c' R') ∧ c_header c' = zero_header h ∧ c_log c' = c_log c ∧
    cold c' ∧ ∀ n, 0 ≤ n < 2 ^ 32 → view c' n = apply_writes (view c) (to_view c <$> install_pairs h) n) c.
Proof.
  intros h HL HO HId HR Hcold. unfold recover_from_log.
  pose proof (dev_read_spec (c_dev c) (sb_log_start sb) (ci_dev _ _ (id_inv _ _ HId))) as (v & d1 & Er & Hd1 & Hv & Hdk & _)%wp_Ok.
  unfold read_header. apply wp_bind, wp_bind. eapply wp_of_Ok; [by apply zoom_Ok|]. cbn beta. unfold wp at 1, modify.
  subst v. fold h.
  destruct (idle_set_dev c R d1 HId Hd1) as [HI1 Hv1]; [by intros; rewrite Hdk|].
  destruct (idle_set_header (set_c_dev d1 c) R h HI1) as [HI2 Hv2].
  set (c2 := set_c_header h (set_c_dev d1 c)) in *.
  assert (∀ n, 0 ≤ n < 2 ^ 32 → view c2 n = view c n) as Hvc by (intros; by rewrite Hv2, Hv1).
  apply wp_bind. eapply wp_mono; [apply (install_trans_Ok c2 R true); try done; right; intros n _; exact (Hcold n)|].
  intros ? c3 L3. destruct (lp_idle _ _ _ _ _ L3) as (R3 & HI3 & _).
  apply wp_bind. unfold set_num_blocks, wp at 1, modify. rewrite (lp_header _ _ _ _ _ L3).
  change {| lh_num_blocks := 0; lh_block_no := lh_block_no (c_header c2) |} with (zero_header h).
  destruct (idle_set_header c3 R3 (zero_header h) HI3) as [HI4 Hv4].
  set (c4 := set_c_header (zero_header h) c3) in *.
  destruct (write_header_Ok c4 R3 HL HI4) as (d5 & E5 & HI5 & Hv5 & Hd5 & Hw5); [apply HO|].
  eapply wp_of_Ok; [exact E5|].
  assert (to_view c2 <$> install_pairs h = to_view c <$> install_pairs h) as Hpairs.
  { apply list_fmap_ext. intros i [s d] E. unfold to_view. simpl. f_equal. apply Hvc.
    apply list_elem_of_lookup_2 in E. by apply (proj1 (install_pairs_ok h HL HO) s d). }
  assert (∀ n, 0 ≤ n < 2 ^ 32 → view (set_c_dev d5 c4) n = apply_writes (view c) (to_view c <$> install_pairs h) n) as Hview.
  { intros n Hn. rewrite Hv5, Hv4, (lp_view _ _ _ _ _ L3) by done. change (c_header c2) with h. rewrite Hpairs.
    apply apply_writes_ext. by apply Hvc. }
  split; [eauto|]. split; [done|]. split; [exact (lp_log _ _ _ _ _ L3)|]. split; [|exact Hview].
  intros n Hn. rewrite Hview by done. simpl. rewrite Hd5, decide_False by (by apply header_sector).
  simpl. rewrite (lp_disk _ _ _ _ _ L3). change (c_header c2) with h. symmetry.
  rewrite <- Hpairs. apply apply_disk_view; [|done|].
  - intros s d Hin. by apply (proj1 (install_pairs_ok h HL HO) s d).
  - simpl. rewrite Hdk. symmetry. eapply view_miss; [apply HId|]. intros b y E Hy. apply (Hcold n). by exists b, y.
Qed.

(** *** Power-on *)
Record boot c (R : nat) : Prop := {
  bt_blocks : c_blocks c = ∅;
  bt_pool : op_fresh (c_arena c) R;
  bt_room : Z.of_nat R < 2 ^ 64;
  bt_dev : dev_ok (c_dev c)
}.

Lemma init_bcache_Ok c R :
  let h := header_of_bytes (dev_disk (c_dev c) (sb_log_start sb)) in
  layout_ok → log_ok h → boot c R → (2 * length (entries h) ≤ R)%nat →
  wp (init_bcache sb me) (λ _ c', (∃ R', idle c' R') ∧ c_header c' = zero_header h ∧ cold c' ∧
    log_mx (c_log c') = Z.min (u32 (sb_num_log_blocks sb - 1)) LOG_MAX_SIZE ∧ log_mu (c_log c') = 0 ∧
    ∀ n, 0 ≤ n < 2 ^ 32 → view c' n =
      apply_writes (λ n, dev_disk (c_dev c) (dev_block n))
        (imap (λ i e, (e, dev_disk (c_dev c) (dev_block (log_no i)))) (entries h)) n) c.
Proof.
  intros h HL HO [Hb Hp Hroom Hd] HR. unfold init_bcache.
  apply wp_bind. unfold wp at 1, modify. apply wp_bind. unfold wp at 1, modify.
  pose proof (op_init_spec _ _ Hp) as ([] & a' & Ea & Ha)%wp_Ok.
  apply wp_bind. eapply wp_of_Ok; [by apply zoom_Ok|]. cbn beta.
  do 3 (apply wp_bind; unfold upd_log, wp at 1, modify).
  match goal with |- wp _ _ ?s => set (c0 := s) end.
  assert (c_blocks c0 = ∅) as Hb0 by exact Hb.
  assert (idle c0 R) as HI0.
  { split; [split|..]; simpl; rewrite ?Hb; try done; try (intros * ?%lookup_empty_Some; done).
    - constructor.
    - intros b. rewrite lookup_empty. split; [by intros ?%elem_of_nil|by intros []].
    - intros b x. rewrite Hb0. by intros ?%lookup_empty_Some.
    - intros b x. rewrite Hb0. by intros ?%lookup_empty_Some. }
  assert (∀ n, ¬ cached c0 n) as Hnc.
  { intros n (b & y & E & _). rewrite Hb0 in E. by apply lookup_empty_Some in E. }
  assert (∀ n, view c0 n = dev_disk (c_dev c) (dev_block n)) as Hv0.
  { intros n. apply (view_miss c0 R); [apply HI0|]. intros b y E Hy. apply (Hnc n). by exists b, y. }
  eapply wp_mono; [by apply (recover_Ok c0 R)|]. simpl. fold h.
  intros ? c' (HI' & Hh & Hlog & Hc & Hv). split_and!; try done; [by rewrite Hlog..|].
  intros n Hn. rewrite Hv by done. unfold install_pairs. rewrite fmap_imap.
  rewrite (apply_writes_ext _ (λ n, dev_disk (c_dev c) (dev_block n))) by apply Hv0.
  apply (f_equal (λ l, apply_writes _ l n)), imap_ext. intros i e _. unfold to_view. simpl. by rewrite Hv0.
Qed.

(** *** Crashes during [commit] *)
Definition logged c : nat := length (entries (c_header c)).
Definition crash_disk c (k : nat) : Z → list Z :=
  apply_writes (dev_disk (c_dev c)) (take k (commit_writes c)).
(** What recovery makes of a disk. *)
Definition recovered (g : Z → list Z) : Z → list Z :=
  apply_writes (λ n, g (dev_block n))
    (imap (λ i e, (e, g (dev_block (log_no i)))) (entries (header_of_bytes (g (sb_log_start sb))))).
(** Either nothing of the transaction or all of it. *)
Definition old_content c (bn : Z) : list Z := dev_disk (c_dev c) (dev_block bn).
Definition new_content c (bn : Z) : list Z :=
  if decide (bn ∈ entries (c_header c)) then view c bn else old_content c bn.

Lemma elem_log_writes c n : n ∈ (log_writes c).*1 → ∃ i e, entries (c_header c) !! i = Some e ∧ n = dev_block (log_no i).
Proof.
  unfold log_writes. rewrite <- list_fmap_compose.
  intros ([s d] & -> & (i & E & ->)%elem_write_pairs)%list_elem_of_fmap. eauto.
Qed.
Lemma elem_install_writes c n : n ∈ (install_writes c).*1 → ∃ e, e ∈ entries (c_header c) ∧ n = dev_block e.
Proof. unfold install_writes. rewrite <- list_fmap_compose. intros (e & -> & He)%list_elem_of_fmap. eauto. Qed.

Lemma fst_take {X Y} k (l : list (X * Y)) n : n ∈ (take k l).*1 → n ∈ l.*1.
Proof. rewrite fmap_take. intros Hn. apply elem_of_take in Hn as (i & E & _). by eapply list_elem_of_lookup_2. Qed.

Lemma log_writes_other c g k n :
  layout_ok → log_ok (c_header c) → 0 ≤ n < 2 ^ 32 → ¬ in_log n →
  apply_writes g (take k (log_writes c)) (dev_block n) = g (dev_block n).
Proof.
  intros HL HO Hn Hl. apply apply_writes_notin. intros (i & e & E & Heq)%fst_take%elem_log_writes.
  apply entries_lookup in E as [_ Hi]. destruct (log_no_in_log _ _ HL HO Hi) as (Hlog & Hr & _).
  apply dev_block_inj in Heq; [by subst|done..].
Qed.
Lemma log_writes_header c g k :
  layout_ok → log_ok (c_header c) → apply_writes g (take k (log_writes c)) (sb_log_start sb) = g (sb_log_start sb).
Proof.
  intros HL HO. apply apply_writes_notin. intros (i & e & E & Heq)%fst_take%elem_log_writes.
  apply entries_lookup in E as [_ Hi]. destruct (log_no_in_log _ _ HL HO Hi) as (Hlog & Hr & _).
  by eapply header_sector.
Qed.
Lemma install_writes_header c g k :
  layout_ok → log_ok (c_header c) → apply_writes g (take k (install_writes c)) (sb_log_start sb) = g (sb_log_start sb).
Proof.
  intros HL HO. apply apply_writes_notin. intros (e & [i E]%list_elem_of_lookup & Heq)%fst_take%elem_install_writes.
  destruct (entry_ok _ _ _ HO E). by eapply header_sector.
Qed.
Lemma install_writes_at c g n :
  log_ok (c_header c) → 0 ≤ n < 2 ^ 32 →
  apply_writes g (install_writes c) (dev_block n) =
    if decide (n ∈ entries (c_header c)) then view c n else g (dev_block n).
Proof.
  intros HO Hn. case_decide as Hin.
  - apply apply_writes_in.
    + unfold install_writes. rewrite <- list_fmap_compose. apply NoDup_fmap_2_strong; [|apply HO].
      intros x y [i Ex]%list_elem_of_lookup [j Ey]%list_elem_of_lookup Heq. simpl in Heq.
      apply dev_block_inj in Heq; [done|by eapply entry_ok..].
    + apply list_elem_of_fmap. by exists n.
  - apply apply_writes_notin. intros (e & He & Heq)%elem_install_writes.
    pose proof He as [i E]%list_elem_of_lookup. apply dev_block_inj in Heq; [by subst|done|by eapply entry_ok].
Qed.
Lemma install_writes_prefix c g k n :
  log_ok (c_header c) → 0 ≤ n < 2 ^ 32 → n ∉ entries (c_header c) →
  apply_writes g (take k (install_writes c)) (dev_block n) = g (dev_block n).
Proof.
  intros HO Hn Hin. apply apply_writes_notin. intros (e & He & Heq)%fst_take%elem_install_writes.
  pose proof He as [i E]%list_elem_of_lookup. apply dev_block_inj in Heq; [by subst|done|by eapply entry_ok].
Qed.
Lemma log_writes_at c g i e :
  layout_ok → log_ok (c_header c) → entries (c_header c) !! i = Some e →
  apply_writes g (log_writes c) (dev_block (log_no i)) = view c e.
Proof.
  intros HL HO E. apply apply_writes_in.
  - unfold log_writes, write_pairs. rewrite !fmap_imap. apply NoDup_alt.
    intros k j x (y & Ey & ->)%list_lookup_imap_Some (z & Ez & Hz)%list_lookup_imap_Some. simpl in Hz.
    apply entries_lookup in Ey as [_ Hk]. apply entries_lookup in Ez as [_ Hj].
    destruct (log_no_in_log _ _ HL HO Hk) as (_ & ? & _). destruct (log_no_in_log _ _ HL HO Hj) as (_ & ? & _).
    apply dev_block_inj in Hz; [|done..]. unfold log_no in Hz. lia.
  - apply list_elem_of_fmap. exists (e, log_no i). split; [done|]. apply elem_write_pairs. by exists i.
Qed.

Lemma zero_header_round h : log_ok h →
  header_of_bytes (header_bytes h) = h ∧ header_of_bytes (header_bytes (zero_header h)) = zero_header h ∧
  log_ok (zero_header h) ∧ entries (zero_header h) = [].
Proof.
  intros HO. pose proof HO as [H1' H2' H3' H4' H5' H6']. change LOG_MAX_SIZE with 63 in H1'.
  split; [apply header_round_trip; [unfold word64; lia|done|done]|].
  split; [apply header_round_trip; [unfold word64; simpl; lia|done|done]|].
  assert (entries (zero_header h) = []) as He by done. split; [|done].
  split; rewrite ?He; simpl; [change LOG_MAX_SIZE with 63; lia|lia|done|done|apply NoDup_nil_2|apply Forall_nil_2].
Qed.

(** Recovery of the disk at any point of a commit: while the log is written the old
    content is recovered, from the header on the new one. *)
Definition recovers c k (content : Z → list Z) : Prop :=
  let h' := header_of_bytes (crash_disk c k (sb_log_start sb)) in
  log_ok h' ∧ (length (entries h') ≤ logged c)%nat ∧
  ∀ bn, 0 ≤ bn < 2 ^ 32 → ¬ in_log bn → recovered (crash_disk c k) bn = content bn.

Lemma length_log_writes c : length (log_writes c) = logged c.
Proof. unfold log_writes, write_pairs, logged. by rewrite length_fmap, length_imap. Qed.
Lemma length_install_writes c : length (install_writes c) = logged c.
Proof. unfold install_writes, logged. by rewrite length_fmap. Qed.
Lemma all_log_writes_other c m : layout_ok → log_ok (c_header c) → 0 ≤ m < 2 ^ 32 → ¬ in_log m →
  apply_writes (dev_disk (c_dev c)) (log_writes c) (dev_block m) = dev_disk (c_dev c) (dev_block m).
Proof. intros. rewrite <- (take_ge (log_writes c) (length (log_writes c))) by done. by apply log_writes_other. Qed.

Lemma crash_before c k : layout_ok → log_ok (c_header c) → (k ≤ logged c)%nat →
  bytes512 (dev_disk (c_dev c) (sb_log_start sb)) →
  lh_num_blocks (header_of_bytes (dev_disk (c_dev c) (sb_log_start sb))) = 0 → recovers c k (old_content c).
Proof.
  intros HL HO Hk Hb H0'. unfold recovers. set (h' := header_of_bytes _). pose proof (length_log_writes c) as Hlen1.
  assert (take k (commit_writes c) = take k (log_writes c)) as Et.
  { unfold commit_writes. rewrite take_app_le by lia. done. }
  assert (crash_disk c k (sb_log_start sb) = dev_disk (c_dev c) (sb_log_start sb)) as Eh.
  { unfold crash_disk. rewrite Et. by apply log_writes_header. }
  assert (entries h' = []) as He by (unfold entries, h'; by rewrite Eh, H0').
  split; [unfold h'; rewrite Eh; apply header_of_bytes_empty; [done|done|apply HL]|].
  split; [rewrite He; simpl; lia|]. intros bn Hn Hl. unfold recovered. fold h'. rewrite He. simpl.
  unfold crash_disk. rewrite Et. by apply log_writes_other.
Qed.

Lemma crash_during c k : layout_ok → log_ok (c_header c) → (logged c < k ≤ 2 * logged c + 1)%nat → recovers c k (new_content c).
Proof.
  intros HL HO Hk. unfold recovers. set (h' := header_of_bytes _). pose proof (zero_header_round _ HO) as (Hr1 & _).
  pose proof (length_log_writes c) as Hlen1. pose proof (length_install_writes c) as Hlen2. set (j := (k - logged c - 1)%nat).
  assert (take k (commit_writes c) = log_writes c ++ [(sb_log_start sb, header_bytes (c_header c))] ++ take j (install_writes c)) as Et.
  { unfold commit_writes. rewrite take_app_ge by lia. f_equal. rewrite Hlen1.
    replace (k - logged c)%nat with (S j) by lia. simpl. rewrite take_app_le by lia. done. }
  assert (∀ m, crash_disk c k m = apply_writes (λ n, if decide (n = sb_log_start sb) then header_bytes (c_header c)
            else apply_writes (dev_disk (c_dev c)) (log_writes c) n) (take j (install_writes c)) m) as Ec.
  { intros m. unfold crash_disk. rewrite Et, !apply_writes_app. done. }
  assert (h' = c_header c) as Eh.
  { unfold h'. rewrite Ec, install_writes_header by done. by rewrite decide_True. }
  rewrite Eh. split; [done|]. split; [done|]. intros bn Hn Hl. unfold recovered. fold h'. rewrite Eh.
  assert (∀ i e, entries (c_header c) !! i = Some e → crash_disk c k (dev_block (log_no i)) = view c e) as Hlog.
  { intros i e E. pose proof (entries_lookup _ _ _ E) as [_ Hi].
    destruct (log_no_in_log _ _ HL HO Hi) as (Hin & Hr & _).
    rewrite Ec, install_writes_prefix; [|done|done|].
    - rewrite decide_False by (by apply header_sector). by apply log_writes_at.
    - intros [q Eq]%list_elem_of_lookup. by eapply entry_ok in Eq as [_ ?]. }
  unfold new_content. case_decide as Hin.
  - apply apply_writes_in.
    + rewrite fmap_imap. apply NoDup_alt.
      intros p q x (y & Ey & ->)%list_lookup_imap_Some (z & Ez & Hz)%list_lookup_imap_Some. simpl in Hz. subst z.
      by eapply NoDup_lookup; [apply HO|..].
    + apply list_elem_of_lookup in Hin as [i E]. rewrite <- (Hlog i bn E).
      by apply (elem_of_lookup_imap_2 (λ i e, (e, crash_disk c k (dev_block (log_no i))))).
  - rewrite apply_writes_notin.
    + rewrite Ec, install_writes_prefix by done. rewrite decide_False by (by apply header_sector). by apply all_log_writes_other.
    + rewrite fmap_imap. intros (i & e & -> & E)%elem_of_lookup_imap. apply Hin. by eapply list_elem_of_lookup_2.
Qed.

Lemma crash_after c k : layout_ok → log_ok (c_header c) → (2 * logged c + 1 < k)%nat → recovers c k (new_content c).
Proof.
  intros HL HO Hk. unfold recovers. set (h' := header_of_bytes _). pose proof (zero_header_round _ HO) as (_ & Hr2 & HO0 & He0).
  assert (take k (commit_writes c) = commit_writes c) as Et.
  { apply take_ge. unfold commit_writes. rewrite !length_app, length_log_writes, length_install_writes. simpl. lia. }
  assert (∀ m, crash_disk c k m = if decide (m = sb_log_start sb) then header_bytes (zero_header (c_header c))
    else apply_writes (λ n, if decide (n = sb_log_start sb) then header_bytes (c_header c)
            else apply_writes (dev_disk (c_dev c)) (log_writes c) n) (install_writes c) m) as Ec.
  { intros m. unfold crash_disk. rewrite Et. unfold commit_writes. rewrite !app_assoc, apply_writes_snoc.
    case_decide; [done|]. rewrite apply_writes_app. apply apply_writes_ext. by rewrite apply_writes_snoc. }
  assert (h' = zero_header (c_header c)) as Eh.
  { unfold h'. rewrite Ec. by rewrite decide_True. }
  rewrite Eh. split; [done|]. split; [rewrite He0; simpl; lia|]. intros bn Hn Hl.
  unfold recovered. fold h'. rewrite Eh, He0. simpl. rewrite Ec, decide_False by (by apply header_sector).
  rewrite install_writes_at by done. unfold new_content. case_decide; [done|].
  rewrite decide_False by (by apply header_sector). by apply all_log_writes_other.
Qed.

Lemma crash_cases c k :
  layout_ok → log_ok (c_header c) →
  bytes512 (dev_disk (c_dev c) (sb_log_start sb)) →
  lh_num_blocks (header_of_bytes (dev_disk (c_dev c) (sb_log_start sb))) = 0 →
  recovers c k (λ bn, if decide (k ≤ logged c)%nat then old_content c bn else new_content c bn).
Proof.
  intros HL HO Hb H0'. destruct (decide (k ≤ logged c)%nat) as [Hk|Hk]; [by apply crash_before|].
  destruct (decide (k ≤ 2 * logged c + 1)%nat); [apply crash_during|apply crash_after]; (done || lia).
Qed.
End commit.

(** ** What the log owns

    Nothing that moves blocks through the cache touches the header or the log
    counters, whatever the state. *)
Section keeps.
Context {A D : Type} `{ObjectPool A} `{BlockDevice D}.
Context (sb : SuperBlock) (me : Z).
Abbreviation C := (Cache A D).

Definition keeps {X} (m : M C X) : Prop :=
  ∀ c r c', m c = Ok r c' → c_header c' = c_header c ∧ c_log c' = c_log c.

Lemma keeps_ret {X} (r : X) : keeps (mret r).
Proof. by intros c r' c' [= <- <-]. Qed.
Lemma keeps_bind {X Y} (m : M C X) (k : X → M C Y) : keeps m → (∀ r, keeps (k r)) → keeps (m ≫= k).
Proof.
  intros Hm Hk c r c'' (a & c' & E1 & E2)%bind_Ok_inv. apply Hm in E1 as [<- <-]. by apply Hk in E2.
Qed.
Lemma keeps_getS : keeps getS.
Proof. by intros c r c' [= <- <-]. Qed.
Lemma keeps_gets {X} (f : C → X) : keeps (gets f).
Proof. by intros c r c' [= <- <-]. Qed.
Lemma keeps_modify (f : C → C) : (∀ c, c_header (f c) = c_header c ∧ c_log (f c) = c_log c) → keeps (modify f).
Proof. intros Hf c r c' [= <- <-]. apply Hf. Qed.
Lemma keeps_derefM {X} (o : option X) : keeps (derefM o).
Proof. destruct o; [apply keeps_ret|]. by intros c r c'. Qed.
Lemma keeps_zoom {T X} (get : C → T) (put : T → C → C) (m : M T X) :
  (∀ t c, c_header (put t c) = c_header c ∧ c_log (put t c) = c_log c) → keeps (zoom get put m).
Proof. intros Hp c r c'. unfold zoom. destruct (m (get c)); try done. intros [= <- <-]. apply Hp. Qed.
Lemma keeps_for_loop {R} n i (body : Z → M C (option R)) : (∀ j, keeps (body j)) → keeps (for_loop n i body).
Proof.
  intros Hb. revert i. induction n as [|n IH]; intros i; simpl; [apply keeps_ret|].
  apply keeps_bind; [done|]. intros [v|]; [apply keeps_ret|done].
Qed.

Lemma keeps_get_block b : keeps (get_block b).
Proof. apply keeps_bind; [apply keeps_getS|]. intros. apply keeps_derefM. Qed.
Lemma keeps_upd_block b f : keeps (upd_block b f).
Proof.
  apply keeps_bind; [apply keeps_get_block|]. intros x. apply keeps_bind; [apply keeps_get_block|].
  intros _. by apply keeps_modify.
Qed.
End keeps.

Create HintDb keeps.
#[export] Hint Resolve keeps_ret keeps_bind keeps_getS keeps_gets keeps_derefM keeps_get_block keeps_upd_block
  keeps_for_loop : keeps.
(** Decompose a program down to the primitive steps. *)
Ltac solve_keeps :=
  repeat first
    [ progress intros
    | apply keeps_ret
    | apply keeps_bind
    | apply keeps_for_loop
    | apply keeps_modify; done
    | apply keeps_zoom; done
    | solve [eauto with keeps nocore]
    | match goal with
      | |- keeps (match ?x with _ => _ end) => destruct x
      | |- keeps (whenM ?b _) => destruct b; simpl
      end ].

Section keeps_ops.
Context {A D : Type} `{ObjectPool A} `{BlockDevice D}.
Context (sb : SuperBlock) (me : Z).
Abbreviation C := (Cache A D).

Lemma keeps_find_block l bn : keeps (find_block (A:=A) (D:=D) l bn).
Proof. induction l; simpl; solve_keeps. Qed.
Lemma keeps_evict l sz : keeps (evict (A:=A) (D:=D) l sz).
Proof. revert sz. induction l; intros sz; simpl; solve_keeps; auto. Qed.
Lemma keeps_acquire bn : keeps (cache_acquire (A:=A) (D:=D) me bn).
Proof.
  unfold cache_acquire, on_cache_lock, get_num_cached_blocks, init_block, lock_block, device_read, set_block.
  solve_keeps; auto using keeps_find_block, keeps_evict.
Qed.
Lemma keeps_release b : keeps (cache_release (A:=A) (D:=D) me b).
Proof. unfold cache_release, unlock_block. solve_keeps. Qed.
#[local] Hint Resolve keeps_find_block keeps_evict keeps_acquire keeps_release : keeps.

Lemma keeps_write_log : keeps (write_log (A:=A) (D:=D) sb me).
Proof.
  unfold write_log, write_log_one, log_block_no, copy_block, device_write. solve_keeps.
Qed.
Lemma keeps_install_trans r : keeps (install_trans (A:=A) (D:=D) sb me r).
Proof.
  unfold install_trans, install_one, log_block_no, copy_block, device_write. solve_keeps.
Qed.
Lemma keeps_write_header : keeps (write_header (A:=A) (D:=D) sb).
Proof. unfold write_header. solve_keeps. Qed.

Lemma commit_log_header (c c' : C) :
  commit sb me c = Ok () c' →
  c_log c' = c_log c ∧ c_header c' = if 0 <? lh_num_blocks (c_header c) then zero_header (c_header c) else c_header c.
Proof.
  unfold commit. intros (h & c0 & [= <- <-] & E)%bind_Ok_inv.
  destruct (0 <? lh_num_blocks (c_header c)); [|by injection E as <-].
  apply bind_Ok_inv in E as (? & c1 & [Hh1 Hl1]%keeps_write_log & E).
  apply bind_Ok_inv in E as (? & c2 & [Hh2 Hl2]%keeps_write_header & E).
  apply bind_Ok_inv in E as (? & c3 & [Hh3 Hl3]%keeps_install_trans & E).
  apply bind_Ok_inv in E as (? & c4 & [= _ <-] & [Hh5 Hl5]%keeps_write_header).
  rewrite Hh5, Hl5. simpl. split; [congruence|]. unfold zero_header. congruence.
Qed.
End keeps_ops.

(** ** Reservation of log space

    The critical sections of [cache_begin_op], [cache_sync] and [cache_end_op] run
    under [log.lock]; a step of the system is one of them, a commit, or any step of
    the cache that touches neither the log nor the pins. [ops] are the contexts of
    the running operations. *)
Section reservation.
Context {A D : Type} `{ObjectPool A} `{BlockDevice D}.
Context (sb : SuperBlock) (me chan_log chan_outstanding : Z).
Implicit Types (c : Cache A D) (ctx : OpContext).

Record system := mkSystem { sys_cache : Cache A D; sys_ops : list OpContext }.

Inductive log_step : system → system → Prop :=
| step_begin c c' ctx ops :
    cache_begin_op me c = Ok ctx c' →
    log_step (mkSystem c ops) (mkSystem c' (ctx :: ops))
| step_sync c c' ctx ctx' b l1 l2 :
    cache_sync me (Some ctx) b c = Ok (Some ctx') c' →
    log_step (mkSystem c (l1 ++ ctx :: l2)) (mkSystem c' (l1 ++ ctx' :: l2))
| step_end c c' ctx do_commit l1 l2 :
    end_op_enter me chan_log ctx c = Ok do_commit c' →
    log_step (mkSystem c (l1 ++ ctx :: l2)) (mkSystem c' (l1 ++ l2))
| step_commit c c1 c2 ops :
    log_committing (c_log c) = true → commit sb me c = Ok () c1 →
    end_op_leave me chan_log chan_outstanding c1 = Ok () c2 →
    log_step (mkSystem c ops) (mkSystem c2 ops)
| step_other c c' ops :
    c_header c' = c_header c → c_log c' = c_log c → (∀ n, pinned_in c n → pinned_in c' n) →
    log_step (mkSystem c ops) (mkSystem c' ops).

Definition rm_sum (ops : list OpContext) : Z := foldr (λ x n, ctx_rm x + n) 0 ops.
Lemma rm_sum_app l1 l2 : rm_sum (l1 ++ l2) = rm_sum l1 + rm_sum l2.
Proof. induction l1 as [|x l1 IH]; simpl; [done|]. rewrite IH. lia. Qed.
Lemma rm_sum_nonneg ops : Forall (λ x, 0 ≤ ctx_rm x ≤ OP_MAX_NUM_BLOCKS) ops → 0 ≤ rm_sum ops.
Proof. induction 1; simpl; lia. Qed.

Record log_inv (σ : system) : Prop := {
  li_lock : locked (log_lock (c_log (sys_cache σ))) = false;
  li_mx : 0 ≤ log_mx (c_log (sys_cache σ)) ≤ LOG_MAX_SIZE;
  li_len : length (lh_block_no (c_header (sys_cache σ))) = Z.to_nat LOG_MAX_SIZE;
  li_num : 0 ≤ lh_num_blocks (c_header (sys_cache σ));
  li_rm : Forall (λ x, 0 ≤ ctx_rm x ≤ OP_MAX_NUM_BLOCKS) (sys_ops σ);
  li_mu : log_mu (c_log (sys_cache σ)) = rm_sum (sys_ops σ);
  li_out : log_outstanding (c_log (sys_cache σ)) = Z.of_nat (length (sys_ops σ));
  li_ops : OP_MAX_NUM_BLOCKS * Z.of_nat (length (sys_ops σ)) ≤
    lh_num_blocks (c_header (sys_cache σ)) + rm_sum (sys_ops σ);
  li_room : lh_num_blocks (c_header (sys_cache σ)) + rm_sum (sys_ops σ) ≤ log_mx (c_log (sys_cache σ));
  li_commit : log_committing (c_log (sys_cache σ)) = true → sys_ops σ = [];
  li_nodup : NoDup (entries (c_header (sys_cache σ)));
  li_pinned : ∀ e, e ∈ entries (c_header (sys_cache σ)) → pinned_in (sys_cache σ) e
}.

(** The operations under the free lock, as equations. *)
Definition free_log (c : Cache A D) out com mu : Cache A D :=
  set_c_log (mkLOG (init_spinlock (lname (log_lock (c_log c)))) out com mu (log_mx (c_log c))) c.

Lemma begin_op_eq c :
  locked (log_lock (c_log c)) = false →
  let log := c_log c in
  let c' := free_log c (log_outstanding log) (log_committing log) (log_mu log) in
  cache_begin_op me c =
    if log_committing log then Blocked c'
    else if log_mx log <? i32 (i32 (i32 (lh_num_blocks (c_header c)) + log_mu log) + OP_MAX_NUM_BLOCKS) then Blocked c'
    else Ok {| ctx_ts := u64 (i32 (log_outstanding log + 1)); ctx_rm := OP_MAX_NUM_BLOCKS |}
           (free_log c (i32 (log_outstanding log + 1)) false (i32 (log_mu log + OP_MAX_NUM_BLOCKS))).
Proof.
  intros Hl. unfold cache_begin_op. erewrite bind_Ok by (by apply zoom_Ok, acquire_spinlock_free).
  erewrite bind_Ok by done. cbn zeta. cbn [c_log c_header set_c_log set_log_lock log_committing log_mx log_mu log_outstanding].
  destruct (log_committing (c_log c)) eqn:Ec.
  { erewrite bind_Ok by (by apply zoom_Ok, release_spinlock_held). unfold free_log, blocked, set_c_log, set_log_lock. simpl. by rewrite Ec. }
  destruct (log_mx (c_log c) <? _).
  { erewrite bind_Ok by (by apply zoom_Ok, release_spinlock_held). unfold free_log. by rewrite <- Ec. }
  erewrite bind_Ok by done. erewrite bind_Ok by done.
  erewrite bind_Ok by (by apply zoom_Ok, release_spinlock_held). unfold free_log. simpl. rewrite <- Ec. done.
Qed.

Definition put_header (c : Cache A D) (n : Z) (l : list Z) : Cache A D :=
  set_c_header {| lh_num_blocks := n; lh_block_no := l |} c.

Lemma sync_eq c ctx b :
  locked (log_lock (c_log c)) = false →
  let log := c_log c in let h := c_header c in
  cache_sync me (Some ctx) b c =
    if log_mx log <=? i32 (lh_num_blocks h) then Panic "too big a transaction"
    else if log_outstanding log <? 1 then Panic "log_write outside of trans"
    else match c_blocks c !! b with
    | None => Undef
    | Some x =>
        let i := find_entry (lh_block_no h) (Z.to_nat (lh_num_blocks h)) (b_block_no x) in
        if decide (i < length (lh_block_no h))%nat then
          let l' := <[i := b_block_no x]> (lh_block_no h) in
          if Z.of_nat i =? lh_num_blocks h then
            if 0 <? ctx_rm ctx then
              Ok (Some {| ctx_ts := ctx_ts ctx; ctx_rm := ctx_rm ctx - 1 |})
                 (free_log (put_header (put_block c b (with_pinned true x)) (u64 (lh_num_blocks h + 1)) l')
                    (log_outstanding log) (log_committing log) (i32 (log_mu log - 1)))
            else Panic "OP_MAX_BLOCK exceeded"
          else Ok (Some ctx) (free_log (put_header c (lh_num_blocks h) l')
                 (log_outstanding log) (log_committing log) (log_mu log))
        else Undef
    end.
Proof.
  intros Hl. unfold cache_sync. erewrite bind_Ok by (by apply zoom_Ok, acquire_spinlock_free).
  erewrite bind_Ok by done. cbn zeta. cbn [c_log c_header set_c_log set_log_lock log_committing log_mx log_mu log_outstanding].
  destruct (log_mx (c_log c) <=? _); [done|]. erewrite bind_Ok by done.
  destruct (log_outstanding (c_log c) <? 1); [done|]. erewrite bind_Ok by done.
  destruct (c_blocks c !! b) as [x|] eqn:E.
  2:{ unfold mbind, M_bind, get_block, mbind, M_bind, getS. simpl. by rewrite E. }
  erewrite bind_Ok by (by apply get_block_Ok). case_decide; [|done].
  erewrite bind_Ok by done. erewrite bind_Ok by done.
  destruct (Z.of_nat _ =? lh_num_blocks (c_header c)).
  2:{ erewrite bind_Ok by done. by erewrite bind_Ok by (by apply zoom_Ok, release_spinlock_held). }
  destruct (0 <? ctx_rm ctx).
  - erewrite bind_Ok.
    2:{ erewrite bind_Ok by done. erewrite bind_Ok by (apply upd_block_Ok; exact E). by erewrite bind_Ok by done. }
    by erewrite bind_Ok by (by apply zoom_Ok, release_spinlock_held).
  - unfold mbind at 1, M_bind at 1. erewrite bind_Ok by done. by erewrite bind_Ok by (apply upd_block_Ok; exact E).
Qed.

Lemma end_enter_eq c ctx :
  locked (log_lock (c_log c)) = false →
  let log := c_log c in
  let out := i32 (log_outstanding log - 1) in
  let mu := i32 (log_mu log - i32 (ctx_rm ctx)) in
  end_op_enter me chan_log ctx c =
    if log_committing log then Panic "log committing"
    else if out =? 0 then Ok true (free_log c out true mu)
    else Ok false (free_log (set_c_wakeups (chan_log :: c_wakeups c) c) out false mu).
Proof.
  intros Hl. unfold end_op_enter. erewrite bind_Ok by (by apply zoom_Ok, acquire_spinlock_free).
  erewrite bind_Ok by done. erewrite bind_Ok by done. erewrite bind_Ok by done.
  cbn [c_log set_c_log set_log_lock log_committing log_outstanding log_mu].
  destruct (log_committing (c_log c)) eqn:Ec; [done|]. erewrite bind_Ok by done.
  destruct (i32 (log_outstanding (c_log c) - 1) =? 0).
  - erewrite bind_Ok by done. by erewrite bind_Ok by (by apply zoom_Ok, release_spinlock_held).
  - erewrite bind_Ok by done. erewrite bind_Ok by (by apply zoom_Ok, release_spinlock_held).
    unfold free_log. simpl. rewrite <- Ec. done.
Qed.

Lemma end_leave_eq c :
  locked (log_lock (c_log c)) = false →
  end_op_leave me chan_log chan_outstanding c =
    Ok () (free_log (set_c_wakeups (chan_log :: chan_outstanding :: c_wakeups c) c)
             (log_outstanding (c_log c)) false (log_mu (c_log c))).
Proof.
  intros Hl. unfold end_op_leave. erewrite bind_Ok by (by apply zoom_Ok, acquire_spinlock_free).
  erewrite bind_Ok by done. erewrite bind_Ok by done. erewrite bind_Ok by done.
  etrans; [by apply zoom_Ok, release_spinlock_held|]. done.
Qed.

Lemma find_entry_spec l cnt n :
  (cnt ≤ length l)%nat →
  (find_entry l cnt n = cnt ∧ n ∉ take cnt l) ∨
  ((find_entry l cnt n < cnt)%nat ∧ l !! find_entry l cnt n = Some n).
Proof.
  revert l. induction cnt as [|cnt IH]; intros l Hl.
  { left. destruct l; (split; [done|]); rewrite take_0; apply not_elem_of_nil. }
  destruct l as [|x l]; [simpl in Hl; lia|]. simpl in *. destruct (Z.eqb_spec x n) as [->|Hne].
  - right. split; [lia|done].
  - destruct (IH l) as [[E Hn]|[Hlt E]]; [lia|left|right].
    + split; [by rewrite E|]. set_solver.
    + split; [lia|done].
Qed.

Lemma pinned_put_block c b x n :
  c_blocks c !! b = Some x → pinned_in c n ∨ n = b_block_no x →
  pinned_in (put_block c b (with_pinned true x)) n.
Proof.
  intros E [(b' & y & E' & Hy & Hp)| ->].
  - destruct (decide (b' = b)) as [->|Hne].
    + exists b, (with_pinned true x). split; [apply lookup_insert_eq|]. assert (y = x) as -> by congruence. done.
    + exists b', y. split; [simpl; by rewrite lookup_insert_ne|done].
  - exists b, (with_pinned true x). split; [apply lookup_insert_eq|done].
Qed.

(** The bounds of the invariant, in one place. *)
Lemma log_inv_bounds σ : log_inv σ →
  0 ≤ lh_num_blocks (c_header (sys_cache σ)) ≤ 63 ∧ 0 ≤ rm_sum (sys_ops σ) ≤ 63 ∧
  log_mx (c_log (sys_cache σ)) ≤ 63 ∧ Z.of_nat (length (sys_ops σ)) ≤ 6.
Proof.
  intros [I1 I2 I3 I4 I5 I6 I7 I8 I9 I10 I11 I12]. pose proof (rm_sum_nonneg _ I5).
  change LOG_MAX_SIZE with 63 in I2. unfold OP_MAX_NUM_BLOCKS in *. lia.
Qed.

Lemma log_inv_begin c c' ctx ops :
  log_inv (mkSystem c ops) → cache_begin_op me c = Ok ctx c' → log_inv (mkSystem c' (ctx :: ops)).
Proof.
  intros HI E. pose proof (log_inv_bounds _ HI) as (B1 & B2 & B3 & B4).
  destruct HI as [I1 I2 I3 I4 I5 I6 I7 I8 I9 I10 I11 I12]. simpl in *. unfold OP_MAX_NUM_BLOCKS in *.
  rewrite begin_op_eq in E by done. destruct (log_committing (c_log c)) eqn:Ec; [done|].
  unfold OP_MAX_NUM_BLOCKS in *.
  rewrite !(i32_small (lh_num_blocks _)), (i32_small (lh_num_blocks _ + _)), (i32_small (_ + 10)) in E by lia.
  destruct (Z.ltb_spec (log_mx (c_log c)) (lh_num_blocks (c_header c) + log_mu (c_log c) + 10)); [done|].
  injection E as <- <-. split; simpl; unfold OP_MAX_NUM_BLOCKS; try done; try lia.
  - constructor; [simpl; lia|done].
  - rewrite i32_small by lia. lia.
  - rewrite i32_small by lia. lia.
Qed.

Lemma log_inv_end c c' ctx (dc : bool) l1 l2 :
  log_inv (mkSystem c (l1 ++ ctx :: l2)) → end_op_enter me chan_log ctx c = Ok dc c' →
  log_inv (mkSystem c' (l1 ++ l2)).
Proof.
  intros HI E. pose proof (log_inv_bounds _ HI) as (B1 & B2 & B3 & B4).
  destruct HI as [I1 I2 I3 I4 I5 I6 I7 I8 I9 I10 I11 I12]. simpl in *.
  rewrite end_enter_eq in E by done. destruct (log_committing (c_log c)) eqn:Ec; [done|].
  apply Forall_app in I5 as [F1 [F2 F3]%Forall_cons].
  rewrite length_app in I7, I8, B4. rewrite rm_sum_app in I6, I8, I9, B2. simpl in *. unfold OP_MAX_NUM_BLOCKS in *.
  pose proof (rm_sum_nonneg _ F1). pose proof (rm_sum_nonneg _ F3).
  rewrite (i32_small (ctx_rm ctx)), (i32_small (_ - 1)), (i32_small (_ - ctx_rm ctx)) in E by lia.
  destruct (Z.eqb_spec (log_outstanding (c_log c) - 1) 0); injection E as <- <-;
    split; simpl; unfold OP_MAX_NUM_BLOCKS; rewrite ?rm_sum_app, ?length_app; try done; try lia.
  1,3: by apply Forall_app.
  intros _. destruct l1, l2; simpl in *; try done; lia.
Qed.

Lemma entries_snoc h e :
  0 ≤ lh_num_blocks h < Z.of_nat (length (lh_block_no h)) →
  entries {| lh_num_blocks := lh_num_blocks h + 1;
             lh_block_no := <[Z.to_nat (lh_num_blocks h) := e]> (lh_block_no h) |} = entries h ++ [e].
Proof.
  intros Hn. unfold entries. simpl. rewrite Z2Nat.inj_add by lia. change (Z.to_nat 1) with 1%nat.
  rewrite Nat.add_1_r. erewrite take_S_r by (apply list_lookup_insert_eq; lia).
  by rewrite take_insert_ge by lia.
Qed.

Lemma log_inv_sync c c' ctx ctx' b l1 l2 :
  log_inv (mkSystem c (l1 ++ ctx :: l2)) → cache_sync me (Some ctx) b c = Ok (Some ctx') c' →
  log_inv (mkSystem c' (l1 ++ ctx' :: l2)).
Proof.
  intros HI E. pose proof (log_inv_bounds _ HI) as (B1 & B2 & B3 & B4).
  destruct HI as [I1 I2 I3 I4 I5 I6 I7 I8 I9 I10 I11 I12].
  rewrite sync_eq in E by done. cbn zeta in E. simpl in *. rewrite i32_small in E by lia.
  destruct (Z.leb_spec (log_mx (c_log c)) (lh_num_blocks (c_header c))); [done|].
  destruct (log_outstanding (c_log c) <? 1); [done|]. destruct (c_blocks c !! b) as [x|] eqn:Ex; [|done].
  change LOG_MAX_SIZE with 63 in *.
  destruct (find_entry_spec (lh_block_no (c_header c)) (Z.to_nat (lh_num_blocks (c_header c))) (b_block_no x))
    as [[Ei Hn]|[Hi Ei]]; [lia| |].
  - rewrite Ei, decide_True in E by lia. rewrite Z2Nat.id, Z.eqb_refl in E by lia.
    destruct (Z.ltb_spec 0 (ctx_rm ctx)); [|done]. injection E as <- <-.
    apply Forall_app in I5 as [F1 [F2 F3]%Forall_cons]. rewrite !rm_sum_app, length_app in *. simpl in *.
    pose proof (rm_sum_nonneg _ F1). pose proof (rm_sum_nonneg _ F3). unfold OP_MAX_NUM_BLOCKS in *.
    rewrite (u64_small (lh_num_blocks (c_header c) + 1)) by lia.
    assert (entries {| lh_num_blocks := lh_num_blocks (c_header c) + 1;
              lh_block_no := <[Z.to_nat (lh_num_blocks (c_header c)) := b_block_no x]> (lh_block_no (c_header c)) |}
            = entries (c_header c) ++ [b_block_no x]) as Hent by (apply entries_snoc; lia).
    split; simpl; unfold OP_MAX_NUM_BLOCKS; rewrite ?length_insert, ?rm_sum_app, ?length_app; simpl; try done; try lia.
    + apply Forall_app. split; [done|]. constructor; [simpl; lia|done].
    + rewrite i32_small by lia. lia.
    + intros Hc. apply I10 in Hc. by destruct l1.
    + rewrite Hent. apply NoDup_app. split; [done|]. split; [|apply NoDup_singleton].
      intros y Hy ->%list_elem_of_singleton. done.
    + intros e. rewrite Hent, elem_of_app, list_elem_of_singleton. intros He.
      apply (pinned_put_block c b x e Ex). naive_solver.
  - rewrite decide_True in E by lia. destruct (Z.eqb_spec (Z.of_nat (find_entry (lh_block_no (c_header c))
      (Z.to_nat (lh_num_blocks (c_header c))) (b_block_no x))) (lh_num_blocks (c_header c))); [lia|].
    injection E as <- <-. rewrite list_insert_id by done.
    split; simpl; try done.
Qed.

Lemma log_inv_commit c c1 c2 ops :
  log_inv (mkSystem c ops) → log_committing (c_log c) = true → commit sb me c = Ok () c1 →
  end_op_leave me chan_log chan_outstanding c1 = Ok () c2 → log_inv (mkSystem c2 ops).
Proof.
  intros HI Hc Hcm E. destruct HI as [I1 I2 I3 I4 I5 I6 I7 I8 I9 I10 I11 I12]. simpl in *.
  apply commit_log_header in Hcm as [Hl Hh]. rewrite end_leave_eq in E by (by rewrite Hl). injection E as <-.
  pose proof (I10 Hc) as ->. simpl in *.
  assert (lh_num_blocks (c_header c1) = 0) as Hz.
  { rewrite Hh. destruct (Z.ltb_spec 0 (lh_num_blocks (c_header c))); [done|lia]. }
  assert (entries (c_header c1) = []) as He by (unfold entries; by rewrite Hz).
  split; simpl; rewrite ?Hl, ?Hz, ?He; try done; try lia.
  - rewrite Hh. by destruct (0 <? lh_num_blocks (c_header c)).
  - apply NoDup_nil_2.
  - intros e ?%elem_of_nil. done.
Qed.

Lemma log_inv_step σ σ' : log_inv σ → log_step σ σ' → log_inv σ'.
Proof.
  intros HI HS. destruct HS as [c c' ctx ops E|c c' ctx ctx' b l1 l2 E|c c' ctx dc l1 l2 E
    |c c1 c2 ops Hc Hcm E|c c' ops Hh Hl Hp].
  - by eapply log_inv_begin.
  - by eapply log_inv_sync.
  - by eapply log_inv_end.
  - by eapply log_inv_commit.
  - destruct HI as [I1 I2 I3 I4 I5 I6 I7 I8 I9 I10 I11 I12]. simpl in *.
    split; simpl; rewrite ?Hl, ?Hh; try done. auto.
Qed.

(** The state [init_bcache] leaves: an empty log and no operation. *)
Definition log_init (σ : system) : Prop :=
  let c := sys_cache σ in
  sys_ops σ = [] ∧ lh_num_blocks (c_header c) = 0 ∧ length (lh_block_no (c_header c)) = Z.to_nat LOG_MAX_SIZE ∧
  locked (log_lock (c_log c)) = false ∧ log_outstanding (c_log c) = 0 ∧ log_committing (c_log c) = false ∧
  log_mu (c_log c) = 0 ∧ 0 ≤ log_mx (c_log c) ≤ LOG_MAX_SIZE.

Lemma log_inv_init σ : log_init σ → log_inv σ.
Proof.
  destruct σ as [c ops]. unfold log_init. simpl. intros (-> & Hn & Hlen & Hlk & Ho & Hc & Hm & Hx). simpl in *.
  assert (entries (c_header c) = []) as He by (unfold entries; by rewrite Hn).
  split; simpl; rewrite ?Hn, ?He; try done; try lia.
  - apply NoDup_nil_2.
  - intros e ?%elem_of_nil. done.
Qed.

Lemma log_inv_reachable σ σ' : log_init σ → rtc log_step σ σ' → log_inv σ'.
Proof.
  intros Hi Hr. apply log_inv_init in Hi. induction Hr as [|σ1 σ2 σ3 HS _ IH]; [done|].
  apply IH. by eapply log_inv_step.
Qed.

(** A running operation with reserved space can always log a block. *)
Lemma sync_Ok c ctx ops b x :
  log_inv (mkSystem c ops) → ctx ∈ ops → 0 < ctx_rm ctx → c_blocks c !! b = Some x →
  ∃ ctx' c', cache_sync me (Some ctx) b c = Ok (Some ctx') c' ∧ b_block_no x ∈ entries (c_header c').
Proof.
  intros HI (l1 & l2 & ->)%list_elem_of_split Hrm Ex. pose proof (log_inv_bounds _ HI) as (B1 & B2 & B3 & B4).
  destruct HI as [I1 I2 I3 I4 I5 I6 I7 I8 I9 I10 I11 I12]. rewrite sync_eq by done. cbn zeta. simpl in *.
  apply Forall_app in I5 as [F1 [F2 F3]%Forall_cons]. rewrite rm_sum_app in I9. simpl in I9.
  pose proof (rm_sum_nonneg _ F1). pose proof (rm_sum_nonneg _ F3). change LOG_MAX_SIZE with 63 in *.
  rewrite i32_small by lia. destruct (Z.leb_spec (log_mx (c_log c)) (lh_num_blocks (c_header c))); [lia|].
  rewrite length_app in I7. simpl in I7. destruct (Z.ltb_spec (log_outstanding (c_log c)) 1); [lia|]. rewrite Ex.
  destruct (find_entry_spec (lh_block_no (c_header c)) (Z.to_nat (lh_num_blocks (c_header c))) (b_block_no x))
    as [[Ei Hn]|[Hi Ei]]; [lia| |].
  - rewrite Ei, decide_True by lia. rewrite Z2Nat.id, Z.eqb_refl by lia.
    destruct (Z.ltb_spec 0 (ctx_rm ctx)); [|lia]. eexists _, _. split; [done|]. simpl.
    rewrite u64_small by lia. rewrite entries_snoc by lia. set_solver.
  - rewrite decide_True by lia. destruct (Z.eqb_spec (Z.of_nat (find_entry (lh_block_no (c_header c))
      (Z.to_nat (lh_num_blocks (c_header c))) (b_block_no x))) (lh_num_blocks (c_header c))); [lia|].
    eexists _, _. split; [done|]. simpl. rewrite list_insert_id by done. unfold entries. simpl.
    apply elem_of_take. eauto.
Qed.
End reservation.

(** ** Theorems *)

(** C8. In every interleaving of [begin_op], [sync], [end_op] and commits
    by any number of threads: the header never records more blocks than the log
    holds, records no block twice, and every recorded block is pinned in the cache;
    and a running operation that has not used up its reservation logs any block
    without a panic. *)
Theorem log_reservation {A D} `{ObjectPool A} `{BlockDevice D} sb me ch1 ch2 (σ σ' : @system A D) :
  log_init σ → rtc (log_step sb me ch1 ch2) σ σ' →
  let c := sys_cache σ' in
  lh_num_blocks (c_header c) ≤ log_mx (c_log c) ∧
  NoDup (entries (c_header c)) ∧ (∀ e, e ∈ entries (c_header c) → pinned_in c e) ∧
  ∀ ctx b x, ctx ∈ sys_ops σ' → 0 < ctx_rm ctx → c_blocks c !! b = Some x →
    ∃ ctx' c', cache_sync me (Some ctx) b c = Ok (Some ctx') c' ∧ b_block_no x ∈ entries (c_header c').
Proof.
  intros Hi Hr c. pose proof (log_inv_reachable _ _ _ _ _ _ Hi Hr) as HI. destruct σ' as [c0 ops]. simpl in c. subst c.
  split; [|split; [apply HI|split; [apply HI|]]].
  - pose proof (rm_sum_nonneg _ (li_rm _ HI)). pose proof (li_room _ HI). simpl in *. lia.
  - intros ctx b x Hin Hrm Ex. by eapply sync_Ok.
Qed.

Lemma log_reservation_witness :
  ∃ c', cache_begin_op 0 demo_cache = Ok {| ctx_ts := 1; ctx_rm := 10 |} c' ∧
  (lh_num_blocks (c_header c') ≤ log_mx (c_log c') ∧
   NoDup (entries (c_header c')) ∧ (∀ e, e ∈ entries (c_header c') → pinned_in c' e) ∧
   ∀ ctx b x, ctx ∈ [{| ctx_ts := 1; ctx_rm := 10 |}] → 0 < ctx_rm ctx → c_blocks c' !! b = Some x →
    ∃ ctx' c'', cache_sync 0 (Some ctx) b c' = Ok (Some ctx') c'' ∧ b_block_no x ∈ entries (c_header c'')).
Proof.
  exists (free_log demo_cache 1 false 10). split; [reflexivity|].
  refine (log_reservation (mkSuperBlock 1000 800 200 64 2 66 92) 0 5 6 (mkSystem demo_cache []) 
    (mkSystem (free_log demo_cache 1 false 10) [{| ctx_ts := 1; ctx_rm := 10 |}]) _ _).
  - vm_compute. repeat split; congruence.
  - apply rtc_once, step_begin. reflexivity.
Defined.

(** C1. A crash between any two disk writes of a commit is atomic. [commit]
    returns, having written the log, the header, the blocks at home and the empty
    header, in that order; whichever prefix of these writes reached the disk, booting
    from it ([init_bcache], which recovers from the log) succeeds, empties the log,
    and shows for every block outside the log area either the content before the
    transaction (the header did not reach the disk) or the committed content (it
    did), for all blocks alike. *)
Theorem commit_crash_atomic {A D} `{ObjectPoolLaws A} `{BlockDeviceLaws D} sb me (c : Cache A D) R :
  layout_ok sb → log_ok sb (c_header c) → idle c R → (4 * logged c ≤ R)%nat →
  (∀ e, e ∈ entries (c_header c) → pinned_in c e) → 0 < lh_num_blocks (c_header c) →
  lh_num_blocks (header_of_bytes (dev_disk (c_dev c) (sb_log_start sb))) = 0 →
  wp (commit sb me) (λ _ c',
    dev_writes (c_dev c') = dev_writes (c_dev c) ++ commit_writes sb c ∧
    (∀ n, 0 ≤ n < 2 ^ 32 → ¬ in_log sb n → view c' n = view c n) ∧
    ∀ (k : nat) (cb : Cache A D) (Rb : nat),
      boot cb Rb → (2 * logged c ≤ Rb)%nat →
      (∀ m, dev_disk (c_dev cb) m = apply_writes (dev_disk (c_dev c)) (take k (commit_writes sb c)) m) →
      wp (init_bcache sb me) (λ _ c'', (∃ R', idle c'' R') ∧ lh_num_blocks (c_header c'') = 0 ∧
        ∀ bn, 0 ≤ bn < 2 ^ 32 → ¬ in_log sb bn →
          view c'' bn = if decide (k ≤ logged c)%nat then old_content c bn else new_content c bn) cb) c.
Proof.
  intros HL HO HId HR Hpin Hnum Hempty. eapply wp_mono; [by apply (commit_Ok sb me c R)|].
  intros ? c' [_ _ _ Hv _ Hw _]. split; [done|]. split; [done|]. intros k cb Rb Hb HRb Hdisk.
  assert (∀ m, dev_disk (c_dev cb) m = crash_disk sb c k m) as Hd by done.
  destruct (crash_cases sb c k HL HO) as (HO' & Hlen' & Hrec); [|done|].
  { apply dev_disk_size. apply HId. }
  rewrite <- Hd in HO', Hlen'. eapply wp_mono; [apply (init_bcache_Ok sb me cb Rb); try done; lia|].
  intros ? c'' (HI' & Hh & _ & _ & _ & Hv'). split; [done|]. split; [by rewrite Hh|].
  intros bn Hn Hl. rewrite <- (Hrec bn Hn Hl), Hv' by done. unfold recovered. rewrite <- (Hd (sb_log_start sb)).
  rewrite (apply_writes_ext _ (λ n, crash_disk sb c k (dev_block n))) by apply Hd.
  f_equal. apply imap_ext. intros i e _. simpl. by rewrite Hd.
Qed.

(** A transaction that has changed block 500. *)
Definition demo_sb : SuperBlock := mkSuperBlock 1000 800 200 64 2 66 92.
Definition demo_block : Block :=
  {| b_block_no := 500; b_acquired := false; b_pinned := true; b_lock := init_sleeplock "block";
     b_valid := true; b_data := replicate 512 7 |}.
Definition demo_txn : Cache Z RamDisk :=
  {| c_lock := init_spinlock "bcache"; c_arena := 2; c_blocks := {[ 1 := demo_block ]}; c_lru := [1];
     c_header := {| lh_num_blocks := 1; lh_block_no := 500 :: replicate 62 0 |};
     c_log := {| log_lock := init_spinlock "log"; log_outstanding := 0; log_committing := true;
                 log_mu := 0; log_mx := 63 |};
     c_dev := {| rd_disk := ∅; rd_writes := [] |}; c_wakeups := [] |}.

Lemma demo_txn_block b y : c_blocks demo_txn !! b = Some y → b = 1 ∧ y = demo_block.
Proof. simpl. by intros [<- <-]%lookup_singleton_Some. Qed.

Lemma demo_txn_idle : idle demo_txn 4.
Proof.
  split; [split|done|..].
  - split; [done|]. simpl. intros o Ho. rewrite dom_singleton in Ho. apply elem_of_singleton in Ho. lia.
  - apply NoDup_singleton.
  - intros b. simpl c_lru. rewrite list_elem_of_singleton. split; [intros ->; by eexists|]. by intros [y [-> _]%demo_txn_block].
  - by intros b1 b2 x1 x2 [-> _]%demo_txn_block [-> _]%demo_txn_block.
  - intros b x [_ ->]%demo_txn_block. split; [|done]. split; [done|]. apply Forall_replicate. lia.
  - by intros b x [_ ->]%demo_txn_block.
  - intros n v E. simpl in E. by apply lookup_empty_Some in E.
  - done.
  - intros b x [_ ->]%demo_txn_block [? _]. done.
  - by intros b x [_ ->]%demo_txn_block.
Qed.

Lemma commit_crash_atomic_witness :
  wp (commit demo_sb 0) (λ _ c',
    dev_writes (c_dev c') = dev_writes (c_dev demo_txn) ++ commit_writes demo_sb demo_txn ∧
    (∀ n, 0 ≤ n < 2 ^ 32 → ¬ in_log demo_sb n → view c' n = view demo_txn n) ∧
    ∀ (k : nat) (cb : Cache Z RamDisk) (Rb : nat),
      boot cb Rb → (2 * logged demo_txn ≤ Rb)%nat →
      (∀ m, dev_disk (c_dev cb) m = apply_writes (dev_disk (c_dev demo_txn)) (take k (commit_writes demo_sb demo_txn)) m) →
      wp (init_bcache demo_sb 0) (λ _ c'', (∃ R', idle c'' R') ∧ lh_num_blocks (c_header c'') = 0 ∧
        ∀ bn, 0 ≤ bn < 2 ^ 32 → ¬ in_log demo_sb bn →
          view c'' bn = if decide (k ≤ logged demo_txn)%nat then old_content demo_txn bn
                        else new_content demo_txn bn) cb) demo_txn.
Proof.
  refine (commit_crash_atomic demo_sb 0 demo_txn 4 _ _ _ _ _ _ _).
  - vm_compute. repeat split; congruence.
  - split; simpl.
    + vm_compute. split; congruence.
    + reflexivity.
    + reflexivity.
    + repeat constructor; unfold word64; lia.
    + apply NoDup_singleton.
    + repeat constructor; vm_compute; try congruence. intros [_ ?]. congruence.
  - exact demo_txn_idle.
  - vm_compute. lia.
  - intros e. simpl. intros ->%list_elem_of_singleton. exists 1, demo_block. split; [reflexivity|]. split; reflexivity.
  - reflexivity.
  - reflexivity.
Defined.
