(* ===== verification/CacheAlloc.v ===== *)
(** * Logged updates and the block bitmap (fs/cache.c)

    What a client's read-modify-write of a block inside an operation does
    ([cache_acquire], a change of the data, [cache_sync], [cache_release]), and on
    top of it [bzero], [cache_alloc] and [cache_free]. *)
From S2P Require Import Prelude Locks Bitmap Cache CacheLog.

Section update.
Context {A D : Type} `{ObjectPoolLaws A} `{BlockDeviceLaws D}.
Context (sb : SuperBlock) (me : Z).
Implicit Types (c : Cache A D) (ctx : OpContext) (l : list OpContext).

(** A state in which the operation [ctx] runs, among others. *)
Record running c (R : nat) l1 ctx l2 : Prop := {
  rn_idle : idle c R;
  rn_log : log_inv (mkSystem c (l1 ++ ctx :: l2))
}.

Lemma log_inv_other c c' ops :
  log_inv (mkSystem c ops) → c_header c' = c_header c → c_log c' = c_log c →
  (∀ n, pinned_in c n → pinned_in c' n) → log_inv (mkSystem c' ops).
Proof.
  intros [I1 I2 I3 I4 I5 I6 I7 I8 I9 I10 I11 I12] Hh Hl Hp. simpl in *.
  split; simpl; rewrite ?Hl, ?Hh; try done. auto.
Qed.

Lemma put_block_pinned c b x y n :
  c_blocks c !! b = Some x → b_block_no y = b_block_no x → (b_pinned x = true → b_pinned y = true) →
  pinned_in c n → pinned_in (put_block c b y) n.
Proof.
  intros E Hn Hp (b' & z & Ez & Hz & Hpz). destruct (decide (b' = b)) as [->|Hne].
  - exists b, y. split; [apply lookup_insert_eq|]. assert (z = x) as -> by congruence. split; [congruence|auto].
  - exists b', z. split; [simpl; by rewrite lookup_insert_ne|done].
Qed.

(** [cache_sync] of a block in hand: the block is pinned and recorded. *)
Lemma sync_shape c R l1 ctx l2 b x :
  cache_inv c R → log_inv (mkSystem c (l1 ++ ctx :: l2)) → 0 < ctx_rm ctx → c_blocks c !! b = Some x →
  ∃ ctx' h' log', let c' := set_c_header h' (set_c_log log' (put_block c b (with_pinned true x))) in
    cache_sync me (Some ctx) b c = Ok (Some ctx') c' ∧ log_inv (mkSystem c' (l1 ++ ctx' :: l2)) ∧
    ctx_rm ctx - 1 ≤ ctx_rm ctx' ≤ ctx_rm ctx ∧ b_block_no x ∈ entries h' ∧
    (∀ e, e ∈ entries (c_header c) → e ∈ entries h').
Proof.
  intros HI HL Hrm Ex.
  destruct (sync_Ok me c ctx (l1 ++ ctx :: l2) b x HL ltac:(set_solver) Hrm Ex) as (ctx' & c' & E & Hin).
  pose proof (log_inv_sync me _ _ _ _ _ _ _ HL E) as HL'.
  pose proof E as E'. rewrite sync_eq in E' by apply HL. cbn zeta in E'.
  pose proof (log_inv_bounds _ HL) as (B1 & B2 & B3 & B4).
  pose proof (li_len _ HL) as Hlen. simpl in Hlen, B1. change LOG_MAX_SIZE with 63 in Hlen.
  simpl in B2, B3. rewrite i32_small in E' by lia.
  destruct (Z.leb_spec (log_mx (c_log c)) (lh_num_blocks (c_header c))); [done|].
  destruct (log_outstanding (c_log c) <? 1); [done|]. rewrite Ex in E'.
  destruct (find_entry_spec (lh_block_no (c_header c)) (Z.to_nat (lh_num_blocks (c_header c))) (b_block_no x))
    as [[Ei Hn]|[Hi Ei]]; [lia| |]; rewrite decide_True in E' by lia.
  - rewrite Ei in E'. rewrite Z2Nat.id, Z.eqb_refl in E' by lia. destruct (Z.ltb_spec 0 (ctx_rm ctx)); [|lia].
    injection E' as Ectx Ec. eexists ctx', _, _. cbn zeta. split; [rewrite E; f_equal; exact (eq_sym Ec)|].
    split; [rewrite <- Ec in HL'; exact HL'|]. rewrite <- Ectx, <- Ec in *. simpl in *. split; [lia|]. split; [done|].
    intros e He. rewrite u64_small by lia. rewrite entries_snoc by lia. set_solver.
  - destruct (Z.eqb_spec (Z.of_nat (find_entry (lh_block_no (c_header c))
      (Z.to_nat (lh_num_blocks (c_header c))) (b_block_no x))) (lh_num_blocks (c_header c))); [lia|].
    injection E' as <- Ec. rewrite list_insert_id in Ec by done.
    assert (b_pinned x = true) as Hp.
    { assert (b_block_no x ∈ entries (c_header c)) as Hin'.
      { unfold entries. apply elem_of_take. eauto. }
      destruct (li_pinned _ HL _ Hin') as (b' & y & Ey & Hy & Hp). simpl in Ey.
      assert (b' = b) as -> by (by apply (ci_uniq _ _ HI b' b y x)). congruence. }
    assert (put_block c b (with_pinned true x) = c) as Hput.
    { unfold put_block. assert (with_pinned true x = x) as -> by (destruct x; simpl in *; by subst).
      rewrite insert_id by done. by destruct c. }
    eexists ctx, _, _. cbn zeta. rewrite Hput. split; [rewrite E; f_equal; exact (eq_sym Ec)|].
    split; [rewrite <- Ec in HL'; exact HL'|]. split; [lia|]. split; [|done].
    unfold entries. simpl. apply elem_of_take. eauto.
Qed.

(** Acquire a block, change its data, log it, release it. *)
Definition update_block (bn : Z) (f : list Z → list Z) (ctx : option OpContext) : M (Cache A D) (option OpContext) :=
  bp ← cache_acquire me bn;
  x ← get_block bp;
  upd_block bp (with_data (f (b_data x)));;
  ctx ← cache_sync me ctx bp;
  cache_release me bp;;
  mret ctx.

Record updated c R l1 ctx l2 bn (f : list Z → list Z) c' R' ctx' : Prop := {
  ud_running : running c' R' l1 ctx' l2;
  ud_room : (R ≤ S R')%nat;
  ud_rm : ctx_rm ctx - 1 ≤ ctx_rm ctx' ≤ ctx_rm ctx;
  ud_logged : bn ∈ entries (c_header c') ∧ ∀ e, e ∈ entries (c_header c) → e ∈ entries (c_header c');
  ud_view : ∀ n, view c' n = if decide (n = bn) then f (view c bn) else view c n;
  ud_writes : dev_writes (c_dev c') = dev_writes (c_dev c)
}.

Lemma inv_ext c c' R :
  cache_inv c R → c_arena c' = c_arena c → c_blocks c' = c_blocks c → c_lru c' = c_lru c → c_dev c' = c_dev c →
  cache_inv c' R.
Proof.
  intros [P1 P2 P3 P4 P5 P6 P7 P8] Ea Eb El Ed. split; rewrite ?Ea, ?Eb, ?El, ?Ed; done.
Qed.

(** The block is in hand. *)
Lemma acquire_running c R l1 ctx l2 bn :
  running c (S R) l1 ctx l2 → 0 ≤ bn < 2 ^ 32 →
  ∃ b c1 R1 x, cache_acquire me bn c = Ok b c1 ∧ acquired_post c bn (S R) b c1 R1 ∧
    c_blocks c1 !! b = Some x ∧ b_block_no x = bn ∧ b_data x = view c bn ∧
    log_inv (mkSystem c1 (l1 ++ ctx :: l2)).
Proof.
  intros [HId HL] Hbn. pose proof HId as [HI Hlk Hs Hq].
  assert (unlocked c bn) as Hu by (intros b y E _; by apply (Hq b y)).
  pose proof (acquire_Ok me c R bn Hbn HI Hlk Hs Hu) as (b & c1 & E & R1 & AP)%wp_Ok.
  pose proof (aq_block _ _ _ _ _ _ AP) as (x & Ex & Hn & _ & Hd & _).
  exists b, c1, R1, x. split_and!; try done.
  eapply log_inv_other; [exact HL|apply AP|apply AP|]. intros n. by eapply acquired_pinned.
Qed.

(** From a held block with new data [v], already pinned, to an idle cache. *)
Lemma release_updated c0 R0 c bn b x v R h' log' :
  idle c0 R0 → acquired_post c0 bn R0 b c R → c_blocks c !! b = Some x → bytes512 v →
  let y := with_pinned true (with_data v x) in
  let c2 := set_c_header h' (set_c_log log' (put_block c b y)) in
  cache_release me b c2 = Ok () (released c2 b y) ∧ idle (released c2 b y) R ∧
  (∀ n, view (released c2 b y) n = if decide (n = bn) then v else view c0 n) ∧
  (∀ n, pinned_in c2 n → pinned_in (released c2 b y) n).
Proof.
  intros [HI0 Hlk0 Hs0 Hq0] AP Ex Hv y c2.
  pose proof AP as [HI _ He (x' & Ex' & Hn & _ & _) _ Hold Hview Hs _ _]. assert (x' = x) as -> by congruence.
  pose proof (ci_wf _ _ HI b x Ex) as [_ Hl].
  assert (cache_inv (put_block c b y) R) as HI1 by (by apply (put_block_inv c R b x)).
  assert (cache_inv c2 R) as HI2 by (by apply (inv_ext (put_block c b y))).
  assert (c_blocks c2 !! b = Some y) as Ey by apply lookup_insert_eq.
  destruct (released_inv c2 R b y HI2 Ey) as [HI3 Hv3].
  assert (∀ b' z, c_blocks (released c2 b y) !! b' = Some z → b' ≠ b → c_blocks c !! b' = Some z ∧ c_blocks c0 !! b' = Some z) as Hoth.
  { intros b' z E Hne. simpl in E. rewrite !lookup_insert_ne in E by done. split; [done|]. by apply Hold. }
  split; [by apply release_Ok|]. split; [split|split].
  - done.
  - simpl. by rewrite (se_lock _ _ He).
  - intros b' z E Hev. unfold clean. simpl. destruct (decide (b' = b)) as [->|Hne].
    + simpl in E. rewrite lookup_insert_eq in E. injection E as <-. by destruct Hev.
    + destruct (Hoth b' z E Hne) as [Ez _]. by apply (Hs b' z).
  - intros b' z E. destruct (decide (b' = b)) as [->|Hne].
    + simpl in E. rewrite lookup_insert_eq in E. by injection E as <-.
    + destruct (Hoth b' z E Hne) as [_ Ez]. by apply (Hq0 b' z).
  - intros n. rewrite Hv3. rewrite (view_ext (put_block c b y) c2 R R) by done.
    rewrite (put_block_view c R b x y) by done. rewrite Hn. case_decide; [done|]. apply Hview.
  - intros n (b' & z & E & Hz & Hp). destruct (decide (b' = b)) as [->|Hne].
    + rewrite Ey in E. injection E as <-. eexists b, _. split; [simpl; apply lookup_insert_eq|done].
    + exists b', z. split; [simpl in *; by rewrite !lookup_insert_ne in * by done|done].
Qed.

Lemma update_block_Ok c R l1 ctx l2 bn f :
  running c (S R) l1 ctx l2 → 0 ≤ bn < 2 ^ 32 → 0 < ctx_rm ctx → bytes512 (f (view c bn)) →
  ∃ ctx' c' R', update_block bn f (Some ctx) c = Ok (Some ctx') c' ∧
    updated c (S R) l1 ctx l2 bn f c' R' ctx'.
Proof.
  intros HR Hbn Hrm Hf. pose proof HR as [HId HL].
  destruct (acquire_running c R l1 ctx l2 bn HR Hbn) as (b & c1 & R1 & x & E1 & AP & Ex & Hn & Hd & HL1).
  set (x2 := with_data (f (view c bn)) x). set (c2 := put_block c1 b x2).
  pose proof (ci_wf _ _ (aq_inv _ _ _ _ _ _ AP) b x Ex) as [_ Hl].
  assert (cache_inv c2 R1) as HI2 by (apply (put_block_inv c1 R1 b x); try done; apply AP).
  assert (log_inv (mkSystem c2 (l1 ++ ctx :: l2))) as HL2.
  { eapply log_inv_other; [exact HL1|done|done|]. intros n. by apply (put_block_pinned c1 b x x2). }
  destruct (sync_shape c2 R1 l1 ctx l2 b x2 HI2 HL2 Hrm) as (ctx' & h' & log' & E3 & HL3 & Hrm' & Hin & Hsub).
  { apply lookup_insert_eq. }
  set (y := with_pinned true x2) in *.
  assert (put_block c2 b y = put_block c1 b y) as Hpp by (unfold c2, put_block; simpl; by rewrite insert_insert_eq).
  rewrite Hpp in E3, HL3. set (c3 := set_c_header h' (set_c_log log' (put_block c1 b y))) in *.
  destruct (release_updated c (S R) c1 bn b x (f (view c bn)) R1 h' log' HId AP Ex Hf) as (E4 & HI4 & Hv4 & Hp4).
  eexists ctx', _, R1. split.
  { unfold update_block. erewrite bind_Ok by exact E1. erewrite bind_Ok by (by apply get_block_Ok). rewrite Hd.
    erewrite bind_Ok by (by apply upd_block_Ok). erewrite bind_Ok by exact E3. by erewrite bind_Ok by exact E4. }
  split; try done.
  - split; [done|]. eapply log_inv_other; [exact HL3|done|done|]. apply Hp4.
  - apply AP.
  - split; [by rewrite <- Hn|]. intros e He. apply Hsub. by rewrite <- (se_header _ _ (aq_env _ _ _ _ _ _ AP)) in He.
  - simpl. apply (se_writes _ _ (aq_env _ _ _ _ _ _ AP)).
Qed.

(** A block looked at and released. *)
Lemma peek_Ok c R l1 ctx l2 bn :
  running c (S R) l1 ctx l2 → 0 ≤ bn < 2 ^ 32 →
  ∃ b c1 x c2 R', cache_acquire me bn c = Ok b c1 ∧ c_blocks c1 !! b = Some x ∧ b_data x = view c bn ∧
    cache_release me b c1 = Ok () c2 ∧ running c2 R' l1 ctx l2 ∧ (R ≤ R')%nat ∧
    (∀ n, view c2 n = view c n) ∧ dev_writes (c_dev c2) = dev_writes (c_dev c) ∧ c_header c2 = c_header c.
Proof.
  intros HR Hbn. pose proof HR as [HId HL].
  destruct (acquire_running c R l1 ctx l2 bn HR Hbn) as (b & c1 & R1 & x & E1 & AP & Ex & Hn & Hd & HL1).
  pose proof HId as [HI0 Hlk0 Hs0 Hq0]. pose proof AP as [HI1 Hr He _ _ Hold Hview Hs _ _].
  pose proof (ci_wf _ _ HI1 b x Ex) as [_ Hl].
  destruct (released_inv c1 R1 b x HI1 Ex) as [HI2 Hv2].
  assert (∀ b' z, c_blocks (released c1 b x) !! b' = Some z → b' ≠ b → c_blocks c1 !! b' = Some z ∧ c_blocks c !! b' = Some z) as Hoth.
  { intros b' z E Hne. simpl in E. rewrite !lookup_insert_ne in E by done. split; [done|]. by apply Hold. }
  exists b, c1, x, (released c1 b x), R1. split_and!; try done.
  - by apply release_Ok.
  - split; [split|].
    + done.
    + simpl. by rewrite (se_lock _ _ He).
    + intros b' z E Hev. unfold clean. simpl. destruct (decide (b' = b)) as [->|Hne].
      * simpl in E. rewrite lookup_insert_eq in E. injection E as <-. simpl. rewrite Hn, (se_disk _ _ He).
        eapply acquired_clean; [exact HId|exact AP|exact Ex|apply Hev].
      * destruct (Hoth b' z E Hne) as [Ez _]. by apply (Hs b' z).
    + intros b' z E. destruct (decide (b' = b)) as [->|Hne].
      * simpl in E. rewrite lookup_insert_eq in E. by injection E as <-.
      * destruct (Hoth b' z E Hne) as [_ Ez]. by apply (Hq0 b' z).
    + eapply log_inv_other; [exact HL1|done|done|]. intros n Hp.
      by apply (put_block_pinned c1 b x (with_block_lock {| slk := init_spinlock (lname (slk (b_lock x))); slocked := false |} (with_acquired false x))).
  - lia.
  - intros n. by rewrite Hv2.
  - apply He.
  - apply He.
Qed.
End update.

(** ** Bits of a bitmap block *)
Definition block_bit (data : list Z) (bi : Z) : bool :=
  match data !! Z.to_nat (bi / 8) with Some x => Z.testbit x (bi mod 8) | None => false end.

Lemma bit_mask_pow bi : bit_mask bi = 2 ^ (bi mod 8).
Proof.
  pose proof (Z.mod_pos_bound bi 8 ltac:(lia)). unfold bit_mask. rewrite Z.shiftl_1_l. unfold u8. apply wrap_small.
  split; [lia|]. apply Z.pow_lt_mono_r; lia.
Qed.

Lemma land_pow2_zero x k : 0 ≤ k → (Z.land x (2 ^ k) =? 0) = negb (Z.testbit x k).
Proof.
  intros Hk. destruct (Z.testbit x k) eqn:E; simpl.
  - apply Z.eqb_neq. intros Hz. apply (f_equal (λ z, Z.testbit z k)) in Hz.
    rewrite Z.land_spec, Z.pow2_bits_true, E, Z.testbit_0_l in Hz by done. done.
  - apply Z.eqb_eq. apply Z.bits_inj'. intros j Hj. rewrite Z.land_spec, Z.testbit_0_l.
    destruct (decide (j = k)) as [->|Hne]; [by rewrite E|]. rewrite Z.pow2_bits_false by lia. by rewrite andb_false_r.
Qed.

Lemma byte_index bi : 0 ≤ bi < BIT_PER_BLOCK → (Z.to_nat (bi / 8) < Z.to_nat BLOCK_SIZE)%nat.
Proof.
  unfold BIT_PER_BLOCK, BLOCK_SIZE. intros. assert (bi / 8 < 512) by (apply Z.div_lt_upper_bound; lia).
  assert (0 ≤ bi / 8) by (apply Z.div_pos; lia). lia.
Qed.

Lemma data_byte data bi : bytes512 data → 0 ≤ bi < BIT_PER_BLOCK →
  ∃ x, data !! Z.to_nat (bi / 8) = Some x ∧ 0 ≤ x < 256.
Proof.
  intros [Hl Hb] Hbi. destruct (lookup_lt_is_Some_2 data (Z.to_nat (bi / 8))) as [x Ex].
  { rewrite Hl. by apply byte_index. }
  exists x. split; [done|]. by eapply Forall_lookup_1 in Hb.
Qed.

(** Changing the byte of bit [i] so that exactly that bit becomes [v]. *)
Lemma block_bit_alter data i j x y (v : bool) :
  0 ≤ i → 0 ≤ j → data !! Z.to_nat (i / 8) = Some x →
  (∀ k, 0 ≤ k < 8 → Z.testbit y k = if bool_decide (k = i mod 8) then v else Z.testbit x k) →
  block_bit (<[Z.to_nat (i / 8) := y]> data) j = if bool_decide (j = i) then v else block_bit data j.
Proof.
  intros Hi Hj E Hbits. pose proof (lookup_lt_Some _ _ _ E) as Hlen.
  assert (0 ≤ i / 8 ∧ 0 ≤ j / 8) as [? ?] by (split; apply Z.div_pos; lia).
  pose proof (Z.mod_pos_bound j 8 ltac:(lia)). unfold block_bit.
  destruct (decide (j / 8 = i / 8)) as [Hd|Hd].
  - rewrite Hd, list_lookup_insert_eq by done. rewrite Hbits by lia. rewrite E.
    case_bool_decide as Hm; case_bool_decide as Hji; subst; try done.
    exfalso. apply Hji. rewrite (Z.div_mod i 8), (Z.div_mod j 8) by lia. congruence.
  - rewrite list_lookup_insert_ne by (intros ?%Z2Nat.inj; auto).
    rewrite bool_decide_eq_false_2; [done|]. by intros ->.
Qed.

Lemma alter_byte (data : list Z) i x (g : Z → Z) :
  data !! Z.to_nat (i / 8) = Some x → alter g (Z.to_nat (i / 8)) data = <[Z.to_nat (i / 8) := g x]> data.
Proof.
  intros E. apply list_eq. intros k. destruct (decide (k = Z.to_nat (i / 8))) as [->|Hne].
  - rewrite list_lookup_alter_eq, list_lookup_insert_eq by (by eapply lookup_lt_Some). by rewrite E.
  - by rewrite list_lookup_alter_ne, list_lookup_insert_ne.
Qed.

Lemma set_bit_spec data i :
  bytes512 data → 0 ≤ i < BIT_PER_BLOCK →
  bytes512 (set_bit data i) ∧
  ∀ j, 0 ≤ j → block_bit (set_bit data i) j = if bool_decide (j = i) then true else block_bit data j.
Proof.
  intros Hd Hi. destruct (data_byte data i Hd Hi) as (x & Ex & Hx). pose proof (Z.mod_pos_bound i 8 ltac:(lia)).
  unfold set_bit. rewrite (alter_byte _ _ x) by done. split.
  - destruct Hd as [Hl Hb]. split; [by rewrite length_insert|]. apply Forall_insert; [done|].
    rewrite bit_mask_pow. apply (lor_range 8); [lia|done|]. split; [lia|]. apply Z.pow_lt_mono_r; lia.
  - intros j Hj. apply (block_bit_alter data i j x); [lia|done|done|]. intros k Hk.
    rewrite bit_mask_pow, Z.lor_spec, Z.pow2_bits_eqb by lia.
    case_bool_decide as E; [by rewrite E, Z.eqb_refl, orb_true_r|].
    rewrite (proj2 (Z.eqb_neq _ _)) by auto. by rewrite orb_false_r.
Qed.

Lemma clear_bit_spec data i :
  bytes512 data → 0 ≤ i < BIT_PER_BLOCK →
  bytes512 (clear_bit data i) ∧
  ∀ j, 0 ≤ j → block_bit (clear_bit data i) j = if bool_decide (j = i) then false else block_bit data j.
Proof.
  intros Hd Hi. destruct (data_byte data i Hd Hi) as (x & Ex & Hx). pose proof (Z.mod_pos_bound i 8 ltac:(lia)).
  unfold clear_bit. rewrite (alter_byte _ _ x) by done. split.
  - destruct Hd as [Hl Hb]. split; [by rewrite length_insert|]. apply Forall_insert; [done|].
    unfold u8. apply (wrap_range 8). lia.
  - intros j Hj. apply (block_bit_alter data i j x); [lia|done|done|]. intros k Hk.
    unfold u8, wrap. rewrite Z.mod_pow2_bits_low by lia.
    rewrite Z.land_spec, Z.lnot_spec by lia. rewrite Z.shiftl_1_l, Z.pow2_bits_eqb by lia.
    case_bool_decide as E; [by rewrite E, Z.eqb_refl, andb_false_r|].
    rewrite (proj2 (Z.eqb_neq _ _)) by auto. by rewrite andb_true_r.
Qed.

Lemma first_free_spec data n : ∀ bi,
  bytes512 data → 0 ≤ bi → bi + Z.of_nat n ≤ BIT_PER_BLOCK →
  match first_free data bi n with
  | Some j => bi ≤ j < bi + Z.of_nat n ∧ block_bit data j = false ∧ ∀ k, bi ≤ k < j → block_bit data k = true
  | None => ∀ k, bi ≤ k < bi + Z.of_nat n → block_bit data k = true
  end.
Proof.
  induction n as [|n IH]; intros bi Hd H0 Hn; cbn [first_free]; [intros; lia|].
  destruct (data_byte data bi Hd ltac:(lia)) as (x & Ex & Hx). rewrite Ex.
  pose proof (Z.mod_pos_bound bi 8 ltac:(lia)). rewrite bit_mask_pow, land_pow2_zero by lia.
  assert (block_bit data bi = Z.testbit x (bi mod 8)) as Hb by (unfold block_bit; by rewrite Ex).
  destruct (Z.testbit x (bi mod 8)) eqn:Et; simpl.
  - specialize (IH (bi + 1) Hd ltac:(lia) ltac:(lia)). destruct (first_free data (bi + 1) n) as [j|].
    + destruct IH as (Hj & Hf & Hb'). split; [lia|]. split; [done|]. intros k Hk.
      destruct (decide (k = bi)) as [->|]; [done|]. apply Hb'. lia.
    + intros k Hk. destruct (decide (k = bi)) as [->|]; [done|]. apply IH. lia.
  - split; [lia|]. split; [done|]. intros; lia.
Qed.

(** ** [cache_alloc] and [cache_free] *)
Section bitmap.
Context {A D : Type} `{ObjectPoolLaws A} `{BlockDeviceLaws D}.
Context (sb : SuperBlock) (me : Z).
Implicit Types (c : Cache A D) (ctx : OpContext) (l : list OpContext).

Definition bitmap_ok : Prop :=
  0 < sb_num_blocks sb < 2 ^ 31 ∧ 0 ≤ sb_bitmap_start sb ∧
  sb_bitmap_start sb + sb_num_blocks sb / BIT_PER_BLOCK < 2 ^ 32.

(** Is block [bn] allocated? *)
Definition fs_bit c bn : bool := block_bit (view c (BBLOCK sb bn)) (bn mod BIT_PER_BLOCK).

Lemma view_bytes c R n : idle c R → bytes512 (view c n).
Proof.
  intros [HI _ _ _]. destruct (find_addr_cases c R n HI) as [(p & z & _ & Ez & <-)|(_ & Hno)].
  - rewrite (view_hit c R p z) by done. by apply (ci_wf _ _ HI p z).
  - rewrite (view_miss c R n HI Hno). apply dev_disk_size, HI.
Qed.

Lemma BBLOCK_range bn : bitmap_ok → 0 ≤ bn < sb_num_blocks sb →
  BBLOCK sb bn = bn / BIT_PER_BLOCK + sb_bitmap_start sb ∧ 0 ≤ BBLOCK sb bn < 2 ^ 32.
Proof.
  intros (B1 & B2 & B3) Hbn. unfold BBLOCK.
  assert (0 ≤ bn / BIT_PER_BLOCK) by (apply Z.div_pos; unfold BIT_PER_BLOCK, BLOCK_SIZE; lia).
  assert (bn / BIT_PER_BLOCK ≤ sb_num_blocks sb / BIT_PER_BLOCK)
    by (apply Z.div_le_mono; unfold BIT_PER_BLOCK, BLOCK_SIZE; lia).
  rewrite u64_small by lia. lia.
Qed.

Lemma bzero_update c bn (ctx : option OpContext) b c1 x :
  cache_acquire me bn c = Ok b c1 → c_blocks c1 !! b = Some x →
  bzero me ctx bn c = update_block me bn (λ _, zero_block) ctx c.
Proof.
  intros E Ex. unfold bzero, update_block. erewrite bind_Ok by exact E. symmetry.
  erewrite bind_Ok by exact E. by erewrite bind_Ok by (by apply get_block_Ok).
Qed.

Lemma bzero_Ok c R l1 ctx l2 bn :
  running c (S R) l1 ctx l2 → 0 ≤ bn < 2 ^ 32 → 0 < ctx_rm ctx →
  ∃ ctx' c' R', bzero me (Some ctx) bn c = Ok (Some ctx') c' ∧
    updated c (S R) l1 ctx l2 bn (λ _, zero_block) c' R' ctx'.
Proof.
  intros HR Hbn Hrm.
  destruct (acquire_running me c R l1 ctx l2 bn HR Hbn) as (b & c1 & R1 & x & E1 & _ & Ex & _).
  rewrite (bzero_update c bn (Some ctx) b c1 x E1 Ex). apply update_block_Ok; try done. apply zero_block_bytes.
Qed.

(** What an allocation of [bn] leaves behind. *)
Record balloc c l1 ctx l2 bn ctx' c' : Prop := {
  ba_running : ∃ R', running c' R' l1 ctx' l2;
  ba_range : 0 ≤ bn < sb_num_blocks sb;
  ba_free : fs_bit c bn = false;
  ba_first : ∀ m, 0 ≤ m < bn → fs_bit c m = true;
  ba_view : ∀ n, view c' n =
    if decide (n = bn) then zero_block
    else if decide (n = BBLOCK sb bn) then set_bit (view c n) (bn mod BIT_PER_BLOCK)
    else view c n;
  ba_logged : bn ∈ entries (c_header c') ∧ BBLOCK sb bn ∈ entries (c_header c');
  ba_rm : ctx_rm ctx - 2 ≤ ctx_rm ctx';
  ba_writes : dev_writes (c_dev c') = dev_writes (c_dev c)
}.

(** The iteration that finds the free bit. *)
Lemma alloc_found c R l1 ctx l2 fuel b bi :
  bitmap_ok → running c (S (S R)) l1 ctx l2 → 2 ≤ ctx_rm ctx → 0 ≤ b < sb_num_blocks sb → b mod BIT_PER_BLOCK = 0 →
  first_free (view c (BBLOCK sb b)) 0 (Z.to_nat (Z.min BIT_PER_BLOCK (sb_num_blocks sb - b))) = Some bi →
  ∃ ctx' c', alloc_loop sb me (S fuel) (Some ctx) b c = Ok (b + bi, Some ctx') c' ∧
    (∃ R', running c' R' l1 ctx' l2) ∧ ctx_rm ctx - 2 ≤ ctx_rm ctx' ∧
    b + bi ∈ entries (c_header c') ∧ BBLOCK sb b ∈ entries (c_header c') ∧
    dev_writes (c_dev c') = dev_writes (c_dev c) ∧
    ∀ n, view c' n = if decide (n = b + bi) then zero_block
      else if decide (n = BBLOCK sb b) then set_bit (view c n) bi else view c n.
Proof.
  intros HB HR Hrm Hb Hal Hff. destruct (BBLOCK_range b HB Hb) as [_ Hbb].
  pose proof (view_bytes c _ (BBLOCK sb b) (rn_idle _ _ _ _ _ HR)) as Hvb.
  pose proof (first_free_spec _ (Z.to_nat (Z.min BIT_PER_BLOCK (sb_num_blocks sb - b))) 0 Hvb ltac:(lia)) as Hsp.
  specialize (Hsp ltac:(unfold BIT_PER_BLOCK, BLOCK_SIZE; lia)).
  rewrite Hff in Hsp. destruct Hsp as (Hbi & _ & _).
  assert (0 ≤ bi < BIT_PER_BLOCK ∧ b + bi < sb_num_blocks sb) as [Hbi' Hsum] by lia.
  destruct HB as (HB1 & _). assert (u32 (b + bi) = b + bi) as Hu by (apply u32_small; lia).
  destruct (acquire_running me c (S R) l1 ctx l2 _ HR Hbb) as (p & c1 & R1 & x & E1 & _ & Ex & _ & Hd & _).
  destruct (update_block_Ok me c (S R) l1 ctx l2 (BBLOCK sb b) (λ d, set_bit d bi) HR Hbb ltac:(lia))
    as (ctx1 & c2 & R2 & E2 & U1). { by apply set_bit_spec. }
  destruct U1 as [HR2 Hr2 Hrm2 [Hlog2 Hsub2] Hv2 Hw2]. destruct R2 as [|R2]; [lia|].
  destruct (bzero_Ok c2 R2 l1 ctx1 l2 (b + bi) HR2 ltac:(lia) ltac:(lia)) as (ctx2 & c3 & R3 & E3 & U2).
  destruct U2 as [HR3 Hr3 Hrm3 [Hlog3 Hsub3] Hv3 Hw3].
  exists ctx2, c3. split.
  { cbn [alloc_loop]. destruct (Z.ltb_spec b (sb_num_blocks sb)); [|lia].
    erewrite bind_Ok by exact E1. erewrite bind_Ok by (by apply get_block_Ok). rewrite Hd, Hff, Hu.
    unfold update_block in E2. erewrite bind_Ok in E2 by exact E1.
    erewrite bind_Ok in E2 by (by apply get_block_Ok). rewrite Hd in E2.
    apply bind_Ok_inv in E2 as ([] & c4 & E4 & E2). erewrite bind_Ok by exact E4.
    apply bind_Ok_inv in E2 as (ctx4 & c5 & E5 & E2). erewrite bind_Ok by exact E5.
    apply bind_Ok_inv in E2 as ([] & c6 & E6 & E2). erewrite bind_Ok by exact E6.
    injection E2 as -> ->. by erewrite bind_Ok by exact E3. }
  split; [eauto|]. split; [lia|]. split; [done|]. split; [by apply Hsub3|]. split; [congruence|].
  intros n. rewrite Hv3. case_decide; [done|]. rewrite Hv2. case_decide; [by subst|done].
Qed.

Lemma fs_bit_at c b k :
  b mod BIT_PER_BLOCK = 0 → 0 ≤ k < BIT_PER_BLOCK →
  BBLOCK sb (b + k) = BBLOCK sb b ∧ (b + k) mod BIT_PER_BLOCK = k ∧
  fs_bit c (b + k) = block_bit (view c (BBLOCK sb b)) k.
Proof.
  intros Hb Hk. assert (0 < BIT_PER_BLOCK) by (unfold BIT_PER_BLOCK, BLOCK_SIZE; lia).
  pose proof (Z.div_mod b BIT_PER_BLOCK ltac:(lia)) as Hdm. rewrite Hb, Z.add_0_r in Hdm.
  assert ((b + k) / BIT_PER_BLOCK = b / BIT_PER_BLOCK) as Hd.
  { rewrite Hdm at 1. rewrite Z.mul_comm, Z.div_add_l by lia. rewrite (Z.div_small k) by done. lia. }
  assert ((b + k) mod BIT_PER_BLOCK = k) as Hm.
  { rewrite Hdm, Z.mul_comm, Z.add_comm, Z.mod_add by lia. by apply Z.mod_small. }
  assert (BBLOCK sb (b + k) = BBLOCK sb b) as HB by (unfold BBLOCK; by rewrite Hd).
  split_and!; [done..|]. unfold fs_bit. by rewrite HB, Hm.
Qed.

Lemma alloc_loop_Ok fuel : ∀ c0 c R l1 ctx l2 b,
  bitmap_ok → running c (S (S (R + fuel))) l1 ctx l2 → 2 ≤ ctx_rm ctx →
  0 ≤ b → b mod BIT_PER_BLOCK = 0 → b < sb_num_blocks sb + BIT_PER_BLOCK →
  sb_num_blocks sb - b ≤ BIT_PER_BLOCK * (Z.of_nat fuel - 1) →
  (∀ n, view c n = view c0 n) → dev_writes (c_dev c) = dev_writes (c_dev c0) →
  (∀ m, 0 ≤ m < b → m < sb_num_blocks sb → fs_bit c0 m = true) →
  (∃ bn ctx' c', alloc_loop sb me fuel (Some ctx) b c = Ok (bn, Some ctx') c' ∧ balloc c0 l1 ctx l2 bn ctx' c') ∨
  (alloc_loop sb me fuel (Some ctx) b c = Panic "cache_alloc: no free block" ∧
   ∀ m, 0 ≤ m < sb_num_blocks sb → fs_bit c0 m = true).
Proof.
  induction fuel as [|fuel IH]; intros c0 c R l1 ctx l2 b HB HR Hrm H0b Hal Hb Hfuel Hv Hw Hset.
  { unfold BIT_PER_BLOCK, BLOCK_SIZE in *. lia. }
  destruct (decide (b < sb_num_blocks sb)) as [Hlt|Hge].
  2:{ right. split.
      - cbn [alloc_loop]. destruct (Z.ltb_spec b (sb_num_blocks sb)); [lia|done].
      - intros m Hm. apply Hset; lia. }
  destruct (BBLOCK_range b HB ltac:(lia)) as [_ Hbb].
  pose proof (view_bytes c _ (BBLOCK sb b) (rn_idle _ _ _ _ _ HR)) as Hvb.
  pose proof (first_free_spec _ (Z.to_nat (Z.min BIT_PER_BLOCK (sb_num_blocks sb - b))) 0 Hvb ltac:(lia)) as Hsp.
  specialize (Hsp ltac:(unfold BIT_PER_BLOCK, BLOCK_SIZE; lia)).
  assert (∀ k, 0 ≤ k < BIT_PER_BLOCK → fs_bit c0 (b + k) = block_bit (view c (BBLOCK sb b)) k) as Hbit.
  { intros k Hk. rewrite Hv. by apply (fs_bit_at c0 b k Hal). }
  assert (BIT_PER_BLOCK = 4096) as HBP by done.
  destruct (first_free _ _ _) as [bi|] eqn:Hff.
  - destruct Hsp as (Hbi & Hfree & Hbefore). left.
    destruct (alloc_found c (R + S fuel) l1 ctx l2 fuel b bi HB HR Hrm ltac:(lia) Hal Hff)
      as (ctx' & c' & E & HR' & Hrm' & Hl1 & Hl2 & Hw' & Hv').
    exists (b + bi), ctx', c'. split; [done|].
    destruct (fs_bit_at c0 b bi Hal ltac:(lia)) as (HBB & Hmod & _). split; try done.
    + lia.
    + rewrite Hbit by lia. done.
    + intros m Hm. destruct (decide (m < b)) as [?|?]; [apply Hset; lia|].
      replace m with (b + (m - b)) by lia. rewrite Hbit by lia. apply Hbefore. lia.
    + intros n. rewrite Hv', HBB, Hmod, Hv. done.
    + by rewrite HBB.
    + congruence.
  - destruct (peek_Ok me c (S (R + S fuel)) l1 ctx l2 (BBLOCK sb b) HR Hbb)
      as (p & c1 & x & c2 & R2 & E1 & Ex & Hd & E2 & HR2 & Hr2 & Hv2 & Hw2 & _).
    assert (u32 (b + BIT_PER_BLOCK) = b + BIT_PER_BLOCK) as Hu.
    { apply u32_small. destruct HB as [? _]. lia. }
    assert (alloc_loop sb me (S fuel) (Some ctx) b c = alloc_loop sb me fuel (Some ctx) (b + BIT_PER_BLOCK) c2) as ->.
    { cbn [alloc_loop]. destruct (Z.ltb_spec b (sb_num_blocks sb)); [|lia].
      erewrite bind_Ok by exact E1. erewrite bind_Ok by (by apply get_block_Ok). rewrite Hd, Hff, Hu.
      by erewrite bind_Ok by exact E2. }
    apply (IH c0 c2 (R2 - S (S fuel))%nat); try done.
    + replace (S (S (R2 - S (S fuel) + fuel))) with R2 by lia. done.
    + lia.
    + rewrite Z.add_mod, Hal, Z.mod_same by (unfold BIT_PER_BLOCK, BLOCK_SIZE; lia). done.
    + lia.
    + lia.
    + intros n. by rewrite Hv2.
    + congruence.
    + intros m Hm Hmn. destruct (decide (m < b)) as [?|?]; [apply Hset; lia|].
      replace m with (b + (m - b)) by lia. rewrite Hbit by lia. apply Hsp. lia.
Qed.

Lemma cache_alloc_Ok c R l1 ctx l2 :
  bitmap_ok → running c R l1 ctx l2 → (Z.to_nat (sb_num_blocks sb / BIT_PER_BLOCK) + 4 ≤ R)%nat → 2 ≤ ctx_rm ctx →
  (∃ bn ctx' c', cache_alloc sb me (Some ctx) c = Ok (bn, Some ctx') c' ∧ balloc c l1 ctx l2 bn ctx' c') ∨
  (cache_alloc sb me (Some ctx) c = Panic "cache_alloc: no free block" ∧
   ∀ m, 0 ≤ m < sb_num_blocks sb → fs_bit c m = true).
Proof.
  intros HB HR HRoom Hrm. unfold cache_alloc. set (fuel := S (Z.to_nat (sb_num_blocks sb / BIT_PER_BLOCK + 1))).
  assert (BIT_PER_BLOCK = 4096) as HBP by done. pose proof HB as (HB1 & _).
  pose proof (Z.div_mod (sb_num_blocks sb) BIT_PER_BLOCK ltac:(lia)).
  pose proof (Z.mod_pos_bound (sb_num_blocks sb) BIT_PER_BLOCK ltac:(lia)).
  assert (0 ≤ sb_num_blocks sb / BIT_PER_BLOCK) by (apply Z.div_pos; lia).
  apply (alloc_loop_Ok fuel c c (R - fuel - 2)%nat); try done; try lia.
  replace (S (S (R - fuel - 2 + fuel))) with R by (unfold fuel; lia). done.
Qed.

(** [cache_free] of an allocated block, and of a free one. *)
Lemma cache_free_Ok c R l1 ctx l2 bn :
  bitmap_ok → running c (S R) l1 ctx l2 → 0 < ctx_rm ctx → 0 ≤ bn < sb_num_blocks sb →
  if fs_bit c bn then
    ∃ ctx' c' R', cache_free sb me (Some ctx) bn c = Ok (Some ctx') c' ∧
      updated c (S R) l1 ctx l2 (BBLOCK sb bn) (λ d, clear_bit d (bn mod BIT_PER_BLOCK)) c' R' ctx'
  else cache_free sb me (Some ctx) bn c = Panic "freeing free block".
Proof.
  intros HB HR Hrm Hbn. destruct (BBLOCK_range bn HB Hbn) as [_ Hbb].
  pose proof (view_bytes c _ (BBLOCK sb bn) (rn_idle _ _ _ _ _ HR)) as Hvb.
  assert (0 ≤ bn mod BIT_PER_BLOCK < BIT_PER_BLOCK) as Hbi by (apply Z.mod_pos_bound; unfold BIT_PER_BLOCK, BLOCK_SIZE; lia).
  destruct (acquire_running me c R l1 ctx l2 _ HR Hbb) as (p & c1 & R1 & x & E1 & _ & Ex & _ & Hd & _).
  destruct (data_byte _ _ Hvb Hbi) as (v & Ev & Hv).
  pose proof (Z.mod_pos_bound (bn mod BIT_PER_BLOCK) 8 ltac:(lia)).
  assert (fs_bit c bn = Z.testbit v ((bn mod BIT_PER_BLOCK) mod 8)) as Hfb by (unfold fs_bit, block_bit; by rewrite Ev).
  assert (cache_free sb me (Some ctx) bn c =
    ((if Z.land v (Z.shiftl 1 ((bn mod BIT_PER_BLOCK) mod 8)) =? 0 then panic "freeing free block" else mret ());;
     upd_block p (with_data (clear_bit (b_data x) (bn mod BIT_PER_BLOCK)));;
     ctx ← cache_sync me (Some ctx) p; cache_release me p;; mret ctx) c1) as ->.
  { unfold cache_free. erewrite bind_Ok by exact E1. cbn zeta.
    erewrite bind_Ok by (by apply get_block_Ok). rewrite Hd, Ev. by erewrite bind_Ok by done. }
  rewrite Z.shiftl_1_l, land_pow2_zero, <- Hfb by lia.
  destruct (fs_bit c bn); simpl; [|done].
  destruct (update_block_Ok me c R l1 ctx l2 (BBLOCK sb bn) (λ d, clear_bit d (bn mod BIT_PER_BLOCK)) HR Hbb Hrm)
    as (ctx' & c' & R' & E2 & U). { by apply clear_bit_spec. }
  exists ctx', c', R'. split; [|done]. erewrite bind_Ok by done. unfold update_block in E2.
  erewrite bind_Ok in E2 by exact E1. by erewrite bind_Ok in E2 by (by apply get_block_Ok).
Qed.
End bitmap.

(** ** Theorems *)

(** C30. [cache_alloc] inside an operation with room for two more blocks
    returns the lowest free block of the bitmap, sets exactly its bit, and shows the
    block as all zeroes; both blocks are logged and nothing reaches the disk. It
    panics exactly when every block is allocated. *)
Theorem cache_alloc_correct {A D} `{ObjectPoolLaws A} `{BlockDeviceLaws D} sb me (c : Cache A D) R l1 ctx l2 :
  bitmap_ok sb → running c R l1 ctx l2 → (Z.to_nat (sb_num_blocks sb / BIT_PER_BLOCK) + 4 ≤ R)%nat → 2 ≤ ctx_rm ctx →
  (∃ bn ctx' c' R', cache_alloc sb me (Some ctx) c = Ok (bn, Some ctx') c' ∧ running c' R' l1 ctx' l2 ∧
     0 ≤ bn < sb_num_blocks sb ∧ fs_bit sb c bn = false ∧ (∀ m, 0 ≤ m < bn → fs_bit sb c m = true) ∧
     view c' bn = zero_block ∧
     (∀ n, n ≠ bn → n ≠ BBLOCK sb bn → view c' n = view c n) ∧
     (BBLOCK sb bn ≠ bn → ∀ m, 0 ≤ m < sb_num_blocks sb → BBLOCK sb m ≠ bn →
        fs_bit sb c' m = if decide (m = bn) then true else fs_bit sb c m) ∧
     bn ∈ entries (c_header c') ∧ BBLOCK sb bn ∈ entries (c_header c') ∧
     dev_writes (c_dev c') = dev_writes (c_dev c)) ∨
  (cache_alloc sb me (Some ctx) c = Panic "cache_alloc: no free block" ∧
   ∀ m, 0 ≤ m < sb_num_blocks sb → fs_bit sb c m = true).
Proof.
  intros HB HR HRoom Hrm. destruct (cache_alloc_Ok sb me c R l1 ctx l2 HB HR HRoom Hrm) as [Hok|?]; [left|by right].
  destruct Hok as (bn & ctx' & c' & E & [[R' HR'] Hr Hf Hfirst Hv [Hl1 Hl2] _ Hw]).
  exists bn, ctx', c', R'. do 5 (split; [done|]). split; [by rewrite Hv, decide_True|].
  split; [|split; [|done]].
  - intros n Hn Hnb. by rewrite Hv, !decide_False.
  - intros Hne m Hm Hmb. unfold fs_bit. rewrite Hv, decide_False by done.
    assert (BIT_PER_BLOCK = 4096) as HBP by done.
    pose proof (view_bytes c _ (BBLOCK sb m) (rn_idle _ _ _ _ _ HR)) as Hvb.
    assert (0 ≤ bn mod BIT_PER_BLOCK < BIT_PER_BLOCK) by (apply Z.mod_pos_bound; lia).
    assert (0 ≤ m mod BIT_PER_BLOCK < BIT_PER_BLOCK) by (apply Z.mod_pos_bound; lia).
    destruct (decide (BBLOCK sb m = BBLOCK sb bn)) as [Heq|Hneq].
    + destruct (set_bit_spec (view c (BBLOCK sb m)) (bn mod BIT_PER_BLOCK) Hvb ltac:(done)) as [_ Hset].
      rewrite Hset by lia. destruct (BBLOCK_range sb m HB Hm) as [E1 _], (BBLOCK_range sb bn HB Hr) as [E2 _].
      case_bool_decide as Hmod; [|rewrite decide_False by (by intros ->); done].
      rewrite decide_True; [done|]. rewrite (Z.div_mod m BIT_PER_BLOCK), (Z.div_mod bn BIT_PER_BLOCK) by lia.
      rewrite Hmod. f_equal. f_equal. lia.
    + rewrite decide_False; [done|]. by intros ->.
Qed.

(** The operation of the log example, on an empty disk. *)
Definition demo_ctx : OpContext := {| ctx_ts := 1; ctx_rm := 10 |}.
Definition demo_running : Cache Z RamDisk := free_log demo_cache 1 false 10.

Lemma demo_running_ok : running demo_running 99 [] demo_ctx [].
Proof.
  split.
  - split; [|done|..].
    + apply (inv_ext demo_cache); [by apply demo_cache_inv|done..].
    + intros b y E. simpl in E. by apply lookup_empty_Some in E.
    + intros b y E. simpl in E. by apply lookup_empty_Some in E.
  - apply (log_inv_begin 0 demo_cache demo_running demo_ctx []); [|reflexivity].
    apply log_inv_init. vm_compute. repeat split; congruence.
Qed.

Lemma cache_alloc_correct_witness :
  (∃ bn ctx' c' R', cache_alloc demo_sb 0 (Some demo_ctx) demo_running = Ok (bn, Some ctx') c' ∧ running c' R' [] ctx' [] ∧
     0 ≤ bn < sb_num_blocks demo_sb ∧ fs_bit demo_sb demo_running bn = false ∧
     (∀ m, 0 ≤ m < bn → fs_bit demo_sb demo_running m = true) ∧
     view c' bn = zero_block ∧
     (∀ n, n ≠ bn → n ≠ BBLOCK demo_sb bn → view c' n = view demo_running n) ∧
     (BBLOCK demo_sb bn ≠ bn → ∀ m, 0 ≤ m < sb_num_blocks demo_sb → BBLOCK demo_sb m ≠ bn →
        fs_bit demo_sb c' m = if decide (m = bn) then true else fs_bit demo_sb demo_running m) ∧
     bn ∈ entries (c_header c') ∧ BBLOCK demo_sb bn ∈ entries (c_header c') ∧
     dev_writes (c_dev c') = dev_writes (c_dev demo_running)) ∨
  (cache_alloc demo_sb 0 (Some demo_ctx) demo_running = Panic "cache_alloc: no free block" ∧
   ∀ m, 0 ≤ m < sb_num_blocks demo_sb → fs_bit demo_sb demo_running m = true).
Proof.
  refine (cache_alloc_correct demo_sb 0 demo_running 99 [] demo_ctx [] _ demo_running_ok _ _).
  - vm_compute. repeat split; congruence.
  - vm_compute. lia.
  - vm_compute. congruence.
Defined.

(** [cache_free] of an allocated block clears exactly its bit in the
    bitmap, logs the bitmap block and leaves every other block alone; freeing a free
    block panics. *)
Lemma cache_free_correct {A D} `{ObjectPoolLaws A} `{BlockDeviceLaws D} sb me (c : Cache A D) R l1 ctx l2 bn :
  bitmap_ok sb → running c (S R) l1 ctx l2 → 0 < ctx_rm ctx → 0 ≤ bn < sb_num_blocks sb →
  if fs_bit sb c bn then
    ∃ ctx' c' R', cache_free sb me (Some ctx) bn c = Ok (Some ctx') c' ∧ running c' R' l1 ctx' l2 ∧
      fs_bit sb c' bn = false ∧
      (∀ m, 0 ≤ m < sb_num_blocks sb → m ≠ bn → fs_bit sb c' m = fs_bit sb c m) ∧
      (∀ n, n ≠ BBLOCK sb bn → view c' n = view c n) ∧
      BBLOCK sb bn ∈ entries (c_header c') ∧ dev_writes (c_dev c') = dev_writes (c_dev c)
  else cache_free sb me (Some ctx) bn c = Panic "freeing free block".
Proof.
  intros HB HR Hrm Hbn. pose proof (cache_free_Ok sb me c R l1 ctx l2 bn HB HR Hrm Hbn) as Hok.
  destruct (fs_bit sb c bn); [|done]. destruct Hok as (ctx' & c' & R' & E & [HR' _ _ [Hl _] Hv Hw]).
  assert (BIT_PER_BLOCK = 4096) as HBP by done.
  pose proof (view_bytes c _ (BBLOCK sb bn) (rn_idle _ _ _ _ _ HR)) as Hvb.
  assert (0 ≤ bn mod BIT_PER_BLOCK < BIT_PER_BLOCK) by (apply Z.mod_pos_bound; lia).
  destruct (clear_bit_spec (view c (BBLOCK sb bn)) (bn mod BIT_PER_BLOCK) Hvb ltac:(done)) as [_ Hcl].
  exists ctx', c', R'. split_and!; try done.
  - unfold fs_bit. rewrite Hv, decide_True by done. rewrite Hcl by lia. by rewrite bool_decide_eq_true_2.
  - intros m Hm Hne. unfold fs_bit. rewrite Hv. case_decide as Heq; [|done]. rewrite Heq, Hcl.
    2:{ apply Z.mod_pos_bound. lia. }
    rewrite bool_decide_eq_false_2; [done|]. intros Hmod. apply Hne.
    destruct (BBLOCK_range sb m HB Hm) as [E1 _], (BBLOCK_range sb bn HB Hbn) as [E2 _].
    rewrite (Z.div_mod m BIT_PER_BLOCK), (Z.div_mod bn BIT_PER_BLOCK) by lia. rewrite Hmod. f_equal. f_equal. lia.
  - intros n Hn. by rewrite Hv, decide_False.
Qed.

(** The same operation on a disk whose bitmap has blocks 0 and 1 allocated. *)
Definition demo_used : Cache Z RamDisk :=
  set_c_dev {| rd_disk := {[ dev_block 92 := 3 :: replicate 511 0 ]}; rd_writes := [] |} demo_running.

Lemma demo_used_ok : running demo_used 99 [] demo_ctx [].
Proof.
  destruct demo_running_ok as [[HI Hl Hs Hq] HL]. split; [split; [|done|..]|].
  - apply set_dev_inv; [done|]. intros n v. cbn [rd_disk]. intros [_ <-]%lookup_singleton_Some.
    split; [reflexivity|]. constructor; [lia|]. apply Forall_replicate. lia.
  - intros b y E. simpl in E. by apply lookup_empty_Some in E.
  - intros b y E. simpl in E. by apply lookup_empty_Some in E.
  - by apply (log_inv_other demo_running).
Qed.

Lemma cache_free_correct_witness :
  fs_bit demo_sb demo_used 1 = true ∧
  if fs_bit demo_sb demo_used 1 then
    ∃ ctx' c' R', cache_free demo_sb 0 (Some demo_ctx) 1 demo_used = Ok (Some ctx') c' ∧ running c' R' [] ctx' [] ∧
      fs_bit demo_sb c' 1 = false ∧
      (∀ m, 0 ≤ m < sb_num_blocks demo_sb → m ≠ 1 → fs_bit demo_sb c' m = fs_bit demo_sb demo_used m) ∧
      (∀ n, n ≠ BBLOCK demo_sb 1 → view c' n = view demo_used n) ∧
      BBLOCK demo_sb 1 ∈ entries (c_header c') ∧ dev_writes (c_dev c') = dev_writes (c_dev demo_used)
  else cache_free demo_sb 0 (Some demo_ctx) 1 demo_used = Panic "freeing free block".
Proof.
  split; [reflexivity|].
  refine (cache_free_correct demo_sb 0 demo_used 98 [] demo_ctx [] 1 _ demo_used_ok _ _).
  - vm_compute. repeat split; congruence.
  - reflexivity.
  - vm_compute. split; congruence.
Defined.

(** ** Three observations on fs/cache.c *)

(** [cache_sync] tests for a full log before it looks for the block: a block that
    is already logged cannot be synced again once the log is full. *)
Lemma sync_full_log_panics {A D} `{BlockDevice D} me (c : Cache A D) ctx b :
  locked (log_lock (c_log c)) = false → log_mx (c_log c) ≤ lh_num_blocks (c_header c) < 2 ^ 31 →
  0 ≤ log_mx (c_log c) →
  cache_sync me (Some ctx) b c = Panic "too big a transaction".
Proof.
  intros Hl Hn Hm. rewrite sync_eq by done. cbn zeta. rewrite i32_small by lia.
  destruct (Z.leb_spec (log_mx (c_log c)) (lh_num_blocks (c_header c))); [done|lia].
Qed.

(** A commit leaves every pinned block pinned, so that it never leaves the cache. *)
Lemma commit_keeps_pins {A D} `{ObjectPoolLaws A} `{BlockDeviceLaws D} sb me (c : Cache A D) R :
  layout_ok sb → log_ok sb (c_header c) → idle c R → (4 * length (entries (c_header c)) ≤ R)%nat →
  (∀ e, e ∈ entries (c_header c) → pinned_in c e) → 0 < lh_num_blocks (c_header c) →
  wp (commit sb me) (λ _ c', ∀ n, pinned_in c n → pinned_in c' n) c.
Proof. intros. eapply wp_mono; [by eapply commit_Ok|]. by intros ? c' []. Qed.

(** A cache of twenty pinned blocks and one that is not. *)
Definition demo_full : Cache Z RamDisk :=
  let blk n p := {| b_block_no := n; b_acquired := false; b_pinned := p; b_lock := init_sleeplock "block";
                    b_valid := true; b_data := zero_block |} in
  set_c_lru (seqZ 1 21)
    (set_c_blocks (list_to_map ((λ i, (i, blk (100 + i) (bool_decide (i ≠ 21)))) <$> seqZ 1 21))
      (set_c_arena 22 demo_cache)).

(** A block that is found in the cache is not marked as acquired: while it is held
    and locked, the next miss takes it away. *)
Lemma held_block_evicted :
  match cache_acquire 0 121 demo_full with
  | Ok b c1 => b = 21 ∧ match c_blocks c1 !! b with Some x => slocked (b_lock x) = true | None => False end ∧
      match cache_acquire 0 500 c1 with Ok _ c2 => c_blocks c2 !! b = None | _ => False end
  | _ => False
  end.
Proof. vm_compute. repeat split. Qed.
