(* ===== verification/Inode.v ===== *)
(** * Inodes (fs/inode.c, fs/inode.h)

    The inode layer over the block-cache interface [BlockCache], the [BlockCache]
    struct of function pointers that [init_inodes] is given. [ITree] holds the
    variables of fs/inode.c; the list of in-memory inodes is the sequence of the
    inodes from [head.next] on, as for the block cache. A pointer to an
    [OpContext] is a number that names the context inside the cache's state, with
    0 for [NULL]. *)
From S2P Require Import Prelude Locks CString Cache.

Definition INODE_NUM_DIRECT : Z := 12.
Definition INODE_NUM_INDIRECT : Z := BLOCK_SIZE / 4.
Definition INODE_PER_BLOCK : Z := BLOCK_SIZE / 64.
Definition INODE_MAX_BLOCKS : Z := INODE_NUM_DIRECT + INODE_NUM_INDIRECT.
Definition INODE_MAX_BYTES : Z := INODE_MAX_BLOCKS * BLOCK_SIZE.
Definition FILE_NAME_MAX_LENGTH : Z := 14.
Definition INODE_INVALID : Z := 0.
Definition INODE_DIRECTORY : Z := 1.
Definition INODE_REGULAR : Z := 2.
Definition INODE_DEVICE : Z := 3.
Definition ROOT_INODE_NO : Z := 1.

Record InodeEntry := mkInodeEntry {
  e_type : Z;
  e_major : Z;
  e_minor : Z;
  e_num_links : Z;
  e_num_bytes : Z;
  e_addrs : list Z;
  e_indirect : Z
}.

(** ** On-disk layout *)
Fixpoint words32 (n : nat) (l : list Z) : list Z :=
  match n with O => [] | S n' => le_val (take 4 l) :: words32 n' (drop 4 l) end.

Definition entry_bytes (e : InodeEntry) : list Z :=
  le_bytes 2 (e_type e) ++ le_bytes 2 (e_major e) ++ le_bytes 2 (e_minor e) ++
  le_bytes 2 (e_num_links e) ++ le_bytes 4 (e_num_bytes e) ++ (e_addrs e ≫= le_bytes 4) ++
  le_bytes 4 (e_indirect e).
Definition entry_of_bytes (l : list Z) : InodeEntry :=
  {| e_type := le_val (slice 0 2 l); e_major := le_val (slice 2 2 l);
     e_minor := le_val (slice 4 2 l); e_num_links := le_val (slice 6 2 l);
     e_num_bytes := le_val (slice 8 4 l); e_addrs := words32 12 (slice 12 48 l);
     e_indirect := le_val (slice 60 4 l) |}.

Record DirEntry := mkDirEntry { d_inode_no : Z; d_name : list Z }.
Definition sizeof_DirEntry : Z := 16.
Definition dirent_bytes (d : DirEntry) : list Z := le_bytes 2 (d_inode_no d) ++ d_name d.
Definition dirent_of_bytes (l : list Z) : DirEntry :=
  {| d_inode_no := le_val (take 2 l); d_name := drop 2 l |}.

(** Entry [inode_no % INODE_PER_BLOCK] of the block, seen as an array of [InodeEntry]. *)
Definition entry_off (inode_no : Z) : nat := Z.to_nat (64 * (inode_no mod INODE_PER_BLOCK)).
Definition get_entry (data : list Z) (inode_no : Z) : InodeEntry :=
  entry_of_bytes (slice (entry_off inode_no) 64 data).
Definition set_entry (data : list Z) (inode_no : Z) (e : InodeEntry) : list Z :=
  splice (entry_off inode_no) (entry_bytes e) data.

(** The block seen as an [IndirectBlock]. *)
Definition get_addrs (data : list Z) : list Z := words32 (Z.to_nat INODE_NUM_INDIRECT) data.
Definition set_addr (data : list Z) (i addr : Z) : list Z := splice (Z.to_nat (4 * i)) (le_bytes 4 addr) data.

(** ** The block cache, as the inode layer uses it

    [bc_get]/[bc_set] read and replace [bp->data]. *)
Class BlockCache (C : Type) := {
  bc_acquire : Z → M C Z;
  bc_get : Z → M C (list Z);
  bc_set : Z → list Z → M C unit;
  bc_sync : Z → Z → M C unit;
  bc_release : Z → M C unit;
  bc_alloc : Z → M C Z;
  bc_free : Z → Z → M C unit
}.

(** ** State *)
Record Inode := mkInode {
  i_lock : SpinLock;
  i_rc : RefCount;
  i_inode_no : Z;
  i_valid : bool;
  i_entry : InodeEntry
}.

Record ITree (C A K : Type) := mkITree {
  t_lock : SpinLock;
  t_head : list Z;
  t_inodes : gmap Z Inode;
  t_arena : A;
  t_cache : C;
  t_root : Z;
  t_console : K
}.
Arguments mkITree {C A K} _ _ _ _ _ _ _.
Arguments t_lock {C A K} _.
Arguments t_head {C A K} _.
Arguments t_inodes {C A K} _.
Arguments t_arena {C A K} _.
Arguments t_cache {C A K} _.
Arguments t_root {C A K} _.
Arguments t_console {C A K} _.

Definition with_i_lock x (i : Inode) : Inode := mkInode x (i_rc i) (i_inode_no i) (i_valid i) (i_entry i).
Definition with_i_rc x (i : Inode) : Inode := mkInode (i_lock i) x (i_inode_no i) (i_valid i) (i_entry i).
Definition with_i_no x (i : Inode) : Inode := mkInode (i_lock i) (i_rc i) x (i_valid i) (i_entry i).
Definition with_i_valid x (i : Inode) : Inode := mkInode (i_lock i) (i_rc i) (i_inode_no i) x (i_entry i).
Definition with_i_entry x (i : Inode) : Inode := mkInode (i_lock i) (i_rc i) (i_inode_no i) (i_valid i) x.
Definition with_e_type x (e : InodeEntry) : InodeEntry :=
  mkInodeEntry x (e_major e) (e_minor e) (e_num_links e) (e_num_bytes e) (e_addrs e) (e_indirect e).
Definition with_e_num_links x (e : InodeEntry) : InodeEntry :=
  mkInodeEntry (e_type e) (e_major e) (e_minor e) x (e_num_bytes e) (e_addrs e) (e_indirect e).
Definition with_e_num_bytes x (e : InodeEntry) : InodeEntry :=
  mkInodeEntry (e_type e) (e_major e) (e_minor e) (e_num_links e) x (e_addrs e) (e_indirect e).
Definition with_e_addrs x (e : InodeEntry) : InodeEntry :=
  mkInodeEntry (e_type e) (e_major e) (e_minor e) (e_num_links e) (e_num_bytes e) x (e_indirect e).
Definition with_e_indirect x (e : InodeEntry) : InodeEntry :=
  mkInodeEntry (e_type e) (e_major e) (e_minor e) (e_num_links e) (e_num_bytes e) (e_addrs e) x.

(** ** Names: [strncmp] and [strncpy] of common/string.c on the bytes they see

    [None]: a byte past the end of an array would be read. *)
Fixpoint strncmp_bytes (l1 l2 : list Z) (n : nat) {struct n} : option Z :=
  match n with
  | O => Some 0
  | S n' =>
      match l1, l2 with
      | c1 :: l1', c2 :: l2' =>
          if negb (c1 =? c2) then Some (c1 - c2)
          else if c1 =? 0 then Some 0
          else strncmp_bytes l1' l2' n'
      | _, _ => None
      end
  end.
Fixpoint strncpy_bytes (src : list Z) (n : nat) {struct n} : option (list Z) :=
  match n with
  | O => Some []
  | S n' =>
      match src with
      | c :: src' => if c =? 0 then Some (replicate n 0) else cons c <$> strncpy_bytes src' n'
      | [] => None
      end
  end.

Section inode.
Context {C A K : Type} `{BlockCache C} `{ObjectPool A}.
Context (sb : SuperBlock) (me : Z).
Abbreviation T := (ITree C A K).
(** core/console.c, called for device inodes: [console_read(ip, dst, n)] gives
    the count and the bytes stored at [dst]. *)
Context (console_read : Z → Z → M T (Z * list Z)) (console_write : Z → list Z → Z → M T Z).
(** The bytes a local [DirEntry] holds before it is assigned. *)
Context (stack16 : list Z).

Definition set_t_lock x (t : T) : T :=
  mkITree x (t_head t) (t_inodes t) (t_arena t) (t_cache t) (t_root t) (t_console t).
Definition set_t_head x (t : T) : T :=
  mkITree (t_lock t) x (t_inodes t) (t_arena t) (t_cache t) (t_root t) (t_console t).
Definition set_t_inodes x (t : T) : T :=
  mkITree (t_lock t) (t_head t) x (t_arena t) (t_cache t) (t_root t) (t_console t).
Definition set_t_arena x (t : T) : T :=
  mkITree (t_lock t) (t_head t) (t_inodes t) x (t_cache t) (t_root t) (t_console t).
Definition set_t_cache x (t : T) : T :=
  mkITree (t_lock t) (t_head t) (t_inodes t) (t_arena t) x (t_root t) (t_console t).
Definition set_t_root x (t : T) : T :=
  mkITree (t_lock t) (t_head t) (t_inodes t) (t_arena t) (t_cache t) x (t_console t).

Definition get_inode (p : Z) : M T Inode := t ← getS; derefM (t_inodes t !! p).
Definition set_inode (p : Z) (i : Inode) : M T unit := modify (λ t, set_t_inodes (<[p := i]> (t_inodes t)) t).
Definition upd_inode (p : Z) (f : Inode → Inode) : M T unit := i ← get_inode p; set_inode p (f i).
Definition upd_entry (p : Z) (f : InodeEntry → InodeEntry) : M T unit :=
  upd_inode p (λ i, with_i_entry (f (i_entry i)) i).
Definition onc {X} (m : M C X) : M T X := zoom t_cache set_t_cache m.
Definition on_tree_lock (m : M SpinLock unit) : M T unit := zoom t_lock set_t_lock m.
Definition on_inode_lock (p : Z) (m : M SpinLock unit) : M T unit :=
  i ← get_inode p;
  zoom (λ _, i_lock i) (λ l t, set_t_inodes (<[p := with_i_lock l i]> (t_inodes t)) t) m.

(** The quotient is added in 64 bits. *)
Definition to_block_no (inode_no : Z) : Z := u64 (sb_inode_start sb + inode_no / INODE_PER_BLOCK).

Definition init_inode (p : Z) : M T unit :=
  set_inode p {| i_lock := init_spinlock "Inode"; i_rc := init_rc; i_inode_no := 0; i_valid := false;
                 i_entry := mkInodeEntry 0 0 0 0 0 (replicate 12 0) 0 |}.

(** One iteration of the loop of [inode_alloc]. *)
Definition alloc_inode_at (ctx type inum : Z) : M T (option Z) :=
  bp ← onc (bc_acquire (to_block_no inum));
  data ← onc (bc_get bp);
  if e_type (get_entry data inum) =? 0 then
    onc (bc_set bp (set_entry data inum (mkInodeEntry type 0 0 0 0 (replicate 12 0) 0)));;
    onc (bc_sync ctx bp);;
    onc (bc_release bp);;
    mret (Some inum)
  else
    onc (bc_release bp);;
    mret None.
Definition inode_alloc (ctx type : Z) : M T Z :=
  assertM (negb (type =? INODE_INVALID)) "type != INODE_INVALID";;
  r ← for_loop (Z.to_nat (sb_num_inodes sb)) 1 (alloc_inode_at ctx type);
  match r with
  | Some inum => mret inum
  | None => panic "failed to allocate inode on disk"
  end.

Definition inode_lock (inode : Z) : M T unit :=
  i ← get_inode inode;
  assertM (0 <? rcount (i_rc i)) "inode->rc.count > 0";;
  on_inode_lock inode (acquire_spinlock me).

Definition inode_unlock (inode : Z) : M T unit :=
  i ← get_inode inode;
  assertM (holding_spinlock (i_lock i)) "holding_spinlock(&inode->lock)";;
  assertM (0 <? rcount (i_rc i)) "inode->rc.count > 0";;
  on_inode_lock inode release_spinlock.

Definition inode_sync (ctx inode : Z) (do_write : bool) : M T unit :=
  i ← get_inode inode;
  bp ← onc (bc_acquire (to_block_no (i_inode_no i)));
  data ← onc (bc_get bp);
  (if do_write && i_valid i then
     onc (bc_set bp (set_entry data (i_inode_no i) (i_entry i)));;
     onc (bc_sync ctx bp)
   else if negb (i_valid i) then
     upd_inode inode (λ i, with_i_entry (get_entry data (i_inode_no i)) (with_i_valid true i))
   else mret ());;
  onc (bc_release bp).

(** The search of [inode_get]: the inode in use for [inode_no], or else the
    first one with no references (0 if there is none). *)
Fixpoint scan_inodes (l : list Z) (inode_no empty : Z) : M T (Z + Z) :=
  match l with
  | [] => mret (inr empty)
  | p :: l' =>
      i ← get_inode p;
      if (0 <? rcount (i_rc i)) && (i_inode_no i =? inode_no) then mret (inl p)
      else scan_inodes l' inode_no (if (empty =? 0) && (rcount (i_rc i) =? 0) then p else empty)
  end.

Definition inode_get (inode_no : Z) : M T Z :=
  assertM (0 <? inode_no) "inode_no > 0";;
  assertM (inode_no <? sb_num_inodes sb) "inode_no < sblock->num_inodes";;
  on_tree_lock (acquire_spinlock me);;
  t ← getS;
  r ← scan_inodes (t_head t) inode_no 0;
  match r with
  | inl ip =>
      upd_inode ip (λ i, with_i_rc (increment_rc (i_rc i)) i);;
      on_tree_lock release_spinlock;;
      mret ip
  | inr empty =>
      ip ← (if negb (empty =? 0) then mret empty
            else
              ip ← zoom t_arena set_t_arena op_alloc;
              init_inode ip;;
              modify (λ t, set_t_head (ip :: t_head t) t);;
              mret ip);
      upd_inode ip (with_i_no inode_no);;
      upd_inode ip (λ i, with_i_rc (increment_rc (i_rc i)) i);;
      upd_inode ip (with_i_valid false);;
      inode_lock ip;;
      inode_sync NULL ip false;;
      inode_unlock ip;;
      on_tree_lock release_spinlock;;
      mret ip
  end.

(** [sizeof(Inode)]: lock 24, rc 8, node 16, inode_no 8, valid 4, entry 64,
    padded to a multiple of 8. *)
Definition sizeof_Inode : Z := 128.
Definition init_inodes : M T unit :=
  modify (set_t_lock (init_spinlock "inode tree"));;
  modify (set_t_head []);;
  zoom t_arena set_t_arena (op_init sizeof_Inode);;
  if ROOT_INODE_NO <? sb_num_inodes sb then
    r ← inode_get ROOT_INODE_NO; modify (set_t_root r)
  else mret ().

(** The loops of [inode_clear] over the direct and the indirect addresses. *)
Definition clear_direct (ctx inode i : Z) : M T (option unit) :=
  ip ← get_inode inode;
  a ← derefM (e_addrs (i_entry ip) !! Z.to_nat i);
  (if negb (a =? 0) then
     onc (bc_free ctx a);;
     upd_entry inode (λ e, with_e_addrs (<[Z.to_nat i := 0]> (e_addrs e)) e)
   else mret ());;
  mret None.
Definition clear_indirect (ctx bp i : Z) : M T (option unit) :=
  data ← onc (bc_get bp);
  a ← derefM (get_addrs data !! Z.to_nat i);
  (if negb (a =? 0) then onc (bc_free ctx a) else mret ());;
  mret None.

Definition inode_clear (ctx inode : Z) : M T unit :=
  for_loop (Z.to_nat INODE_NUM_DIRECT) 0 (clear_direct ctx inode);;
  i ← get_inode inode;
  (if negb (e_indirect (i_entry i) =? 0) then
     bp ← onc (bc_acquire (e_indirect (i_entry i)));
     for_loop (Z.to_nat INODE_NUM_INDIRECT) 0 (clear_indirect ctx bp);;
     onc (bc_release bp);;
     onc (bc_free ctx (e_indirect (i_entry i)));;
     upd_entry inode (with_e_indirect 0)
   else mret ());;
  upd_entry inode (with_e_num_bytes 0);;
  inode_sync ctx inode true.

Definition inode_share (inode : Z) : M T Z :=
  on_tree_lock (acquire_spinlock me);;
  upd_inode inode (λ i, with_i_rc (increment_rc (i_rc i)) i);;
  on_tree_lock release_spinlock;;
  mret inode.

Definition put_rc (inode : Z) : M T unit := upd_inode inode (λ i, with_i_rc (decrement_rc (i_rc i)).2 i).

Definition inode_put (ctx inode : Z) : M T unit :=
  on_tree_lock (acquire_spinlock me);;
  i ← get_inode inode;
  if (rcount (i_rc i) =? 1) && i_valid i && (e_num_links (i_entry i) =? 0) then
    inode_lock inode;;
    on_tree_lock release_spinlock;;
    inode_clear ctx inode;;
    upd_entry inode (with_e_type 0);;
    inode_sync ctx inode true;;
    upd_inode inode (with_i_valid false);;
    inode_unlock inode;;
    on_tree_lock (acquire_spinlock me);;
    modify (λ t, set_t_head (list_remove_Z inode (t_head t)) t);;
    put_rc inode;;
    on_tree_lock release_spinlock;;
    zoom t_arena set_t_arena (op_free inode);;
    modify (λ t, set_t_inodes (delete inode (t_inodes t)) t)
  else
    put_rc inode;;
    on_tree_lock release_spinlock.

(** The part of [inode_map] that works on the indirect block [addr]. *)
Definition map_indirect (ctx addr offset : Z) : M T (Z * bool) :=
  bp ← onc (bc_acquire addr);
  data ← onc (bc_get bp);
  a ← derefM (get_addrs data !! Z.to_nat offset);
  r ← (if a =? 0 then
         b ← onc (bc_alloc ctx);
         data ← onc (bc_get bp);
         onc (bc_set bp (set_addr data offset (u32 b)));;
         onc (bc_sync ctx bp);;
         mret (u32 b, true)
       else mret (a, false));
  onc (bc_release bp);;
  mret r.

Definition inode_map (ctx inode offset : Z) : M T (Z * bool) :=
  i ← get_inode inode;
  if offset <? INODE_NUM_DIRECT then
    addr ← derefM (e_addrs (i_entry i) !! Z.to_nat offset);
    if addr =? 0 then
      b ← onc (bc_alloc ctx);
      upd_entry inode (λ e, with_e_addrs (<[Z.to_nat offset := u32 b]> (e_addrs e)) e);;
      mret (u32 b, true)
    else mret (addr, false)
  else
    let offset := offset - INODE_NUM_DIRECT in
    if offset <? INODE_NUM_INDIRECT then
      addr ← (if e_indirect (i_entry i) =? 0 then
                b ← onc (bc_alloc ctx);
                upd_entry inode (with_e_indirect (u32 b));;
                mret (u32 b)
              else mret (e_indirect (i_entry i)));
      map_indirect ctx addr offset
    else panic "offset out of bound".

(** The length of the next piece: [MIN(count - tot, BLOCK_SIZE - offset % BLOCK_SIZE)]. *)
Definition chunk (count tot offset : Z) : Z := Z.min (count - tot) (BLOCK_SIZE - offset mod BLOCK_SIZE).

(** The loop of [inode_read]; the bytes stored at [dest] so far are [acc].
    Every iteration copies at least one byte, so [count + 1] iterations are
    enough fuel. *)
Fixpoint read_loop (fuel : nat) (inode offset count tot : Z) (acc : list Z) : M T (list Z) :=
  match fuel with
  | O => nofuel
  | S fuel' =>
      if tot <? count then
        r ← inode_map NULL inode (offset / BLOCK_SIZE);
        bp ← onc (bc_acquire r.1);
        data ← onc (bc_get bp);
        let m := chunk count tot offset in
        onc (bc_release bp);;
        read_loop fuel' inode (u64 (offset + m)) count (u32 (tot + m))
          (acc ++ slice (Z.to_nat (offset mod BLOCK_SIZE)) (Z.to_nat m) data)
      else mret acc
  end.

Definition inode_read (inode offset count : Z) : M T (Z * list Z) :=
  i ← get_inode inode;
  let entry := i_entry i in
  if e_type entry =? INODE_DEVICE then
    assertM (e_major entry =? 1) "inode->entry.major == 1";;
    console_read inode count
  else
    let count := if e_num_bytes entry <? u64 (count + offset) then u64 (e_num_bytes entry - offset) else count in
    let end_ := u64 (offset + count) in
    assertM (offset <=? e_num_bytes entry) "offset <= entry->num_bytes";;
    assertM (end_ <=? e_num_bytes entry) "end <= entry->num_bytes";;
    assertM (offset <=? end_) "offset <= end";;
    bytes ← read_loop (S (Z.to_nat count)) inode offset count 0 [];
    mret (count, bytes).

(** The loop of [inode_write]: the final offset. A source shorter than the count
    would be read past its end. *)
Fixpoint write_loop (fuel : nat) (ctx inode offset count tot : Z) (src : list Z) : M T Z :=
  match fuel with
  | O => nofuel
  | S fuel' =>
      if tot <? count then
        r ← inode_map ctx inode (offset / BLOCK_SIZE);
        bp ← onc (bc_acquire r.1);
        let m := chunk count tot offset in
        (if decide (Z.to_nat m ≤ length src)%nat then mret () else undef);;
        data ← onc (bc_get bp);
        onc (bc_set bp (splice (Z.to_nat (offset mod BLOCK_SIZE)) (take (Z.to_nat m) src) data));;
        onc (bc_sync ctx bp);;
        onc (bc_release bp);;
        write_loop fuel' ctx inode (u64 (offset + m)) count (u32 (tot + m)) (drop (Z.to_nat m) src)
      else mret offset
  end.

Definition inode_write (ctx inode : Z) (src : list Z) (offset count : Z) : M T Z :=
  i ← get_inode inode;
  let entry := i_entry i in
  let end_ := u64 (offset + count) in
  if e_type entry =? INODE_DEVICE then
    assertM (e_major entry =? 1) "inode->entry.major == 1";;
    console_write inode src count
  else
    assertM (offset <=? e_num_bytes entry) "offset <= entry->num_bytes";;
    assertM (end_ <=? INODE_MAX_BYTES) "end <= INODE_MAX_BYTES";;
    assertM (offset <=? end_) "offset <= end";;
    offset ← write_loop (S (Z.to_nat count)) ctx inode offset count 0 src;
    i ← get_inode inode;
    (if (0 <? count) && (e_num_bytes (i_entry i) <? offset) then
       upd_entry inode (with_e_num_bytes (u32 offset));;
       inode_sync ctx inode true
     else mret ());;
    mret count.

(** [inode_read(inode, &de, off, sizeof(DirEntry))] into a local entry. *)
Definition read_dirent (inode off : Z) (de : list Z) : M T (list Z) :=
  r ← inode_read inode off sizeof_DirEntry;
  mret (splice 0 r.2 de).

(** The loop of [inode_lookup]: [fuel] iterations cover the directory. *)
Fixpoint lookup_loop (fuel : nat) (inode : Z) (name : list Z) (off : Z) (de : list Z) : M T (option (Z * Z)) :=
  match fuel with
  | O => nofuel
  | S fuel' =>
      i ← get_inode inode;
      if off <? e_num_bytes (i_entry i) then
        de ← read_dirent inode off de;
        let d := dirent_of_bytes de in
        if d_inode_no d =? 0 then lookup_loop fuel' inode name (u32 (off + sizeof_DirEntry)) de
        else
          c ← derefM (strncmp_bytes (d_name d) name (Z.to_nat FILE_NAME_MAX_LENGTH));
          if c =? 0 then mret (Some (d_inode_no d, off))
          else lookup_loop fuel' inode name (u32 (off + sizeof_DirEntry)) de
      else mret None
  end.

(** The result and, when an entry is found, the value stored in [*index]. *)
Definition inode_lookup (inode : Z) (name : list Z) : M T (Z * option Z) :=
  i ← get_inode inode;
  assertM (e_type (i_entry i) =? INODE_DIRECTORY) "entry->type == INODE_DIRECTORY";;
  r ← lookup_loop (S (Z.to_nat (e_num_bytes (i_entry i)))) inode name 0 stack16;
  mret (match r with Some (inum, off) => (inum, Some off) | None => (0, None) end).

(** The first free slot, or the end of the directory. *)
Fixpoint slot_loop (fuel : nat) (inode off : Z) (de : list Z) : M T Z :=
  match fuel with
  | O => nofuel
  | S fuel' =>
      i ← get_inode inode;
      if off <? e_num_bytes (i_entry i) then
        de ← read_dirent inode off de;
        if d_inode_no (dirent_of_bytes de) =? 0 then mret off
        else slot_loop fuel' inode (u32 (off + sizeof_DirEntry)) de
      else mret off
  end.

Definition inode_insert (ctx inode : Z) (name : list Z) (inode_no : Z) : M T Z :=
  i ← get_inode inode;
  assertM (e_type (i_entry i) =? INODE_DIRECTORY) "entry->type == INODE_DIRECTORY";;
  r ← inode_lookup inode name;
  if negb (r.1 =? 0) then mret (u64 (-1))
  else
    off ← slot_loop (S (Z.to_nat (e_num_bytes (i_entry i)))) inode 0 stack16;
    nm ← derefM (strncpy_bytes name (Z.to_nat FILE_NAME_MAX_LENGTH));
    inode_write ctx inode (dirent_bytes (mkDirEntry (u16 inode_no) nm)) off sizeof_DirEntry;;
    mret off.

Definition inode_remove (ctx inode index : Z) : M T unit :=
  i ← get_inode inode;
  assertM (e_type (i_entry i) =? INODE_DIRECTORY) "entry->type == INODE_DIRECTORY";;
  inode_write ctx inode (replicate (Z.to_nat sizeof_DirEntry) 0) index sizeof_DirEntry;;
  mret ().
End inode.

(** ** Paths *)

(** A path is the sequence of the bytes before its terminator. *)
Definition slash : Z := 47.
Fixpoint skip_slashes (path : list Z) : list Z :=
  match path with
  | c :: path' => if c =? slash then skip_slashes path' else path
  | [] => []
  end.
Fixpoint span_elem (path : list Z) : list Z * list Z :=
  match path with
  | c :: path' => if c =? slash then ([], path) else let '(s, rest) := span_elem path' in (c :: s, rest)
  | [] => ([], [])
  end.

(** The rest of the path and the new contents of [name]. *)
Definition skipelem (path name : list Z) : option (list Z * list Z) :=
  let path := skip_slashes path in
  match path with
  | [] => None
  | _ =>
      let '(s, path) := span_elem path in
      let name := if Z.of_nat (length s) >=? FILE_NAME_MAX_LENGTH
                  then take (Z.to_nat FILE_NAME_MAX_LENGTH) s ++ drop (Z.to_nat FILE_NAME_MAX_LENGTH) name
                  else s ++ 0 :: drop (S (length s)) name in
      Some (skip_slashes path, name)
  end.

Section namei.
Context {C A K : Type} `{BlockCache C} `{ObjectPool A}.
Context (sb : SuperBlock) (me : Z).
Abbreviation T := (ITree C A K).
Context (console_read : Z → Z → M T (Z * list Z)) (stack16 : list Z).
Abbreviation lookup' := (inode_lookup console_read stack16).

(** The loop of [namex]: each iteration consumes at least one byte of the path,
    so the length of the path plus one is enough fuel. The result is the inode
    (0 for [NULL]) and the contents of [name]. *)
Fixpoint namex_loop (fuel : nat) (path : list Z) (nameiparent : bool) (name : list Z) (ctx ip : Z)
  : M T (Z * list Z) :=
  match fuel with
  | O => nofuel
  | S fuel' =>
      match skipelem path name with
      | None =>
          if nameiparent then inode_put sb me ctx ip;; mret (0, name) else mret (ip, name)
      | Some (path, name) =>
          inode_lock me ip;;
          i ← get_inode ip;
          if negb (e_type (i_entry i) =? INODE_DIRECTORY) then
            inode_unlock ip;; inode_put sb me ctx ip;; mret (0, name)
          else if nameiparent && bool_decide (path = []) then
            inode_unlock ip;; mret (ip, name)
          else
            r ← lookup' ip name;
            if r.1 =? 0 then inode_unlock ip;; mret (0, name)
            else
              nx ← inode_get sb me r.1;
              if nx =? 0 then inode_unlock ip;; inode_put sb me ctx ip;; mret (0, name)
              else
                inode_unlock ip;;
                inode_put sb me ctx ip;;
                namex_loop fuel' path nameiparent name ctx nx
      end
  end.

(** [cwd] is [thiscpu()->proc->cwd]. *)
Definition namex (cwd : Z) (path : list Z) (nameiparent : bool) (name : list Z) (ctx : Z) : M T (Z * list Z) :=
  ip ← (match path with
        | c :: _ => if c =? slash then inode_get sb me ROOT_INODE_NO else inode_share me cwd
        | [] => inode_share me cwd
        end);
  namex_loop (S (length path)) path nameiparent name ctx ip.
Definition namei (cwd : Z) (path : list Z) (ctx : Z) : M T Z :=
  r ← namex cwd path false (replicate (Z.to_nat FILE_NAME_MAX_LENGTH) 0) ctx; mret r.1.
Definition nameiparent (cwd : Z) (path name : list Z) (ctx : Z) : M T (Z * list Z) :=
  namex cwd path true name ctx.

Record stat := mkStat { st_dev : Z; st_ino : Z; st_nlink : Z; st_size : Z; st_mode : Z }.
Definition S_IFREG : Z := 0x8000.
Definition S_IFDIR : Z := 0x4000.
Definition stati (ip : Z) : M T stat :=
  i ← get_inode ip;
  mode ← (if e_type (i_entry i) =? INODE_REGULAR then mret S_IFREG
          else if e_type (i_entry i) =? INODE_DIRECTORY then mret S_IFDIR
          else if e_type (i_entry i) =? INODE_DEVICE then mret 0
          else panic "unexpected stat type");
  mret (mkStat 1 (i_inode_no i) (e_num_links (i_entry i)) (e_num_bytes (i_entry i)) mode).
End namei.

(** ** Layout lemmas *)
Definition word32 (x : Z) : Prop := 0 ≤ x < 2 ^ 32.
Definition word16 (x : Z) : Prop := 0 ≤ x < 2 ^ 16.

Record entry_ok (e : InodeEntry) : Prop := {
  eo_type : word16 (e_type e);
  eo_major : word16 (e_major e);
  eo_minor : word16 (e_minor e);
  eo_links : word16 (e_num_links e);
  eo_bytes : word32 (e_num_bytes e);
  eo_addrs : Forall word32 (e_addrs e);
  eo_len : length (e_addrs e) = 12%nat;
  eo_indirect : word32 (e_indirect e)
}.

Lemma slice_slice {X} a n b k (l : list X) :
  (b + k ≤ n)%nat → slice b k (slice a n l) = slice (a + b) k l.
Proof.
  intros. apply list_eq; intros i. rewrite !lookup_slice. case_decide; [|done].
  rewrite decide_True by lia. f_equal. lia.
Qed.

Lemma lookup_words32 n l i :
  (i < n)%nat → words32 n l !! i = Some (le_val (slice (4 * i) 4 l)).
Proof.
  revert l i. induction n as [|n IH]; intros l i Hi; [lia|]. destruct i as [|i]; [done|].
  change (words32 n (drop 4 l) !! i = Some (le_val (slice (4 * S i) 4 l))). rewrite IH by lia.
  unfold slice. rewrite drop_drop. do 4 f_equal. lia.
Qed.

Lemma length_words32 n l : length (words32 n l) = n.
Proof. revert l. induction n; intros; simpl; auto. Qed.

Lemma words32_bytes (l r : list Z) :
  Forall word32 l → words32 (length l) ((l ≫= le_bytes 4) ++ r) = l.
Proof.
  induction 1 as [|x l Hx Hl IH]; [done|].
  change (words32 (length (x :: l)) (((x :: l) ≫= le_bytes 4) ++ r))
    with (le_val (take 4 ((le_bytes 4 x ++ (l ≫= le_bytes 4)) ++ r)) ::
          words32 (length l) (drop 4 ((le_bytes 4 x ++ (l ≫= le_bytes 4)) ++ r))).
  rewrite <- app_assoc. rewrite take_app_length', drop_app_length' by (by rewrite length_le_bytes).
  rewrite IH, le_val_bytes_small; [done|]. unfold word32 in Hx. simpl. lia.
Qed.

Lemma length_entry_bytes e : entry_ok e → length (entry_bytes e) = 64%nat.
Proof.
  intros He. unfold entry_bytes. rewrite !length_app, !length_le_bytes, length_bind_le_bytes, (eo_len _ He). done.
Qed.

Lemma slice_app_skip {X} n k (l1 l2 : list X) : length l1 = n → slice n k (l1 ++ l2) = slice 0 k l2.
Proof. intros <-. unfold slice. by rewrite drop_app_length. Qed.
Lemma slice_app_off {X} n m k (l1 l2 : list X) : length l1 = n → slice (n + m) k (l1 ++ l2) = slice m k l2.
Proof. intros <-. unfold slice. rewrite <- drop_drop. by rewrite drop_app_length. Qed.
Lemma slice_app_here {X} k (l1 l2 : list X) : length l1 = k → slice 0 k (l1 ++ l2) = l1.
Proof. intros <-. unfold slice. by rewrite drop_0, take_app_length. Qed.

(** The layout of an [InodeEntry] in a block loses nothing. *)
Lemma entry_round_trip e : entry_ok e → entry_of_bytes (entry_bytes e) = e.
Proof.
  intros He. pose proof He as [H1 H2 H3 H4 H5 H6 H7 H8]. unfold word16, word32 in *.
  destruct e as [ty ma mi nl nb ad ind]. simpl in *. unfold entry_of_bytes, entry_bytes; simpl e_type; simpl e_major;
    simpl e_minor; simpl e_num_links; simpl e_num_bytes; simpl e_addrs; simpl e_indirect.
  repeat match goal with |- context [le_bytes ?n ?x] =>
    let y := fresh "w" in let E := fresh "E" in remember (le_bytes n x) as y eqn:E end.
  assert (∀ n x, length (le_bytes n x) = n) as HL by apply length_le_bytes.
  f_equal.
  - rewrite slice_app_here by (subst; apply HL). subst. apply le_val_bytes_small. simpl; lia.
  - rewrite slice_app_skip, slice_app_here by (subst; apply HL). subst. apply le_val_bytes_small. simpl; lia.
  - rewrite (slice_app_off 2 2), slice_app_skip, slice_app_here by (subst; apply HL). subst. apply le_val_bytes_small. simpl; lia.
  - rewrite (slice_app_off 2 4), (slice_app_off 2 2), slice_app_skip, slice_app_here by (subst; apply HL). subst.
    apply le_val_bytes_small. simpl; lia.
  - rewrite (slice_app_off 2 6), (slice_app_off 2 4), (slice_app_off 2 2), slice_app_skip, slice_app_here by (subst; apply HL). subst.
    apply le_val_bytes_small. simpl; lia.
  - rewrite (slice_app_off 2 10), (slice_app_off 2 8), (slice_app_off 2 6), (slice_app_off 2 4), slice_app_skip by (subst; apply HL).
    assert (length (ad ≫= le_bytes 4) = 48%nat) as H48 by (by rewrite length_bind_le_bytes, H7).
    rewrite slice_app_here by done. rewrite <- H7, <- (app_nil_r (ad ≫= le_bytes 4)). by apply words32_bytes.
  - assert (length (ad ≫= le_bytes 4) = 48%nat) as H48 by (by rewrite length_bind_le_bytes, H7).
    rewrite (slice_app_off 2 58), (slice_app_off 2 56), (slice_app_off 2 54), (slice_app_off 2 52), (slice_app_off 4 48) by (subst; apply HL).
    rewrite (slice_app_skip 48), <- (app_nil_r w4), slice_app_here by (subst; done). subst. apply le_val_bytes_small. simpl; lia.
Qed.

Lemma entry_bytes_range e : Forall (λ b, 0 ≤ b < 256) (entry_bytes e).
Proof. unfold entry_bytes. rewrite !Forall_app. split_and!; auto using le_bytes_range, Forall_bind_le_bytes. Qed.

Lemma splice_range off (src dst : list Z) :
  Forall (λ b, 0 ≤ b < 256) src → Forall (λ b, 0 ≤ b < 256) dst → Forall (λ b, 0 ≤ b < 256) (splice off src dst).
Proof. intros. unfold splice. rewrite !Forall_app. split_and!; auto using Forall_take, Forall_drop. Qed.

Lemma entry_off_bound ino : (entry_off ino + 64 ≤ 512)%nat.
Proof.
  unfold entry_off. change INODE_PER_BLOCK with 8. pose proof (Z.mod_pos_bound ino 8 ltac:(lia)). lia.
Qed.

Lemma set_entry_bytes data ino e :
  bytes512 data → entry_ok e → bytes512 (set_entry data ino e).
Proof.
  intros [Hl Hb] He. pose proof (entry_off_bound ino). split.
  - unfold set_entry. rewrite length_splice; rewrite ?length_entry_bytes by done; [done|]. rewrite Hl. change (Z.to_nat BLOCK_SIZE) with 512%nat. lia.
  - apply splice_range; [apply entry_bytes_range|done].
Qed.

(** Writing the entry of an inode and reading one of the same block. *)
Lemma get_set_entry data ino ino' e :
  bytes512 data → entry_ok e → 0 ≤ ino → 0 ≤ ino' →
  get_entry (set_entry data ino e) ino' = if decide (ino mod INODE_PER_BLOCK = ino' mod INODE_PER_BLOCK)
    then e else get_entry data ino'.
Proof.
  intros [Hl _] He H0 H0'. pose proof (entry_off_bound ino). pose proof (length_entry_bytes e He) as Hel.
  change (Z.to_nat BLOCK_SIZE) with 512%nat in Hl. unfold get_entry, set_entry. case_decide as E.
  - unfold entry_off in *. rewrite <- E. rewrite <- Hel, slice_splice_eq by lia. by apply entry_round_trip.
  - rewrite slice_splice_ne; [done|lia|]. rewrite Hel. unfold entry_off in *. change INODE_PER_BLOCK with 8 in *.
    pose proof (Z.mod_pos_bound ino 8 ltac:(lia)). pose proof (Z.mod_pos_bound ino' 8 ltac:(lia)). lia.
Qed.

Lemma length_get_addrs data : length (get_addrs data) = 128%nat.
Proof. apply length_words32. Qed.

Lemma set_addr_bytes data i a : bytes512 data → 0 ≤ i < 128 → bytes512 (set_addr data i a).
Proof.
  intros [Hl Hb] Hi. change (Z.to_nat BLOCK_SIZE) with 512%nat in Hl. split.
  - unfold set_addr. rewrite length_splice; rewrite ?length_le_bytes; [done|lia].
  - apply splice_range; [apply le_bytes_range|done].
Qed.

Lemma get_set_addr data i a :
  bytes512 data → 0 ≤ i < 128 → word32 a → get_addrs (set_addr data i a) = <[Z.to_nat i := a]> (get_addrs data).
Proof.
  intros [Hl Hb] Hi Ha. change (Z.to_nat BLOCK_SIZE) with 512%nat in Hl.
  apply list_eq; intros k. destruct (decide (k < 128)%nat) as [Hk|Hk].
  2:{ rewrite !lookup_ge_None_2; [done|rewrite length_insert, length_get_addrs; lia|rewrite length_get_addrs; lia]. }
  unfold get_addrs at 1. rewrite lookup_words32 by done. unfold set_addr.
  destruct (decide (k = Z.to_nat i)) as [->|Hne].
  - rewrite list_lookup_insert_eq by (rewrite length_get_addrs; lia). f_equal.
    replace (4 * Z.to_nat i)%nat with (Z.to_nat (4 * i)) by lia.
    pose proof (slice_splice_eq (Z.to_nat (4 * i)) (le_bytes 4 a) data) as E. rewrite length_le_bytes in E.
    rewrite E by lia. apply le_val_bytes_small. unfold word32 in Ha. simpl; lia.
  - rewrite list_lookup_insert_ne by done. unfold get_addrs. rewrite lookup_words32 by done. do 2 f_equal.
    apply slice_splice_ne; rewrite length_le_bytes; lia.
Qed.

Lemma addrs_range data : bytes512 data → Forall word32 (get_addrs data).
Proof.
  intros [Hl Hb]. apply Forall_lookup_2. intros i x Hx. pose proof (lookup_lt_Some _ _ _ Hx) as Hi.
  rewrite length_get_addrs in Hi. unfold get_addrs in Hx. rewrite lookup_words32 in Hx by done. injection Hx as <-.
  change (Z.to_nat BLOCK_SIZE) with 512%nat in Hl.
  pose proof (le_val_range (slice (4 * i) 4 data)) as Hr. rewrite length_slice in Hr by lia.
  unfold word32. apply Hr. unfold slice. by apply Forall_take, Forall_drop.
Qed.

(** ** The byte-level comparison is [strncmp] of common/string.c *)
Lemma strncmp_bytes_mem n : ∀ (m : mem) p q l1 l2 v,
  has m p l1 → has m q l2 → strncmp_bytes l1 l2 n = Some v → strncmp_loop p q n m = Ok v m.
Proof.
  induction n as [|n IH]; intros m p q l1 l2 v H1 H2 E; cbn [strncmp_bytes] in E; [by injection E as <-|].
  destruct l1 as [|c1 l1]; [done|]. destruct l2 as [|c2 l2]; [done|].
  apply has_cons in H1 as [E1 H1]. apply has_cons in H2 as [E2 H2]. cbn [strncmp_loop].
  erewrite bind_Ok by (unfold ld; erewrite bind_Ok by done; by rewrite E1).
  erewrite bind_Ok by (unfold ld; erewrite bind_Ok by done; by rewrite E2).
  destruct (Z.eqb_spec c1 c2) as [->|]; simpl in *; [|by injection E as <-].
  destruct (Z.eqb_spec c2 0); simpl; [by injection E as <-|]. by eapply IH.
Qed.

(** ** Path elements *)

(** The elements of a path: its maximal non-empty runs of bytes other than '/'. *)
Definition flush (cur : list Z) : list (list Z) := match cur with [] => [] | _ => [cur] end.
Fixpoint elems (path cur : list Z) : list (list Z) :=
  match path with
  | [] => flush cur
  | c :: path' => if c =? slash then flush cur ++ elems path' [] else elems path' (cur ++ [c])
  end.

Lemma elems_skip path : elems (skip_slashes path) [] = elems path [].
Proof. induction path as [|c path IH]; [done|]. simpl. destruct (c =? slash) eqn:E; simpl; [done|]. by rewrite E. Qed.

Lemma elems_span path : ∀ cur s rest, span_elem path = (s, rest) → elems path cur = flush (cur ++ s) ++ elems rest [].
Proof.
  induction path as [|c path IH]; intros cur s rest E; simpl in E.
  - injection E as <- <-. simpl. by rewrite !app_nil_r.
  - destruct (c =? slash) eqn:Ec.
    + injection E as <- <-. simpl. rewrite Ec, app_nil_r. done.
    + destruct (span_elem path) as [s' r'] eqn:Es. injection E as <- <-. simpl. rewrite Ec.
      rewrite (IH _ s' r') by done. by rewrite <- app_assoc.
Qed.

Lemma skip_slashes_head path c rest : skip_slashes path = c :: rest → c ≠ slash.
Proof.
  induction path as [|x path IH]; simpl; [done|]. destruct (Z.eqb_spec x slash); [auto|]. by intros [= <- _].
Qed.

Lemma skip_slashes_length path : (length (skip_slashes path) ≤ length path)%nat.
Proof. induction path as [|x path IH]; simpl; [lia|]. destruct (x =? slash); simpl; lia. Qed.

Lemma span_length path s rest : span_elem path = (s, rest) → length path = (length s + length rest)%nat ∧ slash ∉ s.
Proof.
  revert s rest. induction path as [|c path IH]; intros s rest E; simpl in E.
  - injection E as <- <-. split; [done|set_solver].
  - destruct (Z.eqb_spec c slash); [injection E as <- <-; split; [done|set_solver]|].
    destruct (span_elem path) as [s' r']. injection E as <- <-. destruct (IH _ _ eq_refl) as [Hl Hs]. simpl. split; [lia|set_solver].
Qed.

(** [skipelem] takes off the first element of a path: it gives [NULL] exactly
    when the path has no element; otherwise the rest has no leading slash, is shorter
    than the path, and consists of the remaining elements, while [name] holds the
    element, cut to 14 bytes, with a terminator when it is shorter than that. *)
Lemma skipelem_correct path name :
  length name = Z.to_nat FILE_NAME_MAX_LENGTH →
  match skipelem path name with
  | None => elems path [] = []
  | Some (rest, name') =>
      ∃ s, elems path [] = s :: elems rest [] ∧ s ≠ [] ∧ slash ∉ s ∧
        head rest ≠ Some slash ∧ (length rest < length path)%nat ∧
        length name' = Z.to_nat FILE_NAME_MAX_LENGTH ∧
        take (Z.to_nat FILE_NAME_MAX_LENGTH) (s ++ [0]) `prefix_of` name'
  end.
Proof.
  intros Hn. change (Z.to_nat FILE_NAME_MAX_LENGTH) with 14%nat in *. unfold skipelem.
  rewrite <- elems_skip. pose proof (skip_slashes_length path) as Hle.
  destruct (skip_slashes path) as [|c p] eqn:Ep; [done|]. pose proof (skip_slashes_head _ _ _ Ep) as Hc.
  destruct (span_elem (c :: p)) as [s rest] eqn:Es. pose proof (elems_span _ [] _ _ Es) as He.
  destruct (span_length _ _ _ Es) as [Hlen Hs]. cbn [app] in He.
  assert (s ≠ []) as Hs0.
  { intros ->. simpl in Es. rewrite (proj2 (Z.eqb_neq _ _) Hc) in Es. by destruct (span_elem p). }
  exists s. rewrite He. split; [rewrite elems_skip; by destruct s|]. split; [done|]. split; [done|].
  pose proof (skip_slashes_length rest) as Hle2.
  assert (0 < length s)%nat by (destruct s; [done|simpl; lia]).
  split. { intros Hh. destruct (skip_slashes rest) as [|x r] eqn:Er; [done|]. injection Hh as ->. by apply skip_slashes_head in Er. }
  split; [lia|]. change FILE_NAME_MAX_LENGTH with 14.
  rewrite Z.geb_leb. destruct (Z.leb_spec 14 (Z.of_nat (length s))) as [Hl|Hl].
  - split; [rewrite length_app, length_take, length_drop; change (Z.to_nat 14) with 14%nat; lia|].
    rewrite take_app_le by lia. apply prefix_app_r. change (Z.to_nat 14) with 14%nat. done.
  - split; [rewrite length_app; cbn [length]; rewrite length_drop; lia|].
    rewrite take_ge by (rewrite length_app; simpl; lia). exists (drop (S (length s)) name). by rewrite <- app_assoc.
Qed.

(** "/ab//c" *)
Lemma skipelem_correct_witness :
  match skipelem [47; 97; 98; 47; 47; 99] (replicate 14 0) with
  | None => False
  | Some (rest, name') =>
      rest = [99] ∧ ∃ s, elems [47; 97; 98; 47; 47; 99] [] = s :: elems rest [] ∧ head rest ≠ Some slash
  end.
Proof.
  pose proof (skipelem_correct [47; 97; 98; 47; 47; 99] (replicate 14 0) eq_refl) as H.
  vm_compute in H |- *. destruct H as (s & Hs & _ & _ & Hh & _).
  split; [reflexivity|]. exists s. split; [exact Hs|exact Hh].
Defined.
