(* ===== verification/InodeIO.v ===== *)
(** * Files and directories over the block cache (fs/inode.c)

    The contract of the block cache that the inode layer relies on, as the laws of
    a type class; a logical disk that implements it; and, from the contract alone,
    what [inode_sync], [inode_map], [inode_read], [inode_write] and the directory
    operations do to the bytes of a file. *)
From S2P Require Import Prelude Locks CString Cache Inode.

(** ** The contract of the block cache

    What a client can observe: the contents of the blocks, the blocks it holds
    (by their [Block] pointer), those it changed and has not synchronized, the
    allocated blocks, and how many more blocks a context may log. *)
Record Obs := mkObs {
  o_view : Z → list Z;
  o_held : gmap Z Z;
  o_dirty : gset Z;
  o_used : Z → bool;
  o_credit : Z → Z
}.

Definition upd_fn {X} (f : Z → X) (k : Z) (v : X) : Z → X := λ n, if decide (n = k) then v else f n.
Definition zero_data : list Z := replicate (Z.to_nat BLOCK_SIZE) 0.

Section layout.
Context (sb : SuperBlock).
(** The disk: [... | inode blocks | bitmap blocks | data blocks]. *)
Definition data_start : Z := sb_num_blocks sb - sb_num_data_blocks sb.
Definition data_block (n : Z) : Prop := data_start ≤ n < sb_num_blocks sb.
Definition inode_block (n : Z) : Prop := sb_inode_start sb ≤ n < sb_bitmap_start sb.
Definition accessible (n : Z) : Prop := data_block n ∨ inode_block n.
Record fs_layout : Prop := {
  fl_inode : 0 ≤ sb_inode_start sb;
  fl_inodes : 0 ≤ sb_num_inodes sb ∧ sb_inode_start sb + sb_num_inodes sb / INODE_PER_BLOCK < sb_bitmap_start sb;
  fl_data : sb_bitmap_start sb < data_start;
  fl_size : 0 ≤ sb_num_data_blocks sb ∧ sb_num_blocks sb < 2 ^ 32
}.
End layout.

Class BlockCacheLaws (C : Type) `{BlockCache C} (sb : SuperBlock) := {
  bc_rep : C → Obs → Prop;
  bc_rep_bytes : ∀ c O n, bc_rep c O → accessible sb n → bytes512 (o_view O n);
  bc_acquire_spec : ∀ c V H D U K bn, bc_rep c (mkObs V H D U K) → accessible sb bn → (∀ b, H !! b ≠ Some bn) →
    wp (bc_acquire bn) (λ b c', H !! b = None ∧ bc_rep c' (mkObs V (<[b := bn]> H) D U K)) c;
  bc_get_spec : ∀ c V H D U K b bn, bc_rep c (mkObs V H D U K) → H !! b = Some bn →
    bc_get b c = Ok (V bn) c;
  bc_set_spec : ∀ c V H D U K b bn d, bc_rep c (mkObs V H D U K) → H !! b = Some bn → bytes512 d →
    wp (bc_set b d) (λ _ c', bc_rep c' (mkObs (upd_fn V bn d) H ({[bn]} ∪ D) U K)) c;
  bc_sync_spec : ∀ c V H D U K ctx b bn, bc_rep c (mkObs V H D U K) → H !! b = Some bn → ctx ≠ NULL → 1 ≤ K ctx →
    wp (bc_sync ctx b) (λ _ c', bc_rep c' (mkObs V H (D ∖ {[bn]}) U (upd_fn K ctx (K ctx - 1)))) c;
  bc_release_spec : ∀ c V H D U K b bn, bc_rep c (mkObs V H D U K) → H !! b = Some bn → bn ∉ D →
    wp (bc_release b) (λ _ c', bc_rep c' (mkObs V (delete b H) D U K)) c;
  bc_alloc_spec : ∀ c V H D U K ctx, bc_rep c (mkObs V H D U K) → ctx ≠ NULL → 2 ≤ K ctx →
    (∃ n, data_block sb n ∧ U n = false) → (∀ b bn, H !! b = Some bn → data_block sb bn ∧ U bn = true) →
    wp (bc_alloc ctx) (λ bn c', data_block sb bn ∧ U bn = false ∧
      bc_rep c' (mkObs (upd_fn V bn zero_data) H D (upd_fn U bn true) (upd_fn K ctx (K ctx - 2)))) c;
  bc_free_spec : ∀ c V H D U K ctx bn, bc_rep c (mkObs V H D U K) → ctx ≠ NULL → 1 ≤ K ctx →
    data_block sb bn → U bn = true → (∀ b n, H !! b = Some n → data_block sb n) →
    wp (bc_free ctx bn) (λ _ c', bc_rep c' (mkObs V H D (upd_fn U bn false) (upd_fn K ctx (K ctx - 1)))) c
}.

(** ** A logical disk *)
Record LDisk := mkLDisk {
  ld_view : gmap Z (list Z);
  ld_held : gset Z;
  ld_dirty : gset Z;
  ld_used : gset Z;
  ld_credit : gmap Z Z
}.

Section ldisk.
Context (sb : SuperBlock).
Definition ld_block (d : LDisk) (n : Z) : list Z := default zero_data (ld_view d !! n).
Definition ld_credits (d : LDisk) (ctx : Z) : Z := default 0 (ld_credit d !! ctx).
Definition ld_hold h (d : LDisk) : LDisk := mkLDisk (ld_view d) h (ld_dirty d) (ld_used d) (ld_credit d).
Definition ld_spend (ctx n : Z) : M LDisk unit :=
  d ← getS;
  assertM (negb (ctx =? NULL) && (n <=? ld_credits d ctx)) "OP_MAX_BLOCK exceeded";;
  putS (mkLDisk (ld_view d) (ld_held d) (ld_dirty d) (ld_used d) (<[ctx := ld_credits d ctx - n]> (ld_credit d))).

(** The first free data block of the [n] from [from] on. *)
Fixpoint ld_first (d : LDisk) (from : Z) (n : nat) : option Z :=
  match n with
  | O => None
  | S n' => if bool_decide (from ∈ ld_used d) then ld_first d (from + 1) n' else Some from
  end.

#[local] Instance ldisk_cache : BlockCache LDisk := {
  bc_acquire bn :=
    d ← getS; (if bool_decide (bn ∈ ld_held d) then blocked else putS (ld_hold ({[bn]} ∪ ld_held d) d));; mret bn;
  bc_get b := d ← getS; (if bool_decide (b ∈ ld_held d) then mret (ld_block d b) else undef);
  bc_set b v :=
    d ← getS; (if bool_decide (b ∈ ld_held d)
               then putS (mkLDisk (<[b := v]> (ld_view d)) (ld_held d) ({[b]} ∪ ld_dirty d) (ld_used d) (ld_credit d))
               else undef);
  bc_sync ctx b :=
    ld_spend ctx 1;;
    modify (λ d, mkLDisk (ld_view d) (ld_held d) (ld_dirty d ∖ {[b]}) (ld_used d) (ld_credit d));
  bc_release b := modify (λ d, ld_hold (ld_held d ∖ {[b]}) d);
  bc_alloc ctx :=
    ld_spend ctx 2;;
    d ← getS;
    match ld_first d (data_start sb) (Z.to_nat (sb_num_data_blocks sb)) with
    | Some bn =>
        putS (mkLDisk (<[bn := zero_data]> (ld_view d)) (ld_held d) (ld_dirty d) ({[bn]} ∪ ld_used d) (ld_credit d));;
        mret bn
    | None => panic "cache_alloc: no free block"
    end;
  bc_free ctx bn :=
    ld_spend ctx 1;;
    d ← getS;
    assertM (bool_decide (bn ∈ ld_used d)) "freeing free block";;
    putS (mkLDisk (ld_view d) (ld_held d) (ld_dirty d) (ld_used d ∖ {[bn]}) (ld_credit d))
}.

Record ld_rep (d : LDisk) (O : Obs) : Prop := {
  lr_view : ∀ n, ld_block d n = o_view O n;
  lr_bytes : ∀ n, bytes512 (ld_block d n);
  lr_held : ∀ b n, o_held O !! b = Some n ↔ b = n ∧ n ∈ ld_held d;
  lr_dirty : ld_dirty d = o_dirty O;
  lr_used : ∀ n, bool_decide (n ∈ ld_used d) = o_used O n;
  lr_credit : ∀ k, ld_credits d k = o_credit O k
}.

Lemma ld_first_spec d n : ∀ from,
  (∃ k, from ≤ k < from + Z.of_nat n ∧ k ∉ ld_used d) →
  ∃ bn, ld_first d from n = Some bn ∧ from ≤ bn < from + Z.of_nat n ∧ bn ∉ ld_used d.
Proof.
  induction n as [|n IH]; intros from (k & Hk & Hu); [lia|]. cbn [ld_first].
  case_bool_decide as Hf; [|exists from; split_and!; [done|lia|lia|done]].
  destruct (IH (from + 1)) as (bn & E & Hbn & Hub).
  { exists k. split; [|done]. assert (k ≠ from) by (by intros ->). lia. }
  exists bn. split_and!; [done|lia|lia|done].
Qed.

Lemma ld_spend_Ok d ctx n : ctx ≠ NULL → n ≤ ld_credits d ctx →
  ld_spend ctx n d = Ok () (mkLDisk (ld_view d) (ld_held d) (ld_dirty d) (ld_used d)
                              (<[ctx := ld_credits d ctx - n]> (ld_credit d))).
Proof.
  intros Hc Hn. unfold ld_spend. erewrite bind_Ok by reflexivity.
  rewrite (proj2 (Z.eqb_neq _ _) Hc), (proj2 (Z.leb_le _ _) Hn). done.
Qed.
End ldisk.

Lemma upd_fn_eq {X} (f : Z → X) k v : upd_fn f k v k = v.
Proof. unfold upd_fn. by rewrite decide_True. Qed.
Lemma upd_fn_ne {X} (f : Z → X) k v n : n ≠ k → upd_fn f k v n = f n.
Proof. intros. unfold upd_fn. by rewrite decide_False. Qed.

Lemma zero_data_bytes : bytes512 zero_data.
Proof. split; [apply length_replicate|]. apply Forall_replicate. lia. Qed.

Lemma ld_credits_spend d ctx n V' H' D' U' k :
  ld_credits (mkLDisk V' H' D' U' (<[ctx := ld_credits d ctx - n]> (ld_credit d))) k =
  upd_fn (ld_credits d) ctx (ld_credits d ctx - n) k.
Proof.
  unfold ld_credits, upd_fn. simpl. case_decide as E; [subst; by rewrite lookup_insert_eq|by rewrite lookup_insert_ne].
Qed.

Lemma ld_block_insert d n v V' H' D' U' K' m :
  V' = <[n := v]> (ld_view d) → ld_block (mkLDisk V' H' D' U' K') m = upd_fn (ld_block d) n v m.
Proof.
  intros ->. unfold ld_block, upd_fn. simpl. case_decide as E; [subst; by rewrite lookup_insert_eq|by rewrite lookup_insert_ne].
Qed.

Lemma ld_spend_rep d O ctx n :
  ld_rep d O → ctx ≠ NULL → n ≤ o_credit O ctx →
  ∃ d', ld_spend ctx n d = Ok () d' ∧ ld_view d' = ld_view d ∧ ld_held d' = ld_held d ∧ ld_dirty d' = ld_dirty d ∧
    ld_used d' = ld_used d ∧
    ld_rep d' (mkObs (o_view O) (o_held O) (o_dirty O) (o_used O) (upd_fn (o_credit O) ctx (o_credit O ctx - n))).
Proof.
  intros [R1 R2 R3 R4 R5 R6] Hc Hn. eexists. split; [apply ld_spend_Ok; [done|by rewrite R6]|]. split_and!; try done.
  split; simpl; try done. intros k. rewrite ld_credits_spend. unfold upd_fn. rewrite !R6. done.
Qed.

#[local] Instance ldisk_laws sb : @BlockCacheLaws LDisk (ldisk_cache sb) sb.
Proof.
  refine {| bc_rep := ld_rep |}.
  - intros c O n HR _. rewrite <- (lr_view _ _ HR). apply HR.
  - intros c V H D U K bn HR _ Hh. pose proof HR as [R1 R2 R3 R4 R5 R6]. simpl in *.
    assert (bn ∉ ld_held c) as Hn by (intros Hin; apply (Hh bn), R3; done).
    unfold wp, bc_acquire. simpl. unfold mbind, M_bind, getS. rewrite bool_decide_eq_false_2 by done. simpl.
    split; [destruct (H !! bn) as [n|] eqn:E; [|done]; apply R3 in E as [-> ?]; done|].
    split; simpl; try done. intros b n. destruct (decide (b = bn)) as [->|Hne].
    + rewrite lookup_insert_eq. split; [intros [= <-]; set_solver|]. by intros [-> _].
    + rewrite lookup_insert_ne by done. rewrite R3. set_solver.
  - intros c V H D U K b bn [R1 R2 R3 R4 R5 R6] Hb. apply R3 in Hb as [-> Hin]. simpl in *.
    unfold mbind, M_bind, getS. rewrite bool_decide_eq_true_2 by done. by rewrite R1.
  - intros c V H D U K b bn d [R1 R2 R3 R4 R5 R6] Hb Hd. simpl in *. apply R3 in Hb as [-> Hin].
    unfold wp. simpl. unfold mbind, M_bind, getS, putS. rewrite bool_decide_eq_true_2 by done.
    split; simpl; try done.
    + intros n. erewrite ld_block_insert by done. unfold upd_fn. by rewrite R1.
    + intros n. erewrite ld_block_insert by done. unfold upd_fn. by case_decide.
    + by rewrite R4.
  - intros c V H D U K ctx b bn HR Hb Hc Hk. destruct (ld_spend_rep c _ ctx 1 HR Hc Hk) as (d' & E & _ & _ & _ & _ & HR').
    simpl in *. unfold wp. simpl. erewrite bind_Ok by exact E. destruct HR as [_ _ R3 _ _ _]. simpl in *.
    apply R3 in Hb as [-> _]. destruct HR' as [P1 P2 P3 P4 P5 P6]. split; simpl in *; try done. by rewrite P4.
  - intros c V H D U K b bn [R1 R2 R3 R4 R5 R6] Hb Hd. simpl in *. pose proof Hb as Hb'. apply R3 in Hb' as [-> Hin].
    split; simpl; try done. intros b n. destruct (decide (b = bn)) as [->|Hne].
    + rewrite lookup_delete_eq. set_solver.
    + rewrite lookup_delete_ne by done. rewrite R3. set_solver.
  - intros c V H D U K ctx HR Hc Hk (n & Hn & Hun) _.
    destruct (ld_spend_rep c _ ctx 2 HR Hc Hk) as (d' & E & _ & _ & _ & Hu & HR'). simpl in *.
    pose proof HR' as [P1 P2 P3 P4 P5 P6]. simpl in *. unfold data_block, data_start in Hn.
    assert (∃ k, data_start sb ≤ k < data_start sb + Z.of_nat (Z.to_nat (sb_num_data_blocks sb)) ∧ k ∉ ld_used d') as Hf.
    { exists n. unfold data_start. split; [lia|]. rewrite <- (P5 n) in Hun. by apply bool_decide_eq_false in Hun. }
    apply ld_first_spec in Hf as (bn & Ef & Hbn & Hub).
    unfold wp. simpl. erewrite bind_Ok by exact E. erewrite bind_Ok by reflexivity. rewrite Ef. simpl.
    split; [unfold data_block, data_start in *; lia|]. split; [rewrite <- P5; by apply bool_decide_eq_false|].
    split; simpl; try done.
    + intros m. erewrite ld_block_insert by done. unfold upd_fn. by rewrite P1.
    + intros m. erewrite ld_block_insert by done. unfold upd_fn. case_decide; [apply zero_data_bytes|apply P2].
    + intros m. unfold upd_fn. case_decide as Em; [subst; apply bool_decide_eq_true; set_solver|].
      rewrite <- P5. apply bool_decide_ext. set_solver.
  - intros c V H D U K ctx bn HR Hc Hk Hdb Hu _.
    destruct (ld_spend_rep c _ ctx 1 HR Hc Hk) as (d' & E & _ & _ & _ & _ & HR'). simpl in *.
    pose proof HR' as [P1 P2 P3 P4 P5 P6]. simpl in *.
    unfold wp. simpl. erewrite bind_Ok by exact E. erewrite bind_Ok by reflexivity. rewrite P5, Hu. simpl.
    split; simpl; try done. intros m. unfold upd_fn. case_decide as Em; [subst; apply bool_decide_eq_false; set_solver|].
    rewrite <- P5. apply bool_decide_ext. set_solver.
Defined.

(** ** Running inode operations

    The operations on the inode [p] change its record and the cache. *)
Section ops.
Context {C A K0 : Type} {BC : BlockCache C} {sb : SuperBlock} {BCL : BlockCacheLaws C sb} {OP : ObjectPool A}.
Context (me : Z).
Abbreviation T := (ITree C A K0).
Implicit Types (t : T) (i : Inode) (c : C) (e : InodeEntry) (V : Z → list Z) (U : Z → bool) (K : Z → Z).

Definition upd t (p : Z) i c : T :=
  mkITree (t_lock t) (t_head t) (<[p := i]> (t_inodes t)) (t_arena t) c (t_root t) (t_console t).

Lemma upd_id t p i : t_inodes t !! p = Some i → upd t p i (t_cache t) = t.
Proof. intros E. unfold upd. rewrite insert_id by done. by destruct t. Qed.

Lemma wp_onc {X} (m : M C X) Q t p i c :
  wp m (λ a c', Q a (upd t p i c')) c → wp (onc m) Q (upd t p i c).
Proof. intros Hw. unfold onc. apply wp_zoom. exact Hw. Qed.

Lemma wp_get_inode (Q : Inode → T → Prop) t p i c : Q i (upd t p i c) → wp (get_inode p) Q (upd t p i c).
Proof. intros HQ. unfold wp, get_inode, mbind, M_bind, getS, derefM. simpl. by rewrite lookup_insert_eq. Qed.

Lemma wp_upd_inode (Q : unit → T → Prop) t p i c f :
  Q () (upd t p (f i) c) → wp (upd_inode p f) Q (upd t p i c).
Proof.
  intros HQ. unfold upd_inode. apply wp_bind, wp_get_inode. unfold set_inode, wp, modify.
  unfold upd, set_t_inodes in *. simpl. by rewrite insert_insert_eq.
Qed.

Lemma wp_upd_entry (Q : unit → T → Prop) t p i c f :
  Q () (upd t p (with_i_entry (f (i_entry i)) i) c) → wp (upd_entry p f) Q (upd t p i c).
Proof. intros HQ. unfold upd_entry. by apply wp_upd_inode. Qed.

Lemma wp_bc_get c V H D U K b bn (Q : list Z → C → Prop) :
  bc_rep c (mkObs V H D U K) → H !! b = Some bn → Q (V bn) c → wp (bc_get b) Q c.
Proof. intros HR Hb HQ. eapply wp_of_Ok; [by eapply bc_get_spec|done]. Qed.

(** No block held, none dirty. *)
Definition calm V U K : Obs := mkObs V ∅ ∅ U K.
Definition spend (ctx n : Z) K : Z → Z := upd_fn K ctx (K ctx - n).

Lemma spend_spend ctx a b K : spend ctx a (spend ctx b K) = upd_fn (spend ctx b K) ctx (K ctx - (b + a)).
Proof. unfold spend. rewrite upd_fn_eq. f_equal. lia. Qed.

Lemma release_calm c V U K b bn :
  bc_rep c (mkObs V (<[b := bn]> ∅) ∅ U K) → wp (bc_release b) (λ _ c', bc_rep c' (calm V U K)) c.
Proof.
  intros HR. eapply wp_mono; [eapply bc_release_spec; [exact HR|apply lookup_insert_eq|set_solver]|].
  intros [] c' HR'. by rewrite delete_insert_id in HR' by apply lookup_empty.
Qed.

Lemma acquire_calm c V U K bn :
  bc_rep c (calm V U K) → accessible sb bn →
  wp (bc_acquire bn) (λ b c', bc_rep c' (mkObs V (<[b := bn]> ∅) ∅ U K)) c.
Proof.
  intros HR Hbn. eapply wp_mono; [eapply bc_acquire_spec; [exact HR|done|]|].
  - intros b. by rewrite lookup_empty.
  - by intros b c' [_ HR'].
Qed.

(** Change a held block and synchronize it. *)
Lemma wp_set_sync c V H U K ctx b bn d (Q : unit → T → Prop) t p i :
  bc_rep c (mkObs V H ∅ U K) → H !! b = Some bn → bytes512 d → ctx ≠ NULL → 1 ≤ K ctx →
  (∀ c', bc_rep c' (mkObs (upd_fn V bn d) H ∅ U (spend ctx 1 K)) → Q () (upd t p i c')) →
  wp (onc (bc_set b d);; onc (bc_sync ctx b)) Q (upd t p i c).
Proof.
  intros HR Hb Hd Hc Hk HQ. apply wp_bind, wp_onc. eapply wp_mono; [by eapply bc_set_spec|].
  intros [] c1 HR1. apply wp_onc. eapply wp_mono; [by eapply bc_sync_spec|]. intros [] c2 HR2. apply HQ.
  by replace (({[bn]} ∪ ∅) ∖ {[bn]}) with (∅ : gset Z) in HR2 by set_solver.
Qed.

(** *** [inode_sync] *)
Definition valid_ino (ino : Z) : Prop := 0 < ino < sb_num_inodes sb.
Definition ino_block (ino : Z) : Z := sb_inode_start sb + ino / INODE_PER_BLOCK.

Lemma ino_block_spec ino : fs_layout sb → 0 ≤ ino ≤ sb_num_inodes sb →
  to_block_no sb ino = ino_block ino ∧ inode_block sb (ino_block ino).
Proof.
  intros [L1 L2 L3 L4] Hi. unfold to_block_no, ino_block, inode_block, data_start in *.
  change INODE_PER_BLOCK with 8 in *.
  assert (0 ≤ ino / 8) by (apply Z.div_pos; lia). assert (ino / 8 ≤ sb_num_inodes sb / 8) by (apply Z.div_le_mono; lia).
  rewrite u64_small by lia. lia.
Qed.

Lemma sync_write_wp t p i c V U K ctx :
  fs_layout sb → bc_rep c (calm V U K) → valid_ino (i_inode_no i) → i_valid i = true → entry_ok (i_entry i) →
  ctx ≠ NULL → 1 ≤ K ctx →
  let ino := i_inode_no i in
  wp (inode_sync sb ctx p true)
     (λ _ t', ∃ c', t' = upd t p i c' ∧
        bc_rep c' (calm (upd_fn V (ino_block ino) (set_entry (V (ino_block ino)) ino (i_entry i))) U (spend ctx 1 K)))
     (upd t p i c).
Proof.
  intros HL HR Hi Hv He Hc Hk ino. unfold valid_ino in Hi.
  destruct (ino_block_spec ino HL ltac:(unfold ino; lia)) as [Eb Hb].
  unfold inode_sync. apply wp_bind, wp_get_inode. apply wp_bind, wp_onc. fold ino. rewrite Eb.
  eapply wp_mono; [eapply acquire_calm; [exact HR|by right]|]. intros b c1 HR1. cbn beta.
  apply wp_bind, wp_onc. eapply wp_bc_get; [exact HR1|apply lookup_insert_eq|]. rewrite Hv. simpl andb.
  apply wp_bind. eapply wp_set_sync; [exact HR1|apply lookup_insert_eq| |done|done|].
  { apply set_entry_bytes; [|done]. eapply bc_rep_bytes in HR; [exact HR|by right]. }
  intros c2 HR2. apply wp_onc. eapply wp_mono; [by eapply release_calm|]. intros [] c3 HR3. by exists c3.
Qed.

Lemma sync_read_wp t p i c V U K ctx w :
  fs_layout sb → bc_rep c (calm V U K) → valid_ino (i_inode_no i) → i_valid i = false →
  wp (inode_sync sb ctx p w)
     (λ _ t', ∃ c', t' = upd t p (with_i_entry (get_entry (V (ino_block (i_inode_no i))) (i_inode_no i))
                                     (with_i_valid true i)) c' ∧ bc_rep c' (calm V U K))
     (upd t p i c).
Proof.
  intros HL HR Hi Hv. unfold valid_ino in Hi.
  destruct (ino_block_spec (i_inode_no i) HL ltac:(lia)) as [Eb Hb].
  unfold inode_sync. apply wp_bind, wp_get_inode. apply wp_bind, wp_onc. rewrite Eb.
  eapply wp_mono; [eapply acquire_calm; [exact HR|by right]|]. intros b c1 HR1. cbn beta in *.
  apply wp_bind, wp_onc. eapply wp_bc_get; [exact HR1|apply lookup_insert_eq|]. rewrite Hv, andb_false_r. simpl negb.
  apply wp_bind, wp_upd_inode. cbn beta. apply wp_onc. eapply wp_mono; [by eapply release_calm|].
  intros [] c3 HR3. by exists c3.
Qed.

(** *** The bytes of a file *)
Definition addr_of V e (k : Z) : Z :=
  if k <? INODE_NUM_DIRECT then e_addrs e !!! Z.to_nat k
  else if e_indirect e =? 0 then 0
  else get_addrs (V (e_indirect e)) !!! Z.to_nat (k - INODE_NUM_DIRECT).
Definition byte_at V e (o : Z) : Z :=
  let a := addr_of V e (o / BLOCK_SIZE) in
  if a =? 0 then 0 else V a !!! Z.to_nat (o mod BLOCK_SIZE).

Record file_inv V U e : Prop := {
  fi_ok : entry_ok e;
  fi_ind : e_indirect e ≠ 0 → data_block sb (e_indirect e) ∧ U (e_indirect e) = true;
  fi_addr : ∀ k, 0 ≤ k < INODE_MAX_BLOCKS → addr_of V e k ≠ 0 →
    data_block sb (addr_of V e k) ∧ U (addr_of V e k) = true ∧ addr_of V e k ≠ e_indirect e;
  fi_inj : ∀ k j, 0 ≤ k < INODE_MAX_BLOCKS → 0 ≤ j < INODE_MAX_BLOCKS →
    addr_of V e k = addr_of V e j → addr_of V e k ≠ 0 → k = j;
  fi_mapped : ∀ k, 0 ≤ k → k * BLOCK_SIZE < e_num_bytes e → addr_of V e k ≠ 0;
  fi_size : e_num_bytes e ≤ INODE_MAX_BYTES
}.

Definition has_free U (n : nat) : Prop :=
  ∃ l : list Z, NoDup l ∧ length l = n ∧ ∀ x, x ∈ l → data_block sb x ∧ U x = false.
Definition grown U U' (n : nat) : Prop :=
  ∃ l : list Z, (length l ≤ n)%nat ∧ ∀ x, U' x = true → U x = true ∨ x ∈ l.

(** The file gained blocks but no bytes. *)
Record extends V U e V' U' e' : Prop := {
  ex_inv : file_inv V' U' e';
  ex_addr : ∀ k, 0 ≤ k < INODE_MAX_BLOCKS → addr_of V e k ≠ 0 → addr_of V' e' k = addr_of V e k;
  ex_new : ∀ k, 0 ≤ k < INODE_MAX_BLOCKS → addr_of V' e' k = addr_of V e k ∨ U (addr_of V' e' k) = false;
  ex_byte : ∀ o, 0 ≤ o < INODE_MAX_BYTES → byte_at V' e' o = byte_at V e o;
  ex_view : ∀ n, U n = true → n ≠ e_indirect e → V' n = V n;
  ex_other : ∀ n, ¬ data_block sb n → V' n = V n;
  ex_used : ∀ n, U n = true → U' n = true;
  ex_ind : e_indirect e' = e_indirect e ∨ (e_indirect e = 0 ∧ U (e_indirect e') = false);
  ex_meta : ∃ al ind, e' = with_e_indirect ind (with_e_addrs al e)
}.

Lemma extends_refl V U e : file_inv V U e → extends V U e V U e.
Proof. intros HI. split; auto. exists (e_addrs e), (e_indirect e). by destruct e. Qed.

Lemma extends_trans V U e V1 U1 e1 V2 U2 e2 :
  extends V U e V1 U1 e1 → extends V1 U1 e1 V2 U2 e2 → extends V U e V2 U2 e2.
Proof.
  intros [A1 A2 AN A3 A4 A5 A6 A7 A8] [B1 B2 BN B3 B4 B5 B6 B7 B8]. split.
  - done.
  - intros k Hk Hn. rewrite B2; [by apply A2|done|by rewrite A2].
  - intros k Hk. destruct (BN k Hk) as [->|E]; [by apply AN|]. right.
    destruct (U (addr_of V2 e2 k)) eqn:EU; [|done]. apply A6 in EU. congruence.
  - intros o Ho. by rewrite B3, A3.
  - intros n Hn Hne. rewrite B4; [by apply A4|by apply A6|]. destruct A7 as [->|[_ A7]]; [done|]. intros ->. congruence.
  - intros n Hn. by rewrite B5, A5.
  - auto.
  - destruct A7 as [E|[E F]]; [rewrite E in B7|].
    + destruct B7 as [->|[? G]]; [by left|]. right. split; [done|].
      destruct (U (e_indirect e2)) eqn:EU; [|done]. apply A6 in EU. congruence.
    + destruct B7 as [->|[? G]]; [by right|]. right. split; [done|].
      destruct (U (e_indirect e2)) eqn:EU; [|done]. apply A6 in EU. congruence.
  - destruct A8 as (al & ind & ->), B8 as (al' & ind' & ->). by exists al', ind'.
Qed.

Lemma grown_trans U U1 U2 n m : grown U U1 n → grown U1 U2 m → grown U U2 (n + m).
Proof.
  intros (l & Hl & H1) (l' & Hl' & H2). exists (l ++ l'). split; [rewrite length_app; lia|].
  intros x Hx. destruct (H2 x Hx) as [Hx'|?]; [|set_solver]. destruct (H1 x Hx'); set_solver.
Qed.

Lemma grown_upd U b : grown U (upd_fn U b true) 1.
Proof. exists [b]. split; [done|]. intros x. unfold upd_fn. case_decide; [subst; set_solver|by left]. Qed.

Lemma grown_weaken U U' n m : grown U U' n → (n ≤ m)%nat → grown U U' m.
Proof. intros (l & Hl & Hx) Hn. exists l. split; [lia|done]. Qed.

Lemma has_free_grown U U' n m : grown U U' n → has_free U (n + m) → has_free U' m.
Proof.
  intros (g & Hg & Hgr) (l & Hnd & Hlen & Hl).
  set (l' := filter (λ x, x ∉ g) l).
  assert (length l ≤ length l' + length g)%nat as Hle.
  { transitivity (length (l' ++ g)); [|by rewrite length_app]. apply submseteq_length, NoDup_submseteq; [done|].
    intros x Hx. apply elem_of_app. destruct (decide (x ∈ g)); [by right|left]. by apply list_elem_of_filter. }
  exists (take m l'). split_and!.
  - eapply sublist_NoDup; [|apply sublist_take]. by apply NoDup_filter.
  - rewrite length_take. lia.
  - intros x Hx. assert (x ∈ l') as Hx' by (eapply subseteq_take; exact Hx).
    apply list_elem_of_filter in Hx' as [Hng Hxl]. destruct (Hl x Hxl) as [Hd Hu]. split; [done|].
    destruct (U' x) eqn:E; [|done]. destruct (Hgr x E); [congruence|done].
Qed.

Lemma has_free_less U n m : has_free U n → (m ≤ n)%nat → has_free U m.
Proof.
  intros Hf Hm. apply (has_free_grown U U (n - m)); [exists []; split; [simpl; lia|by left]|].
  by replace (n - m + m)%nat with n by lia.
Qed.

Lemma has_free_ex U n : has_free U (S n) → ∃ x, data_block sb x ∧ U x = false.
Proof. intros ([|x l] & _ & Hlen & Hl); [done|]. exists x. apply Hl. set_solver. Qed.

(** *** Growing the block table *)
Lemma data_nonzero n : fs_layout sb → data_block sb n → 0 < n < 2 ^ 32.
Proof.
  intros [L1 [L2 L2'] L3 L4]. unfold data_block, data_start in *. change INODE_PER_BLOCK with 8 in *.
  assert (0 ≤ sb_num_inodes sb / 8) by (apply Z.div_pos; lia). lia.
Qed.

Lemma offset_block o : 0 ≤ o < INODE_MAX_BYTES → 0 ≤ o / BLOCK_SIZE < INODE_MAX_BLOCKS.
Proof.
  unfold INODE_MAX_BYTES, BLOCK_SIZE. intros Ho. split; [apply Z.div_pos; lia|apply Z.div_lt_upper_bound; lia].
Qed.

Lemma zero_data_lookup n : (n < 512)%nat → zero_data !!! n = 0.
Proof. intros Hn. apply list_lookup_total_correct. by apply lookup_replicate. Qed.

Lemma off_lt o : (Z.to_nat (o mod BLOCK_SIZE) < 512)%nat.
Proof. pose proof (Z.mod_pos_bound o BLOCK_SIZE). unfold BLOCK_SIZE in *. lia. Qed.

(** A fresh block [b] becomes block [k] of the file. *)
Lemma extends_at V U e V' e' al b k :
  fs_layout sb → file_inv V U e → data_block sb b → U b = false → 0 ≤ k < INODE_MAX_BLOCKS → addr_of V e k = 0 →
  entry_ok e' → e' = with_e_addrs al e →
  (∀ j, 0 ≤ j < INODE_MAX_BLOCKS → addr_of V' e' j = if decide (j = k) then b else addr_of V e j) →
  V' b = zero_data → (∀ n, n ≠ b → n ≠ e_indirect e ∨ e_indirect e = 0 → V' n = V n) →
  extends V U e V' (upd_fn U b true) e'.
Proof.
  intros HL HI Hd Hu Hk H0 He' -> Haddr Hb Hv. pose proof (data_nonzero b HL Hd) as Hb0.
  pose proof HI as [I1 I2 I3 I4 I5 I6].
  assert (∀ n, U n = true → n ≠ b) as Hub by (intros n Hn ->; congruence).
  assert (∀ n, U n = true → upd_fn U b true n = true) as Hmono.
  { intros n Hn. unfold upd_fn. by case_decide. }
  split; try done.
  - split; try done.
    + intros Hne. simpl in *. destruct (I2 Hne). auto.
    + intros j Hj Hn. rewrite Haddr in * by done. case_decide as Ej.
      * split; [done|]. split; [apply upd_fn_eq|]. simpl. intros Eb.
        destruct (decide (e_indirect e = 0)); [lia|]. destruct (I2 ltac:(done)) as [_ E]. congruence.
      * destruct (I3 j Hj Hn) as (? & ? & ?). auto.
    + intros i j Hi Hj E Hn. rewrite !Haddr in * by done. repeat case_decide; subst; try done.
      * destruct (I3 j Hj ltac:(lia)) as (_ & E' & _). congruence.
      * destruct (I3 i Hi Hn) as (_ & E' & _). congruence.
      * by apply I4.
    + intros j Hj Hs. simpl in *. assert (0 ≤ j < INODE_MAX_BLOCKS) as Hj'.
      { unfold INODE_MAX_BYTES, BLOCK_SIZE in *. lia. }
      rewrite Haddr by done. case_decide; [lia|]. by apply I5.
  - intros j Hj Hn. rewrite Haddr by done. case_decide; [by subst|done].
  - intros j Hj. rewrite Haddr by done. case_decide; [by right|by left].
  - intros o Ho. pose proof (offset_block o Ho) as Ho'. unfold byte_at. rewrite Haddr by done. case_decide as Ej.
    + rewrite Ej, H0, Z.eqb_refl. destruct (Z.eqb_spec b 0); [done|]. rewrite Hb. apply zero_data_lookup, off_lt.
    + destruct (Z.eqb_spec (addr_of V e (o / BLOCK_SIZE)) 0); [done|].
      destruct (I3 _ Ho' ltac:(done)) as (_ & Hu' & Hi). rewrite Hv; [done|by apply Hub|by left].
  - intros n Hn Hne. apply Hv; [by apply Hub|by left].
  - intros n Hn. apply Hv; [by intros ->|]. destruct (decide (e_indirect e = 0)); [by right|left].
    intros ->. by destruct (I2 ltac:(done)).
  - by left.
  - exists al, (e_indirect e). by destruct e.
Qed.

Lemma extends_direct V U e b k :
  fs_layout sb → file_inv V U e → data_block sb b → U b = false → 0 ≤ k < INODE_NUM_DIRECT → addr_of V e k = 0 →
  let e' := with_e_addrs (<[Z.to_nat k := b]> (e_addrs e)) e in
  extends V U e (upd_fn V b zero_data) (upd_fn U b true) e' ∧ addr_of (upd_fn V b zero_data) e' k = b.
Proof.
  intros HL HI Hd Hu Hk H0 e'. pose proof (data_nonzero b HL Hd) as Hb. pose proof (fi_ok _ _ _ HI) as He.
  change INODE_NUM_DIRECT with 12 in *.
  assert (∀ j, 0 ≤ j < INODE_MAX_BLOCKS →
    addr_of (upd_fn V b zero_data) e' j = if decide (j = k) then b else addr_of V e j) as Hj.
  { intros j Hj. unfold addr_of. change INODE_NUM_DIRECT with 12. simpl. destruct (Z.ltb_spec j 12).
    - case_decide as E; [subst; rewrite list_lookup_total_insert_eq; [done|rewrite (eo_len _ He); lia]|].
      by rewrite list_lookup_total_insert_ne by lia.
    - rewrite decide_False by lia. destruct (Z.eqb_spec (e_indirect e) 0); [done|].
      rewrite upd_fn_ne; [done|]. intros E. destruct (fi_ind _ _ _ HI ltac:(done)). congruence. }
  split.
  - eapply (extends_at V U e _ e' _ b k); try done.
    + change INODE_MAX_BLOCKS with 140. lia.
    + destruct He as [? ? ? ? ? Ha Hlen ?]. split; simpl; try done; [|by rewrite length_insert].
      apply Forall_insert; [done|]. unfold word32. lia.
    + apply upd_fn_eq.
    + intros n Hn _. by apply upd_fn_ne.
  - rewrite Hj by (change INODE_MAX_BLOCKS with 140; lia). by rewrite decide_True.
Qed.

Lemma extends_slot V U e b k :
  fs_layout sb → file_inv V U e → data_block sb b → U b = false → e_indirect e ≠ 0 → bytes512 (V (e_indirect e)) →
  INODE_NUM_DIRECT ≤ k < INODE_MAX_BLOCKS → addr_of V e k = 0 →
  let V' := upd_fn (upd_fn V b zero_data) (e_indirect e)
              (set_addr (V (e_indirect e)) (k - INODE_NUM_DIRECT) b) in
  extends V U e V' (upd_fn U b true) e ∧ addr_of V' e k = b.
Proof.
  intros HL HI Hd Hu Hind Hbytes Hk H0 V'. pose proof (data_nonzero b HL Hd) as Hb.
  destruct (fi_ind _ _ _ HI Hind) as [Hdi Hui]. assert (e_indirect e ≠ b) as Hne by (intros <-; congruence).
  change INODE_NUM_DIRECT with 12 in *. change INODE_MAX_BLOCKS with 140 in *.
  assert (∀ j, 0 ≤ j < 140 → addr_of V' e j = if decide (j = k) then b else addr_of V e j) as Hj.
  { intros j Hj. unfold addr_of. change INODE_NUM_DIRECT with 12. destruct (Z.ltb_spec j 12).
    { by rewrite decide_False by lia. }
    rewrite (proj2 (Z.eqb_neq _ _) Hind). unfold V'. rewrite upd_fn_eq, get_set_addr; [|done|lia|unfold word32; lia].
    case_decide as E; [subst; rewrite list_lookup_total_insert_eq; [done|rewrite length_get_addrs; lia]|].
    by rewrite list_lookup_total_insert_ne by lia. }
  split.
  - eapply (extends_at V U e _ e (e_addrs e) b k); try done.
    + change INODE_MAX_BLOCKS with 140. lia.
    + apply HI.
    + by destruct e.
    + unfold V'. rewrite upd_fn_ne by done. apply upd_fn_eq.
    + intros n Hn [Hn'|?]; [|done]. unfold V'. by rewrite !upd_fn_ne.
  - rewrite Hj by lia. by rewrite decide_True.
Qed.

Lemma zero_addrs : get_addrs zero_data = replicate 128 0.
Proof. by vm_compute. Qed.

(** A fresh block becomes the indirect block. *)
Lemma extends_indirect V U e b :
  fs_layout sb → file_inv V U e → data_block sb b → U b = false → e_indirect e = 0 →
  extends V U e (upd_fn V b zero_data) (upd_fn U b true) (with_e_indirect b e).
Proof.
  intros HL HI Hd Hu Hind. pose proof (data_nonzero b HL Hd) as Hb. pose proof HI as [I1 I2 I3 I4 I5 I6].
  assert (∀ n, U n = true → n ≠ b) as Hub by (intros n Hn ->; congruence).
  assert (∀ j, 0 ≤ j < INODE_MAX_BLOCKS →
    addr_of (upd_fn V b zero_data) (with_e_indirect b e) j = addr_of V e j) as Haddr.
  { intros j Hj. unfold addr_of. simpl. destruct (Z.ltb_spec j INODE_NUM_DIRECT); [done|]. rewrite Hind, Z.eqb_refl.
    destruct (Z.eqb_spec b 0); [done|]. rewrite upd_fn_eq, zero_addrs. apply list_lookup_total_correct.
    apply lookup_replicate. change INODE_MAX_BLOCKS with 140 in Hj. change INODE_NUM_DIRECT with 12 in *. split; [done|lia]. }
  assert (∀ n, U n = true → upd_fn U b true n = true) as Hmono.
  { intros n Hn. unfold upd_fn. by case_decide. }
  split; try done.
  - split; simpl; try done.
    + destruct I1. split; try done. simpl. unfold word32. lia.
    + intros _. split; [done|apply upd_fn_eq].
    + intros j Hj Hn. rewrite Haddr in * by done. destruct (I3 j Hj Hn) as (? & ? & ?). auto.
    + intros i j Hi Hj E Hn. rewrite !Haddr in * by done. by apply I4.
    + intros j Hj Hs. rewrite Haddr; [by apply I5|]. unfold INODE_MAX_BYTES, BLOCK_SIZE in *. lia.
  - intros. by apply Haddr.
  - intros. left. by apply Haddr.
  - intros o Ho. pose proof (offset_block o Ho) as Ho'. unfold byte_at. rewrite Haddr by done.
    destruct (Z.eqb_spec (addr_of V e (o / BLOCK_SIZE)) 0); [done|].
    destruct (I3 _ Ho' ltac:(done)) as (_ & Hu' & Hi). by rewrite upd_fn_ne by auto.
  - intros n Hn _. apply upd_fn_ne. auto.
  - intros n Hn. apply upd_fn_ne. by intros ->.
  - by right.
  - exists (e_addrs e), b. by destruct e.
Qed.

Lemma alloc_wp t p i c V H U K ctx (Q : Z → T → Prop) :
  bc_rep c (mkObs V H ∅ U K) → ctx ≠ NULL → 2 ≤ K ctx → has_free U 1 →
  (∀ b bn, H !! b = Some bn → data_block sb bn ∧ U bn = true) →
  (∀ b c', data_block sb b → U b = false →
     bc_rep c' (mkObs (upd_fn V b zero_data) H ∅ (upd_fn U b true) (spend ctx 2 K)) → Q b (upd t p i c')) →
  wp (onc (bc_alloc ctx)) Q (upd t p i c).
Proof.
  intros HR Hc Hk Hf HH HQ. apply wp_onc. apply has_free_ex in Hf.
  eapply wp_mono; [by eapply bc_alloc_spec|]. intros b c' (Hd & Hu & HR'). by apply HQ.
Qed.

Definition grants ctx n K K' : Prop := K ctx - n ≤ K' ctx.

(** The result of [inode_map]. *)
Record map_post V U K e ctx k a t p i t' : Prop := {
  mp_ex : ∃ V' U' K' e' c', t' = upd t p (with_i_entry e' i) c' ∧ bc_rep c' (calm V' U' K') ∧
    extends V U e V' U' e' ∧ grown U U' 2 ∧ grants ctx 5 K K' ∧ addr_of V' e' k = a ∧
    (addr_of V e k ≠ 0 → V' = V ∧ U' = U ∧ K' = K ∧ e' = e);
  mp_data : data_block sb a ∧ a ≠ 0
}.

Definition can_grow V U K e ctx k : Prop :=
  addr_of V e k = 0 → ctx ≠ NULL ∧ 5 ≤ K ctx ∧ has_free U 2.

Lemma map_indirect_wp t p i c V U K e ctx k :
  fs_layout sb → i_entry i = e → bc_rep c (calm V U K) → file_inv V U e → e_indirect e ≠ 0 →
  INODE_NUM_DIRECT ≤ k < INODE_MAX_BLOCKS →
  (addr_of V e k = 0 → ctx ≠ NULL ∧ 3 ≤ K ctx ∧ has_free U 1) →
  wp (map_indirect ctx (e_indirect e) (k - INODE_NUM_DIRECT))
    (λ r t', ∃ V' U' K' c', t' = upd t p i c' ∧ bc_rep c' (calm V' U' K') ∧ extends V U e V' U' e ∧
       grown U U' 1 ∧ grants ctx 3 K K' ∧ addr_of V' e k = r.1 ∧ data_block sb r.1 ∧
       (addr_of V e k ≠ 0 → V' = V ∧ U' = U ∧ K' = K))
    (upd t p i c).
Proof.
  intros HL Ee HR HI Hind Hk Hg. destruct (fi_ind _ _ _ HI Hind) as [Hdi Hui].
  assert (addr_of V e k = get_addrs (V (e_indirect e)) !!! Z.to_nat (k - INODE_NUM_DIRECT)) as Ea.
  { unfold addr_of. destruct (Z.ltb_spec k INODE_NUM_DIRECT); [lia|]. by rewrite (proj2 (Z.eqb_neq _ _) Hind). }
  change INODE_NUM_DIRECT with 12 in *. change INODE_MAX_BLOCKS with 140 in *.
  unfold map_indirect. apply wp_bind, wp_onc. eapply wp_mono; [eapply acquire_calm; [exact HR|by left]|].
  intros b c1 HR1. cbn beta in *. apply wp_bind, wp_onc. eapply wp_bc_get; [exact HR1|apply lookup_insert_eq|].
  apply wp_bind. eapply wp_derefM.
  { apply list_lookup_lookup_total_lt. rewrite length_get_addrs. lia. }
  rewrite <- Ea. apply wp_bind. destruct (Z.eqb_spec (addr_of V e k) 0) as [E0|E0].
  - destruct (Hg E0) as (Hc & Hk3 & Hf). apply wp_bind. eapply alloc_wp; [exact HR1|done|lia|done| |].
    { intros b' n [[<- <-]|[_ E]]%lookup_insert_Some; [done|by rewrite lookup_empty in E]. }
    intros nb c2 Hdn Hun HR2. pose proof (data_nonzero nb HL Hdn). rewrite u32_small by lia.
    assert (e_indirect e ≠ nb) as Hne by congruence.
    apply wp_bind, wp_onc. eapply wp_bc_get; [exact HR2|apply lookup_insert_eq|]. rewrite upd_fn_ne by done.
    assert (bytes512 (V (e_indirect e))) as Hbt by (eapply bc_rep_bytes in HR; [exact HR|by left]).
    apply (wp_bind_assoc (onc (bc_set b (set_addr (V (e_indirect e)) (k - 12) nb)))).
    apply wp_bind. eapply wp_set_sync; [exact HR2|apply lookup_insert_eq|apply set_addr_bytes; [done|lia]|done| |].
    { unfold spend. rewrite upd_fn_eq. lia. }
    intros c3 HR3. apply wp_ret. apply wp_bind, wp_onc. eapply wp_mono; [by eapply release_calm|].
    intros [] c4 HR4. apply wp_ret.
    destruct (extends_slot V U e nb k HL HI Hdn Hun Hind Hbt ltac:(done) E0) as [Hex Hak].
    change INODE_NUM_DIRECT with 12 in *.
    eexists _, _, _, c4. split_and!; try done; [apply grown_upd|].
    unfold grants, spend. rewrite !upd_fn_eq. lia.
  - apply wp_ret. apply wp_bind, wp_onc. eapply wp_mono; [by eapply release_calm|]. intros [] c2 HR2. apply wp_ret.
    exists V, U, K, c2. split_and!; try done; [by apply extends_refl| | |].
    + exists []. split; [simpl; lia|]. by left.
    + unfold grants. lia.
    + apply (fi_addr _ _ _ HI); [|done]. change INODE_MAX_BLOCKS with 140. lia.
Qed.

Lemma with_i_entry_id i : with_i_entry (i_entry i) i = i.
Proof. by destruct i. Qed.

Lemma inode_map_wp t p i c V U K ctx k :
  fs_layout sb → bc_rep c (calm V U K) → file_inv V U (i_entry i) → 0 ≤ k < INODE_MAX_BLOCKS →
  can_grow V U K (i_entry i) ctx k →
  wp (inode_map ctx p k) (λ r t', map_post V U K (i_entry i) ctx k r.1 t p i t') (upd t p i c).
Proof.
  intros HL HR HI Hk Hg. unfold inode_map. apply wp_bind, wp_get_inode. set (e := i_entry i) in *.
  destruct (Z.ltb_spec k INODE_NUM_DIRECT) as [Hd|Hd].
  - assert (addr_of V e k = e_addrs e !!! Z.to_nat k) as Ea.
    { unfold addr_of. by rewrite (proj2 (Z.ltb_lt _ _) Hd). }
    apply wp_bind. eapply wp_derefM.
    { apply list_lookup_lookup_total_lt. rewrite (eo_len _ (fi_ok _ _ _ HI)). change INODE_NUM_DIRECT with 12 in Hd. lia. }
    rewrite <- Ea. destruct (Z.eqb_spec (addr_of V e k) 0) as [E0|E0].
    + destruct (Hg E0) as (Hc & Hk5 & Hf). apply wp_bind.
      eapply alloc_wp; [exact HR|done|lia| |by intros ? ?; rewrite lookup_empty|].
      { eapply has_free_less; [exact Hf|lia]. }
      intros b c1 Hdb Hub HR1. pose proof (data_nonzero b HL Hdb). rewrite u32_small by lia.
      apply wp_bind, wp_upd_entry. apply wp_ret.
      destruct (extends_direct V U e b k HL HI Hdb Hub ltac:(lia) E0) as [Hex Hak].
      split; [|simpl; split; [done|lia]]. eexists _, _, _, _, c1.
      split_and!; [reflexivity|exact HR1|exact Hex|eapply grown_weaken; [apply grown_upd|lia]| |exact Hak|done].
      unfold grants, spend. rewrite upd_fn_eq. lia.
    + apply wp_ret. split; [|by split; [apply (fi_addr _ _ _ HI)|]].
      exists V, U, K, e, c. unfold e. rewrite with_i_entry_id.
      split_and!; try done; [by apply extends_refl| |unfold grants; lia]. exists []. split; [simpl; lia|by left].
  - change INODE_MAX_BLOCKS with (INODE_NUM_DIRECT + INODE_NUM_INDIRECT) in Hk.
    destruct (Z.ltb_spec (k - INODE_NUM_DIRECT) INODE_NUM_INDIRECT) as [Hi|]; [|lia].
    change (INODE_NUM_DIRECT + INODE_NUM_INDIRECT) with INODE_MAX_BLOCKS in Hk.
    apply wp_bind. destruct (Z.eqb_spec (e_indirect e) 0) as [Ei|Ei].
    + assert (addr_of V e k = 0) as E0.
      { unfold addr_of. rewrite (proj2 (Z.ltb_ge _ _) Hd), Ei. done. }
      destruct (Hg E0) as (Hc & Hk5 & Hf). apply wp_bind.
      eapply alloc_wp; [exact HR|done|lia| |by intros ? ?; rewrite lookup_empty|].
      { eapply has_free_less; [exact Hf|lia]. }
      intros b c1 Hdb Hub HR1. pose proof (data_nonzero b HL Hdb). rewrite u32_small by lia.
      apply wp_bind, wp_upd_entry. apply wp_ret. set (e1 := with_e_indirect b e).
      pose proof (extends_indirect V U e b HL HI Hdb Hub Ei) as Hex1. fold e1 in Hex1.
      eapply wp_mono.
      { apply (map_indirect_wp t p (with_i_entry e1 i) c1 (upd_fn V b zero_data) (upd_fn U b true) (spend ctx 2 K) e1 ctx k);
          [done|done|exact HR1|apply Hex1|simpl; lia|lia|].
        intros _. split; [done|]. unfold spend. rewrite upd_fn_eq. split; [lia|].
        eapply has_free_grown; [apply grown_upd|done]. }
      intros r t' (V' & U' & K' & c' & -> & HR' & Hex & Hgr & Hgk & Hak & Hdr & _).
      pose proof (data_nonzero _ HL Hdr) as Hr0. split; [|split; [done|lia]].
      exists V', U', K', e1, c'. split_and!; try done.
      * by eapply extends_trans.
      * by apply (grown_trans U (upd_fn U b true) U' 1 1); [apply grown_upd|].
      * unfold grants, spend in *. rewrite upd_fn_eq in Hgk. lia.
    + apply wp_ret. eapply wp_mono; [apply (map_indirect_wp t p i c V U K e ctx k); try done; [lia|]|].
      { intros E0. destruct (Hg E0) as (? & ? & Hf). split; [done|]. split; [lia|].
        eapply has_free_less; [exact Hf|lia]. }
      intros r t' (V' & U' & K' & c' & -> & HR' & Hex & Hgr & Hgk & Hak & Hdr & Hsame).
      pose proof (data_nonzero _ HL Hdr) as Hr0. split; [|split; [done|lia]].
      exists V', U', K', e, c'. unfold e at 1. rewrite with_i_entry_id. split_and!; try done.
      * eapply grown_weaken; [done|lia].
      * unfold grants in *. lia.
      * intros Hn. by destruct (Hsame Hn) as (-> & -> & ->).
Qed.

(** *** Reading *)
Lemma block_bytes V e a off m :
  addr_of V e (off / BLOCK_SIZE) = a → a ≠ 0 → bytes512 (V a) → 0 ≤ off → 0 ≤ m →
  off mod BLOCK_SIZE + m ≤ BLOCK_SIZE →
  slice (Z.to_nat (off mod BLOCK_SIZE)) (Z.to_nat m) (V a) = byte_at V e <$> seqZ off m.
Proof.
  intros Ea Ha [Hl _] Hoff Hm Hle. pose proof (Z.mod_pos_bound off BLOCK_SIZE ltac:(unfold BLOCK_SIZE; lia)) as Hmod.
  change (Z.to_nat BLOCK_SIZE) with 512%nat in Hl. change BLOCK_SIZE with 512 in *.
  apply list_eq; intros j. rewrite lookup_slice, list_lookup_fmap. case_decide as Hj.
  - rewrite lookup_seqZ_lt by lia. simpl. unfold byte_at. change BLOCK_SIZE with 512.
    pose proof (Z.div_mod off 512 ltac:(lia)) as Hdm.
    assert ((off + Z.of_nat j) / 512 = off / 512) as ->.
    { symmetry. apply (Z.div_unique _ _ _ (off mod 512 + Z.of_nat j)); lia. }
    assert ((off + Z.of_nat j) mod 512 = off mod 512 + Z.of_nat j) as ->.
    { symmetry. apply (Z.mod_unique _ _ (off / 512)); lia. }
    rewrite Ea, (proj2 (Z.eqb_neq _ _) Ha). rewrite <- list_lookup_lookup_total_lt by lia. f_equal. lia.
  - rewrite lookup_seqZ_ge by lia. done.
Qed.

Lemma chunk_spec count tot off : 0 ≤ off → tot < count →
  1 ≤ chunk count tot off ≤ count - tot ∧ off mod BLOCK_SIZE + chunk count tot off ≤ BLOCK_SIZE.
Proof.
  intros. pose proof (Z.mod_pos_bound off BLOCK_SIZE ltac:(unfold BLOCK_SIZE; lia)). unfold chunk. lia.
Qed.

Lemma div_lt_max off n : 0 ≤ off < n → n ≤ INODE_MAX_BYTES → 0 ≤ off / BLOCK_SIZE < INODE_MAX_BLOCKS.
Proof. intros. apply offset_block. lia. Qed.

Lemma mapped_at V U e off : file_inv V U e → 0 ≤ off < e_num_bytes e → addr_of V e (off / BLOCK_SIZE) ≠ 0.
Proof.
  intros HI Ho. apply (fi_mapped _ _ _ HI); [apply Z.div_pos; unfold BLOCK_SIZE; lia|].
  pose proof (Z.mul_div_le off BLOCK_SIZE ltac:(unfold BLOCK_SIZE; lia)). lia.
Qed.

Lemma read_loop_wp t p i V U K count : ∀ fuel off tot acc c,
  fs_layout sb → bc_rep c (calm V U K) → file_inv V U (i_entry i) → 0 ≤ tot ≤ count → 0 ≤ off →
  off + (count - tot) ≤ e_num_bytes (i_entry i) → (Z.to_nat (count - tot) < fuel)%nat → count < 2 ^ 32 →
  wp (read_loop fuel p off count tot acc)
     (λ r t', ∃ c', t' = upd t p i c' ∧ bc_rep c' (calm V U K) ∧
        r = acc ++ (byte_at V (i_entry i) <$> seqZ off (count - tot))) (upd t p i c).
Proof.
  induction fuel as [|fuel IH]; intros off tot acc c HL HR HI Ht Ho Hb Hf Hc; [lia|]. cbn [read_loop].
  pose proof (eo_bytes _ (fi_ok _ _ _ HI)) as Hnb. unfold word32 in Hnb. pose proof (fi_size _ _ _ HI) as Hsz.
  destruct (Z.ltb_spec tot count) as [Hlt|Hge].
  2:{ apply wp_ret. exists c. split_and!; [done|done|]. replace (count - tot) with 0 by lia. by rewrite app_nil_r. }
  destruct (chunk_spec count tot off Ho Hlt) as [Hm Hmod]. set (m := chunk count tot off) in *.
  pose proof (mapped_at V U _ off HI ltac:(lia)) as Hmap.
  apply wp_bind. eapply wp_mono.
  { apply inode_map_wp; [done|exact HR|done|eapply div_lt_max; [|exact Hsz]; lia|]. intros E. done. }
  intros [a md] t1 [(V' & U' & K' & e' & c1 & -> & HR1 & _ & _ & _ & Ha & Hsame) [Hda Ha0]].
  destruct (Hsame Hmap) as (-> & -> & -> & ->). rewrite with_i_entry_id. simpl in *.
  apply wp_bind, wp_onc. eapply wp_mono; [eapply acquire_calm; [exact HR1|by left]|]. intros b c2 HR2. cbn beta in *.
  apply wp_bind, wp_onc. eapply wp_bc_get; [exact HR2|apply lookup_insert_eq|].
  apply wp_bind, wp_onc. eapply wp_mono; [by eapply release_calm|]. intros [] c3 HR3. cbn beta in *.
  rewrite u64_small, u32_small by lia.
  eapply wp_mono; [apply IH; try done; lia|]. intros r t' (c4 & -> & HR4 & ->). exists c4. split_and!; [done|done|].
  rewrite <- app_assoc. f_equal. rewrite (block_bytes V (i_entry i)) by
    (done || lia || (eapply bc_rep_bytes in HR; [exact HR|by left])).
  rewrite <- fmap_app, <- seqZ_app by lia. do 2 f_equal. lia.
Qed.

Lemma inode_read_wp con t p i c V U K off count :
  fs_layout sb → bc_rep c (calm V U K) → file_inv V U (i_entry i) → e_type (i_entry i) ≠ INODE_DEVICE →
  0 ≤ off ≤ e_num_bytes (i_entry i) → 0 ≤ count < 2 ^ 32 →
  let n := Z.min count (e_num_bytes (i_entry i) - off) in
  wp (inode_read con p off count)
     (λ r t', ∃ c', t' = upd t p i c' ∧ bc_rep c' (calm V U K) ∧ r = (n, byte_at V (i_entry i) <$> seqZ off n))
     (upd t p i c).
Proof.
  intros HL HR HI Hty Ho Hc n. pose proof (eo_bytes _ (fi_ok _ _ _ HI)) as Hnb. unfold word32 in Hnb.
  unfold inode_read. apply wp_bind, wp_get_inode. rewrite (proj2 (Z.eqb_neq _ _) Hty).
  rewrite (u64_small (count + off)), (u64_small (_ - off)) by lia.
  replace (if _ <? _ then _ else count) with n by (destruct (Z.ltb_spec (e_num_bytes (i_entry i)) (count + off)); lia).
  rewrite u64_small by lia. cbv zeta.
  do 3 (apply wp_bind, wp_assertM; [lia|]). apply wp_bind.
  eapply wp_mono; [apply (read_loop_wp t p i V U K n); try done; lia|].
  intros r t' (c' & -> & HR' & ->). apply wp_ret. exists c'. simpl. by rewrite Z.sub_0_r.
Qed.

(** *** Writing *)
Definition owned V e (n : Z) : Prop :=
  n ≠ 0 ∧ (n = e_indirect e ∨ ∃ k, 0 ≤ k < INODE_MAX_BLOCKS ∧ addr_of V e k = n).

(** The file may have new bytes and new blocks; nothing else changed. *)
Record writes V U e V' U' e' : Prop := {
  wr_inv : file_inv V' U' e';
  wr_addr : ∀ k, 0 ≤ k < INODE_MAX_BLOCKS → addr_of V e k ≠ 0 → addr_of V' e' k = addr_of V e k;
  wr_own : ∀ n, owned V' e' n → owned V e n ∨ U n = false;
  wr_view : ∀ n, U n = true → ¬ owned V e n → V' n = V n;
  wr_other : ∀ n, ¬ data_block sb n → V' n = V n;
  wr_used : ∀ n, U n = true → U' n = true;
  wr_meta : ∃ al ind, e' = with_e_indirect ind (with_e_addrs al e)
}.

Lemma extends_writes V U e V' U' e' : fs_layout sb → file_inv V U e → extends V U e V' U' e' → writes V U e V' U' e'.
Proof.
  intros HL HI [A1 A2 AN A3 A4 A5 A6 A7 A8]. split; try done.
  - intros n [Hn [->|(k & Hk & <-)]].
    + destruct A7 as [E|[_ E]]; [left|by right]. split; [done|]. left. done.
    + destruct (AN k Hk) as [E|E]; [left|by right]. split; [done|]. right. exists k. by rewrite E.
  - intros n Hn Ho. destruct (decide (n = e_indirect e)) as [->|Hne]; [|by apply A4].
    destruct (decide (e_indirect e = 0)) as [E|E].
    + apply A5. rewrite E. intros Hd. pose proof (data_nonzero 0 HL Hd). lia.
    + exfalso. apply Ho. split; [done|by left].
Qed.

Lemma writes_trans V U e V1 U1 e1 V2 U2 e2 :
  writes V U e V1 U1 e1 → writes V1 U1 e1 V2 U2 e2 → writes V U e V2 U2 e2.
Proof.
  intros [A1 A2 A3 A4 A5 A6 A7] [B1 B2 B3 B4 B5 B6 B7]. split; try done.
  - intros k Hk Hn. rewrite B2; [by apply A2|done|by rewrite A2].
  - intros n Hn. destruct (B3 n Hn) as [H|H]; [by apply A3|]. right.
    destruct (U n) eqn:E; [|done]. apply A6 in E. congruence.
  - intros n Hn Ho. rewrite B4; [by apply A4|by apply A6|]. intros H. destruct (A3 n H); [done|congruence].
  - intros n Hn. by rewrite B5, A5.
  - auto.
  - destruct A7 as (al & ind & ->), B7 as (al' & ind' & ->). by exists al', ind'.
Qed.

Lemma writes_refl V U e : file_inv V U e → writes V U e V U e.
Proof. intros HI. split; try done; [by left|]. exists (e_addrs e), (e_indirect e). by destruct e. Qed.

Lemma div_mod_same o off : 0 ≤ o → 0 ≤ off → o / BLOCK_SIZE = off / BLOCK_SIZE →
  o - off = o mod BLOCK_SIZE - off mod BLOCK_SIZE.
Proof.
  intros _ _ E. pose proof (Z.div_mod o BLOCK_SIZE ltac:(unfold BLOCK_SIZE; lia)).
  pose proof (Z.div_mod off BLOCK_SIZE ltac:(unfold BLOCK_SIZE; lia)). rewrite E in *. lia.
Qed.

(** A piece inside one block is written. *)
Lemma write_block V U e a off (l : list Z) :
  file_inv V U e → 0 ≤ off → 0 ≤ off / BLOCK_SIZE < INODE_MAX_BLOCKS → addr_of V e (off / BLOCK_SIZE) = a → a ≠ 0 →
  bytes512 (V a) → off mod BLOCK_SIZE + Z.of_nat (length l) ≤ BLOCK_SIZE →
  let V' := upd_fn V a (splice (Z.to_nat (off mod BLOCK_SIZE)) l (V a)) in
  writes V U e V' U e ∧
  ∀ o, 0 ≤ o < INODE_MAX_BYTES →
    byte_at V' e o = if decide (off ≤ o < off + Z.of_nat (length l)) then l !!! Z.to_nat (o - off) else byte_at V e o.
Proof.
  intros HI Hoff Hk Ha Ha0 [Hlen _] Hfit V'. change (Z.to_nat BLOCK_SIZE) with 512%nat in Hlen.
  destruct (fi_addr _ _ _ HI _ Hk ltac:(by rewrite Ha)) as (Hda & Hua & Hia). rewrite Ha in Hda, Hua, Hia.
  assert (∀ k, addr_of V' e k = addr_of V e k) as Haddr.
  { intros k. unfold addr_of. destruct (k <? _); [done|]. destruct (_ =? 0); [done|]. unfold V'. by rewrite upd_fn_ne by done. }
  pose proof HI as [I1 I2 I3 I4 I5 I6].
  split.
  - split; try done.
    + split; try done; intros *; rewrite !Haddr; auto.
    + intros n [Hn [->|(k & Hk' & <-)]]; left; (split; [done|]); [by left|right; exists k; by rewrite Haddr].
    + intros n Hn Ho. unfold V'. apply upd_fn_ne. intros ->. apply Ho. split; [done|right; eauto].
    + intros n Hn. unfold V'. apply upd_fn_ne. by intros ->.
    + exists (e_addrs e), (e_indirect e). by destruct e.
  - intros o Ho. pose proof (offset_block o Ho) as Ho'. unfold byte_at. rewrite Haddr.
    pose proof (Z.mod_pos_bound off BLOCK_SIZE ltac:(unfold BLOCK_SIZE; lia)) as Hm1.
    pose proof (Z.mod_pos_bound o BLOCK_SIZE ltac:(unfold BLOCK_SIZE; lia)) as Hm2.
    change BLOCK_SIZE with 512 in *.
    destruct (decide (o / 512 = off / 512)) as [E|E].
    + pose proof (div_mod_same o off ltac:(lia) Hoff E) as Hd. change BLOCK_SIZE with 512 in Hd.
      rewrite E, Ha, (proj2 (Z.eqb_neq _ _) Ha0). unfold V'. rewrite upd_fn_eq, !list_lookup_total_alt, lookup_splice by lia.
      destruct (decide (off ≤ o < off + Z.of_nat (length l))).
      * rewrite decide_True by lia. do 2 f_equal. lia.
      * by rewrite decide_False by lia.
    + rewrite decide_False.
      2:{ intros Hr. apply E. pose proof (Z.div_mod off 512 ltac:(lia)). symmetry.
          apply (Z.div_unique _ _ _ (off mod 512 + (o - off))); lia. }
      destruct (Z.eqb_spec (addr_of V e (o / 512)) 0) as [|Hn]; [done|]. unfold V'. rewrite upd_fn_ne; [done|].
      intros Eq. apply E. by apply I4; [| |rewrite Ha|].
Qed.

(** The number of blocks a range touches. *)
Definition blocks_of (off n : Z) : Z := if n <=? 0 then 0 else (off mod BLOCK_SIZE + n + 511) / BLOCK_SIZE.

Lemma blocks_step off n count tot : 0 ≤ off → n = count - tot → tot < count →
  let m := chunk count tot off in blocks_of off n = 1 + blocks_of (off + m) (n - m) ∧ 0 ≤ blocks_of (off + m) (n - m).
Proof.
  intros Ho -> Hlt m. pose proof (Z.mod_pos_bound off BLOCK_SIZE ltac:(unfold BLOCK_SIZE; lia)) as Hmod.
  destruct (chunk_spec count tot off Ho Hlt) as [Hm1 Hm2]. fold m in Hm1, Hm2. change BLOCK_SIZE with 512 in *.
  assert (m = Z.min (count - tot) (512 - off mod 512)) as Em by done.
  unfold blocks_of. change BLOCK_SIZE with 512. rewrite (proj2 (Z.leb_gt (count - tot) 0)) by lia.
  destruct (Z.leb_spec (count - tot - m) 0).
  - split; [|lia]. rewrite Z.add_0_r. symmetry. apply (Z.div_unique _ _ _ (off mod 512 + (count - tot) - 1)); lia.
  - assert (m = 512 - off mod 512) as Em' by lia.
    assert ((off + m) mod 512 = 0) as ->.
    { symmetry. apply (Z.mod_unique _ _ (off / 512 + 1)); [lia|]. pose proof (Z.div_mod off 512 ltac:(lia)). lia. }
    split; [|apply Z.div_pos; lia].
    replace (off mod 512 + (count - tot) + 511) with (0 + (count - tot - m) + 511 + 1 * 512) by lia.
    rewrite Z.div_add by lia. lia.
Qed.

Lemma write_loop_wp t p ctx count : ∀ fuel i off tot (src : list Z) V U K c,
  fs_layout sb → bc_rep c (calm V U K) → file_inv V U (i_entry i) → 0 ≤ tot ≤ count → 0 ≤ off →
  off + (count - tot) ≤ INODE_MAX_BYTES → count < 2 ^ 32 → (Z.to_nat (count - tot) < fuel)%nat →
  Z.of_nat (length src) = count - tot → Forall (λ b, 0 ≤ b < 256) src →
  ctx ≠ NULL → 6 * blocks_of off (count - tot) ≤ K ctx → has_free U (2 * Z.to_nat (blocks_of off (count - tot))) →
  wp (write_loop fuel ctx p off count tot src)
     (λ r t', ∃ V' U' K' e' c', t' = upd t p (with_i_entry e' i) c' ∧ bc_rep c' (calm V' U' K') ∧
        r = off + (count - tot) ∧ writes V U (i_entry i) V' U' e' ∧
        (∀ o, 0 ≤ o < INODE_MAX_BYTES → byte_at V' e' o =
           if decide (off ≤ o < off + (count - tot)) then src !!! Z.to_nat (o - off) else byte_at V (i_entry i) o) ∧
        (∀ o, off ≤ o < off + (count - tot) → addr_of V' e' (o / BLOCK_SIZE) ≠ 0) ∧
        ((∀ o, off ≤ o < off + (count - tot) → addr_of V (i_entry i) (o / BLOCK_SIZE) ≠ 0) → e' = i_entry i) ∧
        grants ctx (6 * blocks_of off (count - tot)) K K') (upd t p i c).
Proof.
  induction fuel as [|fuel IH]; intros i off tot src V U K c HL HR HI Ht Ho Hb Hc32 Hf Hlen Hsrc Hc Hk Hfr; [lia|]. cbn [write_loop].
  assert (INODE_MAX_BYTES = 71680) as EM by done.
  destruct (Z.ltb_spec tot count) as [Hlt|Hge].
  2:{ apply wp_ret. exists V, U, K, (i_entry i), c. rewrite with_i_entry_id. replace (count - tot) with 0 by lia.
      split_and!; try done; [lia|by apply writes_refl| |intros; lia|unfold grants, blocks_of; simpl; lia].
      intros o _. by rewrite decide_False by lia. }
  destruct (chunk_spec count tot off Ho Hlt) as [Hm Hmod]. 
  destruct (blocks_step off (count - tot) count tot Ho eq_refl Hlt) as [Hbl Hbl0].
  set (m := chunk count tot off) in *. set (B := blocks_of (off + m) (count - tot - m)) in *.
  assert (0 ≤ off / BLOCK_SIZE < INODE_MAX_BLOCKS) as Hk' by (eapply div_lt_max; [|exact (Z.le_refl _)]; lia).
  apply wp_bind. eapply wp_mono.
  { apply inode_map_wp; [done|exact HR|done|done|]. intros _. split; [done|]. split; [lia|].
    eapply has_free_less; [exact Hfr|lia]. }
  intros [a md] t1 [(V1 & U1 & K1 & e1 & c1 & -> & HR1 & Hex & Hgr & Hgk & Ha & Hsame) [Hda Ha0]]. simpl in Ha, Hda, Ha0 |- *.
  pose proof (ex_inv _ _ _ _ _ _ Hex) as HI1. unfold grants in Hgk.
  assert (bytes512 (V1 a)) as Hb1 by (eapply bc_rep_bytes in HR1; [exact HR1|by left]).
  apply wp_bind, wp_onc. eapply wp_mono; [eapply acquire_calm; [exact HR1|by left]|]. intros b c2 HR2. cbn beta in *.
  apply wp_bind. rewrite decide_True by lia. apply wp_ret.
  apply wp_bind, wp_onc. eapply wp_bc_get; [exact HR2|apply lookup_insert_eq|].
  set (l := take (Z.to_nat m) src). assert (length l = Z.to_nat m) as Hll by (unfold l; rewrite length_take; lia).
  assert (bytes512 (splice (Z.to_nat (off mod BLOCK_SIZE)) l (V1 a))) as Hbs.
  { destruct Hb1 as [Hl1 Hr1]. pose proof (Z.mod_pos_bound off BLOCK_SIZE ltac:(unfold BLOCK_SIZE; lia)).
    split; [rewrite length_splice; [done|]|apply splice_range; [by apply Forall_take|done]].
    rewrite Hl1, Hll. unfold BLOCK_SIZE in *. lia. }
  apply (wp_bind_assoc (onc (bc_set b (splice (Z.to_nat (off mod BLOCK_SIZE)) l (V1 a))))).
  apply wp_bind. eapply wp_set_sync; [exact HR2|apply lookup_insert_eq|done|done|lia|].
  intros c3 HR3. apply wp_bind, wp_onc. eapply wp_mono; [by eapply release_calm|]. intros [] c4 HR4. cbn beta in *.
  destruct (write_block V1 U1 e1 a off l HI1 Ho Hk' Ha Ha0 Hb1 ltac:(rewrite Hll; lia)) as [Hw Hby]. rewrite Hll in Hby.
  set (V2 := upd_fn V1 a (splice (Z.to_nat (off mod BLOCK_SIZE)) l (V1 a))) in *.
  rewrite u64_small, u32_small by lia.
  eapply wp_mono.
  { apply (IH (with_i_entry e1 i) (off + m) (tot + m) (drop (Z.to_nat m) src) V2 U1 (spend ctx 1 K1) c4);
      try done; try (replace (count - (tot + m)) with (count - tot - m) by lia; fold B); try lia.
    - apply Hw.
    - rewrite length_drop. lia.
    - by apply Forall_drop.
    - unfold spend. rewrite upd_fn_eq. lia.
    - eapply has_free_grown; [exact Hgr|]. eapply has_free_less; [exact Hfr|lia]. }
  intros r t' (V3 & U3 & K3 & e3 & c5 & -> & HR5 & -> & Hw3 & Hby3 & Hm3 & Hs3 & Hg3). simpl in Hw3, Hby3, Hs3.
  replace (count - (tot + m)) with (count - tot - m) in * by lia. fold B in Hg3.
  exists V3, U3, K3, e3, c5. split_and!; try done.
  - lia.
  - eapply writes_trans; [by eapply extends_writes|]. by eapply writes_trans.
  - intros o Hr. rewrite Hby3 by done. repeat case_decide; try lia.
    + rewrite lookup_total_drop. f_equal. lia.
    + rewrite Hby by done. rewrite decide_True by lia. unfold l. rewrite lookup_total_take_lt by lia. done.
    + rewrite Hby by done. rewrite decide_False by lia. by apply (ex_byte _ _ _ _ _ _ Hex).
  - intros o Hr. destruct (decide (o < off + m)); [|apply Hm3; lia].
    assert (o / BLOCK_SIZE = off / BLOCK_SIZE) as ->.
    { pose proof (Z.div_mod off BLOCK_SIZE ltac:(unfold BLOCK_SIZE; lia)) as Hdm. symmetry.
      apply (Z.div_unique _ _ _ (off mod BLOCK_SIZE + (o - off))); [|lia].
      pose proof (Z.mod_pos_bound off BLOCK_SIZE ltac:(unfold BLOCK_SIZE; lia)). lia. }
    rewrite (wr_addr _ _ _ _ _ _ Hw3) by (try done; rewrite (wr_addr _ _ _ _ _ _ Hw); by rewrite ?Ha).
    rewrite (wr_addr _ _ _ _ _ _ Hw) by (by rewrite ?Ha). by rewrite Ha.
  - intros Hall. destruct (Hsame (Hall off ltac:(lia))) as (-> & -> & -> & ->). apply Hs3. intros o Hr.
    rewrite (wr_addr _ _ _ _ _ _ Hw); [apply Hall; lia| |apply Hall; lia]. apply offset_block. lia.
  - unfold grants, spend in *. rewrite upd_fn_eq in Hg3. lia.
Qed.

(** *** A file as a sequence of bytes *)
Definition content V e : list Z := byte_at V e <$> seqZ 0 (e_num_bytes e).
(** The entry on disk is the one in memory. *)
Definition synced V i : Prop := get_entry (V (ino_block (i_inode_no i))) (i_inode_no i) = i_entry i.

Lemma content_lookup V e j : 0 ≤ e_num_bytes e →
  content V e !! j = if decide (Z.of_nat j < e_num_bytes e) then Some (byte_at V e (Z.of_nat j)) else None.
Proof.
  intros Hn. unfold content. rewrite list_lookup_fmap. case_decide.
  - by rewrite lookup_seqZ_lt by lia.
  - by rewrite lookup_seqZ_ge by lia.
Qed.

Lemma length_content V e : length (content V e) = Z.to_nat (e_num_bytes e).
Proof. unfold content. by rewrite length_fmap, length_seqZ. Qed.

Lemma content_slice V e off n : 0 ≤ off → 0 ≤ n → off + n ≤ e_num_bytes e →
  slice (Z.to_nat off) (Z.to_nat n) (content V e) = byte_at V e <$> seqZ off n.
Proof.
  intros. apply list_eq; intros j. rewrite lookup_slice, list_lookup_fmap. case_decide.
  - rewrite content_lookup by lia. rewrite decide_True by lia. rewrite lookup_seqZ_lt by lia. simpl. do 2 f_equal. lia.
  - by rewrite lookup_seqZ_ge by lia.
Qed.

Lemma content_splice V e V' e' off (src : list Z) :
  0 ≤ off ≤ e_num_bytes e → e_num_bytes e ≤ INODE_MAX_BYTES → off + Z.of_nat (length src) ≤ INODE_MAX_BYTES →
  e_num_bytes e' = Z.max (e_num_bytes e) (off + Z.of_nat (length src)) →
  (∀ o, 0 ≤ o < INODE_MAX_BYTES → byte_at V' e' o =
     if decide (off ≤ o < off + Z.of_nat (length src)) then src !!! Z.to_nat (o - off) else byte_at V e o) →
  content V' e' = splice (Z.to_nat off) src (content V e).
Proof.
  intros Ho Hs Hle Hn Hb. apply list_eq; intros j. rewrite content_lookup by lia. rewrite Hn. unfold splice.
  destruct (decide (Z.of_nat j < off)) as [H1|H1].
  { rewrite lookup_app_l by (rewrite length_take, length_content; lia). rewrite lookup_take_lt by lia.
    rewrite content_lookup, !decide_True by lia. rewrite Hb, decide_False by lia. done. }
  rewrite lookup_app_r by (rewrite length_take, length_content; lia). rewrite length_take, length_content, Nat.min_l by lia.
  destruct (decide (Z.of_nat j < off + Z.of_nat (length src))) as [H2|H2].
  { rewrite lookup_app_l by lia. rewrite decide_True by lia. rewrite Hb, decide_True by lia.
    symmetry. replace (j - Z.to_nat off)%nat with (Z.to_nat (Z.of_nat j - off)) by lia. apply list_lookup_lookup_total_lt. lia. }
  rewrite lookup_app_r, lookup_drop by lia.
  replace (Z.to_nat off + length src + (j - Z.to_nat off - length src))%nat with j by lia.
  rewrite content_lookup by lia. repeat case_decide; try lia; [|done]. rewrite Hb, decide_False by lia. done.
Qed.

(** Views that agree on the data blocks show the same files. *)
Lemma addr_of_ext V V' U e : file_inv V U e → (∀ n, data_block sb n → V' n = V n) → ∀ k, addr_of V' e k = addr_of V e k.
Proof.
  intros HI Hv k. unfold addr_of. destruct (_ <? _); [done|]. destruct (Z.eqb_spec (e_indirect e) 0); [done|].
  rewrite Hv; [done|]. by apply (fi_ind _ _ _ HI).
Qed.

Lemma byte_at_ext V V' U e : file_inv V U e → (∀ n, data_block sb n → V' n = V n) →
  ∀ o, 0 ≤ o < INODE_MAX_BYTES → byte_at V' e o = byte_at V e o.
Proof.
  intros HI Hv o Ho. unfold byte_at. rewrite (addr_of_ext V V' U) by done.
  destruct (Z.eqb_spec (addr_of V e (o / BLOCK_SIZE)) 0); [done|]. rewrite Hv; [done|].
  apply (fi_addr _ _ _ HI); [by apply offset_block|done].
Qed.

Lemma file_inv_ext V V' U e : file_inv V U e → (∀ n, data_block sb n → V' n = V n) → file_inv V' U e.
Proof.
  intros HI Hv. pose proof HI as [I1 I2 I3 I4 I5 I6]. pose proof (addr_of_ext V V' U e HI Hv) as E.
  split; try done; intros *; rewrite !E; auto.
Qed.

Lemma file_inv_size V U e n :
  file_inv V U e → e_num_bytes e ≤ n ≤ INODE_MAX_BYTES →
  (∀ o, e_num_bytes e ≤ o < n → addr_of V e (o / BLOCK_SIZE) ≠ 0) → file_inv V U (with_e_num_bytes n e).
Proof.
  intros HI Hn Hm. pose proof HI as [I1 I2 I3 I4 I5 I6]. split; try done.
  - destruct I1. split; try done. simpl. unfold word32 in *. change INODE_MAX_BYTES with 71680 in *. lia.
  - intros k Hk Hs. simpl in Hs. change (addr_of V e k ≠ 0).
    destruct (decide (k * BLOCK_SIZE < e_num_bytes e)); [by apply I5|].
    specialize (Hm (k * BLOCK_SIZE) ltac:(lia)). by rewrite Z.div_mul in Hm by done.
  - simpl. lia.
Qed.

Lemma byte_at_size V e n o : byte_at V (with_e_num_bytes n e) o = byte_at V e o.
Proof. done. Qed.

Lemma ino_entry_other V ino ino' e :
  bytes512 (V (ino_block ino)) → entry_ok e → 0 ≤ ino → 0 ≤ ino' →
  get_entry (upd_fn V (ino_block ino) (set_entry (V (ino_block ino)) ino e) (ino_block ino')) ino' =
  if decide (ino' = ino) then e else get_entry (V (ino_block ino')) ino'.
Proof.
  intros Hb He H0 H0'. unfold upd_fn. case_decide as E.
  - rewrite E, get_set_entry by done. unfold ino_block in E.
    pose proof (Z.div_mod ino INODE_PER_BLOCK ltac:(done)). pose proof (Z.div_mod ino' INODE_PER_BLOCK ltac:(done)).
    assert (ino' / INODE_PER_BLOCK = ino / INODE_PER_BLOCK) as Ed by lia. rewrite Ed in *.
    repeat case_decide; try done; subst; try lia; done.
  - rewrite decide_False; [done|]. by intros ->.
Qed.

Definition separate V e ef : Prop := ∀ n, owned V ef n → ¬ owned V e n.

(** A file with other blocks keeps its bytes. *)
Lemma content_other V U e V1 U1 e1 : writes V U e V1 U1 e1 →
  ∀ V', (∀ n, data_block sb n → V' n = V1 n) →
  ∀ ef, file_inv V U ef → separate V e ef → content V' ef = content V ef.
Proof.
  intros Hw V' HV' ef Hef Hsep. unfold content. apply list_fmap_ext. intros j o [-> Hj]%lookup_seqZ.
  pose proof (fi_size _ _ _ Hef).
  assert (∀ k, addr_of V' ef k = addr_of V ef k) as Hak.
  { intros k. unfold addr_of. destruct (_ <? _); [done|]. destruct (Z.eqb_spec (e_indirect ef) 0) as [|Hn]; [done|].
    rewrite HV' by (by apply (fi_ind _ _ _ Hef)). rewrite (wr_view _ _ _ _ _ _ Hw); [done|by apply Hef|].
    apply Hsep. split; [done|by left]. }
  pose proof (offset_block (0 + Z.of_nat j) ltac:(lia)) as Ho'. unfold byte_at. rewrite Hak.
  destruct (Z.eqb_spec (addr_of V ef ((0 + Z.of_nat j) / BLOCK_SIZE)) 0) as [|Hn]; [done|].
  destruct (fi_addr _ _ _ Hef _ Ho' Hn) as (Hd & Hu & _). rewrite HV' by done.
  rewrite (wr_view _ _ _ _ _ _ Hw); [done|done|]. apply Hsep. split; [done|right; eauto].
Qed.

(** What a write of [src] at [off] leaves behind. *)
Record written t p i V U K ctx off (src : list Z) t' V' U' K' e' c' : Prop := {
  wn_state : t' = upd t p (with_i_entry e' i) c';
  wn_rep : bc_rep c' (calm V' U' K');
  wn_inv : file_inv V' U' e';
  wn_content : content V' e' = splice (Z.to_nat off) src (content V (i_entry i));
  wn_synced : synced V i → synced V' (with_i_entry e' i);
  wn_meta : e_type e' = e_type (i_entry i) ∧ e_num_links e' = e_num_links (i_entry i);
  wn_files : ∀ ef, file_inv V U ef → separate V (i_entry i) ef → content V' ef = content V ef;
  wn_inodes : ∀ ino, valid_ino ino → ino ≠ i_inode_no i → get_entry (V' (ino_block ino)) ino = get_entry (V (ino_block ino)) ino;
  wn_used : ∀ n, U n = true → U' n = true;
  wn_credit : K ctx - (6 * blocks_of off (Z.of_nat (length src)) + 1) ≤ K' ctx
}.

Lemma inode_block_not_data n : fs_layout sb → inode_block sb n → ¬ data_block sb n.
Proof. intros [L1 L2 L3 L4]. unfold inode_block, data_block. lia. Qed.

(** Conditions under which a write succeeds. *)
Record can_write U K ctx off (src : list Z) e : Prop := {
  cw_type : e_type e ≠ INODE_DEVICE;
  cw_off : 0 ≤ off ≤ e_num_bytes e;
  cw_max : off + Z.of_nat (length src) ≤ INODE_MAX_BYTES;
  cw_bytes : Forall (λ b, 0 ≤ b < 256) src;
  cw_ctx : ctx ≠ NULL;
  cw_credit : 6 * blocks_of off (Z.of_nat (length src)) + 1 ≤ K ctx;
  cw_free : has_free U (2 * Z.to_nat (blocks_of off (Z.of_nat (length src))))
}.

Lemma inode_write_wp con t p i c V U K ctx (src : list Z) off :
  fs_layout sb → bc_rep c (calm V U K) → file_inv V U (i_entry i) → valid_ino (i_inode_no i) → i_valid i = true →
  can_write U K ctx off src (i_entry i) →
  wp (inode_write sb con ctx p src off (Z.of_nat (length src)))
     (λ r t', r = Z.of_nat (length src) ∧ ∃ V' U' K' e' c', written t p i V U K ctx off src t' V' U' K' e' c')
     (upd t p i c).
Proof.
  intros HL HR HI Hino Hval [W1 W2 W3 W4 W5 W6 W7]. set (count := Z.of_nat (length src)) in *.
  assert (INODE_MAX_BYTES = 71680) as EM by done.
  pose proof (fi_size _ _ _ HI) as Hsz. pose proof (eo_bytes _ (fi_ok _ _ _ HI)) as Hnb. unfold word32 in Hnb.
  unfold valid_ino in Hino.
  destruct (ino_block_spec (i_inode_no i) HL ltac:(lia)) as [_ Hib].
  unfold inode_write. apply wp_bind, wp_get_inode. rewrite (proj2 (Z.eqb_neq _ _) W1). cbv zeta.
  rewrite u64_small by lia. do 3 (apply wp_bind, wp_assertM; [lia|]). apply wp_bind.
  eapply wp_mono.
  { apply (write_loop_wp t p ctx count _ i off 0 src V U K c); rewrite ?Z.sub_0_r; try done; lia. }
  intros r t1 (V1 & U1 & K1 & e1 & c1 & -> & HR1 & -> & Hw & Hby & Hmp & Hsm & Hg). rewrite Z.sub_0_r in *. unfold grants in Hg.
  apply wp_bind, wp_get_inode. simpl i_entry.
  destruct (wr_meta _ _ _ _ _ _ Hw) as (al & ind & Ee). pose proof (wr_inv _ _ _ _ _ _ Hw) as HI1.
  assert (e_num_bytes e1 = e_num_bytes (i_entry i)) as En by (by rewrite Ee).
  pose proof (content_other V U (i_entry i) V1 U1 e1 Hw) as Hfiles.
  assert (∀ ino, valid_ino ino → V1 (ino_block ino) = V (ino_block ino)) as Hsame.
  { intros ino Hn. apply (wr_other _ _ _ _ _ _ Hw), inode_block_not_data; [done|]. unfold valid_ino in Hn. apply ino_block_spec; [done|lia]. }
  assert (off + count ≤ e_num_bytes (i_entry i) →
    written t p i V U K ctx off src (upd t p (with_i_entry e1 i) c1) V1 U1 K1 e1 c1) as Hkeep.
  { intros Hle. assert (e1 = i_entry i) as E1.
    { apply Hsm. intros o Ho. apply (mapped_at V U); [done|lia]. }
    split; try done.
    - apply content_splice; fold count; try lia; done.
    - intros Hsy. unfold synced in *. simpl. rewrite E1, Hsame; [done|]. unfold valid_ino. lia.
    - by rewrite E1.
    - by apply Hfiles.
    - intros ino Hi _. by rewrite Hsame.
    - apply Hw.
    - fold count. lia. }
  apply wp_bind. rewrite En. destruct (Z.ltb_spec 0 count) as [Hc0|Hc0]; [destruct (Z.ltb_spec (e_num_bytes (i_entry i)) (off + count)) as [Hgr|Hgr]|]; simpl andb.
  - (* the file grows *)
    apply wp_bind, wp_upd_entry. rewrite u32_small by lia. simpl. set (e2 := with_e_num_bytes (off + count) e1).
    assert (file_inv V1 U1 e2) as HI2.
    { apply file_inv_size; [done|lia|]. intros o Ho. apply Hmp. lia. }
    eapply wp_mono.
    { apply (sync_write_wp t p (with_i_entry e2 i) c1 V1 U1 K1 ctx); simpl; try done; [apply HI2|lia]. }
    intros [] t2 (c2 & -> & HR2). simpl in HR2. apply wp_ret. split; [done|].
    set (V2 := upd_fn V1 _ _) in HR2.
    assert (∀ n, data_block sb n → V2 n = V1 n) as HV2.
    { intros n Hn. unfold V2. apply upd_fn_ne. intros ->. by eapply inode_block_not_data. }
    eexists V2, U1, _, e2, c2. split; [done|exact HR2|by eapply file_inv_ext|..].
    + apply content_splice; [lia|lia|done|simpl; lia|]. intros o Ho.
      rewrite (byte_at_ext V1 V2 U1) by done. unfold e2. rewrite byte_at_size. by apply Hby.
    + intros Hsy. unfold synced, V2. simpl. rewrite ino_entry_other; [by rewrite decide_True| |apply HI2|lia|lia].
      eapply bc_rep_bytes in HR1; [exact HR1|by right].
    + unfold e2. rewrite Ee. done.
    + by apply Hfiles.
    + intros ino H0 Hne. unfold V2. pose proof H0 as H0'. unfold valid_ino in H0'.
      rewrite ino_entry_other; [|eapply bc_rep_bytes in HR1; [exact HR1|by right]|apply HI2|lia|lia].
      rewrite decide_False by done. by rewrite Hsame.
    + apply Hw.
    + unfold spend. rewrite upd_fn_eq. fold count; lia.
  - apply wp_ret, wp_ret. split; [done|]. exists V1, U1, K1, e1, c1. apply Hkeep. lia.
  - apply wp_ret, wp_ret. split; [done|]. exists V1, U1, K1, e1, c1. apply Hkeep. lia.
Qed.

(** *** Directories *)
Definition dirents (l : list Z) : list DirEntry :=
  (λ k, dirent_of_bytes (slice (16 * k) 16 l)) <$> seq 0 (length l / 16).
Definition same_name (d : DirEntry) (name : list Z) : bool :=
  bool_decide (strncmp_bytes (d_name d) name (Z.to_nat FILE_NAME_MAX_LENGTH) = Some 0).
(** The first entry in use with the name: its inode number and its index. *)
Fixpoint dir_find (l : list DirEntry) (name : list Z) (k : nat) : option (Z * nat) :=
  match l with
  | [] => None
  | d :: l' => if negb (d_inode_no d =? 0) && same_name d name then Some (d_inode_no d, k) else dir_find l' name (S k)
  end.
(** The first free entry, or the end. *)
Fixpoint dir_slot (l : list DirEntry) (k : nat) : nat :=
  match l with
  | [] => k
  | d :: l' => if d_inode_no d =? 0 then k else dir_slot l' (S k)
  end.
(** A name that [strncmp] can scan: it ends within 14 bytes or has that many. *)
Definition name_ok (name : list Z) : Prop := (14 ≤ length name)%nat ∨ 0 ∈ name.

Lemma dirents_lookup (l : list Z) k :
  (k < length l / 16)%nat → dirents l !! k = Some (dirent_of_bytes (slice (16 * k) 16 l)).
Proof. intros Hk. unfold dirents. rewrite list_lookup_fmap, lookup_seq_lt by done. done. Qed.

Lemma length_dirents (l : list Z) : length (dirents l) = (length l / 16)%nat.
Proof. unfold dirents. by rewrite length_fmap, length_seq. Qed.

Lemma dirents_drop (l : list Z) k : (k < length l / 16)%nat →
  drop k (dirents l) = dirent_of_bytes (slice (16 * k) 16 l) :: drop (S k) (dirents l).
Proof. intros Hk. apply drop_S. by apply dirents_lookup. Qed.

Lemma strncmp_bytes_total n : ∀ l1 l2, (n ≤ length l1)%nat → (n ≤ length l2)%nat ∨ 0 ∈ l2 → is_Some (strncmp_bytes l1 l2 n).
Proof.
  induction n as [|n IH]; intros l1 l2 H1 H2; [by exists 0|]. cbn [strncmp_bytes].
  destruct l1 as [|c1 l1]; [simpl in H1; lia|]. destruct l2 as [|c2 l2].
  { destruct H2 as [H2|H2]; [simpl in H2; lia|]. by apply elem_of_nil in H2. }
  destruct (Z.eqb_spec c1 c2) as [->|]; simpl; [|eauto]. destruct (Z.eqb_spec c2 0) as [->|Hn]; [eauto|].
  apply IH; [simpl in H1; lia|]. destruct H2 as [H2|H2]; [left; simpl in H2; lia|]. right. set_solver.
Qed.

Definition dir_ok e : Prop := e_type e = INODE_DIRECTORY ∧ e_num_bytes e mod 16 = 0.

Lemma dir_count V e k : dir_ok e → 0 ≤ e_num_bytes e →
  16 * Z.of_nat k < e_num_bytes e ↔ (k < length (content V e) / 16)%nat.
Proof.
  intros [_ Hm] Hn. rewrite length_content. pose proof (Z.div_mod (e_num_bytes e) 16 ltac:(lia)) as Hd. rewrite Hm in Hd.
  assert (Z.of_nat (Z.to_nat (e_num_bytes e) / 16) = e_num_bytes e / 16) as E by (rewrite Nat2Z.inj_div; f_equal; lia). lia.
Qed.

Lemma read_dirent_wp con t p i c V U K k (de : list Z) :
  fs_layout sb → bc_rep c (calm V U K) → file_inv V U (i_entry i) → dir_ok (i_entry i) →
  (k < length (content V (i_entry i)) / 16)%nat → length de = 16%nat →
  wp (read_dirent con p (16 * Z.of_nat k) de)
     (λ r t', ∃ c', t' = upd t p i c' ∧ bc_rep c' (calm V U K) ∧ r = slice (16 * k) 16 (content V (i_entry i)) ∧ length r = 16%nat)
     (upd t p i c).
Proof.
  intros HL HR HI Hdir Hk Hde. pose proof (eo_bytes _ (fi_ok _ _ _ HI)) as Hnb. unfold word32 in Hnb.
  pose proof Hk as Hk'. rewrite <- dir_count in Hk' by (done || lia).
  assert (16 * Z.of_nat k + 16 ≤ e_num_bytes (i_entry i)) as Hle.
  { destruct Hdir as [_ Hm]. pose proof (Z.div_mod (e_num_bytes (i_entry i)) 16 ltac:(lia)). lia. }
  unfold read_dirent. apply wp_bind. eapply wp_mono.
  { apply inode_read_wp; [done|exact HR|done|destruct Hdir as [-> _]; done|lia|done]. }
  intros r t' (c' & -> & HR' & ->). apply wp_ret. exists c'. change sizeof_DirEntry with 16. rewrite Z.min_l by lia.
  rewrite <- content_slice by lia. unfold snd.
  replace (Z.to_nat (16 * Z.of_nat k)) with (16 * k)%nat by lia. change (Z.to_nat 16) with 16%nat.
  assert (length (slice (16 * k) 16 (content V (i_entry i))) = 16%nat) as Hl.
  { apply length_slice. rewrite length_content. lia. }
  split_and!; [done|done| |].
  - unfold splice. rewrite take_0, Hl, drop_ge by lia. by rewrite app_nil_r.
  - rewrite length_splice; [done|]. rewrite Hl. lia.
Qed.

Lemma lookup_loop_wp con t p i V U K name : ∀ fuel k c (de : list Z),
  fs_layout sb → bc_rep c (calm V U K) → file_inv V U (i_entry i) → dir_ok (i_entry i) → name_ok name →
  length de = 16%nat → (k ≤ length (content V (i_entry i)) / 16 < k + fuel)%nat →
  wp (lookup_loop con fuel p name (16 * Z.of_nat k) de)
     (λ r t', ∃ c', t' = upd t p i c' ∧ bc_rep c' (calm V U K) ∧
        r = (λ x, (x.1, 16 * Z.of_nat x.2)) <$> dir_find (drop k (dirents (content V (i_entry i)))) name k)
     (upd t p i c).
Proof.
  induction fuel as [|fuel IH]; intros k c de HL HR HI Hdir Hnm Hde Hf; cbn [lookup_loop].
  { lia. }
  pose proof (eo_bytes _ (fi_ok _ _ _ HI)) as Hnb. unfold word32 in Hnb.
  pose proof (fi_size _ _ _ HI) as Hsz. change INODE_MAX_BYTES with 71680 in Hsz.
  apply wp_bind, wp_get_inode.
  destruct (Z.ltb_spec (16 * Z.of_nat k) (e_num_bytes (i_entry i))) as [Hlt|Hge].
  2:{ apply wp_ret. exists c. split_and!; [done|done|]. rewrite drop_ge; [done|]. rewrite length_dirents.
      destruct (decide (k < length (content V (i_entry i)) / 16)%nat) as [Hk|]; [|lia]. rewrite <- dir_count in Hk by (done || lia). lia. }
  pose proof Hlt as Hk. rewrite (dir_count V) in Hk by (done || lia).
  apply wp_bind. eapply wp_mono; [eapply read_dirent_wp; [done|exact HR|done|done|exact Hk|done]|].
  intros de' t1 (c1 & -> & HR1 & -> & Hl1). rewrite dirents_drop by done. cbn [dir_find].
  set (d := dirent_of_bytes _) in *. replace (u32 (16 * Z.of_nat k + sizeof_DirEntry)) with (16 * Z.of_nat (S k))
    by (rewrite u32_small; change sizeof_DirEntry with 16; lia).
  assert ((S k ≤ length (content V (i_entry i)) / 16 < S k + fuel)%nat) as Hf' by lia.
  destruct (Z.eqb_spec (d_inode_no d) 0) as [E0|E0]; simpl negb; simpl andb; [by apply IH|].
  destruct (strncmp_bytes_total 14 (d_name d) name) as [v Ev]; [unfold d, dirent_of_bytes; cbn [d_name]; rewrite length_drop, Hl1; lia|done|].
  apply wp_bind. change (Z.to_nat FILE_NAME_MAX_LENGTH) with 14%nat. eapply wp_derefM; [exact Ev|].
  unfold same_name. change (Z.to_nat FILE_NAME_MAX_LENGTH) with 14%nat. rewrite Ev.
  destruct (Z.eqb_spec v 0) as [->|Hv].
  - rewrite bool_decide_eq_true_2 by done. apply wp_ret. by exists c1.
  - rewrite bool_decide_eq_false_2 by congruence. by apply IH.
Qed.

Lemma inode_lookup_wp con stack t p i c V U K name :
  fs_layout sb → bc_rep c (calm V U K) → file_inv V U (i_entry i) → dir_ok (i_entry i) → name_ok name → length stack = 16%nat →
  wp (inode_lookup con stack p name)
     (λ r t', ∃ c', t' = upd t p i c' ∧ bc_rep c' (calm V U K) ∧
        r = match dir_find (dirents (content V (i_entry i))) name 0 with
            | Some (ino, k) => (ino, Some (16 * Z.of_nat k)) | None => (0, None) end)
     (upd t p i c).
Proof.
  intros HL HR HI Hdir Hnm Hst. unfold inode_lookup. apply wp_bind, wp_get_inode.
  apply wp_bind, wp_assertM; [destruct Hdir as [-> _]; done|]. apply wp_bind.
  eapply wp_mono; [apply (lookup_loop_wp con t p i V U K name _ 0); try done|].
  { rewrite length_content. pose proof (Nat.Div0.div_le_upper_bound (Z.to_nat (e_num_bytes (i_entry i))) 16 (Z.to_nat (e_num_bytes (i_entry i)))). lia. }
  intros r t' (c' & -> & HR' & ->). apply wp_ret. exists c'. split_and!; [done|done|]. rewrite drop_0.
  by destruct (dir_find _ name 0) as [[ino k]|].
Qed.

Lemma slot_loop_wp con t p i V U K : ∀ fuel k c (de : list Z),
  fs_layout sb → bc_rep c (calm V U K) → file_inv V U (i_entry i) → dir_ok (i_entry i) →
  length de = 16%nat → (k ≤ length (content V (i_entry i)) / 16 < k + fuel)%nat →
  wp (slot_loop con fuel p (16 * Z.of_nat k) de)
     (λ r t', ∃ c', t' = upd t p i c' ∧ bc_rep c' (calm V U K) ∧
        r = 16 * Z.of_nat (dir_slot (drop k (dirents (content V (i_entry i)))) k))
     (upd t p i c).
Proof.
  induction fuel as [|fuel IH]; intros k c de HL HR HI Hdir Hde Hf; cbn [slot_loop]; [lia|].
  pose proof (eo_bytes _ (fi_ok _ _ _ HI)) as Hnb. unfold word32 in Hnb.
  pose proof (fi_size _ _ _ HI) as Hsz. change INODE_MAX_BYTES with 71680 in Hsz.
  apply wp_bind, wp_get_inode.
  destruct (Z.ltb_spec (16 * Z.of_nat k) (e_num_bytes (i_entry i))) as [Hlt|Hge].
  2:{ apply wp_ret. exists c. split_and!; [done|done|]. rewrite drop_ge; [done|]. rewrite length_dirents.
      destruct (decide (k < length (content V (i_entry i)) / 16)%nat) as [Hk|]; [|lia]. rewrite <- dir_count in Hk by (done || lia). lia. }
  pose proof Hlt as Hk. rewrite (dir_count V) in Hk by (done || lia).
  apply wp_bind. eapply wp_mono; [eapply read_dirent_wp; [done|exact HR|done|done|exact Hk|done]|].
  intros de' t1 (c1 & -> & HR1 & -> & Hl1). rewrite dirents_drop by done. cbn [dir_slot].
  set (d := dirent_of_bytes _) in *. replace (u32 (16 * Z.of_nat k + sizeof_DirEntry)) with (16 * Z.of_nat (S k))
    by (rewrite u32_small; change sizeof_DirEntry with 16; lia).
  destruct (Z.eqb_spec (d_inode_no d) 0) as [E0|E0]; [apply wp_ret; by exists c1|]. apply IH; try done. lia.
Qed.

Lemma dirent_round_trip d : word16 (d_inode_no d) → dirent_of_bytes (dirent_bytes d) = d.
Proof.
  intros Hw. destruct d as [n nm]. unfold dirent_of_bytes, dirent_bytes. cbn [d_inode_no d_name] in *.
  rewrite take_app_length', drop_app_length' by (by rewrite length_le_bytes). f_equal.
  apply le_val_bytes_small. unfold word16 in Hw. simpl; lia.
Qed.

Lemma dirents_splice (l : list Z) k d :
  (length l mod 16 = 0)%nat → (k ≤ length l / 16)%nat → word16 (d_inode_no d) → length (d_name d) = 14%nat →
  dirents (splice (16 * k) (dirent_bytes d) l) = splice k [d] (dirents l).
Proof.
  intros Hm Hk Hw Hn. assert (length (dirent_bytes d) = 16%nat) as Hdl.
  { unfold dirent_bytes. rewrite length_app, length_le_bytes, Hn. done. }
  pose proof (Nat.div_mod_eq (length l) 16) as Hdm.
  assert (length (splice (16 * k) (dirent_bytes d) l) / 16 = Nat.max (length l / 16) (S k))%nat as Hlen.
  { unfold splice. rewrite !length_app, length_take, length_drop, Hdl.
    symmetry. apply (Nat.div_unique _ _ _ 0); lia. }
  apply list_eq; intros j. destruct (decide (j < Nat.max (length l / 16) (S k))%nat) as [Hj|Hj].
  2:{ transitivity (None : option DirEntry); [apply lookup_ge_None_2; rewrite length_dirents; lia|].
      symmetry. apply lookup_ge_None_2. unfold splice. rewrite !length_app, length_take, length_drop, length_dirents. cbn [length]. lia. }
  rewrite dirents_lookup by lia. unfold splice at 2.
  assert (length (take k (dirents l)) = k) as Htk by (rewrite length_take, length_dirents; lia).
  destruct (decide (j < k)%nat).
  - rewrite lookup_app_l, lookup_take_lt, dirents_lookup by lia. do 2 f_equal.
    apply list_eq; intros x. rewrite !lookup_slice. case_decide; [|done]. unfold splice.
    rewrite lookup_app_l, lookup_take_lt by (rewrite ?length_take; lia). done.
  - rewrite lookup_app_r, Htk by lia. destruct (decide (j = k)) as [->|].
    + rewrite Nat.sub_diag. simpl. f_equal. unfold slice, splice.
      rewrite drop_app_length' by (rewrite length_take; lia). rewrite take_app_length' by done. by apply dirent_round_trip.
    + replace (j - k)%nat with (S (j - k - 1)) by lia. simpl. rewrite lookup_drop, dirents_lookup by lia.
      f_equal. replace (k + length [d] + (j - k - 1))%nat with j by (cbn [length]; lia). f_equal.
      apply list_eq; intros x. rewrite !lookup_slice. case_decide; [|done]. unfold splice.
      rewrite lookup_app_r, lookup_app_r, lookup_drop by (rewrite ?length_take; lia). rewrite length_take, Hdl. f_equal. lia.
Qed.

Lemma dir_slot_ge D k0 : (k0 ≤ dir_slot D k0)%nat.
Proof. revert k0. induction D as [|x D IH]; intros k0; simpl; [done|]. destruct (_ =? 0); [done|]. specialize (IH (S k0)). lia. Qed.

Lemma dir_slot_le D k0 : (dir_slot D k0 ≤ k0 + length D)%nat.
Proof. revert k0. induction D as [|x D IH]; intros k0; simpl; [lia|]. destruct (_ =? 0); [lia|]. specialize (IH (S k0)). lia. Qed.

Lemma dir_find_slot name k0 : ∀ D, dir_find D name k0 = None → ∀ d, d_inode_no d ≠ 0 → same_name d name = true →
  dir_find (splice (dir_slot D k0 - k0) [d] D) name k0 = Some (d_inode_no d, dir_slot D k0).
Proof.
  intros D. revert k0. induction D as [|x D IH]; intros k0 Hf d Hd Hs; simpl in *.
  - rewrite Nat.sub_diag. simpl. by rewrite (proj2 (Z.eqb_neq _ _) Hd), Hs.
  - destruct (Z.eqb_spec (d_inode_no x) 0) as [E|E]; simpl in *.
    + rewrite Nat.sub_diag. simpl. by rewrite (proj2 (Z.eqb_neq _ _) Hd), Hs.
    + destruct (same_name x name) eqn:Ex; [done|]. specialize (IH (S k0) Hf d Hd Hs).
      assert (S k0 ≤ dir_slot D (S k0))%nat as Hle by apply dir_slot_ge.
      replace (dir_slot D (S k0) - k0)%nat with (S (dir_slot D (S k0) - S k0)) by lia.
      unfold splice in *. cbn [take]. simpl. rewrite (proj2 (Z.eqb_neq _ _) E), Ex. exact IH.
Qed.

Lemma dir_find_other name k0 : ∀ D d, same_name d name = false →
  dir_find (splice (dir_slot D k0 - k0) [d] D) name k0 = dir_find D name k0.
Proof.
  intros D. revert k0. induction D as [|x D IH]; intros k0 d Hs; simpl in *.
  - rewrite Nat.sub_diag. simpl. by rewrite Hs, andb_false_r.
  - destruct (Z.eqb_spec (d_inode_no x) 0) as [E|E]; simpl in *.
    + rewrite Nat.sub_diag. simpl. by rewrite Hs, andb_false_r, drop_0.
    + specialize (IH (S k0) d Hs).
      assert (S k0 ≤ dir_slot D (S k0))%nat as Hle by apply dir_slot_ge.
      replace (dir_slot D (S k0) - k0)%nat with (S (dir_slot D (S k0) - S k0)) by lia.
      unfold splice in *. cbn [take]. simpl. rewrite (proj2 (Z.eqb_neq _ _) E). simpl. destruct (same_name x name); [done|]. exact IH.
Qed.

Lemma strncpy_bytes_spec n : ∀ name, (n ≤ length name)%nat ∨ 0 ∈ name → Forall (λ b, 0 ≤ b < 256) name →
  ∃ nm, strncpy_bytes name n = Some nm ∧ length nm = n ∧ Forall (λ b, 0 ≤ b < 256) nm ∧ strncmp_bytes nm name n = Some 0.
Proof.
  induction n as [|n IH]; intros name Hok Hb; [by exists []|]. cbn [strncpy_bytes].
  destruct name as [|c name].
  { destruct Hok as [H|H]; [simpl in H; lia|by apply elem_of_nil in H]. }
  destruct (Z.eqb_spec c 0) as [->|Hc].
  - exists (replicate (S n) 0). split_and!; [done|apply length_replicate|apply Forall_replicate; lia|done].
  - apply Forall_cons in Hb as [Hc' Hb]. destruct (IH name) as (nm & E & Hl & Hr & Hs); [|done|].
    { destruct Hok as [H|H]; [left; simpl in H; lia|right; set_solver]. }
    exists (c :: nm). rewrite E. split_and!; [done|by simpl; rewrite Hl|by constructor|].
    cbn [strncmp_bytes]. rewrite Z.eqb_refl, (proj2 (Z.eqb_neq _ _) Hc). done.
Qed.

Lemma blocks_of_dirent k : blocks_of (16 * Z.of_nat k) 16 = 1.
Proof.
  unfold blocks_of. change BLOCK_SIZE with 512. simpl Z.leb. cbv iota.
  assert ((16 * Z.of_nat k) mod 512 = 16 * (Z.of_nat k mod 32)) as ->.
  { replace 512 with (16 * 32) by lia. by rewrite Z.mul_mod_distr_l. }
  pose proof (Z.mod_pos_bound (Z.of_nat k) 32 ltac:(lia)). symmetry.
  apply (Z.div_unique _ _ _ (16 * (Z.of_nat k mod 32) + 15)); lia.
Qed.

Lemma dir_find_nonzero D name k0 ino k : dir_find D name k0 = Some (ino, k) → ino ≠ 0.
Proof.
  revert k0. induction D as [|x D IH]; intros k0; simpl; [done|].
  destruct (Z.eqb_spec (d_inode_no x) 0); simpl; [apply IH|]. destruct (same_name x name); [by intros [= <- _]|apply IH].
Qed.

(** Replacing one entry of a directory. *)
Lemma write_dirent_wp con t p i c V U K ctx k d :
  fs_layout sb → bc_rep c (calm V U K) → file_inv V U (i_entry i) → valid_ino (i_inode_no i) → i_valid i = true →
  dir_ok (i_entry i) → word16 (d_inode_no d) → length (d_name d) = 14%nat → Forall (λ b, 0 ≤ b < 256) (d_name d) →
  (k ≤ length (dirents (content V (i_entry i))))%nat → 16 * Z.of_nat k + 16 ≤ INODE_MAX_BYTES →
  ctx ≠ NULL → 7 ≤ K ctx → has_free U 2 →
  wp (inode_write sb con ctx p (dirent_bytes d) (16 * Z.of_nat k) sizeof_DirEntry)
     (λ r t', ∃ V' U' K' e' c', written t p i V U K ctx (16 * Z.of_nat k) (dirent_bytes d) t' V' U' K' e' c' ∧
        dir_ok e' ∧ dirents (content V' e') = splice k [d] (dirents (content V (i_entry i))))
     (upd t p i c).
Proof.
  intros HL HR HI Hino Hval Hdir Hw Hn Hbytes Hk Hmax Hc Hcr Hfr.
  assert (length (dirent_bytes d) = 16%nat) as Hdl by (unfold dirent_bytes; rewrite length_app, length_le_bytes, Hn; done).
  pose proof (eo_bytes _ (fi_ok _ _ _ HI)) as Hnb. unfold word32 in Hnb.
  rewrite length_dirents in Hk. pose proof (length_content V (i_entry i)) as Hlc.
  pose proof Hdir as [Hty Hm]. pose proof (Nat.div_mod_eq (length (content V (i_entry i))) 16) as Hdm.
  assert (length (content V (i_entry i)) mod 16 = 0)%nat as Hm0.
  { apply Nat2Z.inj. rewrite Nat2Z.inj_mod, Hlc, Z2Nat.id by lia. done. }
  replace sizeof_DirEntry with (Z.of_nat (length (dirent_bytes d))) by (by rewrite Hdl).
  eapply wp_mono.
  { apply (inode_write_wp con t p i c V U K ctx); try done. split; rewrite ?Hdl; change (Z.of_nat 16) with 16; rewrite ?blocks_of_dirent; try done.
    - by rewrite Hty.
    - lia.
    - unfold dirent_bytes. apply Forall_app. split; [apply le_bytes_range|done]. }
  intros r t' (-> & V' & U' & K' & e' & c' & Hwn). exists V', U', K', e', c'. split; [done|].
  pose proof (wn_content _ _ _ _ _ _ _ _ _ _ _ _ _ _ _ Hwn) as Hct.
  replace (Z.to_nat (16 * Z.of_nat k)) with (16 * k)%nat in Hct by lia.
  assert (length (content V' e') mod 16 = 0)%nat as Hm1.
  { rewrite Hct. unfold splice. rewrite !length_app, length_take, length_drop, Hdl.
    replace (_ + _)%nat with (Nat.max (length (content V (i_entry i)) / 16) (S k) * 16)%nat by lia. apply Nat.Div0.mod_mul. }
  split; [split|].
  - by destruct (wn_meta _ _ _ _ _ _ _ _ _ _ _ _ _ _ _ Hwn) as [-> _].
  - pose proof (eo_bytes _ (fi_ok _ _ _ (wn_inv _ _ _ _ _ _ _ _ _ _ _ _ _ _ _ Hwn))) as Hnb'. unfold word32 in Hnb'.
    rewrite length_content in Hm1. apply (f_equal Z.of_nat) in Hm1. rewrite Nat2Z.inj_mod, Z2Nat.id in Hm1 by lia. done.
  - rewrite Hct. by apply dirents_splice.
Qed.

Lemma inode_insert_wp con con' stack t p i c V U K ctx name ino :
  fs_layout sb → bc_rep c (calm V U K) → file_inv V U (i_entry i) → valid_ino (i_inode_no i) → i_valid i = true →
  dir_ok (i_entry i) → name_ok name → Forall (λ b, 0 ≤ b < 256) name → word16 ino → length stack = 16%nat →
  e_num_bytes (i_entry i) + 16 ≤ INODE_MAX_BYTES → ctx ≠ NULL → 7 ≤ K ctx → has_free U 2 →
  let D := dirents (content V (i_entry i)) in
  wp (inode_insert sb con con' stack ctx p name ino)
     (λ r t', match dir_find D name 0 with
              | Some _ => r = u64 (-1) ∧ ∃ c', t' = upd t p i c' ∧ bc_rep c' (calm V U K)
              | None => r = 16 * Z.of_nat (dir_slot D 0) ∧ ∃ d V' U' K' e' c',
                  d_inode_no d = ino ∧ same_name d name = true ∧
                  written t p i V U K ctx r (dirent_bytes d) t' V' U' K' e' c' ∧ dir_ok e' ∧
                  dirents (content V' e') = splice (dir_slot D 0) [d] D
              end)
     (upd t p i c).
Proof.
  intros HL HR HI Hino Hval Hdir Hnm Hnb Hw Hst Hmax Hc Hcr Hfr D. unfold inode_insert.
  apply wp_bind, wp_get_inode. apply wp_bind, wp_assertM; [destruct Hdir as [-> _]; done|].
  apply wp_bind. eapply wp_mono; [by apply (inode_lookup_wp con stack t p i c V U K name)|].
  intros r t1 (c1 & -> & HR1 & ->). fold D. destruct (dir_find D name 0) as [[ino' k]|] eqn:Ef.
  { assert (ino' ≠ 0) as Hn0 by (by eapply dir_find_nonzero). cbn [fst]. rewrite (proj2 (Z.eqb_neq _ _) Hn0). cbn [negb].
    apply wp_ret. split; [done|]. by exists c1. }
  cbn [fst]. rewrite Z.eqb_refl. cbn [negb]. apply wp_bind.
  eapply wp_mono; [apply (slot_loop_wp con t p i V U K _ 0); try done|].
  { rewrite length_content. pose proof (Nat.Div0.div_le_upper_bound (Z.to_nat (e_num_bytes (i_entry i))) 16 (Z.to_nat (e_num_bytes (i_entry i)))). lia. }
  intros off t2 (c2 & -> & HR2 & ->). rewrite drop_0. fold D.
  destruct (strncpy_bytes_spec 14 name Hnm Hnb) as (nm & E & Hl & Hr & Hs).
  apply wp_bind. eapply wp_derefM; [exact E|]. set (d := mkDirEntry (u16 ino) nm).
  assert (u16 ino = ino) as Hu by (apply wrap_small, Hw).
  pose proof (dir_slot_le D 0) as Hsl. simpl in Hsl. apply wp_bind.
  pose proof (eo_bytes _ (fi_ok _ _ _ HI)) as Hnb'. unfold word32 in Hnb'. pose proof Hdir as [_ Hm].
  assert (16 * Z.of_nat (length D) = e_num_bytes (i_entry i)) as HlD.
  { unfold D. rewrite length_dirents, length_content, Nat2Z.inj_div, Z2Nat.id by lia.
    pose proof (Z.div_mod (e_num_bytes (i_entry i)) 16 ltac:(lia)). lia. }
  eapply wp_mono; [apply (write_dirent_wp con' t p i c2 V U K ctx (dir_slot D 0) d); try done; [by simpl; rewrite Hu|lia]|].
  intros r t3 (V' & U' & K' & e' & c' & Hwn & Hd' & Hde). apply wp_ret. split; [done|].
  exists d, V', U', K', e', c'. split_and!; try done. unfold same_name. by rewrite bool_decide_eq_true.
Qed.

(** ** Properties *)

(** An in-memory inode [p] in a tree whose cache is at rest. *)
Record at_rest t p i V U K : Prop := {
  ar_layout : fs_layout sb;
  ar_inode : t_inodes t !! p = Some i;
  ar_rep : bc_rep (t_cache t) (calm V U K);
  ar_ino : valid_ino (i_inode_no i)
}.

Lemma at_rest_upd t p i V U K : at_rest t p i V U K → t = upd t p i (t_cache t).
Proof. intros [_ Hi _ _]. symmetry. by apply upd_id. Qed.

(** C5. [inode_write] and the file's bytes: on a loaded inode whose entry is
    synchronized, writing [src] at an offset inside or at the end of the file
    returns the number of bytes, the file's contents become the old contents with
    [src] spliced in at the offset (extending the file when needed), the on-disk
    entry is the in-memory one again, the contents of every file with other blocks
    and every other inode entry are unchanged, no allocated block is lost, and a
    following [inode_read] of that range returns [src]. A write that starts beyond
    the end of the file panics. *)
Theorem inode_write_correct con con' t p i V U K ctx (src : list Z) off :
  at_rest t p i V U K → file_inv V U (i_entry i) → i_valid i = true → synced V i →
  (can_write U K ctx off src (i_entry i) →
   ∃ t' V' U' K' e' c', inode_write sb con ctx p src off (Z.of_nat (length src)) t = Ok (Z.of_nat (length src)) t' ∧
     written t p i V U K ctx off src t' V' U' K' e' c' ∧ synced V' (with_i_entry e' i) ∧
     ∃ t'', inode_read con' p off (Z.of_nat (length src)) t' = Ok (Z.of_nat (length src), src) t'') ∧
  (e_num_bytes (i_entry i) < off → e_type (i_entry i) ≠ INODE_DEVICE → ∀ n,
   inode_write sb con ctx p src off n t = Panic "offset <= entry->num_bytes").
Proof.
  intros HA HI Hv Hs. pose proof HA as [HL Hi HR Hino]. pose proof (at_rest_upd t p i V U K HA) as Et0. split.
  - intros Hcw. pose proof (inode_write_wp con t p i (t_cache t) V U K ctx src off HL HR HI Hino Hv Hcw) as Hwp.
    rewrite <- Et0 in Hwp. apply wp_Ok in Hwp as (r & t' & E & -> & V' & U' & K' & e' & c' & Hwn).
    exists t', V', U', K', e', c'. split; [done|]. split; [done|]. pose proof Hwn as [W1 W2 W3 W4 W5 W6 W7 W8 W9 W10].
    split; [by apply W5|]. pose proof Hcw as [X1 X2 X3 X4 X5 X6 X7]. subst t'.
    pose proof (length_content V' e') as Hlc. rewrite W4 in Hlc. unfold splice in Hlc.
    rewrite !length_app, length_take, length_drop, !length_content in Hlc.
    pose proof (eo_bytes _ (fi_ok _ _ _ HI)) as Hnb. pose proof (eo_bytes _ (fi_ok _ _ _ W3)) as Hnb'. unfold word32 in *.
    assert (off + Z.of_nat (length src) ≤ e_num_bytes e') as Hle by lia.
    pose proof (inode_read_wp con' t p (with_i_entry e' i) c' V' U' K' off (Z.of_nat (length src)) HL W2 W3) as Hrd.
    cbn [i_entry with_i_entry] in Hrd. rewrite Z.min_l in Hrd by lia. change INODE_MAX_BYTES with 71680 in X3.
    destruct W6 as [Et _]. rewrite Et in Hrd. specialize (Hrd X1 ltac:(lia) ltac:(lia)).
    apply wp_Ok in Hrd as (r & t'' & E' & c'' & -> & _ & ->). eexists. rewrite E'. f_equal. f_equal.
    rewrite <- content_slice by lia. rewrite W4. unfold slice, splice.
    rewrite drop_app_length' by (rewrite length_take, length_content; lia). rewrite take_app_length'; [done|lia].
  - intros Hlt Hty n. unfold inode_write. erewrite bind_Ok; [|unfold get_inode; erewrite bind_Ok by done; by rewrite Hi].
    rewrite (proj2 (Z.eqb_neq _ _) Hty). cbv zeta. unfold mbind, M_bind, assertM.
    by rewrite (proj2 (Z.leb_gt _ _) Hlt).
Qed.

(** [inode_read] returns the bytes of the file from the offset on, as many as
    asked for or as there are, and changes neither the file nor any other
    observable state; a read that starts beyond the end of the file panics. *)
Lemma inode_read_correct con t p i V U K off count :
  at_rest t p i V U K → file_inv V U (i_entry i) → e_type (i_entry i) ≠ INODE_DEVICE → 0 ≤ count < 2 ^ 32 → 0 ≤ off →
  (off ≤ e_num_bytes (i_entry i) →
   ∃ c', inode_read con p off count t =
     Ok (Z.of_nat (length (slice (Z.to_nat off) (Z.to_nat count) (content V (i_entry i)))),
         slice (Z.to_nat off) (Z.to_nat count) (content V (i_entry i))) (upd t p i c') ∧
     bc_rep c' (calm V U K)) ∧
  (e_num_bytes (i_entry i) < off → inode_read con p off count t = Panic "offset <= entry->num_bytes").
Proof.
  intros HA HI Hty Hc Ho. pose proof HA as [HL Hi HR Hino]. pose proof (at_rest_upd t p i V U K HA) as Et0.
  pose proof (eo_bytes _ (fi_ok _ _ _ HI)) as Hnb. unfold word32 in Hnb. split.
  - intros Hle. pose proof (inode_read_wp con t p i (t_cache t) V U K off count HL HR HI Hty ltac:(lia) Hc) as Hrd.
    rewrite <- Et0 in Hrd. apply wp_Ok in Hrd as (r & t' & E & c' & -> & HR' & ->). exists c'. split; [|done].
    set (n := Z.min count (e_num_bytes (i_entry i) - off)) in *.
    assert (slice (Z.to_nat off) (Z.to_nat count) (content V (i_entry i)) = byte_at V (i_entry i) <$> seqZ off n) as Es.
    { rewrite <- content_slice by lia. unfold slice. destruct (decide (count ≤ e_num_bytes (i_entry i) - off)).
      - do 2 f_equal. lia.
      - rewrite !take_ge; [done|rewrite length_drop, length_content; lia..]. }
    rewrite E, Es. do 2 f_equal. rewrite length_fmap, length_seqZ. lia.
  - intros Hlt. unfold inode_read. erewrite bind_Ok; [|unfold get_inode; erewrite bind_Ok by done; by rewrite Hi].
    rewrite (proj2 (Z.eqb_neq _ _) Hty). cbv zeta. unfold mbind, M_bind, assertM. by rewrite (proj2 (Z.leb_gt _ _) Hlt).
Qed.

(** [inode_sync]: writing a valid inode replaces exactly its own entry on
    disk, leaving every other inode's entry and every data block; loading an
    invalid in-memory inode with the same number afterwards gives back that entry
    and marks it valid, and syncing a valid inode without [do_write] changes
    nothing. *)
Lemma inode_sync_round_trip t p i V U K ctx q j :
  at_rest t p i V U K → i_valid i = true → entry_ok (i_entry i) → ctx ≠ NULL → 1 ≤ K ctx →
  p ≠ q → t_inodes t !! q = Some j → i_inode_no j = i_inode_no i → i_valid j = false →
  ∃ c1 V1, inode_sync sb ctx p true t = Ok () (set_t_cache c1 t) ∧ bc_rep c1 (calm V1 U (spend ctx 1 K)) ∧
    (∀ n, data_block sb n → V1 n = V n) ∧
    (∀ ino, valid_ino ino → get_entry (V1 (ino_block ino)) ino =
       if decide (ino = i_inode_no i) then i_entry i else get_entry (V (ino_block ino)) ino) ∧
    ∃ c2, inode_sync sb NULL q false (set_t_cache c1 t) =
            Ok () (upd t q (with_i_entry (i_entry i) (with_i_valid true j)) c2) ∧
      bc_rep c2 (calm V1 U (spend ctx 1 K)).
Proof.
  intros HA Hv He Hc Hk Hpq Hj Hno Hjv. pose proof HA as [HL Hi HR Hino]. pose proof (at_rest_upd _ _ _ _ _ _ HA) as Et0.
  pose proof (sync_write_wp t p i (t_cache t) V U K ctx HL HR Hino Hv He Hc Hk) as Hw. cbv zeta in Hw.
  rewrite <- Et0 in Hw. apply wp_Ok in Hw as ([] & t1 & E1 & c1 & -> & HR1).
  assert (upd t p i c1 = set_t_cache c1 t) as Eu by (unfold upd, set_t_cache; by rewrite insert_id).
  set (V1 := upd_fn V _ _) in HR1. exists c1, V1. rewrite <- Eu. split; [done|]. split; [done|].
  unfold valid_ino in Hino. destruct (ino_block_spec (i_inode_no i) HL ltac:(lia)) as [_ Hib].
  assert (∀ ino, valid_ino ino → get_entry (V1 (ino_block ino)) ino =
       if decide (ino = i_inode_no i) then i_entry i else get_entry (V (ino_block ino)) ino) as Hent.
  { intros ino Hn. unfold valid_ino in Hn. apply ino_entry_other; [|done|lia|lia].
    eapply bc_rep_bytes in HR; [exact HR|by right]. }
  split. { intros n Hn. unfold V1. apply upd_fn_ne. intros ->. by eapply inode_block_not_data. }
  split; [done|].
  assert (upd t q j c1 = upd t p i c1) as Eq by (unfold upd; by rewrite !insert_id).
  pose proof (sync_read_wp t q j c1 V1 U (spend ctx 1 K) NULL false HL HR1 ltac:(by rewrite Hno) Hjv) as Hr.
  rewrite Eq in Hr. apply wp_Ok in Hr as ([] & t2 & E2 & c2 & -> & HR2).
  exists c2. rewrite E2. split; [|done]. do 3 f_equal. rewrite Hno, Hent by done. by rewrite decide_True.
Qed.

(** C20. [inode_map] gives the block that holds the given block index of the file.
    When the index is mapped nothing changes; otherwise a fresh zeroed block is
    allocated and linked (with a fresh indirect block when that is missing too). In
    both cases the addresses already in the table stay, every byte of the file
    reads as before, blocks in use by others keep their contents, and the table
    remains well-formed: distinct allocated data blocks. An index beyond the
    largest file panics. *)
Theorem inode_map_correct t p i V U K ctx k :
  at_rest t p i V U K → file_inv V U (i_entry i) → 0 ≤ k →
  (k < INODE_MAX_BLOCKS → can_grow V U K (i_entry i) ctx k →
   ∃ a md t', inode_map ctx p k t = Ok (a, md) t' ∧ map_post V U K (i_entry i) ctx k a t p i t') ∧
  (INODE_MAX_BLOCKS ≤ k → inode_map ctx p k t = Panic "offset out of bound").
Proof.
  intros HA HI Hk. pose proof HA as [HL Hi HR Hino]. pose proof (at_rest_upd _ _ _ _ _ _ HA) as Et0. split.
  - intros Hlt Hg. pose proof (inode_map_wp t p i (t_cache t) V U K ctx k HL HR HI ltac:(lia) Hg) as Hw.
    rewrite <- Et0 in Hw. apply wp_Ok in Hw as ([a md] & t' & E & Hp). eauto.
  - intros Hge. unfold inode_map. erewrite bind_Ok; [|unfold get_inode; erewrite bind_Ok by done; by rewrite Hi].
    change INODE_MAX_BLOCKS with (INODE_NUM_DIRECT + INODE_NUM_INDIRECT) in Hge.
    rewrite (proj2 (Z.ltb_ge k INODE_NUM_DIRECT)) by (change INODE_NUM_DIRECT with 12 in *; change INODE_NUM_INDIRECT with 128 in *; lia).
    cbv zeta. by rewrite (proj2 (Z.ltb_ge _ INODE_NUM_INDIRECT)) by lia.
Qed.

(** C21. Directories: [inode_lookup] returns the inode number and the offset of the
    first entry in use with the name, or 0; [inode_insert] of a name that is not there
    fills the first free entry (or appends one), returns its offset, and from then on
    looking the name up gives the inserted inode number while every other name resolves
    as before. *)
Theorem inode_insert_lookup con con' stack t p i V U K ctx name ino :
  at_rest t p i V U K → file_inv V U (i_entry i) → i_valid i = true → dir_ok (i_entry i) →
  name_ok name → Forall (λ b, 0 ≤ b < 256) name → word16 ino → ino ≠ 0 → length stack = 16%nat →
  e_num_bytes (i_entry i) + 16 ≤ INODE_MAX_BYTES → ctx ≠ NULL → 7 ≤ K ctx → has_free U 2 →
  let D := dirents (content V (i_entry i)) in
  let found := λ D nm, match dir_find D nm 0 with Some (n, k) => (n, Some (16 * Z.of_nat k)) | None => (0, None) end in
  (∃ c', inode_lookup con stack p name t = Ok (found D name) (upd t p i c') ∧ bc_rep c' (calm V U K)) ∧
  (dir_find D name 0 = None →
   ∃ off t' e' c' V' U' K', inode_insert sb con con' stack ctx p name ino t = Ok off t' ∧
      t' = upd t p (with_i_entry e' i) c' ∧ bc_rep c' (calm V' U' K') ∧ file_inv V' U' e' ∧ dir_ok e' ∧
      off = 16 * Z.of_nat (dir_slot D 0) ∧
      (∃ t'', inode_lookup con stack p name t' = Ok (ino, Some off) t'') ∧
      (∀ nm d, dirents (content V' e') !! dir_slot D 0 = Some d → same_name d nm = false →
         found (dirents (content V' e')) nm = found D nm)).
Proof.
  intros HA HI Hv Hdir Hnm Hnb Hw Hino0 Hst Hmax Hc Hcr Hfr D found.
  pose proof HA as [HL Hi HR Hino]. pose proof (at_rest_upd _ _ _ _ _ _ HA) as Et0. split.
  { pose proof (inode_lookup_wp con stack t p i (t_cache t) V U K name HL HR HI Hdir Hnm Hst) as Hlk.
    rewrite <- Et0 in Hlk. apply wp_Ok in Hlk as (r & t' & E & c' & -> & HR' & ->). eauto. }
  pose proof (inode_insert_wp con con' stack t p i (t_cache t) V U K ctx name ino HL HR HI Hino Hv Hdir Hnm Hnb Hw Hst Hmax Hc Hcr Hfr) as Hins.
  rewrite <- Et0 in Hins. cbv zeta in Hins. fold D in Hins. apply wp_Ok in Hins as (r & t' & E & Hpost).
  intros Ef. rewrite Ef in Hpost. destruct Hpost as (-> & d & V' & U' & K' & e' & c' & Hdn & Hsn & Hwn & Hd' & HD').
  pose proof Hwn as [W1 W2 W3 W4 W5 W6 W7 W8 W9 W10].
  assert (d_inode_no d ≠ 0) as Hd0 by congruence.
  pose proof (dir_find_slot name 0 D Ef d Hd0 Hsn) as Hfs. rewrite Nat.sub_0_r, <- HD' in Hfs.
  exists (16 * Z.of_nat (dir_slot D 0)), t', e', c', V', U', K'. split_and!; try done.
  - pose proof (inode_lookup_wp con stack t p (with_i_entry e' i) c' V' U' K' name HL W2 W3 Hd' Hnm Hst) as Hlk.
    rewrite <- W1 in Hlk. apply wp_Ok in Hlk as (r & t'' & E' & c'' & -> & _ & ->). simpl i_entry in E'.
    eexists. rewrite E', Hfs, Hdn. done.
  - intros nm d' Ed Hsd. unfold found. pose proof (dir_find_other nm 0 D d) as Ho. rewrite Nat.sub_0_r, <- HD' in Ho.
    rewrite Ho; [done|]. rewrite HD' in Ed. unfold splice in Ed. pose proof (dir_slot_le D 0) as Hsl.
    rewrite lookup_app_r in Ed by (rewrite length_take; lia). rewrite length_take, Nat.min_l, Nat.sub_diag in Ed by (simpl in *; lia).
    by injection Ed as ->.
Qed.

(** The comment on [insert] in inode.h says that it does not ensure unique names; the code
    does: a name that is in the directory is refused with -1 and nothing changes. *)
Lemma inode_insert_duplicate con con' stack t p i V U K ctx name ino x :
  at_rest t p i V U K → file_inv V U (i_entry i) → i_valid i = true → dir_ok (i_entry i) →
  name_ok name → Forall (λ b, 0 ≤ b < 256) name → word16 ino → length stack = 16%nat →
  e_num_bytes (i_entry i) + 16 ≤ INODE_MAX_BYTES → ctx ≠ NULL → 7 ≤ K ctx → has_free U 2 →
  dir_find (dirents (content V (i_entry i))) name 0 = Some x →
  ∃ c', inode_insert sb con con' stack ctx p name ino t = Ok (u64 (-1)) (upd t p i c') ∧ bc_rep c' (calm V U K).
Proof.
  intros HA HI Hv Hdir Hnm Hnb Hw Hst Hmax Hc Hcr Hfr Ef.
  pose proof HA as [HL Hi HR Hino]. pose proof (at_rest_upd _ _ _ _ _ _ HA) as Et0.
  pose proof (inode_insert_wp con con' stack t p i (t_cache t) V U K ctx name ino HL HR HI Hino Hv Hdir Hnm Hnb Hw Hst Hmax Hc Hcr Hfr) as Hins.
  rewrite <- Et0 in Hins. cbv zeta in Hins. apply wp_Ok in Hins as (r & t' & E & Hpost).
  rewrite Ef in Hpost. destruct Hpost as (-> & c' & -> & HR'). eauto.
Qed.
End ops.

(** ** A small file system on the logical disk *)
Definition fs_sb : SuperBlock := mkSuperBlock 1000 900 200 64 2 66 92.
Definition demo_entry (type : Z) : InodeEntry := mkInodeEntry type 0 0 1 0 (replicate 12 0) 0.
Definition demo_disk (type : Z) : LDisk :=
  mkLDisk {[66 := set_entry zero_data 5 (demo_entry type)]} ∅ ∅ ∅ {[1 := 20]}.
Definition demo_inode (type : Z) (valid : bool) : Inode :=
  mkInode (init_spinlock "Inode") {| rcount := 1 |} 5 valid (demo_entry type).
Definition demo_tree (type : Z) : ITree LDisk Z unit :=
  mkITree (init_spinlock "inode tree") [10; 20] {[10 := demo_inode type true; 20 := demo_inode type false]} 100 (demo_disk type) 0 ().
Definition demo_read : Z → Z → M (ITree LDisk Z unit) (Z * list Z) := λ _ _, panic "no console".
Definition demo_write : Z → list Z → Z → M (ITree LDisk Z unit) Z := λ _ _ _, panic "no console".
Definition demo_used : Z → bool := λ _, false.
Definition demo_view (type : Z) : Z → list Z := ld_block (demo_disk type).
Definition demo_credit (type : Z) : Z → Z := ld_credits (demo_disk type).

#[local] Instance fs_cache : BlockCache LDisk := ldisk_cache fs_sb.
#[local] Instance fs_laws : BlockCacheLaws LDisk fs_sb := ldisk_laws fs_sb.
Lemma fs_sb_layout : fs_layout fs_sb.
Proof. split; vm_compute; intuition congruence. Qed.

Lemma demo_entry_ok type : 0 ≤ type < 4 → entry_ok (demo_entry type).
Proof.
  intros. split; unfold word16, word32; simpl; try lia.
  repeat (apply Forall_cons; split; [lia|]). by apply Forall_nil.
Qed.

Lemma demo_rep type : 0 ≤ type < 4 → ld_rep (demo_disk type) (calm (demo_view type) demo_used (demo_credit type)).
Proof.
  intros Ht. split; simpl; try done.
  - intros n. unfold ld_block, demo_disk. simpl. destruct (decide (n = 66)) as [->|].
    + rewrite lookup_singleton_eq. simpl. apply set_entry_bytes; [apply zero_data_bytes|by apply demo_entry_ok].
    + rewrite lookup_singleton_ne by done. apply zero_data_bytes.
  - intros b n. rewrite lookup_empty. set_solver.
Qed.

Lemma demo_addr type V k : addr_of V (demo_entry type) k = 0 ∨ ¬ 0 ≤ k.
Proof.
  destruct (decide (0 ≤ k)) as [Hk|]; [|by right]. left. unfold addr_of. change INODE_NUM_DIRECT with 12.
  destruct (Z.ltb_spec k 12); [|done]. apply list_lookup_total_correct. apply lookup_replicate. split; [done|lia].
Qed.

Lemma demo_file_inv type : 0 ≤ type < 4 → file_inv (sb := fs_sb) (demo_view type) demo_used (demo_entry type).
Proof.
  intros Ht. assert (∀ k, 0 ≤ k → addr_of (demo_view type) (demo_entry type) k = 0) as E.
  { intros k Hk. by destruct (demo_addr type (demo_view type) k). }
  split; try done.
  - by apply demo_entry_ok.
  - intros k Hk Hn. rewrite E in Hn by lia. done.
  - intros k j Hk Hj _ Hn. rewrite E in Hn by lia. done.
  - intros k Hk Hlt. simpl in Hlt. unfold BLOCK_SIZE in Hlt. lia.
Qed.

Lemma demo_at_rest type v p : 0 ≤ type < 4 → p = (if v : bool then 10 else 20) →
  at_rest (sb := fs_sb) (demo_tree type) p (demo_inode type v) (demo_view type) demo_used (demo_credit type).
Proof.
  intros Ht ->. split; [apply fs_sb_layout| |by apply demo_rep|].
  - destruct v; done.
  - unfold valid_ino. simpl. lia.
Qed.

Lemma demo_free : has_free (sb := fs_sb) demo_used 2.
Proof.
  exists [100; 101]. split; [|split; [done|]].
  - apply NoDup_cons; split; [set_solver|]. apply NoDup_singleton.
  - intros x Hx. split; [|done]. unfold data_block, data_start. simpl. set_unfold. lia.
Qed.

Lemma demo_can_write type (src : list Z) : 0 ≤ type < 3 → (0 < length src < 100)%nat → Forall (λ b, 0 ≤ b < 256) src →
  can_write (sb := fs_sb) demo_used (demo_credit type) 1 0 src (demo_entry type).
Proof.
  intros Ht Hl Hb. assert (blocks_of 0 (Z.of_nat (length src)) = 1) as E.
  { unfold blocks_of. rewrite (proj2 (Z.leb_gt _ _)) by lia. change BLOCK_SIZE with 512. rewrite Z.mod_0_l by lia.
    symmetry. apply (Z.div_unique _ _ _ (Z.of_nat (length src) - 1)); lia. }
  split; rewrite ?E; try done.
  - simpl. unfold INODE_DEVICE. lia.
  - change INODE_MAX_BYTES with 71680. lia.
  - apply demo_free.
Qed.

Lemma inode_write_correct_witness :
  ∃ t' t'', inode_write fs_sb demo_write 1 10 [7; 8; 9] 0 3 (demo_tree 2) = Ok 3 t' ∧
    inode_read demo_read 10 0 3 t' = Ok (3, [7; 8; 9]) t''.
Proof.
  destruct (inode_write_correct (sb := fs_sb) demo_write demo_read (demo_tree 2) 10 (demo_inode 2 true) (demo_view 2) demo_used
    (demo_credit 2) 1 [7; 8; 9] 0) as [Hw _].
  - apply demo_at_rest; [lia|done].
  - apply demo_file_inv. lia.
  - reflexivity.
  - unfold synced. vm_compute. reflexivity.
  - destruct Hw as (t' & V' & U' & K' & e' & c' & E & _ & _ & t'' & E').
    + apply demo_can_write; [lia|simpl; lia|]. repeat (apply Forall_cons; split; [lia|]). apply Forall_nil. exact I.
    + exists t', t''. split; [exact E|exact E'].
Defined.

Lemma inode_read_correct_witness :
  ∃ c', inode_read demo_read 10 0 5 (demo_tree 2) = Ok (0, []) (upd (demo_tree 2) 10 (demo_inode 2 true) c').
Proof.
  destruct (inode_read_correct (sb := fs_sb) demo_read (demo_tree 2) 10 (demo_inode 2 true) (demo_view 2) demo_used
    (demo_credit 2) 0 5) as [Hr _].
  - apply demo_at_rest; [lia|done].
  - apply demo_file_inv. lia.
  - simpl. unfold INODE_DEVICE. lia.
  - lia.
  - lia.
  - destruct Hr as (c' & E & _); [simpl; lia|]. exists c'. exact E.
Defined.

Lemma inode_sync_round_trip_witness :
  ∃ c1 c2, inode_sync fs_sb 1 10 true (demo_tree 2) = Ok () (set_t_cache c1 (demo_tree 2)) ∧
    inode_sync fs_sb NULL 20 false (set_t_cache c1 (demo_tree 2)) =
      Ok () (upd (demo_tree 2) 20 (with_i_entry (demo_entry 2) (with_i_valid true (demo_inode 2 false))) c2).
Proof.
  destruct (inode_sync_round_trip (sb := fs_sb) (demo_tree 2) 10 (demo_inode 2 true) (demo_view 2) demo_used (demo_credit 2)
    1 20 (demo_inode 2 false)) as (c1 & V1 & E1 & _ & _ & _ & c2 & E2 & _).
  - apply demo_at_rest; [lia|done].
  - reflexivity.
  - apply demo_entry_ok. lia.
  - unfold NULL. lia.
  - vm_compute. discriminate.
  - lia.
  - reflexivity.
  - reflexivity.
  - reflexivity.
  - exists c1, c2. split; [exact E1|exact E2].
Defined.

Lemma inode_map_correct_witness : ∃ a md t', inode_map 1 10 20 (demo_tree 2) = Ok (a, md) t'.
Proof.
  destruct (inode_map_correct (sb := fs_sb) (demo_tree 2) 10 (demo_inode 2 true) (demo_view 2) demo_used (demo_credit 2) 1 20) as [Hm _].
  - apply demo_at_rest; [lia|done].
  - apply demo_file_inv. lia.
  - lia.
  - destruct Hm as (a & md & t' & E & _).
    + change INODE_MAX_BLOCKS with 140. lia.
    + intros _. split; [unfold NULL; lia|]. split; [vm_compute; discriminate|apply demo_free].
    + exists a, md, t'. exact E.
Defined.

(** The name "a" with its terminator. *)
Lemma inode_insert_lookup_witness :
  ∃ t' t'', inode_insert fs_sb demo_read demo_write (replicate 16 0) 1 10 [97; 0] 7 (demo_tree 1) = Ok 0 t' ∧
    inode_lookup demo_read (replicate 16 0) 10 [97; 0] t' = Ok (7, Some 0) t''.
Proof.
  destruct (inode_insert_lookup (sb := fs_sb) demo_read demo_write (replicate 16 0) (demo_tree 1) 10 (demo_inode 1 true)
    (demo_view 1) demo_used (demo_credit 1) 1 [97; 0] 7) as (_ & Hins).
  - apply demo_at_rest; [lia|done].
  - apply demo_file_inv. lia.
  - reflexivity.
  - split; reflexivity.
  - right. set_solver.
  - repeat (apply Forall_cons; split; [lia|]). apply Forall_nil. exact I.
  - unfold word16. lia.
  - lia.
  - reflexivity.
  - simpl. change INODE_MAX_BYTES with 71680. lia.
  - unfold NULL. lia.
  - vm_compute. discriminate.
  - apply demo_free.
  - destruct (Hins eq_refl) as (off & t' & e' & c' & V' & U' & K' & E & _ & _ & _ & _ & Eo & (t'' & E') & _).
    simpl in Eo. subst off. exists t', t''. split; [exact E|exact E'].
Defined.
