(* ===== verification/Console.v ===== *)
(** * Console input and output (core/console.c)

    The input buffer is a ring of 128 cells with three free-running 64-bit
    indices; [Console] also has the lock, the characters given to
    [uart_put_char] and the wake-ups of readers. *)
From S2P Require Import Prelude Locks Cache Inode.

Definition INPUT_BUF : Z := 128.
Definition BACKSPACE : Z := 0x100.
Definition Ctrl (x : Z) : Z := x - 64.   (* [C(x)], with '@' = 64 *)
Definition ctrl_D : Z := Ctrl 68.
Definition ctrl_H : Z := Ctrl 72.
Definition ctrl_P : Z := Ctrl 80.
Definition ctrl_U : Z := Ctrl 85.
Definition newline : Z := 10.
Definition carriage_return : Z := 13.
Definition DEL : Z := 127.

Record Input := mkInput { in_buf : list Z; in_r : Z; in_w : Z; in_e : Z }.
Record Console := mkConsole {
  con_lock : SpinLock;
  con_input : Input;
  con_out : list Z;
  con_wakeups : Z   (* how often [wakeup(&input.r)] was called *)
}.

(** [static int panicked = -1], which nothing assigns. *)
Definition panicked : Z := -1.

Definition set_input x (s : Console) : Console := mkConsole (con_lock s) x (con_out s) (con_wakeups s).
Definition set_con_lock x (s : Console) : Console := mkConsole x (con_input s) (con_out s) (con_wakeups s).
Definition upd_input (f : Input → Input) : M Console unit := modify (λ s, set_input (f (con_input s)) s).
Definition on_conslock (m : M SpinLock unit) : M Console unit := zoom con_lock set_con_lock m.
Definition uart_put_char (c : Z) : M Console unit :=
  modify (λ s, mkConsole (con_lock s) (con_input s) (con_out s ++ [u8 c]) (con_wakeups s)).
Definition wakeup_readers : M Console unit :=
  modify (λ s, mkConsole (con_lock s) (con_input s) (con_out s) (con_wakeups s + 1)).

Definition consputc (c : Z) : M Console unit :=
  if c =? BACKSPACE then uart_put_char 8;; uart_put_char 32;; uart_put_char 8
  else uart_put_char c.

Definition with_r x (i : Input) : Input := mkInput (in_buf i) x (in_w i) (in_e i).
Definition with_w x (i : Input) : Input := mkInput (in_buf i) (in_r i) x (in_e i).
Definition with_e x (i : Input) : Input := mkInput (in_buf i) (in_r i) (in_w i) x.
Definition with_cell k c (i : Input) : Input := mkInput (<[Z.to_nat k := c]> (in_buf i)) (in_r i) (in_w i) (in_e i).
Definition cell (k : Z) : M Console Z := i ← gets con_input; derefM (in_buf i !! Z.to_nat k).

(** The loop of ^U. It removes at most the bytes of the ring, so [INPUT_BUF + 1]
    is enough fuel. *)
Fixpoint kill_line (fuel : nat) : M Console unit :=
  match fuel with
  | O => nofuel
  | S fuel' =>
      i ← gets con_input;
      if negb (in_e i =? in_w i) then
        c ← cell (u64 (in_e i - 1) mod INPUT_BUF);
        if negb (c =? newline) then
          upd_input (with_e (u64 (in_e i - 1)));;
          consputc BACKSPACE;;
          kill_line fuel'
        else mret ()
      else mret ()
  end.

(** One iteration of the loop of [console_intr], for the character [c]. *)
Definition intr_char (c : Z) : M Console unit :=
  i ← gets con_input;
  if c =? ctrl_P then mret ()
  else if c =? ctrl_U then kill_line (Z.to_nat (INPUT_BUF + 1))
  else if (c =? ctrl_H) || (c =? DEL) then
    if negb (in_e i =? in_w i) then upd_input (with_e (u64 (in_e i - 1)));; consputc BACKSPACE
    else mret ()
  else if negb (c =? 0) && (u64 (in_e i - in_r i) <? INPUT_BUF) then
    let c := if c =? carriage_return then newline else c in
    upd_input (with_cell (in_e i mod INPUT_BUF) c);;
    upd_input (with_e (u64 (in_e i + 1)));;
    consputc c;;
    if (c =? newline) || (c =? ctrl_D) || (u64 (in_e i + 1) =? u64 (in_r i + INPUT_BUF)) then
      upd_input (with_w (u64 (in_e i + 1)));;
      wakeup_readers
    else mret ()
  else mret ().

(** The characters [getc] gives before it answers 0xff. *)
Fixpoint intr_loop (cs : list Z) : M Console unit :=
  match cs with
  | [] => mret ()
  | c :: cs' => intr_char c;; intr_loop cs'
  end.

Definition console_intr (me : Z) (cs : list Z) : M Console unit :=
  on_conslock (acquire_spinlock me);;
  if 0 <=? panicked then on_conslock release_spinlock;; nofuel   (* [while (1);] *)
  else
    intr_loop cs;;
    on_conslock release_spinlock.

(** The loop of [console_read] for [n] more bytes; [first] says that none was
    read yet ([n < target] is false). [None]: the process was killed. [Blocked]: the
    reader sleeps, with the lock released. *)
Fixpoint read_chars (killed : bool) (n : nat) (first : bool) (acc : list Z) : M Console (option (list Z)) :=
  match n with
  | O => mret (Some acc)
  | S n' =>
      i ← gets con_input;
      if in_r i =? in_w i then
        if killed then on_conslock release_spinlock;; mret None
        else on_conslock release_spinlock;; blocked
      else
        c ← cell (in_r i mod INPUT_BUF);
        upd_input (with_r (u64 (in_r i + 1)));;
        if c =? ctrl_D then
          (if negb first then upd_input (with_r (in_r i)) else mret ());;
          mret (Some acc)
        else if c =? newline then mret (Some (acc ++ [c]))
        else read_chars killed n' false (acc ++ [c])
  end.

Fixpoint put_chars (l : list Z) : M Console unit :=
  match l with
  | [] => mret ()
  | c :: l' => consputc (Z.land c 0xff);; put_chars l'
  end.

Section inode.
Context {C A : Type} (me : Z).
Abbreviation T := (ITree C A Console).
Definition set_t_console x (t : T) : T :=
  mkITree (t_lock t) (t_head t) (t_inodes t) (t_arena t) (t_cache t) (t_root t) x.
Definition oncon {X} (m : M Console X) : M T X := zoom t_console set_t_console m.

(** [n] is an [isize]; a buffer of fewer bytes would be read past its end. *)
Definition console_write (ip : Z) (buf : list Z) (n : Z) : M T Z :=
  inode_unlock ip;;
  oncon (on_conslock (acquire_spinlock me));;
  (if decide (Z.to_nat (i64 n) ≤ length buf)%nat then mret () else undef);;
  oncon (put_chars (take (Z.to_nat (i64 n)) buf));;
  oncon (on_conslock release_spinlock);;
  inode_lock me ip;;
  mret n.

(** [killed] is [thiscpu()->proc->killed]. *)
Definition console_read (killed : bool) (ip n : Z) : M T (Z * list Z) :=
  inode_unlock ip;;
  oncon (on_conslock (acquire_spinlock me));;
  r ← oncon (read_chars killed (Z.to_nat (i64 n)) true []);
  match r with
  | None => inode_lock me ip;; mret (u64 (-1), [])
  | Some l =>
      oncon (on_conslock release_spinlock);;
      inode_lock me ip;;
      mret (Z.of_nat (length l), l)
  end.
End inode.

(** ** What the ring holds

    [ready]: the bytes readers can take; [line]: the bytes still being edited. *)
Record ring (i : Input) (ready line : list Z) : Prop := {
  rg_len : length (in_buf i) = 128%nat;
  rg_r : 0 ≤ in_r i < 2 ^ 64;
  rg_w : in_w i = u64 (in_r i + Z.of_nat (length ready));
  rg_e : in_e i = u64 (in_r i + Z.of_nat (length (ready ++ line)));
  rg_fit : (length (ready ++ line) ≤ 128)%nat;
  rg_cells : ∀ k x, (ready ++ line) !! k = Some x → in_buf i !! Z.to_nat ((in_r i + Z.of_nat k) mod INPUT_BUF) = Some x;
  rg_line : newline ∉ line
}.

(** The same, as a queue of bytes and a line editor. *)
Definition edit_char (c : Z) (ready line : list Z) : list Z * list Z :=
  if c =? ctrl_P then (ready, line)
  else if c =? ctrl_U then (ready, [])
  else if (c =? ctrl_H) || (c =? DEL) then (ready, take (length line - 1) line)
  else if negb (c =? 0) && bool_decide (length (ready ++ line) < 128)%nat then
    let c := if c =? carriage_return then newline else c in
    if (c =? newline) || (c =? ctrl_D) || bool_decide (length (ready ++ line) = 127)%nat
    then (ready ++ line ++ [c], []) else (ready, line ++ [c])
  else (ready, line).
Fixpoint edit_chars (cs : list Z) (ready line : list Z) : list Z * list Z :=
  match cs with
  | [] => (ready, line)
  | c :: cs' => let '(r, l) := edit_char c ready line in edit_chars cs' r l
  end.

(** What a read of up to [n] bytes takes from the queue: the bytes returned and
    the queue left; [None] when the queue runs dry first. *)
Fixpoint take_line (n : nat) (first : bool) (q : list Z) : option (list Z * list Z) :=
  match n, q with
  | O, _ => Some ([], q)
  | S _, [] => None
  | S n', c :: q' =>
      if c =? ctrl_D then Some ([], if first then q' else q)
      else if c =? newline then Some ([c], q')
      else match take_line n' false q' with Some (l, q2) => Some (c :: l, q2) | None => None end
  end.

Lemma u64_mod128 x : u64 x mod INPUT_BUF = x mod INPUT_BUF.
Proof.
  unfold u64, wrap, INPUT_BUF. symmetry. apply Znumtheory.Zmod_div_mod; [lia|lia|]. exists (2 ^ 57). lia.
Qed.

Lemma u64_sub_add a n : 0 ≤ a < 2 ^ 64 → 0 ≤ n < 2 ^ 64 → u64 (u64 (a + n) - a) = n.
Proof. intros. rewrite u64_sub_l. replace (a + n - a) with n by lia. by apply u64_small. Qed.

Lemma u64_eqb a n m : 0 ≤ n < 2 ^ 64 → 0 ≤ m < 2 ^ 64 → (u64 (a + n) =? u64 (a + m)) = (n =? m).
Proof.
  intros Hn Hm. destruct (Z.eqb_spec n m) as [->|Hne]; [apply Z.eqb_refl|]. apply Z.eqb_neq. intros E. apply Hne.
  apply (f_equal (λ x, u64 (x - a))) in E. rewrite !u64_sub_l in E.
  replace (a + n - a) with n in E by lia. replace (a + m - a) with m in E by lia. by rewrite !u64_small in E by lia.
Qed.

Lemma mod128_inj r (j k : nat) : (j < 128)%nat → (k < 128)%nat → (r + Z.of_nat j) mod INPUT_BUF = (r + Z.of_nat k) mod INPUT_BUF → j = k.
Proof.
  intros Hj Hk E. unfold INPUT_BUF in E.
  pose proof (Z.div_mod (r + Z.of_nat j) 128 ltac:(lia)). pose proof (Z.div_mod (r + Z.of_nat k) 128 ltac:(lia)). lia.
Qed.

Section ring.
Implicit Types (i : Input) (s : Console) (ready line : list Z).

Lemma ring_index i k : length (in_buf i) = 128%nat → (Z.to_nat (k mod INPUT_BUF) < length (in_buf i))%nat.
Proof. intros ->. pose proof (Z.mod_pos_bound k INPUT_BUF ltac:(done)). unfold INPUT_BUF in *. lia. Qed.

Lemma cell_Ok s k c : in_buf (con_input s) !! Z.to_nat k = Some c → cell k s = Ok c s.
Proof. intros E. unfold cell. erewrite bind_Ok by done. by rewrite E. Qed.

(** A byte enters the ring. *)
Lemma ring_push i ready line c :
  ring i ready line → (length (ready ++ line) < 128)%nat → c ≠ newline →
  ring (with_e (u64 (in_e i + 1)) (with_cell (in_e i mod INPUT_BUF) c i)) ready (line ++ [c]).
Proof.
  intros [R1 R2 R3 R4 R5 R6 R7] Hl Hc. split; simpl; try done.
  - by rewrite length_insert.
  - rewrite R4, u64_add_l. f_equal. rewrite !length_app. simpl. lia.
  - rewrite app_assoc, length_app. simpl. lia.
  - intros k x Hx. rewrite app_assoc in Hx. rewrite R4, u64_mod128. apply lookup_app_Some in Hx as [Hx|[Hk Hx]].
    + rewrite list_lookup_insert_ne; [by apply R6|]. intros E%Z2Nat.inj; try (apply Z.mod_pos_bound; done).
      apply mod128_inj in E; [|lia|apply lookup_lt_Some in Hx; lia]. apply lookup_lt_Some in Hx. lia.
    + apply list_lookup_singleton_Some in Hx as [Hk' <-]. replace k with (length (ready ++ line)) by lia.
      apply list_lookup_insert_eq. by apply ring_index.
  - set_solver.
Qed.

Lemma ring_commit i ready line c :
  ring i ready line → (length (ready ++ line) < 128)%nat →
  ring (with_w (u64 (in_e i + 1)) (with_e (u64 (in_e i + 1)) (with_cell (in_e i mod INPUT_BUF) c i))) (ready ++ line ++ [c]) [].
Proof.
  intros [R1 R2 R3 R4 R5 R6 R7] Hl.
  assert (u64 (in_e i + 1) = u64 (in_r i + Z.of_nat (length (ready ++ line ++ [c])))) as Ee.
  { rewrite R4, u64_add_l. f_equal. rewrite !length_app. simpl. lia. }
  split; simpl; rewrite ?app_nil_r; try done.
  - by rewrite length_insert.
  - rewrite app_assoc, length_app. simpl. lia.
  - intros k x Hx. rewrite app_assoc in Hx. rewrite R4, u64_mod128. apply lookup_app_Some in Hx as [Hx|[Hk Hx]].
    + rewrite list_lookup_insert_ne; [by apply R6|]. intros E%Z2Nat.inj; try (apply Z.mod_pos_bound; done).
      apply mod128_inj in E; [|lia|apply lookup_lt_Some in Hx; lia]. apply lookup_lt_Some in Hx. lia.
    + apply list_lookup_singleton_Some in Hx as [Hk' <-]. replace k with (length (ready ++ line)) by lia.
      apply list_lookup_insert_eq. by apply ring_index.
  - set_solver.
Qed.

(** The last byte of the line leaves it. *)
Lemma ring_pop i ready line x :
  ring i ready (line ++ [x]) → ring (with_e (u64 (in_e i - 1)) i) ready line.
Proof.
  intros [R1 R2 R3 R4 R5 R6 R7]. rewrite app_assoc in *. split; simpl; try done.
  - rewrite R4, u64_sub_l. f_equal. rewrite (length_app (ready ++ line)). simpl. lia.
  - rewrite (length_app (ready ++ line)) in R5. lia.
  - intros k y Hy. apply R6. by apply lookup_app_l_Some.
  - set_solver.
Qed.

Lemma ring_last i ready line x :
  ring i ready (line ++ [x]) → in_buf i !! Z.to_nat (u64 (in_e i - 1) mod INPUT_BUF) = Some x ∧ (in_e i =? in_w i) = false.
Proof.
  intros [R1 R2 R3 R4 R5 R6 R7]. rewrite app_assoc in *. split.
  - rewrite R4, u64_sub_l, u64_mod128. rewrite length_app. cbn [length].
    replace (_ - 1) with (in_r i + Z.of_nat (length (ready ++ line))) by lia. apply R6.
    by rewrite lookup_app_r, Nat.sub_diag.
  - rewrite R3, R4, u64_eqb; [|rewrite !length_app in *; simpl in *; lia..]. apply Z.eqb_neq. rewrite !length_app. simpl. lia.
Qed.

Lemma ring_empty_line i ready : ring i ready [] → in_e i = in_w i.
Proof. intros [R1 R2 R3 R4 R5 R6 R7]. by rewrite R3, R4, app_nil_r. Qed.

Lemma ring_full i ready line : ring i ready line → u64 (in_e i - in_r i) = Z.of_nat (length (ready ++ line)).
Proof. intros [R1 R2 R3 R4 R5 R6 R7]. rewrite R4. apply u64_sub_add; lia. Qed.
End ring.

Section steps.
Implicit Types (s : Console) (ready line : list Z).

(** What an interrupt step may leave: the lock is untouched, and readers were
    woken if bytes became ready. *)
Record stepped s s' ready ready' line' : Prop := {
  sd_ring : ring (con_input s') ready' line';
  sd_lock : con_lock s' = con_lock s;
  sd_wakeups : con_wakeups s ≤ con_wakeups s';
  sd_woken : ready' ≠ ready → con_wakeups s < con_wakeups s'
}.

Lemma putc_wp c s (Q : unit → Console → Prop) :
  (∀ out, Q () (mkConsole (con_lock s) (con_input s) out (con_wakeups s))) → wp (consputc c) Q s.
Proof. intros HQ. unfold consputc. destruct (c =? BACKSPACE); unfold wp; simpl; apply HQ. Qed.

Lemma kill_line_wp ready : ∀ line fuel s,
  ring (con_input s) ready line → (length line < fuel)%nat →
  wp (kill_line fuel) (λ _ s', ring (con_input s') ready [] ∧ con_lock s' = con_lock s ∧ con_wakeups s' = con_wakeups s) s.
Proof.
  intros line. induction line as [|x line IH] using rev_ind; intros [|fuel] s HR Hf; cbn [kill_line];
    try (rewrite ?length_app in Hf; simpl in Hf; lia).
  - apply wp_bind. unfold wp at 1, gets. rewrite (ring_empty_line _ _ HR), Z.eqb_refl. by apply wp_ret.
  - destruct (ring_last _ _ _ _ HR) as [Ec Ee]. rewrite length_app in Hf. simpl in Hf.
    apply wp_bind. unfold wp at 1, gets. rewrite Ee. cbn [negb]. apply wp_bind.
    eapply wp_of_Ok; [by apply cell_Ok|]. assert (x ≠ newline) as Hx.
    { intros ->. apply (rg_line _ _ _ HR). set_solver. }
    rewrite (proj2 (Z.eqb_neq _ _) Hx). cbn [negb]. apply wp_bind. unfold wp at 1, upd_input, modify.
    apply wp_bind, putc_wp. intros out. eapply wp_mono; [apply IH; [by eapply ring_pop|lia]|]. done.
Qed.

Lemma intr_char_wp c s ready line :
  ring (con_input s) ready line →
  wp (intr_char c) (λ _ s', stepped s s' ready (edit_char c ready line).1 (edit_char c ready line).2) s.
Proof.
  intros HR. unfold intr_char, edit_char. apply wp_bind. unfold wp at 1, gets.
  destruct (c =? ctrl_P); [by apply wp_ret|].
  destruct (c =? ctrl_U).
  { eapply wp_mono; [apply (kill_line_wp ready line); [done|]|].
    - pose proof (rg_fit _ _ _ HR) as Hfit. rewrite length_app in Hfit. change (Z.to_nat (INPUT_BUF + 1)) with 129%nat. lia.
    - intros [] s' (HR' & Hl & Hw). split; [done|done|lia|done]. }
  destruct ((c =? ctrl_H) || (c =? DEL)).
  { destruct line as [|x line _] using rev_ind.
    - rewrite (ring_empty_line _ _ HR), Z.eqb_refl. by apply wp_ret.
    - destruct (ring_last _ _ _ _ HR) as [Ec Ee]. rewrite Ee. cbn [negb]. apply wp_bind. unfold wp at 1, upd_input, modify.
      apply putc_wp. intros out. rewrite length_app. cbn [length].
      replace (length line + 1 - 1)%nat with (length line) by lia. rewrite take_app_length.
      split; simpl; [by eapply ring_pop|done|lia|done]. }
  rewrite (ring_full _ _ _ HR).
  replace (Z.of_nat (length (ready ++ line)) <? INPUT_BUF) with (bool_decide (length (ready ++ line) < 128)%nat).
  2:{ unfold INPUT_BUF. case_bool_decide; [symmetry; apply Z.ltb_lt; lia|symmetry; apply Z.ltb_ge; lia]. }
  destruct (negb (c =? 0)); cbn [andb]; [|by apply wp_ret]. case_bool_decide as Hl; [|by apply wp_ret].
  set (c' := if c =? carriage_return then newline else c). cbv zeta.
  apply wp_bind. unfold wp at 1, upd_input, modify. apply wp_bind. unfold wp at 1. apply wp_bind, putc_wp. intros out.
  assert (u64 (in_e (con_input s) + 1) =? u64 (in_r (con_input s) + INPUT_BUF) = bool_decide (length (ready ++ line) = 127)%nat) as ->.
  { rewrite (rg_e _ _ _ HR), u64_add_l, <- Z.add_assoc, u64_eqb by (unfold INPUT_BUF; lia). unfold INPUT_BUF.
    case_bool_decide; [apply Z.eqb_eq; lia|apply Z.eqb_neq; lia]. }
  destruct ((c' =? newline) || (c' =? ctrl_D) || bool_decide (length (ready ++ line) = 127)%nat) eqn:Eb.
  - apply wp_bind. unfold wp. simpl. split; simpl; [by apply ring_commit|done|lia|intros _; lia].
  - apply wp_ret. split; simpl; [|done|lia|done]. apply ring_push; [done|done|].
    apply orb_false_iff in Eb as [Eb _]. apply orb_false_iff in Eb as [Eb _]. by apply Z.eqb_neq.
Qed.

Lemma intr_loop_wp : ∀ cs s ready line,
  ring (con_input s) ready line →
  wp (intr_loop cs) (λ _ s', stepped s s' ready (edit_chars cs ready line).1 (edit_chars cs ready line).2) s.
Proof.
  induction cs as [|c cs IH]; intros s ready line HR; cbn [intr_loop edit_chars]; [by apply wp_ret|].
  apply wp_bind. eapply wp_mono; [by apply (intr_char_wp c s ready line)|]. intros [] s1 [S1 S2 S3 S4].
  destruct (edit_char c ready line) as [r l]. simpl in *. eapply wp_mono; [by apply IH|].
  intros [] s2 [T1 T2 T3 T4]. split; [done|congruence|lia|]. intros Hne.
  destruct (decide (r = ready)) as [->|Hr]; [specialize (T4 Hne); lia|specialize (S4 Hr); lia].
Qed.

Lemma edit_char_prefix c ready line : ready `prefix_of` (edit_char c ready line).1.
Proof.
  unfold edit_char. repeat case_match; simpl; first [done|by apply prefix_app_r].
Qed.

Lemma console_intr_Ok me cs s ready line :
  locked (con_lock s) = false → ring (con_input s) ready line →
  ∃ s', console_intr me cs s = Ok () s' ∧ locked (con_lock s') = false ∧
    stepped (set_con_lock (con_lock s') s) s' ready (edit_chars cs ready line).1 (edit_chars cs ready line).2.
Proof.
  intros Hl HR. set (s1 := set_con_lock {| locked := true; lcpu := Some me; lname := lname (con_lock s) |} s).
  pose proof (intr_loop_wp cs s1 ready line HR) as Hw. apply wp_Ok in Hw as ([] & s2 & E2 & [S1 S2 S3 S4]).
  exists (set_con_lock (init_spinlock (lname (con_lock s2))) s2). split; [|done].
  unfold console_intr. erewrite bind_Ok; [|apply zoom_Ok; by apply acquire_spinlock_free]. simpl.
  erewrite bind_Ok by exact E2. apply zoom_Ok. apply release_spinlock_held. by rewrite S2.
Qed.

(** C24. [console_intr] is a line editor over a bounded queue: whatever the
    characters, the ring afterwards holds the queue and the line the editor gives
    (control characters edit the line, a newline, ^D or a full ring commits it),
    never more than 128 bytes, nothing ready is lost, readers are woken whenever
    bytes become ready, and the lock is free again. *)
Theorem console_intr_correct me cs s ready line :
  locked (con_lock s) = false → ring (con_input s) ready line →
  ∃ s', console_intr me cs s = Ok () s' ∧
    ring (con_input s') (edit_chars cs ready line).1 (edit_chars cs ready line).2 ∧
    (length (edit_chars cs ready line).1 + length (edit_chars cs ready line).2 ≤ 128)%nat ∧
    ready `prefix_of` (edit_chars cs ready line).1 ∧
    ((edit_chars cs ready line).1 ≠ ready → con_wakeups s < con_wakeups s') ∧
    locked (con_lock s') = false.
Proof.
  intros Hl HR. destruct (console_intr_Ok me cs s ready line Hl HR) as (s2 & E & Hf & [S1 S2 S3 S4]).
  exists s2. split; [done|]. split; [done|]. split; [rewrite <- length_app; apply S1|]. split; [|done].
  clear. revert ready line. induction cs as [|c cs IH]; intros ready line; simpl; [done|].
  pose proof (edit_char_prefix c ready line) as Hp. destruct (edit_char c ready line) as [r l]. simpl in Hp.
  etrans; [exact Hp|apply IH].
Qed.

Lemma ring_pop_front i x ready line :
  ring i (x :: ready) line →
  in_buf i !! Z.to_nat (in_r i mod INPUT_BUF) = Some x ∧ (in_r i =? in_w i) = false ∧
  ring (with_r (u64 (in_r i + 1)) i) ready line.
Proof.
  intros [R1 R2 R3 R4 R5 R6 R7]. split_and!.
  - specialize (R6 0%nat x eq_refl). by rewrite Z.add_0_r in R6.
  - rewrite R3. rewrite <- (u64_small (in_r i)) at 1 by done. rewrite <- (Z.add_0_r (in_r i)) at 1.
    rewrite u64_eqb; [apply Z.eqb_neq; simpl; lia|lia|]. simpl in R5. rewrite length_app in R5. simpl. lia.
  - split; simpl; try done.
    + apply u64_range.
    + rewrite R3, u64_add_l. f_equal. simpl. lia.
    + rewrite R4, u64_add_l. f_equal. simpl. lia.
    + simpl in R5. lia.
    + intros k y Hy. specialize (R6 (S k) y Hy).
      rewrite <- u64_mod128, u64_add_l, u64_mod128. by replace (in_r i + 1 + Z.of_nat k) with (in_r i + Z.of_nat (S k)) by lia.
Qed.

(** The reader takes what [take_line] says, or waits (or gives up when killed)
    with the ring drained. *)
Lemma read_chars_spec killed : ∀ n first acc s ready line,
  locked (con_lock s) = true → ring (con_input s) ready line →
  match take_line n first ready with
  | Some (l, q) => ∃ s', read_chars killed n first acc s = Ok (Some (acc ++ l)) s' ∧ con_lock s' = con_lock s ∧
      con_out s' = con_out s ∧ ring (con_input s') q line
  | None => ∃ s', read_chars killed n first acc s = (if killed then Ok None s' else Blocked s') ∧
      locked (con_lock s') = false ∧ ring (con_input s') [] line
  end.
Proof.
  induction n as [|n IH]; intros first acc s ready line Hlk HR; cbn [take_line read_chars].
  { destruct ready; exists s; by rewrite app_nil_r. }
  destruct ready as [|c ready].
  - exists (set_con_lock (init_spinlock (lname (con_lock s))) s). split; [|done].
    erewrite bind_Ok by done. rewrite (rg_w _ _ _ HR), Z.add_0_r, u64_small, Z.eqb_refl by apply HR.
    destruct killed; (erewrite bind_Ok; [|by apply zoom_Ok, release_spinlock_held]); done.
  - destruct (ring_pop_front _ _ _ _ HR) as (Ec & Ew & HR').
    erewrite bind_Ok by done. rewrite Ew. erewrite bind_Ok by (by apply cell_Ok). erewrite bind_Ok by done.
    destruct (c =? ctrl_D).
    + rewrite app_nil_r. destruct first; eexists; (split; [reflexivity|]); [done|]. simpl. by destruct s as [? [] ? ?].
    + destruct (c =? newline); [eexists; split; [done|]; done|].
      specialize (IH false (acc ++ [c]) (set_input (with_r (u64 (in_r (con_input s) + 1)) (con_input s)) s) ready line Hlk HR').
      destruct (take_line n false ready) as [[l q]|]; [|done].
      destruct IH as (s' & E & Hs). exists s'. rewrite E, <- app_assoc. done.
Qed.

Lemma take_line_spec : ∀ n first q l q', take_line n first q = Some (l, q') →
  (length l ≤ n)%nat ∧ (q = l ++ q' ∨ (first = true ∧ l = [] ∧ q = ctrl_D :: q')) ∧ ctrl_D ∉ l.
Proof.
  induction n as [|n IH]; intros first q l q' E; cbn [take_line] in E.
  { destruct q; injection E as <- <-; (split; [simpl; lia|]; split; [by left|set_solver]). }
  destruct q as [|c q]; [done|]. destruct (Z.eqb_spec c ctrl_D) as [->|Hc].
  { injection E as <- <-. split; [simpl; lia|]. split; [|set_solver]. destruct first; [by right|by left]. }
  destruct (Z.eqb_spec c newline) as [->|Hn].
  { injection E as <- <-. split; [simpl; lia|]. split; [by left|]. rewrite list_elem_of_singleton. done. }
  destruct (take_line n false q) as [[l2 q2]|] eqn:E2; [|done]. injection E as <- <-.
  destruct (IH _ _ _ _ E2) as (Hl & [->|(? & _)] & Hd); [|done]. split; [simpl; lia|]. split; [by left|]. set_solver.
Qed.
End steps.

Section read.
Context {C A : Type} (me : Z).
Implicit Types (t : ITree C A Console).

Definition inode_locked t ip (b : bool) : Prop :=
  ∃ i, t_inodes t !! ip = Some i ∧ locked (i_lock i) = b ∧ 0 < rcount (i_rc i).

Lemma inode_unlock_Ok t ip : inode_locked t ip true →
  ∃ t', inode_unlock ip t = Ok () t' ∧ inode_locked t' ip false ∧ t_console t' = t_console t.
Proof.
  intros (i & Ei & Hl & Hr). eexists. split.
  { unfold inode_unlock, get_inode. erewrite bind_Ok; [|erewrite bind_Ok by done; by rewrite Ei].
    unfold assertM, holding_spinlock. rewrite Hl, (proj2 (Z.ltb_lt _ _) Hr). erewrite bind_Ok by done. erewrite bind_Ok by done.
    unfold on_inode_lock, get_inode. erewrite bind_Ok; [|erewrite bind_Ok by done; by rewrite Ei].
    apply zoom_Ok. by apply release_spinlock_held. }
  split; [|done]. eexists. simpl. split; [apply lookup_insert_eq|]. done.
Qed.

Lemma inode_lock_Ok t ip : inode_locked t ip false →
  ∃ t', inode_lock me ip t = Ok () t' ∧ inode_locked t' ip true ∧ t_console t' = t_console t.
Proof.
  intros (i & Ei & Hl & Hr). eexists. split.
  { unfold inode_lock, get_inode. erewrite bind_Ok; [|erewrite bind_Ok by done; by rewrite Ei].
    unfold assertM. rewrite (proj2 (Z.ltb_lt _ _) Hr). erewrite bind_Ok by done.
    unfold on_inode_lock, get_inode. erewrite bind_Ok; [|erewrite bind_Ok by done; by rewrite Ei].
    apply zoom_Ok. by apply acquire_spinlock_free. }
  split; [|done]. eexists. simpl. split; [apply lookup_insert_eq|]. done.
Qed.

(** [console_read] gives the reader the bytes that are ready up to the end of
    a line: at most [n] of them, in order, never the ^D that ends the input (which
    is consumed only when it is the first byte, and otherwise left for the next
    read), and returns with the inode locked and the console lock free. When the
    bytes run out first, the reader sleeps with both locks free, or returns -1 if
    it was killed. *)
Lemma console_read_correct (killed : bool) ip n t ready line :
  inode_locked t ip true → locked (con_lock (t_console t)) = false → ring (con_input (t_console t)) ready line →
  0 ≤ n < 2 ^ 63 →
  match take_line (Z.to_nat n) true ready with
  | Some (l, q) =>
      Z.of_nat (length l) ≤ n ∧ ctrl_D ∉ l ∧ (ready = l ++ q ∨ (l = [] ∧ ready = ctrl_D :: q)) ∧
      ∃ t', console_read me killed ip n t = Ok (Z.of_nat (length l), l) t' ∧ inode_locked t' ip true ∧
        locked (con_lock (t_console t')) = false ∧ ring (con_input (t_console t')) q line
  | None =>
      ∃ t', console_read me killed ip n t = (if killed then Ok (u64 (-1), []) t' else Blocked t') ∧
        inode_locked t' ip killed ∧ locked (con_lock (t_console t')) = false ∧ ring (con_input (t_console t')) [] line
  end.
Proof.
  intros Hi Hl HR Hn. destruct (inode_unlock_Ok t ip Hi) as (t1 & E1 & Hi1 & Hc1).
  assert (i64 n = n) as En by (unfold i64, swrap; rewrite Z.mod_small; lia).
  set (s2 := set_con_lock {| locked := true; lcpu := Some me; lname := lname (con_lock (t_console t1)) |} (t_console t1)).
  assert (oncon (on_conslock (acquire_spinlock me)) t1 = Ok () (set_t_console s2 t1)) as E2.
  { apply zoom_Ok, zoom_Ok, acquire_spinlock_free. by rewrite Hc1. }
  assert (ring (con_input s2) ready line) as HR2 by (simpl; by rewrite Hc1).
  pose proof (read_chars_spec killed (Z.to_nat n) true [] s2 ready line eq_refl HR2) as Hrd.
  pose proof (take_line_spec (Z.to_nat n) true ready) as Hsp.
  destruct (take_line (Z.to_nat n) true ready) as [[l q]|].
  - destruct (Hsp l q eq_refl) as (Hll & Hor & Hd). split; [lia|]. split; [done|]. split; [naive_solver|].
    destruct Hrd as (s3 & E3 & Hk3 & _ & HR3).
    set (t3 := set_t_console (set_con_lock (init_spinlock (lname (con_lock s3))) s3) (set_t_console s3 (set_t_console s2 t1))).
    destruct (inode_lock_Ok t3 ip) as (t4 & E4 & Hi4 & Hc4); [done|]. exists t4. rewrite Hc4. split; [|done].
    unfold console_read. erewrite bind_Ok by exact E1. erewrite bind_Ok by exact E2. rewrite En.
    erewrite bind_Ok; [|apply zoom_Ok; exact E3]. cbn beta iota.
    erewrite bind_Ok; [|apply zoom_Ok, zoom_Ok, release_spinlock_held; simpl; by rewrite Hk3]. by erewrite bind_Ok by exact E4.
  - destruct Hrd as (s3 & E3 & Hk3 & HR3). set (t3 := set_t_console s3 (set_t_console s2 t1)). destruct killed.
    + destruct (inode_lock_Ok t3 ip) as (t4 & E4 & Hi4 & Hc4); [done|]. exists t4. rewrite Hc4. split; [|done].
      unfold console_read. erewrite bind_Ok by exact E1. erewrite bind_Ok by exact E2. rewrite En.
      erewrite bind_Ok; [|apply zoom_Ok; exact E3]. cbn beta iota. by erewrite bind_Ok by exact E4.
    + exists t3. split; [|done].
      unfold console_read. erewrite bind_Ok by exact E1. erewrite bind_Ok by exact E2. rewrite En.
      unfold mbind, M_bind, oncon, zoom. cbn [t_console set_t_console]. rewrite E3. done.
Qed.
End read.

Definition demo_input : Input := mkInput (replicate 128 0) 0 0 0.
Definition demo_console : Console := mkConsole (init_spinlock "conslock") demo_input [] 0.
Lemma demo_ring : ring demo_input [] [].
Proof.
  split; try done; try (simpl; lia). set_solver.
Qed.

(** "a", backspace, "hi", return *)
Lemma console_intr_correct_witness :
  ∃ s', console_intr 0 [97; 127; 104; 105; 13] demo_console = Ok () s' ∧
    ring (con_input s') [104; 105; 10] [].
Proof.
  destruct (console_intr_correct 0 [97; 127; 104; 105; 13] demo_console [] []) as (s' & E & HR & _).
  - reflexivity.
  - exact demo_ring.
  - exists s'. split; [exact E|exact HR].
Defined.

Definition demo_typed : Console :=
  match console_intr 0 [97; 127; 104; 105; 13] demo_console with Ok _ s => s | _ => demo_console end.
Definition demo_con_tree : ITree unit unit Console :=
  mkITree (init_spinlock "inode tree") [10]
    {[10 := mkInode (mkSpinLock true (Some 0) "Inode") {| rcount := 1 |} 5 true (mkInodeEntry 3 1 0 1 0 (replicate 12 0) 0)]}
    () () 0 demo_typed.

Lemma console_read_correct_witness :
  ∃ t', console_read 0 false 10 20 demo_con_tree = Ok (3, [104; 105; 10]) t' ∧ inode_locked t' 10 true.
Proof.
  pose proof (console_read_correct 0 false 10 20 demo_con_tree [104; 105; 10] []) as H. cbn in H.
  destruct H as (_ & _ & _ & t' & E & Hi & _).
  - eexists. split; [reflexivity|]. split; [reflexivity|]. simpl. lia.
  - reflexivity.
  - destruct (console_intr_Ok 0 [97; 127; 104; 105; 13] demo_console [] []) as (s' & E & _ & [HR _ _ _]);
      [reflexivity|exact demo_ring|]. unfold demo_typed. rewrite E. exact HR.
  - lia.
  - exists t'. split; [exact E|exact Hi].
Defined.
