(* ===== verification/File.v ===== *)
(** * Open files (fs/file.c, fs/file.h)

    The table of open files over the inode layer. Transactions ([begin_op],
    [end_op] of the block cache) are an interface next to [BlockCache]. *)
From S2P Require Import Prelude Locks Cache Inode InodeIO.

Definition NFILE : Z := 100.
Inductive file_type := FD_NONE | FD_PIPE | FD_INODE.
#[global] Instance file_type_eq_dec : EqDecision file_type.
Proof. solve_decision. Defined.

Record File := mkFile {
  f_type : file_type;
  f_ref : Z;
  f_readable : bool;
  f_writable : bool;
  f_ip : Z;
  f_off : Z
}.
Definition with_f_ref x (f : File) : File := mkFile (f_type f) x (f_readable f) (f_writable f) (f_ip f) (f_off f).
Definition with_f_type x (f : File) : File := mkFile x (f_ref f) (f_readable f) (f_writable f) (f_ip f) (f_off f).
Definition with_f_off x (f : File) : File := mkFile (f_type f) (f_ref f) (f_readable f) (f_writable f) (f_ip f) x.

(** The context of a new operation is a local variable of the caller: [bc_begin]
    gives its address. *)
Class Transactions (C : Type) := {
  bc_begin : M C Z;
  bc_end : Z → M C unit
}.

Record FTable (C A K : Type) := mkFTable {
  ft_lock : SpinLock;
  ft_file : list File;
  ft_tree : ITree C A K
}.
Arguments mkFTable {C A K} _ _ _.
Arguments ft_lock {C A K} _.
Arguments ft_file {C A K} _.
Arguments ft_tree {C A K} _.

Section file.
Context {C A K : Type} {BC : BlockCache C} {TX : Transactions C} {OP : ObjectPool A}.
Context (sb : SuperBlock) (me : Z).
Abbreviation T := (ITree C A K).
Abbreviation F := (FTable C A K).
Context (console_read : Z → Z → M T (Z * list Z)) (console_write : Z → list Z → Z → M T Z).

Definition set_ft_lock x (s : F) : F := mkFTable x (ft_file s) (ft_tree s).
Definition set_ft_file x (s : F) : F := mkFTable (ft_lock s) x (ft_tree s).
Definition set_ft_tree x (s : F) : F := mkFTable (ft_lock s) (ft_file s) x.
Definition on_ftable_lock (m : M SpinLock unit) : M F unit := zoom ft_lock set_ft_lock m.
Definition ont {X} (m : M T X) : M F X := zoom ft_tree set_ft_tree m.
(** A file pointer is the index of its entry in [ftable.file]. *)
Definition get_file (f : Z) : M F File := s ← getS; derefM (ft_file s !! Z.to_nat f).
Definition upd_file (f : Z) (g : File → File) : M F unit :=
  x ← get_file f; modify (λ s, set_ft_file (<[Z.to_nat f := g x]> (ft_file s)) s).

Definition fileinit : M F unit := modify (set_ft_lock (init_spinlock "file table")).

(** The index of the first entry with no references. *)
Fixpoint free_file (l : list File) (i : Z) : option Z :=
  match l with
  | [] => None
  | f :: l' => if f_ref f =? 0 then Some i else free_file l' (i + 1)
  end.
(** [None] for the null pointer. *)
Definition filealloc : M F (option Z) :=
  on_ftable_lock (acquire_spinlock me);;
  s ← getS;
  match free_file (ft_file s) 0 with
  | Some f =>
      upd_file f (with_f_ref 1);;
      on_ftable_lock release_spinlock;;
      mret (Some f)
  | None => on_ftable_lock release_spinlock;; mret None
  end.

Definition filedup (f : Z) : M F Z :=
  on_ftable_lock (acquire_spinlock me);;
  x ← get_file f;
  (if f_ref x <? 1 then panic "up a ref0 file" else mret ());;
  upd_file f (with_f_ref (i32 (f_ref x + 1)));;
  on_ftable_lock release_spinlock;;
  mret f.

Definition fileclose (f : Z) : M F unit :=
  on_ftable_lock (acquire_spinlock me);;
  x ← get_file f;
  (if f_ref x <? 1 then panic "close a ref0 file" else mret ());;
  upd_file f (with_f_ref (i32 (f_ref x - 1)));;
  if 0 <? i32 (f_ref x - 1) then on_ftable_lock release_spinlock
  else
    upd_file f (λ x, with_f_type FD_NONE (with_f_ref 0 x));;
    on_ftable_lock release_spinlock;;
    match f_type x with
    | FD_INODE =>
        ctx ← ont (onc bc_begin);
        ont (inode_put sb me ctx (f_ip x));;
        ont (onc (bc_end ctx))
    | _ => mret ()
    end.

(** [None] stands for the result -1. *)
Definition filestat (f : Z) : M F (option stat) :=
  x ← get_file f;
  match f_type x with
  | FD_INODE =>
      ont (inode_lock me (f_ip x));;
      st ← ont (stati (f_ip x));
      ont (inode_unlock (f_ip x));;
      mret (Some st)
  | _ => mret None
  end.

(** The result and the bytes stored at [addr]. *)
Definition fileread (f n : Z) : M F (Z * list Z) :=
  x ← get_file f;
  if negb (f_readable x) then mret (-1, [])
  else
    match f_type x with
    | FD_INODE =>
        ont (inode_lock me (f_ip x));;
        r ← ont (inode_read console_read (f_ip x) (f_off x) (u64 n));
        (if 0 <? r.1 then upd_file f (with_f_off (u64 (f_off x + r.1))) else mret ());;
        ont (inode_unlock (f_ip x));;
        mret (i64 r.1, r.2)
    | _ => panic "not inode"
    end.

(** [(OP_MAX_NUM_BLOCKS - 1 - 1 - 2) / 2 * 512] *)
Definition write_max : Z := (OP_MAX_NUM_BLOCKS - 1 - 1 - 2) / 2 * 512.

(** The loop of [filewrite]. Every iteration but one that panics writes at least
    one byte, so [n + 1] iterations are enough fuel. *)
Fixpoint filewrite_loop (fuel : nat) (f : Z) (addr : list Z) (n i : Z) : M F Z :=
  match fuel with
  | O => nofuel
  | S fuel' =>
      if i <? u64 n then
        let n1 := u64 (n - i) in
        let n1 := if write_max <? n1 then write_max else n1 in
        x ← get_file f;
        ctx ← ont (onc bc_begin);
        ont (inode_lock me (f_ip x));;
        sz ← ont (inode_write sb console_write ctx (f_ip x) (drop (Z.to_nat i) addr) (f_off x) (u64 n));
        (if 0 <? sz then upd_file f (with_f_off (u64 (f_off x + sz))) else mret ());;
        ont (inode_unlock (f_ip x));;
        ont (onc (bc_end ctx));;
        (if negb (sz =? n1) then panic "short filewrite" else mret ());;
        filewrite_loop fuel' f addr n (u64 (i + sz))
      else mret i
  end.
Definition filewrite (f : Z) (addr : list Z) (n : Z) : M F Z :=
  x ← get_file f;
  if negb (f_writable x) then mret (-1)
  else
    match f_type x with
    | FD_INODE =>
        i ← filewrite_loop (S (Z.to_nat n)) f addr n 0;
        mret (if i =? u64 n then n else -1)
    | _ => panic "not inode"
    end.
End file.

Section table.
Context {C A K : Type} {BC : BlockCache C} {TX : Transactions C} {OP : ObjectPool A}.
Context (sb : SuperBlock) (me : Z).
Abbreviation F := (FTable C A K).
Implicit Types (s : F) (l : list File).

Lemma free_file_spec l : ∀ i,
  match free_file l i with
  | Some f => ∃ k x, f = i + Z.of_nat k ∧ l !! k = Some x ∧ f_ref x = 0 ∧ (∀ j y, (j < k)%nat → l !! j = Some y → f_ref y ≠ 0)
  | None => ∀ y, y ∈ l → f_ref y ≠ 0
  end.
Proof.
  induction l as [|x l IH]; intros i; cbn [free_file]; [intros y; by rewrite elem_of_nil|].
  destruct (Z.eqb_spec (f_ref x) 0) as [E|E].
  - exists 0%nat, x. split_and!; [lia|done|done|intros; lia].
  - specialize (IH (i + 1)). destruct (free_file l (i + 1)) as [f|].
    + destruct IH as (k & y & -> & Ey & Hy & Hlt). exists (S k), y. split_and!; [lia|done|done|].
      intros [|j] z Hj Ez; [by injection Ez as <-|]. apply (Hlt j z); [lia|done].
    + intros y [->|Hy]%elem_of_cons; [done|by apply IH].
Qed.

Lemma ftable_lock_Ok s : locked (ft_lock s) = false →
  on_ftable_lock (acquire_spinlock me) s = Ok () (set_ft_lock {| locked := true; lcpu := Some me; lname := lname (ft_lock s) |} s).
Proof. intros. by apply zoom_Ok, acquire_spinlock_free. Qed.

Lemma ftable_unlock_Ok s : locked (ft_lock s) = true →
  on_ftable_lock release_spinlock s = Ok () (set_ft_lock (init_spinlock (lname (ft_lock s))) s).
Proof. intros. by apply zoom_Ok, release_spinlock_held. Qed.

Lemma get_file_Ok s f x : ft_file s !! Z.to_nat f = Some x → get_file f s = Ok x s.
Proof. intros E. unfold get_file. erewrite bind_Ok by done. by rewrite E. Qed.

Lemma upd_file_Ok s f x g : ft_file s !! Z.to_nat f = Some x →
  upd_file f g s = Ok () (set_ft_file (<[Z.to_nat f := g x]> (ft_file s)) s).
Proof. intros E. unfold upd_file. by erewrite bind_Ok by (by apply get_file_Ok). Qed.

(** The table and the lock after an operation; inodes are not touched. *)
Definition table_now s s' l : Prop :=
  ft_file s' = l ∧ ft_tree s' = ft_tree s ∧ locked (ft_lock s') = false.

(** Reference counts of open files: [filealloc] hands out the first entry
    nobody refers to, with one reference, or gives [NULL] exactly when every entry
    is in use; [filedup] adds a reference and [fileclose] takes one away, the last
    one making the entry free for [filealloc] again; using or closing an entry with
    no reference panics. No other entry changes. *)
Lemma file_reference_counts s f x :
  locked (ft_lock s) = false → 0 ≤ f → ft_file s !! Z.to_nat f = Some x → f_ref x < 2 ^ 31 - 1 →
  (∃ s' r, filealloc me s = Ok r s' ∧
     match r with
     | Some g => ∃ y, 0 ≤ g ∧ ft_file s !! Z.to_nat g = Some y ∧ f_ref y = 0 ∧
         (∀ j z, (j < Z.to_nat g)%nat → ft_file s !! j = Some z → f_ref z ≠ 0) ∧
         table_now s s' (<[Z.to_nat g := with_f_ref 1 y]> (ft_file s))
     | None => (∀ y, y ∈ ft_file s → f_ref y ≠ 0) ∧ table_now s s' (ft_file s)
     end) ∧
  (1 ≤ f_ref x → ∃ s', filedup me f s = Ok f s' ∧ table_now s s' (<[Z.to_nat f := with_f_ref (f_ref x + 1) x]> (ft_file s))) ∧
  (1 < f_ref x → ∃ s', fileclose sb me f s = Ok () s' ∧ table_now s s' (<[Z.to_nat f := with_f_ref (f_ref x - 1) x]> (ft_file s))) ∧
  (f_ref x = 1 → f_type x ≠ FD_INODE → ∃ s', fileclose sb me f s = Ok () s' ∧
     table_now s s' (<[Z.to_nat f := with_f_type FD_NONE (with_f_ref 0 x)]> (ft_file s))) ∧
  (f_ref x < 1 → filedup me f s = Panic "up a ref0 file" ∧ fileclose sb me f s = Panic "close a ref0 file").
Proof.
  intros Hl H0 Hx Hr. pose proof (ftable_lock_Ok s Hl) as EL. set (s1 := set_ft_lock _ s) in EL.
  assert (∀ n, 1 ≤ n < 2 ^ 31 → i32 n = n) as Hi32 by (intros; unfold i32, swrap; rewrite Z.mod_small; lia).
  split; [|split; [|split; [|split]]].
  - pose proof (free_file_spec (ft_file s) 0) as Hsp. unfold filealloc. erewrite bind_Ok by exact EL. erewrite bind_Ok by done.
    cbn [ft_file s1 set_ft_lock]. destruct (free_file (ft_file s) 0) as [g|].
    + destruct Hsp as (k & y & -> & Ey & Hy & Hlt). rewrite Z.add_0_l.
      eexists _, (Some (Z.of_nat k)). split.
      { erewrite bind_Ok by (apply upd_file_Ok; rewrite Nat2Z.id; exact Ey). by erewrite bind_Ok by (by apply ftable_unlock_Ok). }
      exists y. rewrite Nat2Z.id. split_and!; [lia|done|done|done|done].
    + eexists _, None. split; [by erewrite bind_Ok by (by apply ftable_unlock_Ok)|]. done.
  - intros Hx1. eexists. split.
    { unfold filedup. erewrite bind_Ok by exact EL. erewrite bind_Ok by (by apply get_file_Ok).
      rewrite (proj2 (Z.ltb_ge _ _) Hx1). erewrite bind_Ok by done. erewrite bind_Ok by (by apply upd_file_Ok).
      by erewrite bind_Ok by (by apply ftable_unlock_Ok). }
    rewrite Hi32 by lia. done.
  - intros Hx1. eexists. split.
    { unfold fileclose. erewrite bind_Ok by exact EL. erewrite bind_Ok by (by apply get_file_Ok).
      rewrite (proj2 (Z.ltb_ge (f_ref x) 1)) by lia. erewrite bind_Ok by done. erewrite bind_Ok by (by apply upd_file_Ok).
      rewrite Hi32 by lia. rewrite (proj2 (Z.ltb_lt 0 _)) by lia. by apply ftable_unlock_Ok. }
    done.
  - intros Hx1 Hty. eexists. split.
    { unfold fileclose. erewrite bind_Ok by exact EL. erewrite bind_Ok by (by apply get_file_Ok).
      rewrite Hx1. cbn [Z.ltb Z.compare Pos.compare Pos.compare_cont]. erewrite bind_Ok by done.
      erewrite bind_Ok by (by apply upd_file_Ok). change (i32 (1 - 1)) with 0. cbn [Z.ltb Z.compare].
      erewrite bind_Ok by (apply upd_file_Ok; simpl; rewrite list_lookup_insert_eq by (by eapply lookup_lt_Some); done).
      erewrite bind_Ok by (by apply ftable_unlock_Ok). by destruct (f_type x). }
    split_and!; try done. simpl. by rewrite list_insert_insert_eq.
  - intros Hx1. split.
    + unfold filedup. erewrite bind_Ok by exact EL. erewrite bind_Ok by (by apply get_file_Ok).
      by rewrite (proj2 (Z.ltb_lt _ _) Hx1).
    + unfold fileclose. erewrite bind_Ok by exact EL. erewrite bind_Ok by (by apply get_file_Ok).
      by rewrite (proj2 (Z.ltb_lt _ _) Hx1).
Qed.
End table.

Section io.
Context {C A K0 : Type} {BC : BlockCache C} {sb : SuperBlock} {BCL : BlockCacheLaws C sb} {TX : Transactions C} {OP : ObjectPool A}.
Context (me : Z).
Abbreviation T := (ITree C A K0).
Abbreviation F := (FTable C A K0).
Context (con_read : Z → Z → M T (Z * list Z)) (con_write : Z → list Z → Z → M T Z).
Implicit Types (s : F) (t : T) (i : Inode).

Lemma inode_lock_upd t p i c : 0 < rcount (i_rc i) → locked (i_lock i) = false →
  inode_lock me p (upd t p i c) =
    Ok () (upd t p (with_i_lock {| locked := true; lcpu := Some me; lname := lname (i_lock i) |} i) c).
Proof.
  intros Hr Hl. unfold inode_lock, on_inode_lock, get_inode.
  assert (t_inodes (upd t p i c) !! p = Some i) as E by apply lookup_insert_eq.
  erewrite bind_Ok; [|erewrite bind_Ok by done; by rewrite E].
  unfold assertM. rewrite (proj2 (Z.ltb_lt _ _) Hr). erewrite bind_Ok by done.
  erewrite bind_Ok; [|erewrite bind_Ok by done; by rewrite E].
  erewrite zoom_Ok by (by apply acquire_spinlock_free). unfold upd, set_t_inodes. simpl. by rewrite insert_insert_eq.
Qed.

Lemma inode_unlock_upd t p i c : 0 < rcount (i_rc i) → locked (i_lock i) = true →
  inode_unlock p (upd t p i c) = Ok () (upd t p (with_i_lock (init_spinlock (lname (i_lock i))) i) c).
Proof.
  intros Hr Hl. unfold inode_unlock, on_inode_lock, get_inode.
  assert (t_inodes (upd t p i c) !! p = Some i) as E by apply lookup_insert_eq.
  erewrite bind_Ok; [|erewrite bind_Ok by done; by rewrite E].
  unfold assertM, holding_spinlock. rewrite (proj2 (Z.ltb_lt _ _) Hr), Hl. erewrite bind_Ok by done. erewrite bind_Ok by done.
  erewrite bind_Ok; [|erewrite bind_Ok by done; by rewrite E].
  erewrite zoom_Ok by (by apply release_spinlock_held). unfold upd, set_t_inodes. simpl. by rewrite insert_insert_eq.
Qed.

(** C34. [fileread] on an open regular file returns the bytes at the file's offset
    (as many as asked for, fewer at the end of the file), moves the offset past
    them, and leaves the inode unlocked and the file system as it was, so that
    consecutive reads deliver the file from front to back; a file not opened for
    reading gives -1. *)
Theorem fileread_correct s f x i V U K n :
  0 ≤ f → ft_file s !! Z.to_nat f = Some x → f_type x = FD_INODE →
  at_rest (sb := sb) (ft_tree s) (f_ip x) i V U K → file_inv (sb := sb) V U (i_entry i) →
  e_type (i_entry i) ≠ INODE_DEVICE → 0 < rcount (i_rc i) → i_lock i = init_spinlock "Inode" →
  0 ≤ n < 2 ^ 32 → 0 ≤ f_off x ≤ e_num_bytes (i_entry i) →
  let data := slice (Z.to_nat (f_off x)) (Z.to_nat n) (content V (i_entry i)) in
  (f_readable x = true → ∃ c',
     fileread me con_read f n s = Ok (Z.of_nat (length data), data)
       (mkFTable (ft_lock s) (<[Z.to_nat f := with_f_off (f_off x + Z.of_nat (length data)) x]> (ft_file s))
          (upd (ft_tree s) (f_ip x) i c')) ∧
     bc_rep c' (calm V U K)) ∧
  (f_readable x = false → fileread me con_read f n s = Ok (-1, []) s).
Proof.
  intros H0 Hx Hty HA HI Hnd Hrc Hlk Hn Ho data. split.
  2:{ intros Hr. unfold fileread. erewrite bind_Ok by (by apply get_file_Ok). by rewrite Hr. }
  intros Hr. pose proof HA as [HL Hi HR Hino]. pose proof (at_rest_upd _ _ _ _ _ _ HA) as Et.
  set (p := f_ip x) in *. set (t := ft_tree s) in *.
  set (L := {| locked := true; lcpu := Some me; lname := lname (i_lock i) |}).
  pose proof (eo_bytes _ (fi_ok _ _ _ HI)) as Hnb. unfold word32 in Hnb.
  pose proof (inode_read_wp con_read t p (with_i_lock L i) (t_cache t) V U K (f_off x) n HL HR HI Hnd Ho Hn) as Hrd.
  cbn [i_entry with_i_lock] in Hrd. apply wp_Ok in Hrd as (r & t' & E & c' & -> & HR' & ->).
  set (m := Z.min n (e_num_bytes (i_entry i) - f_off x)) in *.
  assert (byte_at V (i_entry i) <$> seqZ (f_off x) m = data) as Ed.
  { unfold data. rewrite <- content_slice by lia. unfold slice. destruct (decide (n ≤ e_num_bytes (i_entry i) - f_off x)).
    - do 2 f_equal. lia.
    - rewrite !take_ge; [done|rewrite length_drop, length_content; lia..]. }
  assert (Z.of_nat (length data) = m) as Hm by (rewrite <- Ed, length_fmap, length_seqZ; lia).
  exists c'. split; [|done]. unfold fileread. erewrite bind_Ok by (by apply get_file_Ok). rewrite Hr, Hty. cbn [negb].
  erewrite bind_Ok.
  2:{ apply zoom_Ok. fold t p. rewrite Et. apply inode_lock_upd; [done|by rewrite Hlk]. }
  erewrite bind_Ok.
  2:{ apply zoom_Ok. fold p. rewrite u64_small by lia. exact E. }
  cbn [fst snd]. rewrite Ed. fold p.
  set (s2 := set_ft_tree (upd t p (with_i_lock L i) c') _).
  assert ((if 0 <? m then upd_file f (with_f_off (u64 (f_off x + m))) else mret ()) s2 =
    Ok () (set_ft_file (<[Z.to_nat f := with_f_off (f_off x + m) x]> (ft_file s)) s2)) as E2.
  { destruct (Z.ltb_spec 0 m).
    - rewrite u64_small by lia. exact (upd_file_Ok s2 f x _ Hx).
    - replace m with 0 by lia. rewrite Z.add_0_r. unfold s2, set_ft_file, set_ft_tree. simpl.
      rewrite list_insert_id; [done|]. rewrite Hx. by destruct x. }
  erewrite bind_Ok by exact E2. erewrite bind_Ok by (apply zoom_Ok; by apply inode_unlock_upd).
  unfold i64, swrap. rewrite Hm. rewrite Z.mod_small by lia.
  replace (m + 2 ^ (64 - 1) - 2 ^ (64 - 1)) with m by lia. cbv [mret M_ret]. f_equal.
  unfold set_ft_tree, set_ft_file, s2, upd. simpl. do 3 f_equal. destruct i. simpl in *. by rewrite Hlk.
Qed.
End io.

(** A write of more than [write_max] bytes is not split: the whole count is handed
    to [inode_write], and the check of the number of bytes written fails. *)
Lemma filewrite_long_panics {C A K : Type} {BC : BlockCache C} {TX : Transactions C} {OP : ObjectPool A}
    sb me con_write (s : FTable C A K) f x addr n ctx c1 t1 t2 t3 c4 :
  write_max < n < 2 ^ 63 → ft_file s !! Z.to_nat f = Some x → f_writable x = true → f_type x = FD_INODE →
  bc_begin (t_cache (ft_tree s)) = Ok ctx c1 →
  inode_lock me (f_ip x) (set_t_cache c1 (ft_tree s)) = Ok () t1 →
  inode_write sb con_write ctx (f_ip x) (drop 0 addr) (f_off x) n t1 = Ok n t2 →
  inode_unlock (f_ip x) t2 = Ok () t3 → bc_end ctx (t_cache t3) = Ok () c4 →
  filewrite sb me con_write f addr n s = Panic "short filewrite".
Proof.
  intros Hn Hx Hw Hty E1 E2 E3 E4 E5. change write_max with 1536 in Hn.
  unfold filewrite. erewrite bind_Ok by (by apply get_file_Ok). rewrite Hw, Hty. cbn [negb filewrite_loop].
  unfold mbind at 1, M_bind at 1. rewrite (u64_small n) by lia. rewrite (proj2 (Z.ltb_lt 0 n)) by lia.
  erewrite bind_Ok by (by apply get_file_Ok).
  erewrite bind_Ok by (apply zoom_Ok, zoom_Ok; exact E1). erewrite bind_Ok by (apply zoom_Ok; exact E2).
  erewrite bind_Ok.
  2:{ apply zoom_Ok. exact E3. }
  rewrite (proj2 (Z.ltb_lt 0 n)) by lia.
  erewrite bind_Ok by (by apply upd_file_Ok). erewrite bind_Ok by (apply zoom_Ok; exact E4).
  erewrite bind_Ok by (apply zoom_Ok, zoom_Ok; exact E5).
  replace (if write_max <? u64 (n - 0) then write_max else u64 (n - 0)) with 1536.
  2:{ rewrite Z.sub_0_r, u64_small by lia. change write_max with 1536. by rewrite (proj2 (Z.ltb_lt 1536 n)) by lia. }
  by rewrite (proj2 (Z.eqb_neq n 1536)) by lia.
Qed.

#[local] Instance ld_tx : Transactions LDisk := {
  bc_begin := modify (λ d, mkLDisk (ld_view d) (ld_held d) (ld_dirty d) (ld_used d) (<[1 := 10]> (ld_credit d)));; mret 1;
  bc_end ctx := mret ()
}.
#[local] Instance file_cache : BlockCache LDisk := ldisk_cache fs_sb.
#[local] Instance file_laws : BlockCacheLaws LDisk fs_sb := ldisk_laws fs_sb.

Definition demo_files : FTable LDisk Z unit :=
  mkFTable (init_spinlock "file table") [mkFile FD_INODE 2 true false 10 0; mkFile FD_NONE 0 false false 0 0] (demo_tree 2).

Lemma file_reference_counts_witness :
  ∃ s1 s2, filealloc 0 demo_files = Ok (Some 1) s1 ∧ filedup 0 0 demo_files = Ok 0 s2 ∧
    table_now demo_files s2 [mkFile FD_INODE 3 true false 10 0; mkFile FD_NONE 0 false false 0 0].
Proof.
  destruct (file_reference_counts fs_sb 0 demo_files 0 (mkFile FD_INODE 2 true false 10 0)) as ((s1 & r & E1 & Hr) & Hd & _).
  - reflexivity.
  - lia.
  - reflexivity.
  - simpl. lia.
  - destruct Hd as (s2 & E2 & Ht); [simpl; lia|]. exists s1, s2. split; [|split; [exact E2|exact Ht]].
    rewrite E1. vm_compute in E1. injection E1 as <- _. reflexivity.
Defined.

Lemma fileread_correct_witness :
  ∃ c', fileread 0 demo_read 0 7 demo_files = Ok (0, [])
    (mkFTable (init_spinlock "file table") [mkFile FD_INODE 2 true false 10 0; mkFile FD_NONE 0 false false 0 0]
       (upd (demo_tree 2) 10 (demo_inode 2 true) c')).
Proof.
  destruct (fileread_correct (sb := fs_sb) 0 demo_read demo_files 0 (mkFile FD_INODE 2 true false 10 0) (demo_inode 2 true)
    (demo_view 2) demo_used (demo_credit 2) 7) as [H _].
  - lia.
  - reflexivity.
  - reflexivity.
  - apply demo_at_rest; [lia|done].
  - apply demo_file_inv. lia.
  - simpl. unfold INODE_DEVICE. lia.
  - simpl. lia.
  - reflexivity.
  - lia.
  - simpl. lia.
  - destruct H as (c' & E & _); [reflexivity|]. exists c'. exact E.
Defined.
