(* ===== verification/VirtMem.v ===== *)
(** * User page tables (core/virtual_memory.c, aarch64/mmu.h)

    A page table is a tree of four levels of pages of the physical memory of
    PhysMem.v: each page is 512 words of 64 bits, and the operations below work on
    that memory through [kalloc] and [kfree]. A pointer to a page-table entry is
    the page it lies in and its index. *)
From S2P Require Import Prelude Locks PhysMem.

Definition PGSIZE : Z := 4096.
Definition PGSHIFT : Z := 12.
Definition PXMASK : Z := 0x1FF.
Definition N_PTE_PER_TABLE : Z := 512.
Definition PTE_VALID : Z := 0x1.
Definition PTE_TABLE : Z := 0x3.
Definition PTE_PAGE : Z := 0x3.
Definition PTE_USER : Z := Z.shiftl 1 6.
Definition PTE_NORMAL : Z := Z.lor (Z.lor (Z.shiftl 1 2) (Z.shiftl 1 10)) (Z.shiftl 2 8).
Definition PTE_USER_DATA : Z := Z.lor (Z.lor PTE_USER PTE_NORMAL) PTE_PAGE.
Definition PXSHIFT (level : Z) : Z := PGSHIFT + 9 * level.
Definition PX (level va : Z) : Z := Z.land (Z.shiftr va (PXSHIFT level)) PXMASK.
(** The mask [~0xFFFu] has 32 bits. *)
Definition PTE_ADDRESS (pte : Z) : Z := Z.land pte 0xFFFFF000.
Definition PTE_FLAGS (pte : Z) : Z := Z.land pte 0xFFF.

Section vm.
Context (kend me : Z).

Definition pte_ptr : Type := Z * nat.
Definition pte_get (pte : pte_ptr) : M PMemory Z := read_word pte.1 pte.2.
Definition pte_set (pte : pte_ptr) (w : Z) : M PMemory unit := write_word pte.1 pte.2 w.
Definition get_page (p : Z) : M PMemory page := s ← getS; derefM (pm_mem s !! p).
Definition set_page (p : Z) (pg : page) : M PMemory unit :=
  get_page p;; modify (λ s, set_pm_mem (<[p := pg]> (pm_mem s)) s).

Definition my_pgdir_init : M PMemory Z := kalloc me.

(** The loop of [my_pgdir_walk], from the level given down to 1. [None] is the
    null pointer. *)
Fixpoint walk (level : nat) (pgdir vak : Z) (alloc : bool) : M PMemory (option pte_ptr) :=
  match level with
  | O => mret (Some (pgdir, Z.to_nat (PX 0 vak)))
  | S level' =>
      let pte := (pgdir, Z.to_nat (PX (Z.of_nat level) vak)) in
      w ← pte_get pte;
      if test w PTE_VALID then walk level' (P2K (PTE_ADDRESS w)) vak alloc
      else if negb alloc then mret None
      else
        pgdir' ← kalloc me;
        if pgdir' =? NULL then mret None
        else
          pte_set pte (Z.lor (K2P pgdir') PTE_TABLE);;
          walk level' pgdir' vak alloc
  end.
Definition my_pgdir_walk (pgdir vak : Z) (alloc : bool) : M PMemory (option pte_ptr) := walk 3 pgdir vak alloc.

(** [my_vm_free_r pgdir x], by recursion on [3 - x]. *)
Fixpoint vm_free_r (d : nat) (pgdir : Z) : M PMemory unit :=
  match d with
  | O =>
      for_loop (Z.to_nat N_PTE_PER_TABLE) 0 (λ i,
        w ← pte_get (pgdir, Z.to_nat i);
        (if test w PTE_VALID then kfree kend me (P2K (PTE_ADDRESS w)) else mret ());;
        mret (@None unit));;
      mret ()
  | S d' =>
      for_loop (Z.to_nat N_PTE_PER_TABLE) 0 (λ i,
        w ← pte_get (pgdir, Z.to_nat i);
        (if test w PTE_VALID then vm_free_r d' (P2K (PTE_ADDRESS w)) else mret ());;
        mret (@None unit));;
      kfree kend me pgdir
  end.
Definition my_vm_free (pgdir : Z) : M PMemory unit := vm_free_r 3 pgdir.

(** The loop of [my_uvm_map]: true when every page was mapped. [fuel] is the
    number of pages from [a] to [last]. *)
Fixpoint map_loop (fuel : nat) (pgdir a last pa : Z) : M PMemory bool :=
  match fuel with
  | O => nofuel
  | S fuel' =>
      pte ← my_pgdir_walk pgdir a true;
      match pte with
      | None => mret false
      | Some pte =>
          w ← pte_get pte;
          (if test w PTE_VALID then panic "remap" else mret ());;
          pte_set pte (Z.lor pa PTE_USER_DATA);;
          if a =? last then mret true
          else map_loop fuel' pgdir (u64 (a + PGSIZE)) last (u64 (pa + PGSIZE))
      end
  end.
Definition my_uvm_map (pgdir va sz pa : Z) : M PMemory Z :=
  (if sz =? 0 then panic "map:sz 0" else mret ());;
  let a := ROUNDDOWN va PGSIZE in
  let last := ROUNDDOWN (u64 (u64 (va + sz) - 1)) PGSIZE in
  ok ← map_loop (S (Z.to_nat (u64 (last - a) / PGSIZE))) pgdir a last pa;
  mret (if (ok : bool) then 0 else -1).

(** [memmove(dst, src, PGSIZE)] between two pages. *)
Definition copy_page (dst src : Z) : M PMemory unit := pg ← get_page src; set_page dst pg.

(** The loop of [my_uvm_copy] from address [i] on; [fuel] exceeds the number of
    mapped pages. *)
Fixpoint copy_loop (fuel : nat) (pgdir newpgdir i : Z) : M PMemory unit :=
  match fuel with
  | O => nofuel
  | S fuel' =>
      pte ← my_pgdir_walk pgdir i false;
      match pte with
      | None => mret ()
      | Some pte =>
          w ← pte_get pte;
          if negb (test w PTE_VALID) then mret ()
          else
            mem ← kalloc me;
            copy_page mem (P2K (PTE_ADDRESS w));;
            my_uvm_map newpgdir i PGSIZE (K2P mem);;
            copy_loop fuel' pgdir newpgdir (u64 (i + PGSIZE))
      end
  end.
Definition my_uvm_copy (fuel : nat) (pgdir : Z) : M PMemory Z :=
  newpgdir ← my_pgdir_init;
  copy_loop fuel pgdir newpgdir 0;;
  mret newpgdir.

Definition unmap_one (pgdir : Z) (do_free : bool) (a : Z) : M PMemory unit :=
  pte ← my_pgdir_walk pgdir a false;
  match pte with
  | None => panic "walk"
  | Some pte =>
      w ← pte_get pte;
      (if negb (test w PTE_VALID) then panic "not mapped" else mret ());;
      (if PTE_FLAGS w =? PTE_VALID then panic "not a leaf" else mret ());;
      (if do_free then kfree kend me (P2K (PTE_ADDRESS w)) else mret ());;
      pte_set pte 0
  end.
(** The bound of the loop is computed in 64 bits; [va] is a multiple of the page size. *)
Definition uvmunmap (pgdir va npages : Z) (do_free : bool) : M PMemory unit :=
  (if negb (va mod PGSIZE =? 0) then panic "not aligned" else mret ());;
  for_loop (Z.to_nat ((u64 (va + npages * PGSIZE) - va) / PGSIZE)) 0 (λ k, unmap_one pgdir do_free (u64 (va + k * PGSIZE));; mret (@None unit));;
  mret ().

Definition my_uvm_dealloc (pgdir base oldsz newsz : Z) : M PMemory Z :=
  if oldsz <=? newsz then mret (i32 oldsz)
  else
    (if ROUNDUP newsz PGSIZE <? ROUNDUP oldsz PGSIZE then
       uvmunmap pgdir (ROUNDUP newsz PGSIZE) (u64 (i32 (u64 (ROUNDUP oldsz PGSIZE - ROUNDUP newsz PGSIZE) / PGSIZE))) true
     else mret ());;
    mret 0.

(** The loop of [my_uvm_alloc]: [Some] when memory ran out. A failed [uvm_map]
    frees the page and deallocates, and the loop goes on. *)
Definition alloc_page_at (pgdir base oldsz a : Z) : M PMemory (option unit) :=
  mem ← kalloc me;
  if mem =? NULL then my_uvm_dealloc pgdir base a oldsz;; mret (Some ())
  else
    zero_fill mem;;
    r ← my_uvm_map pgdir a PGSIZE (K2P mem);
    (if negb (r =? 0) then kfree kend me mem;; my_uvm_dealloc pgdir base a oldsz;; mret () else mret ());;
    mret None.
Definition my_uvm_alloc (pgdir base stksz oldsz newsz : Z) : M PMemory Z :=
  if newsz <? oldsz then mret (i32 oldsz)
  else
    let oldsz := ROUNDUP oldsz PGSIZE in
    r ← for_loop (Z.to_nat ((newsz - oldsz + PGSIZE - 1) / PGSIZE)) 0
          (λ k, alloc_page_at pgdir base oldsz (oldsz + k * PGSIZE));
    mret (match r with Some _ => 0 | None => i32 newsz end).

Definition clearpteu (pgdir uva : Z) : M PMemory unit :=
  pte ← my_pgdir_walk pgdir uva false;
  match pte with
  | None => panic "clearpteu"
  | Some pte => w ← pte_get pte; pte_set pte (Z.land w (Z.lnot PTE_USER))
  end.

(** A null result of the walk is dereferenced. *)
Definition uva2ka (pgdir uva : Z) : M PMemory Z :=
  pte ← my_pgdir_walk pgdir uva false;
  pte ← derefM pte;
  w ← pte_get pte;
  if Z.land w PTE_VALID =? 0 then mret 0
  else if Z.land w PTE_USER =? 0 then mret 0
  else mret (P2K (PTE_ADDRESS w)).
Definition uva2ka1 (pgdir uva : Z) : M PMemory Z :=
  pte ← my_pgdir_walk pgdir uva true;
  pte ← derefM pte;
  w ← pte_get pte;
  mret (P2K (PTE_ADDRESS w)).

(** The bytes of a page and back. *)
Definition page_bytes (pg : page) : list Z := pg ≫= le_bytes 8.
Fixpoint page_words (n : nat) (l : list Z) : page :=
  match n with O => [] | S n' => le_val (take 8 l) :: page_words n' (drop 8 l) end.
(** [memmove(p + off, src, length src)] inside one page. *)
Definition store_bytes (p : Z) (off : nat) (src : list Z) : M PMemory unit :=
  pg ← get_page p;
  if decide (off + length src ≤ 4096)%nat
  then set_page p (page_words 512 (splice off src (page_bytes pg))) else undef.

(** The loop of [my_copyout]; [buf] is what is left to copy. Each iteration but
    the last fills a page, so the length of [buf] plus one is enough fuel. *)
Fixpoint copyout_loop (fuel : nat) (pgdir va : Z) (buf : list Z) : M PMemory Z :=
  match fuel with
  | O => nofuel
  | S fuel' =>
      if (length buf =? 0)%nat then mret 0
      else
        let va0 := ROUNDDOWN va PAGE_SIZE in
        pa0 ← uva2ka1 pgdir va0;
        if pa0 =? 0 then mret (-1)
        else
          let n := Z.min (PAGE_SIZE - (va - va0)) (Z.of_nat (length buf)) in
          store_bytes pa0 (Z.to_nat (va - va0)) (take (Z.to_nat n) buf);;
          copyout_loop fuel' pgdir (u64 (va0 + PAGE_SIZE)) (drop (Z.to_nat n) buf)
  end.
Definition my_copyout (pgdir va : Z) (p : list Z) : M PMemory Z := copyout_loop (S (length p)) pgdir va p.
End vm.

(** ** Entries *)
Lemma land_ones_mod x n : 0 ≤ n → Z.land x (Z.ones n) = x mod 2 ^ n.
Proof. intros. by rewrite Z.land_ones. Qed.

Lemma low_bits_zero x k : x mod 4096 = 0 → 0 ≤ k < 12 → Z.testbit x k = false.
Proof.
  intros Hx Hk. rewrite <- (Z.mod_pow2_bits_low x 12 k) by lia. change (2 ^ 12) with 4096. rewrite Hx. apply Z.testbit_0_l.
Qed.
Lemma high_bits_zero x n k : 0 ≤ x < 2 ^ n → n ≤ k → 0 ≤ n → Z.testbit x k = false.
Proof.
  intros Hx Hk Hn. destruct (decide (x = 0)) as [->|]; [apply Z.testbit_0_l|]. apply Z.bits_above_log2; [lia|].
  apply Z.log2_lt_pow2; [lia|]. eapply Z.lt_le_trans; [apply Hx|]. apply Z.pow_le_mono_r; lia.
Qed.

(** An entry is a page-aligned 32-bit physical address and 12 bits of flags. *)
Lemma pte_parts x f : 0 ≤ x < 2 ^ 32 → x mod 4096 = 0 → 0 ≤ f < 4096 →
  PTE_ADDRESS (Z.lor x f) = x ∧ PTE_FLAGS (Z.lor x f) = f.
Proof.
  intros Hx Hm Hf. change 4096 with (2 ^ 12) in Hf. split; apply Z.bits_inj'; intros k Hk.
  - unfold PTE_ADDRESS. change 0xFFFFF000 with (Z.ldiff (Z.ones 32) (Z.ones 12)).
    rewrite Z.land_spec, Z.lor_spec, Z.ldiff_spec, !Z.testbit_ones_nonneg by lia.
    destruct (Z.ltb_spec k 12); simpl; [by rewrite low_bits_zero, andb_false_r, andb_false_r by lia|].
    rewrite (high_bits_zero f 12) by lia. rewrite orb_false_r.
    destruct (Z.ltb_spec k 32); simpl; [by rewrite andb_true_r|]. by rewrite (high_bits_zero x 32) by lia.
  - unfold PTE_FLAGS. change 0xFFF with (Z.ones 12). rewrite Z.land_spec, Z.lor_spec, Z.testbit_ones_nonneg by lia.
    destruct (Z.ltb_spec k 12); simpl; [by rewrite low_bits_zero, andb_true_r by lia|].
    rewrite andb_false_r. symmetry. apply (high_bits_zero f 12); lia.
Qed.

Lemma test_valid_flags w : test w PTE_VALID = test (PTE_FLAGS w) PTE_VALID.
Proof. unfold test, PTE_FLAGS, PTE_VALID. by rewrite <- Z.land_assoc. Qed.

Lemma pte_valid x f : 0 ≤ x < 2 ^ 32 → x mod 4096 = 0 → 0 ≤ f < 4096 → test (Z.lor x f) PTE_VALID = test f PTE_VALID.
Proof. intros Hx Hm Hf. rewrite test_valid_flags. by destruct (pte_parts x f Hx Hm Hf) as [_ ->]. Qed.

Section pagetable.
Context (kend me : Z).
Implicit Types (m : gmap Z page) (s : PMemory) (path : list nat).

Definition kernel_page (p : Z) : Prop := p mod 4096 = 0 ∧ KSPACE_MASK ≤ p < KSPACE_MASK + 2 ^ 32.

Lemma kernel_page_phys p : kernel_page p → 0 ≤ K2P p < 2 ^ 32 ∧ K2P p mod 4096 = 0 ∧ P2K (K2P p) = p.
Proof.
  intros [Hm Hr]. assert (K2P p = p - KSPACE_MASK) as E.
  { unfold K2P. apply u64_small. unfold KSPACE_MASK in *. lia. }
  rewrite E. split; [lia|]. split.
  - unfold KSPACE_MASK in *. rewrite Zminus_mod, Hm. done.
  - unfold P2K. rewrite u64_small; unfold KSPACE_MASK in *; lia.
Qed.

Lemma free_kernel_page p : KSPACE_MASK ≤ kend → err_addr kend p = false → kernel_page p ∧ p ≠ NULL.
Proof.
  intros Hk [Hm Hr]%err_addr_false. rewrite P2K_PHYSTOP in Hr. unfold kernel_page, KSPACE_MASK, NULL in *. split; [|lia].
  split; [done|lia].
Qed.

(** Word [i] of page [p], and the table reached along a path of indices. *)
Definition word m (p : Z) (i : nat) : option Z := match m !! p with Some pg => pg !! i | None => None end.
Fixpoint descend m (p : Z) path : option Z :=
  match path with
  | [] => Some p
  | i :: path' =>
      match word m p i with
      | Some w => if test w PTE_VALID then descend m (P2K (PTE_ADDRESS w)) path' else None
      | None => None
      end
  end.

Definition path_ok path : Prop := (length path ≤ 3)%nat ∧ Forall (λ i, (i < 512)%nat) path.
(** A valid entry points to a table, or at the last level to a page, which the user
    may access unless [clearpteu] has taken the permission away. *)
Definition entry_form (leaf : bool) (w : Z) : Prop :=
  ∃ q, kernel_page q ∧
    if leaf then w = Z.lor (K2P q) PTE_USER_DATA ∨ w = Z.lor (K2P q) (Z.ldiff PTE_USER_DATA PTE_USER)
    else w = Z.lor (K2P q) PTE_TABLE.
Record pt_inv m (root : Z) (free : list Z) : Prop := {
  pv_page : ∀ path p, path_ok path → descend m root path = Some p →
    (∃ pg, m !! p = Some pg ∧ length pg = 512%nat) ∧ p ∉ free;
  pv_inj : ∀ path1 path2 p, path_ok path1 → path_ok path2 →
    descend m root path1 = Some p → descend m root path2 = Some p → path1 = path2;
  pv_entry : ∀ path p i w, path_ok path → descend m root path = Some p → word m p i = Some w → test w PTE_VALID = true →
    entry_form (bool_decide (length path = 3%nat)) w
}.

Lemma descend_snoc m p path i :
  descend m p (path ++ [i]) =
    match descend m p path with
    | Some q => match word m q i with Some w => if test w PTE_VALID then Some (P2K (PTE_ADDRESS w)) else None | None => None end
    | None => None
    end.
Proof.
  revert p. induction path as [|j path IH]; intros p; simpl; [by destruct (word m p i)|].
  destruct (word m p j); [|done]. by destruct (test _ _).
Qed.

(** A path reads only the words on its way. *)
Lemma descend_ext m m' root path :
  (∀ path1 j path2 x, path = path1 ++ j :: path2 → descend m root path1 = Some x → word m' x j = word m x j) →
  descend m' root path = descend m root path.
Proof.
  induction path as [|j path IH] using rev_ind; intros Hw; [done|]. rewrite !descend_snoc. rewrite IH.
  - destruct (descend m root path) as [q|] eqn:E; [|done]. by rewrite (Hw path j [] q).
  - intros p1 k p2 x -> E. apply (Hw p1 k (p2 ++ [j])); [by rewrite <- app_assoc|done].
Qed.

Lemma path_ok_prefix p1 p2 : path_ok (p1 ++ p2) → path_ok p1.
Proof. intros [Hl Hf]. rewrite length_app in Hl. apply Forall_app in Hf as [? _]. split; [lia|done]. Qed.

Lemma descend_none_app m root p1 p2 : descend m root p1 = None → descend m root (p1 ++ p2) = None.
Proof.
  induction p2 as [|j p2 IH] using rev_ind; intros E; [by rewrite app_nil_r|].
  rewrite app_assoc, descend_snoc, IH; done.
Qed.

Lemma descend_app m root p1 p2 :
  descend m root (p1 ++ p2) = match descend m root p1 with Some x => descend m x p2 | None => None end.
Proof.
  revert root. induction p1 as [|j p1 IH]; intros root; simpl; [done|].
  destruct (word m root j); [|done]. by destruct (test _ _).
Qed.

Lemma zero_page_lookup i : (i < 512)%nat → zero_page !! i = Some 0.
Proof. intros. by apply lookup_replicate. Qed.

(** A fresh zeroed page [q] becomes the table of slot [i] of the table [p]. *)
Definition add_table m (p q : Z) (i : nat) (pg : page) : gmap Z page :=
  <[p := <[i := Z.lor (K2P q) PTE_TABLE]> pg]> (<[q := zero_page]> m).

Section add.
Context (m : gmap Z page) (root q : Z) (free : list Z) (π : list nat) (p : Z) (i : nat) (pg : page) (w : Z).
Hypothesis Hinv : pt_inv m root (q :: free).
Hypothesis Hq : kernel_page q.
Hypothesis Hqf : q ∉ free.
Hypothesis Hok : path_ok (π ++ [i]).
Hypothesis Hp : descend m root π = Some p.
Hypothesis Hpg : m !! p = Some pg.
Hypothesis Hw : pg !! i = Some w.
Hypothesis Hinval : test w PTE_VALID = false.
Let m' := add_table m p q i pg.

Lemma add_ne : p ≠ q.
Proof. intros ->. destruct (pv_page _ _ _ Hinv π q) as [_ Hn]; [by eapply path_ok_prefix|done|]. set_solver. Qed.

Lemma add_word_other x j : x ≠ q → (x ≠ p ∨ j ≠ i) → word m' x j = word m x j.
Proof.
  intros Hxq Hd. unfold word, m', add_table. destruct (decide (x = p)) as [->|Hne].
  - rewrite lookup_insert_eq, Hpg. destruct Hd; [done|]. by rewrite list_lookup_insert_ne.
  - by rewrite !lookup_insert_ne.
Qed.

Lemma add_descend_other path : path_ok path → ¬ (π ++ [i]) `prefix_of` path → descend m' root path = descend m root path.
Proof.
  intros Hpo Hnp. apply descend_ext. intros p1 j p2 x -> Hx. assert (path_ok p1) as Hp1 by (by eapply path_ok_prefix).
  destruct (pv_page _ _ _ Hinv _ _ Hp1 Hx) as [_ Hnf]. apply add_word_other; [set_solver|].
  destruct (decide (x = p)) as [->|]; [|by left]. right. intros ->. apply Hnp.
  rewrite (pv_inj _ _ _ Hinv p1 π p) by (done || by eapply path_ok_prefix). exists p2. by rewrite <- app_assoc.
Qed.

Lemma add_new_word : word m' p i = Some (Z.lor (K2P q) PTE_TABLE) ∧ P2K (PTE_ADDRESS (Z.lor (K2P q) PTE_TABLE)) = q ∧
  test (Z.lor (K2P q) PTE_TABLE) PTE_VALID = true.
Proof.
  destruct (kernel_page_phys q Hq) as (H1 & H2 & H3). destruct (pte_parts (K2P q) PTE_TABLE H1 H2) as [E _]; [unfold PTE_TABLE; lia|].
  split_and!.
  - unfold word, m', add_table. rewrite lookup_insert_eq. apply list_lookup_insert_eq. by eapply lookup_lt_Some.
  - by rewrite E.
  - rewrite pte_valid by (done || unfold PTE_TABLE; lia). done.
Qed.

Lemma add_descend_new rest : path_ok ((π ++ [i]) ++ rest) →
  descend m' root ((π ++ [i]) ++ rest) = match rest with [] => Some q | _ => None end.
Proof.
  intros Hpo. destruct add_new_word as (E1 & E2 & E3). rewrite descend_app, descend_snoc.
  rewrite add_descend_other, Hp, E1, E3, E2.
  - destruct rest as [|j rest]; [done|]. simpl. unfold word, m', add_table.
    rewrite lookup_insert_ne by apply add_ne. rewrite lookup_insert_eq, zero_page_lookup; [done|].
    destruct Hpo as [_ Hf]. apply Forall_app in Hf as [_ Hf]. by inversion Hf.
  - by eapply path_ok_prefix.
  - intros Hpre%prefix_length. rewrite length_app in Hpre. simpl in Hpre. lia.
Qed.

Lemma add_old rest : descend m root ((π ++ [i]) ++ rest) = None.
Proof. apply descend_none_app. rewrite descend_snoc, Hp. unfold word. by rewrite Hpg, Hw, Hinval. Qed.

Lemma add_descend path : path_ok path →
  (descend m' root path = descend m root path ∧ descend m root path ≠ Some q) ∨
  (path = π ++ [i] ∧ descend m' root path = Some q) ∨
  (descend m' root path = None ∧ descend m root path = None).
Proof.
  intros Hpo. destruct (decide ((π ++ [i]) `prefix_of` path)) as [[rest ->]|Hnp].
  - rewrite (add_descend_new rest Hpo), add_old. destruct rest; [right; left; by rewrite app_nil_r|by right; right].
  - left. split; [by apply add_descend_other|]. intros E. destruct (pv_page _ _ _ Hinv _ _ Hpo E) as [_ Hn]. set_solver.
Qed.

Lemma add_inv : pt_inv m' root free.
Proof.
  split.
  - intros path x Hpo E. destruct (add_descend path Hpo) as [[E' Hne]|[[-> E']|[E' _]]].
    + rewrite E' in E. destruct (pv_page _ _ _ Hinv _ _ Hpo E) as [(pg' & Ex & Hl) Hn]. split; [|set_solver].
      unfold m', add_table. destruct (decide (x = p)) as [->|Hxp].
      * eexists. rewrite lookup_insert_eq. split; [done|]. rewrite length_insert. congruence.
      * exists pg'. rewrite lookup_insert_ne by done. rewrite lookup_insert_ne by set_solver. done.
    + rewrite E' in E. injection E as <-. split; [|done]. exists zero_page. unfold m', add_table.
      rewrite lookup_insert_ne by apply add_ne. rewrite lookup_insert_eq. split; [done|apply length_replicate].
    + congruence.
  - intros p1 p2 x H1 H2 E1 E2.
    destruct (add_descend p1 H1) as [[F1 G1]|[[-> F1]|[F1 _]]], (add_descend p2 H2) as [[F2 G2]|[[-> F2]|[F2 _]]]; try congruence.
    rewrite F1 in E1. rewrite F2 in E2. by apply (pv_inj _ _ _ Hinv p1 p2 x).
  - intros path x j v Hpo E Ev Hv. destruct (add_descend path Hpo) as [[E' Hne]|[[-> E']|[E' _]]]; [| |congruence].
    + rewrite E' in E. destruct (decide (x = p ∧ j = i)) as [[-> ->]|Hd].
      * destruct add_new_word as [E1 _]. rewrite E1 in Ev. injection Ev as <-. exists q.
        rewrite (pv_inj _ _ _ Hinv path π p) by (done || by eapply path_ok_prefix). split; [done|].
        rewrite bool_decide_eq_false_2; [done|]. destruct Hok as [Hl _]. rewrite length_app in Hl. simpl in Hl. lia.
      * rewrite add_word_other in Ev; [by eapply (pv_entry _ _ _ Hinv)|congruence|].
        destruct (decide (x = p)); [right; intros ->; naive_solver|by left].
    + rewrite E' in E. injection E as <-. unfold word, m', add_table in Ev.
      rewrite lookup_insert_ne, lookup_insert_eq in Ev by apply add_ne. apply lookup_replicate_1 in Ev as [-> _]. done.
Qed.
End add.

(** The indices of a virtual address, and its leaf entry. *)
Definition path_of (va : Z) : list nat := [Z.to_nat (PX 3 va); Z.to_nat (PX 2 va); Z.to_nat (PX 1 va)].
Definition leaf_of (va : Z) : nat := Z.to_nat (PX 0 va).
Definition pte_of m (root va : Z) : option Z :=
  match descend m root (path_of va) with
  | Some t => match word m t (leaf_of va) with Some w => if test w PTE_VALID then Some w else None | None => None end
  | None => None
  end.

Lemma PX_range level va : 0 ≤ PX level va < 512.
Proof. unfold PX, PXMASK. change 0x1FF with (Z.ones 9). rewrite land_ones_mod by lia. apply Z.mod_pos_bound. lia. Qed.

Lemma path_of_ok va : path_ok (path_of va).
Proof.
  split; [simpl; lia|]. unfold path_of. repeat (apply Forall_cons; split); try apply Forall_nil; try done;
    match goal with |- context [PX ?l va] => pose proof (PX_range l va); lia end.
Qed.

(** A root table without entries. *)
Lemma empty_descend m root path p : m !! root = Some zero_page → path_ok path → descend m root path = Some p → path = [] ∧ p = root.
Proof.
  intros Em [_ Hf] E. destruct path as [|i path]; [by injection E as <-|]. apply Forall_cons in Hf as [Hi _].
  cbn [descend] in E. unfold word in E. by rewrite Em, zero_page_lookup in E.
Qed.
Lemma empty_pte_of m root va : m !! root = Some zero_page → pte_of m root va = None.
Proof.
  intros Em. unfold pte_of. destruct (descend m root (path_of va)) as [t|] eqn:E; [|done].
  apply (empty_descend _ _ _ _ Em) in E as [E _]; [done|apply path_of_ok].
Qed.
Lemma empty_pt_inv m root free : m !! root = Some zero_page → root ∉ free → pt_inv m root free.
Proof.
  intros Em Hf. pose proof (empty_descend m root) as Hd. split.
  - intros path p Hpo E. apply Hd in E as [-> ->]; [|done..]. split; [by exists zero_page|done].
  - intros p1 p2 p H1 H2 E1 E2. apply Hd in E1 as [-> _]; [|done..]. by apply Hd in E2 as [-> _].
  - intros path p i w Hpo E Ew Hv. apply Hd in E as [-> ->]; [|done..]. unfold word in Ew. rewrite Em in Ew.
    by apply lookup_replicate_1 in Ew as [-> _].
Qed.

Lemma add_pte_of m root q free π p i pg w va :
  pt_inv m root (q :: free) → kernel_page q → q ∉ free → path_ok (π ++ [i]) → descend m root π = Some p →
  m !! p = Some pg → pg !! i = Some w → test w PTE_VALID = false →
  pte_of (add_table m p q i pg) root va = pte_of m root va.
Proof.
  intros Hinv Hq Hqf Hok Hp Hpg Hw Hi. unfold pte_of. pose proof (path_of_ok va) as Hpo.
  destruct (add_descend m root q free π p i pg w Hinv Hq Hqf Hok Hp Hpg Hw Hi (path_of va) Hpo) as [[E Hne]|[[Epath E]|[E E0]]]; rewrite E.
  - destruct (descend m root (path_of va)) as [t|] eqn:Et; [|done]. rewrite (add_word_other m q p i pg Hpg); [done|congruence|].
    left. intros ->. pose proof (pv_inj _ _ _ Hinv (path_of va) π p Hpo (path_ok_prefix _ _ Hok) Et Hp) as <-.
    destruct Hok as [Hl _]. rewrite length_app in Hl. simpl in Hl. lia.
  - rewrite Epath, <- (app_nil_r (π ++ [i])), (add_old m root π p i pg w Hp Hpg Hw Hi).
    unfold word, add_table. rewrite lookup_insert_ne.
    + rewrite lookup_insert_eq, zero_page_lookup; [done|]. unfold leaf_of. pose proof (PX_range 0 va). lia.
    + by apply (add_ne m root q free π p i pg w).
  - by rewrite E0.
Qed.

Hypothesis Hkend : KSPACE_MASK ≤ kend.

Record vm_ok s (root : Z) (free : list Z) : Prop := {
  vo_pm : pm_inv kend s free;
  vo_lock : locked (pm_lock s) = false;
  vo_pt : pt_inv (pm_mem s) root free
}.

Definition is_table m (root x : Z) : Prop := ∃ path, path_ok path ∧ descend m root path = Some x.

(** The list of free pages may become any other that has no table of the tree. *)
Lemma pt_inv_free m root free free' : pt_inv m root free → (∀ x, is_table m root x → x ∉ free') → pt_inv m root free'.
Proof.
  intros [P1 P2 P3] H. split; [|done|done]. intros path p Hpo E. split; [by apply (P1 path)|]. apply H. by exists path.
Qed.

(** Nothing but tables and free pages changed, and only free pages became tables. *)
Record grew m (root : Z) (free : list Z) m' (free' : list Z) : Prop := {
  gr_frame : ∀ x, x ∉ free → ¬ is_table m root x → m' !! x = m !! x;
  gr_tables : ∀ x, is_table m' root x → is_table m root x ∨ x ∈ free;
  gr_free : free' `suffix_of` free
}.

Lemma grew_refl m root free : grew m root free m free.
Proof. split; [done|by left|done]. Qed.

Lemma grew_trans m root free m1 free1 m2 free2 :
  grew m root free m1 free1 → grew m1 root free1 m2 free2 → grew m root free m2 free2.
Proof.
  intros [A1 A2 A3] [B1 B2 B3].
  assert (∀ x, x ∉ free → x ∉ free1) as Hsub.
  { intros x Hx Hn. apply Hx. destruct A3 as [k ->]. set_solver. }
  split.
  - intros x Hx Ht. rewrite B1; [by apply A1|by apply Hsub|]. intros [H|H]%A2; done.
  - intros x [H|H]%B2; [by apply A2|]. right. destruct A3 as [k ->]. set_solver.
  - by etrans.
Qed.

Lemma take_path va l : (l < 3)%nat →
  take (3 - l) (path_of va) = take (3 - S l) (path_of va) ++ [Z.to_nat (PX (Z.of_nat (S l)) va)].
Proof. intros. destruct l as [|[|[|]]]; [done..|lia]. Qed.

Lemma word_read s p i w : word (pm_mem s) p i = Some w → pte_get (p, i) s = Ok w s.
Proof.
  unfold word. intros E. destruct (pm_mem s !! p) as [pg|] eqn:Ep; [|done]. by apply (read_word_Ok s p i w pg).
Qed.

Lemma add_grew m root q free π p i pg w :
  pt_inv m root (q :: free) → kernel_page q → q ∉ free → path_ok (π ++ [i]) → descend m root π = Some p →
  m !! p = Some pg → pg !! i = Some w → test w PTE_VALID = false →
  grew m root (q :: free) (add_table m p q i pg) free.
Proof.
  intros Hinv Hq Hqf Hok Hp Hpg Hw Hi. split.
  - intros x Hx Ht. unfold add_table. rewrite !lookup_insert_ne; [done|set_solver|].
    intros <-. apply Ht. exists π. split; [by eapply path_ok_prefix|done].
  - intros x (path & Hpo & E).
    destruct (add_descend m root q free π p i pg w Hinv Hq Hqf Hok Hp Hpg Hw Hi path Hpo) as [[E' _]|[[-> E']|[E' _]]].
    + left. exists path. split; [done|congruence].
    + right. rewrite E' in E. injection E as <-. set_solver.
    + congruence.
  - by exists [q].
Qed.

(** What a walk that may allocate gives: the leaf entry's place, or [NULL] when
    the memory is exhausted; no address becomes mapped. *)
Record walked s root free va (r : option pte_ptr) s' free' : Prop := {
  wk_ok : vm_ok s' root free';
  wk_grew : grew (pm_mem s) root free (pm_mem s') free';
  wk_pte : ∀ va', pte_of (pm_mem s') root va' = pte_of (pm_mem s) root va';
  wk_res : match r with
           | Some (t, i) => i = leaf_of va ∧ descend (pm_mem s') root (path_of va) = Some t
           | None => free' = [] end
}.

Lemma walk_Ok root va : ∀ level s free p,
  (level ≤ 3)%nat → vm_ok s root free → descend (pm_mem s) root (take (3 - level) (path_of va)) = Some p →
  ∃ r s' free', walk me level p va true s = Ok r s' ∧ walked s root free va r s' free' ∧
    (length free ≤ length free' + level)%nat ∧ (r = None → (length free < level)%nat).
Proof.
  induction level as [|level IH]; intros s free p Hl Hvm Hp.
  { exists (Some (p, leaf_of va)), s, free. split; [done|]. split; [|split; [lia|done]].
    split; [done|apply grew_refl|done|]. split; [done|]. done. }
  pose proof Hvm as [V1 V2 V3]. pose proof (path_of_ok va) as Hpo.
  pose proof (take_path va level ltac:(lia)) as Etk.
  assert (path_ok (take (3 - level) (path_of va))) as Hok.
  { apply (path_ok_prefix _ (drop (3 - level) (path_of va))). by rewrite take_drop. }
  rewrite Etk in Hok. destruct (pv_page _ _ _ V3 _ p (path_ok_prefix _ _ Hok) Hp) as [(pg & Epg & Hpl) Hpn].
  set (i := Z.to_nat (PX (Z.of_nat (S level)) va)) in *.
  assert (i < 512)%nat as Hi by (pose proof (PX_range (Z.of_nat (S level)) va); lia).
  destruct (lookup_lt_is_Some_2 pg i) as [w Ew]; [lia|].
  assert (word (pm_mem s) p i = Some w) as Eword by (unfold word; by rewrite Epg).
  cbn [walk]. erewrite bind_Ok by (by apply word_read). fold i. destruct (test w PTE_VALID) eqn:Et.
  - destruct (IH s free (P2K (PTE_ADDRESS w)) ltac:(lia) Hvm) as (r & s' & free' & E & Hw & Hf & Hn).
    { rewrite Etk, descend_snoc, Hp, Eword, Et. done. }
    exists r, s', free'. split; [done|]. split; [done|]. split; [lia|]. intros Hr. specialize (Hn Hr). lia.
  - cbn [negb]. destruct free as [|q free].
    + destruct (kalloc_empty kend me s V1 V2) as (s' & E & V1' & V2' & Em). erewrite bind_Ok by exact E. rewrite Z.eqb_refl.
      exists None, s', []. split; [done|]. split; [|split; [simpl; lia|simpl; lia]].
      split; [split; [done|done|by rewrite Em]|rewrite Em; apply grew_refl|by rewrite Em|done].
    + destruct (kalloc_Ok kend me s q free V1 V2) as (s1 & E & V1' & V2' & Em).
      destruct V1 as [_ Hnd Herr]. apply NoDup_cons in Hnd as [Hqf _]. apply Forall_cons in Herr as [Hq _].
      destruct (free_kernel_page q Hkend Hq) as [Hkq Hq0].
      erewrite bind_Ok by exact E. rewrite (proj2 (Z.eqb_neq _ _) Hq0).
      assert (p ≠ q) as Hpq by set_solver.
      assert (pm_mem s1 !! p = Some pg) as Epg1 by (by rewrite Em, lookup_insert_ne).
      set (s2 := set_pm_mem (<[p := <[i := Z.lor (K2P q) PTE_TABLE]> pg]> (pm_mem s1)) s1).
      assert (pte_set (p, i) (Z.lor (K2P q) PTE_TABLE) s1 = Ok () s2) as E2.
      { apply write_word_Ok; [done|lia]. }
      erewrite bind_Ok by exact E2.
      assert (pm_mem s2 = add_table (pm_mem s) p q i pg) as Em2 by (unfold s2, add_table; simpl; by rewrite Em).
      assert (vm_ok s2 root free) as Hvm2.
      { split; [|done|].
        - destruct V1' as [L1 L2 L3]. split; [|done|done]. simpl. eapply freelist_ext; [exact L1|].
          intros x Hx. rewrite lookup_insert_ne; [done|]. set_solver.
        - rewrite Em2. by apply (add_inv _ _ _ _ (take (3 - S level) (path_of va)) _ _ _ w). }
      destruct (IH s2 free q ltac:(lia) Hvm2) as (r & s' & free' & E3 & [W1 W2 W3 W4] & Hf & Hn).
      { rewrite Etk, Em2, <- (app_nil_r (_ ++ [i])). rewrite (add_descend_new _ _ q free _ p i pg w); try done.
        by rewrite app_nil_r. }
      exists r, s', free'. split; [done|]. split; [|split; [simpl; lia|intros Hr; specialize (Hn Hr); simpl; lia]].
      assert (grew (pm_mem s) root (q :: free) (pm_mem s2) free) as Hgr.
      { rewrite Em2. by apply (add_grew _ _ _ _ (take (3 - S level) (path_of va)) _ _ _ w). }
      split; [done|by eapply grew_trans| |done].
      intros va'. rewrite W3, Em2. by apply (add_pte_of _ _ _ free (take (3 - S level) (path_of va)) _ _ _ w).
Qed.

(** *** Leaf entries *)
Lemma PX_eq level va : 0 ≤ level → 0 ≤ va → PX level va = va / 4096 / 512 ^ level mod 512.
Proof.
  intros Hl Hv. unfold PX, PXMASK, PXSHIFT, PGSHIFT. change 0x1FF with (Z.ones 9). rewrite land_ones_mod by lia.
  rewrite Z.shiftr_div_pow2 by lia. rewrite Z.pow_add_r by lia. rewrite <- Z.div_div by lia.
  change (2 ^ 12) with 4096. change (2 ^ 9) with 512. by rewrite Z.pow_mul_r by lia.
Qed.

Lemma page_digits va : 0 ≤ va < 2 ^ 48 →
  va / 4096 = PX 0 va + 512 * (PX 1 va + 512 * (PX 2 va + 512 * PX 3 va)).
Proof.
  intros Hv. rewrite !PX_eq by lia. set (n := va / 4096).
  assert (0 ≤ n < 512 * 512 * 512 * 512) as Hn.
  { split; [apply Z.div_pos; lia|]. apply Z.div_lt_upper_bound; lia. }
  change (512 ^ 0) with 1. change (512 ^ 1) with 512. change (512 ^ 2) with (512 * 512). change (512 ^ 3) with (512 * 512 * 512).
  rewrite Z.div_1_r. rewrite <- !Z.div_div by lia.
  pose proof (Z.div_mod n 512 ltac:(lia)). pose proof (Z.div_mod (n / 512) 512 ltac:(lia)).
  pose proof (Z.div_mod (n / 512 / 512) 512 ltac:(lia)).
  assert (0 ≤ n / 512 / 512 / 512 < 512) as Hlast.
  { split; [repeat apply Z.div_pos; lia|]. repeat apply Z.div_lt_upper_bound; lia. }
  rewrite (Z.mod_small (n / 512 / 512 / 512)) by lia. lia.
Qed.

Lemma same_page va va' : 0 ≤ va < 2 ^ 48 → 0 ≤ va' < 2 ^ 48 →
  path_of va = path_of va' ∧ leaf_of va = leaf_of va' ↔ va / 4096 = va' / 4096.
Proof.
  intros H1 H2. split.
  - intros [Hp Hl]. unfold path_of, leaf_of in *. injection Hp as E3 E2 E1.
    pose proof (PX_range 0 va). pose proof (PX_range 1 va). pose proof (PX_range 2 va). pose proof (PX_range 3 va).
    pose proof (PX_range 0 va'). pose proof (PX_range 1 va'). pose proof (PX_range 2 va'). pose proof (PX_range 3 va').
    rewrite (page_digits va), (page_digits va') by done.
    assert (PX 0 va = PX 0 va') as -> by lia. assert (PX 1 va = PX 1 va') as -> by lia.
    assert (PX 2 va = PX 2 va') as -> by lia. by assert (PX 3 va = PX 3 va') as -> by lia.
  - intros E. unfold path_of, leaf_of. by rewrite !PX_eq, E by lia.
Qed.

(** The same tables, and no page gone. *)
Definition same_shape m root m' : Prop :=
  (∀ path, path_ok path → descend m' root path = descend m root path) ∧ (∀ y, is_Some (m !! y) → is_Some (m' !! y)).

Lemma same_shape_table m root m' x : same_shape m root m' → is_table m' root x → is_table m root x.
Proof. intros [H _] (path & Hpo & E). exists path. split; [done|]. by rewrite <- H. Qed.

Lemma same_shape_trans m root m1 m2 : same_shape m root m1 → same_shape m1 root m2 → same_shape m root m2.
Proof. intros [A1 A2] [B1 B2]. split; [intros path Hp; by rewrite B1, A1|auto]. Qed.

(** Writing the leaf entry of [va]. *)
Lemma set_leaf s root free va t w :
  vm_ok s root free → 0 ≤ va < 2 ^ 48 → descend (pm_mem s) root (path_of va) = Some t →
  (test w PTE_VALID = true → entry_form true w) →
  ∃ s', pte_set (t, leaf_of va) w s = Ok () s' ∧ vm_ok s' root free ∧ grew (pm_mem s) root free (pm_mem s') free ∧
    same_shape (pm_mem s) root (pm_mem s') ∧
    ∀ va', 0 ≤ va' < 2 ^ 48 → pte_of (pm_mem s') root va' =
      if decide (va' / 4096 = va / 4096) then (if test w PTE_VALID then Some w else None) else pte_of (pm_mem s) root va'.
Proof.
  intros [V1 V2 V3] Hva Ht Hform. destruct (pv_page _ _ _ V3 _ _ (path_of_ok va) Ht) as [(pg & Epg & Hpl) Hnf].
  assert (leaf_of va < 512)%nat as Hl by (unfold leaf_of; pose proof (PX_range 0 va); lia).
  set (m' := <[t := <[leaf_of va := w]> pg]> (pm_mem s)).
  assert (∀ x j, x ≠ t ∨ j ≠ leaf_of va → word m' x j = word (pm_mem s) x j) as Hword.
  { intros x j Hd. unfold word, m'. destruct (decide (x = t)) as [->|Hne]; [|by rewrite lookup_insert_ne].
    rewrite lookup_insert_eq, Epg. destruct Hd; [done|]. by rewrite list_lookup_insert_ne. }
  assert (∀ path, path_ok path → descend m' root path = descend (pm_mem s) root path) as Hdesc.
  { intros path Hpo. apply descend_ext. intros p1 j p2 x -> Hx. apply Hword. left. intros ->.
    pose proof (pv_inj _ _ _ V3 p1 (path_of va) t (path_ok_prefix _ _ Hpo) (path_of_ok va) Hx Ht) as ->.
    destruct Hpo as [Hlen _]. rewrite length_app in Hlen. simpl in Hlen. lia. }
  exists (set_pm_mem m' s). split; [apply write_word_Ok; [done|simpl; lia]|].
  assert (pt_inv m' root free) as Hpt.
  { split.
    - intros path x Hpo E. rewrite Hdesc in E by done. destruct (pv_page _ _ _ V3 _ _ Hpo E) as [(pg' & E' & Hl') Hn].
      split; [|done]. unfold m'. destruct (decide (x = t)) as [->|]; [|exists pg'; by rewrite lookup_insert_ne].
      eexists. rewrite lookup_insert_eq. split; [done|]. rewrite length_insert. congruence.
    - intros p1 p2 x H1 H2 E1 E2. rewrite Hdesc in E1, E2 by done. by eapply (pv_inj _ _ _ V3).
    - intros path x j v Hpo E Ev Hv. rewrite Hdesc in E by done. destruct (decide (x = t ∧ j = leaf_of va)) as [[-> ->]|Hd].
      + unfold word, m' in Ev. rewrite lookup_insert_eq, list_lookup_insert_eq in Ev by lia. injection Ev as <-.
        rewrite (pv_inj _ _ _ V3 path (path_of va) t) by (done || apply path_of_ok). by apply Hform.
      + rewrite Hword in Ev; [by eapply (pv_entry _ _ _ V3)|]. destruct (decide (x = t)); [right; intros ->; naive_solver|by left]. }
  split; [split; [|done|done]|split; [|split]].
  - destruct V1 as [L1 L2 L3]. split; [|done|done]. simpl. eapply freelist_ext; [exact L1|].
    intros x Hx. unfold m'. rewrite lookup_insert_ne; [done|]. by intros ->.
  - split; [| |done].
    + intros x Hx Hnt. simpl. unfold m'. rewrite lookup_insert_ne; [done|]. intros ->. apply Hnt. exists (path_of va).
      split; [apply path_of_ok|done].
    + intros x (path & Hpo & E). simpl in E. rewrite Hdesc in E by done. left. by exists path.
  - split; [done|]. intros y [pg' Ey]. simpl. unfold m'.
    destruct (decide (y = t)) as [->|]; [rewrite lookup_insert_eq|rewrite lookup_insert_ne by done]; eauto.
  - intros va' Hva'. unfold pte_of. cbn [pm_mem set_pm_mem]. rewrite Hdesc by apply path_of_ok. case_decide as E.
    + apply (same_page va' va) in E as [Ep El]; [|done..]. rewrite Ep, El, Ht.
      unfold word, m'. rewrite lookup_insert_eq, list_lookup_insert_eq by lia. done.
    + destruct (descend (pm_mem s) root (path_of va')) as [t'|] eqn:Et'; [|done]. rewrite Hword; [done|].
      destruct (decide (t' = t)) as [->|]; [|by left]. right. intros El. apply E. apply (same_page va' va); [done..|].
      split; [|done]. apply (pv_inj _ _ _ V3 _ _ t); [apply path_of_ok..|done|done].
Qed.

Lemma pte_of_none s root free va t :
  vm_ok s root free → descend (pm_mem s) root (path_of va) = Some t → ∃ w, word (pm_mem s) t (leaf_of va) = Some w ∧
    pte_of (pm_mem s) root va = if test w PTE_VALID then Some w else None.
Proof.
  intros [_ _ V3] Ht. destruct (pv_page _ _ _ V3 _ _ (path_of_ok va) Ht) as [(pg & Epg & Hpl) _].
  destruct (lookup_lt_is_Some_2 pg (leaf_of va)) as [w Ew]; [unfold leaf_of; pose proof (PX_range 0 va); lia|].
  assert (word (pm_mem s) t (leaf_of va) = Some w) as E by (unfold word; by rewrite Epg).
  exists w. split; [done|]. unfold pte_of. by rewrite Ht, E.
Qed.

(** The mappings of [n] pages from [a] to [pa], on top of [m]. *)
Definition mapped_range m root (a pa n va : Z) : option Z :=
  let k := va / 4096 - a / 4096 in
  if decide (0 ≤ k < n) then Some (Z.lor (pa + k * 4096) PTE_USER_DATA) else pte_of m root va.

Lemma user_data_valid x : 0 ≤ x < 2 ^ 32 → x mod 4096 = 0 → test (Z.lor x PTE_USER_DATA) PTE_VALID = true.
Proof. intros. by rewrite pte_valid by (done || vm_compute; intuition congruence). Qed.

Lemma user_entry_form x : 0 ≤ x < 2 ^ 32 → x mod 4096 = 0 → entry_form true (Z.lor x PTE_USER_DATA).
Proof.
  intros Hx Hm. exists (x + KSPACE_MASK). assert (K2P (x + KSPACE_MASK) = x) as ->.
  { unfold K2P. rewrite u64_small; lia. }
  split; [|by left]. split; [|lia]. by rewrite <- Zplus_mod_idemp_r, Z.add_0_r.
Qed.

Lemma map_loop_Ok root : ∀ n a pa s free,
  (1 ≤ n)%nat → a mod 4096 = 0 → 0 ≤ a → a + Z.of_nat n * 4096 ≤ 2 ^ 48 →
  pa mod 4096 = 0 → 0 ≤ pa → pa + Z.of_nat n * 4096 ≤ 2 ^ 32 →
  vm_ok s root free → (3 * n ≤ length free)%nat →
  (∀ k, 0 ≤ k < Z.of_nat n → pte_of (pm_mem s) root (a + k * 4096) = None) →
  ∃ s' free', map_loop me n root a (a + (Z.of_nat n - 1) * 4096) pa s = Ok true s' ∧ vm_ok s' root free' ∧
    grew (pm_mem s) root free (pm_mem s') free' ∧ (length free ≤ length free' + 3 * n)%nat ∧
    ∀ va, 0 ≤ va < 2 ^ 48 → pte_of (pm_mem s') root va = mapped_range (pm_mem s) root a pa (Z.of_nat n) va.
Proof.
  induction n as [|n IH]; intros a pa s free Hn Ha Ha0 Hamax Hpa Hpa0 Hpmax Hvm Hfree Hun; [lia|]. cbn [map_loop].
  destruct (walk_Ok root a 3 s free root ltac:(lia) Hvm eq_refl) as (r & s1 & free1 & E1 & [W1 W2 W3 W4] & Hf1 & Hnone).
  unfold my_pgdir_walk. erewrite bind_Ok by exact E1. destruct r as [[t j]|]; [|specialize (Hnone eq_refl); lia].
  destruct W4 as [-> Ht]. destruct (pte_of_none s1 root free1 a t W1 Ht) as (w & Ew & Hpw).
  rewrite W3 in Hpw. specialize (Hun 0 ltac:(lia)) as H0. rewrite Z.add_0_r in H0. rewrite H0 in Hpw.
  destruct (test w PTE_VALID) eqn:Etw; [done|].
  erewrite bind_Ok by (by apply word_read). rewrite Etw. erewrite bind_Ok by done.
  destruct (set_leaf s1 root free1 a t (Z.lor pa PTE_USER_DATA) W1 ltac:(lia) Ht (λ _, user_entry_form pa ltac:(lia) Hpa)) as (s2 & E2 & Hvm2 & Hg2 & _ & Hp2).
  erewrite bind_Ok by exact E2. rewrite user_data_valid in Hp2 by lia.
  assert (a / 4096 * 4096 = a) as Ea by (pose proof (Z.div_mod a 4096 ltac:(lia)); lia).
  destruct n as [|n].
  - replace (a + (Z.of_nat 1 - 1) * 4096) with a by lia. rewrite Z.eqb_refl. exists s2, free1. split; [done|]. split; [done|].
    split; [by eapply grew_trans|]. split; [lia|]. intros va Hva. rewrite Hp2, W3 by done. unfold mapped_range.
    destruct (decide (va / 4096 = a / 4096)) as [E|E].
    + rewrite decide_True by lia. replace (va / 4096 - a / 4096) with 0 by lia. do 2 f_equal. lia.
    + rewrite decide_False by lia. done.
  - destruct (Z.eqb_spec a (a + (Z.of_nat (S (S n)) - 1) * 4096)); [lia|].
    rewrite !u64_small by (unfold PGSIZE; lia). unfold PGSIZE.
    replace (a + (Z.of_nat (S (S n)) - 1) * 4096) with (a + 4096 + (Z.of_nat (S n) - 1) * 4096) by lia.
    assert ((a + 4096) / 4096 = a / 4096 + 1) as Ea1 by (rewrite <- (Z.mul_1_l 4096) at 1; by rewrite Z.div_add by lia).
    destruct (IH (a + 4096) (pa + 4096) s2 free1) as (s3 & free3 & E3 & Hvm3 & Hg3 & Hf3 & Hp3); try lia.
    + rewrite <- (Z.mul_1_l 4096) at 1. by rewrite Z.mod_add by lia.
    + rewrite <- (Z.mul_1_l 4096) at 1. by rewrite Z.mod_add by lia.
    + done.
    + intros k Hk. rewrite Hp2, W3 by lia. rewrite decide_False.
      * specialize (Hun (k + 1) ltac:(lia)). by replace (a + 4096 + k * 4096) with (a + (k + 1) * 4096) by lia.
      * rewrite Z.div_add by lia. lia.
    + exists s3, free3. split; [done|]. split; [done|].
      split; [eapply grew_trans; [exact W2|]; by eapply grew_trans|]. split; [lia|].
      intros va Hva. rewrite Hp3 by done. unfold mapped_range. rewrite Ea1.
      destruct (decide (va / 4096 = a / 4096)) as [E|E].
      * rewrite decide_False by lia. rewrite decide_True by lia. rewrite Hp2, decide_True by done.
        replace (va / 4096 - a / 4096) with 0 by lia. do 2 f_equal. lia.
      * destruct (decide (0 ≤ va / 4096 - a / 4096 < Z.of_nat (S (S n)))).
        -- rewrite decide_True by lia. do 2 f_equal. lia.
        -- rewrite decide_False by lia. rewrite Hp2, decide_False by done. apply W3.
Qed.

(** The number of pages that [va .. va + sz - 1] touches. *)
Definition pages_of (va sz : Z) : Z := (va + sz - 1) / 4096 - va / 4096 + 1.

(** C12. [uvm_map] on a well-formed page table maps exactly the pages that the
    range touches, each to the physical page at the same distance from [pa] with
    user-data permissions; every other virtual address translates as before; only
    table pages and pages taken from the free list change, and the table stays
    well-formed. Mapping a page that is already mapped panics, as does an empty
    range. *)
Theorem uvm_map_correct s root free va sz pa :
  vm_ok s root free → 0 < sz → 0 ≤ va → va + sz ≤ 2 ^ 48 - 4096 →
  pa mod 4096 = 0 → 0 ≤ pa → pa + pages_of va sz * 4096 ≤ 2 ^ 32 →
  ((3 * Z.to_nat (pages_of va sz) ≤ length free)%nat →
   (∀ k, 0 ≤ k < pages_of va sz → pte_of (pm_mem s) root (va + k * 4096) = None) →
   ∃ s' free', my_uvm_map me root va sz pa s = Ok 0 s' ∧ vm_ok s' root free' ∧
     grew (pm_mem s) root free (pm_mem s') free' ∧
     ∀ va', 0 ≤ va' < 2 ^ 48 → pte_of (pm_mem s') root va' = mapped_range (pm_mem s) root va pa (pages_of va sz) va') ∧
  ((3 ≤ length free)%nat → is_Some (pte_of (pm_mem s) root va) → my_uvm_map me root va sz pa s = Panic "remap") ∧
  my_uvm_map me root va 0 pa s = Panic "map:sz 0".
Proof.
  intros Hvm Hsz Hva Hmax Hpa Hpa0 Hpmax.
  assert (0 ≤ va / 4096 ≤ (va + sz - 1) / 4096) as Hle.
  { split; [apply Z.div_pos; lia|apply Z.div_le_mono; lia]. }
  assert (ROUNDDOWN va PGSIZE = va / 4096 * 4096) as Er1 by (rewrite ROUNDDOWN_eq; unfold PGSIZE; lia).
  assert (ROUNDDOWN (u64 (u64 (va + sz) - 1)) PGSIZE = (va + sz - 1) / 4096 * 4096) as Er2.
  { rewrite u64_sub_l, u64_small by lia. rewrite ROUNDDOWN_eq; unfold PGSIZE; lia. }
  pose proof (Z.mul_div_le va 4096 ltac:(lia)) as Hd1. pose proof (Z.mul_div_le (va + sz - 1) 4096 ltac:(lia)) as Hd2.
  assert (∀ x, 0 ≤ x < 2 ^ 48 → pte_of (pm_mem s) root (x / 4096 * 4096) = pte_of (pm_mem s) root x) as Hround.
  { intros x Hx. assert (0 ≤ x / 4096) by (apply Z.div_pos; lia). pose proof (Z.mul_div_le x 4096 ltac:(lia)).
    unfold pte_of. destruct (proj2 (same_page (x / 4096 * 4096) x ltac:(lia) Hx)) as [-> ->]; [|done]. by rewrite Z.div_mul. }
  assert (pages_of va sz = (va + sz - 1) / 4096 - va / 4096 + 1) as En by done. set (n := pages_of va sz) in *.
  split; [|split; [|done]].
  - intros Hf Hun.
    destruct (map_loop_Ok root (Z.to_nat n) (va / 4096 * 4096) pa s free) as (s' & free' & E & Hvm' & Hg & _ & Hp); try (done || lia).
    + by rewrite Z.mod_mul.
    + intros k Hk. rewrite <- (Hun k) by lia. pose proof (Z.mod_pos_bound va 4096 ltac:(lia)).
      pose proof (Z.div_mod va 4096 ltac:(lia)). rewrite <- (Hround (va + k * 4096)) by lia.
      rewrite Z.div_add by lia. f_equal. lia.
    + exists s', free'. split; [|split; [done|split; [done|]]].
      * unfold my_uvm_map. rewrite (proj2 (Z.eqb_neq sz 0)) by lia. erewrite bind_Ok by done. cbv zeta. rewrite Er1, Er2.
        rewrite u64_small by lia. unfold PGSIZE.
        replace ((va + sz - 1) / 4096 * 4096 - va / 4096 * 4096) with (((va + sz - 1) / 4096 - va / 4096) * 4096) by lia.
        rewrite Z.div_mul by lia. replace (S (Z.to_nat ((va + sz - 1) / 4096 - va / 4096))) with (Z.to_nat n) by lia.
        replace ((va + sz - 1) / 4096 * 4096) with (va / 4096 * 4096 + (Z.of_nat (Z.to_nat n) - 1) * 4096) by lia.
        by erewrite bind_Ok by exact E.
      * intros va' Hva'. rewrite Hp by done. unfold mapped_range. rewrite Z.div_mul, Z2Nat.id by lia. done.
  - intros Hf [w0 Hw0]. unfold my_uvm_map. rewrite (proj2 (Z.eqb_neq sz 0)) by lia. erewrite bind_Ok by done. cbv zeta.
    rewrite Er1. cbn [map_loop]. set (a := va / 4096 * 4096).
    destruct (walk_Ok root a 3 s free root ltac:(lia) Hvm eq_refl) as (r & s1 & free1 & E1 & [W1 W2 W3 W4] & Hf1 & Hnone).
    unfold my_pgdir_walk, mbind at 1, M_bind at 1. erewrite bind_Ok by exact E1.
    destruct r as [[t j]|]; [|specialize (Hnone eq_refl); lia].
    destruct W4 as [-> Ht]. destruct (pte_of_none s1 root free1 a t W1 Ht) as (w & Ew & Hpw).
    rewrite W3 in Hpw. unfold a in Hpw. rewrite Hround, Hw0 in Hpw by lia. destruct (test w PTE_VALID) eqn:Etw; [|done].
    erewrite bind_Ok by (by apply word_read). by rewrite Etw.
Qed.

(** *** Lookups and unmapping *)
Lemma walk_lookup root va : ∀ level s free p,
  (level ≤ 3)%nat → vm_ok s root free → descend (pm_mem s) root (take (3 - level) (path_of va)) = Some p →
  walk me level p va false s =
    Ok (match descend (pm_mem s) root (path_of va) with Some t => Some (t, leaf_of va) | None => None end) s.
Proof.
  induction level as [|level IH]; intros s free p Hl Hvm Hp.
  { change (take (3 - 0) (path_of va)) with (path_of va) in Hp. by rewrite Hp. }
  pose proof Hvm as [V1 V2 V3]. pose proof (path_of_ok va) as Hpo. pose proof (take_path va level ltac:(lia)) as Etk.
  assert (path_ok (take (3 - level) (path_of va))) as Hok.
  { apply (path_ok_prefix _ (drop (3 - level) (path_of va))). by rewrite take_drop. }
  rewrite Etk in Hok. destruct (pv_page _ _ _ V3 _ p (path_ok_prefix _ _ Hok) Hp) as [(pg & Epg & Hpl) Hpn].
  set (i := Z.to_nat (PX (Z.of_nat (S level)) va)) in *.
  assert (i < 512)%nat as Hi by (pose proof (PX_range (Z.of_nat (S level)) va); lia).
  destruct (lookup_lt_is_Some_2 pg i) as [w Ew]; [lia|].
  assert (word (pm_mem s) p i = Some w) as Eword by (unfold word; by rewrite Epg).
  cbn [walk]. erewrite bind_Ok by (by apply word_read). fold i. destruct (test w PTE_VALID) eqn:Et.
  - apply (IH s free); [lia|done|]. by rewrite Etk, descend_snoc, Hp, Eword, Et.
  - cbn [negb]. assert (descend (pm_mem s) root (path_of va) = None) as ->; [|done].
    rewrite <- (take_drop (3 - level) (path_of va)), Etk. apply descend_none_app. by rewrite descend_snoc, Hp, Eword, Et.
Qed.

(** A page that is neither free nor a table. *)
Record user_page m root (free : list Z) (x : Z) : Prop := {
  up_addr : err_addr kend x = false;
  up_mem : is_Some (m !! x);
  up_free : x ∉ free;
  up_table : ¬ is_table m root x
}.

Lemma kfree_user s root free x :
  vm_ok s root free → user_page (pm_mem s) root free x →
  ∃ s', kfree kend me x s = Ok () s' ∧ vm_ok s' root (x :: free) ∧
    same_shape (pm_mem s) root (pm_mem s') ∧
    (∀ va, pte_of (pm_mem s') root va = pte_of (pm_mem s) root va).
Proof.
  intros [V1 V2 V3] [U1 [pg U2] U3 U4]. destruct (free_kernel_page x Hkend U1) as [_ Hx0].
  destruct (kfree_Ok kend me s x free pg V1 V2 U1 Hx0 U3 U2) as (s' & E & V1' & V2' & Em).
  assert (∀ y, y ≠ x → ∀ j, word (pm_mem s') y j = word (pm_mem s) y j) as Hword.
  { intros y Hy j. unfold word. by rewrite Em, lookup_insert_ne. }
  assert (∀ path, path_ok path → descend (pm_mem s') root path = descend (pm_mem s) root path) as Hdesc.
  { intros path Hpo. apply descend_ext. intros p1 j p2 y -> Hy. apply Hword. intros ->. apply U4. exists p1.
    split; [by eapply path_ok_prefix|done]. }
  exists s'. split; [done|]. split; [split; [done|done|split]|split; [split; [done|]|]].
  - intros path p Hpo Ep. rewrite Hdesc in Ep by done. destruct (pv_page _ _ _ V3 _ _ Hpo Ep) as [(pg' & Epg & Hl) Hn].
    assert (p ≠ x) as Hpx by (intros ->; apply U4; by exists path). split; [|set_solver].
    exists pg'. by rewrite Em, lookup_insert_ne.
  - intros p1 p2 p H1 H2 E1 E2. rewrite Hdesc in E1, E2 by done. by eapply (pv_inj _ _ _ V3).
  - intros path y j v Hpo E1 Ev. rewrite Hdesc in E1 by done. rewrite Hword in Ev; [by eapply (pv_entry _ _ _ V3)|].
    intros ->. apply U4. by exists path.
  - intros y [pg' Ey]. rewrite Em. destruct (decide (y = x)) as [->|]; [rewrite lookup_insert_eq|rewrite lookup_insert_ne by done]; eauto.
  - intros va. unfold pte_of. rewrite Hdesc by apply path_of_ok.
    destruct (descend (pm_mem s) root (path_of va)) as [t|] eqn:Et; [|done]. rewrite Hword; [done|].
    intros ->. apply U4. exists (path_of va). split; [apply path_of_ok|done].
Qed.

Definition page_at (w : Z) : Z := P2K (PTE_ADDRESS w).

Lemma unmap_one_Ok s root free va w :
  vm_ok s root free → 0 ≤ va < 2 ^ 48 → pte_of (pm_mem s) root va = Some w → PTE_FLAGS w ≠ PTE_VALID →
  user_page (pm_mem s) root free (page_at w) →
  ∃ s', unmap_one kend me root true va s = Ok () s' ∧ vm_ok s' root (page_at w :: free) ∧
    same_shape (pm_mem s) root (pm_mem s') ∧
    (∀ va', 0 ≤ va' < 2 ^ 48 → pte_of (pm_mem s') root va' =
       if decide (va' / 4096 = va / 4096) then None else pte_of (pm_mem s) root va').
Proof.
  intros Hvm Hva Hw Hfl Hup. unfold unmap_one, my_pgdir_walk.
  erewrite bind_Ok by (by apply (walk_lookup root va 3 s free root)).
  destruct (descend (pm_mem s) root (path_of va)) as [t|] eqn:Et; [|by unfold pte_of in Hw; rewrite Et in Hw].
  destruct (pte_of_none s root free va t Hvm Et) as (w' & Ew & Hp). rewrite Hw in Hp.
  destruct (test w' PTE_VALID) eqn:Etw; [|done]. injection Hp as ->.
  erewrite bind_Ok by (by apply word_read). rewrite Etw. cbn [negb]. erewrite bind_Ok by done.
  rewrite (proj2 (Z.eqb_neq _ _) Hfl). erewrite bind_Ok by done.
  destruct (kfree_user s root free (page_at w') Hvm Hup) as (s1 & E1 & Hvm1 & Hd1 & Hp1).
  erewrite bind_Ok by exact E1. rewrite <- (proj1 Hd1) in Et by apply path_of_ok.
  destruct (set_leaf s1 root (page_at w' :: free) va t 0 Hvm1 Hva Et ltac:(done)) as (s2 & E2 & Hvm2 & _ & Hd2 & Hp2).
  exists s2. split; [done|]. split; [done|]. split; [by eapply same_shape_trans|].
  intros va' Hva'. rewrite Hp2, Hp1 by done. done.
Qed.

(** The range of [n] pages from [va] on is mapped to user pages, all different. *)
Record user_range s root (free : list Z) (va : Z) (lo n : Z) : Prop := {
  ur_page : ∀ k, lo ≤ k < n → ∃ w, pte_of (pm_mem s) root (va + k * 4096) = Some w ∧ PTE_FLAGS w ≠ PTE_VALID ∧
    user_page (pm_mem s) root free (page_at w);
  ur_inj : ∀ k j w w', lo ≤ k < n → lo ≤ j < n → pte_of (pm_mem s) root (va + k * 4096) = Some w →
    pte_of (pm_mem s) root (va + j * 4096) = Some w' → page_at w = page_at w' → k = j
}.

Lemma unmap_loop_Ok root va N : va mod 4096 = 0 → 0 ≤ va → va + N * 4096 ≤ 2 ^ 48 → ∀ n k0 s free,
  0 ≤ k0 → k0 + Z.of_nat n = N → vm_ok s root free → user_range s root free va k0 N →
  ∃ s' freed, for_loop n k0 (λ k, unmap_one kend me root true (u64 (va + k * PGSIZE));; mret (@None unit)) s = Ok None s' ∧
    vm_ok s' root (freed ++ free) ∧ length freed = n ∧
    (∀ x, x ∈ freed ↔ ∃ k w, k0 ≤ k < N ∧ pte_of (pm_mem s) root (va + k * 4096) = Some w ∧ x = page_at w) ∧
    same_shape (pm_mem s) root (pm_mem s') ∧
    ∀ va', 0 ≤ va' < 2 ^ 48 → pte_of (pm_mem s') root va' =
      if decide (k0 ≤ va' / 4096 - va / 4096 < N) then None else pte_of (pm_mem s) root va'.
Proof.
  intros Ha Hva Hmax. assert (va / 4096 * 4096 = va) as Ev by (pose proof (Z.div_mod va 4096 ltac:(lia)); lia).
  assert (∀ k, (va + k * 4096) / 4096 = va / 4096 + k) as Hk4 by (intros; by rewrite Z.div_add by lia).
  induction n as [|n IH]; intros k0 s free Hk0 HN Hvm [UR1 UR2].
  { exists s, []. split_and!; try done.
    - intros x. split; [by intros ?%elem_of_nil|]. intros (k & w & Hk & _). lia.
    - intros va' _. rewrite decide_False by lia. done. }
  cbn [for_loop]. destruct (UR1 k0 ltac:(lia)) as (w & Ew & Hfl & Hup).
  destruct (unmap_one_Ok s root free (va + k0 * 4096) w Hvm ltac:(lia) Ew Hfl Hup) as (s1 & E1 & Hvm1 & Hsh1 & Hp1).
  assert (u64 (va + k0 * PGSIZE) = va + k0 * 4096) as Eu by (unfold PGSIZE; apply u64_small; lia).
  assert (∀ k, k0 < k < N → pte_of (pm_mem s1) root (va + k * 4096) = pte_of (pm_mem s) root (va + k * 4096)) as Hk.
  { intros k Hk. rewrite Hp1 by lia. rewrite decide_False; [done|]. rewrite !Hk4. lia. }
  destruct (IH (k0 + 1) s1 (page_at w :: free) ltac:(lia) ltac:(lia) Hvm1) as (s2 & freed & E2 & Hvm2 & Hlen & Hin & Hsh2 & Hp2).
  { split.
    - intros k Hkr. destruct (UR1 k ltac:(lia)) as (w' & Ew' & Hfl' & [U1 U2 U3 U4]). exists w'. rewrite Hk by lia.
      split; [done|]. split; [done|]. split; [done|by apply Hsh1| |].
      + apply not_elem_of_cons. split; [|done]. intros E. specialize (UR2 k k0 w' w ltac:(lia) ltac:(lia) Ew' Ew E). lia.
      + intros Ht. by apply U4, (same_shape_table _ _ _ _ Hsh1).
    - intros k j w1 w2 Hk1 Hj1. rewrite !Hk by lia. intros E1' E2' Epg.
      specialize (UR2 k j w1 w2 ltac:(lia) ltac:(lia) E1' E2' Epg). lia. }
  exists s2, (freed ++ [page_at w]). split_and!.
  - rewrite Eu. unfold mbind at 1, M_bind at 1. erewrite bind_Ok by exact E1. cbn beta iota. exact E2.
  - by rewrite <- app_assoc.
  - rewrite length_app, Hlen. simpl. lia.
  - intros x. rewrite elem_of_app, Hin, list_elem_of_singleton. split.
    + intros [(k & w' & Hkr & Ew' & ->)| ->]; [|exists k0, w; split_and!; [lia|lia|done|done]].
      exists k, w'. rewrite Hk in Ew' by lia. split_and!; [lia|lia|done|done].
    + intros (k & w' & Hkr & Ew' & ->). destruct (decide (k = k0)) as [->|]; [right; congruence|].
      left. exists k, w'. rewrite Hk by lia. split_and!; [lia|lia|done|done].
  - by eapply same_shape_trans.
  - intros va' Hva'. rewrite Hp2, Hp1 by done. rewrite Hk4. repeat case_decide; try done; lia.
Qed.

(** The walk along existing tables, in any memory. *)
Lemma walk_descend va t s : ∀ level p, (level ≤ 3)%nat → descend (pm_mem s) p (drop (3 - level) (path_of va)) = Some t →
  walk me level p va false s = Ok (Some (t, leaf_of va)) s.
Proof.
  induction level as [|level IH]; intros p Hl Hd.
  { change (drop (3 - 0) (path_of va)) with (@nil nat) in Hd. by injection Hd as ->. }
  assert (drop (3 - S level) (path_of va) = Z.to_nat (PX (Z.of_nat (S level)) va) :: drop (3 - level) (path_of va)) as Ed
    by (destruct level as [|[|[|]]]; [done..|lia]).
  rewrite Ed in Hd. cbn [descend] in Hd. destruct (word (pm_mem s) p _) as [w|] eqn:Ew; [|done]. destruct (test w PTE_VALID) eqn:Et; [|done].
  cbn [walk]. erewrite bind_Ok by (by apply word_read). rewrite Et. apply IH; [lia|done].
Qed.

(** A page that cannot be unmapped. *)
Lemma unmap_one_unmapped s root free va : vm_ok s root free → pte_of (pm_mem s) root va = None →
  unmap_one kend me root true va s = Panic (if descend (pm_mem s) root (path_of va) then "not mapped" else "walk").
Proof.
  intros Hvm Hp. unfold unmap_one, my_pgdir_walk. erewrite bind_Ok by (by apply (walk_lookup root va 3 s free root)).
  destruct (descend (pm_mem s) root (path_of va)) as [t|] eqn:Et; [|done].
  destruct (pte_of_none s root free va t Hvm Et) as (w & Ew & Hw). erewrite bind_Ok by (by apply word_read). rewrite Hw in Hp.
  by destruct (test w PTE_VALID).
Qed.
Lemma unmap_one_table s root va t w : descend (pm_mem s) root (path_of va) = Some t → word (pm_mem s) t (leaf_of va) = Some w →
  test w PTE_VALID = true → PTE_FLAGS w = PTE_VALID → unmap_one kend me root true va s = Panic "not a leaf".
Proof.
  intros Ht Ew Hw Hf. unfold unmap_one, my_pgdir_walk. erewrite bind_Ok by (by eapply (walk_descend va t s 3)).
  cbn iota beta. erewrite bind_Ok by (by apply word_read). rewrite Hw. erewrite bind_Ok by done. by rewrite Hf.
Qed.
Lemma unmap_panic s0 s va n k0 root e : 0 ≤ va → 0 ≤ k0 < n → va + n * 4096 ≤ 2 ^ 48 → va mod 4096 = 0 →
  for_loop (Z.to_nat k0) 0 (λ k, unmap_one kend me root true (u64 (va + k * PGSIZE));; mret (@None unit)) s0 = Ok None s →
  unmap_one kend me root true (va + k0 * 4096) s = Panic e → uvmunmap kend me root va n true s0 = Panic e.
Proof.
  intros Hva Hk Hmax Ha E0 E. unfold uvmunmap. change (va mod PGSIZE) with (va mod 4096). rewrite Ha. cbn [negb Z.eqb]. erewrite bind_Ok by done.
  replace ((u64 (va + n * PGSIZE) - va) / PGSIZE) with n.
  2:{ unfold PGSIZE. rewrite u64_small by lia. replace (va + n * 4096 - va) with (n * 4096) by lia. by rewrite Z.div_mul. }
  replace (Z.to_nat n) with (Z.to_nat k0 + S (Z.to_nat (n - k0 - 1)))%nat by lia.
  unfold mbind at 1, M_bind at 1. erewrite for_loop_app by exact E0. cbn [for_loop].
  replace (u64 (va + (0 + Z.of_nat (Z.to_nat k0)) * PGSIZE)) with (va + k0 * 4096) by (unfold PGSIZE; rewrite u64_small; lia).
  unfold mbind, M_bind. by rewrite E.
Qed.

(** C27. [uvmunmap] with [do_free] removes exactly the mappings of the given pages
    and gives exactly the pages behind them back to the free list, once each;
    every other address translates as before and the tables stay. It panics when the start
    is not page-aligned, at the first page of the range that is not mapped (with or without
    a table for it), and at an entry that has no flag but the valid bit. *)
Theorem uvmunmap_correct s root free va n :
  vm_ok s root free → 0 ≤ va → 0 < n → va + n * 4096 ≤ 2 ^ 48 →
  (va mod 4096 = 0 → user_range s root free va 0 n →
   ∃ s' freed, uvmunmap kend me root va n true s = Ok () s' ∧ vm_ok s' root (freed ++ free) ∧
     length freed = Z.to_nat n ∧
     (∀ x, x ∈ freed ↔ ∃ k w, 0 ≤ k < n ∧ pte_of (pm_mem s) root (va + k * 4096) = Some w ∧ x = page_at w) ∧
     ∀ va', 0 ≤ va' < 2 ^ 48 → pte_of (pm_mem s') root va' =
       if decide (0 ≤ va' / 4096 - va / 4096 < n) then None else pte_of (pm_mem s) root va') ∧
  (va mod 4096 ≠ 0 → uvmunmap kend me root va n true s = Panic "not aligned") ∧
  (∀ k, va mod 4096 = 0 → 0 ≤ k < n → user_range s root free va 0 k → pte_of (pm_mem s) root (va + k * 4096) = None →
     uvmunmap kend me root va n true s =
       Panic (if descend (pm_mem s) root (path_of (va + k * 4096)) then "not mapped" else "walk")) ∧
  (∀ s1 t w, va mod 4096 = 0 → descend (pm_mem s1) root (path_of va) = Some t → word (pm_mem s1) t (leaf_of va) = Some w →
     test w PTE_VALID = true → PTE_FLAGS w = PTE_VALID → uvmunmap kend me root va n true s1 = Panic "not a leaf").
Proof.
  intros Hvm Hva Hn Hmax. split_and!.
  - intros Ha HU. destruct (unmap_loop_Ok root va n Ha Hva Hmax (Z.to_nat n) 0 s free ltac:(lia) ltac:(lia) Hvm HU)
      as (s' & freed & E & Hvm' & Hl & Hin & _ & Hp).
    exists s', freed. split; [|done]. unfold uvmunmap. change (va mod PGSIZE) with (va mod 4096). rewrite Ha. cbn [negb Z.eqb]. erewrite bind_Ok by done.
    replace ((u64 (va + n * PGSIZE) - va) / PGSIZE) with n; [by erewrite bind_Ok by exact E|].
    unfold PGSIZE. rewrite u64_small by lia. replace (va + n * 4096 - va) with (n * 4096) by lia. by rewrite Z.div_mul.
  - intros Ha. unfold uvmunmap. change (va mod PGSIZE) with (va mod 4096). by rewrite (proj2 (Z.eqb_neq _ _) Ha).
  - intros k Ha Hk HU Hp. destruct (unmap_loop_Ok root va k Ha Hva ltac:(lia) (Z.to_nat k) 0 s free ltac:(lia) ltac:(lia) Hvm HU)
      as (s' & freed & E & Hvm' & _ & _ & [Hsh _] & Hp').
    eapply (unmap_panic s s' va n k); try done. rewrite <- (Hsh (path_of (va + k * 4096)) (path_of_ok _)).
    apply (unmap_one_unmapped _ _ (freed ++ free)); [done|]. rewrite Hp' by lia. by case_decide.
  - intros s1 t w Ha Ht Ew Hw Hf. apply (unmap_panic s1 s1 va n 0); try done. rewrite Z.mul_0_l, Z.add_0_r. by eapply unmap_one_table.
Qed.

(** [uva2ka] follows the page table: for a user page it gives the kernel
    address of the physical page, for an unmapped or kernel-only page 0, without
    changing memory; an address without a leaf table is a null dereference. *)
Theorem uva2ka_correct s root free va :
  vm_ok s root free → 0 ≤ va < 2 ^ 48 →
  uva2ka me root va s =
    match descend (pm_mem s) root (path_of va), pte_of (pm_mem s) root va with
    | None, _ => Undef
    | Some _, None => Ok 0 s
    | Some _, Some w => if test w PTE_USER then Ok (page_at w) s else Ok 0 s
    end.
Proof.
  intros Hvm Hva. unfold uva2ka, my_pgdir_walk. erewrite bind_Ok by (by apply (walk_lookup root va 3 s free root)).
  destruct (descend (pm_mem s) root (path_of va)) as [t|] eqn:Et; [|done].
  destruct (pte_of_none s root free va t Hvm Et) as (w & Ew & ->). erewrite bind_Ok by done.
  erewrite bind_Ok by (by apply word_read). unfold test. destruct (Z.land w PTE_VALID =? 0); cbn [negb]; [done|].
  by destruct (Z.land w PTE_USER =? 0).
Qed.

(** Shrinking a process gives the size 0, not the new size. *)
Lemma uvm_dealloc_returns_zero s s' root base oldsz newsz r :
  newsz < oldsz → my_uvm_dealloc kend me root base oldsz newsz s = Ok r s' → r = 0.
Proof.
  intros Hlt. unfold my_uvm_dealloc. rewrite (proj2 (Z.leb_gt _ _) Hlt). intros E.
  apply bind_Ok_inv in E as (? & ? & _ & E). by injection E as <-.
Qed.
End pagetable.

(** ** A root table, a user page and three free pages *)
Definition vm_root : Z := 0xffff000000104000.
Definition vm_user : Z := 0xffff000000105000.
Definition vm_free_list : list Z := [0xffff000000101000; 0xffff000000102000; 0xffff000000103000].
Definition demo_vm : PMemory :=
  {| pm_lock := init_spinlock "pmem"; pm_head := 0xffff000000101000;
     pm_mem := {[ 0xffff000000101000 := free_page 0xffff000000102000;
                  0xffff000000102000 := free_page 0xffff000000103000;
                  0xffff000000103000 := free_page 0;
                  vm_root := zero_page; vm_user := replicate 512 7 ]} |}.

Lemma demo_vm_pm : pm_inv demo_kend demo_vm vm_free_list.
Proof.
  split.
  - do 3 (split; [done|]; split; [done|]; eexists _, _; split; [reflexivity|]; split; [done|]; split; [reflexivity|]). done.
  - by apply (bool_decide_unpack _).
  - repeat constructor.
Qed.

Lemma demo_vm_ok : vm_ok demo_kend demo_vm vm_root vm_free_list.
Proof. split; [exact demo_vm_pm|done|]. apply empty_pt_inv; [done|]. by apply (bool_decide_unpack _). Qed.

Lemma demo_pte_none va : pte_of (pm_mem demo_vm) vm_root va = None.
Proof. by apply empty_pte_of. Qed.

Lemma uvm_map_correct_witness :
  ∃ s' free', my_uvm_map 0 vm_root 0x400000 4096 (K2P vm_user) demo_vm = Ok 0 s' ∧ vm_ok demo_kend s' vm_root free' ∧
    pte_of (pm_mem s') vm_root 0x400123 = Some 0x105647.
Proof.
  destruct (uvm_map_correct demo_kend 0 ltac:(vm_compute; congruence) demo_vm vm_root vm_free_list 0x400000 4096 (K2P vm_user)) as [H _].
  - exact demo_vm_ok.
  - lia.
  - lia.
  - lia.
  - reflexivity.
  - vm_compute. congruence.
  - vm_compute. congruence.
  - destruct H as (s' & free' & E & Hvm & _ & Hp).
    + vm_compute. lia.
    + intros k _. apply demo_pte_none.
    + exists s', free'. split; [exact E|]. split; [exact Hvm|]. rewrite Hp by lia. reflexivity.
Defined.

Definition demo_mapped : PMemory :=
  match my_uvm_map 0 vm_root 0x400000 4096 (K2P vm_user) demo_vm with Ok _ s => s | _ => demo_vm end.

Lemma demo_mapped_ok : ∃ free', vm_ok demo_kend demo_mapped vm_root free' ∧
  grew (pm_mem demo_vm) vm_root vm_free_list (pm_mem demo_mapped) free' ∧
  pte_of (pm_mem demo_mapped) vm_root 0x400000 = Some 0x105647.
Proof.
  destruct (map_loop_Ok demo_kend 0 ltac:(vm_compute; congruence) vm_root 1 0x400000 (K2P vm_user) demo_vm vm_free_list)
    as (s' & free' & E & Hvm & Hg & _ & Hp).
  - lia.
  - reflexivity.
  - lia.
  - lia.
  - reflexivity.
  - vm_compute. congruence.
  - vm_compute. congruence.
  - exact demo_vm_ok.
  - simpl. lia.
  - intros k _. apply demo_pte_none.
  - assert (demo_mapped = s') as ->.
    { unfold demo_mapped, my_uvm_map. erewrite bind_Ok by done. cbv zeta.
      change (ROUNDDOWN 0x400000 PGSIZE) with 0x400000. change (ROUNDDOWN (u64 (u64 (0x400000 + 4096) - 1)) PGSIZE) with 0x400000.
      change (S (Z.to_nat (u64 (0x400000 - 0x400000) / PGSIZE))) with 1%nat. by erewrite bind_Ok by exact E. }
    exists free'. split; [done|]. split; [done|]. rewrite Hp by lia. done.
Qed.

Lemma uvmunmap_correct_witness :
  ∃ s' free', uvmunmap demo_kend 0 vm_root 0x400000 1 true demo_mapped = Ok () s' ∧ vm_ok demo_kend s' vm_root (vm_user :: free').
Proof.
  destruct demo_mapped_ok as (free' & Hvm & [G1 G2 G3] & Hp).
  destruct (uvmunmap_correct demo_kend 0 ltac:(vm_compute; congruence) demo_mapped vm_root free' 0x400000 1) as [H _].
  - exact Hvm.
  - lia.
  - lia.
  - lia.
  - destruct H as (s' & freed & E & Hvm' & Hl & Hin & _).
    + reflexivity.
    + split.
      * intros k Hk. exists 0x105647. assert (k = 0) as -> by lia. split; [exact Hp|]. split; [vm_compute; congruence|].
        split; [reflexivity|by eexists| |].
        -- intros Hx. assert (vm_user ∈ vm_free_list) as Hn by (destruct G3 as [pre ->]; apply elem_of_app; by right).
           revert Hn. apply (bool_decide_unpack _). vm_compute. exact I.
        -- intros [(path & Hpo & Ex)%(λ H, H)|Hx]%G2.
           ++ apply empty_descend in Ex as [_ Ex]; [|reflexivity|exact Hpo]. vm_compute in Ex. congruence.
           ++ revert Hx. apply (bool_decide_unpack _). vm_compute. exact I.
      * intros k j w w' Hk Hj _ _ _. lia.
    + exists s', free'. split; [exact E|]. destruct freed as [|x [|]]; try discriminate Hl.
      assert (x = vm_user) as ->; [|exact Hvm'].
      destruct (proj1 (Hin x)) as (k & w & Hk & Ew & ->); [apply list_elem_of_here|].
      assert (k = 0) as -> by lia. change (0x400000 + 0 * 4096) with 0x400000 in Ew. rewrite Hp in Ew. injection Ew as <-. reflexivity.
Defined.

Lemma uva2ka_correct_witness : uva2ka 0 vm_root 0x400000 demo_mapped = Ok vm_user demo_mapped.
Proof.
  destruct demo_mapped_ok as (free' & Hvm & _ & Hp).
  rewrite (uva2ka_correct demo_kend 0 demo_mapped vm_root free' 0x400000); [|exact Hvm|lia].
  rewrite Hp. reflexivity.
Defined.
