(* ===== verification/UserMem.v ===== *)
(** * User address spaces (core/virtual_memory.c: [uvm_copy], [copyout])

    The bytes a process sees through its page table, and what copying a whole
    address space and copying out to one do to them. *)
From S2P Require Import Prelude Locks PhysMem VirtMem.

Section usermem.
Context (kend me : Z) (Hkend : KSPACE_MASK ≤ kend).
Implicit Types (m : gmap Z page) (s : PMemory) (path : list nat) (free : list Z).

(** Only free pages differ. *)
Definition agree m m' free : Prop := ∀ x, x ∉ free → m' !! x = m !! x.

Lemma agree_word m m' free x j : agree m m' free → x ∉ free → word m' x j = word m x j.
Proof. intros H Hx. unfold word. by rewrite H. Qed.

Lemma agree_descend m m' root free path : pt_inv m root free → agree m m' free → path_ok path →
  descend m' root path = descend m root path.
Proof.
  intros Hpt Ha Hpo. apply descend_ext. intros p1 j p2 x -> Hx. apply (agree_word _ _ free); [done|].
  by eapply (pv_page _ _ _ Hpt p1), Hx; eapply path_ok_prefix.
Qed.

Lemma agree_pte_of m m' root free va : pt_inv m root free → agree m m' free → pte_of m' root va = pte_of m root va.
Proof.
  intros Hpt Ha. unfold pte_of. rewrite (agree_descend m m' root free) by (done || apply path_of_ok).
  destruct (descend m root (path_of va)) as [t|] eqn:E; [|done]. rewrite (agree_word m m' free); [done|done|].
  by eapply (pv_page _ _ _ Hpt (path_of va)), E; apply path_of_ok.
Qed.

Lemma agree_pt_inv m m' root free free' : pt_inv m root free → agree m m' free → free' ⊆ free → pt_inv m' root free'.
Proof.
  intros Hpt Ha Hf. split.
  - intros path p Hpo E. rewrite (agree_descend m m' root free) in E by done.
    destruct (pv_page _ _ _ Hpt path p Hpo E) as [(pg & Epg & Hl) Hn]. split; [exists pg; by rewrite Ha|set_solver].
  - intros p1 p2 p H1 H2 E1 E2. rewrite (agree_descend m m' root free) in E1, E2 by done. by eapply (pv_inj _ _ _ Hpt).
  - intros path p i w Hpo E. rewrite (agree_descend m m' root free) in E by done.
    rewrite (agree_word m m' free) by (done || by apply (pv_page _ _ _ Hpt path p)). by apply (pv_entry _ _ _ Hpt path).
Qed.

Lemma agree_table m m' root free x : pt_inv m root free → agree m m' free → is_table m' root x ↔ is_table m root x.
Proof.
  intros Hpt Ha. split; intros (path & Hpo & E); exists path; (split; [done|]).
  - by rewrite <- (agree_descend m m' root free).
  - by rewrite (agree_descend m m' root free).
Qed.

Lemma agree_trans m m1 m2 free free1 : agree m m1 free → agree m1 m2 free1 → free1 ⊆ free → agree m m2 free.
Proof. intros H1 H2 Hf x Hx. rewrite H2; [by apply H1|set_solver]. Qed.

(** ** Address spaces *)

(** Every mapped page is a page of memory of its own, which is neither free nor a
    page table. *)
Record uspace m (root : Z) free : Prop := {
  us_page : ∀ va w, 0 ≤ va < 2 ^ 48 → pte_of m root va = Some w →
    (∃ pg, m !! page_at w = Some pg ∧ length pg = 512%nat) ∧ page_at w ∉ free ∧ ¬ is_table m root (page_at w) ∧ page_at w ≠ NULL;
  us_inj : ∀ va va' w w', 0 ≤ va < 2 ^ 48 → 0 ≤ va' < 2 ^ 48 → pte_of m root va = Some w → pte_of m root va' = Some w' →
    page_at w = page_at w' → va / 4096 = va' / 4096
}.

(** The byte at a user address. *)
Definition ubyte m (root va : Z) : option Z :=
  match pte_of m root va with
  | Some w => match m !! page_at w with Some pg => page_bytes pg !! Z.to_nat (va mod 4096) | None => None end
  | None => None
  end.

Lemma agree_uspace m m' root free free' : pt_inv m root free → agree m m' free → free' ⊆ free → uspace m root free → uspace m' root free'.
Proof.
  intros Hpt Ha Hf [U1 U2]. split.
  - intros va w Hva. rewrite (agree_pte_of m m' root free) by done. intros E.
    destruct (U1 va w Hva E) as ((pg & Epg & Hl) & Hn & Ht & H0). rewrite (agree_table m m' root free) by done.
    split_and!; [|set_solver|done|done]. exists pg. by rewrite Ha.
  - intros va va' w w' Hva Hva'. rewrite !(agree_pte_of m m' root free) by done. by apply U2.
Qed.

Lemma agree_ubyte m m' root free va : pt_inv m root free → agree m m' free → uspace m root free → 0 ≤ va < 2 ^ 48 →
  ubyte m' root va = ubyte m root va.
Proof.
  intros Hpt Ha HU Hva. unfold ubyte. rewrite (agree_pte_of m m' root free) by done.
  destruct (pte_of m root va) as [w|] eqn:E; [|done]. by rewrite Ha by apply (us_page _ _ _ HU va w Hva E).
Qed.

Lemma user_pte_parts p : kernel_page p →
  page_at (Z.lor (K2P p) PTE_USER_DATA) = p ∧ test (Z.lor (K2P p) PTE_USER_DATA) PTE_USER = true.
Proof.
  intros Hp. destruct (kernel_page_phys p Hp) as (H1 & H2 & H3). unfold page_at.
  destruct (pte_parts (K2P p) PTE_USER_DATA H1 H2) as [E1 E2]; [by vm_compute|]. rewrite E1, H3. split; [done|].
  unfold test. rewrite Z.land_lor_distr_l. change (Z.land PTE_USER_DATA PTE_USER) with 64.
  destruct (Z.eqb_spec (Z.lor (Z.land (K2P p) PTE_USER) 64) 0) as [E|]; [|done]. by apply Z.lor_eq_0_iff in E as [_ ?].
Qed.

(** One page is mapped. *)
Lemma uvm_map_page s root free a p :
  vm_ok kend s root free → a mod 4096 = 0 → 0 ≤ a → a + 4096 ≤ 2 ^ 48 → kernel_page p → (3 ≤ length free)%nat →
  pte_of (pm_mem s) root a = None →
  ∃ s' free', my_uvm_map me root a PGSIZE (K2P p) s = Ok 0 s' ∧ vm_ok kend s' root free' ∧
    grew (pm_mem s) root free (pm_mem s') free' ∧ (length free ≤ length free' + 3)%nat ∧
    ∀ va, 0 ≤ va < 2 ^ 48 → pte_of (pm_mem s') root va =
      if decide (va / 4096 = a / 4096) then Some (Z.lor (K2P p) PTE_USER_DATA) else pte_of (pm_mem s) root va.
Proof.
  intros Hvm Ha Ha0 Hmax Hp Hf Hun. destruct (kernel_page_phys p Hp) as (H1 & H2 & H3).
  assert (K2P p + 4096 ≤ 2 ^ 32) as Hpm.
  { pose proof (Z.div_mod (K2P p) 4096 ltac:(lia)). lia. }
  assert (a / 4096 * 4096 = a) as Ea by (pose proof (Z.div_mod a 4096 ltac:(lia)); lia).
  destruct (map_loop_Ok kend me Hkend root 1 a (K2P p) s free) as (s' & free' & E & Hvm' & Hg & Hl & Hpte); try done; try lia.
  { intros k Hk. by replace (a + k * 4096) with a by lia. }
  exists s', free'. split; [|split_and!; [done|done|lia|]].
  - unfold my_uvm_map, PGSIZE. erewrite bind_Ok by done. cbv zeta. rewrite u64_sub_l, !ROUNDDOWN_eq by (rewrite ?u64_small; lia).
    rewrite (u64_small (a + 4096 - 1)) by lia. replace (a + 4096 - 1) with (a + 4095) by lia.
    assert ((a + 4095) / 4096 = a / 4096) as ->.
    { rewrite <- Ea at 1. rewrite Z.div_add_l by lia. change (4095 / 4096) with 0. lia. }
    replace (4096 * (a / 4096)) with a by lia. rewrite Z.sub_diag. change (S (Z.to_nat (u64 0 / 4096))) with 1%nat.
    replace (a + (Z.of_nat 1 - 1) * 4096) with a in E by lia. by erewrite bind_Ok by exact E.
  - intros va Hva. rewrite Hpte by done. unfold mapped_range. repeat case_decide; try lia; try done.
    do 2 f_equal. lia.
Qed.

Lemma user_page_Ok s p pg : pm_mem s !! p = Some pg → get_page p s = Ok pg s.
Proof. intros E. unfold get_page, mbind, M_bind, getS. by rewrite E. Qed.

(** A page is taken from the free list and filled. *)
Lemma kalloc_fill s root free p pg0 : vm_ok kend s root (p :: free) →
  ∃ s1, kalloc me s = Ok p s1 ∧ pm_mem s1 = <[p := zero_page]> (pm_mem s) ∧ locked (pm_lock s1) = false ∧ pm_inv kend s1 free ∧
    kernel_page p ∧ p ≠ NULL ∧ p ∉ free ∧
    let s2 := set_pm_mem (<[p := pg0]> (pm_mem s1)) s1 in
    set_page p pg0 s1 = Ok () s2 ∧ pm_mem s2 = <[p := pg0]> (pm_mem s) ∧ vm_ok kend s2 root free.
Proof.
  intros [V1 V2 V3]. destruct (kalloc_Ok kend me s p free V1 V2) as (s1 & E1 & Hp1 & Hl1 & Em1).
  pose proof (pi_nodup _ _ _ V1) as [Hnew _]%NoDup_cons. pose proof (pi_ok _ _ _ V1) as [Hok _]%Forall_cons.
  destruct (free_kernel_page kend p Hkend Hok) as [Hk H0].
  exists s1. split_and!; try done. assert (<[p := pg0]> (pm_mem s1) = <[p := pg0]> (pm_mem s)) as Em2 by (by rewrite Em1, insert_insert_eq).
  cbv zeta. split_and!.
  - unfold set_page. erewrite bind_Ok; [done|]. apply (user_page_Ok s1 p zero_page). by rewrite Em1, lookup_insert_eq.
  - done.
  - split; [|done|].
    + destruct Hp1 as [L1 L2 L3]. split; [|done|done]. simpl. eapply freelist_ext; [exact L1|].
      intros x Hx. rewrite lookup_insert_ne; [done|]. by intros ->.
    + apply (agree_pt_inv (pm_mem s) _ root (p :: free)); [done| |set_solver]. intros x Hx. cbn [pm_mem set_pm_mem].
      rewrite Em2, lookup_insert_ne; [done|set_solver].
Qed.

(** ** [uvm_copy] *)

(** The state of [uvm_copy] after [k] pages: the new tables and pages come from
    [free0], and every mapped page has the content of the page it copies. *)
Record copied m0 (root : Z) free0 (newroot k : Z) s free : Prop := {
  cp_vm : vm_ok kend s newroot free;
  cp_free : free `suffix_of` free0;
  cp_agree : agree m0 (pm_mem s) free0;
  cp_space : uspace (pm_mem s) newroot free;
  cp_tables : ∀ x, is_table (pm_mem s) newroot x → x ∈ free0;
  cp_none : ∀ va, 0 ≤ va < 2 ^ 48 → k ≤ va / 4096 → pte_of (pm_mem s) newroot va = None;
  cp_some : ∀ va, 0 ≤ va < 2 ^ 48 → va / 4096 < k → ∃ w w', pte_of m0 root va = Some w ∧ pte_of (pm_mem s) newroot va = Some w' ∧
    page_at w' ∈ free0 ∧ test w' PTE_USER = true ∧ pm_mem s !! page_at w' = m0 !! page_at w
}.

(** The page of [va] is copied to the free page [p]. *)
Lemma copy_one m0 root free0 newroot k s p free w pg :
  NoDup free0 → copied m0 root free0 newroot k s (p :: free) → 0 ≤ k → (k + 1) * 4096 ≤ 2 ^ 48 → (3 ≤ length free)%nat →
  pte_of m0 root (k * 4096) = Some w → m0 !! page_at w = Some pg → length pg = 512%nat → page_at w ∉ free0 →
  ∃ s1 s2 s3 free', kalloc me s = Ok p s1 ∧ copy_page p (page_at w) s1 = Ok () s2 ∧
    my_uvm_map me newroot (k * 4096) PGSIZE (K2P p) s2 = Ok 0 s3 ∧ copied m0 root free0 newroot (k + 1) s3 free' ∧
    (length free ≤ length free' + 3)%nat.
Proof.
  intros Hnd [C1 C2 C3 C4 C5 C6 C7] Hk Hmax Hf Ew Epg Hpl Hwf.
  destruct (kalloc_fill s newroot free p pg C1) as (s1 & E1 & Em1 & _ & _ & Hkp & Hp0 & Hpf & Es2 & Em2 & Hvm2).
  set (s2 := set_pm_mem _ s1) in *.
  assert (p ∈ free0) as Hp0f by (destruct C2 as [l ->]; set_solver).
  assert (free ⊆ free0) as Hsub by (destruct C2 as [l ->]; set_solver).
  assert (agree (pm_mem s) (pm_mem s2) (p :: free)) as Ha2.
  { intros x Hx. rewrite Em2, lookup_insert_ne; [done|set_solver]. }
  pose proof (vo_pt _ _ _ _ C1) as Hpt. pose proof (vo_pt _ _ _ _ Hvm2) as Hpt2.
  assert (∀ va, (k * 4096) / 4096 = va / 4096 ↔ k = va / 4096) as Hk4 by (intros; by rewrite Z.div_mul).
  destruct (uvm_map_page s2 newroot free (k * 4096) p Hvm2) as (s3 & free' & E3 & Hvm3 & [G1 G2 G3] & Hl3 & Hp3); try done; try lia.
  { by rewrite Z.mod_mul. }
  { rewrite (agree_pte_of (pm_mem s) _ newroot (p :: free)) by done. apply C6; [lia|]. by rewrite Z.div_mul. }
  exists s1, s2, s3, free'. split_and!; [done| |done| |done].
  { unfold copy_page. erewrite bind_Ok; [exact Es2|]. apply user_page_Ok. rewrite Em1, lookup_insert_ne by (intros ->; done). by rewrite C3. }
  destruct (user_pte_parts p Hkp) as [Epp Hup]. set (wn := Z.lor (K2P p) PTE_USER_DATA) in *.
  assert (∀ x, is_table (pm_mem s3) newroot x → is_table (pm_mem s) newroot x ∨ x ∈ free) as Htab.
  { intros x [Hx|Hx]%G2; [left|by right]. by apply (agree_table (pm_mem s) (pm_mem s2) newroot (p :: free)). }
  assert (∀ x, is_table (pm_mem s) newroot x → x ∉ p :: free) as Htf by (intros x (path & Hpo & Ex); by eapply (pv_page _ _ _ Hpt)).
  assert (∀ x, x ∉ p :: free → ¬ is_table (pm_mem s) newroot x → pm_mem s3 !! x = pm_mem s !! x) as Hfr.
  { intros x Hx Hxt. rewrite G1; [by apply Ha2|set_solver|]. by rewrite (agree_table (pm_mem s) (pm_mem s2) newroot (p :: free)). }
  assert (pm_mem s3 !! p = Some pg) as Hp3p.
  { rewrite G1, Em2, lookup_insert_eq; [done|done|]. rewrite (agree_table (pm_mem s) (pm_mem s2) newroot (p :: free)) by done.
    intros Ht%Htf. set_solver. }
  assert (∀ x, is_table (pm_mem s3) newroot x → x ≠ p) as Htp by (intros x [Hx%Htf|Hx]%Htab; [set_solver|by intros ->]).
  assert (free' ⊆ free) as Hsub' by (destruct G3 as [l ->]; set_solver).
  assert (∀ va, 0 ≤ va < 2 ^ 48 → pte_of (pm_mem s3) newroot va = if decide (va / 4096 = k) then Some wn else pte_of (pm_mem s) newroot va) as Hpte.
  { intros va Hva. rewrite Hp3, (agree_pte_of (pm_mem s) _ newroot (p :: free)) by done. by rewrite Z.div_mul. }
  split.
  - done.
  - etrans; [exact G3|]. destruct C2 as [l ->]. exists (l ++ [p]). by rewrite <- app_assoc.
  - intros x Hx. rewrite Hfr; [by apply C3|set_solver|]. by intros ?%C5.
  - split.
    + intros va w' Hva. rewrite Hpte by done. case_decide as Ek.
      * intros [= <-]. rewrite Epp. split_and!; [by exists pg|set_solver|by intros Ht%Htp|done].
      * intros E'. destruct (us_page _ _ _ C4 va w' Hva E') as ((pg' & Epg' & Hl') & Hn & Ht & H0). split_and!; [|set_solver| |done].
        -- exists pg'. by rewrite Hfr.
        -- intros [?|?]%Htab; [done|set_solver].
    + intros va va' w1 w2 Hva Hva'. rewrite !Hpte by done. repeat case_decide; try congruence.
      * intros [= <-] E2. rewrite Epp. intros ->. destruct (us_page _ _ _ C4 va' w2 Hva' E2) as (_ & Hn & _). set_solver.
      * intros E2 [= <-]. rewrite Epp. intros <-. destruct (us_page _ _ _ C4 va w1 Hva E2) as (_ & Hn & _). set_solver.
      * intros E1' E2'. by apply (us_inj _ _ _ C4).
  - intros x [Hx|Hx]%Htab; [by apply C5|set_solver].
  - intros va Hva Hle. rewrite Hpte, decide_False by (done || lia). apply C6; [done|lia].
  - intros va Hva Hlt. rewrite Hpte by done. case_decide as Ek.
    + exists w, wn. rewrite Epp. split_and!; [|done|done|done|by rewrite Hp3p].
      rewrite <- Ew. unfold pte_of. destruct (proj2 (same_page va (k * 4096) Hva ltac:(lia))) as [-> ->]; [|done]. by rewrite Z.div_mul.
    + destruct (C7 va Hva ltac:(lia)) as (w1 & w2 & H1 & H2 & H3 & H4 & H5). exists w1, w2. split_and!; try done.
      destruct (us_page _ _ _ C4 va w2 Hva H2) as (_ & Hn & Ht & _). by rewrite Hfr.
Qed.

(** Looking up the entry of an address in a table that [m0] has. *)
Lemma lookup_agree m0 root free0 s free va : pt_inv m0 root free0 → agree m0 (pm_mem s) free0 → free ⊆ free0 →
  pm_inv kend s free → locked (pm_lock s) = false →
  ∃ r, my_pgdir_walk me root va false s = Ok r s ∧
    match r with
    | None => pte_of m0 root va = None
    | Some pte => ∃ w, pte_get pte s = Ok w s ∧ pte_of m0 root va = if test w PTE_VALID then Some w else None
    end.
Proof.
  intros Hpt Ha Hf Hpm Hl. assert (vm_ok kend s root free) as Hvm by (split; [done|done|by eapply agree_pt_inv]).
  eexists. split; [by apply (walk_lookup kend me root va 3 s free root)|].
  rewrite <- (agree_pte_of m0 (pm_mem s) root free0) by done.
  destruct (descend (pm_mem s) root (path_of va)) as [t|] eqn:Et; [|unfold pte_of; by rewrite Et].
  destruct (pte_of_none kend s root free va t Hvm Et) as (w & Ew & Hw). exists w. split; [by apply word_read|done].
Qed.

(** The new root table maps nothing. *)
Lemma kalloc_copied s root newroot free : vm_ok kend s root (newroot :: free) →
  ∃ s1, kalloc me s = Ok newroot s1 ∧ copied (pm_mem s) root (newroot :: free) newroot 0 s1 free.
Proof.
  intros [V1 V2 V3]. destruct (kalloc_Ok kend me s newroot free V1 V2) as (s1 & E1 & Hp1 & Hl1 & Em1).
  pose proof (pi_nodup _ _ _ V1) as [Hnew _]%NoDup_cons. exists s1. split; [done|].
  assert (pm_mem s1 !! newroot = Some zero_page) as E0 by (by rewrite Em1, lookup_insert_eq).
  assert (∀ va, pte_of (pm_mem s1) newroot va = None) as Hnone by (intros va; by apply empty_pte_of).
  split.
  - split; [done|done|]. by apply empty_pt_inv.
  - by exists [newroot].
  - intros x Hx. rewrite Em1, lookup_insert_ne; [done|set_solver].
  - split; intros va; by rewrite Hnone.
  - intros x (path & Hpo & E). apply empty_descend in E as [_ ->]; [set_solver|done..].
  - done.
  - intros va Hva Hlt. pose proof (Z.div_pos va 4096). lia.
Qed.

Lemma uvm_copy_loop_Ok m0 root free0 newroot n : NoDup free0 → pt_inv m0 root free0 → uspace m0 root free0 →
  (n + 1) * 4096 ≤ 2 ^ 48 → (∀ k, 0 ≤ k < n → is_Some (pte_of m0 root (k * 4096))) → pte_of m0 root (n * 4096) = None →
  ∀ r fuel k s free, copied m0 root free0 newroot k s free → 0 ≤ k → k + Z.of_nat r = n → (r < fuel)%nat → (4 * r ≤ length free)%nat →
  ∃ s' free', copy_loop me fuel root newroot (k * 4096) s = Ok () s' ∧ copied m0 root free0 newroot n s' free'.
Proof.
  intros Hnd Hpt HU Hmax Hmap Hend. induction r as [|r IH]; intros fuel k s free HC Hk Hn Hfuel Hfree;
    (destruct fuel as [|fuel]; [lia|]); cbn [copy_loop]; pose proof HC as [C1 C2 C3 C4 C5 C6 C7];
    assert (free ⊆ free0) as Hsub by (destruct C2 as [l ->]; set_solver);
    destruct (lookup_agree m0 root free0 s free (k * 4096) Hpt C3 Hsub (vo_pm _ _ _ _ C1) (vo_lock _ _ _ _ C1)) as (pte & Ep & Hpte);
    erewrite bind_Ok by exact Ep.
  - assert (k = n) as -> by lia. rewrite Hend in Hpte. exists s, free. split; [|done].
    destruct pte as [pte|]; [|done]. destruct Hpte as (w & Eg & Hw). erewrite bind_Ok by exact Eg. by destruct (test w PTE_VALID).
  - destruct (Hmap k ltac:(lia)) as [w Ew]. rewrite Ew in Hpte. destruct pte as [pte|]; [|done]. destruct Hpte as (w' & Eg & Hw).
    erewrite bind_Ok by exact Eg. destruct (test w' PTE_VALID); [|done]. injection Hw as <-. cbn [negb].
    destruct free as [|p free]; [simpl in Hfree; lia|]. simpl in Hfree.
    destruct (us_page _ _ _ HU (k * 4096) w ltac:(lia) Ew) as ((pg & Epg & Hpl) & Hnf & _).
    destruct (copy_one m0 root free0 newroot k s p free w pg) as (s1 & s2 & s3 & free' & E1 & E2 & E3 & HC' & Hl'); try done; try lia.
    erewrite bind_Ok by exact E1. erewrite bind_Ok by exact E2. erewrite bind_Ok by exact E3.
    rewrite u64_small by (unfold PGSIZE; lia). replace (k * 4096 + PGSIZE) with ((k + 1) * 4096) by (unfold PGSIZE; lia).
    apply (IH fuel (k + 1) s3 free'); [done|lia..].
Qed.

(** The copy of the pages up to the first gap, with where its tables and pages come from. *)
Lemma uvm_copy_upto s root free n fuel :
  vm_ok kend s root free → uspace (pm_mem s) root free → 0 ≤ n → (n + 1) * 4096 ≤ 2 ^ 48 →
  (∀ k, 0 ≤ k < n → is_Some (pte_of (pm_mem s) root (k * 4096))) → pte_of (pm_mem s) root (n * 4096) = None →
  (1 + 4 * Z.to_nat n ≤ length free)%nat → (Z.to_nat n < fuel)%nat →
  ∃ newroot s' free', my_uvm_copy me fuel root s = Ok newroot s' ∧ newroot ≠ NULL ∧
    vm_ok kend s' newroot free' ∧ uspace (pm_mem s') newroot free' ∧ vm_ok kend s' root free' ∧ uspace (pm_mem s') root free' ∧
    agree (pm_mem s) (pm_mem s') free ∧ free' ⊆ free ∧
    (∀ x, is_table (pm_mem s') newroot x → x ∈ free) ∧ (∀ va w, 0 ≤ va < 2 ^ 48 → pte_of (pm_mem s') newroot va = Some w → page_at w ∈ free) ∧
    ∀ va, 0 ≤ va < 2 ^ 48 →
      ubyte (pm_mem s') root va = ubyte (pm_mem s) root va ∧
      ubyte (pm_mem s') newroot va = (if va <? n * 4096 then ubyte (pm_mem s) root va else None) ∧
      ∀ va' w w', 0 ≤ va' < 2 ^ 48 → pte_of (pm_mem s') root va = Some w → pte_of (pm_mem s') newroot va' = Some w' → page_at w ≠ page_at w'.
Proof.
  intros Hvm HU Hn0 Hmax Hmap Hend Hfree Hfuel. pose proof Hvm as [V1 V2 V3].
  destruct free as [|newroot free]; [simpl in Hfree; lia|]. simpl in Hfree.
  pose proof (pi_nodup _ _ _ V1) as Hnd. pose proof (kalloc_copied s root newroot free Hvm) as (s1 & E1 & HC).
  destruct (uvm_copy_loop_Ok (pm_mem s) root (newroot :: free) newroot n Hnd V3 HU Hmax Hmap Hend (Z.to_nat n) fuel 0 s1 free HC)
    as (s' & free' & E2 & [C1 C2 C3 C4 C5 C6 C7]); try lia.
  assert (free' ⊆ newroot :: free) as Hsub by (destruct C2 as [l ->]; set_solver).
  exists newroot, s', free'. split_and!; try done.
  - unfold my_uvm_copy, my_pgdir_init. erewrite bind_Ok by exact E1. by erewrite bind_Ok by exact E2.
  - pose proof (pi_ok _ _ _ V1) as [Hok _]%Forall_cons. by destruct (free_kernel_page kend newroot Hkend Hok).
  - destruct C1 as [L1 L2 L3]. split; [done|done|by eapply agree_pt_inv].
  - by eapply agree_uspace.
  - intros va w Hva Hw. destruct (decide (va / 4096 < n)) as [Hlt|Hge]; [|rewrite C6 in Hw by (done || lia); done].
    destruct (C7 va Hva Hlt) as (w1 & w2 & _ & E2' & Hin & _). congruence.
  - intros va Hva. split_and!.
    + by eapply agree_ubyte.
    + unfold ubyte. destruct (Z.ltb_spec va (n * 4096)).
      * destruct (C7 va Hva) as (w & w' & -> & -> & _ & _ & ->); [|done]. apply Z.div_lt_upper_bound; lia.
      * rewrite C6; [done|done|]. apply Z.div_le_lower_bound; lia.
    + intros va' w w' Hva' Hw Hw' E. rewrite (agree_pte_of (pm_mem s) (pm_mem s') root (newroot :: free)) in Hw by done.
      destruct (us_page _ _ _ HU va w Hva Hw) as (_ & Hnf & _). apply Hnf. rewrite E.
      destruct (decide (va' / 4096 < n)) as [Hlt|Hge]; [|rewrite C6 in Hw' by (done || lia); done].
      destruct (C7 va' Hva' Hlt) as (w1 & w2 & _ & E2' & Hin & _). congruence.
Qed.

(** Pages past a gap are not copied. *)
Lemma uvm_copy_stops_at_gap s root free n fuel va :
  vm_ok kend s root free → uspace (pm_mem s) root free → 0 ≤ n → (n + 1) * 4096 ≤ 2 ^ 48 →
  (∀ k, 0 ≤ k < n → is_Some (pte_of (pm_mem s) root (k * 4096))) → pte_of (pm_mem s) root (n * 4096) = None →
  (1 + 4 * Z.to_nat n ≤ length free)%nat → (Z.to_nat n < fuel)%nat → n * 4096 ≤ va < 2 ^ 48 →
  ∃ newroot s', my_uvm_copy me fuel root s = Ok newroot s' ∧ newroot ≠ NULL ∧ ubyte (pm_mem s') newroot va = None.
Proof.
  intros. destruct (uvm_copy_upto s root free n fuel) as (newroot & s' & free' & ? & ? & _ & _ & _ & _ & _ & _ & _ & _ & Hb); try done.
  exists newroot, s'. split_and!; try done. destruct (Hb va ltac:(lia)) as (_ & -> & _). by rewrite (proj2 (Z.ltb_ge _ _)) by lia.
Qed.

(** Without gaps, everything is. *)
Lemma uvm_copy_Ok s root free n fuel :
  vm_ok kend s root free → uspace (pm_mem s) root free → 0 ≤ n → (n + 1) * 4096 ≤ 2 ^ 48 →
  (∀ k, 0 ≤ k < n → is_Some (pte_of (pm_mem s) root (k * 4096))) →
  (∀ va, n * 4096 ≤ va < 2 ^ 48 → pte_of (pm_mem s) root va = None) →
  (1 + 4 * Z.to_nat n ≤ length free)%nat → (Z.to_nat n < fuel)%nat →
  ∃ newroot s' free', my_uvm_copy me fuel root s = Ok newroot s' ∧ newroot ≠ NULL ∧
    vm_ok kend s' newroot free' ∧ uspace (pm_mem s') newroot free' ∧ vm_ok kend s' root free' ∧ uspace (pm_mem s') root free' ∧
    agree (pm_mem s) (pm_mem s') free ∧ free' ⊆ free ∧
    (∀ x, is_table (pm_mem s') newroot x → x ∈ free) ∧ (∀ va w, 0 ≤ va < 2 ^ 48 → pte_of (pm_mem s') newroot va = Some w → page_at w ∈ free) ∧
    ∀ va, 0 ≤ va < 2 ^ 48 →
      ubyte (pm_mem s') root va = ubyte (pm_mem s) root va ∧ ubyte (pm_mem s') newroot va = ubyte (pm_mem s) root va ∧
      ∀ va' w w', 0 ≤ va' < 2 ^ 48 → pte_of (pm_mem s') root va = Some w → pte_of (pm_mem s') newroot va' = Some w' → page_at w ≠ page_at w'.
Proof.
  intros ????? Hend ??.
  destruct (uvm_copy_upto s root free n fuel) as (newroot & s' & free' & ? & ? & ? & ? & ? & ? & ? & ? & ? & ? & Hb); try done.
  { apply Hend. lia. }
  exists newroot, s', free'. split_and!; try done. intros va Hva. destruct (Hb va Hva) as (B1 & B2 & B3). split_and!; try done.
  rewrite B2. destruct (Z.ltb_spec va (n * 4096)); [done|]. unfold ubyte. by rewrite Hend by lia.
Qed.

(** C7. [uvm_copy], on a process whose memory is [n] pages from address 0 without gaps:
    the new page table is well-formed, and through it the child sees at every address
    the bytes that the parent sees, in pages of its own; the parent's own memory and
    page table are as before. *)
Theorem uvm_copy_correct s root free n fuel :
  vm_ok kend s root free → uspace (pm_mem s) root free → 0 ≤ n → (n + 1) * 4096 ≤ 2 ^ 48 →
  (∀ k, 0 ≤ k < n → is_Some (pte_of (pm_mem s) root (k * 4096))) →
  (∀ va, n * 4096 ≤ va < 2 ^ 48 → pte_of (pm_mem s) root va = None) →
  (1 + 4 * Z.to_nat n ≤ length free)%nat → (Z.to_nat n < fuel)%nat →
  ∃ newroot s' free', my_uvm_copy me fuel root s = Ok newroot s' ∧ newroot ≠ NULL ∧
    vm_ok kend s' newroot free' ∧ uspace (pm_mem s') newroot free' ∧ vm_ok kend s' root free' ∧ uspace (pm_mem s') root free' ∧
    agree (pm_mem s) (pm_mem s') free ∧
    ∀ va, 0 ≤ va < 2 ^ 48 →
      ubyte (pm_mem s') root va = ubyte (pm_mem s) root va ∧ ubyte (pm_mem s') newroot va = ubyte (pm_mem s) root va ∧
      ∀ va' w w', 0 ≤ va' < 2 ^ 48 → pte_of (pm_mem s') root va = Some w → pte_of (pm_mem s') newroot va' = Some w' → page_at w ≠ page_at w'.
Proof.
  intros. destruct (uvm_copy_Ok s root free n fuel) as (newroot & s' & free' & ? & ? & ? & ? & ? & ? & ? & _ & _ & _ & ?); try done.
  exists newroot, s', free'. done.
Qed.

(** Mapping a page that is in no use extends the address space by it. *)
Lemma map_page_uspace s root free a p pg :
  vm_ok kend s root free → uspace (pm_mem s) root free → a mod 4096 = 0 → 0 ≤ a → a + 4096 ≤ 2 ^ 48 → kernel_page p → p ≠ NULL →
  (3 ≤ length free)%nat → pte_of (pm_mem s) root a = None → pm_mem s !! p = Some pg → length pg = 512%nat → p ∉ free → ¬ is_table (pm_mem s) root p →
  (∀ va w, 0 ≤ va < 2 ^ 48 → pte_of (pm_mem s) root va = Some w → page_at w ≠ p) →
  ∃ s' free', my_uvm_map me root a PGSIZE (K2P p) s = Ok 0 s' ∧ vm_ok kend s' root free' ∧ uspace (pm_mem s') root free' ∧
    grew (pm_mem s) root free (pm_mem s') free' ∧ (length free ≤ length free' + 3)%nat ∧
    ∀ va, 0 ≤ va < 2 ^ 48 → pte_of (pm_mem s') root va =
      if decide (va / 4096 = a / 4096) then Some (Z.lor (K2P p) PTE_USER_DATA) else pte_of (pm_mem s) root va.
Proof.
  intros Hvm HU Ha Ha0 Hmax Hp Hp0 Hf Hun Epg Hpl Hpf Hpt Huse.
  destruct (uvm_map_page s root free a p Hvm Ha Ha0 Hmax Hp Hf Hun) as (s' & free' & E & Hvm' & [G1 G2 G3] & Hl & Hpte).
  exists s', free'. split_and!; try done. destruct (user_pte_parts p Hp) as [Epp _]. set (wn := Z.lor (K2P p) PTE_USER_DATA) in *.
  assert (free' ⊆ free) as Hsub by (destruct G3 as [l ->]; set_solver).
  assert (∀ x pgx, pm_mem s !! x = Some pgx → length pgx = 512%nat → x ∉ free → ¬ is_table (pm_mem s) root x → x ≠ NULL →
    (∃ pg, pm_mem s' !! x = Some pg ∧ length pg = 512%nat) ∧ x ∉ free' ∧ ¬ is_table (pm_mem s') root x ∧ x ≠ NULL) as Hkeep.
  { intros x pgx Ex Hlx Hx Ht H0. split_and!; [exists pgx; by rewrite G1|set_solver| |done]. by intros [?|?]%G2. }
  split.
  - intros va w Hva. rewrite Hpte by done. case_decide.
    + intros [= <-]. rewrite Epp. by apply (Hkeep p pg).
    + intros Ew. destruct (us_page _ _ _ HU va w Hva Ew) as ((pgx & Ex & Hlx) & Hnf & Hnt & H0). by apply (Hkeep _ pgx).
  - intros va va' w w' Hva Hva'. rewrite !Hpte by done. repeat case_decide; try congruence.
    + intros [= <-] E2. rewrite Epp. intros E3. by destruct (Huse va' w' Hva' E2).
    + intros E2 [= <-]. rewrite Epp. intros E3. by destruct (Huse va w Hva E2).
    + by apply (us_inj _ _ _ HU).
Qed.

(** ** [copyout] *)

(** Pages as bytes. *)
Lemma length_page_bytes pg : length (page_bytes pg) = (8 * length pg)%nat.
Proof. unfold page_bytes. induction pg as [|w pg IH]; [done|]. rewrite bind_cons, length_app, length_le_bytes, IH. simpl. lia. Qed.

Lemma page_bytes_range pg : Forall (λ b, 0 ≤ b < 256) (page_bytes pg).
Proof. unfold page_bytes. induction pg as [|w pg IH]; [done|]. rewrite bind_cons. apply Forall_app. split; [apply le_bytes_range|done]. Qed.

Lemma page_bytes_words n l : length l = (8 * n)%nat → Forall (λ b, 0 ≤ b < 256) l →
  page_bytes (page_words n l) = l ∧ length (page_words n l) = n.
Proof.
  revert l. induction n as [|n IH]; intros l Hl Hf; [by destruct l|]. cbn [page_words length].
  destruct (IH (drop 8 l)) as [E1 E2]; [rewrite length_drop; lia|by apply Forall_drop|]. split; [|by rewrite E2].
  unfold page_bytes in *. rewrite bind_cons, E1. replace 8%nat with (length (take 8 l)) at 1 by (rewrite length_take; lia).
  rewrite le_bytes_val by (by apply Forall_take). apply take_drop.
Qed.

Lemma splice_in_range (off : nat) (src dst : list Z) : Forall (λ b, 0 ≤ b < 256) src → Forall (λ b, 0 ≤ b < 256) dst →
  Forall (λ b, 0 ≤ b < 256) (splice off src dst).
Proof. intros Hs Hd. unfold splice. apply Forall_app. split; [by apply Forall_take|]. apply Forall_app. split; [done|by apply Forall_drop]. Qed.

Lemma store_bytes_Ok s p off src pg : pm_mem s !! p = Some pg → length pg = 512%nat → (off + length src ≤ 4096)%nat →
  Forall (λ b, 0 ≤ b < 256) src →
  ∃ pg', store_bytes p off src s = Ok () (set_pm_mem (<[p := pg']> (pm_mem s)) s) ∧ length pg' = 512%nat ∧
    page_bytes pg' = splice off src (page_bytes pg).
Proof.
  intros Ep Hl Hoff Hs. exists (page_words 512 (splice off src (page_bytes pg))).
  destruct (page_bytes_words 512 (splice off src (page_bytes pg))) as [E1 E2].
  { rewrite length_splice; rewrite length_page_bytes; lia. }
  { apply splice_in_range; [done|apply page_bytes_range]. }
  split; [|done]. unfold store_bytes. erewrite bind_Ok by (by apply user_page_Ok). rewrite decide_True by done.
  unfold set_page. by erewrite bind_Ok by (by apply user_page_Ok).
Qed.

Lemma walk_found root va t : ∀ level s free p alloc,
  (level ≤ 3)%nat → vm_ok kend s root free → descend (pm_mem s) root (take (3 - level) (path_of va)) = Some p →
  descend (pm_mem s) root (path_of va) = Some t → walk me level p va alloc s = Ok (Some (t, leaf_of va)) s.
Proof.
  induction level as [|level IH]; intros s free p alloc Hl Hvm Hp Ht.
  { change (take (3 - 0) (path_of va)) with (path_of va) in Hp. rewrite Ht in Hp. by injection Hp as ->. }
  pose proof (take_path va level ltac:(lia)) as Etk. cbn [walk].
  assert (descend (pm_mem s) root (take (3 - level) (path_of va)) ≠ None) as Hd.
  { intros Hn. rewrite <- (take_drop (3 - level) (path_of va)) in Ht. by rewrite (descend_none_app _ _ _ _ Hn) in Ht. }
  rewrite Etk, descend_snoc, Hp in Hd. destruct (word (pm_mem s) p _) as [w|] eqn:Ew; [|done].
  erewrite bind_Ok by (by apply word_read). destruct (test w PTE_VALID) eqn:Et; [|done].
  apply (IH s free); [lia|done| |done]. by rewrite Etk, descend_snoc, Hp, Ew, Et.
Qed.

Lemma uva2ka1_Ok s root free va w : vm_ok kend s root free → pte_of (pm_mem s) root va = Some w →
  uva2ka1 me root va s = Ok (page_at w) s.
Proof.
  intros Hvm Hw. unfold uva2ka1, my_pgdir_walk. destruct (descend (pm_mem s) root (path_of va)) as [t|] eqn:Et; [|by unfold pte_of in Hw; rewrite Et in Hw].
  erewrite bind_Ok by (by eapply walk_found). erewrite bind_Ok by done.
  destruct (pte_of_none kend s root free va t Hvm Et) as (w' & Ew & Hw'). rewrite Hw in Hw'. destruct (test w' PTE_VALID); [|done].
  injection Hw' as <-. by erewrite bind_Ok by (by apply word_read).
Qed.

(** Writing a page of the address space. *)
Lemma write_user_page s root free va w pg' :
  vm_ok kend s root free → uspace (pm_mem s) root free → 0 ≤ va < 2 ^ 48 → pte_of (pm_mem s) root va = Some w → length pg' = 512%nat →
  let s' := set_pm_mem (<[page_at w := pg']> (pm_mem s)) s in
  vm_ok kend s' root free ∧ uspace (pm_mem s') root free ∧
  (∀ path, path_ok path → descend (pm_mem s') root path = descend (pm_mem s) root path) ∧
  (∀ a, pte_of (pm_mem s') root a = pte_of (pm_mem s) root a) ∧
  ∀ a, 0 ≤ a < 2 ^ 48 → ubyte (pm_mem s') root a =
    if decide (a / 4096 = va / 4096) then page_bytes pg' !! Z.to_nat (a mod 4096) else ubyte (pm_mem s) root a.
Proof.
  intros [V1 V2 V3] HU Hva Hw Hpl s'. destruct (us_page _ _ _ HU va w Hva Hw) as ((pg & Epg & _) & Hnf & Hnt & H0).
  set (x := page_at w) in *.
  assert (∀ y j, y ≠ x → word (pm_mem s') y j = word (pm_mem s) y j) as Hword.
  { intros y j Hy. unfold word. cbn [s' pm_mem set_pm_mem]. by rewrite lookup_insert_ne. }
  assert (∀ path, path_ok path → descend (pm_mem s') root path = descend (pm_mem s) root path) as Hdesc.
  { intros path Hpo. apply descend_ext. intros p1 j p2 y -> Hy. apply Hword. intros ->. apply Hnt. exists p1.
    split; [by eapply path_ok_prefix|done]. }
  assert (∀ y, is_table (pm_mem s') root y ↔ is_table (pm_mem s) root y) as Htab.
  { intros y. split; intros (path & Hpo & E); exists path; (split; [done|]); [rewrite <- Hdesc by done|rewrite Hdesc by done]; done. }
  assert (∀ a, pte_of (pm_mem s') root a = pte_of (pm_mem s) root a) as Hpte.
  { intros a. unfold pte_of. rewrite Hdesc by apply path_of_ok. destruct (descend (pm_mem s) root (path_of a)) as [t|] eqn:Et; [|done].
    rewrite Hword; [done|]. intros ->. apply Hnt. exists (path_of a). split; [apply path_of_ok|done]. }
  split_and!; [split; [|done|split]|split|done|done|].
  - destruct V1 as [L1 L2 L3]. split; [|done|done]. simpl. eapply freelist_ext; [exact L1|]. intros y Hy. rewrite lookup_insert_ne; [done|]. by intros <-.
  - intros path p Hpo Ep. rewrite Hdesc in Ep by done. destruct (pv_page _ _ _ V3 _ _ Hpo Ep) as [(pgp & Epgp & Hl) Hn]. split; [|done].
    exists pgp. cbn [s' pm_mem set_pm_mem]. rewrite lookup_insert_ne; [done|]. intros <-. apply Hnt. by exists path.
  - intros p1 p2 p H1 H2 E1 E2. rewrite Hdesc in E1, E2 by done. by eapply (pv_inj _ _ _ V3).
  - intros path p i v Hpo E. rewrite Hdesc in E by done. rewrite Hword; [by apply (pv_entry _ _ _ V3 path)|].
    intros ->. apply Hnt. by exists path.
  - intros a wa Ha. rewrite Hpte, Htab. intros Ewa. destruct (us_page _ _ _ HU a wa Ha Ewa) as ((pga & Epga & Hla) & ? & ? & ?).
    split_and!; try done. cbn [s' pm_mem set_pm_mem].
    destruct (decide (page_at wa = x)) as [->|]; [rewrite lookup_insert_eq|rewrite lookup_insert_ne by done]; eauto.
  - intros a a' wa wa' Ha Ha'. rewrite !Hpte. by apply (us_inj _ _ _ HU).
  - intros a Ha. unfold ubyte. rewrite Hpte. case_decide as Ea.
    + assert (pte_of (pm_mem s) root a = Some w) as ->.
      { rewrite <- Hw. unfold pte_of. by destruct (proj2 (same_page a va Ha Hva) Ea) as [-> ->]. }
      cbn [s' pm_mem set_pm_mem]. fold x. by rewrite lookup_insert_eq.
    + destruct (pte_of (pm_mem s) root a) as [wa|] eqn:Ewa; [|done]. cbn [s' pm_mem set_pm_mem]. rewrite lookup_insert_ne; [done|].
      intros E. apply Ea. symmetry. by apply (us_inj _ _ _ HU va a w wa).
Qed.

(** The bytes [buf] are at [va]; nothing else of the address space changed, and no
    page of memory but those behind the range. *)
Record wrote s root free (va : Z) (buf : list Z) s' : Prop := {
  wr_vm : vm_ok kend s' root free;
  wr_space : uspace (pm_mem s') root free;
  wr_desc : ∀ path, path_ok path → descend (pm_mem s') root path = descend (pm_mem s) root path;
  wr_pte : ∀ a, pte_of (pm_mem s') root a = pte_of (pm_mem s) root a;
  wr_byte : ∀ a, 0 ≤ a < 2 ^ 48 → ubyte (pm_mem s') root a =
    if decide (va ≤ a < va + Z.of_nat (length buf)) then buf !! Z.to_nat (a - va) else ubyte (pm_mem s) root a;
  wr_frame : ∀ x, (∀ a w, va ≤ a < va + Z.of_nat (length buf) → pte_of (pm_mem s) root a = Some w → page_at w ≠ x) →
    pm_mem s' !! x = pm_mem s !! x
}.

Lemma wrote_nil s root free va : vm_ok kend s root free → uspace (pm_mem s) root free → wrote s root free va [] s.
Proof. intros Hvm HU. split; try done. intros a Ha. rewrite decide_False; [done|]. simpl. lia. Qed.

Lemma wrote_app s root free va b1 b2 s1 s2 : wrote s root free va b1 s1 → wrote s1 root free (va + Z.of_nat (length b1)) b2 s2 →
  wrote s root free va (b1 ++ b2) s2.
Proof.
  intros [A1 A2 A0 A3 A4 A5] [B1 B2 B0 B3 B4 B5]. split; try done.
  - intros path Hpo. by rewrite B0, A0.
  - intros a. by rewrite B3, A3.
  - intros a Ha. rewrite B4, A4 by done. rewrite length_app. repeat case_decide; try lia; try done.
    + rewrite lookup_app_r by lia. f_equal. lia.
    + by rewrite lookup_app_l by lia.
  - intros x Hx. rewrite B5, A5; [done| |].
    + intros a w Ha. apply Hx. rewrite length_app. lia.
    + intros a w Ha. rewrite A3. apply Hx. rewrite length_app. lia.
Qed.

(** The part of the range inside one page. *)
Lemma store_user_page s root free va w buf :
  vm_ok kend s root free → uspace (pm_mem s) root free → 0 ≤ va < 2 ^ 48 → pte_of (pm_mem s) root va = Some w →
  Forall (λ b, 0 ≤ b < 256) buf → buf ≠ [] → va mod 4096 + Z.of_nat (length buf) ≤ 4096 →
  ∃ s', store_bytes (page_at w) (Z.to_nat (va mod 4096)) buf s = Ok () s' ∧ wrote s root free va buf s'.
Proof.
  intros Hvm HU Hva Hw Hb Hne Hlen. destruct (us_page _ _ _ HU va w Hva Hw) as ((pg & Epg & Hpl) & _).
  pose proof (Z.mod_pos_bound va 4096 ltac:(lia)) as Hm. pose proof (Z.div_mod va 4096 ltac:(lia)) as Hdm.
  destruct (store_bytes_Ok s (page_at w) (Z.to_nat (va mod 4096)) buf pg Epg Hpl) as (pg' & E & Hpl' & Hpb); [lia|done|].
  destruct (write_user_page s root free va w pg' Hvm HU Hva Hw Hpl') as (H1 & H2 & H0 & H3 & H4).
  eexists. split; [exact E|]. split; [done|done|done|done| |].
  - intros a Ha. rewrite H4 by done. pose proof (Z.div_mod a 4096 ltac:(lia)). pose proof (Z.mod_pos_bound a 4096 ltac:(lia)).
    destruct (decide (a / 4096 = va / 4096)) as [Ea|Ea].
    + rewrite Hpb, lookup_splice by (rewrite length_page_bytes; lia). destruct (decide (va ≤ a < _)).
      * rewrite decide_True by lia. f_equal. lia.
      * rewrite decide_False by lia. unfold ubyte. assert (pte_of (pm_mem s) root a = Some w) as ->.
        { rewrite <- Hw. unfold pte_of. by destruct (proj2 (same_page a va Ha Hva) Ea) as [-> ->]. }
        by rewrite Epg.
    + rewrite decide_False; [done|]. intros Hr. apply Ea. symmetry. apply (Z.div_unique a 4096 (va / 4096) (a - 4096 * (va / 4096))); lia.
  - intros x Hx. destruct buf as [|b buf]; [done|]. cbn [pm_mem set_pm_mem]. rewrite lookup_insert_ne; [done|].
    apply (Hx va w); [simpl; lia|done].
Qed.

Lemma copyout_loop_Ok root free : ∀ fuel s va buf,
  vm_ok kend s root free → uspace (pm_mem s) root free → 0 ≤ va → va + Z.of_nat (length buf) ≤ 2 ^ 48 → (length buf < fuel)%nat →
  Forall (λ b, 0 ≤ b < 256) buf → (∀ a, va ≤ a < va + Z.of_nat (length buf) → is_Some (pte_of (pm_mem s) root a)) →
  ∃ s', copyout_loop me fuel root va buf s = Ok 0 s' ∧ wrote s root free va buf s'.
Proof.
  induction fuel as [|fuel IH]; intros s va buf Hvm HU Hva Hmax Hfuel Hb Hmap; [lia|]. cbn [copyout_loop].
  destruct (Nat.eqb_spec (length buf) 0) as [E0|E0].
  { destruct buf; [|done]. exists s. split; [done|]. by apply wrote_nil. }
  assert (ROUNDDOWN va PAGE_SIZE = 4096 * (va / 4096)) as Er by (apply ROUNDDOWN_eq; unfold PAGE_SIZE; lia).
  pose proof (Z.mod_pos_bound va 4096 ltac:(lia)) as Hm. pose proof (Z.div_mod va 4096 ltac:(lia)) as Hdm.
  cbv zeta. rewrite Er. destruct (Hmap va ltac:(lia)) as [w Hw].
  assert (pte_of (pm_mem s) root (4096 * (va / 4096)) = Some w) as Hw0.
  { rewrite <- Hw. unfold pte_of. destruct (proj2 (same_page (4096 * (va / 4096)) va ltac:(lia) ltac:(lia))) as [-> ->]; [|done].
    by rewrite Z.mul_comm, Z.div_mul. }
  erewrite bind_Ok by (by eapply uva2ka1_Ok). destruct (us_page _ _ _ HU va w ltac:(lia) Hw) as (_ & _ & _ & H0).
  rewrite (proj2 (Z.eqb_neq (page_at w) 0) H0). replace (va - 4096 * (va / 4096)) with (va mod 4096) by lia.
  set (n := Z.min (PAGE_SIZE - va mod 4096) (Z.of_nat (length buf))).
  assert (0 < n ≤ Z.of_nat (length buf) ∧ va mod 4096 + n ≤ 4096) as (Hn & Hn4) by (unfold n, PAGE_SIZE; lia).
  assert (length (take (Z.to_nat n) buf) = Z.to_nat n) as Ht by (rewrite length_take; lia).
  destruct (store_user_page s root free va w (take (Z.to_nat n) buf)) as (s1 & E1 & W1); try done; try lia.
  { by apply Forall_take. }
  { intros E. rewrite E in Ht. simpl in Ht. lia. }
  erewrite bind_Ok by exact E1.
  destruct (decide (n = Z.of_nat (length buf))) as [En|En].
  - exists s1. rewrite drop_ge by lia. rewrite take_ge in W1 by lia. split; [|done]. destruct fuel; [lia|done].
  - assert (va + n = 4096 * (va / 4096) + 4096) as Ev by (unfold n, PAGE_SIZE in *; lia).
    rewrite u64_small by (unfold PAGE_SIZE; lia).
    replace (4096 * (va / 4096) + PAGE_SIZE) with (va + Z.of_nat (length (take (Z.to_nat n) buf))) by (unfold PAGE_SIZE; lia).
    destruct (IH s1 (va + Z.of_nat (length (take (Z.to_nat n) buf))) (drop (Z.to_nat n) buf)) as (s2 & E2 & W2); rewrite ?length_drop, ?Ht; try lia.
    + apply W1.
    + apply W1.
    + by apply Forall_drop.
    + intros a Ha. rewrite (wr_pte _ _ _ _ _ _ W1). apply Hmap. lia.
    + rewrite Ht in E2, W2. exists s2. split; [done|]. rewrite <- (take_drop (Z.to_nat n) buf). eapply wrote_app; [done|]. by rewrite Ht.
Qed.

(** A page that is in no use by the address space is not touched, and stays so. *)
Lemma wrote_other s root free va buf s' x : wrote s root free va buf s' → 0 ≤ va → va + Z.of_nat (length buf) ≤ 2 ^ 48 →
  pt_inv (pm_mem s) root (x :: free) → uspace (pm_mem s) root (x :: free) →
  pt_inv (pm_mem s') root (x :: free) ∧ uspace (pm_mem s') root (x :: free) ∧ pm_mem s' !! x = pm_mem s !! x.
Proof.
  intros [W1 W2 W0 W3 W4 W5] Hva Hmax Hpt HU.
  assert (∀ a w, 0 ≤ a < 2 ^ 48 → pte_of (pm_mem s) root a = Some w → page_at w ≠ x) as Hx.
  { intros a w Ha Ew Ex. destruct (us_page _ _ _ HU a w Ha Ew) as (_ & Hn & _). rewrite Ex in Hn. set_solver. }
  split_and!; [|split|].
  - apply (pt_inv_free _ _ free); [exact (vo_pt _ _ _ _ W1)|]. intros y (path & Hpo & E).
    rewrite W0 in E by done. by apply (pv_page _ _ _ Hpt path y).
  - intros a w Ha E. destruct (us_page _ _ _ W2 a w Ha E) as (H1 & H2 & H3 & H4). split_and!; try done.
    rewrite W3 in E. specialize (Hx a w Ha E). set_solver.
  - apply W2.
  - apply W5. intros a w Ha. apply Hx. lia.
Qed.

(** Writing such a page changes nothing for the address space. *)
Lemma write_other s root free x pg : vm_ok kend s root free → pt_inv (pm_mem s) root (x :: free) → uspace (pm_mem s) root (x :: free) → x ∉ free →
  let s' := set_pm_mem (<[x := pg]> (pm_mem s)) s in
  vm_ok kend s' root free ∧ pt_inv (pm_mem s') root (x :: free) ∧ uspace (pm_mem s') root (x :: free) ∧
  (∀ a, pte_of (pm_mem s') root a = pte_of (pm_mem s) root a) ∧ ∀ a, 0 ≤ a < 2 ^ 48 → ubyte (pm_mem s') root a = ubyte (pm_mem s) root a.
Proof.
  intros [V1 V2 V3] Hpt HU Hx s'.
  assert (agree (pm_mem s) (pm_mem s') (x :: free)) as Ha by (intros y Hy; cbn [s' pm_mem set_pm_mem]; rewrite lookup_insert_ne; [done|set_solver]).
  split_and!; [split; [|done|]|..].
  - destruct V1 as [L1 L2 L3]. split; [|done|done]. simpl. eapply freelist_ext; [exact L1|]. intros y Hy. rewrite lookup_insert_ne; [done|]. by intros <-.
  - eapply agree_pt_inv; [done|done|set_solver].
  - by eapply agree_pt_inv.
  - by eapply agree_uspace.
  - intros a. by eapply agree_pte_of.
  - intros a Hr. by eapply agree_ubyte.
Qed.

(** C28. [copyout] to a range of mapped user addresses stores exactly the given bytes there, over
    page boundaries, and returns 0; every other byte of the address space, the page
    table and every other page of memory keep their content. *)
Theorem copyout_correct s root free va buf :
  vm_ok kend s root free → uspace (pm_mem s) root free → 0 ≤ va → va + Z.of_nat (length buf) ≤ 2 ^ 48 →
  Forall (λ b, 0 ≤ b < 256) buf → (∀ a, va ≤ a < va + Z.of_nat (length buf) → is_Some (pte_of (pm_mem s) root a)) →
  ∃ s', my_copyout me root va buf s = Ok 0 s' ∧ vm_ok kend s' root free ∧
    (∀ a, pte_of (pm_mem s') root a = pte_of (pm_mem s) root a) ∧
    (∀ a, 0 ≤ a < 2 ^ 48 → ubyte (pm_mem s') root a =
       if decide (va ≤ a < va + Z.of_nat (length buf)) then buf !! Z.to_nat (a - va) else ubyte (pm_mem s) root a) ∧
    ∀ x, (∀ a w, va ≤ a < va + Z.of_nat (length buf) → pte_of (pm_mem s) root a = Some w → page_at w ≠ x) → pm_mem s' !! x = pm_mem s !! x.
Proof.
  intros Hvm HU Hva Hmax Hb Hmap. destruct (copyout_loop_Ok root free (S (length buf)) s va buf) as (s' & E & []); try done.
  { lia. } by exists s'.
Qed.

(** The test of the result of [uva2ka1] for null never succeeds: an address that is not
    mapped gives the kernel address of physical address 0, where [copyout] then writes. *)
Lemma uva2ka1_not_null root va s r s' : uva2ka1 me root va s = Ok r s' → r ≠ NULL.
Proof.
  unfold uva2ka1. intros (? & ? & _ & E)%bind_Ok_inv. apply bind_Ok_inv in E as (? & ? & _ & E). apply bind_Ok_inv in E as (w & ? & _ & E).
  injection E as <- _. unfold P2K, NULL. assert (0 ≤ PTE_ADDRESS w < 2 ^ 32) as Hw.
  { unfold PTE_ADDRESS. change 0xFFFFF000 with (Z.land 0xFFFFF000 (Z.ones 32)). rewrite Z.land_assoc, Z.land_ones by lia. apply Z.mod_pos_bound. lia. }
  rewrite u64_small by (unfold KSPACE_MASK; lia). unfold KSPACE_MASK. lia.
Qed.
End usermem.

(** ** An address space of one page and thirteen free pages *)
Definition um_root : Z := 0xffff00000010F000.
Definition um_user : Z := 0xffff000000110000.
Definition um_page (k : Z) : Z := 0xffff000000101000 + k * 4096.
Definition um_free : list Z := um_page <$> seqZ 0 13.
Definition um_mem : gmap Z page :=
  <[um_root := zero_page]> (<[um_user := replicate 512 7]>
    (list_to_map ((λ k, (um_page k, free_page (if k =? 12 then NULL else um_page (k + 1)))) <$> seqZ 0 13))).
Definition um_demo : PMemory := {| pm_lock := init_spinlock "pmem"; pm_head := um_page 0; pm_mem := um_mem |}.

Lemma um_demo_pm : pm_inv demo_kend um_demo um_free.
Proof.
  split.
  - change um_free with (um_page <$> [0; 1; 2; 3; 4; 5; 6; 7; 8; 9; 10; 11; 12]). cbn [fmap list_fmap].
    do 13 (split; [done|]; split; [done|]; eexists _, _; split; [vm_compute; reflexivity|]; split; [done|]; split; [reflexivity|]). done.
  - by apply (bool_decide_unpack _).
  - by apply (bool_decide_unpack _).
Qed.

Lemma um_root_empty : um_mem !! um_root = Some zero_page.
Proof. apply lookup_insert_eq. Qed.
Lemma um_demo_descend path p : path_ok path → descend um_mem um_root path = Some p → path = [] ∧ p = um_root.
Proof. apply empty_descend, um_root_empty. Qed.
Lemma um_demo_none va : pte_of um_mem um_root va = None.
Proof. apply empty_pte_of, um_root_empty. Qed.

Lemma um_demo_ok : vm_ok demo_kend um_demo um_root um_free ∧ uspace um_mem um_root um_free.
Proof.
  split; [split; [exact um_demo_pm|done|]|split].
  - apply empty_pt_inv; [exact um_root_empty|]. by apply (bool_decide_unpack _).
  - intros va w _. by rewrite um_demo_none.
  - intros va va' w w' _ _. by rewrite um_demo_none.
Qed.

(** A process with one page at address 0. *)
Lemma um_mapped : ∃ s free, vm_ok demo_kend s um_root free ∧ uspace (pm_mem s) um_root free ∧ (10 ≤ length free)%nat ∧
  (∀ va, 0 ≤ va < 2 ^ 48 → pte_of (pm_mem s) um_root va = if decide (va / 4096 = 0) then Some 0x110647 else None) ∧
  pm_mem s !! um_user = Some (replicate 512 7) ∧ (∀ x, is_table (pm_mem s) um_root x → x = um_root ∨ x ∈ um_free) ∧ free ⊆ um_free.
Proof.
  destruct um_demo_ok as [Hvm HU].
  destruct (map_page_uspace demo_kend 0 ltac:(vm_compute; congruence) um_demo um_root um_free 0 um_user (replicate 512 7))
    as (s' & free' & _ & Hvm' & HU' & [G1 G2 G3] & Hl & Hp); try done.
  - vm_compute. lia.
  - by apply (bool_decide_unpack _).
  - intros (path & Hpo & E). apply um_demo_descend in E as [_ E]; done.
  - intros va w _. cbn [pm_mem um_demo]. by rewrite um_demo_none.
  - exists s', free'. split_and!; try done.
    + change (length um_free) with 13%nat in Hl. lia.
    + intros va Hva. rewrite Hp by done. cbn [pm_mem um_demo]. by rewrite um_demo_none.
    + rewrite G1; [done| |].
      * by apply (bool_decide_unpack _).
      * intros (path & Hpo & E). apply um_demo_descend in E as [_ E]; done.
    + intros x [(path & Hpo & E)|Hx]%G2; [|by right]. apply um_demo_descend in E as [_ E]; [by left|done].
    + destruct G3 as [l ->]. intros x Hx. apply elem_of_app. by right.
Qed.

(** The same with a kernel page for a trap frame. *)
Definition tf_page : Z := 0xffff000000120000.
Lemma um_tf : ∃ m free, vm_ok demo_kend m um_root free ∧ pt_inv (pm_mem m) um_root (tf_page :: free) ∧
  uspace (pm_mem m) um_root (tf_page :: free) ∧ tf_page ∉ free ∧ (10 ≤ length free)%nat ∧
  (∀ va, 0 ≤ va < 2 ^ 48 → pte_of (pm_mem m) um_root va = if decide (va / 4096 = 0) then Some 0x110647 else None) ∧
  pm_mem m !! tf_page = Some zero_page.
Proof.
  destruct um_mapped as (m & free & Hvm & HU & Hl & Hp & _ & Ht & Hf).
  assert (tf_page ∉ free) as Htf by (intros H%Hf; revert H; by apply (bool_decide_unpack _)).
  assert (∀ x, is_table (pm_mem m) um_root x → x ≠ tf_page) as Htt.
  { intros x [->|Hx]%Ht; [done|]. intros ->. revert Hx. by apply (bool_decide_unpack _). }
  assert (pt_inv (pm_mem m) um_root (tf_page :: free)) as Hpt.
  { apply (pt_inv_free _ _ free); [exact (vo_pt _ _ _ _ Hvm)|]. intros x Hx. apply not_elem_of_cons. split; [by apply Htt|].
    destruct Hx as (path & Hpo & E). by apply (pv_page _ _ _ (vo_pt _ _ _ _ Hvm) path x). }
  assert (uspace (pm_mem m) um_root (tf_page :: free)) as HU'.
  { split; [|apply HU]. intros va w Hva E. destruct (us_page _ _ _ HU va w Hva E) as (H1 & H2 & H3 & H4). split_and!; try done.
    apply not_elem_of_cons. split; [|done]. rewrite Hp in E by done. case_decide; [|done]. by injection E as <-. }
  destruct (write_other demo_kend ltac:(vm_compute; congruence) m um_root free tf_page zero_page Hvm Hpt HU' Htf) as (W1 & W2 & W3 & W4 & _).
  eexists _, free. split_and!; [exact W1|exact W2|exact W3|done|done| |apply lookup_insert_eq].
  intros va Hva. by rewrite W4, Hp.
Qed.

Lemma uvm_copy_correct_witness :
  ∃ s newroot s', my_uvm_copy 0 2 um_root s = Ok newroot s' ∧ newroot ≠ NULL ∧
    ubyte (pm_mem s') newroot 16 = Some 7 ∧ ubyte (pm_mem s') newroot 4096 = None ∧ ubyte (pm_mem s') um_root 16 = Some 7.
Proof.
  destruct um_mapped as (s & free & Hvm & HU & Hl & Hp & Hu & _). exists s.
  destruct (uvm_copy_correct demo_kend 0 ltac:(vm_compute; congruence) s um_root free 1 2)
    as (newroot & s' & free' & E & Hn & _ & _ & _ & _ & _ & Hb).
  - exact Hvm.
  - exact HU.
  - lia.
  - lia.
  - intros k Hk. assert (k = 0) as -> by lia. rewrite Hp by lia. eexists. reflexivity.
  - intros va Hva. rewrite Hp by lia. rewrite decide_False; [reflexivity|]. pose proof (Z.div_le_lower_bound va 4096 1 ltac:(lia)). lia.
  - lia.
  - lia.
  - exists newroot, s'. split; [exact E|]. split; [exact Hn|].
    assert (ubyte (pm_mem s) um_root 16 = Some 7) as E7.
    { unfold ubyte. assert (pte_of (pm_mem s) um_root 16 = Some 0x110647) as -> by (rewrite Hp by lia; reflexivity).
      change (pm_mem s !! page_at 0x110647) with (pm_mem s !! um_user). rewrite Hu. reflexivity. }
    destruct (Hb 16 ltac:(lia)) as (H1 & H2 & _). destruct (Hb 4096 ltac:(lia)) as (_ & H3 & _).
    rewrite H1, H2, H3. split; [exact E7|]. split; [|exact E7]. unfold ubyte. rewrite Hp by lia. reflexivity.
Defined.

Lemma copyout_correct_witness :
  ∃ s s', my_copyout 0 um_root 100 [1; 2; 3] s = Ok 0 s' ∧ ubyte (pm_mem s') um_root 101 = Some 2 ∧
    ubyte (pm_mem s') um_root 103 = ubyte (pm_mem s) um_root 103.
Proof.
  destruct um_mapped as (s & free & Hvm & HU & Hl & Hp & Hu & _). exists s.
  destruct (copyout_correct demo_kend 0 s um_root free 100 [1; 2; 3]) as (s' & E & _ & _ & Hb & _).
  - exact Hvm.
  - exact HU.
  - lia.
  - simpl. lia.
  - repeat constructor; lia.
  - simpl. intros a Ha. rewrite Hp by lia. rewrite decide_True by (apply Z.div_small; lia). eexists. reflexivity.
  - exists s'. split; [exact E|]. split; (rewrite Hb by lia; reflexivity).
Defined.
