(* ===== verification/KernelPt.v ===== *)
(** * The page table of the kernel (aarch64/kernel_pt.c, aarch64/mmu.h, start.S)

    The three constant tables of the kernel, the translation that the MMU does with
    them and with the table of a process, and what follows for protection: the kernel
    sees the physical memory and the devices at fixed addresses, and a user program
    reaches the pages of its own process only. *)
From S2P Require Import Prelude Locks PhysMem VirtMem UserMem.

Definition MT_DEVICE_nGnRnE : Z := 0x0.
Definition MT_NORMAL : Z := 0x1.
Definition MT_NORMAL_NC : Z := 0x2.
Definition MT_DEVICE_nGnRnE_FLAGS : Z := 0x00.
Definition MT_NORMAL_FLAGS : Z := 0xFF.
Definition MT_NORMAL_NC_FLAGS : Z := 0x44.
Definition AF_USED : Z := Z.shiftl 1 10.
Definition PTE_DEVICE : Z := Z.lor (Z.shiftl MT_DEVICE_nGnRnE 2) AF_USED.
Definition PTE_BLOCK : Z := 0x1.
Definition PTE_KERNEL : Z := Z.shiftl 0 6.
Definition PTE_KERNEL_DATA : Z := Z.lor (Z.lor PTE_KERNEL PTE_NORMAL) PTE_BLOCK.
Definition PTE_KERNEL_DEVICE : Z := Z.lor (Z.lor PTE_KERNEL PTE_DEVICE) PTE_BLOCK.
(** The register [mair_el1] as start.S sets it: a byte of attributes per index. *)
Definition MAIR_VALUE : Z :=
  Z.lor (Z.lor (Z.shiftl MT_DEVICE_nGnRnE_FLAGS (8 * MT_DEVICE_nGnRnE)) (Z.shiftl MT_NORMAL_FLAGS (8 * MT_NORMAL)))
    (Z.shiftl MT_NORMAL_NC_FLAGS (8 * MT_NORMAL_NC)).

(** ** The tables

    An initialiser that is shorter than the array leaves zeros. *)
Definition dat (a : Z) : Z := Z.lor a PTE_KERNEL_DATA.
Definition dev (a : Z) : Z := Z.lor a PTE_KERNEL_DEVICE.
Definition pt_entries (l : list Z) : page := l ++ replicate (512 - length l) 0.
Definition _kernel_pt_level3 : page := pt_entries [
  dat 0x0; dat 0x200000; dat 0x400000;
  dat 0x600000; dat 0x800000; dat 0xa00000;
  dat 0xc00000; dat 0xe00000; dat 0x1000000;
  dat 0x1200000; dat 0x1400000; dat 0x1600000;
  dat 0x1800000; dat 0x1a00000; dat 0x1c00000;
  dat 0x1e00000; dat 0x2000000; dat 0x2200000;
  dat 0x2400000; dat 0x2600000; dat 0x2800000;
  dat 0x2a00000; dat 0x2c00000; dat 0x2e00000;
  dat 0x3000000; dat 0x3200000; dat 0x3400000;
  dat 0x3600000; dat 0x3800000; dat 0x3a00000;
  dat 0x3c00000; dat 0x3e00000; dat 0x4000000;
  dat 0x4200000; dat 0x4400000; dat 0x4600000;
  dat 0x4800000; dat 0x4a00000; dat 0x4c00000;
  dat 0x4e00000; dat 0x5000000; dat 0x5200000;
  dat 0x5400000; dat 0x5600000; dat 0x5800000;
  dat 0x5a00000; dat 0x5c00000; dat 0x5e00000;
  dat 0x6000000; dat 0x6200000; dat 0x6400000;
  dat 0x6600000; dat 0x6800000; dat 0x6a00000;
  dat 0x6c00000; dat 0x6e00000; dat 0x7000000;
  dat 0x7200000; dat 0x7400000; dat 0x7600000;
  dat 0x7800000; dat 0x7a00000; dat 0x7c00000;
  dat 0x7e00000; dat 0x8000000; dat 0x8200000;
  dat 0x8400000; dat 0x8600000; dat 0x8800000;
  dat 0x8a00000; dat 0x8c00000; dat 0x8e00000;
  dat 0x9000000; dat 0x9200000; dat 0x9400000;
  dat 0x9600000; dat 0x9800000; dat 0x9a00000;
  dat 0x9c00000; dat 0x9e00000; dat 0xa000000;
  dat 0xa200000; dat 0xa400000; dat 0xa600000;
  dat 0xa800000; dat 0xaa00000; dat 0xac00000;
  dat 0xae00000; dat 0xb000000; dat 0xb200000;
  dat 0xb400000; dat 0xb600000; dat 0xb800000;
  dat 0xba00000; dat 0xbc00000; dat 0xbe00000;
  dat 0xc000000; dat 0xc200000; dat 0xc400000;
  dat 0xc600000; dat 0xc800000; dat 0xca00000;
  dat 0xcc00000; dat 0xce00000; dat 0xd000000;
  dat 0xd200000; dat 0xd400000; dat 0xd600000;
  dat 0xd800000; dat 0xda00000; dat 0xdc00000;
  dat 0xde00000; dat 0xe000000; dat 0xe200000;
  dat 0xe400000; dat 0xe600000; dat 0xe800000;
  dat 0xea00000; dat 0xec00000; dat 0xee00000;
  dat 0xf000000; dat 0xf200000; dat 0xf400000;
  dat 0xf600000; dat 0xf800000; dat 0xfa00000;
  dat 0xfc00000; dat 0xfe00000; dat 0x10000000;
  dat 0x10200000; dat 0x10400000; dat 0x10600000;
  dat 0x10800000; dat 0x10a00000; dat 0x10c00000;
  dat 0x10e00000; dat 0x11000000; dat 0x11200000;
  dat 0x11400000; dat 0x11600000; dat 0x11800000;
  dat 0x11a00000; dat 0x11c00000; dat 0x11e00000;
  dat 0x12000000; dat 0x12200000; dat 0x12400000;
  dat 0x12600000; dat 0x12800000; dat 0x12a00000;
  dat 0x12c00000; dat 0x12e00000; dat 0x13000000;
  dat 0x13200000; dat 0x13400000; dat 0x13600000;
  dat 0x13800000; dat 0x13a00000; dat 0x13c00000;
  dat 0x13e00000; dat 0x14000000; dat 0x14200000;
  dat 0x14400000; dat 0x14600000; dat 0x14800000;
  dat 0x14a00000; dat 0x14c00000; dat 0x14e00000;
  dat 0x15000000; dat 0x15200000; dat 0x15400000;
  dat 0x15600000; dat 0x15800000; dat 0x15a00000;
  dat 0x15c00000; dat 0x15e00000; dat 0x16000000;
  dat 0x16200000; dat 0x16400000; dat 0x16600000;
  dat 0x16800000; dat 0x16a00000; dat 0x16c00000;
  dat 0x16e00000; dat 0x17000000; dat 0x17200000;
  dat 0x17400000; dat 0x17600000; dat 0x17800000;
  dat 0x17a00000; dat 0x17c00000; dat 0x17e00000;
  dat 0x18000000; dat 0x18200000; dat 0x18400000;
  dat 0x18600000; dat 0x18800000; dat 0x18a00000;
  dat 0x18c00000; dat 0x18e00000; dat 0x19000000;
  dat 0x19200000; dat 0x19400000; dat 0x19600000;
  dat 0x19800000; dat 0x19a00000; dat 0x19c00000;
  dat 0x19e00000; dat 0x1a000000; dat 0x1a200000;
  dat 0x1a400000; dat 0x1a600000; dat 0x1a800000;
  dat 0x1aa00000; dat 0x1ac00000; dat 0x1ae00000;
  dat 0x1b000000; dat 0x1b200000; dat 0x1b400000;
  dat 0x1b600000; dat 0x1b800000; dat 0x1ba00000;
  dat 0x1bc00000; dat 0x1be00000; dat 0x1c000000;
  dat 0x1c200000; dat 0x1c400000; dat 0x1c600000;
  dat 0x1c800000; dat 0x1ca00000; dat 0x1cc00000;
  dat 0x1ce00000; dat 0x1d000000; dat 0x1d200000;
  dat 0x1d400000; dat 0x1d600000; dat 0x1d800000;
  dat 0x1da00000; dat 0x1dc00000; dat 0x1de00000;
  dat 0x1e000000; dat 0x1e200000; dat 0x1e400000;
  dat 0x1e600000; dat 0x1e800000; dat 0x1ea00000;
  dat 0x1ec00000; dat 0x1ee00000; dat 0x1f000000;
  dat 0x1f200000; dat 0x1f400000; dat 0x1f600000;
  dat 0x1f800000; dat 0x1fa00000; dat 0x1fc00000;
  dat 0x1fe00000; dat 0x20000000; dat 0x20200000;
  dat 0x20400000; dat 0x20600000; dat 0x20800000;
  dat 0x20a00000; dat 0x20c00000; dat 0x20e00000;
  dat 0x21000000; dat 0x21200000; dat 0x21400000;
  dat 0x21600000; dat 0x21800000; dat 0x21a00000;
  dat 0x21c00000; dat 0x21e00000; dat 0x22000000;
  dat 0x22200000; dat 0x22400000; dat 0x22600000;
  dat 0x22800000; dat 0x22a00000; dat 0x22c00000;
  dat 0x22e00000; dat 0x23000000; dat 0x23200000;
  dat 0x23400000; dat 0x23600000; dat 0x23800000;
  dat 0x23a00000; dat 0x23c00000; dat 0x23e00000;
  dat 0x24000000; dat 0x24200000; dat 0x24400000;
  dat 0x24600000; dat 0x24800000; dat 0x24a00000;
  dat 0x24c00000; dat 0x24e00000; dat 0x25000000;
  dat 0x25200000; dat 0x25400000; dat 0x25600000;
  dat 0x25800000; dat 0x25a00000; dat 0x25c00000;
  dat 0x25e00000; dat 0x26000000; dat 0x26200000;
  dat 0x26400000; dat 0x26600000; dat 0x26800000;
  dat 0x26a00000; dat 0x26c00000; dat 0x26e00000;
  dat 0x27000000; dat 0x27200000; dat 0x27400000;
  dat 0x27600000; dat 0x27800000; dat 0x27a00000;
  dat 0x27c00000; dat 0x27e00000; dat 0x28000000;
  dat 0x28200000; dat 0x28400000; dat 0x28600000;
  dat 0x28800000; dat 0x28a00000; dat 0x28c00000;
  dat 0x28e00000; dat 0x29000000; dat 0x29200000;
  dat 0x29400000; dat 0x29600000; dat 0x29800000;
  dat 0x29a00000; dat 0x29c00000; dat 0x29e00000;
  dat 0x2a000000; dat 0x2a200000; dat 0x2a400000;
  dat 0x2a600000; dat 0x2a800000; dat 0x2aa00000;
  dat 0x2ac00000; dat 0x2ae00000; dat 0x2b000000;
  dat 0x2b200000; dat 0x2b400000; dat 0x2b600000;
  dat 0x2b800000; dat 0x2ba00000; dat 0x2bc00000;
  dat 0x2be00000; dat 0x2c000000; dat 0x2c200000;
  dat 0x2c400000; dat 0x2c600000; dat 0x2c800000;
  dat 0x2ca00000; dat 0x2cc00000; dat 0x2ce00000;
  dat 0x2d000000; dat 0x2d200000; dat 0x2d400000;
  dat 0x2d600000; dat 0x2d800000; dat 0x2da00000;
  dat 0x2dc00000; dat 0x2de00000; dat 0x2e000000;
  dat 0x2e200000; dat 0x2e400000; dat 0x2e600000;
  dat 0x2e800000; dat 0x2ea00000; dat 0x2ec00000;
  dat 0x2ee00000; dat 0x2f000000; dat 0x2f200000;
  dat 0x2f400000; dat 0x2f600000; dat 0x2f800000;
  dat 0x2fa00000; dat 0x2fc00000; dat 0x2fe00000;
  dat 0x30000000; dat 0x30200000; dat 0x30400000;
  dat 0x30600000; dat 0x30800000; dat 0x30a00000;
  dat 0x30c00000; dat 0x30e00000; dat 0x31000000;
  dat 0x31200000; dat 0x31400000; dat 0x31600000;
  dat 0x31800000; dat 0x31a00000; dat 0x31c00000;
  dat 0x31e00000; dat 0x32000000; dat 0x32200000;
  dat 0x32400000; dat 0x32600000; dat 0x32800000;
  dat 0x32a00000; dat 0x32c00000; dat 0x32e00000;
  dat 0x33000000; dat 0x33200000; dat 0x33400000;
  dat 0x33600000; dat 0x33800000; dat 0x33a00000;
  dat 0x33c00000; dat 0x33e00000; dat 0x34000000;
  dat 0x34200000; dat 0x34400000; dat 0x34600000;
  dat 0x34800000; dat 0x34a00000; dat 0x34c00000;
  dat 0x34e00000; dat 0x35000000; dat 0x35200000;
  dat 0x35400000; dat 0x35600000; dat 0x35800000;
  dat 0x35a00000; dat 0x35c00000; dat 0x35e00000;
  dat 0x36000000; dat 0x36200000; dat 0x36400000;
  dat 0x36600000; dat 0x36800000; dat 0x36a00000;
  dat 0x36c00000; dat 0x36e00000; dat 0x37000000;
  dat 0x37200000; dat 0x37400000; dat 0x37600000;
  dat 0x37800000; dat 0x37a00000; dat 0x37c00000;
  dat 0x37e00000; dat 0x38000000; dat 0x38200000;
  dat 0x38400000; dat 0x38600000; dat 0x38800000;
  dat 0x38a00000; dat 0x38c00000; dat 0x38e00000;
  dat 0x39000000; dat 0x39200000; dat 0x39400000;
  dat 0x39600000; dat 0x39800000; dat 0x39a00000;
  dat 0x39c00000; dat 0x39e00000; dat 0x3a000000;
  dat 0x3a200000; dat 0x3a400000; dat 0x3a600000;
  dat 0x3a800000; dat 0x3aa00000; dat 0x3ac00000;
  dat 0x3ae00000; dat 0x3b000000; dat 0x3b200000;
  dat 0x3b400000; dat 0x3b600000; dat 0x3b800000;
  dat 0x3ba00000; dat 0x3bc00000; dat 0x3be00000;
  dat 0x3c000000; dat 0x3c200000; dat 0x3c400000;
  dat 0x3c600000; dat 0x3c800000; dat 0x3ca00000;
  dat 0x3cc00000; dat 0x3ce00000; dat 0x3d000000;
  dat 0x3d200000; dat 0x3d400000; dat 0x3d600000;
  dat 0x3d800000; dat 0x3da00000; dat 0x3dc00000;
  dat 0x3de00000; dat 0x3e000000; dat 0x3e200000;
  dat 0x3e400000; dat 0x3e600000; dat 0x3e800000;
  dat 0x3ea00000; dat 0x3ec00000; dat 0x3ee00000;
  dev 0x3f000000; dev 0x3f200000; dev 0x3f400000;
  dev 0x3f600000; dev 0x3f800000; dev 0x3fa00000;
  dev 0x3fc00000; dev 0x3fe00000].
Definition _kernel_pt_level2 (level3 : Z) : page :=
  pt_entries [K2P level3 + PTE_TABLE; dev 0x40000000; 0; dev 0xC0000000].
Definition kernel_pt (level2 : Z) : page := pt_entries [K2P level2 + PTE_TABLE].

(** ** The MMU

    Four levels of tables with 512 entries each, counted from 3 down to 0 as in
    core/virtual_memory.c. Bit 0 of an entry says that it is valid. With bit 1 set it
    points to the next table (to a page, at the last level); with bit 1 clear it is a
    block of 2 MiB or 1 GiB, which only the two middle levels have. Bits 47 to 12 are
    the address, bits 4 to 2 the index of the attributes, bit 6 lets the user in, bit 7
    forbids writing, and bit 10 must be set. Addresses with the upper 16 bits clear use
    [ttbr0_el1], those with the upper 16 bits set [ttbr1_el1]. *)
Record access := mkAccess { ac_pa : Z; ac_attr : Z; ac_el0 : bool; ac_write : bool }.
#[global] Instance access_eq_dec : EqDecision access.
Proof. solve_decision. Defined.

Definition block_size (level : nat) : Z := 2 ^ (12 + 9 * Z.of_nat level).
Definition entry_addr (w : Z) : Z := Z.land w 0xFFFFFFFFF000.
Definition block_addr (level : nat) (w : Z) : Z := entry_addr w / block_size level * block_size level.
Definition entry_attr (w : Z) : Z := Z.land (Z.shiftr MAIR_VALUE (8 * Z.land (Z.shiftr w 2) 7)) 0xff.
Definition leaf_access (level : nat) (w va : Z) : option access :=
  if test w AF_USED then
    Some (mkAccess (block_addr level w + va mod block_size level) (entry_attr w) (test w PTE_USER) (negb (test w (Z.shiftl 1 7))))
  else None.
Fixpoint table_walk (m : gmap Z page) (level : nat) (table va : Z) : option access :=
  w ← word m (P2K table) (Z.to_nat (PX (Z.of_nat level) va));
  if negb (test w PTE_VALID) then None
  else if test w 2 then
    match level with
    | O => leaf_access 0 w va
    | S level' => table_walk m level' (entry_addr w) va
    end
  else
    match level with
    | 1%nat | 2%nat => leaf_access level w va
    | _ => None
    end.
Definition mmu (m : gmap Z page) (ttbr0 ttbr1 va : Z) : option access :=
  if va <? 2 ^ 48 then table_walk m 3 ttbr0 va
  else if KSPACE_MASK <=? va then table_walk m 3 ttbr1 va
  else None.

(** ** The addresses of the kernel *)

Definition normal_memory : Z := MT_NORMAL_FLAGS.
Definition device_memory : Z := MT_DEVICE_nGnRnE_FLAGS.
Definition kernel_only (pa attr : Z) : option access := Some (mkAccess pa attr false true).
(** What lies at the offset [off] in the upper half. *)
Definition kernel_access (off : Z) : option access :=
  if off <? PHYSTOP then kernel_only off normal_memory
  else if off <? 0x80000000 then kernel_only off device_memory
  else if off <? 0xC0000000 then None
  else if off <? 0x100000000 then kernel_only off device_memory
  else None.

Lemma PX_div level va : 0 ≤ level → PX level va = va / 2 ^ (12 + 9 * level) mod 512.
Proof. intros H. unfold PX, PXMASK, PXSHIFT, PGSHIFT. change 0x1FF with (Z.ones 9). rewrite land_ones_mod by lia. rewrite Z.shiftr_div_pow2 by lia. done. Qed.

Lemma pt_entries_lookup l i x : l !! i = Some x → pt_entries l !! i = Some x.
Proof. intros H. unfold pt_entries. rewrite lookup_app_l; [done|]. by eapply lookup_lt_Some. Qed.
Lemma pt_entries_zero l i : (length l ≤ i < 512)%nat → pt_entries l !! i = Some 0.
Proof. intros H. unfold pt_entries. rewrite lookup_app_r by lia. by apply lookup_replicate_2; lia. Qed.

(** Entry [i] of the last table maps the [i]-th two megabytes. *)
Definition level3_entry (i : Z) : Z := if i <? 504 then dat (i * 0x200000) else dev (i * 0x200000).
Lemma level3_eq : _kernel_pt_level3 = level3_entry <$> seqZ 0 512.
Proof. by vm_compute. Qed.

(** All entries at once: they are blocks at their own address. *)
Definition block_ok (level : nat) (w base attr : Z) : bool :=
  test w PTE_VALID && negb (test w 2) && test w AF_USED && (block_addr level w =? base) && (entry_attr w =? attr) &&
  negb (test w PTE_USER) && negb (test w (Z.shiftl 1 7)).
Lemma level3_blocks i : 0 ≤ i < 512 →
  block_ok 1 (level3_entry i) (i * 0x200000) (if i <? 504 then normal_memory else device_memory) = true.
Proof.
  intros Hi.
  assert (forallb (λ i, block_ok 1 (level3_entry i) (i * 0x200000) (if i <? 504 then normal_memory else device_memory)) (seqZ 0 512) = true) as H
    by by vm_compute.
  rewrite forallb_forall in H. apply H, list_elem_of_In, elem_of_seqZ. lia.
Qed.
Lemma block_access level w base attr va : block_ok level w base attr = true →
  leaf_access level w va = kernel_only (base + va mod block_size level) attr.
Proof.
  unfold block_ok, leaf_access. rewrite !andb_true_iff, !negb_true_iff, !Z.eqb_eq.
  intros ((((((_ & _) & ->) & ->) & ->) & ->) & ->). done.
Qed.

(** ** Entries that the kernel writes *)

Lemma test_flags w g : Z.land 0xFFF g = g → test w g = test (PTE_FLAGS w) g.
Proof. intros H. unfold test, PTE_FLAGS. by rewrite <- Z.land_assoc, H. Qed.
Lemma entry_attr_flags w : entry_attr w = entry_attr (PTE_FLAGS w).
Proof.
  unfold entry_attr, PTE_FLAGS. rewrite Z.shiftr_land, <- Z.land_assoc. by change (Z.land (Z.shiftr 0xFFF 2) 7) with 7.
Qed.
Lemma entry_addr_lor x f : 0 ≤ x < 2 ^ 32 → x mod 4096 = 0 → 0 ≤ f < 4096 → entry_addr (Z.lor x f) = x.
Proof.
  intros Hx Hm Hf. change 4096 with (2 ^ 12) in Hf. unfold entry_addr. apply Z.bits_inj'. intros k Hk.
  change 0xFFFFFFFFF000 with (Z.ldiff (Z.ones 48) (Z.ones 12)).
  rewrite Z.land_spec, Z.lor_spec, Z.ldiff_spec, !Z.testbit_ones_nonneg by lia.
  destruct (Z.ltb_spec k 12); simpl; [by rewrite low_bits_zero, andb_false_r, andb_false_r by lia|].
  rewrite (high_bits_zero f 12), orb_false_r by lia.
  destruct (Z.ltb_spec k 48); simpl; [by rewrite andb_true_r|]. by rewrite (high_bits_zero x 32) by lia.
Qed.

(** An entry made of the address of a page and flags. *)
Record entry_of (q f w : Z) : Prop := {
  eo_test : ∀ g, Z.land 0xFFF g = g → test w g = test f g;
  eo_attr : entry_attr w = entry_attr f;
  eo_addr : entry_addr w = K2P q;
  eo_next : P2K (entry_addr w) = q;
  eo_page : page_at w = q
}.
Lemma entry_lor q f : kernel_page q → 0 ≤ f < 4096 → entry_of q f (Z.lor (K2P q) f).
Proof.
  intros Hq Hf. destruct (kernel_page_phys q Hq) as (H1 & H2 & H3). destruct (pte_parts (K2P q) f H1 H2 Hf) as [E1 E2].
  split.
  - intros g Hg. by rewrite (test_flags _ g Hg), E2.
  - by rewrite entry_attr_flags, E2.
  - by apply entry_addr_lor.
  - by rewrite entry_addr_lor.
  - unfold page_at. by rewrite E1.
Qed.
Lemma entry_plus q f : kernel_page q → 0 ≤ f < 4096 → entry_of q f (K2P q + f).
Proof.
  intros Hq Hf. destruct (kernel_page_phys q Hq) as (H1 & H2 & H3).
  rewrite Z.add_nocarry_lxor, Z.lxor_lor; [by apply entry_lor|..];
  (apply Z.bits_inj'; intros k Hk; rewrite Z.land_spec, Z.testbit_0_l; destruct (Z.ltb_spec k 12);
   [by rewrite low_bits_zero by lia|rewrite (high_bits_zero f 12) by lia; apply andb_false_r]).
Qed.

Section kernel_map.
Context (m : gmap Z page) (l1 l2 l3 : Z).
(** Where the linker has put the tables. *)
Record kernel_tables : Prop := {
  kt_l1 : m !! l1 = Some (kernel_pt l2);
  kt_l2 : m !! l2 = Some (_kernel_pt_level2 l3);
  kt_l3 : m !! l3 = Some _kernel_pt_level3;
  kt_p1 : kernel_page l1;
  kt_p2 : kernel_page l2;
  kt_p3 : kernel_page l3
}.
Hypothesis HK : kernel_tables.


Lemma PX_kernel level off : 0 ≤ level ≤ 3 → PX level (KSPACE_MASK + off) = PX level off.
Proof.
  intros H. rewrite !PX_div by lia.
  assert (KSPACE_MASK = 65535 * 2 ^ (27 - 9 * level) * 512 * 2 ^ (12 + 9 * level)) as ->.
  { assert (level = 0 ∨ level = 1 ∨ level = 2 ∨ level = 3) as [->|[->|[->| ->]]] by lia; done. }
  rewrite Z.add_comm, Z.div_add by lia. by rewrite Z.mod_add.
Qed.
Lemma PX_small level off : 0 ≤ level → 0 ≤ off < 512 * 2 ^ (12 + 9 * level) → PX level off = off / 2 ^ (12 + 9 * level).
Proof.
  intros Hl Ho. rewrite PX_div by done. apply Z.mod_small. split; [apply Z.div_pos; lia|]. apply Z.div_lt_upper_bound; lia.
Qed.

Lemma kernel_offset level off : (level ≤ 3)%nat → (KSPACE_MASK + off) mod block_size level = off mod block_size level.
Proof.
  intros H. assert (KSPACE_MASK mod block_size level = 0) as E by (destruct level as [|[|[|[|]]]]; try done; lia).
  rewrite Z.add_mod by (unfold block_size; apply Z.pow_nonzero; lia). by rewrite E, Z.add_0_l, Z.mod_mod by (unfold block_size; apply Z.pow_nonzero; lia).
Qed.
Lemma table_walk_word level t va w :
  word m (P2K t) (Z.to_nat (PX (Z.of_nat level) va)) = Some w → table_walk m level t va =
    if negb (test w PTE_VALID) then None
    else if test w 2 then match level with O => leaf_access 0 w va | S level' => table_walk m level' (entry_addr w) va end
    else match level with 1%nat | 2%nat => leaf_access level w va | _ => None end.
Proof. intros E. destruct level; cbn [table_walk]; rewrite E; done. Qed.
(** A block that maps its own address. *)
Lemma walk_block level t off w attr : (level = 1 ∨ level = 2)%nat → 0 ≤ off →
  word m (P2K t) (Z.to_nat (PX (Z.of_nat level) (KSPACE_MASK + off))) = Some w →
  block_ok level w (off / block_size level * block_size level) attr = true →
  table_walk m level t (KSPACE_MASK + off) = kernel_only off attr.
Proof.
  intros Hl Ho Ew Hb. rewrite (table_walk_word _ _ _ _ Ew). pose proof (block_access _ _ _ _ (KSPACE_MASK + off) Hb) as E.
  unfold block_ok in Hb. rewrite !andb_true_iff, !negb_true_iff in Hb. destruct Hb as ((((((-> & ->) & _) & _) & _) & _) & _).
  cbn [negb]. rewrite kernel_offset in E by lia. rewrite (Z.mul_comm (off / _)), <- Z.div_mod in E by (unfold block_size; apply Z.pow_nonzero; lia).
  destruct Hl as [-> | ->]; exact E.
Qed.

Lemma walk_level1 off : 0 ≤ off < 2 ^ 30 → table_walk m 1 (K2P l3) (KSPACE_MASK + off) = kernel_access off.
Proof.
  intros Ho. destruct HK as [_ _ E3 _ _ P3]. destruct (kernel_page_phys l3 P3) as (_ & _ & E).
  assert (PX 1 (KSPACE_MASK + off) = off / 2 ^ 21) as EP by (rewrite PX_kernel, PX_small by lia; done).
  assert (0 ≤ off / 2 ^ 21 < 512) as Hi by (split; [apply Z.div_pos; lia|apply Z.div_lt_upper_bound; lia]).
  rewrite (walk_block 1 _ off (level3_entry (off / 2 ^ 21)) (if off / 2 ^ 21 <? 504 then normal_memory else device_memory)).
  - unfold kernel_access. assert (off / 2 ^ 21 <? 504 = (off <? PHYSTOP)) as ->.
    { apply eq_true_iff_eq. rewrite !Z.ltb_lt. unfold PHYSTOP. pose proof (Z.div_mod off (2 ^ 21) ltac:(lia)).
      pose proof (Z.mod_pos_bound off (2 ^ 21) ltac:(lia)). lia. }
    bool_decide_lia; done.
  - by left.
  - lia.
  - change (Z.of_nat 1) with 1. rewrite EP, E. unfold word. rewrite E3, level3_eq, list_lookup_fmap.
    by rewrite lookup_seqZ_lt, Z.add_0_l, Z2Nat.id by lia.
  - change (block_size 1) with 0x200000. change (2 ^ 21) with 0x200000 in *. by apply level3_blocks.
Qed.

Lemma walk_level2 off : 0 ≤ off < 2 ^ 39 → table_walk m 2 (K2P l2) (KSPACE_MASK + off) = kernel_access off.
Proof.
  intros Ho. destruct HK as [_ E2 _ _ P2 P3]. destruct (kernel_page_phys l2 P2) as (_ & _ & E).
  assert (PX 2 (KSPACE_MASK + off) = off / 2 ^ 30) as EP by (rewrite PX_kernel, PX_small by lia; done).
  assert (0 ≤ off / 2 ^ 30 < 512) as Hi by (split; [apply Z.div_pos; lia|apply Z.div_lt_upper_bound; lia]).
  pose proof (Z.div_mod off (2 ^ 30) ltac:(lia)) as Hd. pose proof (Z.mod_pos_bound off (2 ^ 30) ltac:(lia)) as Hr.
  assert (∀ w, _kernel_pt_level2 l3 !! Z.to_nat (off / 2 ^ 30) = Some w →
    word m (P2K (K2P l2)) (Z.to_nat (PX (Z.of_nat 2) (KSPACE_MASK + off))) = Some w) as Hw.
  { intros w Ew. change (Z.of_nat 2) with 2. unfold word. by rewrite EP, E, E2. }
  assert (off / 2 ^ 30 = 0 ∨ off / 2 ^ 30 = 1 ∨ off / 2 ^ 30 = 2 ∨ off / 2 ^ 30 = 3 ∨ 4 ≤ off / 2 ^ 30) as [Ei|[Ei|[Ei|[Ei|Ei]]]] by lia.
  - destruct (entry_plus l3 PTE_TABLE P3 ltac:(done)) as [T1 _ T3 _ _].
    rewrite (table_walk_word _ _ _ (K2P l3 + PTE_TABLE)) by (apply Hw; by rewrite Ei). rewrite !T1, T3 by done.
    apply walk_level1. lia.
  - rewrite (walk_block 2 _ off (dev 0x40000000) device_memory); [|by right|lia|apply Hw; by rewrite Ei|].
    + unfold kernel_access, PHYSTOP. bool_decide_lia. done.
    + change (block_size 2) with (2 ^ 30). by rewrite Ei.
  - rewrite (table_walk_word _ _ _ 0) by (apply Hw; by rewrite Ei). unfold kernel_access, PHYSTOP. bool_decide_lia. done.
  - rewrite (walk_block 2 _ off (dev 0xC0000000) device_memory); [|by right|lia|apply Hw; by rewrite Ei|].
    + unfold kernel_access, PHYSTOP. bool_decide_lia. done.
    + change (block_size 2) with (2 ^ 30). by rewrite Ei.
  - rewrite (table_walk_word _ _ _ 0) by (apply Hw, pt_entries_zero; simpl; lia). unfold kernel_access, PHYSTOP. bool_decide_lia. done.
Qed.

Lemma kernel_walk off : 0 ≤ off < 2 ^ 48 → table_walk m 3 (K2P l1) (KSPACE_MASK + off) = kernel_access off.
Proof.
  intros Ho. destruct HK as [E1 _ _ P1 P2 _]. destruct (kernel_page_phys l1 P1) as (_ & _ & E).
  assert (PX 3 (KSPACE_MASK + off) = off / 2 ^ 39) as EP by (rewrite PX_kernel, PX_small by lia; done).
  assert (0 ≤ off / 2 ^ 39 < 512) as Hi by (split; [apply Z.div_pos; lia|apply Z.div_lt_upper_bound; lia]).
  pose proof (Z.div_mod off (2 ^ 39) ltac:(lia)) as Hd. pose proof (Z.mod_pos_bound off (2 ^ 39) ltac:(lia)) as Hr.
  assert (∀ w, kernel_pt l2 !! Z.to_nat (off / 2 ^ 39) = Some w →
    word m (P2K (K2P l1)) (Z.to_nat (PX (Z.of_nat 3) (KSPACE_MASK + off))) = Some w) as Hw.
  { intros w Ew. change (Z.of_nat 3) with 3. unfold word. by rewrite EP, E, E1. }
  destruct (decide (off / 2 ^ 39 = 0)) as [Ei|Ei].
  - destruct (entry_plus l2 PTE_TABLE P2 ltac:(done)) as [T1 _ T3 _ _].
    rewrite (table_walk_word _ _ _ (K2P l2 + PTE_TABLE)) by (apply Hw; by rewrite Ei). rewrite !T1, T3 by done.
    apply walk_level2. lia.
  - rewrite (table_walk_word _ _ _ 0) by (apply Hw, pt_entries_zero; simpl; lia). unfold kernel_access, PHYSTOP. bool_decide_lia. done.
Qed.
End kernel_map.

(** ** The addresses of a process *)

Section user_map.
Context (m : gmap Z page) (root : Z) (free : list Z).
Hypothesis Hroot : kernel_page root.
Hypothesis Hpt : pt_inv m root free.

(** What the MMU makes of the entry [w] of a page. *)
Definition user_access (w va : Z) : access :=
  mkAccess (K2P (page_at w) + va mod 4096) normal_memory (test w PTE_USER) true.

Lemma leaf_entry w va : entry_form true w → test w PTE_VALID = true ∧ test w 2 = true ∧ leaf_access 0 w va = Some (user_access w va).
Proof.
  intros (q & Hq & Hw). destruct (kernel_page_phys q Hq) as (Hr & Hm & _).
  assert (∃ f, entry_of q f w ∧ (f = PTE_USER_DATA ∨ f = Z.ldiff PTE_USER_DATA PTE_USER)) as (f & [T1 T2 T3 T4 T5] & Hf).
  { destruct Hw as [-> | ->]; (eexists; split; [apply entry_lor; [done|by vm_compute]|by eauto]). }
  assert (test f AF_USED = true ∧ test f PTE_VALID = true ∧ test f 2 = true ∧ test f (Z.shiftl 1 7) = false ∧
    entry_attr f = normal_memory) as (F1 & F2 & F3 & F4 & F5) by (by destruct Hf as [-> | ->]).
  rewrite !T1, F2, F3 by done. split; [done|]. split; [done|]. unfold leaf_access, user_access, block_addr.
  rewrite !T1, F1, F4, T2, F5, T3, T5 by done. change (block_size 0) with 4096.
  do 2 f_equal. pose proof (Z.div_mod (K2P q) 4096 ltac:(lia)). lia.
Qed.

(** One level of the walk. *)
Lemma walk_user level path t va : (level < 3)%nat → kernel_page t → path_ok path → (length path < 3)%nat → descend m root path = Some t →
  let path' := path ++ [Z.to_nat (PX (Z.of_nat (S level)) va)] in
  match descend m root path' with
  | Some t' => kernel_page t' ∧ table_walk m (S level) (K2P t) va = table_walk m level (K2P t') va
  | None => table_walk m (S level) (K2P t) va = None
  end.
Proof.
  intros Hl Ht Hpo Hlen Hd path'. destruct (kernel_page_phys t Ht) as (_ & _ & E). unfold path'. rewrite descend_snoc, Hd.
  destruct (word m t _) as [w|] eqn:Ew; [|cbn [table_walk]; by rewrite E, Ew].
  rewrite (table_walk_word _ _ _ _ w) by by rewrite E. destruct (test w PTE_VALID) eqn:Ev; [|done]. cbn [negb].
  destruct (pv_entry _ _ _ Hpt path t _ w Hpo Hd Ew Ev) as (q & Hq & Hw). rewrite bool_decide_eq_false_2 in Hw by lia.
  destruct (entry_lor q PTE_TABLE Hq ltac:(done)) as [T1 _ T3 T4 T5]. rewrite <- Hw in *. fold (page_at w). rewrite T5, T1, T3 by done.
  by split.
Qed.

Lemma user_walk va : table_walk m 3 (K2P root) va = (λ w, user_access w va) <$> pte_of m root va.
Proof.
  pose proof (path_of_ok va) as Hok. unfold path_of in Hok.
  assert (∀ l1 l2, [Z.to_nat (PX 3 va); Z.to_nat (PX 2 va); Z.to_nat (PX 1 va)] = l1 ++ l2 → path_ok l1) as Hpre.
  { intros l1 l2 E. apply (path_ok_prefix _ l2). by rewrite <- E. }
  unfold pte_of, path_of. set (i3 := Z.to_nat (PX 3 va)) in *. set (i2 := Z.to_nat (PX 2 va)) in *. set (i1 := Z.to_nat (PX 1 va)) in *.
  pose proof (walk_user 2 [] root va ltac:(lia) Hroot (Hpre [] _ eq_refl) ltac:(simpl; lia) eq_refl) as H3.
  change (PX (Z.of_nat 3) va) with (PX 3 va) in H3. fold i3 in H3. cbn [app] in H3.
  destruct (descend m root [i3]) as [t2|] eqn:D3; [destruct H3 as [K2 ->]|by rewrite H3, (descend_none_app _ _ [i3] [i2; i1])].
  pose proof (walk_user 1 [i3] t2 va ltac:(lia) K2 (Hpre [i3] [i2; i1] eq_refl) ltac:(simpl; lia) D3) as H2.
  change (PX (Z.of_nat 2) va) with (PX 2 va) in H2. fold i2 in H2. cbn [app] in H2.
  destruct (descend m root [i3; i2]) as [t1|] eqn:D2; [destruct H2 as [K1 ->]|by rewrite H2, (descend_none_app _ _ [i3; i2] [i1])].
  pose proof (walk_user 0 [i3; i2] t1 va ltac:(lia) K1 (Hpre [i3; i2] [i1] eq_refl) ltac:(simpl; lia) D2) as H1.
  change (PX (Z.of_nat 1) va) with (PX 1 va) in H1. fold i1 in H1. cbn [app] in H1.
  destruct (descend m root [i3; i2; i1]) as [t0|] eqn:D1; [destruct H1 as [K0 ->]|by rewrite H1].
  destruct (kernel_page_phys t0 K0) as (_ & _ & E0). cbn [table_walk]. change (Z.of_nat 0) with 0. rewrite E0. unfold leaf_of.
  destruct (word m t0 (Z.to_nat (PX 0 va))) as [w|] eqn:Ew; [|done]. cbn [mbind option_bind].
  destruct (test w PTE_VALID) eqn:Ev; [|done]. cbn [negb].
  destruct (leaf_entry w va) as (_ & -> & ->); [|done]. by apply (pv_entry _ _ _ Hpt _ _ _ _ Hok D1 Ew Ev).
Qed.
End user_map.

(** ** Protection *)

(** driver/base.h *)
Definition MMIO_BASE : Z := KSPACE_MASK + 0x3F000000.
Definition LOCAL_BASE : Z := KSPACE_MASK + 0x40000000.

Lemma mmu_kernel m l1 l2 l3 ttbr0 off : kernel_tables m l1 l2 l3 → 0 ≤ off < 2 ^ 48 →
  mmu m ttbr0 (K2P l1) (KSPACE_MASK + off) = kernel_access off.
Proof.
  intros HK Ho. unfold mmu. destruct (Z.ltb_spec (KSPACE_MASK + off) (2 ^ 48)); [unfold KSPACE_MASK in *; lia|].
  rewrite (proj2 (Z.leb_le _ _)) by lia. by apply (kernel_walk m l1 l2 l3).
Qed.
Lemma mmu_user m root free ttbr1 va : kernel_page root → pt_inv m root free → 0 ≤ va < 2 ^ 48 →
  mmu m (K2P root) ttbr1 va = (λ w, user_access w va) <$> pte_of m root va.
Proof. intros Hr Hpt Hva. unfold mmu. rewrite (proj2 (Z.ltb_lt _ _)) by lia. by apply (user_walk m root free). Qed.
(** The kernel keeps its addresses for itself. *)
Lemma kernel_access_el0 off a : kernel_access off = Some a → ac_el0 a = false.
Proof. unfold kernel_access, kernel_only. intros E. repeat case_match; by simplify_eq. Qed.


(** The process of UserMem.v, with the tables of the kernel at three more pages. *)
Definition demo_l1 : Z := 0xffff000000121000.
Definition demo_l2 : Z := 0xffff000000122000.
Definition demo_l3 : Z := 0xffff000000123000.
Definition with_tables (m : gmap Z page) : gmap Z page :=
  <[demo_l1 := kernel_pt demo_l2]> (<[demo_l2 := _kernel_pt_level2 demo_l3]> (<[demo_l3 := _kernel_pt_level3]> m)).
Lemma with_tables_ok m : kernel_tables (with_tables m) demo_l1 demo_l2 demo_l3.
Proof.
  unfold with_tables. split; try (by split; vm_compute).
  - apply lookup_insert_eq.
  - rewrite lookup_insert_ne by done. apply lookup_insert_eq.
  - rewrite !lookup_insert_ne by done. apply lookup_insert_eq.
Qed.
Lemma demo_tables : ∃ m free, kernel_tables m demo_l1 demo_l2 demo_l3 ∧ pt_inv m um_root ([demo_l1; demo_l2; demo_l3] ++ free) ∧
  uspace m um_root ([demo_l1; demo_l2; demo_l3] ++ free) ∧ pte_of m um_root 16 = Some 0x110647 ∧ ubyte m um_root 16 = Some 7.
Proof.
  destruct um_mapped as (s & free & Hvm & HU & Hl & Hp & Hu & Ht & Hf). set (L := [demo_l1; demo_l2; demo_l3]).
  assert (∀ x, x ∈ L → x ∉ um_root :: um_user :: um_free) as HL.
  { intros x Hx. unfold L in Hx. rewrite !elem_of_cons, elem_of_nil in Hx. destruct Hx as [->|[->|[->|[]]]]; by apply (bool_decide_unpack _). }
  assert (pt_inv (pm_mem s) um_root (L ++ free)) as P1.
  { apply (pt_inv_free _ _ free); [exact (vo_pt _ _ _ _ Hvm)|]. intros x Hx [HxL|Hxf]%elem_of_app.
    - apply (HL x HxL). destruct (Ht x Hx) as [->|Hx']; [apply list_elem_of_here|by do 2 apply list_elem_of_further].
    - destruct Hx as (path & Hpo & E). by apply (pv_page _ _ _ (vo_pt _ _ _ _ Hvm) path x). }
  assert (uspace (pm_mem s) um_root (L ++ free)) as U1.
  { split; [|apply HU]. intros va w Hva E. destruct (us_page _ _ _ HU va w Hva E) as (H1 & H2 & H3 & H4). split_and!; try done.
    intros [HxL|Hxf]%elem_of_app; [|done]. rewrite Hp in E by done. case_decide; [|done]. injection E as <-.
    apply (HL _ HxL). change (page_at 0x110647) with um_user. apply list_elem_of_further, list_elem_of_here. }
  assert (agree (pm_mem s) (with_tables (pm_mem s)) (L ++ free)) as Ha.
  { intros x Hx. unfold with_tables. rewrite !lookup_insert_ne; [done|..]; (intros <-; apply Hx, elem_of_app; left; unfold L; rewrite !elem_of_cons; auto). }
  assert (KSPACE_MASK ≤ demo_kend) as Hk by (by vm_compute).
  exists (with_tables (pm_mem s)), free. split_and!.
  - apply with_tables_ok.
  - by apply (agree_pt_inv demo_kend Hk (pm_mem s) _ um_root (L ++ free)).
  - by apply (agree_uspace demo_kend Hk (pm_mem s) _ um_root (L ++ free)).
  - rewrite (agree_pte_of (pm_mem s) _ um_root (L ++ free)) by done. by rewrite Hp.
  - rewrite (agree_ubyte (pm_mem s) _ um_root (L ++ free)) by done. unfold ubyte. rewrite Hp by done.
    rewrite decide_True by done. cbn beta iota. change (page_at 0x110647) with um_user. rewrite Hu. by vm_compute.
Qed.
