(* ===== verification/Interrupt.v ===== *)
(** * The interrupt controller and the clock (driver/interrupt.c, driver/interrupt.h,
    driver/irq.h, driver/clock.c)

    The registers of the devices are an interface, by address, and so are the system
    registers of the timer. A handler is code that runs on the state of the kernel. The
    theorems assume what the manuals of the two interrupt controllers say: a line is
    pending only if it was enabled, and a CPU sees the lines only if they are routed to
    it. *)
From S2P Require Import Prelude Locks PhysMem VirtMem UserMem KernelPt.

(** aarch64/intrinsic.h; [put32] and [get32] of aarch64/arm.h are the same accesses. *)
Class Mmio (S : Type) := {
  device_get_u32 : Z → M S Z;
  device_put_u32 : Z → Z → M S unit
}.
Class CoreTimer (S : Type) := {
  get_clock_frequency : M S Z;
  set_cntp_ctl_el0 : Z → M S unit;
  set_cntp_tval_el0 : Z → M S unit
}.

Definition IRQ_PENDING_1 : Z := MMIO_BASE + 0xB204.
Definition IRQ_PENDING_2 : Z := MMIO_BASE + 0xB208.
Definition ENABLE_IRQS_1 : Z := MMIO_BASE + 0xB210.
Definition ENABLE_IRQS_2 : Z := MMIO_BASE + 0xB214.
Definition AUX_INT : Z := Z.shiftl 1 29.
Definition VC_ARASANSDIO_INT : Z := Z.shiftl 1 30.
Definition GPU_INT_ROUTE : Z := LOCAL_BASE + 0xC.
Definition GPU_IRQ2CORE (i : Z) : Z := i.
Definition IRQ_SRC_CORE (i : Z) : Z := LOCAL_BASE + 0x60 + 4 * i.
Definition IRQ_SRC_GPU : Z := Z.shiftl 1 8.
Definition IRQ_SRC_CNTPNSIRQ : Z := Z.shiftl 1 1.
Definition CORE_CLOCK_CTRL (id : Z) : Z := LOCAL_BASE + 0x40 + 4 * id.
Definition CORE_CLOCK_ENABLE : Z := Z.shiftl 1 1.
Definition NUM_IRQ_TYPES : Z := 64.

Inductive InterruptType := IRQ_AUX | IRQ_SDIO | IRQ_ARASANSDIO.
Definition irq_number (type : InterruptType) : Z :=
  match type with IRQ_AUX => 29 | IRQ_SDIO => 56 | IRQ_ARASANSDIO => 62 end.

Section interrupt.
Context {S : Type} `{!Mmio S} `{!CoreTimer S}.
(** [None] is a handler that gave up the CPU. *)
Abbreviation Handler := (M S (option unit)).

(** [InterruptContext] of interrupt.c and [ClockContext] of clock.c. *)
Record Interrupts := mkInterrupts { irq_handler : list (option Handler); clock_handler : option Handler; one_ms : Z }.
Record IrqState := mkIrq { ir_ctx : Interrupts; ir_kernel : S }.
Definition on_ctx (f : Interrupts → Interrupts) : M IrqState unit := λ s, Ok () (mkIrq (f (ir_ctx s)) (ir_kernel s)).
Definition on_kernel {A} (m : M S A) : M IrqState A := zoom ir_kernel (λ k s, mkIrq (ir_ctx s) k) m.

Definition set_irq_handlers l (c : Interrupts) : Interrupts := mkInterrupts l (clock_handler c) (one_ms c).
Definition set_one_ms x (c : Interrupts) : Interrupts := mkInterrupts (irq_handler c) (clock_handler c) x.

Definition init_interrupt : M IrqState unit :=
  on_ctx (set_irq_handlers (replicate (Z.to_nat NUM_IRQ_TYPES) None));;
  on_kernel (device_put_u32 ENABLE_IRQS_1 AUX_INT);;
  on_kernel (device_put_u32 ENABLE_IRQS_2 VC_ARASANSDIO_INT);;
  on_kernel (device_put_u32 GPU_INT_ROUTE (GPU_IRQ2CORE 0)).
Definition set_interrupt_handler (type : InterruptType) (h : Handler) : M IrqState unit :=
  let n := irq_number type in
  on_kernel (device_put_u32 (ENABLE_IRQS_1 + 4 * (n / 32)) (u32 (Z.shiftl 1 (n mod 32))));;
  on_ctx (λ c, set_irq_handlers (<[Z.to_nat n := Some h]> (irq_handler c)) c).

Definition reset_clock (ctx : Interrupts) (countdown_ms : Z) : M S unit := set_cntp_tval_el0 (u64 (countdown_ms * one_ms ctx)).
(** [me] is [cpuid()]. *)
Definition init_clock (me : Z) : M IrqState unit :=
  f ← on_kernel get_clock_frequency;
  on_ctx (set_one_ms (f / 1000));;
  on_kernel (set_cntp_ctl_el0 1);;
  ctx ← gets ir_ctx;
  on_kernel (reset_clock ctx 1000);;
  on_kernel (device_put_u32 (CORE_CLOCK_CTRL me) CORE_CLOCK_ENABLE).
Definition set_clock_handler (h : Handler) : M IrqState unit :=
  on_ctx (λ c, mkInterrupts (irq_handler c) (Some h) (one_ms c)).

Definition invoke_clock_handler (t : Interrupts) : Handler :=
  match clock_handler t with
  | None => panic "no clock handler"
  | Some h => h
  end.
(** The loop over the interrupts that are pending in [map]. The handlers of devices
    return. *)
Definition gpu_line (t : Interrupts) (map i : Z) : M S unit :=
  if Z.testbit map i then
    match irq_handler t !! Z.to_nat i with
    | Some (Some h) => h;; mret ()
    | _ => panic "unknown interrupt type"
    end
  else mret ().
Definition gpu_interrupts (t : Interrupts) (map : Z) : M S unit :=
  for_loop (Z.to_nat NUM_IRQ_TYPES) 0 (λ i, gpu_line t map i;; mret (@None unit));;
  mret ().
(** The part after the clock handler has returned: [source] is the register
    [IRQ_SRC_CORE(cpuid())] without the bit of the clock. *)
Definition interrupt_rest (t : Interrupts) (source : Z) : M S unit :=
  source ← (if test source IRQ_SRC_GPU then
              pending1 ← device_get_u32 IRQ_PENDING_1;
              pending2 ← device_get_u32 IRQ_PENDING_2;
              gpu_interrupts t (Z.lor pending1 (Z.shiftl pending2 32));;
              mret (Z.lxor source IRQ_SRC_GPU)
            else mret source);
  if negb (source =? 0) then panic "unknown interrupt sources" else mret ().
(** [None] when the clock handler gave up the CPU; [interrupt_rest] runs after it. *)
Definition interrupt_global_handler (me : Z) (t : Interrupts) : M S (option unit) :=
  source ← device_get_u32 (IRQ_SRC_CORE me);
  if test source IRQ_SRC_CNTPNSIRQ then
    r ← invoke_clock_handler t;
    match r with
    | None => mret None
    | Some _ => interrupt_rest t (Z.lxor source IRQ_SRC_CNTPNSIRQ);; mret (Some ())
    end
  else interrupt_rest t source;; mret (Some ()).
End interrupt.
Arguments Interrupts S : clear implicits.
Arguments IrqState S : clear implicits.

(** ** The interrupt controllers and the timer

    [ic_lines] are the lines that are enabled, one bit each, [ic_route] is the CPU that
    gets them, [ic_timer i] tells whether the timer of CPU [i] may interrupt, and
    [ct_left] is what the timer counts down from. *)
Class IrqController (S : Type) `{!Mmio S} `{!CoreTimer S} := {
  ic_lines : S → Z;
  ic_route : S → Z;
  ic_timer : S → Z → bool;
  ct_freq : Z;
  ct_left : S → Z;
  ic_same (s s' : S) : Prop :=
    ic_lines s' = ic_lines s ∧ ic_route s' = ic_route s ∧ (∀ i, ic_timer s' i = ic_timer s i) ∧ ct_left s' = ct_left s;
  ic_enable : ∀ s n v, 0 ≤ n < 2 → 0 ≤ v < 2 ^ 32 → ∃ s', device_put_u32 (ENABLE_IRQS_1 + 4 * n) v s = Ok () s' ∧
    ic_lines s' = Z.lor (ic_lines s) (Z.shiftl v (32 * n)) ∧ ic_route s' = ic_route s ∧
    (∀ i, ic_timer s' i = ic_timer s i) ∧ ct_left s' = ct_left s;
  ic_set_route : ∀ s v, 0 ≤ v < 4 → ∃ s', device_put_u32 GPU_INT_ROUTE v s = Ok () s' ∧
    ic_lines s' = ic_lines s ∧ ic_route s' = v ∧ (∀ i, ic_timer s' i = ic_timer s i) ∧ ct_left s' = ct_left s;
  ic_set_timer : ∀ s j v, 0 ≤ j < 4 → 0 ≤ v < 2 ^ 32 → ∃ s', device_put_u32 (CORE_CLOCK_CTRL j) v s = Ok () s' ∧
    ic_lines s' = ic_lines s ∧ ic_route s' = ic_route s ∧
    (∀ i, ic_timer s' i = if decide (i = j) then Z.testbit v 1 else ic_timer s i) ∧ ct_left s' = ct_left s;
  (** The serial port and its pins are other devices. *)
  ic_other : ∀ s a v, MMIO_BASE + 0x200000 ≤ a < MMIO_BASE + 0x300000 → ∃ s', device_put_u32 a v s = Ok () s' ∧ ic_same s s';
  ic_source : ∀ s i, 0 ≤ i < 4 → ∃ (clock gpu : bool) s',
    device_get_u32 (IRQ_SRC_CORE i) s = Ok (Z.lor (if clock then 2 else 0) (if gpu then 256 else 0)) s' ∧ ic_same s s' ∧
    (clock = true → ic_timer s i = true) ∧ (gpu = true → ic_route s = i);
  ic_pending : ∀ s n, 0 ≤ n < 2 → ∃ v s', device_get_u32 (IRQ_PENDING_1 + 4 * n) s = Ok v s' ∧ ic_same s s' ∧
    0 ≤ v < 2 ^ 32 ∧ ∀ k, 0 ≤ k < 32 → Z.testbit v k = true → Z.testbit (ic_lines s) (32 * n + k) = true;
  ct_frequency : ∀ s, get_clock_frequency s = Ok ct_freq s;
  ct_ctl : ∀ s v, ∃ s', set_cntp_ctl_el0 v s = Ok () s' ∧ ic_same s s';
  ct_tval : ∀ s v, ∃ s', set_cntp_tval_el0 v s = Ok () s' ∧ ic_lines s' = ic_lines s ∧ ic_route s' = ic_route s ∧
    (∀ i, ic_timer s' i = ic_timer s i) ∧ ct_left s' = v
}.

(** ** Dispatch *)
Section dispatch.
Context {S : Type} `{IrqController S}.
Abbreviation Handler := (M S (option unit)).

Definition lines (map : Z) : list Z := filter (λ i, Z.testbit map i = true) (seqZ 0 64).
Fixpoint serve (h : Z → Handler) (l : list Z) : M S unit :=
  match l with [] => mret () | i :: l' => h i;; serve h l' end.
(** What an interrupt does: the clock first, then the handler of every pending line, in
    ascending order. *)
Definition dispatch (clock : Handler) (h : Z → Handler) (me : Z) : M S (option unit) :=
  source ← device_get_u32 (IRQ_SRC_CORE me);
  r ← (if test source IRQ_SRC_CNTPNSIRQ then clock else mret (Some ()));
  match r with
  | None => mret None
  | Some _ =>
      (if test source IRQ_SRC_GPU then
         pending1 ← device_get_u32 IRQ_PENDING_1;
         pending2 ← device_get_u32 IRQ_PENDING_2;
         serve h (lines (Z.lor pending1 (Z.shiftl pending2 32)))
       else mret ());;
      mret (Some ())
  end.

(** A table that has a handler for every line that is enabled. *)
Record table_ready (t : Interrupts S) (h : Z → Handler) (clock : Handler) (L : Z) : Prop := {
  tr_lines : ∀ i, 0 ≤ i < 64 → Z.testbit L i = true → irq_handler t !! Z.to_nat i = Some (Some (h i));
  tr_clock : clock_handler t = Some clock
}.
(** Handlers do not enable lines. *)
Definition keeps_lines {A} (m : M S A) : Prop := ∀ s a s', m s = Ok a s' → ic_lines s' = ic_lines s.

Context (t : Interrupts S) (h : Z → Handler) (clock : Handler) (L : Z).
Context (HT : table_ready t h clock L).

Lemma gpu_line_serve map i s : 0 ≤ i < 64 → (Z.testbit map i = true → Z.testbit L i = true) →
  gpu_line t map i s = serve h (if Z.testbit map i then [i] else []) s.
Proof.
  intros Hi HL. unfold gpu_line. destruct (Z.testbit map i); [|done].
  by rewrite (tr_lines _ _ _ _ HT) by auto.
Qed.
Lemma gpu_loop_serve map n i s : 0 ≤ i → i + Z.of_nat n ≤ 64 →
  (∀ k, 0 ≤ k < 64 → Z.testbit map k = true → Z.testbit L k = true) →
  for_loop n i (λ i, gpu_line t map i;; mret (@None unit)) s =
  (serve h (filter (λ i, Z.testbit map i = true) (seqZ i (Z.of_nat n)));; mret None) s.
Proof.
  intros Hi Hn HL. revert i s Hi Hn. induction n as [|n IH]; intros i s Hi Hn; [done|]. cbn [for_loop].
  rewrite Nat2Z.inj_succ, <- Z.add_1_r, seqZ_cons by lia. rewrite filter_cons.
  replace (Z.succ i) with (i + 1) by lia. replace (Z.pred (Z.of_nat n + 1)) with (Z.of_nat n) by lia.
  rewrite !bind_assoc. transitivity ((serve h (if Z.testbit map i then [i] else []);; 
    serve h (filter (λ i, Z.testbit map i = true) (seqZ (i + 1) (Z.of_nat n)));; mret (@None unit)) s).
  - apply bind_ext; [apply gpu_line_serve; auto with lia|]. intros [] s' _. cbn. apply IH; lia.
  - destruct (Z.testbit map i); case_decide; try done. cbn [serve]. by rewrite !bind_assoc.
Qed.
Lemma gpu_interrupts_serve map s :
  (∀ k, 0 ≤ k < 64 → Z.testbit map k = true → Z.testbit L k = true) →
  gpu_interrupts t map s = serve h (lines map) s.
Proof.
  intros HL. unfold gpu_interrupts, lines. change 64 with (Z.of_nat (Z.to_nat NUM_IRQ_TYPES)).
  transitivity ((serve h (filter (λ i, Z.testbit map i = true) (seqZ 0 (Z.of_nat (Z.to_nat NUM_IRQ_TYPES))));; mret ()) s).
  - unfold mbind at 1, M_bind at 1. rewrite gpu_loop_serve by (done || lia). unfold mbind, M_bind. by destruct (serve _ _ _).
  - unfold mbind, M_bind. by destruct (serve _ _ _) as [[]| | | |].
Qed.
(** The lines that the two registers show are enabled. *)
Lemma pending_enabled v1 v2 k : 0 ≤ v1 < 2 ^ 32 → 0 ≤ v2 < 2 ^ 32 →
  (∀ k, 0 ≤ k < 32 → Z.testbit v1 k = true → Z.testbit L (32 * 0 + k) = true) →
  (∀ k, 0 ≤ k < 32 → Z.testbit v2 k = true → Z.testbit L (32 * 1 + k) = true) →
  0 ≤ k < 64 → Z.testbit (Z.lor v1 (Z.shiftl v2 32)) k = true → Z.testbit L k = true.
Proof.
  intros H1 H2 P1 P2 Hk. rewrite Z.lor_spec, Z.shiftl_spec by lia. intros [Hb|Hb]%orb_true_iff.
  - apply (P1 k); [|done]. split; [lia|]. destruct (Z.lt_ge_cases k 32); [done|].
    rewrite (Z.bits_above_log2 v1 k) in Hb; [done|lia|]. destruct (decide (v1 = 0)) as [->|]; [simpl; lia|].
    apply Z.log2_lt_pow2; [lia|]. eapply Z.lt_le_trans; [apply H1|]. apply Z.pow_le_mono_r; lia.
  - destruct (Z.lt_ge_cases k 32); [by rewrite Z.testbit_neg_r in Hb by lia|].
    replace k with (32 * 1 + (k - 32)) by lia. apply P2; [lia|done].
Qed.

Definition rest_spec (gpu : bool) : M S unit :=
  if gpu then
    pending1 ← device_get_u32 IRQ_PENDING_1;
    pending2 ← device_get_u32 IRQ_PENDING_2;
    serve h (lines (Z.lor pending1 (Z.shiftl pending2 32)))
  else mret ().
Lemma interrupt_rest_serve (gpu : bool) s : ic_lines s = L →
  interrupt_rest t (if gpu then 256 else 0) s = rest_spec gpu s.
Proof.
  intros HL. destruct gpu; [|done]. unfold interrupt_rest. change (test 256 IRQ_SRC_GPU) with true. cbv iota.
  destruct (ic_pending s 0) as (v1 & s1 & E1 & [L1 _] & B1 & P1); [lia|].
  destruct (ic_pending s1 1) as (v2 & s2 & E2 & _ & B2 & P2); [lia|]. rewrite L1, HL in P2. rewrite HL in P1.
  change (IRQ_PENDING_1 + 4 * 0) with IRQ_PENDING_1 in E1. change (IRQ_PENDING_1 + 4 * 1) with IRQ_PENDING_2 in E2.
  unfold rest_spec. rewrite (bind_Ok _ _ _ _ _ E1), (bind_Ok _ _ _ _ _ E2).
  rewrite bind_assoc, (bind_Ok _ _ _ _ _ E1), bind_assoc, (bind_Ok _ _ _ _ _ E2), bind_assoc.
  unfold mbind at 1, M_bind at 1. rewrite gpu_interrupts_serve by (intros k; by apply pending_enabled).
  by destruct (serve _ _ _) as [[]| | | |].
Qed.

Lemma interrupt_dispatch me s : 0 ≤ me < 4 → ic_lines s = L → keeps_lines clock →
  interrupt_global_handler me t s = dispatch clock h me s.
Proof.
  intros Hme HL Hc. destruct (ic_source s me Hme) as (c & g & s1 & E1 & [L1 _] & _).
  unfold interrupt_global_handler, dispatch. rewrite !(bind_Ok _ _ _ _ _ E1).
  replace (test (Z.lor _ _) IRQ_SRC_GPU) with g by (by destruct c, g).
  replace (test (Z.lor _ _) IRQ_SRC_CNTPNSIRQ) with c by (by destruct c, g).
  fold (rest_spec g). destruct c.
  - unfold invoke_clock_handler. rewrite (tr_clock _ _ _ _ HT). apply bind_ext; [done|]. intros [[]|] s2 E2; [|done].
    apply bind_ext; [|done]. replace (Z.lxor _ _) with (if g then 256 else 0) by (by destruct g).
    apply interrupt_rest_serve. rewrite (Hc _ _ _ E2). congruence.
  - change ((interrupt_rest t (Z.lor 0 (if g then 256 else 0));; mret (Some ())) s1 = (rest_spec g;; mret (Some ())) s1). apply bind_ext; [|done].
    replace (Z.lor _ _) with (if g then 256 else 0) by (by destruct g). apply interrupt_rest_serve. congruence.
Qed.

(** A panic comes from a handler. *)
Lemma serve_panic l s msg : (∀ i s, h i s ≠ Panic msg) → serve h l s ≠ Panic msg.
Proof.
  intros Hh. revert s. induction l as [|i l IH]; intros s; [done|]. cbn [serve]. unfold mbind, M_bind.
  destruct (h i s) eqn:E; try done. intros [= ->]. by eapply Hh.
Qed.
Lemma dispatch_panic me s msg : 0 ≤ me < 4 → (∀ i s, h i s ≠ Panic msg) → (∀ s, clock s ≠ Panic msg) →
  dispatch clock h me s ≠ Panic msg.
Proof.
  intros Hme Hh Hc. destruct (ic_source s me Hme) as (c & g & s1 & E1 & _).
  assert (∀ s2, (rest_spec g;; mret (Some ())) s2 ≠ Panic msg) as Hr.
  { intros s2. destruct g; [|done]. destruct (ic_pending s2 0) as (v1 & s3 & E3 & _); [lia|].
    destruct (ic_pending s3 1) as (v2 & s4 & E4 & _); [lia|].
    change (IRQ_PENDING_1 + 4 * 0) with IRQ_PENDING_1 in E3. change (IRQ_PENDING_1 + 4 * 1) with IRQ_PENDING_2 in E4.
    unfold rest_spec. rewrite bind_assoc, (bind_Ok _ _ _ _ _ E3), bind_assoc, (bind_Ok _ _ _ _ _ E4).
    unfold mbind, M_bind. destruct (serve _ _ _) eqn:E; try done. intros [= ->]. by eapply serve_panic in E. }
  unfold dispatch. rewrite (bind_Ok _ _ _ _ _ E1). replace (test (Z.lor _ _) IRQ_SRC_GPU) with g by (by destruct c, g).
  fold (rest_spec g). destruct (test _ _); [|exact (Hr s1)]. unfold mbind at 1, M_bind at 1.
  destruct (clock s1) as [[[]|] s2| | | |] eqn:E; try done. intros [= ->]. by eapply Hc.
Qed.
End dispatch.
