(* ===== verification/Mbox.v ===== *)
(** * The mailbox (driver/mbox.c)

    The kernel passes the address of a message to the firmware of the GPU and reads the
    answer from the same buffer. The registers are [Mmio]; [Shared] is the buffer, which
    the firmware writes too. The theorem assumes what the firmware documents: an answer
    comes back with the word that was sent, and the message then holds the answer. *)
From S2P Require Import Prelude Locks PhysMem VirtMem UserMem KernelPt Interrupt.

Definition VIDEOCORE_MBOX : Z := MMIO_BASE + 0x0000B880.
Definition MBOX_READ : Z := VIDEOCORE_MBOX + 0x00.
Definition MBOX_STATUS : Z := VIDEOCORE_MBOX + 0x18.
Definition MBOX_WRITE : Z := VIDEOCORE_MBOX + 0x20.
Definition MBOX_FULL : Z := 0x80000000.
Definition MBOX_EMPTY : Z := 0x40000000.
Definition MBOX_TAG_GET_ARM_MEMORY : Z := 0x00010005.
Definition MBOX_TAG_GET_CLOCK_RATE : Z := 0x00030002.
Definition MBOX_TAG_END : Z := 0x0.

(** The words of the buffer, after the caches were cleaned and invalidated. *)
Class Shared (D : Type) := {
  buf_store : list Z → M D unit;
  buf_load : nat → M D Z
}.

Section mbox.
Context {D : Type} `{!Mmio D} `{!Shared D}.
(** The bound on the polls and on the answers of other channels. *)
Context (fuel : nat).

(** [while ( *MBOX_STATUS & mask);] *)
Fixpoint poll_while (fuel : nat) (mask : Z) : M D unit :=
  match fuel with
  | O => nofuel
  | S fuel' =>
      v ← device_get_u32 MBOX_STATUS;
      if test v mask then poll_while fuel' mask else mret ()
  end.
Fixpoint mbox_read_loop (n : nat) (chan : Z) : M D Z :=
  match n with
  | O => nofuel
  | S n' =>
      poll_while fuel MBOX_EMPTY;;
      r ← device_get_u32 MBOX_READ;
      if Z.land r 0xF =? chan then mret (i32 (Z.shiftr r 4)) else mbox_read_loop n' chan
  end.
(** Barriers and the messages that are printed are left out. *)
Definition mbox_read (chan : Z) : M D Z := mbox_read_loop fuel chan.
Definition mbox_write (buf chan : Z) : M D unit :=
  (if (Z.land buf 0xF =? 0) && (Z.land chan (Z.lnot 0xF) =? 0) then mret () else panic "assertion failed");;
  poll_while fuel MBOX_FULL;;
  device_put_u32 MBOX_WRITE (Z.lor (Z.ldiff buf 0xF) chan).

(** A message that is sent on channel 8 and answered. [addr] is the address of the buffer
    on the stack, which the compiler aligns to 16 bytes. *)
Definition mbox_call (addr : Z) (buf : list Z) : M D unit :=
  (if Z.land (K2P addr) 0xF =? 0 then mret () else panic "Buffer should align to 16 bytes. ");;
  buf_store buf;;
  mbox_write (u32 (K2P addr)) 8;;
  mbox_read 8;;
  mret ().
Definition mbox_get_arm_memory (addr : Z) : M D Z :=
  mbox_call addr [36; 0; MBOX_TAG_GET_ARM_MEMORY; 8; 0; 0; 0; MBOX_TAG_END];;
  base ← buf_load 5;
  (if base =? 0 then mret () else panic "Memory base address should be zero. ");;
  size ← buf_load 6;
  (if negb (size =? 0) then mret () else panic "Memory size should not be zero. ");;
  mret (i32 size).
Definition mbox_get_clock_rate (addr : Z) : M D Z :=
  mbox_call addr [36; 0; MBOX_TAG_GET_CLOCK_RATE; 8; 0; 1; 0; MBOX_TAG_END];;
  rate ← buf_load 6;
  mret (i32 rate).
End mbox.

(** ** The firmware

    [fw_is s buf q]: the buffer holds [buf], and the words [q] wait to be read. A word that
    is sent for channel 8 is answered by [reply] in the buffer and comes back after the
    words [fw_before] of other channels. [fw_rank] bounds the polls. *)
Class Firmware (D : Type) `{!Mmio D} `{!Shared D} := {
  fw_is : D → list Z → list Z → Prop;
  reply : list Z → list Z;
  fw_before : D → list Z;
  fw_rank : D → nat;
  fw_store : ∀ s buf q buf', fw_is s buf q → ∃ s', buf_store buf' s = Ok () s' ∧ fw_is s' buf' q;
  fw_load : ∀ s buf q i w, fw_is s buf q → buf !! i = Some w → buf_load i s = Ok w s;
  fw_full : ∀ s buf q, fw_is s buf q → ∃ v s', device_get_u32 MBOX_STATUS s = Ok v s' ∧ fw_is s' buf q ∧
    (test v MBOX_FULL = true → (fw_rank s' < fw_rank s)%nat) ∧ (q ≠ [] → test v MBOX_EMPTY = true → (fw_rank s' < fw_rank s)%nat);
  fw_write : ∀ s buf v, fw_is s buf [] → Z.land v 0xF = 8 → ∃ s', device_put_u32 MBOX_WRITE v s = Ok () s' ∧
    fw_is s' (reply buf) (fw_before s ++ [v]);
  fw_others : ∀ s, Forall (λ v, Z.land v 0xF ≠ 8) (fw_before s);
  fw_read : ∀ s buf v q, fw_is s buf (v :: q) → ∃ s', device_get_u32 MBOX_READ s = Ok v s' ∧ fw_is s' buf q;
  fw_bound : nat;
  fw_ranks : ∀ s, (fw_rank s < fw_bound)%nat ∧ (length (fw_before s) < fw_bound)%nat
}.

Section answers.
Context {D : Type} `{Firmware D}.
Context (fuel : nat) (Hfuel : (fw_bound ≤ fuel)%nat).

Lemma mbox_poll_Ok mask n : ∀ s buf q, fw_is s buf q → (fw_rank s < n)%nat → mask = MBOX_FULL ∨ (mask = MBOX_EMPTY ∧ q ≠ []) →
  ∃ s', poll_while n mask s = Ok () s' ∧ fw_is s' buf q.
Proof.
  induction n as [|n IH]; intros s buf q Hs Hn Hm; [lia|]. cbn [poll_while].
  destruct (fw_full s buf q Hs) as (v & s1 & E & Hs1 & Hf & He). erewrite bind_Ok by exact E.
  destruct (test v mask) eqn:Ht; [|by exists s1]. apply IH; [done| |done].
  destruct Hm as [->|[-> Hq]]; [specialize (Hf Ht)|specialize (He Hq Ht)]; lia.
Qed.
(** Answers of other channels are skipped. *)
Lemma mbox_read_Ok v pre : Forall (λ w, Z.land w 0xF ≠ 8) pre → Z.land v 0xF = 8 → ∀ n s buf, (length pre < n)%nat → fw_is s buf (pre ++ [v]) →
  ∃ s', mbox_read_loop fuel n 8 s = Ok (i32 (Z.shiftr v 4)) s' ∧ fw_is s' buf [].
Proof.
  intros Hpre Hv. induction Hpre as [|w pre Hw Hpre IH]; intros [|n] s buf Hn Hs; simpl in Hn; try lia; cbn [mbox_read_loop].
  - destruct (mbox_poll_Ok MBOX_EMPTY fuel s buf [v] Hs) as (s1 & E1 & H1); [pose proof (fw_ranks s); lia|auto|].
    destruct (fw_read s1 buf v [] H1) as (s2 & E2 & H2). exists s2. erewrite bind_Ok by exact E1. erewrite bind_Ok by exact E2.
    by rewrite (proj2 (Z.eqb_eq _ _) Hv).
  - destruct (mbox_poll_Ok MBOX_EMPTY fuel s buf (w :: pre ++ [v]) Hs) as (s1 & E1 & H1); [pose proof (fw_ranks s); lia|auto|].
    destruct (fw_read s1 buf w (pre ++ [v]) H1) as (s2 & E2 & H2). erewrite bind_Ok by exact E1. erewrite bind_Ok by exact E2.
    rewrite (proj2 (Z.eqb_neq _ _) Hw). apply IH; [lia|done].
Qed.

Lemma mbox_call_Ok addr msg s buf : fw_is s buf [] → K2P addr mod 16 = 0 → 
  ∃ s', mbox_call fuel addr msg s = Ok () s' ∧ fw_is s' (reply msg) [].
Proof.
  intros Hs Ha. assert (Z.land (K2P addr) 0xF = 0) as Hal by (change 0xF with (Z.ones 4); by rewrite Z.land_ones by lia).
  assert (Z.land (u32 (K2P addr)) 0xF = 0) as Hal'.
  { unfold u32, wrap. change 0xF with (Z.ones 4). rewrite <- (Z.land_ones _ 32), <- Z.land_assoc by lia. exact Hal. }
  assert (Z.land (Z.lor (Z.ldiff (u32 (K2P addr)) 0xF) 8) 0xF = 8) as Hv.
  { rewrite Z.land_lor_distr_l, Z.land_comm, Z.land_comm. change (Z.land 8 15) with 8.
    replace (Z.land (Z.ldiff (u32 (K2P addr)) 15) 15) with 0; [done|]. symmetry. apply Z.bits_inj'. intros k Hk.
    rewrite Z.land_spec, Z.ldiff_spec, Z.bits_0. by destruct (Z.testbit 15 k), (Z.testbit _ k). }
  destruct (fw_store s buf [] msg Hs) as (s1 & E1 & H1).
  destruct (mbox_poll_Ok MBOX_FULL fuel s1 msg [] H1) as (s2 & E2 & H2); [pose proof (fw_ranks s1); lia|by left|].
  destruct (fw_write s2 msg _ H2 Hv) as (s3 & E3 & H3).
  destruct (mbox_read_Ok _ (fw_before s2) (fw_others s2) Hv fuel s3 (reply msg)) as (s4 & E4 & H4); [pose proof (fw_ranks s2); lia|exact H3|].
  exists s4. split; [|done]. unfold mbox_call, mbox_write, mbox_read. rewrite Hal. erewrite bind_Ok by done. erewrite bind_Ok by exact E1.
  rewrite Hal'. erewrite bind_Ok by (erewrite bind_Ok by done; erewrite bind_Ok by exact E2; exact E3).
  by erewrite bind_Ok by exact E4.
Qed.

(** The two calls return what the firmware has answered; a size of zero or a base other
    than zero panics. *)
Theorem mbox_answers addr s buf base size : fw_is s buf [] → K2P addr mod 16 = 0 →
  let ask := [36; 0; MBOX_TAG_GET_ARM_MEMORY; 8; 0; 0; 0; MBOX_TAG_END] in
  let ask' := [36; 0; MBOX_TAG_GET_CLOCK_RATE; 8; 0; 1; 0; MBOX_TAG_END] in
  reply ask !! 5%nat = Some base → reply ask !! 6%nat = Some size →
  (base = 0 → size ≠ 0 → ∃ s', mbox_get_arm_memory fuel addr s = Ok (i32 size) s' ∧ fw_is s' (reply ask) []) ∧
  (base ≠ 0 → mbox_get_arm_memory fuel addr s = Panic "Memory base address should be zero. ") ∧
  (base = 0 → size = 0 → mbox_get_arm_memory fuel addr s = Panic "Memory size should not be zero. ") ∧
  ∀ rate, reply ask' !! 6%nat = Some rate → ∃ s', mbox_get_clock_rate fuel addr s = Ok (i32 rate) s' ∧ fw_is s' (reply ask') [].
Proof.
  intros Hs Ha ask ask' E5 E6. destruct (mbox_call_Ok addr ask s buf Hs Ha) as (s1 & E1 & H1).
  unfold mbox_get_arm_memory. fold ask. erewrite bind_Ok by exact E1. erewrite (bind_Ok (buf_load 5)) by (by eapply fw_load). split_and!.
  - intros -> Hz. exists s1. split; [|done]. erewrite bind_Ok by done. erewrite bind_Ok by (by eapply fw_load).
    rewrite (proj2 (Z.eqb_neq _ _) Hz). done.
  - intros Hb. by rewrite (proj2 (Z.eqb_neq _ _) Hb).
  - intros -> ->. erewrite bind_Ok by done. by erewrite bind_Ok by (by eapply fw_load).
  - intros rate E. destruct (mbox_call_Ok addr ask' s buf Hs Ha) as (s2 & E2 & H2). exists s2. split; [|done].
    unfold mbox_get_clock_rate. fold ask'. erewrite bind_Ok by exact E2. by erewrite bind_Ok by (by eapply fw_load).
Qed.
End answers.

(** ** A firmware that answers at once, after a word of another channel *)
Module SimFirmware.
Record fw := mkFw { words : list Z; queue : list Z }.
Definition answer (buf : list Z) : list Z := <[6%nat := 0x3C000000]> (<[5%nat := 0]> buf).
Definition get (a : Z) : M fw Z := λ s,
  if a =? MBOX_STATUS then Ok (match queue s with [] => MBOX_EMPTY | _ :: _ => 0 end) s
  else match queue s with [] => Undef | v :: q => Ok v (mkFw (words s) q) end.
Definition put (a v : Z) : M fw unit := λ s, Ok () (mkFw (answer (words s)) (queue s ++ [0x13; v])).
#[global] Instance fw_mmio : Mmio fw := { device_get_u32 := get; device_put_u32 := put }.
#[global] Instance fw_shared : Shared fw := {
  buf_store := λ b s, Ok () (mkFw b (queue s));
  buf_load := λ i s, match words s !! i with Some w => Ok w s | None => Undef end
}.
#[global, refine] Instance fw_firmware : Firmware fw := {
  fw_is := λ s b q, words s = b ∧ queue s = q;
  reply := answer;
  fw_before := λ _, [0x13];
  fw_rank := λ _, 0%nat;
  fw_bound := 2
}.
Proof.
  - intros s buf q buf' [_ Hq]. eexists. split; [reflexivity|]. by split.
  - intros s buf q i w [Hb _] Hi. simpl. by rewrite Hb, Hi.
  - intros s buf q Hs. eexists _, s. split; [reflexivity|]. split; [done|]. destruct Hs as [_ ->]. destruct q; split; by intros.
  - intros s buf v [Hb Hq] _. eexists. split; [reflexivity|]. simpl. by rewrite Hb, Hq.
  - intros s. by repeat constructor.
  - intros s buf v q [Hb Hq]. eexists. unfold device_get_u32, fw_mmio, get. rewrite Hq. split; [reflexivity|]. by split.
  - intros s. simpl. lia.
Defined.
End SimFirmware.
Example arm_memory : ∃ s, mbox_get_arm_memory 2 0xffff000000080000 (SimFirmware.mkFw [] []) = Ok 0x3C000000 s.
Proof. eexists. vm_compute. reflexivity. Qed.
