(* ===== verification/VmTest.v ===== *)
(** * The interface of the page tables and their test at boot (core/virtual_memory.c)

    The rest of the kernel calls the page tables through [vmem], a structure of function
    pointers. [vm_test], which [main] runs, maps a page, switches to the new table and
    reads through the MMU of KernelPt.v. *)
From S2P Require Import Prelude Locks PhysMem VirtMem UserMem KernelPt.

(** [fuel] of [uvm_copy] exceeds the number of mapped pages. *)
Record VMemory := mkVMemory {
  vm_pgdir_init : M PMemory Z;
  vm_pgdir_walk : Z → Z → bool → M PMemory (option pte_ptr);
  vm_uvm_copy : nat → Z → M PMemory Z;
  vm_vm_free : Z → M PMemory unit;
  vm_uvm_map : Z → Z → Z → Z → M PMemory Z;
  vm_uvm_alloc : Z → Z → Z → Z → Z → M PMemory Z;
  vm_uvm_dealloc : Z → Z → Z → Z → M PMemory Z;
  vm_copyout : Z → Z → list Z → M PMemory Z
}.
Definition virtual_memory_init (kend me : Z) : VMemory := {|
  vm_pgdir_init := my_pgdir_init me;
  vm_pgdir_walk := my_pgdir_walk me;
  vm_uvm_copy := my_uvm_copy me;
  vm_vm_free := my_vm_free kend me;
  vm_uvm_map := my_uvm_map me;
  vm_uvm_alloc := my_uvm_alloc kend me;
  vm_uvm_dealloc := my_uvm_dealloc kend me;
  vm_copyout := my_copyout me
|}.

(** The memory, the register [ttbr0_el1] and what was printed. *)
Record VmState := mkVm { v_mem : PMemory; v_ttbr0 : Z; v_out : list (list Z) }.
Definition on_memory {A} (m : M PMemory A) : M VmState A := zoom v_mem (λ x s, mkVm x (v_ttbr0 s) (v_out s)) m.
Definition vm_puts (text : list Z) : M VmState unit := λ s, Ok () (mkVm (v_mem s) (v_ttbr0 s) (v_out s ++ [text])).

Section vmem.
Context (vmem : VMemory).
Definition pgdir_init : M VmState Z := on_memory (vm_pgdir_init vmem).
Definition pgdir_walk (pgdir vak : Z) (alloc : bool) : M VmState (option pte_ptr) := on_memory (vm_pgdir_walk vmem pgdir vak alloc).
Definition vm_free (pgdir : Z) : M VmState unit := on_memory (vm_vm_free vmem pgdir).
Definition uvm_map (pgdir va sz pa : Z) : M VmState Z := on_memory (vm_uvm_map vmem pgdir va sz pa).
Definition uvm_copy (fuel : nat) (pgdir : Z) : M VmState Z := on_memory (vm_uvm_copy vmem fuel pgdir).
Definition uvm_alloc (pgdir base stksz oldsz newsz : Z) : M VmState Z := on_memory (vm_uvm_alloc vmem pgdir base stksz oldsz newsz).
Definition uvm_dealloc (pgdir base oldsz newsz : Z) : M VmState Z := on_memory (vm_uvm_dealloc vmem pgdir base oldsz newsz).
Definition uvm_switch (pgdir : Z) : M VmState unit := λ s, Ok () (mkVm (v_mem s) (K2P pgdir) (v_out s)).
Definition copyout (pgdir va : Z) (p : list Z) : M VmState Z := on_memory (vm_copyout vmem pgdir va p).

(** A load of 64 bits at [va], by the kernel. [ttbr1] is the table of the kernel. *)
Definition load (ttbr1 va : Z) : M VmState Z :=
  s ← getS;
  a ← derefM (mmu (pm_mem (v_mem s)) (v_ttbr0 s) ttbr1 va);
  on_memory (read_word (P2K (ac_pa a - ac_pa a mod 4096)) (Z.to_nat (ac_pa a mod 4096 / 8))).
(** The address of an entry. *)
Definition pte_address (pte : pte_ptr) : Z := pte.1 + 8 * Z.of_nat pte.2.

Definition fail_with {A} (text : list Z) : M VmState A := vm_puts text;; nofuel.   (* [while (1);] *)
Definition vm_test (me ttbr1 : Z) : M VmState unit :=
  on_memory (write_word (P2K 0) 0 0xac);;
  p ← on_memory (kalloc me);
  on_memory (zero_fill p);;
  uvm_map p 0x1000 PAGE_SIZE 0;;
  uvm_switch p;;
  pte ← pgdir_walk p 0x1000 false;
  match pte with
  | None => fail_with (str "walk should not return 0")
  | Some pte =>
      (if Z.shiftr (pte_address pte) 48 =? 0 then fail_with (str "pte should be virtual address") else mret ());;
      w ← on_memory (pte_get pte);
      (if negb (Z.shiftr w 48 =? 0) then fail_with (str "*pte should store physical address") else mret ());;
      (if negb (Z.land w PTE_USER_DATA =? PTE_USER_DATA) then fail_with (str "*pte should contain USE_DATA flags") else mret ());;
      v ← load ttbr1 0x1000;
      if v =? 0xac then vm_puts (str "Test_Map_Region Pass!")
      else fail_with (str "Test_Map_Region Fail!")
  end.
End vmem.

(** ** The test passes *)
Section test.
Context (kend me ttbr1 : Z) (Hkend : KSPACE_MASK + 4096 ≤ kend).

Lemma page0_not_free s free : pm_inv kend s free → P2K 0 ∉ free.
Proof.
  intros [_ _ Hok] Hin. apply (proj1 (Forall_forall _ _) Hok), err_addr_false in Hin as [_ Hr].
  change (P2K 0) with KSPACE_MASK in Hr. lia.
Qed.
Lemma page0_kernel : kernel_page (P2K 0).
Proof. by split. Qed.

Lemma on_memory_Ok {A} (m : M PMemory A) s a s' t out : m s = Ok a s' → on_memory m (mkVm s t out) = Ok a (mkVm s' t out).
Proof. intros E. unfold on_memory. by erewrite zoom_Ok by exact E. Qed.

(** Entries lie in the upper half. *)
Lemma pte_address_high s root free t va : vm_ok kend s root free → descend (pm_mem s) root (path_of va) = Some t →
  Z.shiftr (pte_address (t, leaf_of va)) 48 =? 0 = false.
Proof.
  intros Hvm Ed. assert (kernel_page t) as [_ Ht].
  { unfold path_of in Ed. change [?a; ?b; ?c] with ([a; b] ++ [c]) in Ed. rewrite descend_snoc in Ed.
    destruct (descend _ _ _) as [t1|] eqn:E1; [|done]. destruct (word _ t1 _) as [w|] eqn:Ew; [|done].
    destruct (test w PTE_VALID) eqn:Ev; [|done]. injection Ed as <-.
    destruct (pv_entry _ _ _ (vo_pt _ _ _ _ Hvm) _ t1 _ w (path_ok_prefix [_; _] [_] (path_of_ok va)) E1 Ew Ev) as (q & Hq & Hw).
    rewrite bool_decide_eq_false_2 in Hw by done. destruct (entry_lor q PTE_TABLE Hq ltac:(done)) as [_ _ _ _ T5].
    rewrite <- Hw in T5. fold (page_at w). by rewrite T5. }
  apply Z.eqb_neq. unfold pte_address. cbn [fst snd]. rewrite Z.shiftr_div_pow2 by lia. unfold KSPACE_MASK in Ht. 
  enough (1 ≤ (t + 8 * Z.of_nat (leaf_of va)) / 2 ^ 48) by lia. apply Z.div_le_lower_bound; lia.
Qed.

(** The table that the test builds. *)
Lemma vm_test_table s free p pg : pm_inv kend s (p :: free) → locked (pm_lock s) = false → pm_mem s !! P2K 0 = Some pg → (3 ≤ length free)%nat →
  ∃ s1 s2 free' t, kalloc me s = Ok p s1 ∧
    my_uvm_map me p 0x1000 PGSIZE 0 (set_pm_mem (<[p := zero_page]> (pm_mem s1)) s1) = Ok 0 s2 ∧
    vm_ok kend s2 p free' ∧ kernel_page p ∧ is_Some (pm_mem s1 !! p) ∧ pm_mem s2 !! P2K 0 = Some pg ∧
    descend (pm_mem s2) p (path_of 0x1000) = Some t ∧ pte_of (pm_mem s2) p 0x1000 = Some PTE_USER_DATA.
Proof.
  intros Hpm Hl E0 Hf. destruct (kalloc_Ok kend me s p free Hpm Hl) as (s1 & E1 & Hpm1 & Hl1 & Em1).
  pose proof (pi_nodup _ _ _ Hpm) as [Hnew _]%NoDup_cons.
  assert (p ≠ P2K 0) as Hp0. { intros ->. apply (page0_not_free _ _ Hpm). apply list_elem_of_here. }
  assert (kernel_page p) as Hkp.
  { pose proof (pi_ok _ _ _ Hpm) as [Hok _]%Forall_cons. by apply (free_kernel_page kend); [lia|]. }
  set (s1' := set_pm_mem (<[p := zero_page]> (pm_mem s1)) s1).
  assert (s1' = s1) as Es. { unfold s1', set_pm_mem. rewrite insert_id by (rewrite Em1; apply lookup_insert_eq). by destruct s1. }
  assert (pm_mem s1 !! p = Some zero_page) as Ep by (rewrite Em1; apply lookup_insert_eq).
  assert (vm_ok kend s1 p free) as Hvm by (split; [done|done|by apply empty_pt_inv]).
  destruct (uvm_map_page kend me ltac:(lia) s1 p free 0x1000 (P2K 0)) as (s2 & free' & E2 & Hvm2 & Hg & _ & Hpte);
    [done|done|lia|lia|apply page0_kernel|done|by apply empty_pte_of|].
  specialize (Hpte 0x1000 ltac:(lia)). rewrite decide_True in Hpte by done. change (Z.lor (K2P (P2K 0)) PTE_USER_DATA) with PTE_USER_DATA in Hpte.
  destruct (descend (pm_mem s2) p (path_of 0x1000)) as [t|] eqn:Et; [|unfold pte_of in Hpte; by rewrite Et in Hpte].
  exists s1, s2, free', t. fold s1'. rewrite Es. split_and!; try done.
  rewrite (gr_frame _ _ _ _ _ Hg).
  - by rewrite Em1, lookup_insert_ne.
  - by apply (page0_not_free s1).
  - intros (path & Hpo & Ed). apply (empty_descend _ _ _ _ Ep) in Ed as [_ ?]; [done|done].
Qed.

(** [vm_test] returns, having printed that it passed and nothing else, on every memory
    with four free pages; the new table stays in use. *)
Theorem vm_test_passes s t0 out free pg :
  pm_inv kend s free → locked (pm_lock s) = false → pm_mem s !! P2K 0 = Some pg → length pg = 512%nat → (4 ≤ length free)%nat →
  ∃ s' free' p, vm_test (virtual_memory_init kend me) me ttbr1 (mkVm s t0 out) =
      Ok () (mkVm s' (K2P p) (out ++ [str "Test_Map_Region Pass!"])) ∧ vm_ok kend s' p free'.
Proof.
  intros Hpm Hl E0 Hlen Hf. destruct free as [|p free]; [simpl in Hf; lia|]. simpl in Hf.
  set (s0 := set_pm_mem (<[P2K 0 := <[0%nat := 0xac]> pg]> (pm_mem s)) s).
  assert (pm_inv kend s0 (p :: free)) as Hpm0.
  { destruct Hpm as [H1 H2 H3]. split; [|done|done]. eapply freelist_ext; [exact H1|]. intros x Hx. apply lookup_insert_ne.
    intros <-. by eapply page0_not_free. }
  destruct (vm_test_table s0 free p (<[0%nat := 0xac]> pg)) as (s1 & s2 & free' & t & E1 & E2 & Hvm & Hkp & [pg1 Epg1] & Ezero & Ed & Ep);
    [done|done|apply lookup_insert_eq|lia|].
  exists s2, free', p. split; [|done]. unfold vm_test, uvm_map, pgdir_walk.
  assert (vm_pgdir_walk (virtual_memory_init kend me) p 0x1000 false s2 = Ok (Some (t, leaf_of 0x1000)) s2) as E3.
  { cbn [vm_pgdir_walk virtual_memory_init]. unfold my_pgdir_walk. erewrite (walk_lookup kend me) by (done || lia). by rewrite Ed. }
  assert (pte_get (t, leaf_of 0x1000) s2 = Ok PTE_USER_DATA s2) as E4.
  { apply word_read. unfold pte_of in Ep. rewrite Ed in Ep. destruct (word _ _ _); [|done]. case_match; congruence. }
  erewrite bind_Ok by (apply on_memory_Ok, write_word_Ok; [exact E0|lia]). fold s0.
  erewrite bind_Ok by (by apply on_memory_Ok). erewrite bind_Ok by (apply on_memory_Ok; by eapply zero_fill_Ok).
  erewrite bind_Ok by (apply on_memory_Ok; exact E2). erewrite bind_Ok by done.
  erewrite bind_Ok by (apply on_memory_Ok; exact E3). cbv beta iota.
  rewrite (pte_address_high s2 p free' t) by done. erewrite bind_Ok by done.
  erewrite bind_Ok by (apply on_memory_Ok; exact E4). erewrite bind_Ok by done. erewrite bind_Ok by done.
  rewrite (bind_Ok _ _ _ 0xac (mkVm s2 (K2P p) out)); [reflexivity|]. unfold load. erewrite bind_Ok by done. cbn [v_mem v_ttbr0].
  rewrite (mmu_user _ p free') by (done || lia || apply Hvm). rewrite Ep. erewrite bind_Ok by done.
  apply on_memory_Ok. eapply read_word_Ok; [exact Ezero|]. by apply list_lookup_insert_eq; lia.
Qed.
End test.
