(* ===== verification/VmFree.v ===== *)
(** * Freeing an address space (core/virtual_memory.c: [my_vm_free])

    Which pages [vm_free] gives back, and that the page tables of the last level are lost. *)
From S2P Require Import Prelude Locks PhysMem VirtMem.

Section vmfree.
Context (kend me : Z) (Hkend : KSPACE_MASK ≤ kend).
Implicit Types (m : gmap Z page) (s : PMemory) (free : list Z).

(** The pages that the valid entries of a table point to. *)
Definition kids_of (pg : page) : list Z := page_at <$> filter (λ w, test w PTE_VALID = true) pg.
Definition kids m (p : Z) : list Z := kids_of (default [] (m !! p)).

(** All pages of the tree of [d + 1] levels below table [p], with the user pages. *)
Fixpoint under m (d : nat) (p : Z) : list Z :=
  p :: match d with O => kids m p | S d' => kids m p ≫= under m d' end.
(** The pages that are freed, in this order: all but the tables of the last level. *)
Fixpoint freed_pages m (d : nat) (p : Z) : list Z :=
  match d with O => kids m p | S d' => (kids m p ≫= freed_pages m d') ++ [p] end.
(** The tables of the last level. *)
Fixpoint leaf_tables m (d : nat) (p : Z) : list Z :=
  match d with O => [p] | S d' => kids m p ≫= leaf_tables m d' end.

Lemma bind_single (l : list Z) : l ≫= (λ q, [q]) = l.
Proof. induction l as [|x l IH]; [done|]. by rewrite bind_cons, IH. Qed.

Lemma under_split m d : ∀ p, under m d p ≡ₚ freed_pages m d p ++ leaf_tables m d p.
Proof.
  induction d as [|d IH]; intros p; cbn [under freed_pages leaf_tables]; [by rewrite Permutation_app_comm|].
  rewrite (Permutation_app_comm _ [p]). rewrite <- app_assoc. cbn [app]. f_equiv.
  induction (kids m p) as [|q l IHl]; [done|]. rewrite !bind_cons, IH, IHl. solve_Permutation.
Qed.

(** The user pages of the tree, and its tables above the last level. *)
Fixpoint user_pages m (d : nat) (p : Z) : list Z :=
  match d with O => kids m p | S d' => kids m p ≫= user_pages m d' end.
Fixpoint upper_tables m (d : nat) (p : Z) : list Z :=
  match d with O => [] | S d' => p :: (kids m p ≫= upper_tables m d') end.
Lemma freed_split m d : ∀ p, freed_pages m d p ≡ₚ user_pages m d p ++ upper_tables m d p.
Proof.
  induction d as [|d IH]; intros p; cbn [freed_pages user_pages upper_tables]; [by rewrite app_nil_r|].
  rewrite (Permutation_app_comm _ [p]). rewrite <- Permutation_middle. cbn [app]. f_equiv.
  induction (kids m p) as [|q l IHl]; [done|]. rewrite !bind_cons, IH, IHl. solve_Permutation.
Qed.

(** [l] is memory of the address space below [root], with all user pages and all tables
    above the last level. *)
Record gives_back m (root : Z) (l : list Z) : Prop := {
  gb_user : user_pages m 3 root ⊆ l;
  gb_upper : upper_tables m 3 root ⊆ l;
  gb_only : l ⊆ under m 3 root;
  gb_nodup : NoDup l
}.

Lemma freed_under m d p x : x ∈ freed_pages m d p → x ∈ under m d p.
Proof. intros Hx. rewrite under_split. set_solver. Qed.

(** The loop over the entries of table [p], for a [body] that frees the pages [fr q]
    of the part [un q] below the page [q] of an entry. *)
Lemma free_loop_Ok m p pg (body : Z → M PMemory unit) (fr un : Z → list Z) :
  (∀ q x, x ∈ fr q → x ∈ un q) →
  (∀ q s free, q ∈ kids_of pg → pm_inv kend s free → locked (pm_lock s) = false → NoDup (un q) → (∀ x, x ∈ un q → x ∉ free ∧ pm_mem s !! x = m !! x) →
     ∃ s', body q s = Ok () s' ∧ pm_inv kend s' (reverse (fr q) ++ free) ∧ locked (pm_lock s') = false ∧
       ∀ x, x ∉ fr q → pm_mem s' !! x = pm_mem s !! x) →
  ∀ ws i s free, drop i pg = ws → pm_mem s !! p = Some pg → pm_inv kend s free → locked (pm_lock s) = false →
  NoDup (p :: (kids_of ws ≫= un)) → (∀ x, x ∈ kids_of ws ≫= un → x ∉ free ∧ pm_mem s !! x = m !! x) →
  ∃ s', for_loop (length ws) (Z.of_nat i) (λ i,
      w ← pte_get (p, Z.to_nat i);
      (if test w PTE_VALID then body (P2K (PTE_ADDRESS w)) else mret ());;
      mret (@None unit)) s = Ok None s' ∧
    pm_inv kend s' (reverse (kids_of ws ≫= fr) ++ free) ∧ locked (pm_lock s') = false ∧
    ∀ x, x ∉ kids_of ws ≫= fr → pm_mem s' !! x = pm_mem s !! x.
Proof.
  intros Hfr Hbody. induction ws as [|w ws IH]; intros i s free Hd Ep Hpm Hl Hnd Hun; [by exists s|]. cbn [length for_loop].
  assert (pg !! i = Some w) as Ew.
  { rewrite <- (Nat.add_0_r i), <- lookup_drop, Hd. done. }
  assert (drop (S i) pg = ws) as Hd' by (rewrite <- Nat.add_1_r, <- drop_drop, Hd; done).
  assert (w ∈ pg) as Hin by (by apply (list_elem_of_lookup_2 _ i)).
  replace (Z.of_nat i + 1) with (Z.of_nat (S i)) by lia.
  unfold mbind at 1, M_bind at 1. erewrite bind_Ok by (rewrite Nat2Z.id; by eapply read_word_Ok).
  unfold kids_of in Hnd, Hun |- *. rewrite filter_cons in Hnd, Hun |- *. destruct (test w PTE_VALID) eqn:Et.
  2:{ rewrite decide_False in Hnd, Hun |- * by done. cbn beta iota. erewrite bind_Ok by done. by apply IH. }
  rewrite decide_True in Hnd, Hun |- * by done. rewrite fmap_cons, bind_cons in Hnd, Hun |- *. change (P2K (PTE_ADDRESS w)) with (page_at w).
  apply NoDup_cons in Hnd as [Hp (Hn1 & Hn2 & Hn3)%NoDup_app]. rewrite elem_of_app in Hp.
  destruct (Hbody (page_at w) s free) as (s1 & E1 & Hpm1 & Hl1 & Hag1); try done.
  { unfold kids_of. apply list_elem_of_fmap_2. by apply list_elem_of_filter. }
  { intros x Hx. apply Hun. set_solver. }
  assert (∀ x, x ∈ (page_at <$> filter (λ w, test w PTE_VALID = true) ws) ≫= un → x ∉ fr (page_at w)) as Hdis.
  { intros x Hx Hf. by apply (Hn2 x); [apply Hfr|]. }
  destruct (IH (S i) s1 (reverse (fr (page_at w)) ++ free)) as (s2 & E2 & Hpm2 & Hl2 & Hag2); try done.
  { rewrite Hag1; [done|]. intros Hf. apply Hp. left. by apply Hfr. }
  { apply NoDup_cons. split; [tauto|done]. }
  { intros x Hx. split.
    - rewrite elem_of_app, elem_of_reverse. intros [Hf|Hf]; [by apply (Hdis x)|]. revert Hf. apply Hun. set_solver.
    - rewrite Hag1 by (by apply Hdis). apply Hun. set_solver. }
  exists s2. split_and!; [|by rewrite reverse_app, <- app_assoc|done|].
  - erewrite bind_Ok by exact E1. exact E2.
  - intros x Hx. rewrite Hag2, Hag1; [done|set_solver|set_solver].
Qed.

Lemma kids_lookup m p pg : m !! p = Some pg → kids m p = kids_of pg.
Proof. unfold kids. by intros ->. Qed.

(** A page of the tree: present, of full size, and an address that [kfree] takes. *)
Definition tree_page m x : Prop := err_addr kend x = false ∧ ∃ pg, m !! x = Some pg ∧ length pg = 512%nat.

Lemma vm_free_r_Ok m : ∀ d p s free,
  pm_inv kend s free → locked (pm_lock s) = false → NoDup (under m d p) → Forall (tree_page m) (under m d p) →
  (∀ x, x ∈ under m d p → x ∉ free ∧ pm_mem s !! x = m !! x) →
  ∃ s', vm_free_r kend me d p s = Ok () s' ∧ pm_inv kend s' (reverse (freed_pages m d p) ++ free) ∧ locked (pm_lock s') = false ∧
    ∀ x, x ∉ freed_pages m d p → pm_mem s' !! x = pm_mem s !! x.
Proof.
  assert (∀ x s free, pm_inv kend s free → locked (pm_lock s) = false → tree_page m x → x ∉ free → pm_mem s !! x = m !! x →
    ∃ s', kfree kend me x s = Ok () s' ∧ pm_inv kend s' (x :: free) ∧ locked (pm_lock s') = false ∧ ∀ y, y ≠ x → pm_mem s' !! y = pm_mem s !! y) as Hfree.
  { intros x s free Hpm Hl [He (pg & Epg & _)] Hx Em. rewrite Epg in Em. destruct (free_kernel_page kend x Hkend He) as [_ H0].
    destruct (kfree_Ok kend me s x free pg Hpm Hl He H0 Hx Em) as (s' & E & H1 & H2 & H3). exists s'. split_and!; try done.
    intros y Hy. by rewrite H3, lookup_insert_ne. }
  induction d as [|d IH]; intros p s free Hpm Hl Hnd Htp Hx; cbn [vm_free_r under freed_pages] in *;
    apply Forall_cons in Htp as [Hp Htp]; destruct Hp as [Hpe (pg & Epg & Hpl)]; rewrite (kids_lookup m p pg Epg) in Hnd, Htp, Hx |- *;
    (assert (pm_mem s !! p = Some pg) as Eps by (rewrite <- Epg; apply Hx; set_solver));
    change (Z.to_nat N_PTE_PER_TABLE) with 512%nat; rewrite <- Hpl.
  - destruct (free_loop_Ok m p pg (λ q, kfree kend me q) (λ q, [q]) (λ q, [q]) ltac:(done)) with (ws := pg) (i := 0%nat) (s := s) (free := free)
      as (s' & E & H1 & H2 & H3); rewrite ?bind_single in *; try done.
    + intros q s1 free1 Hq Hpm1 Hl1 _ Hx1. destruct (Hx1 q) as [? ?]; [set_solver|]. rewrite Forall_forall in Htp.
      destruct (Hfree q s1 free1) as (s2 & ? & ? & ? & Ho); try done; [by apply Htp|]. exists s2. split_and!; try done. intros x Hxq. apply Ho. set_solver.
    + intros x Hxk. apply Hx. set_solver.
    + exists s'. split_and!; try done. by erewrite bind_Ok by exact E.
  - destruct (free_loop_Ok m p pg (vm_free_r kend me d) (freed_pages m d) (under m d) (freed_under m d)) with (ws := pg) (i := 0%nat) (s := s) (free := free)
      as (s1 & E & H1 & H2 & H3); try done.
    + intros q s1 free1 Hq Hpm1 Hl1 Hn1 Hx1. apply IH; try done. eapply Forall_forall. intros x Hxq. rewrite Forall_forall in Htp.
      apply Htp. apply list_elem_of_bind. by exists q.
    + intros x Hxk. apply Hx. set_solver.
    + apply NoDup_cons in Hnd as [Hpn Hnd].
      assert (p ∉ kids_of pg ≫= freed_pages m d) as Hpf.
      { rewrite list_elem_of_bind. intros (q & Hq & Hk). apply Hpn, list_elem_of_bind. exists q. split; [by apply freed_under|done]. }
      destruct (Hfree p s1 (reverse (kids_of pg ≫= freed_pages m d) ++ free)) as (s2 & E2 & H4 & H5 & H6); try done.
      * split; [done|]. by exists pg.
      * rewrite elem_of_app, elem_of_reverse. intros [?|Hf]; [done|]. revert Hf. apply Hx. set_solver.
      * rewrite H3 by done. by rewrite Eps, Epg.
      * exists s2. split_and!; try done.
        -- erewrite bind_Ok by exact E. exact E2.
        -- by rewrite reverse_snoc.
        -- intros x Hxn. rewrite H6, H3; [done|set_solver|set_solver].
Qed.

Lemma freed_gives_back m root : NoDup (under m 3 root) → gives_back m root (reverse (freed_pages m 3 root)).
Proof.
  intros Hnd. rewrite under_split in Hnd. apply NoDup_app in Hnd as (Hnd & _). split.
  - intros x Hx. rewrite elem_of_reverse, freed_split. apply elem_of_app. by left.
  - intros x Hx. rewrite elem_of_reverse, freed_split. apply elem_of_app. by right.
  - intros x Hx. apply freed_under. by rewrite <- elem_of_reverse.
  - by rewrite reverse_Permutation.
Qed.

(** C29. [vm_free] on the page table of a process returns and gives back all its user
    pages, the root and the other tables above the last level, each once, and nothing that
    is not of this address space; the free list is well-formed again, and no page that was
    not given back changes. *)
Theorem vm_free_correct s free root :
  pm_inv kend s free → locked (pm_lock s) = false → NoDup (under (pm_mem s) 3 root) →
  Forall (tree_page (pm_mem s)) (under (pm_mem s) 3 root) → (∀ x, x ∈ under (pm_mem s) 3 root → x ∉ free) →
  ∃ s' l, my_vm_free kend me root s = Ok () s' ∧ gives_back (pm_mem s) root l ∧ pm_inv kend s' (l ++ free) ∧
    locked (pm_lock s') = false ∧ ∀ x, x ∉ l → pm_mem s' !! x = pm_mem s !! x.
Proof.
  intros Hpm Hl Hnd Htp Hfree. destruct (vm_free_r_Ok (pm_mem s) 3 root s free Hpm Hl Hnd Htp) as (s' & E & H1 & H2 & H3).
  { intros x Hx. split; [by apply Hfree|done]. }
  exists s', (reverse (freed_pages (pm_mem s) 3 root)). split_and!; try done; [by apply freed_gives_back|].
  intros x Hx. apply H3. by rewrite <- elem_of_reverse.
Qed.

(** The tables of the last level are lost: they are not in the free list afterwards. *)
Lemma vm_free_leaks s free root :
  pm_inv kend s free → locked (pm_lock s) = false → NoDup (under (pm_mem s) 3 root) →
  Forall (tree_page (pm_mem s)) (under (pm_mem s) 3 root) → (∀ x, x ∈ under (pm_mem s) 3 root → x ∉ free) →
  ∃ s' free', my_vm_free kend me root s = Ok () s' ∧ pm_inv kend s' free' ∧ ∀ x, x ∈ leaf_tables (pm_mem s) 3 root → x ∉ free'.
Proof.
  intros Hpm Hl Hnd Htp Hfree. destruct (vm_free_r_Ok (pm_mem s) 3 root s free Hpm Hl Hnd Htp) as (s' & E & H1 & H2 & H3).
  { intros x Hx. split; [by apply Hfree|done]. }
  exists s', (reverse (freed_pages (pm_mem s) 3 root) ++ free). split; [exact E|]. split; [exact H1|].
  intros x Hx. rewrite elem_of_app, elem_of_reverse.
  assert (x ∈ under (pm_mem s) 3 root) as Hu by (rewrite under_split; apply elem_of_app; by right). intros [Hf|Hf]; [|by apply (Hfree x)].
  rewrite under_split in Hnd. apply NoDup_app in Hnd as (_ & Hnd & _). by apply (Hnd x).
Qed.
End vmfree.

(** ** One user page below a chain of tables, and one free page *)
Definition vf_page (k : Z) : Z := 0xffff000000101000 + k * 4096.
Definition vf_table (k : Z) : page := <[0%nat := Z.lor (K2P (vf_page k)) PTE_TABLE]> zero_page.
Definition vf_demo : PMemory :=
  {| pm_lock := init_spinlock "pmem"; pm_head := vf_page 9;
     pm_mem := {[ vf_page 0 := vf_table 1; vf_page 1 := vf_table 2; vf_page 2 := vf_table 3;
                  vf_page 3 := <[0%nat := Z.lor (K2P (vf_page 4)) PTE_USER_DATA]> zero_page;
                  vf_page 4 := replicate 512 7; vf_page 9 := free_page NULL ]} |}.

Lemma vf_under : under (pm_mem vf_demo) 3 (vf_page 0) = vf_page <$> [0; 1; 2; 3; 4].
Proof. by vm_compute. Qed.

Lemma vm_free_correct_witness :
  ∃ s' l, my_vm_free demo_kend 0 (vf_page 0) vf_demo = Ok () s' ∧ pm_inv demo_kend s' (l ++ [vf_page 9]) ∧
    vf_page <$> [0; 1; 2; 4] ⊆ l.
Proof.
  destruct (vm_free_correct demo_kend 0 ltac:(vm_compute; congruence) vf_demo [vf_page 9] (vf_page 0)) as (s' & l & E & [G1 G2 _ _] & Hpm & _ & _).
  - split; [split; [reflexivity|]; split; [vm_compute; congruence|]; eexists _, _; split; [vm_compute; reflexivity|]; split; [reflexivity|]; split; reflexivity| |].
    + apply NoDup_singleton.
    + repeat constructor.
  - reflexivity.
  - rewrite vf_under. apply (bool_decide_unpack _). vm_compute. exact I.
  - rewrite vf_under. repeat (apply Forall_cons; split); try apply Forall_nil; try exact I;
      (split; [reflexivity|]; eexists; split; [vm_compute; reflexivity|reflexivity]).
  - rewrite vf_under. intros x Hx. assert (Forall (λ x, x ∉ [vf_page 9]) (vf_page <$> [0; 1; 2; 3; 4])) as Hf.
    { apply (bool_decide_unpack _). vm_compute. exact I. }
    rewrite Forall_forall in Hf. exact (Hf x Hx).
  - exists s', l. split; [exact E|]. split; [exact Hpm|].
    assert (vf_page <$> [0; 1; 2; 4] ⊆ upper_tables (pm_mem vf_demo) 3 (vf_page 0) ++ user_pages (pm_mem vf_demo) 3 (vf_page 0)) as Hs.
    { assert (upper_tables (pm_mem vf_demo) 3 (vf_page 0) ++ user_pages (pm_mem vf_demo) 3 (vf_page 0) = vf_page <$> [0; 1; 2; 4]) as -> by (vm_compute; reflexivity). done. }
    intros x Hx. apply Hs in Hx. apply elem_of_app in Hx as [Hx|Hx]; [exact (G2 x Hx)|exact (G1 x Hx)].
Defined.
