(* ===== verification/Sched.v ===== *)
(** * The process table and the scheduler (core/proc.h, core/sched.c, core/sched.h,
    core/container.h, and the process-table part of core/proc.c and core/container.c)

    A container holds a scheduler, and a scheduler holds a table of processes; a
    pointer to a container (or to the scheduler inside it) is the index of the
    container in allocation order, and a pointer to a process is the index of its
    container and its slot. [swtch] gives the CPU to another thread, so every
    function that switches is cut at the switch: the part before it and the part
    that runs when the thread is resumed are definitions of their own, which
    SchedMachine.v puts together again as the steps of the CPUs. *)
From S2P Require Import Prelude Locks PhysMem.

Definition NPROC : Z := 14.
Definition NOFILE : Z := 8.
Definition KSTACKSIZE : Z := 4096.
Definition NCPU : Z := 4.
Definition NPID : Z := 64.

Inductive procstate := UNUSED | EMBRYO | SLEEPING | RUNNABLE | RUNNING | ZOMBIE.
#[global] Instance procstate_eq_dec : EqDecision procstate.
Proof. solve_decision. Defined.

(** A process pointer: container and slot. *)
Abbreviation pptr := (nat * nat)%type.

Record Proc := mkProc {
  p_sz : Z;
  p_pgdir : Z;
  p_kstack : Z;
  p_state : procstate;
  p_pid : Z;
  p_parent : option pptr;
  p_tf : Z;
  p_context : Z;
  p_chan : Z;
  p_killed : Z;
  p_name : list Z;
  p_cont : option nat;
  p_is_scheduler : bool;
  p_ofile : list (option Z);
  p_cwd : Z;
  p_stksz : Z;
  p_base : Z
}.

(** An all-zero entry. *)
Definition zero_proc : Proc :=
  mkProc 0 0 0 UNUSED 0 None 0 0 0 0 (replicate 16 0) None false (replicate 8 None) 0 0 0.

Definition with_state x (p : Proc) : Proc := mkProc (p_sz p) (p_pgdir p) (p_kstack p) x (p_pid p) (p_parent p) (p_tf p) (p_context p) (p_chan p) (p_killed p) (p_name p) (p_cont p) (p_is_scheduler p) (p_ofile p) (p_cwd p) (p_stksz p) (p_base p).
Definition with_pid x (p : Proc) : Proc := mkProc (p_sz p) (p_pgdir p) (p_kstack p) (p_state p) x (p_parent p) (p_tf p) (p_context p) (p_chan p) (p_killed p) (p_name p) (p_cont p) (p_is_scheduler p) (p_ofile p) (p_cwd p) (p_stksz p) (p_base p).
Definition with_parent x (p : Proc) : Proc := mkProc (p_sz p) (p_pgdir p) (p_kstack p) (p_state p) (p_pid p) x (p_tf p) (p_context p) (p_chan p) (p_killed p) (p_name p) (p_cont p) (p_is_scheduler p) (p_ofile p) (p_cwd p) (p_stksz p) (p_base p).
Definition with_chan x (p : Proc) : Proc := mkProc (p_sz p) (p_pgdir p) (p_kstack p) (p_state p) (p_pid p) (p_parent p) (p_tf p) (p_context p) x (p_killed p) (p_name p) (p_cont p) (p_is_scheduler p) (p_ofile p) (p_cwd p) (p_stksz p) (p_base p).
Definition with_killed x (p : Proc) : Proc := mkProc (p_sz p) (p_pgdir p) (p_kstack p) (p_state p) (p_pid p) (p_parent p) (p_tf p) (p_context p) (p_chan p) x (p_name p) (p_cont p) (p_is_scheduler p) (p_ofile p) (p_cwd p) (p_stksz p) (p_base p).
Definition with_sz x (p : Proc) : Proc := mkProc x (p_pgdir p) (p_kstack p) (p_state p) (p_pid p) (p_parent p) (p_tf p) (p_context p) (p_chan p) (p_killed p) (p_name p) (p_cont p) (p_is_scheduler p) (p_ofile p) (p_cwd p) (p_stksz p) (p_base p).
Definition with_pgdir x (p : Proc) : Proc := mkProc (p_sz p) x (p_kstack p) (p_state p) (p_pid p) (p_parent p) (p_tf p) (p_context p) (p_chan p) (p_killed p) (p_name p) (p_cont p) (p_is_scheduler p) (p_ofile p) (p_cwd p) (p_stksz p) (p_base p).
Definition with_kstack x (p : Proc) : Proc := mkProc (p_sz p) (p_pgdir p) x (p_state p) (p_pid p) (p_parent p) (p_tf p) (p_context p) (p_chan p) (p_killed p) (p_name p) (p_cont p) (p_is_scheduler p) (p_ofile p) (p_cwd p) (p_stksz p) (p_base p).
Definition with_frames tf context (p : Proc) : Proc := mkProc (p_sz p) (p_pgdir p) (p_kstack p) (p_state p) (p_pid p) (p_parent p) tf context (p_chan p) (p_killed p) (p_name p) (p_cont p) (p_is_scheduler p) (p_ofile p) (p_cwd p) (p_stksz p) (p_base p).
Definition with_name x (p : Proc) : Proc := mkProc (p_sz p) (p_pgdir p) (p_kstack p) (p_state p) (p_pid p) (p_parent p) (p_tf p) (p_context p) (p_chan p) (p_killed p) x (p_cont p) (p_is_scheduler p) (p_ofile p) (p_cwd p) (p_stksz p) (p_base p).
Definition with_scheduler c (p : Proc) : Proc := mkProc (p_sz p) (p_pgdir p) (p_kstack p) (p_state p) (p_pid p) (p_parent p) (p_tf p) (p_context p) (p_chan p) (p_killed p) (p_name p) (Some c) true (p_ofile p) (p_cwd p) (p_stksz p) (p_base p).
Definition with_ofile x (p : Proc) : Proc := mkProc (p_sz p) (p_pgdir p) (p_kstack p) (p_state p) (p_pid p) (p_parent p) (p_tf p) (p_context p) (p_chan p) (p_killed p) (p_name p) (p_cont p) (p_is_scheduler p) x (p_cwd p) (p_stksz p) (p_base p).
Definition with_cwd x (p : Proc) : Proc := mkProc (p_sz p) (p_pgdir p) (p_kstack p) (p_state p) (p_pid p) (p_parent p) (p_tf p) (p_context p) (p_chan p) (p_killed p) (p_name p) (p_cont p) (p_is_scheduler p) (p_ofile p) x (p_stksz p) (p_base p).
Definition with_stack stksz base (p : Proc) : Proc := mkProc (p_sz p) (p_pgdir p) (p_kstack p) (p_state p) (p_pid p) (p_parent p) (p_tf p) (p_context p) (p_chan p) (p_killed p) (p_name p) (p_cont p) (p_is_scheduler p) (p_ofile p) (p_cwd p) stksz base.

Record pid_mapping := mkPidMap { pm_valid : bool; pm_pid_local : Z; pm_p : option pptr }.
Inductive resource_t := MEMORY | PID | INODE.

(** [struct container] with its [struct scheduler] inside. [scheduler.cont] is the
    container itself, as [alloc_container] sets it, and [scheduler.op], which is
    [&simple_op] once it is set, is a flag. *)
Record Container := mkContainer {
  c_p : option pptr;
  c_op : bool;                 (* [scheduler.op] is set *)
  c_context : list Z;          (* [scheduler.context] *)
  c_proc : list Proc;          (* [scheduler.ptable.proc] *)
  c_ptlock : SpinLock;         (* [scheduler.ptable.lock] *)
  c_pid : Z;                   (* [scheduler.pid] *)
  c_sparent : nat;              (* [scheduler.parent] *)
  c_lock : SpinLock;
  c_parent : nat;
  c_pmap : list pid_mapping
}.

Definition with_procs x (c : Container) : Container := mkContainer (c_p c) (c_op c) (c_context c) x (c_ptlock c) (c_pid c) (c_sparent c) (c_lock c) (c_parent c) (c_pmap c).
Definition with_ptlock x (c : Container) : Container := mkContainer (c_p c) (c_op c) (c_context c) (c_proc c) x (c_pid c) (c_sparent c) (c_lock c) (c_parent c) (c_pmap c).
Definition with_clock x (c : Container) : Container := mkContainer (c_p c) (c_op c) (c_context c) (c_proc c) (c_ptlock c) (c_pid c) (c_sparent c) x (c_parent c) (c_pmap c).
Definition with_pids pid pmap (c : Container) : Container := mkContainer (c_p c) (c_op c) (c_context c) (c_proc c) (c_ptlock c) pid (c_sparent c) (c_lock c) (c_parent c) pmap.

(** [struct cpu], with the register [ttbr0_el1] that [uvm_switch] sets. *)
Record Cpu := mkCpu { cpu_scheduler : option nat; cpu_proc : option pptr; cpu_ttbr0 : Z }.

(** The containers, the CPUs, and the spin locks that callers hand to [sleep]. *)
Record Sys := mkSys {
  sy_conts : list Container;
  sy_cpus : list Cpu;
  sy_locks : gmap Z SpinLock;
  sy_initproc : option pptr
}.

Definition set_conts x (s : Sys) : Sys := mkSys x (sy_cpus s) (sy_locks s) (sy_initproc s).
Definition set_cpus x (s : Sys) : Sys := mkSys (sy_conts s) x (sy_locks s) (sy_initproc s).
Definition set_locks x (s : Sys) : Sys := mkSys (sy_conts s) (sy_cpus s) x (sy_initproc s).
Definition set_initproc x (s : Sys) : Sys := mkSys (sy_conts s) (sy_cpus s) (sy_locks s) x.

Definition get_cont (c : nat) : M Sys Container := s ← getS; derefM (sy_conts s !! c).
Definition upd_cont (c : nat) (f : Container → Container) : M Sys unit :=
  get_cont c;; modify (λ s, set_conts (alter f c (sy_conts s)) s).
Definition lookup_proc (s : Sys) (p : pptr) : option Proc :=
  match sy_conts s !! p.1 with Some c => c_proc c !! p.2 | None => None end.
Definition get_proc (p : pptr) : M Sys Proc := s ← getS; derefM (lookup_proc s p).
Definition alter_proc (p : pptr) (f : Proc → Proc) (s : Sys) : Sys :=
  set_conts (alter (λ c, with_procs (alter f p.2 (c_proc c)) c) p.1 (sy_conts s)) s.
Definition upd_proc (p : pptr) (f : Proc → Proc) : M Sys unit :=
  get_proc p;; modify (alter_proc p f).

Section sched.
Context (me : nat).

Definition thiscpu : M Sys Cpu := s ← getS; derefM (sy_cpus s !! me).
Definition alter_cpu (f : Cpu → Cpu) (s : Sys) : Sys := set_cpus (alter f me (sy_cpus s)) s.
Definition set_cpu_proc (p : option pptr) : M Sys unit :=
  thiscpu;; modify (alter_cpu (λ u, mkCpu (cpu_scheduler u) p (cpu_ttbr0 u))).
Definition set_cpu_scheduler (c : nat) : M Sys unit :=
  thiscpu;; modify (alter_cpu (λ u, mkCpu (Some c) (cpu_proc u) (cpu_ttbr0 u))).
Definition uvm_switch (pgdir : Z) : M Sys unit :=
  thiscpu;; modify (alter_cpu (λ u, mkCpu (cpu_scheduler u) (cpu_proc u) (K2P pgdir))).

(** [thiscpu()->proc], dereferenced. *)
Definition current : M Sys pptr := u ← thiscpu; derefM (cpu_proc u).

(** ** Locks *)

(** The outcome of an operation on a lock, which lies somewhere in the state. *)
Definition relay (o : outcome SpinLock unit) (store : SpinLock → M Sys unit) : M Sys unit :=
  match o with
  | Ok _ l => store l
  | Panic e => panic e
  | Blocked _ => blocked
  | Undef => undef
  | NoFuel => nofuel
  end.
Definition on_ptlock (c : nat) (m : M SpinLock unit) : M Sys unit :=
  C ← get_cont c;
  relay (m (c_ptlock C)) (λ l, upd_cont c (with_ptlock l)).
Definition acquire_ptable_lock (this : nat) : M Sys unit := on_ptlock this (acquire_spinlock (Z.of_nat me)).
Definition release_ptable_lock (this : nat) : M Sys unit := on_ptlock this release_spinlock.
Definition init_sched_simple (this : nat) : M Sys unit := upd_cont this (with_ptlock (init_spinlock "ptable")).

(** [thiscpu()->scheduler] with its operations: [scheduler->op] is dereferenced. *)
Definition this_scheduler : M Sys nat :=
  u ← thiscpu; c ← derefM (cpu_scheduler u); C ← get_cont c; if c_op C then mret c else undef.
Definition acquire_sched_lock : M Sys unit := c ← this_scheduler; acquire_ptable_lock c.
Definition release_sched_lock : M Sys unit := c ← this_scheduler; release_ptable_lock c.

Definition init_cpu (scheduler : nat) : M Sys unit := set_cpu_scheduler scheduler.

(** A lock of the caller of [sleep]. *)
Definition on_lock (l : Z) (m : M SpinLock unit) : M Sys unit :=
  s ← getS; k ← derefM (sy_locks s !! l);
  relay (m k) (λ k', modify (set_locks (<[l := k']> (sy_locks s)))).

(** ** Process identifiers (container.c) *)

(** The first entry of the map that is not in use. *)
Fixpoint free_pid (l : list pid_mapping) (i : nat) : option nat :=
  match l with
  | [] => None
  | m :: l' => if pm_valid m then free_pid l' (S i) else Some i
  end.
Definition take_pid (p : pptr) (C : Container) : Container :=
  match free_pid (c_pmap C) 0 with
  | Some i =>
      let pid := i32 (c_pid C + 1) in
      with_pids pid (<[i := mkPidMap true pid (Some p)]> (c_pmap C)) C
  | None => C
  end.
Definition on_clock (c : nat) (m : M SpinLock unit) : M Sys unit :=
  C ← get_cont c;
  relay (m (c_lock C)) (λ l, upd_cont c (with_clock l)).
(** The parent of a container is older than the container, so its index plus one is
    enough fuel for the walk to the root. *)
Fixpoint alloc_resource (fuel : nat) (this : nat) (p : pptr) (resource : resource_t) : M Sys Z :=
  match fuel with
  | O => nofuel
  | S fuel' =>
      on_clock this (acquire_spinlock (Z.of_nat me));;
      (match resource with PID => upd_cont this (take_pid p) | _ => mret () end);;
      C ← get_cont this;
      (if (c_parent C =? this)%nat then mret () else alloc_resource fuel' (c_parent C) p PID;; mret ());;
      on_clock this release_spinlock;;
      C ← get_cont this;
      mret (c_pid C)
  end.

Fixpoint free_proc (l : list Proc) (i : nat) : option nat :=
  match l with
  | [] => None
  | p :: l' => if decide (p_state p = UNUSED) then Some i else free_proc l' (S i)
  end.
(** [None] for the null pointer. *)
Definition alloc_pcb_simple (this : nat) : M Sys (option pptr) :=
  acquire_sched_lock;;
  C ← get_cont this;
  match free_proc (c_proc C) 0 with
  | Some i =>
      pid ← alloc_resource (S this) this (this, i) PID;
      upd_proc (this, i) (with_pid (i32 pid));;
      release_sched_lock;;
      mret (Some (this, i))
  | None => release_sched_lock;; mret None
  end.
Definition alloc_pcb : M Sys (option pptr) :=
  u ← thiscpu;
  assertM (bool_decide (is_Some (cpu_scheduler u))) "thiscpu()->scheduler != NULL";;
  c ← derefM (cpu_scheduler u);
  C ← get_cont c;
  assertM (c_op C) "thiscpu()->scheduler->op != NULL";;
  alloc_pcb_simple c.

(** ** Switching *)

(** [sched_simple] up to [swtch]. *)
Definition sched_simple (this : nat) : M Sys unit :=
  C ← get_cont this;
  (if negb (holding_spinlock (c_ptlock C)) then panic "sched: not holding ptable lock" else mret ());;
  p ← current;
  x ← get_proc p;
  (if decide (p_state x = RUNNING) then panic "sched: process running" else mret ()).
Definition sched : M Sys unit := c ← this_scheduler; sched_simple c.

(** [yield_scheduler] up to [swtch]; false when it returns at once, at the root. *)
Definition yield_scheduler_out (this : nat) : M Sys bool :=
  C ← get_cont this;
  if (this =? c_sparent C)%nat then mret false
  else
    acquire_ptable_lock (c_sparent C);;
    set_cpu_scheduler (c_sparent C);;
    p ← derefM (c_p C);
    upd_proc p (with_state RUNNABLE);;
    release_ptable_lock this;;
    mret true.
(** [yield_scheduler] from [swtch] on. *)
Definition yield_scheduler_in (this : nat) : M Sys unit :=
  acquire_ptable_lock this;;
  set_cpu_scheduler this;;
  C ← get_cont this;
  release_ptable_lock (c_sparent C).

(** The body of the inner loop of [scheduler_simple] at slot [k], up to [swtch]:
    the process that gets the CPU, or [None] when the slot is passed over. *)
Definition scheduler_visit (this k : nat) : M Sys (option pptr) :=
  acquire_sched_lock;;
  x ← get_proc (this, k);
  if decide (p_state x = RUNNABLE) then
    upd_proc (this, k) (with_state RUNNING);;
    set_cpu_proc (Some (this, k));;
    (if p_is_scheduler x then mret () else uvm_switch (p_pgdir x));;
    mret (Some (this, k))
  else
    release_sched_lock;;
    mret None.
(** The rest of the body, from the first [swtch] to the one in [yield_scheduler]. *)
Definition scheduler_back (this : nat) : M Sys bool :=
  C ← get_cont this;
  set_cpu_proc (c_p C);;
  out ← yield_scheduler_out this;
  if (out : bool) then mret true
  else
    set_cpu_proc (c_p C);;
    release_sched_lock;;
    mret false.
(** The rest of the body, when it is resumed in [yield_scheduler]. *)
Definition scheduler_again (this : nat) : M Sys unit :=
  yield_scheduler_in this;;
  C ← get_cont this;
  set_cpu_proc (c_p C);;
  release_sched_lock.
(** After the inner loop: [acquire_sched_lock] and then this. *)
Definition scheduler_round (this : nat) : M Sys bool :=
  out ← yield_scheduler_out this;
  if (out : bool) then mret true else release_sched_lock;; mret false.
Definition scheduler_round_again (this : nat) : M Sys unit :=
  yield_scheduler_in this;;
  release_sched_lock.
(** The head of [scheduler_simple]. *)
Definition scheduler_enter (this : nat) : M Sys unit :=
  C ← get_cont this; set_cpu_proc (c_p C).
(** [container_entry] up to the loop of the scheduler; [do_cont_test] is false. *)
Definition container_entry : M Sys unit :=
  release_sched_lock;;
  p ← current;
  x ← get_proc p;
  c ← derefM (p_cont x);
  set_cpu_scheduler c;;
  scheduler_enter c.

(** ** The process-table part of proc.c *)

(** [yield] up to [swtch]; it ends with [yield_resume]. *)
Definition yield : M Sys unit :=
  acquire_sched_lock;;
  p ← current;
  upd_proc p (with_state RUNNABLE);;
  sched.
Definition yield_resume : M Sys unit := release_sched_lock.

(** [sleep(chan, lock)]. [None] is the lock of the process table. The three parts
    are: taking the lock of the process table, giving up the lock of the caller,
    and parking; [sleep_resume] and [sleep_relock] run after the switch. *)
Definition sleep_lock (lock : option Z) : M Sys unit :=
  match lock with Some _ => acquire_sched_lock | None => mret () end.
Definition sleep_unlock (lock : option Z) : M Sys unit :=
  match lock with Some l => on_lock l release_spinlock | None => mret () end.
Definition sleep_park (chan : Z) : M Sys unit :=
  p ← current;
  upd_proc p (λ x, with_state SLEEPING (with_chan chan x));;
  sched.
Definition sleep_resume (p : pptr) (lock : option Z) : M Sys unit :=
  upd_proc p (with_chan 0);;
  match lock with Some _ => release_sched_lock | None => mret () end.
Definition sleep_relock (lock : option Z) : M Sys unit :=
  match lock with Some l => on_lock l (acquire_spinlock (Z.of_nat me)) | None => mret () end.

(** [wakeup1], also the loop of [wakeup]. *)
Definition wakes (cp : option pptr) (chan : Z) (p : pptr) (x : Proc) : bool :=
  bool_decide (Some p ≠ cp) && bool_decide (p_state x = SLEEPING) && (p_chan x =? chan).
Definition wakeup1 (chan : Z) : M Sys unit :=
  u ← thiscpu;
  c ← derefM (cpu_scheduler u);
  for_loop (Z.to_nat NPROC) 0 (λ i,
    x ← get_proc (c, Z.to_nat i);
    (if wakes (cpu_proc u) chan (c, Z.to_nat i) x then upd_proc (c, Z.to_nat i) (with_state RUNNABLE) else mret ());;
    mret (@None unit));;
  mret ().
Definition wakeup (chan : Z) : M Sys unit :=
  acquire_sched_lock;;
  wakeup1 chan;;
  release_sched_lock.

(** The address of a process, as the channel it waits on in [wait]. *)
Definition proc_chan (p : pptr) : Z := 1 + 16 * Z.of_nat p.1 + Z.of_nat p.2.
Definition parent_chan (p : option pptr) : Z := match p with Some p => proc_chan p | None => NULL end.

(** [exit] from [acquire_sched_lock] on, up to [swtch]. *)
Definition exit_sched : M Sys unit :=
  p ← current;
  acquire_sched_lock;;
  x ← get_proc p;
  wakeup1 (parent_chan (p_parent x));;
  c ← this_scheduler;
  ip ← gets sy_initproc;
  for_loop (Z.to_nat NPROC) 0 (λ i,
    q ← get_proc (c, Z.to_nat i);
    (if decide (p_parent q = Some p) then
       upd_proc (c, Z.to_nat i) (with_parent ip);;
       (if decide (p_state q = ZOMBIE) then wakeup1 (parent_chan ip) else mret ())
     else mret ());;
    mret (@None unit));;
  upd_proc p (with_state ZOMBIE);;
  sched.

(** One pass of the loop of [wait], with the lock of the process table held:
    a dead child was found and its entry released, what is left to do being
    [vm_free(q->pgdir)], [kfree(q->kstack - KSTACKSIZE)] and the release of the
    lock; there is nothing to wait for; or the process has to sleep. *)
Inductive wait_result := Reaped (pid pgdir kstack : Z) | NoChild | MustSleep.
Definition reap (x : Proc) : Proc :=
  with_killed 0 (with_state UNUSED (with_pid 0 (with_parent None x))).
Fixpoint wait_scan (n : nat) (c i : nat) (tp : pptr) (kids : bool) : M Sys (wait_result + bool) :=
  match n with
  | O => mret (inr kids)
  | S n' =>
      q ← get_proc (c, i);
      if decide (p_parent q ≠ Some tp) then wait_scan n' c (S i) tp kids
      else if decide (p_state q = ZOMBIE) then
        upd_proc (c, i) reap;;
        mret (inl (Reaped (p_pid q) (p_pgdir q) (p_kstack q)))
      else wait_scan n' c (S i) tp true
  end.
Definition wait_pass (tp : pptr) : M Sys wait_result :=
  c ← this_scheduler;
  r ← wait_scan (Z.to_nat NPROC) c 0 tp false;
  match r with
  | inl w => mret w
  | inr kids =>
      t ← get_proc tp;
      if negb kids || negb (p_killed t =? 0) then release_sched_lock;; mret NoChild else mret MustSleep
  end.
End sched.
