(* ===== verification/SchedMachine.v ===== *)
(** * The CPUs and their threads (core/sched.c, core/container.c, core/proc.c)

    The functions of Sched.v as the steps of a machine with [NCPU] processors.
    There is one thread per process and, for every container, one scheduler thread
    per CPU; [swtch] gives the CPU to another thread, with the lock of the process
    table still held, and the thread that is resumed releases it. A thread is
    interrupted only where it takes or releases a lock or switches, so a step is
    the code between two such points. *)
From S2P Require Import Prelude Locks PhysMem Sched.

Inductive thread := Sch (c : nat) | Pr (p : pptr).
#[global] Instance thread_eq_dec : EqDecision thread.
Proof. solve_decision. Defined.

(** Where the scheduler thread of a container is. *)
Inductive spc :=
| SVisit (k : nat)    (* about to take the lock for slot [k], or for the end of the round *)
| SSwitch (k : nat)   (* in the [swtch] of line 72 or 78, after dispatching slot [k] *)
| SYield (k : nat)    (* in the [swtch] of [yield_scheduler], called after slot [k] *)
| STop                (* holds the lock at the end of a round *)
| SRound              (* in the [swtch] of [yield_scheduler], called at the end of a round *)
| SEntry.             (* about to run [container_entry] for the first time *)

(** Where the thread of a process is. *)
Inductive ppc :=
| PFresh                                   (* about to run [forkret] *)
| PRun                                     (* outside the functions below *)
| PYield                                   (* in the [swtch] of [yield] *)
| PSleepL (chan : Z) (lock : option Z)     (* in [sleep], took the lock of the table *)
| PSleepU (chan : Z) (lock : option Z)     (* in [sleep], gave up the lock of the caller *)
| PSleep (chan : Z) (lock : option Z)      (* in the [swtch] of [sleep] *)
| PRelock (l : Z)                          (* in [sleep], about to take the lock of the caller *)
| PWait                                    (* in [wait], at the head of the loop *)
| PReap                                    (* in [wait], found a dead child *)
| PAlloc (q : pptr)                        (* in [alloc_proc], was given the slot [q] by [alloc_pcb] *)
| PEmbryo (q : pptr)                       (* in [alloc_proc] or its caller, fills in [q] *)
| PDead.                                   (* in the [swtch] of [exit] *)

(** [m_own l] is the process that took the lock [l] of a caller of [sleep]. *)
Record mstate := mkM {
  m_sys : Sys;
  m_cur : nat → thread;
  m_spc : nat → nat → spc;    (* container, CPU *)
  m_ppc : pptr → ppc;
  m_own : gmap Z pptr
}.

(** What a process outside the functions of the scheduler may call: [yield], [sleep],
    [wakeup], [exit], [wait], taking and releasing a lock of its own, and [alloc_proc] for
    a new process; while it makes one, it writes fields of the entry, makes it runnable, or
    gives it up. *)
Inductive action :=
| AYield
| ASleep (chan l : Z)
| AWakeup (chan : Z)
| AExit
| AWait
| ALock (l : Z)
| AUnlock (l : Z)
| ACreate
| AInit (f : Proc → Proc)
| AReady
| AFail.

Definition set_sys s (σ : mstate) : mstate := mkM s (m_cur σ) (m_spc σ) (m_ppc σ) (m_own σ).
Definition set_cur (i : nat) (t : thread) (σ : mstate) : mstate :=
  mkM (m_sys σ) (λ j, if decide (j = i) then t else m_cur σ j) (m_spc σ) (m_ppc σ) (m_own σ).
Definition set_spc (i c : nat) (k : spc) (σ : mstate) : mstate :=
  mkM (m_sys σ) (m_cur σ) (λ d j, if decide (d = c ∧ j = i) then k else m_spc σ d j) (m_ppc σ) (m_own σ).
Definition set_ppc (p : pptr) (k : ppc) (σ : mstate) : mstate :=
  mkM (m_sys σ) (m_cur σ) (m_spc σ) (λ q, if decide (q = p) then k else m_ppc σ q) (m_own σ).
Definition set_own x (σ : mstate) : mstate := mkM (m_sys σ) (m_cur σ) (m_spc σ) (m_ppc σ) x.

Definition ons {X} (m : M Sys X) : M mstate X := zoom m_sys set_sys m.

(** The thread behind a process: a container's process is its scheduler. *)
Definition thread_of (p : pptr) : M Sys thread :=
  x ← get_proc p;
  if p_is_scheduler x then c ← derefM (p_cont x); mret (Sch c) else mret (Pr p).

Section mstep.
Context (i : nat).

(** [swtch] to the thread of the scheduler this CPU is in. *)
Definition to_scheduler : M mstate unit :=
  c ← ons (this_scheduler i); modify (set_cur i (Sch c)).

Definition step_scheduler (c : nat) : M mstate unit :=
  σ ← getS;
  match m_spc σ c i with
  | SVisit k =>
      if (k <? Z.to_nat NPROC)%nat then
        r ← ons (scheduler_visit i c k);
        match r with
        | None => modify (set_spc i c (SVisit (S k)))
        | Some p =>
            t ← ons (thread_of p);
            modify (set_spc i c (SSwitch k));; modify (set_cur i t)
        end
      else ons (acquire_sched_lock i);; modify (set_spc i c STop)
  | SSwitch k =>
      out ← ons (scheduler_back i c);
      if (out : bool) then modify (set_spc i c (SYield k));; to_scheduler
      else modify (set_spc i c (SVisit (S k)))
  | SYield k => ons (scheduler_again i c);; modify (set_spc i c (SVisit (S k)))
  | STop =>
      out ← ons (scheduler_round i c);
      if (out : bool) then modify (set_spc i c SRound);; to_scheduler
      else modify (set_spc i c (SVisit 0))
  | SRound => ons (scheduler_round_again i c);; modify (set_spc i c (SVisit 0))
  | SEntry => ons (container_entry i);; modify (set_spc i c (SVisit 0))
  end.

(** [alloc_proc] and its callers, as far as the process table goes. [alloc_pcb] has
    released the lock of the table when it returns the slot, which is still UNUSED; the
    state and the other fields are then written without the lock. Each write is a step of
    its own: a thread that looks at the entry under the lock sees it before or after. *)
Definition create (p : pptr) : M mstate unit :=
  q ← ons (alloc_pcb i);
  modify (set_ppc p (match q with Some q => PAlloc q | None => PRun end)).
Definition embryo (p q : pptr) : M mstate unit :=
  ons (upd_proc q (with_state EMBRYO));; modify (set_ppc p (PEmbryo q)).
Definition fill (p q : pptr) (a : action) : M mstate unit :=
  match a with
  | AInit f => ons (upd_proc q f);; modify (set_ppc p (PEmbryo q))
  | AReady => modify (set_ppc p PRun);; ons (upd_proc q (with_state RUNNABLE));; modify (set_ppc q PFresh)
  | AFail => ons (upd_proc q (with_state UNUSED));; modify (set_ppc p PRun)
  | _ => undef
  end.

Definition step_action (p : pptr) (a : action) : M mstate unit :=
  match a with
  | AYield => ons (yield i);; modify (set_ppc p PYield);; to_scheduler
  | ASleep chan l => ons (sleep_lock i (Some l));; modify (set_ppc p (PSleepL chan (Some l)))
  | AWakeup chan => ons (wakeup i chan);; modify (set_ppc p PRun)
  | AExit => ons (exit_sched i);; modify (set_ppc p PDead);; to_scheduler
  | AWait => ons (acquire_sched_lock i);; modify (set_ppc p PWait)
  | ALock l => ons (on_lock l (acquire_spinlock (Z.of_nat i)));; modify (λ σ, set_own (<[l := p]> (m_own σ)) σ);; modify (set_ppc p PRun)
  | AUnlock l => ons (on_lock l release_spinlock);; modify (λ σ, set_own (delete l (m_own σ)) σ);; modify (set_ppc p PRun)
  | ACreate => create p
  | AInit _ | AReady | AFail => undef
  end.

Definition step_process (p : pptr) (a : action) : M mstate unit :=
  σ ← getS;
  match m_ppc σ p with
  | PFresh => ons (release_sched_lock i);; modify (set_ppc p PRun)
  | PRun => step_action p a
  | PYield => ons (yield_resume i);; modify (set_ppc p PRun)
  | PSleepL chan lock =>
      ons (sleep_unlock lock);;
      modify (λ σ, match lock with Some l => set_own (delete l (m_own σ)) σ | None => σ end);;
      modify (set_ppc p (PSleepU chan lock))
  | PSleepU chan lock => ons (sleep_park i chan);; modify (set_ppc p (PSleep chan lock));; to_scheduler
  | PSleep chan lock =>
      ons (sleep_resume i p lock);;
      modify (set_ppc p (match lock with Some l => PRelock l | None => PWait end))
  | PRelock l =>
      ons (sleep_relock i (Some l));;
      modify (λ σ, set_own (<[l := p]> (m_own σ)) σ);;
      modify (set_ppc p PRun)
  | PWait =>
      w ← ons (wait_pass i p);
      modify (set_ppc p (match w with
                         | Reaped _ _ _ => PReap
                         | NoChild => PRun
                         | MustSleep => PSleepL (proc_chan p) None
                         end))
  | PReap => ons (release_sched_lock i);; modify (set_ppc p PRun)
  | PAlloc q => embryo p q
  | PEmbryo q => fill p q a
  | PDead => undef
  end.

Definition mstep (a : action) : M mstate unit :=
  σ ← getS;
  match m_cur σ i with
  | Sch c => step_scheduler c
  | Pr p => step_process p a
  end.
End mstep.

(** ** What a step observes of the state *)

Definition ptl (s : Sys) (c : nat) : option SpinLock := c_ptlock <$> sy_conts s !! c.
(** What no step changes in a container. *)
Record Shape := mkShape { sh_p : option pptr; sh_op : bool; sh_sparent : nat; sh_parent : nat; sh_busy : bool; sh_len : nat }.
Definition shape (C : Container) : Shape :=
  mkShape (c_p C) (c_op C) (c_sparent C) (c_parent C) (locked (c_lock C)) (length (c_proc C)).
Definition stat (s : Sys) (c : nat) : option Shape := shape <$> sy_conts s !! c.
Definition kind (s : Sys) (p : pptr) : option (bool * option nat) :=
  (λ x, (p_is_scheduler x, p_cont x)) <$> lookup_proc s p.
Definition cpu (s : Sys) (i : nat) : option Cpu := sy_cpus s !! i.
Definition st (s : Sys) (p : pptr) : option procstate := p_state <$> lookup_proc s p.
Definition set_ptl (c : nat) (l : SpinLock) (s : Sys) : Sys :=
  set_conts (alter (with_ptlock l) c (sy_conts s)) s.

Section views.
Implicit Types (s : Sys) (p q : pptr) (c i : nat).

Lemma lookup_proc_alter s p f q :
  lookup_proc (alter_proc p f s) q = if decide (q = p) then f <$> lookup_proc s q else lookup_proc s q.
Proof.
  unfold lookup_proc, alter_proc. simpl. destruct p as [c k], q as [c' k']. simpl.
  destruct (decide (c' = c)) as [->|Hc].
  - rewrite list_lookup_alter_eq. destruct (sy_conts s !! c) as [C|]; simpl; [|by case_decide].
    destruct (decide (k' = k)) as [->|].
    + rewrite decide_True by done. by rewrite list_lookup_alter_eq.
    + rewrite decide_False by congruence. by rewrite list_lookup_alter_ne.
  - rewrite list_lookup_alter_ne by done. by rewrite decide_False by congruence.
Qed.
Lemma lookup_proc_ptl s c l q : lookup_proc (set_ptl c l s) q = lookup_proc s q.
Proof.
  unfold lookup_proc, set_ptl. simpl. destruct (decide (q.1 = c)) as [<-|].
  - rewrite list_lookup_alter_eq. by destruct (sy_conts s !! q.1).
  - by rewrite list_lookup_alter_ne.
Qed.
Lemma ptl_alter s p f c : ptl (alter_proc p f s) c = ptl s c.
Proof.
  unfold ptl, alter_proc. simpl. destruct (decide (c = p.1)) as [->|].
  - rewrite list_lookup_alter_eq. by destruct (sy_conts s !! p.1).
  - by rewrite list_lookup_alter_ne.
Qed.
Lemma ptl_set s c l d : ptl (set_ptl c l s) d = if decide (d = c) then (λ _, l) <$> ptl s d else ptl s d.
Proof.
  unfold ptl, set_ptl. simpl. destruct (decide (d = c)) as [->|].
  - rewrite list_lookup_alter_eq. by destruct (sy_conts s !! c).
  - by rewrite list_lookup_alter_ne.
Qed.
Lemma stat_alter s p f c : stat (alter_proc p f s) c = stat s c.
Proof.
  unfold stat, alter_proc. simpl. destruct (decide (c = p.1)) as [->|].
  - rewrite list_lookup_alter_eq. destruct (sy_conts s !! p.1); simpl; [|done]. unfold shape. simpl. by rewrite length_alter.
  - by rewrite list_lookup_alter_ne.
Qed.
Lemma stat_ptl s c l d : stat (set_ptl c l s) d = stat s d.
Proof.
  unfold stat, set_ptl. simpl. destruct (decide (d = c)) as [->|].
  - rewrite list_lookup_alter_eq. by destruct (sy_conts s !! c).
  - by rewrite list_lookup_alter_ne.
Qed.
Lemma cpu_alter s i f j : cpu (alter_cpu i f s) j = if decide (j = i) then f <$> cpu s j else cpu s j.
Proof.
  unfold cpu, alter_cpu. simpl. destruct (decide (j = i)) as [->|]; [by rewrite list_lookup_alter_eq|by rewrite list_lookup_alter_ne].
Qed.
Lemma kind_alter s p f q : (∀ x, (p_is_scheduler (f x), p_cont (f x)) = (p_is_scheduler x, p_cont x)) →
  kind (alter_proc p f s) q = kind s q.
Proof. intros Hf. unfold kind. rewrite lookup_proc_alter. case_decide; [|done]. destruct (lookup_proc s q); simpl; [by rewrite Hf|done]. Qed.
Lemma kind_ptl s c l q : kind (set_ptl c l s) q = kind s q.
Proof. unfold kind. by rewrite lookup_proc_ptl. Qed.
Lemma st_alter s p f q : st (alter_proc p f s) q = if decide (q = p) then (p_state ∘ f) <$> lookup_proc s q else st s q.
Proof. unfold st. rewrite lookup_proc_alter. case_decide; [|done]. by rewrite option_fmap_compose. Qed.
Lemma st_ptl s c l q : st (set_ptl c l s) q = st s q.
Proof. unfold st. by rewrite lookup_proc_ptl. Qed.
End views.

(** The remaining observations do not depend on the part that is updated. *)
Lemma cpu_alter_proc s p f i : cpu (alter_proc p f s) i = cpu s i.
Proof. done. Qed.
Lemma cpu_ptl s c l i : cpu (set_ptl c l s) i = cpu s i.
Proof. done. Qed.
Lemma lookup_proc_cpu s i f p : lookup_proc (alter_cpu i f s) p = lookup_proc s p.
Proof. done. Qed.
Lemma ptl_cpu s i f c : ptl (alter_cpu i f s) c = ptl s c.
Proof. done. Qed.
Lemma stat_cpu s i f c : stat (alter_cpu i f s) c = stat s c.
Proof. done. Qed.
Lemma kind_cpu s i f p : kind (alter_cpu i f s) p = kind s p.
Proof. done. Qed.
Lemma st_cpu s i f p : st (alter_cpu i f s) p = st s p.
Proof. done. Qed.

#[global] Hint Rewrite lookup_proc_alter lookup_proc_ptl ptl_alter ptl_set stat_alter stat_ptl cpu_alter
  kind_ptl st_ptl cpu_alter_proc cpu_ptl lookup_proc_cpu ptl_cpu stat_cpu kind_cpu st_cpu : views.

Definition held (i : nat) (l : SpinLock) : SpinLock := {| locked := true; lcpu := Some (Z.of_nat i); lname := lname l |}.
Definition freed (l : SpinLock) : SpinLock := init_spinlock (lname l).

(** ** The operations in terms of the observations *)
Section ops.
Context (i : nat).
Implicit Types (s : Sys) (p : pptr) (c : nat) (u : Cpu) (l : SpinLock) (x : Proc).

Lemma get_proc_Ok s p x : lookup_proc s p = Some x → get_proc p s = Ok x s.
Proof. intros E. unfold get_proc. erewrite bind_Ok by done. by rewrite E. Qed.
Lemma upd_proc_Ok s p x f : lookup_proc s p = Some x → upd_proc p f s = Ok () (alter_proc p f s).
Proof. intros E. unfold upd_proc. by erewrite bind_Ok by (by apply get_proc_Ok). Qed.
Lemma thiscpu_Ok s u : cpu s i = Some u → thiscpu i s = Ok u s.
Proof. intros E. unfold thiscpu. erewrite bind_Ok by done. unfold cpu in E. by rewrite E. Qed.
Lemma current_Ok s u p : cpu s i = Some u → cpu_proc u = Some p → current i s = Ok p s.
Proof. intros E Hp. unfold current. erewrite bind_Ok by (by apply thiscpu_Ok). by rewrite Hp. Qed.
Lemma set_cpu_proc_Ok s u o : cpu s i = Some u →
  set_cpu_proc i o s = Ok () (alter_cpu i (λ u, mkCpu (cpu_scheduler u) o (cpu_ttbr0 u)) s).
Proof. intros E. unfold set_cpu_proc. by erewrite bind_Ok by (by apply thiscpu_Ok). Qed.
Lemma set_cpu_scheduler_Ok s u c : cpu s i = Some u →
  set_cpu_scheduler i c s = Ok () (alter_cpu i (λ u, mkCpu (Some c) (cpu_proc u) (cpu_ttbr0 u)) s).
Proof. intros E. unfold set_cpu_scheduler. by erewrite bind_Ok by (by apply thiscpu_Ok). Qed.
Lemma uvm_switch_Ok s u d : cpu s i = Some u →
  uvm_switch i d s = Ok () (alter_cpu i (λ u, mkCpu (cpu_scheduler u) (cpu_proc u) (K2P d)) s).
Proof. intros E. unfold uvm_switch. by erewrite bind_Ok by (by apply thiscpu_Ok). Qed.

Lemma get_cont_stat s c h : stat s c = Some h →
  ∃ C, get_cont c s = Ok C s ∧ shape C = h ∧ ptl s c = Some (c_ptlock C) ∧ sy_conts s !! c = Some C.
Proof.
  unfold stat, get_cont, ptl. destruct (sy_conts s !! c) as [C|] eqn:E; [|done]. intros [= <-].
  exists C. split_and!; try done. erewrite bind_Ok by done. by rewrite E.
Qed.

Lemma on_ptlock_Ok s c m l l' : ptl s c = Some l → m l = Ok () l' → on_ptlock c m s = Ok () (set_ptl c l' s).
Proof.
  unfold ptl, on_ptlock, get_cont, upd_cont. intros E Em. destruct (sy_conts s !! c) as [C|] eqn:EC; [|done].
  injection E as <-. erewrite bind_Ok; [|erewrite bind_Ok by done; by rewrite EC]. rewrite Em. cbn [relay].
  by erewrite bind_Ok; [|unfold get_cont; erewrite bind_Ok by done; by rewrite EC].
Qed.
Lemma acquire_ptable_free s c l : ptl s c = Some l → locked l = false →
  acquire_ptable_lock i c s = Ok () (set_ptl c (held i l) s).
Proof. intros E Hl. eapply on_ptlock_Ok; [done|by apply acquire_spinlock_free]. Qed.
Lemma acquire_ptable_held s c l : ptl s c = Some l → locked l = true → acquire_ptable_lock i c s = Blocked s.
Proof.
  unfold ptl, acquire_ptable_lock, on_ptlock, get_cont. intros E Hl. destruct (sy_conts s !! c) as [C|] eqn:EC; [|done].
  injection E as <-. erewrite bind_Ok; [|erewrite bind_Ok by done; by rewrite EC]. by rewrite acquire_spinlock_held.
Qed.
Lemma release_ptable_Ok s c l : ptl s c = Some l → locked l = true →
  release_ptable_lock c s = Ok () (set_ptl c (freed l) s).
Proof. intros E Hl. eapply on_ptlock_Ok; [done|by apply release_spinlock_held]. Qed.

(** CPU [i] is in the scheduler of container [c]. *)
Definition in_sched s c : Prop := ∃ u h, cpu s i = Some u ∧ cpu_scheduler u = Some c ∧ stat s c = Some h ∧ sh_op h = true.

Lemma this_scheduler_Ok s c : in_sched s c → this_scheduler i s = Ok c s.
Proof.
  intros (u & h & Eu & Ec & Es & Hop). unfold this_scheduler. erewrite bind_Ok by (by apply thiscpu_Ok). rewrite Ec.
  erewrite bind_Ok by done. destruct (get_cont_stat _ _ _ Es) as (C & EC & <- & _).
  erewrite bind_Ok by exact EC. cbn [shape sh_op] in Hop. by rewrite Hop.
Qed.
Lemma acquire_sched_free s c l : in_sched s c → ptl s c = Some l → locked l = false →
  acquire_sched_lock i s = Ok () (set_ptl c (held i l) s).
Proof. intros. unfold acquire_sched_lock. erewrite bind_Ok by (by apply this_scheduler_Ok). by apply acquire_ptable_free. Qed.
Lemma acquire_sched_held s c l : in_sched s c → ptl s c = Some l → locked l = true → acquire_sched_lock i s = Blocked s.
Proof. intros. unfold acquire_sched_lock. erewrite bind_Ok by (by apply this_scheduler_Ok). by eapply acquire_ptable_held. Qed.
Lemma release_sched_Ok s c l : in_sched s c → ptl s c = Some l → locked l = true →
  release_sched_lock i s = Ok () (set_ptl c (freed l) s).
Proof. intros. unfold release_sched_lock. erewrite bind_Ok by (by apply this_scheduler_Ok). by apply release_ptable_Ok. Qed.

Lemma in_sched_ptl s c d l : in_sched (set_ptl d l s) c ↔ in_sched s c.
Proof. unfold in_sched. by setoid_rewrite stat_ptl. Qed.
Lemma in_sched_alter s c p f : in_sched (alter_proc p f s) c ↔ in_sched s c.
Proof. unfold in_sched. by setoid_rewrite stat_alter. Qed.

Lemma sched_Ok s c u p x l :
  in_sched s c → ptl s c = Some l → locked l = true → cpu s i = Some u → cpu_proc u = Some p →
  lookup_proc s p = Some x → p_state x ≠ RUNNING → sched i s = Ok () s.
Proof.
  intros Hs El Hl Eu Ep Ex Hx. unfold sched. erewrite bind_Ok by (by apply this_scheduler_Ok). unfold sched_simple.
  destruct Hs as (u' & h & _ & _ & Es & _). destruct (get_cont_stat _ _ _ Es) as (C & EC & _ & El' & _).
  erewrite bind_Ok by exact EC. unfold holding_spinlock. rewrite El in El'. injection El' as <-. rewrite Hl.
  erewrite bind_Ok by done. erewrite bind_Ok by (by eapply current_Ok). erewrite bind_Ok by (by apply get_proc_Ok).
  by rewrite decide_False.
Qed.
End ops.

Lemma set_ptl_set_ptl c l l' s : set_ptl c l (set_ptl c l' s) = set_ptl c l s.
Proof. unfold set_ptl, set_conts. simpl. f_equal. rewrite list_alter_alter_eq. by apply list_alter_ext. Qed.
Lemma alter_cpu_compose i f g s : alter_cpu i f (alter_cpu i g s) = alter_cpu i (f ∘ g) s.
Proof. unfold alter_cpu, set_cpus. simpl. f_equal. by rewrite list_alter_alter_eq. Qed.

(** ** The segments of the scheduler *)
Section segments.
Context (i : nat).
Implicit Types (s : Sys) (p : pptr) (c : nat) (u : Cpu) (l : SpinLock) (x : Proc) (h : Shape).

Lemma scheduler_visit_dispatch s c k l u x :
  in_sched i s c → ptl s c = Some l → locked l = false → cpu s i = Some u → lookup_proc s (c, k) = Some x →
  p_state x = RUNNABLE →
  ∃ g, (∀ u, cpu_scheduler (g u) = cpu_scheduler u) ∧ (∀ u, cpu_proc (g u) = Some (c, k)) ∧
    (p_is_scheduler x = false → ∀ u, cpu_ttbr0 (g u) = K2P (p_pgdir x)) ∧
    scheduler_visit i c k s = Ok (Some (c, k)) (alter_cpu i g (alter_proc (c, k) (with_state RUNNING) (set_ptl c (held i l) s))).
Proof.
  intros Hs El Hl Eu Ex Hx. unfold scheduler_visit. erewrite bind_Ok by (by apply acquire_sched_free).
  erewrite bind_Ok by (apply get_proc_Ok; by rewrite lookup_proc_ptl). rewrite decide_True by done.
  erewrite bind_Ok by (eapply upd_proc_Ok; by rewrite lookup_proc_ptl).
  erewrite bind_Ok by (by eapply set_cpu_proc_Ok). destruct (p_is_scheduler x).
  - eexists. split_and!; [| |done|by erewrite bind_Ok by done]; done.
  - eexists. split_and!; [| | |erewrite bind_Ok by (eapply uvm_switch_Ok; rewrite cpu_alter, decide_True by done; by rewrite cpu_alter_proc, cpu_ptl, Eu);
      rewrite alter_cpu_compose; done]; done.
Qed.

Lemma scheduler_visit_skip s c k l x :
  in_sched i s c → ptl s c = Some l → locked l = false → lookup_proc s (c, k) = Some x → p_state x ≠ RUNNABLE →
  scheduler_visit i c k s = Ok None (set_ptl c (freed l) s).
Proof.
  intros Hs El Hl Ex Hx. unfold scheduler_visit. erewrite bind_Ok by (by apply acquire_sched_free).
  erewrite bind_Ok by (apply get_proc_Ok; by rewrite lookup_proc_ptl). rewrite decide_False by done.
  erewrite bind_Ok; [|apply (release_sched_Ok i _ c (held i l)); [by rewrite in_sched_ptl|by rewrite ptl_set, decide_True, El|done]].
  by rewrite set_ptl_set_ptl.
Qed.

Lemma yield_out_root s c h : stat s c = Some h → sh_sparent h = c → yield_scheduler_out i c s = Ok false s.
Proof.
  intros Es Hp. unfold yield_scheduler_out. destruct (get_cont_stat _ _ _ Es) as (C & EC & <- & _).
  erewrite bind_Ok by exact EC. cbn [shape sh_sparent] in Hp. by rewrite Hp, Nat.eqb_refl.
Qed.

Lemma yield_out_sub s c h l l' u p x :
  stat s c = Some h → sh_sparent h ≠ c → sh_p h = Some p → ptl s c = Some l → locked l = true →
  ptl s (sh_sparent h) = Some l' → locked l' = false → cpu s i = Some u → lookup_proc s p = Some x →
  yield_scheduler_out i c s = Ok true (set_ptl c (freed l) (alter_proc p (with_state RUNNABLE)
    (alter_cpu i (λ u, mkCpu (Some (sh_sparent h)) (cpu_proc u) (cpu_ttbr0 u)) (set_ptl (sh_sparent h) (held i l') s)))).
Proof.
  intros Es Hp Ep El Hl El' Hl' Eu Ex. unfold yield_scheduler_out. destruct (get_cont_stat _ _ _ Es) as (C & EC & <- & _).
  cbn [shape sh_sparent sh_p] in *. erewrite bind_Ok by exact EC. rewrite (proj2 (Nat.eqb_neq _ _)) by congruence.
  erewrite bind_Ok by (by apply acquire_ptable_free). erewrite bind_Ok by (by eapply set_cpu_scheduler_Ok).
  rewrite Ep. erewrite bind_Ok by done. erewrite bind_Ok by (eapply upd_proc_Ok; rewrite lookup_proc_cpu; by rewrite lookup_proc_ptl).
  erewrite bind_Ok; [done|]. apply release_ptable_Ok; [|done]. rewrite ptl_alter, ptl_cpu, ptl_set. by rewrite decide_False.
Qed.

Lemma yield_out_blocked s c h l' :
  stat s c = Some h → sh_sparent h ≠ c → ptl s (sh_sparent h) = Some l' → locked l' = true →
  yield_scheduler_out i c s = Blocked s.
Proof.
  intros Es Hp El' Hl'. unfold yield_scheduler_out. destruct (get_cont_stat _ _ _ Es) as (C & EC & <- & _).
  cbn [shape sh_sparent] in *. erewrite bind_Ok by exact EC. rewrite (proj2 (Nat.eqb_neq _ _)) by congruence.
  unfold mbind at 1, M_bind at 1. by rewrite (acquire_ptable_held _ _ _ _ El' Hl').
Qed.

Lemma yield_in_Ok s c h l l' u :
  stat s c = Some h → sh_sparent h ≠ c → ptl s c = Some l → locked l = false →
  ptl s (sh_sparent h) = Some l' → locked l' = true → cpu s i = Some u →
  yield_scheduler_in i c s = Ok () (set_ptl (sh_sparent h) (freed l')
    (alter_cpu i (λ u, mkCpu (Some c) (cpu_proc u) (cpu_ttbr0 u)) (set_ptl c (held i l) s))).
Proof.
  intros Es Hp El Hl El' Hl' Eu. unfold yield_scheduler_in. erewrite bind_Ok by (by apply acquire_ptable_free).
  erewrite bind_Ok by (by eapply set_cpu_scheduler_Ok).
  destruct (get_cont_stat (alter_cpu i (λ u, mkCpu (Some c) (cpu_proc u) (cpu_ttbr0 u)) (set_ptl c (held i l) s)) c h) as (C & EC & <- & _).
  { rewrite stat_cpu. by rewrite stat_ptl. }
  erewrite bind_Ok by exact EC. apply release_ptable_Ok; [|done]. rewrite ptl_cpu, ptl_set. by rewrite decide_False by done.
Qed.

Lemma yield_in_blocked s c l : ptl s c = Some l → locked l = true → yield_scheduler_in i c s = Blocked s.
Proof. intros El Hl. unfold yield_scheduler_in, mbind at 1, M_bind at 1. by rewrite (acquire_ptable_held _ _ _ _ El Hl). Qed.
End segments.

(** ** Steps on other processes

    What one process may do to the entry of another: wake it, or, when it is a
    dead child, release it. *)
Definition trans (a b : procstate) : Prop := a = b ∨ a = SLEEPING ∧ b = RUNNABLE ∨ a = ZOMBIE ∧ b = UNUSED.
Definition benign (x y : Proc) : Prop := p_chan y = p_chan x ∧ trans (p_state x) (p_state y).
Record evolves (s s' : Sys) : Prop := {
  ev_stat : ∀ c, stat s' c = stat s c;
  ev_ptl : ∀ c, ptl s' c = ptl s c;
  ev_kind : ∀ p, kind s' p = kind s p;
  ev_cpus : sy_cpus s' = sy_cpus s;
  ev_locks : sy_locks s' = sy_locks s;
  ev_init : sy_initproc s' = sy_initproc s;
  ev_proc : ∀ q, option_Forall2 benign (lookup_proc s q) (lookup_proc s' q)
}.

#[global] Instance benign_preorder : PreOrder benign.
Proof. unfold benign, trans. split; [intros x; tauto|intros x y z [??] [??]]. intuition congruence. Qed.
#[global] Instance evolves_preorder : PreOrder evolves.
Proof.
  split.
  - intros s. by split.
  - intros s1 s2 s3 H1 H2. split; intros;
      [by rewrite (ev_stat _ _ H2), (ev_stat _ _ H1)|by rewrite (ev_ptl _ _ H2), (ev_ptl _ _ H1)
      |by rewrite (ev_kind _ _ H2), (ev_kind _ _ H1)|by rewrite (ev_cpus _ _ H2), (ev_cpus _ _ H1)
      |by rewrite (ev_locks _ _ H2), (ev_locks _ _ H1)|by rewrite (ev_init _ _ H2), (ev_init _ _ H1)|].
    pose proof (ev_proc _ _ H1 q) as Hq1. pose proof (ev_proc _ _ H2 q) as Hq2.
    inversion Hq1; inversion Hq2; try congruence; constructor; etrans; [eassumption|congruence].
Qed.

Lemma evolves_alter s p f :
  (∀ x, (p_is_scheduler (f x), p_cont (f x)) = (p_is_scheduler x, p_cont x)) →
  (∀ x, lookup_proc s p = Some x → benign x (f x)) → evolves s (alter_proc p f s).
Proof.
  intros Hk Hf. split; intros; [apply stat_alter|apply ptl_alter|by apply kind_alter|done..|].
  rewrite lookup_proc_alter. destruct (lookup_proc s q) as [x|] eqn:E; case_decide; subst; constructor; auto. done.
Qed.

Lemma evolves_in_sched i s s' c : evolves s s' → in_sched i s c → in_sched i s' c.
Proof. intros H (u & h & Eu & Ec & Es & Ho). exists u, h. unfold cpu. by rewrite (ev_cpus _ _ H), (ev_stat _ _ H). Qed.

Section others.
Context (i : nat).
Implicit Types (s : Sys) (p : pptr) (c : nat) (u : Cpu) (l : SpinLock) (x : Proc) (h : Shape).

(** Every slot of the table is there. *)
Definition table_full s c : Prop := ∃ h, stat s c = Some h ∧ sh_len h = Z.to_nat NPROC.
Lemma table_lookup s c k : table_full s c → (k < Z.to_nat NPROC)%nat → ∃ x, lookup_proc s (c, k) = Some x.
Proof.
  intros (h & Es & Hl) Hk. destruct (get_cont_stat s c h Es) as (C & _ & <- & _ & EC). unfold lookup_proc. simpl. rewrite EC.
  apply lookup_lt_is_Some. cbn [shape sh_len] in Hl. lia.
Qed.
Lemma table_lookup_inv s c k x : table_full s c → lookup_proc s (c, k) = Some x → (k < Z.to_nat NPROC)%nat.
Proof.
  intros (h & Es & Hl). destruct (get_cont_stat s c h Es) as (C & _ & <- & _ & EC). unfold lookup_proc. simpl. rewrite EC.
  intros Hx%lookup_lt_Some. cbn [shape sh_len] in Hl. lia.
Qed.
Lemma table_full_evolves s s' c : evolves s s' → table_full s c → table_full s' c.
Proof. intros H (h & Es & Hl). exists h. by rewrite (ev_stat _ _ H). Qed.

(** [wakeup1] wakes exactly the processes of the table that sleep on the channel. *)
Definition woken (cp : option pptr) (chan : Z) c (q : pptr) x : Proc :=
  if bool_decide (q.1 = c) && wakes cp chan q x then with_state RUNNABLE x else x.
Lemma wakeup1_wp s c u chan (Q : unit → Sys → Prop) :
  cpu s i = Some u → cpu_scheduler u = Some c → table_full s c →
  (∀ s', evolves s s' → (∀ q, lookup_proc s' q = woken (cpu_proc u) chan c q <$> lookup_proc s q) → Q () s') →
  wp (wakeup1 i chan) Q s.
Proof.
  intros Eu Ec Ht HQ. unfold wakeup1. apply wp_bind. eapply wp_of_Ok; [by apply thiscpu_Ok|]. cbn beta. rewrite Ec.
  apply wp_bind. eapply wp_of_Ok; [done|]. cbn beta. apply wp_bind.
  apply (wp_for_loop (λ j s', evolves s s' ∧ ∀ q, lookup_proc s' q =
    (λ x, if (q.2 <? Z.to_nat j)%nat then woken (cpu_proc u) chan c q x else x) <$> lookup_proc s q)).
  - split; [done|]. intros q. by destruct (lookup_proc s q).
  - intros j s1 Hj [Hev Hl]. destruct (table_lookup s c (Z.to_nat j) Ht) as [x Ex]; [lia|].
    assert (lookup_proc s1 (c, Z.to_nat j) = Some x) as Ex1.
    { rewrite Hl, Ex. simpl. by rewrite Nat.ltb_irrefl. }
    assert (∀ q y, lookup_proc s q = Some y → q ≠ (c, Z.to_nat j) →
      (if (q.2 <? Z.to_nat (j + 1))%nat then woken (cpu_proc u) chan c q y else y) =
      (if (q.2 <? Z.to_nat j)%nat then woken (cpu_proc u) chan c q y else y)) as Hne.
    { intros [d k] y _ Hq. unfold woken. simpl. destruct (bool_decide_reflect (d = c)) as [->|]; [|by destruct (_ <? _)%nat, (_ <? _)%nat].
      assert (k ≠ Z.to_nat j) by congruence. replace (k <? Z.to_nat (j + 1))%nat with (k <? Z.to_nat j)%nat; [done|].
      destruct (Nat.ltb_spec k (Z.to_nat j)), (Nat.ltb_spec k (Z.to_nat (j + 1))); lia || done. }
    apply wp_bind. eapply wp_of_Ok; [by apply get_proc_Ok|]. cbn beta. apply wp_bind.
    destruct (wakes (cpu_proc u) chan (c, Z.to_nat j) x) eqn:Hw.
    + eapply wp_of_Ok; [by eapply upd_proc_Ok|]. cbn beta. apply wp_ret. split.
      * etrans; [exact Hev|]. apply evolves_alter; [done|]. intros y Ey. simplify_eq. split; [done|].
        unfold wakes in Hw. apply andb_true_iff in Hw as [[_ Hw]%andb_true_iff _]. apply bool_decide_eq_true in Hw.
        right. by left.
      * intros q. rewrite lookup_proc_alter. case_decide as Hq.
        -- subst q. rewrite Ex1, Ex. simpl. rewrite (proj2 (Nat.ltb_lt _ _)) by lia. unfold woken. simpl.
           by rewrite bool_decide_true, Hw by done.
        -- rewrite Hl. destruct (lookup_proc s q) as [y|] eqn:Ey; simpl; [|done]. by rewrite Hne.
    + apply wp_ret, wp_ret. split; [done|]. intros q. rewrite Hl. destruct (lookup_proc s q) as [y|] eqn:Ey; simpl; [|done].
      destruct (decide (q = (c, Z.to_nat j))) as [->|Hq]; [|by rewrite Hne]. simplify_eq. simpl. rewrite Nat.ltb_irrefl.
      unfold woken. rewrite Hw, andb_false_r. by destruct (_ <? _)%nat.
  - intros s1 [Hev Hl]. apply wp_ret. apply HQ; [done|]. intros q. rewrite Hl. destruct (lookup_proc s q) as [y|] eqn:Ey; simpl; [|done].
    f_equal. unfold woken. destruct q as [d k]. simpl. destruct (bool_decide_reflect (d = c)) as [->|]; [|by destruct (_ <? _)%nat].
    by rewrite (proj2 (Nat.ltb_lt _ _)) by (by eapply table_lookup_inv).
Qed.

Lemma evolves_running s s' p x : evolves s s' → lookup_proc s p = Some x → p_state x = RUNNING →
  ∃ x', lookup_proc s' p = Some x' ∧ p_state x' = RUNNING.
Proof.
  intros H Ex Hx. pose proof (ev_proc _ _ H p) as Hp. rewrite Ex in Hp. inversion Hp as [? y [_ Hy]|]; subst.
  exists y. split; [done|]. unfold trans in Hy. intuition congruence.
Qed.

Lemma wakeup1_evolves s c chan : in_sched i s c → table_full s c → wp (wakeup1 i chan) (λ _ s', evolves s s') s.
Proof. intros (u & h & Eu & Ec & _) Ht. by eapply wakeup1_wp. Qed.

Lemma exit_sched_Ok s c l u p x :
  in_sched i s c → table_full s c → ptl s c = Some l → locked l = false →
  cpu s i = Some u → cpu_proc u = Some p → lookup_proc s p = Some x → p_state x = RUNNING →
  ∃ s1, evolves (set_ptl c (held i l) s) s1 ∧ exit_sched i s = Ok () (alter_proc p (with_state ZOMBIE) s1).
Proof.
  intros Hs Ht El Hl Eu Ep Ex Hx. set (s0 := set_ptl c (held i l) s).
  assert (in_sched i s0 c) as Hs0 by (by apply in_sched_ptl).
  assert (table_full s0 c) as Ht0 by (destruct Ht as (h & ? & ?); exists h; unfold s0; by rewrite stat_ptl).
  assert (lookup_proc s0 p = Some x) as Ex0 by (unfold s0; by rewrite lookup_proc_ptl).
  assert (wp (exit_sched i) (λ _ s', ∃ s1, evolves s0 s1 ∧ s' = alter_proc p (with_state ZOMBIE) s1) s) as Hwp.
  2:{ apply wp_Ok in Hwp as ([] & s' & E & s1 & Hev & ->). by exists s1. }
  unfold exit_sched. apply wp_bind. eapply wp_of_Ok; [by eapply current_Ok|]. cbn beta.
  apply wp_bind. eapply wp_of_Ok; [by apply acquire_sched_free|]. cbn beta. fold s0.
  apply wp_bind. eapply wp_of_Ok; [by apply get_proc_Ok|]. cbn beta.
  apply wp_bind. eapply wp_mono; [by eapply wakeup1_evolves|]. intros [] s1 Hev1. cbn beta in *.
  apply wp_bind. eapply wp_of_Ok; [apply this_scheduler_Ok; by eapply evolves_in_sched|]. cbn beta.
  apply wp_bind. eapply wp_of_Ok; [done|]. cbn beta. apply wp_bind.
  apply (wp_for_loop (λ _ s', evolves s0 s')); [done| |].
  - intros j s2 Hj Hev2. destruct (table_lookup s2 c (Z.to_nat j)) as [y Ey]; [by eapply table_full_evolves|lia|].
    apply wp_bind. eapply wp_of_Ok; [by apply get_proc_Ok|]. cbn beta. apply wp_bind.
    destruct (decide (p_parent y = Some p)); [|by apply wp_ret, wp_ret].
    apply wp_bind. eapply wp_of_Ok; [by eapply upd_proc_Ok|]. cbn beta. set (s3 := alter_proc _ _ s2).
    assert (evolves s0 s3) as Hev3.
    { etrans; [exact Hev2|]. apply evolves_alter; [done|]. intros z _. split; [done|by left]. }
    destruct (decide (p_state y = ZOMBIE)); [|by apply wp_ret, wp_ret].
    eapply wp_mono; [eapply wakeup1_evolves; [by eapply evolves_in_sched|by eapply table_full_evolves]|].
    intros [] s4 Hev4. apply wp_ret. by etrans.
  - intros s2 Hev2. destruct (evolves_running _ _ _ _ Hev2 Ex0 Hx) as (x2 & Ex2 & Hx2).
    apply wp_bind. eapply wp_of_Ok; [by eapply upd_proc_Ok|]. cbn beta. eapply wp_of_Ok; [|by exists s2].
    eapply sched_Ok with (u := u).
    + apply in_sched_alter. by eapply evolves_in_sched.
    + rewrite ptl_alter, (ev_ptl _ _ Hev2). unfold s0. by rewrite ptl_set, decide_True, El.
    + done.
    + rewrite cpu_alter_proc. unfold cpu. rewrite (ev_cpus _ _ Hev2). exact Eu.
    + done.
    + by rewrite lookup_proc_alter, decide_True, Ex2.
    + done.
Qed.

(** One pass over the table in [wait]. *)
Definition is_child (tp : pptr) x : bool := bool_decide (p_parent x = Some tp).
Lemma wait_scan_spec s c tp : ∀ n k kids,
  (∀ j, (k ≤ j < k + n)%nat → is_Some (lookup_proc s (c, j))) →
  (∃ j x, (k ≤ j < k + n)%nat ∧ lookup_proc s (c, j) = Some x ∧ p_parent x = Some tp ∧ p_state x = ZOMBIE ∧
     wait_scan n c k tp kids s = Ok (inl (Reaped (p_pid x) (p_pgdir x) (p_kstack x))) (alter_proc (c, j) reap s)) ∨
  (∀ j x, (k ≤ j < k + n)%nat → lookup_proc s (c, j) = Some x → p_parent x = Some tp → p_state x ≠ ZOMBIE) ∧
  ∃ b, wait_scan n c k tp kids s = Ok (inr b) s ∧
    (b = true ↔ kids = true ∨ ∃ j x, (k ≤ j < k + n)%nat ∧ lookup_proc s (c, j) = Some x ∧ p_parent x = Some tp).
Proof.
  induction n as [|n IH]; intros k kids Ht.
  { right. split; [intros; lia|]. exists kids. split; [done|]. split; [tauto|]. intros [?|(j & x & ? & _)]; [done|lia]. }
  destruct (Ht k) as [x Ex]; [lia|]. cbn [wait_scan].
  destruct (decide (p_parent x = Some tp)) as [Hp|Hp].
  2:{ erewrite bind_Ok by (by apply get_proc_Ok). rewrite decide_True by done.
      destruct (IH (S k) kids) as [(j & y & Hj & Hy)|(Hz & b & E & Hb)]; [intros; apply Ht; lia| |].
      - left. exists j, y. split; [lia|done].
      - right. split.
        + intros j y Hj Ey Hpy. destruct (decide (j = k)) as [->|]; [by simplify_eq|]. apply (Hz j); [lia|done..].
        + exists b. split; [done|]. rewrite Hb. split; (intros [?|(j & y & Hj & Ey & Hpy)]; [by left|right]).
          * exists j, y. split; [lia|done].
          * exists j, y. split; [|done]. destruct (decide (j = k)) as [->|]; [by simplify_eq|lia]. }
  erewrite bind_Ok by (by apply get_proc_Ok). rewrite decide_False by tauto.
  destruct (decide (p_state x = ZOMBIE)) as [Hx|Hx].
  { left. exists k, x. split_and!; [lia|lia|done..|]. by erewrite bind_Ok by (by eapply upd_proc_Ok). }
  destruct (IH (S k) true) as [(j & y & Hj & Hy)|(Hz & b & E & Hb)]; [intros; apply Ht; lia| |].
  - left. exists j, y. split; [lia|done].
  - right. split.
    + intros j y Hj Ey Hpy. destruct (decide (j = k)) as [->|]; [by simplify_eq|]. apply (Hz j); [lia|done..].
    + exists b. split; [done|]. rewrite Hb. split; [|by left]. intros _. right. exists k, x. split; [lia|done].
Qed.

Lemma reap_benign x : p_state x = ZOMBIE → benign x (reap x).
Proof. intros Hx. split; [done|]. right. by right. Qed.

(** The first dead child is reaped; with no child, or when the process was killed,
    the lock is released; otherwise nothing changes. *)
Lemma wait_pass_spec s c l tp t :
  in_sched i s c → table_full s c → ptl s c = Some l → locked l = true → lookup_proc s tp = Some t →
  (∃ k x, lookup_proc s (c, k) = Some x ∧ p_parent x = Some tp ∧ p_state x = ZOMBIE ∧
     wait_pass i tp s = Ok (Reaped (p_pid x) (p_pgdir x) (p_kstack x)) (alter_proc (c, k) reap s)) ∨
  (∀ k x, lookup_proc s (c, k) = Some x → p_parent x = Some tp → p_state x ≠ ZOMBIE) ∧
  ((p_killed t ≠ 0 ∨ (∀ k x, lookup_proc s (c, k) = Some x → p_parent x ≠ Some tp)) ∧
     wait_pass i tp s = Ok NoChild (set_ptl c (freed l) s) ∨
   p_killed t = 0 ∧ (∃ k x, lookup_proc s (c, k) = Some x ∧ p_parent x = Some tp) ∧ wait_pass i tp s = Ok MustSleep s).
Proof.
  intros Hs Ht El Hl Et. unfold wait_pass. erewrite bind_Ok by (by apply this_scheduler_Ok).
  destruct (wait_scan_spec s c tp (Z.to_nat NPROC) 0 false) as [(j & x & Hj & Ex & Hp & Hx & E)|(Hz & b & E & Hb)].
  { intros j Hj. apply table_lookup; [done|lia]. }
  { left. exists j, x. split_and!; try done. by erewrite bind_Ok by exact E. }
  right. split; [intros k x Ex; apply (Hz k); [split; [lia|by eapply table_lookup_inv]|done]|].
  erewrite !bind_Ok by exact E. cbn beta iota. erewrite !bind_Ok by (by apply get_proc_Ok).
  destruct b; simpl.
  - destruct Hb as [Hb _]. destruct (Hb eq_refl) as [?|(j & x & Hj & Ex & Hp)]; [done|].
    destruct (Z.eqb_spec (p_killed t) 0); simpl.
    + right. split; [done|]. split; [by exists j, x|done].
    + left. split; [by left|]. by erewrite bind_Ok by (by apply release_sched_Ok).
  - left. split; [|by erewrite bind_Ok by (by apply release_sched_Ok)]. right. intros k x Ex Hp.
    enough (false = true) by done. apply Hb. right. exists k, x. split; [split; [lia|by eapply table_lookup_inv]|done].
Qed.

(** *** Process identifiers *)
Record same_frame s s' : Prop := {
  sf_ptl : ∀ d, ptl s' d = ptl s d;
  sf_proc : ∀ q, lookup_proc s' q = lookup_proc s q;
  sf_cpus : sy_cpus s' = sy_cpus s;
  sf_locks : sy_locks s' = sy_locks s;
  sf_init : sy_initproc s' = sy_initproc s
}.
Lemma same_frame_trans s1 s2 s3 : same_frame s1 s2 → same_frame s2 s3 → same_frame s1 s3.
Proof. intros [] []. split; intros; etrans; eauto. Qed.

Lemma upd_cont_frame s c C f : sy_conts s !! c = Some C → (∀ C, c_ptlock (f C) = c_ptlock C ∧ c_proc (f C) = c_proc C) →
  ∃ s', upd_cont c f s = Ok () s' ∧ same_frame s s' ∧ sy_conts s' !! c = Some (f C) ∧ ∀ d, d ≠ c → sy_conts s' !! d = sy_conts s !! d.
Proof.
  intros EC Hf. eexists. split.
  { unfold upd_cont. erewrite bind_Ok; [done|]. unfold get_cont. erewrite bind_Ok by done. by rewrite EC. }
  split; [|split; [simpl; by rewrite list_lookup_alter_eq, EC|intros; simpl; by rewrite list_lookup_alter_ne]].
  split; try done.
  - intros d. unfold ptl. simpl. destruct (decide (d = c)) as [->|].
    + rewrite list_lookup_alter_eq, EC. simpl. f_equal. apply Hf.
    + by rewrite list_lookup_alter_ne.
  - intros [d k]. unfold lookup_proc. simpl. destruct (decide (d = c)) as [->|].
    + rewrite list_lookup_alter_eq, EC. simpl. by destruct (Hf C) as [_ ->].
    + by rewrite list_lookup_alter_ne.
Qed.

(** The locks of the ancestors of [c] are free, and a parent is older. *)
Definition pids_free s c : Prop := ∀ d h, (d ≤ c)%nat → stat s d = Some h →
  sh_busy h = false ∧ (sh_parent h = d ∨ (sh_parent h < d)%nat ∧ is_Some (stat s (sh_parent h))).

Lemma on_clock_Ok s c C m l' : sy_conts s !! c = Some C → m (c_lock C) = Ok () l' →
  ∃ s', on_clock c m s = Ok () s' ∧ same_frame s s' ∧ sy_conts s' !! c = Some (with_clock l' C) ∧
    ∀ d, d ≠ c → sy_conts s' !! d = sy_conts s !! d.
Proof.
  intros EC Em. destruct (upd_cont_frame s c C (with_clock l') EC) as (s' & E & H); [done|].
  exists s'. split; [|done]. unfold on_clock, get_cont. erewrite bind_Ok; [|erewrite bind_Ok by done; by rewrite EC].
  by rewrite Em.
Qed.

Lemma shape_take_pid p C : shape (take_pid p C) = shape C.
Proof. unfold take_pid. by destruct (free_pid _ _). Qed.
Lemma take_pid_frame p C : c_ptlock (take_pid p C) = c_ptlock C ∧ c_proc (take_pid p C) = c_proc C.
Proof. unfold take_pid. by destruct (free_pid _ _). Qed.

Lemma alloc_resource_Ok p : ∀ fuel s c, is_Some (stat s c) → pids_free s c → (c < fuel)%nat →
  ∃ s' pid, alloc_resource i fuel c p PID s = Ok pid s' ∧ same_frame s s' ∧ (∀ d, stat s' d = stat s d).
Proof.
  induction fuel as [|fuel IH]; intros s c [h Es] Hfree Hc; [lia|]. cbn [alloc_resource].
  destruct (Hfree c h (le_n _) Es) as [Hb Hpar]. destruct (get_cont_stat s c h Es) as (C & _ & <- & _ & EC).
  cbn [shape sh_busy sh_parent] in Hb, Hpar.
  destruct (on_clock_Ok s c C _ _ EC (acquire_spinlock_free (Z.of_nat i) _ Hb)) as (s1 & E1 & F1 & EC1 & O1).
  erewrite bind_Ok by exact E1. set (C1 := with_clock _ C) in *.
  destruct (upd_cont_frame s1 c C1 (take_pid p) EC1 (take_pid_frame p)) as (s2 & E2 & F2 & EC2 & O2).
  erewrite bind_Ok by exact E2. erewrite bind_Ok; [|unfold get_cont; erewrite bind_Ok by done; by rewrite EC2].
  set (C2 := take_pid p C1) in *. assert (shape C2 = shape C1) as HC2 by apply shape_take_pid.
  assert (c_parent C2 = c_parent C) as Hpp by (injection HC2; done). rewrite Hpp.
  assert (∀ d, d ≠ c → stat s2 d = stat s d) as Hst2.
  { intros d Hd. unfold stat. by rewrite O2, O1 by done. }
  assert (∃ s3, (if (c_parent C =? c)%nat then mret () else alloc_resource i fuel (c_parent C) p PID;; mret ()) s2 = Ok () s3 ∧
    same_frame s2 s3 ∧ (∀ d, stat s3 d = stat s2 d)) as (s3 & E3 & F3 & H3).
  { destruct Hpar as [Hpar|[Hlt Hs]].
    { rewrite Hpar, Nat.eqb_refl. exists s2. split; [done|]. by split. }
    rewrite (proj2 (Nat.eqb_neq _ _)) by lia.
    destruct (IH s2 (c_parent C)) as (s3 & pid & E3 & F3 & H3); [by rewrite Hst2 by lia| |lia|].
    - intros d h' Hd Eh. rewrite Hst2 in Eh by lia. destruct (Hfree d h') as [? Hp']; [lia|done|]. split; [done|].
      destruct Hp' as [?|[? Hp']]; [by left|right]. split; [done|]. by rewrite Hst2 by lia.
    - exists s3. by erewrite bind_Ok by exact E3. }
  erewrite bind_Ok by exact E3.
  assert (stat s3 c = Some (shape C1)) as Es3 by (rewrite H3; unfold stat; rewrite EC2; simpl; by rewrite HC2).
  destruct (get_cont_stat s3 c _ Es3) as (C3 & _ & HC3 & _ & EC3).
  assert (locked (c_lock C3) = true) as Hl3 by (injection HC3; done).
  destruct (on_clock_Ok s3 c C3 _ _ EC3 (release_spinlock_held _ Hl3)) as (s4 & E4 & F4 & EC4 & O4).
  erewrite bind_Ok by exact E4. erewrite bind_Ok; [|unfold get_cont; erewrite bind_Ok by done; by rewrite EC4].
  exists s4. eexists. split; [done|]. split; [by repeat (eapply same_frame_trans; [eassumption|])|].
  intros d. destruct (decide (d = c)) as [->|Hd].
  - unfold stat. rewrite EC4, EC. simpl. f_equal. unfold shape. simpl. injection HC3. intros. simpl in *. congruence.
  - transitivity (stat s3 d); [unfold stat; by rewrite O4|]. by rewrite H3, Hst2.
Qed.

Lemma free_proc_spec (ps : list Proc) : ∀ n,
  match free_proc ps n with
  | Some k => ∃ j x, k = (n + j)%nat ∧ ps !! j = Some x ∧ p_state x = UNUSED ∧ ∀ j' y, (j' < j)%nat → ps !! j' = Some y → p_state y ≠ UNUSED
  | None => ∀ j y, ps !! j = Some y → p_state y ≠ UNUSED
  end.
Proof.
  induction ps as [|x ps IH]; intros n; cbn [free_proc]; [done|].
  destruct (decide (p_state x = UNUSED)) as [Hx|Hx].
  { exists 0%nat, x. split_and!; [lia|done|done|intros; lia]. }
  specialize (IH (S n)). destruct (free_proc ps (S n)) as [k|].
  - destruct IH as (j & y & -> & Ey & Hy & Hlt). exists (S j), y. split_and!; [lia|done|done|].
    intros [|j'] z Hj Ez; [by injection Ez as <-|]. apply (Hlt j'); [lia|done].
  - intros [|j] y Ey; [by injection Ey as <-|]. by apply (IH j).
Qed.

Lemma alloc_pcb_spec s c l u :
  in_sched i s c → table_full s c → ptl s c = Some l → locked l = false → pids_free s c → cpu s i = Some u →
  (∃ k x pid s', lookup_proc s (c, k) = Some x ∧ p_state x = UNUSED ∧
     (∀ k' y, (k' < k)%nat → lookup_proc s (c, k') = Some y → p_state y ≠ UNUSED) ∧
     alloc_pcb i s = Ok (Some (c, k)) s' ∧ evolves (set_ptl c (freed l) s) s' ∧
     ∀ q, lookup_proc s' q = if decide (q = (c, k)) then Some (with_pid pid x) else lookup_proc s q) ∨
  (∀ k x, lookup_proc s (c, k) = Some x → p_state x ≠ UNUSED) ∧ alloc_pcb i s = Ok None (set_ptl c (freed l) s).
Proof.
  intros Hs Ht El Hl Hfree Eu. pose proof Hs as (u' & h & Eu' & Ec & Es & Hop). simplify_eq.
  set (s1 := set_ptl c (held i l) s).
  assert (stat s1 c = Some h) as Es1 by (unfold s1; by rewrite stat_ptl).
  destruct (get_cont_stat s1 c h Es1) as (C & EC & <- & El1 & EC1).
  destruct (get_cont_stat s c _ Es) as (C0 & EC0 & HC0 & _ & EC0').
  assert (alloc_pcb i s = alloc_pcb_simple i c s) as ->.
  { unfold alloc_pcb. erewrite bind_Ok by (by apply thiscpu_Ok). rewrite Ec. erewrite bind_Ok by done.
    erewrite bind_Ok by done. erewrite bind_Ok by exact EC0. assert (c_op C0 = true) as -> by (injection HC0; cbn in Hop; congruence).
    by erewrite bind_Ok by done. }
  unfold alloc_pcb_simple. erewrite bind_Ok by (by apply acquire_sched_free). fold s1. erewrite bind_Ok by exact EC.
  assert (∀ k, lookup_proc s (c, k) = c_proc C !! k) as Hlook.
  { intros k. rewrite <- (lookup_proc_ptl s c (held i l)). fold s1. unfold lookup_proc. cbn [fst snd]. by rewrite EC1. }
  assert (in_sched i s1 c) as Hs1 by (by apply in_sched_ptl).
  pose proof (free_proc_spec (c_proc C) 0) as Hf. destruct (free_proc (c_proc C) 0) as [k|].
  2:{ right. split; [intros k x; rewrite Hlook; apply Hf|]. erewrite bind_Ok; [|apply (release_sched_Ok i s1 c (held i l)); [done| |done]].
      - unfold s1. by rewrite set_ptl_set_ptl.
      - unfold s1. by rewrite ptl_set, decide_True, El. }
  destruct Hf as (j & x & -> & Ex & Hx & Hlt). cbn [Nat.add]. left.
  destruct (alloc_resource_Ok (c, j) (S c) s1 c) as (s2 & pid & E2 & F2 & H2); [by rewrite Es1| |lia|].
  { intros d h' Hd Eh. unfold s1 in Eh |- *. rewrite stat_ptl in Eh |- *. by apply Hfree. }
  erewrite bind_Ok by exact E2.
  assert (lookup_proc s2 (c, j) = Some x) as Ex2.
  { rewrite (sf_proc _ _ F2). unfold s1. by rewrite lookup_proc_ptl, Hlook. }
  erewrite bind_Ok by (by eapply upd_proc_Ok). set (s3 := alter_proc (c, j) (with_pid (i32 pid)) s2).
  assert (in_sched i s3 c) as Hs3.
  { apply in_sched_alter. destruct Hs1 as (u1 & h1 & E1 & E1' & E1''). exists u1, h1. unfold cpu. by rewrite (sf_cpus _ _ F2), H2. }
  erewrite bind_Ok; [|apply (release_sched_Ok i s3 c (held i l)); [done| |done]].
  2:{ unfold s3. rewrite ptl_alter, (sf_ptl _ _ F2). unfold s1. by rewrite ptl_set, decide_True, El. }
  exists j, x, (i32 pid). eexists. split_and!; [by rewrite Hlook|done| |done| |].
  - intros k' y Hk. rewrite Hlook. by apply Hlt.
  - split; try done.
    + intros d. rewrite !stat_ptl. unfold s3. rewrite stat_alter, H2. unfold s1. by rewrite stat_ptl.
    + intros d. rewrite !ptl_set. unfold s3. rewrite ptl_alter, (sf_ptl _ _ F2). unfold s1. rewrite ptl_set.
      case_decide; [|done]. by destruct (ptl s d).
    + intros q. rewrite !kind_ptl. unfold s3. rewrite kind_alter by done. unfold kind. rewrite (sf_proc _ _ F2). unfold s1. by rewrite lookup_proc_ptl.
    + simpl. by rewrite (sf_cpus _ _ F2).
    + simpl. by rewrite (sf_locks _ _ F2).
    + simpl. by rewrite (sf_init _ _ F2).
    + intros q. rewrite !lookup_proc_ptl. unfold s3. rewrite lookup_proc_alter, (sf_proc _ _ F2). unfold s1. rewrite lookup_proc_ptl.
      destruct (lookup_proc s q); case_decide; constructor; try done. split; [done|by left].
  - intros q. rewrite lookup_proc_ptl. unfold s3. rewrite lookup_proc_alter, (sf_proc _ _ F2). unfold s1. rewrite lookup_proc_ptl.
    case_decide; [subst q; by rewrite Hlook, Ex|done].
Qed.
End others.
