(* ===== verification/SchedInv.v ===== *)
(** * The invariant of the scheduler

    The global invariant of the machine of SchedMachine.v, that every step keeps it
    and none panics, and what follows: a process runs on at most one CPU, the lock
    of a process table is held exactly by the CPU that is switching in it, no
    wakeup is lost, and the locks of the process tables do not deadlock. *)
From S2P Require Import Prelude Locks PhysMem Sched SchedMachine.

Definition ncpu : nat := Z.to_nat NCPU.
Definition csched (s : Sys) (i : nat) : option nat := cpu s i ≫= cpu_scheduler.
Definition cproc (s : Sys) (i : nat) : option pptr := cpu s i ≫= cpu_proc.
Definition running (s : Sys) (p : pptr) : Prop := st s p = Some RUNNING.
#[global] Instance running_dec s p : Decision (running s p).
Proof. unfold running. apply _. Defined.
(** The scheduler thread of CPU [i] in the container of [p] waits for [p] to switch back. *)
Definition disp (σ : mstate) (p : pptr) (i : nat) : Prop := m_spc σ p.1 i = SSwitch p.2.

(** Does the current thread of CPU [i] hold the lock of its process table? *)
Definition hold (σ : mstate) (i : nat) : bool :=
  match m_cur σ i with
  | Sch c => match m_spc σ c i with SVisit _ => false | _ => true end
  | Pr p => match m_ppc σ p with PRun | PRelock _ | PAlloc _ | PEmbryo _ => false | _ => true end
  end.
Definition owner (σ : mstate) (i : nat) : option nat := if hold σ i then csched (m_sys σ) i else None.

(** CPU [i] was given to container [c] by the scheduler above it. *)
Definition inside (σ : mstate) (i c : nat) : Prop :=
  c = 0%nat ∨ ∃ h p, stat (m_sys σ) c = Some h ∧ sh_p h = Some p ∧ disp σ p i ∧ running (m_sys σ) p.

(** The containers form a tree, and a container's process lies in the table of its parent. *)
Record winv (s : Sys) : Prop := {
  w_root : ∃ h, stat s 0 = Some h ∧ sh_sparent h = 0%nat;
  w_cont : ∀ c h, stat s c = Some h → sh_op h = true ∧ sh_len h = Z.to_nat NPROC ∧ sh_busy h = false ∧
    (sh_parent h = c ∨ (sh_parent h < c)%nat ∧ is_Some (stat s (sh_parent h)));
  w_sub : ∀ c h, stat s c = Some h → c ≠ 0%nat →
    (sh_sparent h < c)%nat ∧ is_Some (stat s (sh_sparent h)) ∧
    ∃ k, sh_p h = Some (sh_sparent h, k) ∧ kind s (sh_sparent h, k) = Some (true, Some c);
  w_kind : ∀ p o, kind s p = Some (true, o) → ∃ c h, o = Some c ∧ c ≠ 0%nat ∧ stat s c = Some h ∧ sh_p h = Some p;
  w_cpu : ∀ i, (i < ncpu)%nat → ∃ u c, cpu s i = Some u ∧ cpu_scheduler u = Some c ∧ is_Some (stat s c)
}.

Definition cur_ok (σ : mstate) (i : nat) : Prop :=
  let s := m_sys σ in
  match m_cur σ i with
  | Pr p => csched s i = Some p.1 ∧ cproc s i = Some p ∧ disp σ p i ∧ running s p ∧
      (∃ o, kind s p = Some (false, o)) ∧ m_ppc σ p ≠ PDead
  | Sch c =>
      is_Some (stat s c) ∧
      match m_spc σ c i with
      | SVisit k => csched s i = Some c
      | STop => csched s i = Some c
      | SSwitch k => csched s i = Some c ∧ ¬ running s (c, k)
      | SYield _ | SRound | SEntry =>
          ∃ h p, c ≠ 0%nat ∧ stat s c = Some h ∧ sh_p h = Some p ∧ csched s i = Some p.1 ∧ cproc s i = Some p ∧
            disp σ p i ∧ running s p
      end
  end.

Definition lock_there (s : Sys) (lock : option Z) : Prop :=
  match lock with Some l => is_Some (sy_locks s !! l) | None => True end.
(** A process with a thread that will run again; an entry without one. *)
Definition live (a : procstate) : Prop := a = SLEEPING ∨ a = RUNNABLE ∨ a = RUNNING.
Definition dead (a : procstate) : Prop := a = ZOMBIE ∨ a = UNUSED ∨ a = EMBRYO.
Definition ppc_ok (σ : mstate) (p : pptr) : Prop :=
  match m_ppc σ p with
  | PFresh | PYield => True
  | PSleep ch lock => lock_there (m_sys σ) lock ∧
      ∃ x, lookup_proc (m_sys σ) p = Some x ∧ live (p_state x) ∧ (p_state x = SLEEPING → p_chan x = ch)
  | PDead => ∀ x, lookup_proc (m_sys σ) p = Some x → dead (p_state x)
  | PSleepL _ lock => (∃ j, (j < ncpu)%nat ∧ m_cur σ j = Pr p) ∧ match lock with Some l => m_own σ !! l = Some p | None => True end
  | PSleepU _ lock => (∃ j, (j < ncpu)%nat ∧ m_cur σ j = Pr p) ∧ lock_there (m_sys σ) lock
  | PRelock l => (∃ j, (j < ncpu)%nat ∧ m_cur σ j = Pr p) ∧ lock_there (m_sys σ) (Some l)
  | PRun | PWait | PReap | PAlloc _ | PEmbryo _ => ∃ j, (j < ncpu)%nat ∧ m_cur σ j = Pr p
  end.

(** The slot that a process is making another process in, and its state. No two processes
    have the same slot. *)
Definition target (k : ppc) : option (pptr * procstate) :=
  match k with PAlloc q => Some (q, UNUSED) | PEmbryo q => Some (q, EMBRYO) | _ => None end.
Record targets_ok (σ : mstate) : Prop := {
  tg_state : ∀ p q a, target (m_ppc σ p) = Some (q, a) → st (m_sys σ) q = Some a;
  tg_one : ∀ p p' q a b, target (m_ppc σ p) = Some (q, a) → target (m_ppc σ p') = Some (q, b) → p = p'
}.


(** In the loop of the scheduler, outside [swtch]. *)
Definition in_loop (k : spc) : bool := match k with SVisit _ | STop => true | _ => false end.

(** The loop runs over the slots of the table. *)
Definition slot_ok (k : spc) : Prop :=
  match k with
  | SVisit n => (n ≤ Z.to_nat NPROC)%nat
  | SSwitch n | SYield n => (n < Z.to_nat NPROC)%nat
  | _ => True
  end.

Record minv (σ : mstate) : Prop := {
  m_w : winv (m_sys σ);
  m_curok : ∀ i, (i < ncpu)%nat → cur_ok σ i;
  m_one : ∀ p i j, (i < ncpu)%nat → (j < ncpu)%nat → disp σ p i → disp σ p j → i = j;
  m_disp : ∀ p i, (i < ncpu)%nat → disp σ p i →
    (running (m_sys σ) p ∨ m_cur σ i = Sch p.1) ∧ inside σ i p.1 ∧ is_Some (lookup_proc (m_sys σ) p);
  m_run : ∀ p, running (m_sys σ) p → ∃ i, (i < ncpu)%nat ∧ disp σ p i;
  m_in : ∀ i c, (i < ncpu)%nat → csched (m_sys σ) i = Some c → inside σ i c;
  m_lock : ∀ c l, ptl (m_sys σ) c = Some l → locked l = true ↔ ∃ i, (i < ncpu)%nat ∧ owner σ i = Some c;
  m_lock1 : ∀ c i j, (i < ncpu)%nat → (j < ncpu)%nat → owner σ i = Some c → owner σ j = Some c → i = j;
  m_ppcok : ∀ p, ppc_ok σ p;
  m_owned : ∀ l p, m_own σ !! l = Some p → ∃ k, sy_locks (m_sys σ) !! l = Some k ∧ locked k = true;
  m_loop : ∀ c i, (i < ncpu)%nat → in_loop (m_spc σ c i) = true → m_cur σ i = Sch c;
  m_slot : ∀ c i, (i < ncpu)%nat → slot_ok (m_spc σ c i);
  m_targets : targets_ok σ
}.

(** ** A step of one CPU

    What has to be shown of a step of CPU [i] from [σ] to [σ']. *)
Record local_step (σ σ' : mstate) (i : nat) : Prop := {
  ls_stat : ∀ c, stat (m_sys σ') c = stat (m_sys σ) c;
  ls_kind : ∀ p, kind (m_sys σ') p = kind (m_sys σ) p;
  ls_dom : ∀ p, is_Some (lookup_proc (m_sys σ') p) ↔ is_Some (lookup_proc (m_sys σ) p);
  ls_cpu : ∃ u c, cpu (m_sys σ') i = Some u ∧ cpu_scheduler u = Some c ∧ is_Some (stat (m_sys σ) c);
  ls_others : ∀ j, j ≠ i → m_cur σ' j = m_cur σ j ∧ cpu (m_sys σ') j = cpu (m_sys σ) j ∧ ∀ d, m_spc σ' d j = m_spc σ d j;
  ls_on : ∀ p, running (m_sys σ') p → ¬ running (m_sys σ) p → disp σ' p i ∧ ∀ j, (j < ncpu)%nat → j ≠ i → ¬ disp σ p j;
  ls_off : ∀ p, running (m_sys σ) p → ¬ running (m_sys σ') p → disp σ p i;
  ls_keep : ∀ p, running (m_sys σ) p → running (m_sys σ') p → disp σ p i → disp σ' p i;
  ls_new : ∀ p, disp σ' p i → disp σ p i ∨ ¬ running (m_sys σ) p ∧ running (m_sys σ') p;
  ls_back : ∀ p, disp σ' p i → ¬ running (m_sys σ') p → m_cur σ' i = Sch p.1;
  ls_disp_in : ∀ p, disp σ' p i → inside σ' i p.1 ∧ is_Some (lookup_proc (m_sys σ') p);
  ls_in : ∀ c, csched (m_sys σ') i = Some c → inside σ' i c;
  ls_ppc : ∀ p j, (j < ncpu)%nat → j ≠ i → m_cur σ j = Pr p → m_ppc σ' p = m_ppc σ p;
  ls_cur : cur_ok σ' i;
  ls_lock : ∀ c l', ptl (m_sys σ') c = Some l' → ∃ l, ptl (m_sys σ) c = Some l ∧
    (owner σ' i = Some c ∧ locked l' = true ∧ (owner σ i = Some c ∨ locked l = false) ∨
     owner σ' i ≠ Some c ∧ owner σ i = Some c ∧ locked l' = false ∨
     owner σ' i ≠ Some c ∧ owner σ i ≠ Some c ∧ locked l' = locked l);
  ls_ppcok : ∀ p, ppc_ok σ' p;
  ls_owned : ∀ l p, m_own σ' !! l = Some p → ∃ k, sy_locks (m_sys σ') !! l = Some k ∧ locked k = true;
  ls_loop : ∀ c, in_loop (m_spc σ' c i) = true → m_cur σ' i = Sch c;
  ls_slot : ∀ c, slot_ok (m_spc σ' c i);
  ls_targets : targets_ok σ'
}.

Section local.
Context (σ σ' : mstate) (i : nat) (Hi : (i < ncpu)%nat) (HI : minv σ) (HS : local_step σ σ' i).
Implicit Types (p : pptr) (c j : nat).

Lemma ls_winv : winv (m_sys σ').
Proof.
  destruct (m_w _ HI) as [Hr Hc Hs Hk Hu]. split.
  - by setoid_rewrite (ls_stat _ _ _ HS).
  - intros c h. rewrite (ls_stat _ _ _ HS). intros E. destruct (Hc c h E) as (?&?&?&Hp). split_and!; try done.
    by rewrite (ls_stat _ _ _ HS).
  - intros c h. rewrite (ls_stat _ _ _ HS). intros E Hc0. destruct (Hs c h E Hc0) as (?&?&k&?&?). split_and!; [done|by rewrite (ls_stat _ _ _ HS)|].
    exists k. by rewrite (ls_kind _ _ _ HS).
  - intros p o. rewrite (ls_kind _ _ _ HS). intros E. destruct (Hk p o E) as (c & h & ?). exists c, h. by rewrite (ls_stat _ _ _ HS).
  - intros j Hj. setoid_rewrite (ls_stat _ _ _ HS). destruct (decide (j = i)) as [->|Hne]; [apply HS|].
    destruct (ls_others _ _ _ HS j Hne) as (_ & -> & _). by apply Hu.
Qed.

Lemma ls_disp_other p j : j ≠ i → disp σ' p j ↔ disp σ p j.
Proof. intros Hj. unfold disp. destruct (ls_others _ _ _ HS j Hj) as (_ & _ & H). by rewrite H. Qed.

(** What another CPU has dispatched keeps running. *)
Lemma ls_run_other p j : (j < ncpu)%nat → j ≠ i → disp σ p j → running (m_sys σ') p ↔ running (m_sys σ) p.
Proof.
  intros Hj Hne Hd. split; intros Hr.
  - destruct (decide (running (m_sys σ) p)) as [?|Hn]; [done|]. by destruct (ls_on _ _ _ HS p Hr Hn) as [_ H]; destruct (H j).
  - destruct (decide (running (m_sys σ') p)) as [?|Hn]; [done|]. pose proof (ls_off _ _ _ HS p Hr Hn) as Hdi.
    by destruct Hne; eapply (m_one _ HI p).
Qed.

Lemma ls_inside_other c j : (j < ncpu)%nat → j ≠ i → inside σ j c → inside σ' j c.
Proof.
  intros Hj Hne [->|(h & p & Es & Ep & Hd & Hr)]; [by left|right].
  exists h, p. split_and!; [by rewrite (ls_stat _ _ _ HS)|done|by apply ls_disp_other|by eapply ls_run_other].
Qed.

Lemma ls_cur_other j : (j < ncpu)%nat → j ≠ i → cur_ok σ' j.
Proof.
  intros Hj Hne. pose proof (m_curok _ HI j Hj) as Hc. unfold cur_ok in *.
  destruct (ls_others _ _ _ HS j Hne) as (Ecur & Ecpu & Espc). rewrite Ecur. unfold csched, cproc in *. rewrite Ecpu.
  destruct (m_cur σ j) as [c|p] eqn:Ec.
  - rewrite (ls_stat _ _ _ HS), Espc. destruct Hc as [Hst Hc]. split; [done|]. destruct (m_spc σ c j) eqn:Es; try done.
    + destruct Hc as [? Hn]. split; [done|]. by rewrite (ls_run_other (c, k) j).
    + destruct Hc as (h & p & ? & ? & ? & ? & ? & Hd & Hr). exists h, p. rewrite (ls_disp_other p j), (ls_run_other p j) by done. done.
    + destruct Hc as (h & p & ? & ? & ? & ? & ? & Hd & Hr). exists h, p. rewrite (ls_disp_other p j), (ls_run_other p j) by done. done.
    + destruct Hc as (h & p & ? & ? & ? & ? & ? & Hd & Hr). exists h, p. rewrite (ls_disp_other p j), (ls_run_other p j) by done. done.
  - destruct Hc as (? & ? & Hd & Hr & Hk & Hp). rewrite (ls_disp_other p j), (ls_run_other p j), (ls_kind _ _ _ HS) by done.
    by rewrite (ls_ppc _ _ _ HS p j).
Qed.

Lemma ls_owner_other j : (j < ncpu)%nat → j ≠ i → owner σ' j = owner σ j.
Proof.
  intros Hj Hne. destruct (ls_others _ _ _ HS j Hne) as (Ecur & Ecpu & Espc). unfold owner, hold, csched. rewrite Ecur, Ecpu.
  destruct (m_cur σ j) as [c|p] eqn:Ec; [by rewrite Espc|]. by rewrite (ls_ppc _ _ _ HS p j).
Qed.

Lemma local_step_minv : minv σ'.
Proof.
  split.
  - apply ls_winv.
  - intros j Hj. destruct (decide (j = i)) as [->|]; [apply HS|by apply ls_cur_other].
  - assert (∀ p j, (j < ncpu)%nat → disp σ' p i → disp σ' p j → i = j) as Hone.
    { intros p j Hj Hd Hdj. destruct (decide (i = j)) as [?|Hne]; [done|]. rewrite ls_disp_other in Hdj by done.
      destruct (ls_new _ _ _ HS p Hd) as [Hdi|[Hn Hr]]; [by eapply (m_one _ HI p)|].
      by destruct (ls_on _ _ _ HS p Hr Hn) as [_ H]; destruct (H j). }
    intros p j j' Hj Hj' Hd Hd'. destruct (decide (j = i)) as [->|]; [by eauto|].
    destruct (decide (j' = i)) as [->|]; [symmetry; by eauto|]. rewrite ls_disp_other in Hd, Hd' by done. by eapply (m_one _ HI p).
  - intros p j Hj Hd. destruct (decide (j = i)) as [->|Hne].
    + split; [|by apply HS]. destruct (decide (running (m_sys σ') p)); [by left|right]. by apply HS.
    + rewrite ls_disp_other in Hd by done. destruct (m_disp _ HI p j Hj Hd) as (Hr & Hin & Hl).
      rewrite (ls_run_other p j), (ls_dom _ _ _ HS) by done. destruct (ls_others _ _ _ HS j Hne) as (-> & _ & _).
      split; [done|]. split; [by apply ls_inside_other|done].
  - intros p Hr. destruct (decide (running (m_sys σ) p)) as [Hr0|Hn].
    + destruct (m_run _ HI p Hr0) as (j & Hj & Hd). exists j. split; [done|]. destruct (decide (j = i)) as [->|Hne]; [by apply (ls_keep _ _ _ HS)|].
      by apply ls_disp_other.
    + exists i. split; [done|]. by apply (ls_on _ _ _ HS).
  - intros j c Hj Hc. destruct (decide (j = i)) as [->|Hne]; [by apply HS|]. apply ls_inside_other; [done..|].
    apply (m_in _ HI); [done|]. destruct (ls_others _ _ _ HS j Hne) as (_ & E & _). unfold csched in *. by rewrite <- E.
  - intros c l' El'. destruct (ls_lock _ _ _ HS c l' El') as (l & El & Hl). pose proof (m_lock _ HI c l El) as HL.
    assert ((∃ j, (j < ncpu)%nat ∧ owner σ' j = Some c) ↔ owner σ' i = Some c ∨ ∃ j, (j < ncpu)%nat ∧ j ≠ i ∧ owner σ j = Some c) as ->.
    { split.
      - intros (j & Hj & Ho). destruct (decide (j = i)) as [->|]; [by left|right]. exists j. by rewrite <- ls_owner_other.
      - intros [?|(j & Hj & Hne & Ho)]; [by exists i|]. exists j. by rewrite ls_owner_other. }
    destruct Hl as [(? & -> & _)|[(? & Ho & ->)|(? & Ho & ->)]].
    + split; [by left|done].
    + split; [done|]. intros [?|(j & Hj & Hne & Hoj)]; [done|]. destruct Hne. by eapply (m_lock1 _ HI c).
    + rewrite HL. split.
      * intros (j & Hj & Hoj). right. exists j. split_and!; [done| |done]. by intros ->.
      * intros [?|(j & Hj & _ & Hoj)]; [done|by exists j].
  - assert (∀ c j, (j < ncpu)%nat → owner σ' i = Some c → owner σ' j = Some c → i = j) as Hone.
    { intros c j Hj Ho Hoj. destruct (decide (j = i)) as [->|Hne]; [done|]. rewrite ls_owner_other in Hoj by done.
      assert (∃ l', ptl (m_sys σ') c = Some l') as [l' El'].
      { destruct (ls_cpu _ _ _ HS) as (u & d & Eu & Ed & [h Hd]). unfold owner in Ho. destruct (hold σ' i); [|done].
        unfold csched in Ho. rewrite Eu in Ho. simpl in Ho. simplify_eq. rewrite <- (ls_stat _ _ _ HS) in Hd.
        destruct (get_cont_stat _ _ _ Hd) as (C & _ & _ & El & _). by eexists. }
      destruct (ls_lock _ _ _ HS c l' El') as (l & El & Hl). pose proof (m_lock _ HI c l El) as HL.
      destruct Hl as [(_ & _ & [Hoi|Hf])|[(? & _)|(? & _)]]; [by eapply (m_lock1 _ HI c)| |done..].
      assert (locked l = true) by (apply HL; by exists j). congruence. }
    intros c j j' Hj Hj' Ho Ho'. destruct (decide (j = i)) as [->|]; [by eauto|].
    destruct (decide (j' = i)) as [->|]; [symmetry; by eauto|]. rewrite ls_owner_other in Ho, Ho' by done. by eapply (m_lock1 _ HI c).
  - apply HS.
  - apply HS.
  - intros c j Hj. destruct (decide (j = i)) as [->|Hne]; [apply HS|].
    destruct (ls_others _ _ _ HS j Hne) as (-> & _ & ->). by apply (m_loop _ HI).
  - intros c j Hj. destruct (decide (j = i)) as [->|Hne]; [apply HS|].
    destruct (ls_others _ _ _ HS j Hne) as (_ & _ & ->). by apply (m_slot _ HI).
  - apply HS.
Qed.
End local.

(** ** Ingredients of the steps *)
Section facts.
Context (σ : mstate) (HI : minv σ) (i : nat) (Hi : (i < ncpu)%nat).
Implicit Types (p : pptr) (c j : nat).

Lemma stat_facts c : is_Some (stat (m_sys σ) c) →
  ∃ l, table_full (m_sys σ) c ∧ ptl (m_sys σ) c = Some l ∧ pids_free (m_sys σ) c.
Proof.
  intros [h Es]. destruct (get_cont_stat _ _ _ Es) as (C & _ & _ & El & _). exists (c_ptlock C). split; [|split; [done|]].
  - exists h. split; [done|]. by apply (w_cont _ (m_w _ HI) c).
  - intros d h' _ Eh. by destruct (w_cont _ (m_w _ HI) d h' Eh) as (_ & _ & ? & ?).
Qed.

Lemma sched_facts c : csched (m_sys σ) i = Some c →
  ∃ u l, cpu (m_sys σ) i = Some u ∧ cpu_scheduler u = Some c ∧ is_Some (stat (m_sys σ) c) ∧ in_sched i (m_sys σ) c ∧
    table_full (m_sys σ) c ∧ ptl (m_sys σ) c = Some l ∧ pids_free (m_sys σ) c ∧ (hold σ i = true → locked l = true).
Proof.
  intros Hc. destruct (w_cpu _ (m_w _ HI) i Hi) as (u & c' & Eu & Ec & [h Es]).
  assert (c' = c) as -> by (unfold csched in Hc; rewrite Eu in Hc; simpl in Hc; congruence).
  destruct (stat_facts c ltac:(by eexists)) as (l & Ht & El & Hp).
  exists u, l. split_and!; try done.
  - exists u, h. split_and!; try done. by apply (w_cont _ (m_w _ HI) c).
  - intros Hh. apply (m_lock _ HI c l El). exists i. split; [done|]. unfold owner. by rewrite Hh.
Qed.

(** The process a CPU runs. *)
Lemma proc_facts p : m_cur σ i = Pr p →
  ∃ u l x, cpu (m_sys σ) i = Some u ∧ cpu_scheduler u = Some p.1 ∧ cpu_proc u = Some p ∧ in_sched i (m_sys σ) p.1 ∧
    table_full (m_sys σ) p.1 ∧ ptl (m_sys σ) p.1 = Some l ∧ pids_free (m_sys σ) p.1 ∧ (hold σ i = true → locked l = true) ∧
    lookup_proc (m_sys σ) p = Some x ∧ p_state x = RUNNING ∧ csched (m_sys σ) i = Some p.1 ∧ disp σ p i.
Proof.
  intros Ec. pose proof (m_curok _ HI i Hi) as Hc. unfold cur_ok in Hc. rewrite Ec in Hc. destruct Hc as (Hs & Hp & Hd & Hr & _).
  destruct (sched_facts _ Hs) as (u & l & Eu & Eu' & _ & Hin & Ht & El & Hpf & Hl).
  unfold cproc in Hp. rewrite Eu in Hp. simpl in Hp. unfold running, st in Hr.
  destruct (lookup_proc (m_sys σ) p) as [x|] eqn:Ex; [|done]. simpl in Hr. exists u, l, x. split_and!; try done. by injection Hr.
Qed.

(** Nobody else runs the process, and only this CPU is in its switch. *)
Lemma cur_unique p j : (j < ncpu)%nat → m_cur σ i = Pr p → m_cur σ j = Pr p → j = i.
Proof.
  intros Hj E E'. pose proof (m_curok _ HI i Hi) as H. pose proof (m_curok _ HI j Hj) as H'. unfold cur_ok in *.
  rewrite E in H. rewrite E' in H'. destruct H as (_ & _ & Hd & _). destruct H' as (_ & _ & Hd' & _). by eapply (m_one _ HI p).
Qed.

Lemma free_not_disp c l p j : ptl (m_sys σ) c = Some l → locked l = false → p.1 = c → ¬ running (m_sys σ) p →
  (j < ncpu)%nat → ¬ disp σ p j.
Proof.
  intros El Hl Hp Hr Hj Hd. destruct (m_disp _ HI p j Hj Hd) as ([?|Hc] & _); [done|].
  assert (locked l = true); [|congruence]. apply (m_lock _ HI c l El). exists j. split; [done|].
  pose proof (m_curok _ HI j Hj) as Hok. unfold cur_ok in Hok. rewrite Hc in Hok. unfold owner, hold. rewrite Hc.
  unfold disp in Hd. rewrite Hd in Hok |- *. destruct Hok as [_ [? _]]. congruence.
Qed.

(** A process that is not running is in no active position. *)
Definition parked (k : ppc) : Prop := match k with PFresh | PYield | PSleep _ _ | PDead => True | _ => False end.
Lemma not_running_parked p : ¬ running (m_sys σ) p → parked (m_ppc σ p).
Proof.
  intros Hr. pose proof (m_ppcok _ HI p) as Hok. unfold ppc_ok in Hok.
  assert (¬ ∃ j, (j < ncpu)%nat ∧ m_cur σ j = Pr p) as Hn.
  { intros (j & Hj & Hc). pose proof (m_curok _ HI j Hj) as H. unfold cur_ok in H. rewrite Hc in H. tauto. }
  destruct (m_ppc σ p); simpl; tauto.
Qed.
End facts.

(** What a step may do to an entry without upsetting the thread that belongs to it. *)
Definition calm (x y : Proc) : Prop :=
  (p_state y = SLEEPING → p_state x = SLEEPING ∧ p_chan y = p_chan x) ∧
  (dead (p_state x) → dead (p_state y)) ∧ (live (p_state x) → live (p_state y)).
Lemma benign_calm x y : benign x y → calm x y.
Proof. intros [Hc Ht]. unfold trans in Ht. unfold calm, dead, live. split_and!; intros; intuition congruence. Qed.
Lemma benign_running x y : benign x y → p_state x = RUNNING ↔ p_state y = RUNNING.
Proof. intros [_ Ht]. unfold trans in Ht. intuition congruence. Qed.

(** What a step may do to the entry of a process that it does not run. *)
Definition mild (x y : Proc) : Prop := calm x y ∧ (p_state x = RUNNING ↔ p_state y = RUNNING).
Lemma benign_mild x y : benign x y → mild x y.
Proof. intros H. split; [by apply benign_calm|by apply benign_running]. Qed.

(** A step that starts no process and leaves unused and new entries as they are. *)
Lemma targets_frame σ σ' : targets_ok σ → (∀ p, target (m_ppc σ' p) = None ∨ m_ppc σ' p = m_ppc σ p) →
  (∀ p q a, target (m_ppc σ p) = Some (q, a) → a = UNUSED ∨ a = EMBRYO → st (m_sys σ) q = Some a → st (m_sys σ') q = Some a) →
  targets_ok σ'.
Proof.
  intros [T1 T2] Hp Hs. split.
  - intros p q a E. destruct (Hp p) as [?|Ep]; [congruence|]. rewrite Ep in E. apply (Hs p); [done| |by eapply T1].
    unfold target in E. destruct (m_ppc σ p); naive_solver.
  - intros p p' q a b E E'. destruct (Hp p) as [?|Ep], (Hp p') as [?|Ep']; try congruence. rewrite Ep in E. rewrite Ep' in E'. by eapply T2.
Qed.
Lemma benign_still s s' q a : option_Forall2 benign (lookup_proc s q) (lookup_proc s' q) → a = UNUSED ∨ a = EMBRYO →
  st s q = Some a → st s' q = Some a.
Proof.
  unfold st. intros H Ha. destruct H as [x y [_ Ht]|]; [|done]. simpl. intros [= <-]. unfold trans in Ht. f_equal. intuition congruence.
Qed.
Lemma same_still s s' q (a : procstate) : lookup_proc s' q = lookup_proc s q → st s q = Some a → st s' q = Some a.
Proof. unfold st. by intros ->. Qed.

Lemma ppc_ok_frame σ σ' p :
  m_ppc σ' p = m_ppc σ p → option_Forall2 calm (lookup_proc (m_sys σ) p) (lookup_proc (m_sys σ') p) →
  (∀ j, (j < ncpu)%nat → m_cur σ j = Pr p → m_cur σ' j = Pr p) →
  (∀ l, is_Some (sy_locks (m_sys σ) !! l) → is_Some (sy_locks (m_sys σ') !! l)) →
  (∀ l, m_own σ !! l = Some p → m_own σ' !! l = Some p) →
  ppc_ok σ p → ppc_ok σ' p.
Proof.
  intros Ek Hb Hc Hl Ho. unfold ppc_ok. rewrite Ek.
  assert ((∃ j, (j < ncpu)%nat ∧ m_cur σ j = Pr p) → ∃ j, (j < ncpu)%nat ∧ m_cur σ' j = Pr p) as Hcur by (intros (j & ? & ?); eauto).
  assert (∀ lock, lock_there (m_sys σ) lock → lock_there (m_sys σ') lock) as Hlt by (intros [l|]; simpl; auto).
  destruct (m_ppc σ p); try (exact (λ H, H)); try (exact Hcur); try (intros [H1 H2]; split; [by apply Hcur|by apply Hlt]).
  - intros [H1 H2]. split; [by apply Hcur|]. destruct lock; [by apply Ho|done].
  - intros [H (x & Ex & Hlv & Hch)]. split; [by auto|]. rewrite Ex in Hb. inversion Hb as [z y Hben E1 E2|]; subst. exists y.
    split_and!; [done|by apply Hben|]. intros Hy. destruct (proj1 Hben Hy) as [Hs ->]. by apply Hch.
  - intros Hx y Ey. rewrite Ey in Hb. inversion Hb as [x ? Hben HA|]; subst. apply Hben. eapply Hx. by rewrite <- HA.
Qed.

Lemma Forall2_is_Some {X Y} (P : X → Y → Prop) (a : option X) (b : option Y) : option_Forall2 P a b → is_Some a ↔ is_Some b.
Proof. intros []; [by split; eexists|done]. Qed.
Lemma lookup_proc_is_Some s p : is_Some (lookup_proc s p) ↔ is_Some (st s p).
Proof. unfold st. by rewrite fmap_is_Some. Qed.
Lemma running_Some s p : running s p → is_Some (lookup_proc s p).
Proof. rewrite lookup_proc_is_Some. unfold running. intros ->. by eexists. Qed.

(** A step in which the CPU keeps its thread. *)
Lemma quiet_step σ σ' i : minv σ → (i < ncpu)%nat →
  (∀ c, stat (m_sys σ') c = stat (m_sys σ) c) → (∀ p, kind (m_sys σ') p = kind (m_sys σ) p) →
  (∀ p, is_Some (lookup_proc (m_sys σ') p) ↔ is_Some (lookup_proc (m_sys σ) p)) →
  (∃ u c, cpu (m_sys σ') i = Some u ∧ cpu_scheduler u = Some c ∧ is_Some (stat (m_sys σ) c)) →
  (∀ j, j ≠ i → cpu (m_sys σ') j = cpu (m_sys σ) j) → (∀ j, m_cur σ' j = m_cur σ j) →
  (∀ d j, j ≠ i → m_spc σ' d j = m_spc σ d j) →
  (∀ p, disp σ' p i → disp σ p i) → (∀ p, running (m_sys σ) p → disp σ p i → disp σ' p i) →
  (∀ p, running (m_sys σ') p ↔ running (m_sys σ) p) →
  (∀ c, csched (m_sys σ') i = Some c → inside σ i c) →
  (∀ p j, (j < ncpu)%nat → j ≠ i → m_cur σ j = Pr p → m_ppc σ' p = m_ppc σ p) →
  cur_ok σ' i →
  (∀ c l', ptl (m_sys σ') c = Some l' → ∃ l, ptl (m_sys σ) c = Some l ∧
    (owner σ' i = Some c ∧ locked l' = true ∧ (owner σ i = Some c ∨ locked l = false) ∨
     owner σ' i ≠ Some c ∧ owner σ i = Some c ∧ locked l' = false ∨
     owner σ' i ≠ Some c ∧ owner σ i ≠ Some c ∧ locked l' = locked l)) →
  (∀ p, ppc_ok σ' p) →
  (∀ l p, m_own σ' !! l = Some p → ∃ k, sy_locks (m_sys σ') !! l = Some k ∧ locked k = true) →
  (∀ d, in_loop (m_spc σ' d i) = true → m_cur σ i = Sch d) → (∀ d, slot_ok (m_spc σ' d i)) → targets_ok σ' →
  minv σ'.
Proof.
  intros HI Hi Hst Hk Hdom Hcpu Hoth Hcur Hspc Hsub Hkeep Hrun Hin Hppc Hcok Hlk Hpok Hown Hloop Hslot Htg.
  assert (∀ c, inside σ i c → inside σ' i c) as Hins.
  { intros c [->|(h & p & Es & Ep & Hd & Hr)]; [by left|right]. exists h, p. split_and!; [by rewrite Hst|done|auto|by apply Hrun]. }
  eapply (local_step_minv σ σ' i); [done..|]. split; try done.
  - intros j Hj. split_and!; auto.
  - intros p Hr Hn. by destruct Hn; apply Hrun.
  - intros p Hr Hn. by destruct Hn; apply Hrun.
  - intros p Hr _. by apply Hkeep.
  - intros p Hd. left. auto.
  - intros p Hd Hn. rewrite Hcur. destruct (m_disp _ HI p i Hi (Hsub p Hd)) as ([?|?] & _); [|done]. by destruct Hn; apply Hrun.
  - intros p Hd. destruct (m_disp _ HI p i Hi (Hsub p Hd)) as (_ & ? & ?). split; [auto|by apply Hdom].
  - auto.
  - intros c Hc. rewrite Hcur. auto.
Qed.

(** A step of CPU [i] that either keeps the invariant or waits for a lock. *)
Definition good (m : M mstate unit) (σ : mstate) : Prop :=
  match m σ with Ok _ σ' => minv σ' | Blocked _ => True | _ => False end.

Lemma good_ons {X} (m : M Sys X) (k : X → M mstate unit) σ :
  match m (m_sys σ) with
  | Ok a s' => good (k a) (set_sys s' σ)
  | Blocked _ => True
  | _ => False
  end → good (ons m ≫= k) σ.
Proof. unfold good, ons, zoom, mbind, M_bind. by destruct (m (m_sys σ)). Qed.

Lemma good_getS (k : mstate → M mstate unit) σ : good (k σ) σ → good (getS ≫= k) σ.
Proof. done. Qed.
Lemma good_modify f (k : unit → M mstate unit) σ : good (k ()) (f σ) → good (modify f ≫= k) σ.
Proof. done. Qed.

Definition holds (k : ppc) : bool := match k with PRun | PRelock _ | PAlloc _ | PEmbryo _ => false | _ => true end.

Section process.
Context (σ : mstate) (HI : minv σ) (i : nat) (Hi : (i < ncpu)%nat) (p : pptr) (Hcur : m_cur σ i = Pr p).
Implicit Types (s : Sys).

Definition move_proc s (k : ppc) own : mstate :=
  mkM s (m_cur σ) (m_spc σ) (λ q, if decide (q = p) then k else m_ppc σ q) own.

Lemma hold_proc : hold σ i = holds (m_ppc σ p).
Proof. unfold hold. by rewrite Hcur. Qed.

(** A step of the thread of [p] that does not switch. *)
Lemma move_proc_gen s' k own :
  (∀ c, stat s' c = stat (m_sys σ) c) → (∀ q, kind s' q = kind (m_sys σ) q) → sy_cpus s' = sy_cpus (m_sys σ) →
  (∀ q, q ≠ p → option_Forall2 mild (lookup_proc (m_sys σ) q) (lookup_proc s' q)) → running s' p →
  (∀ l, is_Some (sy_locks (m_sys σ) !! l) → is_Some (sy_locks s' !! l)) →
  (∀ c, c ≠ p.1 → ptl s' c = ptl (m_sys σ) c) →
  (∃ l l', ptl (m_sys σ) p.1 = Some l ∧ ptl s' p.1 = Some l' ∧
    (holds k = true ∧ locked l' = true ∧ (holds (m_ppc σ p) = true ∨ locked l = false) ∨
     holds k = false ∧ holds (m_ppc σ p) = true ∧ locked l' = false ∨
     holds k = false ∧ holds (m_ppc σ p) = false ∧ locked l' = locked l)) →
  (∀ l q, q ≠ p → m_own σ !! l = Some q → own !! l = Some q) →
  (∀ l q, own !! l = Some q → ∃ k, sy_locks s' !! l = Some k ∧ locked k = true) →
  (match k with
   | PRun | PWait | PReap | PAlloc _ | PEmbryo _ => True
   | PSleepL _ lock => match lock with Some l => own !! l = Some p | None => True end
   | PSleepU _ lock => lock_there s' lock
   | PRelock l => lock_there s' (Some l)
   | _ => False
   end) →
  targets_ok (move_proc s' k own) →
  minv (move_proc s' k own).
Proof.
  intros Hst Hk Hcpu Hoth Hrun Hlocks Hptl Hl Hown Howned Hk' Htg.
  pose proof (m_curok _ HI i Hi) as Hcok. unfold cur_ok in Hcok. rewrite Hcur in Hcok.
  destruct Hcok as (Hs & Hp & Hd & Hr & Hkind & Hdead).
  assert (∀ q, running s' q ↔ running (m_sys σ) q) as Hruns.
  { intros q. destruct (decide (q = p)) as [->|Hq]; [done|]. specialize (Hoth q Hq). unfold running, st.
    inversion Hoth as [x y [_ Hbr] E1 E2|E1 E2]; [|done]. simpl.
    split; intros [= ?]; f_equal; by apply Hbr. }
  assert (∀ j, cpu s' j = cpu (m_sys σ) j) as Hcpu' by (intros; unfold cpu; by rewrite Hcpu).
  eapply (quiet_step σ _ i); try done.
  - intros q. simpl. destruct (decide (q = p)) as [->|Hq].
    + split; intros _; by apply running_Some.
    + symmetry. eapply Forall2_is_Some, Hoth, Hq.
  - simpl. rewrite Hcpu'. destruct (sched_facts σ HI i Hi _ Hs) as (u & l & ? & ? & ? & _). by exists u, p.1.
  - intros c. simpl. unfold csched. rewrite Hcpu'. by apply (m_in _ HI).
  - intros q j Hj Hne Hq. simpl. rewrite decide_False; [done|]. intros ->. destruct Hne. by eapply cur_unique.
  - unfold cur_ok. simpl. rewrite Hcur. unfold csched, cproc in *. rewrite Hcpu', Hk, decide_True by done. split_and!; try done.
    by destruct k.
  - intros c l' El'. simpl in El'. unfold owner. rewrite hold_proc. unfold hold. simpl. rewrite Hcur, decide_True by done.
    assert ((if match k with PRun | PRelock _ | PAlloc _ | PEmbryo _ => false | _ => true end then csched s' i else None) = if holds k then Some p.1 else None) as ->.
    { unfold csched in *. by rewrite Hcpu', Hs. }
    rewrite Hs. destruct (decide (c = p.1)) as [->|Hc].
    + destruct Hl as (l & l'' & El & El'' & Hl). exists l. split; [done|]. simplify_eq.
      destruct Hl as [(-> & -> & [->|?])|[(-> & -> & ->)|(-> & -> & ->)]]; tauto || (left; tauto) || idtac.
      all: right; (left; split_and!; done) || (right; split_and!; done).
    + rewrite Hptl in El' by done. exists l'. split; [done|]. right. right. split_and!; [..|done].
      all: destruct (holds k), (holds (m_ppc σ p)); congruence.
  - intros q. destruct (decide (q = p)) as [->|Hq].
    + assert (∃ j, (j < ncpu)%nat ∧ m_cur σ j = Pr p) by (by exists i). unfold ppc_ok. simpl. rewrite decide_True by done.
      by destruct k.
    + eapply (ppc_ok_frame σ); simpl; [by rewrite decide_False| |done|done|by auto|apply (m_ppcok _ HI)].
      destruct (Hoth q Hq) as [? ? [? _]|]; by constructor.
  - intros d. by apply (m_loop _ HI).
  - intros d. by apply (m_slot _ HI).
Qed.
(** The same for a step that makes no process. *)
Lemma move_proc_minv s' k own :
  (∀ c, stat s' c = stat (m_sys σ) c) → (∀ q, kind s' q = kind (m_sys σ) q) → sy_cpus s' = sy_cpus (m_sys σ) →
  (∀ q, q ≠ p → option_Forall2 benign (lookup_proc (m_sys σ) q) (lookup_proc s' q)) → running s' p →
  (∀ l, is_Some (sy_locks (m_sys σ) !! l) → is_Some (sy_locks s' !! l)) →
  (∀ c, c ≠ p.1 → ptl s' c = ptl (m_sys σ) c) →
  (∃ l l', ptl (m_sys σ) p.1 = Some l ∧ ptl s' p.1 = Some l' ∧
    (holds k = true ∧ locked l' = true ∧ (holds (m_ppc σ p) = true ∨ locked l = false) ∨
     holds k = false ∧ holds (m_ppc σ p) = true ∧ locked l' = false ∨
     holds k = false ∧ holds (m_ppc σ p) = false ∧ locked l' = locked l)) →
  (∀ l q, q ≠ p → m_own σ !! l = Some q → own !! l = Some q) →
  (∀ l q, own !! l = Some q → ∃ k, sy_locks s' !! l = Some k ∧ locked k = true) →
  (match k with
   | PRun | PWait | PReap => True
   | PSleepL _ lock => match lock with Some l => own !! l = Some p | None => True end
   | PSleepU _ lock => lock_there s' lock
   | PRelock l => lock_there s' (Some l)
   | _ => False
   end) →
  minv (move_proc s' k own).
Proof.
  intros Hst Hk Hcpu Hoth Hrun Hlocks Hptl Hl Hown Howned Hk'. apply move_proc_gen; try done.
  - intros q Hq. destruct (Hoth q Hq); constructor. by apply benign_mild.
  - by destruct k.
  - apply (targets_frame σ); [apply (m_targets _ HI)| |].
    + intros q. simpl. case_decide; [left; by destruct k|by right].
    + intros _ q a _ Ha Hq. destruct (decide (q = p)) as [->|Hne]; [|by apply (benign_still (m_sys σ) s'); [apply Hoth|..]].
      pose proof (m_curok _ HI i Hi) as Hok. unfold cur_ok in Hok. rewrite Hcur in Hok. destruct Hok as (_ & _ & _ & Hr & _).
      unfold running in Hr. rewrite Hr in Hq. destruct Ha; congruence.
Qed.

(** The same, when only the lock of the table changes. *)
Lemma move_lock_minv l' k own :
  (∃ l, ptl (m_sys σ) p.1 = Some l ∧
    (holds k = true ∧ locked l' = true ∧ (holds (m_ppc σ p) = true ∨ locked l = false) ∨
     holds k = false ∧ holds (m_ppc σ p) = true ∧ locked l' = false ∨
     holds k = false ∧ holds (m_ppc σ p) = false ∧ locked l' = locked l)) →
  (∀ l q, q ≠ p → m_own σ !! l = Some q → own !! l = Some q) →
  (∀ l q, own !! l = Some q → ∃ k, sy_locks (m_sys σ) !! l = Some k ∧ locked k = true) →
  (match k with
   | PRun | PWait | PReap => True
   | PSleepL _ lock => match lock with Some l => own !! l = Some p | None => True end
   | PSleepU _ lock => lock_there (m_sys σ) lock
   | PRelock l => lock_there (m_sys σ) (Some l)
   | _ => False
   end) →
  minv (move_proc (set_ptl p.1 l' (m_sys σ)) k own).
Proof.
  intros (l & El & Hl) Hown Howned Hk. destruct (proc_facts σ HI i Hi p Hcur) as (u & l0 & x & _ & _ & _ & _ & _ & _ & _ & _ & Ex & Hx & _).
  apply move_proc_minv; try done.
  - intros c. apply stat_ptl.
  - intros q. apply kind_ptl.
  - intros q _. rewrite lookup_proc_ptl. by destruct (lookup_proc (m_sys σ) q); constructor.
  - unfold running. rewrite st_ptl. unfold st. rewrite Ex. simpl. by rewrite Hx.
  - intros c Hc. by rewrite ptl_set, decide_False.
  - exists l, l'. rewrite ptl_set, decide_True, El by done. done.
Qed.

(** Releasing the lock and going on as a running process. *)
Lemma release_run_good : holds (m_ppc σ p) = true → good (ons (release_sched_lock i);; modify (set_ppc p PRun)) σ.
Proof.
  intros Hh. destruct (proc_facts σ HI i Hi p Hcur) as (u & l & x & Eu & Eu' & Ep & Hin & Ht & El & Hpf & Hl & Ex & Hx & _).
  apply good_ons. rewrite (release_sched_Ok i _ _ l Hin El) by (apply Hl; by rewrite hold_proc).
  apply (move_lock_minv (freed l) PRun (m_own σ)); [|by auto|apply (m_owned _ HI)|done].
  exists l. split; [done|]. right. by left.
Qed.

(** Taking the lock. *)
Lemma acquire_good k : m_ppc σ p = PRun →
  match k with PWait => True | PSleepL _ (Some l) => m_own σ !! l = Some p | _ => False end →
  good (ons (acquire_sched_lock i);; modify (set_ppc p k)) σ.
Proof.
  intros Hk Hk'. destruct (proc_facts σ HI i Hi p Hcur) as (u & l & x & Eu & Eu' & Ep & Hin & Ht & El & Hpf & _ & Ex & Hx & _).
  apply good_ons. destruct (locked l) eqn:Hl.
  { by rewrite (acquire_sched_held i _ _ l Hin El Hl). }
  rewrite (acquire_sched_free i _ _ l Hin El Hl).
  apply (move_lock_minv (held i l) k (m_own σ)); [|by auto|apply (m_owned _ HI)|by destruct k as [| | |? []| | | | | | | |]].
  exists l. split; [done|]. left. rewrite Hl. by destruct k as [| | |? []| | | | | | | |]; auto.
Qed.

(** Taking and releasing the lock of a caller. *)
Lemma move_locks_minv l kk k own :
  is_Some (sy_locks (m_sys σ) !! l) → holds k = holds (m_ppc σ p) →
  (∀ l' q, q ≠ p → m_own σ !! l' = Some q → own !! l' = Some q) →
  (∀ l' q, own !! l' = Some q → l' = l ∧ locked kk = true ∨ l' ≠ l ∧ m_own σ !! l' = Some q) →
  match k with PRun => True | PSleepU _ (Some l') => l' = l | _ => False end →
  minv (move_proc (set_locks (<[l := kk]> (sy_locks (m_sys σ))) (m_sys σ)) k own).
Proof.
  intros Hl Hh Hown Howned Hk. destruct (proc_facts σ HI i Hi p Hcur) as (u & l0 & x & Eu & Eu' & Ep & Hin & Ht & El & Hpf & Hl0 & Ex & Hx & _).
  assert (∀ l', is_Some (sy_locks (m_sys σ) !! l') → is_Some (<[l := kk]> (sy_locks (m_sys σ)) !! l')) as Hdom.
  { intros l' Hl'. destruct (decide (l' = l)) as [->|]; [by rewrite lookup_insert_eq|by rewrite lookup_insert_ne]. }
  apply move_proc_minv; try done.
  - unfold running, st. change (lookup_proc (set_locks _ _) p) with (lookup_proc (m_sys σ) p). rewrite Ex. simpl. by rewrite Hx.
  - exists l0, l0. split; [done|]. split; [done|]. rewrite Hh. destruct (holds (m_ppc σ p)) eqn:E; [left|right; by right].
    split_and!; [done|apply Hl0; by rewrite hold_proc|by left].
  - intros l' q Hq. destruct (Howned l' q Hq) as [[-> ?]|[Hne Hq']]; simpl.
    + exists kk. by rewrite lookup_insert_eq.
    + rewrite lookup_insert_ne by done. by apply (m_owned _ HI l' q).
  - destruct k as [| | | |? []| | | | | | |]; try done. subst. simpl. by apply Hdom.
Qed.

Lemma acquire_lock_spec l : holds (m_ppc σ p) = false → is_Some (sy_locks (m_sys σ) !! l) →
  (∃ s', on_lock l (acquire_spinlock (Z.of_nat i)) (m_sys σ) = Blocked s') ∨
  ∃ s', on_lock l (acquire_spinlock (Z.of_nat i)) (m_sys σ) = Ok () s' ∧ minv (move_proc s' PRun (<[l := p]> (m_own σ))).
Proof.
  intros Hh [kk Ek]. unfold on_lock. erewrite !bind_Ok by done. rewrite Ek. erewrite !bind_Ok by done.
  destruct (locked kk) eqn:Hl.
  { left. eexists. by rewrite acquire_spinlock_held. }
  right. eexists. split; [by rewrite acquire_spinlock_free|]. apply move_locks_minv; [by eexists|by rewrite Hh| | |done].
  - intros l' q Hq Hl'. rewrite lookup_insert_ne; [done|]. intros <-. destruct (m_owned _ HI _ _ Hl') as (k' & ? & ?). congruence.
  - intros l' q. destruct (decide (l' = l)) as [->|]; [by left|]. rewrite lookup_insert_ne by done. by right.
Qed.

Lemma release_lock_spec l k : m_own σ !! l = Some p → holds k = holds (m_ppc σ p) →
  match k with PRun => True | PSleepU _ (Some l') => l' = l | _ => False end →
  ∃ s', on_lock l release_spinlock (m_sys σ) = Ok () s' ∧ minv (move_proc s' k (delete l (m_own σ))).
Proof.
  intros Ho Hh Hk. destruct (m_owned _ HI _ _ Ho) as (kk & Ek & Hl). eexists. split.
  - unfold on_lock. erewrite bind_Ok by done. rewrite Ek. erewrite bind_Ok by done. by rewrite release_spinlock_held.
  - apply move_locks_minv; [by eexists|done| | |done].
    + intros l' q Hq Hl'. rewrite lookup_delete_ne; [done|]. intros <-. congruence.
    + intros l' q. destruct (decide (l' = l)) as [->|]; [by rewrite lookup_delete_eq|]. rewrite lookup_delete_ne by done. by right.
Qed.

(** A change of the process table by the thread of [p], under the lock. *)
Lemma move_evolves_minv s' l l' k :
  ptl (m_sys σ) p.1 = Some l → evolves (set_ptl p.1 l' (m_sys σ)) s' →
  (holds k = true ∧ locked l' = true ∧ (holds (m_ppc σ p) = true ∨ locked l = false) ∨
   holds k = false ∧ holds (m_ppc σ p) = true ∧ locked l' = false ∨
   holds k = false ∧ holds (m_ppc σ p) = false ∧ locked l' = locked l) →
  match k with PRun | PWait | PReap | PSleepL _ None => True | _ => False end →
  minv (move_proc s' k (m_own σ)).
Proof.
  intros El Hev Hl Hk. destruct (proc_facts σ HI i Hi p Hcur) as (u & l0 & x & _ & _ & _ & _ & _ & _ & _ & _ & Ex & Hx & _).
  apply move_proc_minv.
  - intros c. by rewrite (ev_stat _ _ Hev), stat_ptl.
  - intros q. by rewrite (ev_kind _ _ Hev), kind_ptl.
  - by rewrite (ev_cpus _ _ Hev).
  - intros q _. rewrite <- (lookup_proc_ptl _ p.1 l'). apply (ev_proc _ _ Hev).
  - destruct (evolves_running _ s' p x Hev) as (x' & Ex' & Hx'); [by rewrite lookup_proc_ptl|done|].
    unfold running, st. rewrite Ex'. simpl. by rewrite Hx'.
  - intros l1. by rewrite (ev_locks _ _ Hev).
  - intros c Hc. rewrite (ev_ptl _ _ Hev), ptl_set. by rewrite decide_False.
  - exists l, l'. rewrite (ev_ptl _ _ Hev), ptl_set, decide_True, El by done. done.
  - by auto.
  - intros l1 q Hq. rewrite (ev_locks _ _ Hev). by apply (m_owned _ HI l1 q).
  - by destruct k as [| | |? []| | | | | | | |].
Qed.

(** The thread is done with what it did outside the lock. *)
Lemma stay_minv : holds (m_ppc σ p) = false → minv (move_proc (m_sys σ) PRun (m_own σ)).
Proof.
  intros Hh. destruct (proc_facts σ HI i Hi p Hcur) as (u & l & x & _ & _ & _ & _ & _ & El & _ & _ & Ex & Hx & _).
  apply move_proc_minv; try done.
  - unfold running, st. rewrite Ex. simpl. by rewrite Hx.
  - exists l, l. split_and!; try done. right. by right.
  - apply (m_owned _ HI).
Qed.

(** The thread of [p] is given the unused slot [q]. *)
Lemma move_target_minv s' l q y : ptl (m_sys σ) p.1 = Some l → evolves (set_ptl p.1 (freed l) (m_sys σ)) s' →
  holds (m_ppc σ p) = false → locked l = false → lookup_proc (m_sys σ) q = Some y → p_state y = UNUSED →
  (∀ r a, target (m_ppc σ r) ≠ Some (q, a)) → minv (move_proc s' (PAlloc q) (m_own σ)).
Proof.
  intros El Hev Hh Hl Ey Hy Hnt. destruct (proc_facts σ HI i Hi p Hcur) as (u & l0 & x & _ & _ & _ & _ & _ & _ & _ & _ & Ex & Hx & _).
  assert (∀ r, option_Forall2 benign (lookup_proc (m_sys σ) r) (lookup_proc s' r)) as Hb.
  { intros r. rewrite <- (lookup_proc_ptl _ p.1 (freed l)). apply (ev_proc _ _ Hev). }
  apply move_proc_gen; try done.
  - intros c. by rewrite (ev_stat _ _ Hev), stat_ptl.
  - intros r. by rewrite (ev_kind _ _ Hev), kind_ptl.
  - by rewrite (ev_cpus _ _ Hev).
  - intros r _. destruct (Hb r); constructor. by apply benign_mild.
  - destruct (evolves_running _ s' p x Hev) as (x' & Ex' & Hx'); [by rewrite lookup_proc_ptl|done|].
    unfold running, st. rewrite Ex'. simpl. by rewrite Hx'.
  - intros l1. by rewrite (ev_locks _ _ Hev).
  - intros c Hc. rewrite (ev_ptl _ _ Hev), ptl_set. by rewrite decide_False.
  - exists l, (freed l). rewrite (ev_ptl _ _ Hev), ptl_set, decide_True, El by done. split_and!; try done. right. right. by rewrite Hl.
  - intros l1 r Hr. rewrite (ev_locks _ _ Hev). by apply (m_owned _ HI l1 r).
  - split.
    + intros r q' a. simpl. case_decide as Hr.
      * intros [= <- <-]. apply (benign_still (m_sys σ)); [apply Hb|by left|]. unfold st. rewrite Ey. simpl. by rewrite Hy.
      * intros E. apply (benign_still (m_sys σ)); [apply Hb|destruct (m_ppc σ r); naive_solver|]. by apply (tg_state _ (m_targets _ HI) r).
    + intros r r' q' a b. simpl. case_decide as Hr; case_decide as Hr'; intros E E'; try congruence.
      * injection E as <- <-. by destruct (Hnt r' b).
      * injection E' as <- <-. by destruct (Hnt r a).
      * by eapply (tg_one _ (m_targets _ HI)).
Qed.

(** The thread of [p] writes to the entry it fills in, without the lock. *)
Lemma move_entry_good q a f k : st (m_sys σ) q = Some a → target (m_ppc σ p) = Some (q, a) → holds (m_ppc σ p) = false →
  (∀ x, (p_is_scheduler (f x), p_cont (f x)) = (p_is_scheduler x, p_cont x)) →
  (∀ x, p_state x = a → target k = Some (q, p_state (f x)) ∨ target k = None ∧ p_state (f x) = UNUSED) →
  match k with PRun => True | PEmbryo q' => q' = q | _ => False end →
  good (ons (upd_proc q f);; modify (set_ppc p k)) σ.
Proof.
  intros Hst Htg Hh Hf Hk1 Hk. destruct (proc_facts σ HI i Hi p Hcur) as (u & l & x & _ & _ & _ & _ & _ & El & _ & _ & Ex & Hx & _).
  unfold st in Hst. destruct (lookup_proc (m_sys σ) q) as [y|] eqn:Ey; [|done]. injection Hst as Hy.
  assert (dead a) as Ha by (unfold dead; destruct (m_ppc σ p); naive_solver).
  assert (dead (p_state (f y))) as Hfy by (unfold dead; destruct (Hk1 y Hy) as [E|[_ E]]; destruct k; naive_solver).
  assert (q ≠ p) as Hqp by (intros ->; unfold dead in Ha; simplify_eq; intuition congruence).
  apply good_ons. rewrite (upd_proc_Ok _ _ y) by done. set (s' := alter_proc q f (m_sys σ)).
  apply (move_proc_gen s' k (m_own σ)); try done.
  - intros c. apply stat_alter.
  - intros r. by apply kind_alter.
  - intros r Hr. unfold s'. rewrite lookup_proc_alter. case_decide as Erq.
    + subst r. rewrite Ey. constructor. unfold mild, calm, dead, live in *. intuition congruence.
    + destruct (lookup_proc (m_sys σ) r); constructor. by apply benign_mild.
  - unfold running, st, s'. rewrite lookup_proc_alter, decide_False, Ex by done. simpl. by rewrite Hx.
  - intros c _. apply ptl_alter.
  - exists l, l. unfold s'. rewrite ptl_alter. split_and!; try done. right. right. rewrite Hh. by destruct k.
  - apply (m_owned _ HI).
  - by destruct k.
  - split.
    + intros r q' b. simpl. unfold s'. rewrite st_alter. case_decide as Hr.
      * intros E. destruct (Hk1 y Hy) as [E'|[E' _]]; [|congruence]. rewrite E' in E. injection E as <- <-. rewrite decide_True, Ey by done. done.
      * intros E. rewrite decide_False; [by apply (tg_state _ (m_targets _ HI) r)|]. intros ->. destruct Hr. by eapply (tg_one _ (m_targets _ HI)).
    + intros r r' q' b b'. simpl. assert (∀ b, target k = Some (q', b) → q' = q) as Hkq by (destruct k; naive_solver).
      case_decide as Hr; case_decide as Hr'; intros E E'; try congruence.
      * rewrite (Hkq _ E) in E'. destruct Hr'. by eapply (tg_one _ (m_targets _ HI)).
      * rewrite (Hkq _ E') in E. destruct Hr. by eapply (tg_one _ (m_targets _ HI)).
      * by eapply (tg_one _ (m_targets _ HI)).
Qed.

(** The lock is taken, the table worked on, and the lock released. *)
Lemma evolves_released s1 l : ptl (m_sys σ) p.1 = Some l → evolves (set_ptl p.1 (held i l) (m_sys σ)) s1 →
  evolves (set_ptl p.1 (freed l) (m_sys σ)) (set_ptl p.1 (freed l) s1).
Proof.
  intros El Hev. split.
  - intros c. by rewrite !stat_ptl, (ev_stat _ _ Hev), stat_ptl.
  - intros c. rewrite !ptl_set, (ev_ptl _ _ Hev), ptl_set. case_decide; [|done]. by destruct (ptl (m_sys σ) c).
  - intros q. by rewrite !kind_ptl, (ev_kind _ _ Hev), kind_ptl.
  - simpl. by rewrite (ev_cpus _ _ Hev).
  - simpl. by rewrite (ev_locks _ _ Hev).
  - simpl. by rewrite (ev_init _ _ Hev).
  - intros q. rewrite !lookup_proc_ptl. rewrite <- (lookup_proc_ptl (m_sys σ) p.1 (held i l)). apply (ev_proc _ _ Hev).
Qed.

Lemma wakeup_good chan : m_ppc σ p = PRun → good (ons (wakeup i chan);; modify (set_ppc p PRun)) σ.
Proof.
  intros Hk. destruct (proc_facts σ HI i Hi p Hcur) as (u & l & x & Eu & Eu' & Ep & Hin & Ht & El & Hpf & _ & Ex & Hx & _).
  apply good_ons. unfold wakeup. destruct (locked l) eqn:Hl.
  { unfold mbind at 1, M_bind at 1. by rewrite (acquire_sched_held i _ _ l Hin El Hl). }
  erewrite bind_Ok by (by apply acquire_sched_free). set (s0 := set_ptl p.1 (held i l) (m_sys σ)).
  assert (in_sched i s0 p.1) as Hin0 by (by apply in_sched_ptl).
  assert (table_full s0 p.1) as Ht0 by (destruct Ht as (h & ? & ?); exists h; unfold s0; by rewrite stat_ptl).
  pose proof (wakeup1_evolves i s0 p.1 chan Hin0 Ht0) as ([] & s1 & E & Hev)%wp_Ok. erewrite bind_Ok by exact E.
  rewrite (release_sched_Ok i s1 p.1 (held i l)); [|by eapply evolves_in_sched| |done].
  2:{ rewrite (ev_ptl _ _ Hev). unfold s0. by rewrite ptl_set, decide_True, El. }
  apply (move_evolves_minv _ l (freed l)); [done|exact (evolves_released s1 l El Hev)| |done].
  right. right. rewrite Hk, Hl. done.
Qed.

Lemma wait_good : m_ppc σ p = PWait → good (w ← ons (wait_pass i p); modify (set_ppc p (match w with
  | Reaped _ _ _ => PReap | NoChild => PRun | MustSleep => PSleepL (proc_chan p) None end))) σ.
Proof.
  intros Hk. destruct (proc_facts σ HI i Hi p Hcur) as (u & l & x & Eu & Eu' & Ep & Hin & Ht & El & Hpf & Hl & Ex & Hx & _).
  assert (locked l = true) as Hl' by (apply Hl; by rewrite hold_proc, Hk).
  apply good_ons. destruct (wait_pass_spec i (m_sys σ) p.1 l p x Hin Ht El Hl' Ex) as [(k & y & Ey & Hp & Hy & ->)|(_ & [(_ & ->)|(_ & _ & ->)])].
  - apply (move_proc_minv (alter_proc (p.1, k) reap (m_sys σ)) PReap (m_own σ)); try done.
    + intros c. apply stat_alter.
    + intros q. by apply kind_alter.
    + intros q Hq. rewrite lookup_proc_alter. destruct (lookup_proc (m_sys σ) q) eqn:Eq; case_decide; constructor; [|done].
      subst q. simplify_eq. by apply reap_benign.
    + unfold running. rewrite st_alter. case_decide as E; [|unfold st; rewrite Ex; simpl; by rewrite Hx].
      rewrite <- E in Ey. simplify_eq. congruence.
    + intros c _. apply ptl_alter.
    + exists l, l. rewrite ptl_alter. split_and!; try done. left. rewrite Hk. by auto.
    + apply (m_owned _ HI).
  - apply (move_lock_minv (freed l) PRun (m_own σ)); [|by auto|apply (m_owned _ HI)|done].
    exists l. split; [done|]. right. left. by rewrite Hk.
  - apply (move_proc_minv (m_sys σ) (PSleepL (proc_chan p) None) (m_own σ)); try done.
    + unfold running, st. rewrite Ex. simpl. by rewrite Hx.
    + exists l, l. split_and!; try done. left. rewrite Hk. by auto.
    + apply (m_owned _ HI).
Qed.

Lemma sleep_resume_good chan lock : m_ppc σ p = PSleep chan lock →
  good (ons (sleep_resume i p lock);; modify (set_ppc p (match lock with Some l => PRelock l | None => PWait end))) σ.
Proof.
  intros Hk. destruct (proc_facts σ HI i Hi p Hcur) as (u & l & x & Eu & Eu' & Ep & Hin & Ht & El & Hpf & Hl & Ex & Hx & _).
  assert (locked l = true) as Hl' by (apply Hl; by rewrite hold_proc, Hk).
  pose proof (m_ppcok _ HI p) as Hok. unfold ppc_ok in Hok. rewrite Hk in Hok. destruct Hok as [Hthere _].
  apply good_ons. unfold sleep_resume. erewrite bind_Ok by (by eapply upd_proc_Ok). set (s1 := alter_proc p (with_chan 0) (m_sys σ)).
  assert (∀ l', minv (move_proc (set_ptl p.1 l' s1) (match lock with Some l => PRelock l | None => PWait end) (m_own σ)) ∨
    locked l' = match lock with Some _ => true | None => false end) as Hmove.
  { intros l'. destruct (decide (locked l' = match lock with Some _ => true | None => false end)) as [?|Hne]; [by right|left].
    apply move_proc_minv; try done.
    - intros c. unfold s1. by rewrite stat_ptl, stat_alter.
    - intros q. unfold s1. rewrite kind_ptl. by apply kind_alter.
    - intros q Hq. unfold s1. rewrite lookup_proc_ptl, lookup_proc_alter, decide_False by done. by destruct (lookup_proc (m_sys σ) q); constructor.
    - unfold running, s1. rewrite st_ptl, st_alter, decide_True by done. rewrite Ex. simpl. by rewrite Hx.
    - intros c Hc. unfold s1. by rewrite ptl_set, decide_False, ptl_alter.
    - exists l, l'. unfold s1. rewrite ptl_set, decide_True, ptl_alter, El by done. split_and!; try done. rewrite Hk.
      destruct lock; [right; left|left]; destruct (locked l'); done || auto.
    - apply (m_owned _ HI).
    - by destruct lock. }
  destruct lock as [lk|].
  - rewrite (release_sched_Ok i s1 p.1 l); [|by apply in_sched_alter|unfold s1; by rewrite ptl_alter|done].
    destruct (Hmove (freed l)) as [H|H]; [exact H|done].
  - cbn. destruct (Hmove l) as [H|H]; [|congruence]. replace s1 with (set_ptl p.1 l s1); [exact H|].
    unfold set_ptl. destruct s1 as [cs cp ls ip] eqn:E. unfold set_conts. simpl. f_equal. apply list_eq. intros c.
    rewrite list_lookup_alter. case_decide as Hc; [|done]. subst c.
    assert (ptl s1 p.1 = Some l) as El1 by (unfold s1; by rewrite ptl_alter). rewrite E in El1. unfold ptl in El1. simpl in El1.
    destruct (cs !! p.1) as [C|]; [|done]. simpl in *. injection El1 as <-. by destruct C.
Qed.
End process.

(** The lock condition when nothing changes about the locks. *)
Lemma lock_same σ σ' i : minv σ → (i < ncpu)%nat → owner σ' i = owner σ i → (∀ c, ptl (m_sys σ') c = ptl (m_sys σ) c) →
  ∀ c l', ptl (m_sys σ') c = Some l' → ∃ l, ptl (m_sys σ) c = Some l ∧
    (owner σ' i = Some c ∧ locked l' = true ∧ (owner σ i = Some c ∨ locked l = false) ∨
     owner σ' i ≠ Some c ∧ owner σ i = Some c ∧ locked l' = false ∨
     owner σ' i ≠ Some c ∧ owner σ i ≠ Some c ∧ locked l' = locked l).
Proof.
  intros HI Hi -> Hp c l'. rewrite Hp. intros El. exists l'. split; [done|].
  destruct (decide (owner σ i = Some c)) as [Ho|Ho]; [left|right; by right].
  split_and!; [done| |by left]. apply (m_lock _ HI c l' El). by exists i.
Qed.

(** A new process becomes runnable. *)
Lemma create_minv σ q x f : minv σ → lookup_proc (m_sys σ) q = Some x → p_state x = EMBRYO → (∀ p a, target (m_ppc σ p) ≠ Some (q, a)) →
  (∀ x, (p_is_scheduler (f x), p_cont (f x)) = (p_is_scheduler x, p_cont x)) →
  (∀ x, p_state (f x) = RUNNABLE) →
  minv (set_ppc q PFresh (set_sys (alter_proc q f (m_sys σ)) σ)).
Proof.
  intros HI Ex Hx Htq Hk Hf. set (s' := alter_proc q f (m_sys σ)).
  assert (∀ p, kind s' p = kind (m_sys σ) p) as Hkd by (intros; by apply kind_alter).
  assert (¬ running (m_sys σ) q) as Hnr by (unfold running, st; rewrite Ex; simpl; congruence).
  assert (∀ p, running s' p ↔ running (m_sys σ) p) as Hrun.
  { intros p. unfold running, s'. rewrite st_alter. case_decide as Hp; [|done]. subst p. rewrite Ex. simpl. rewrite Hf.
    split; [done|]. intros H. by destruct Hnr. }
  assert (∀ p j, (j < ncpu)%nat → m_cur σ j = Pr p → p ≠ q) as Hcur.
  { intros p j Hj Hp ->. destruct Hnr. pose proof (m_curok _ HI j Hj) as H. unfold cur_ok in H. rewrite Hp in H. tauto. }
  assert (0 < ncpu)%nat as H0 by (vm_compute; lia).
  pose proof (m_curok _ HI 0%nat H0) as Hok.
  eapply (quiet_step σ _ 0); try done.
  - intros c. apply stat_alter.
  - intros p. change (m_sys (set_ppc q PFresh (set_sys s' σ))) with s'. rewrite !lookup_proc_is_Some. unfold s'. rewrite st_alter.
    case_decide as Hp; [|done]. subst p. unfold st. by rewrite Ex.
  - apply (w_cpu _ (m_w _ HI) 0%nat H0).
  - intros c. by apply (m_in _ HI).
  - intros p j Hj Hne Hp. simpl. by rewrite decide_False by eauto.
  - unfold cur_ok in *. simpl. fold s'. destruct (m_cur σ 0%nat) as [c|p] eqn:Ec.
    + unfold s' at 1. rewrite stat_alter. destruct Hok as [? Hok]. split; [done|]. destruct (m_spc σ c 0%nat) as [k|k|k| | |]; try done.
      * by rewrite Hrun.
      * destruct Hok as (h & p & Hok). exists h, p. rewrite Hrun. unfold s' at 1. by rewrite stat_alter.
      * destruct Hok as (h & p & Hok). exists h, p. rewrite Hrun. unfold s' at 1. by rewrite stat_alter.
      * destruct Hok as (h & p & Hok). exists h, p. rewrite Hrun. unfold s' at 1. by rewrite stat_alter.
    + rewrite Hrun, decide_False by (by eapply Hcur). by rewrite Hkd.
  - apply lock_same; [done|done| |intros; apply ptl_alter]. unfold owner, hold. simpl.
    destruct (m_cur σ 0%nat) as [c|p] eqn:Ec; [done|]. rewrite decide_False by (by eapply Hcur). done.
  - intros p. destruct (decide (p = q)) as [->|Hp].
    + unfold ppc_ok. simpl. by rewrite decide_True.
    + eapply (ppc_ok_frame σ); simpl; [by rewrite decide_False| |done|done|done|apply (m_ppcok _ HI)].
      unfold s'. rewrite lookup_proc_alter, decide_False by done. destruct (lookup_proc (m_sys σ) p); constructor. by apply benign_calm.
  - apply (m_owned _ HI).
  - intros d. by apply (m_loop _ HI).
  - intros d. by apply (m_slot _ HI).
  - apply (targets_frame σ); [apply (m_targets _ HI)| |].
    + intros p. simpl. case_decide; [by left|by right].
    + intros p r a Hr _ Ha. apply (same_still (m_sys σ)); [|done]. simpl. unfold s'. rewrite lookup_proc_alter, decide_False; [done|].
      intros ->. by destruct (Htq p a).
Qed.

Section switch.
Context (σ : mstate) (HI : minv σ) (i : nat) (Hi : (i < ncpu)%nat).

(** The process of the CPU gives it back to the scheduler. *)
Lemma switch_back_minv p s' k x' : m_cur σ i = Pr p →
  (∀ c, stat s' c = stat (m_sys σ) c) → (∀ q, kind s' q = kind (m_sys σ) q) → sy_cpus s' = sy_cpus (m_sys σ) →
  sy_locks s' = sy_locks (m_sys σ) →
  (∀ q, q ≠ p → option_Forall2 benign (lookup_proc (m_sys σ) q) (lookup_proc s' q)) →
  lookup_proc s' p = Some x' → p_state x' ≠ RUNNING →
  (∀ c, c ≠ p.1 → ptl s' c = ptl (m_sys σ) c) →
  (∃ l l', ptl (m_sys σ) p.1 = Some l ∧ ptl s' p.1 = Some l' ∧ locked l' = true ∧ (holds (m_ppc σ p) = true ∨ locked l = false)) →
  match k with PYield => True | PSleep ch lock => lock_there (m_sys σ) lock ∧ p_state x' = SLEEPING ∧ p_chan x' = ch | PDead => p_state x' = ZOMBIE | _ => False end →
  minv (set_cur i (Sch p.1) (set_ppc p k (set_sys s' σ))).
Proof.
  intros Hcur Hst Hk Hcpu Hlocks Hoth Ex' Hx' Hptl Hl Hpk.
  pose proof (m_curok _ HI i Hi) as Hcok. unfold cur_ok in Hcok. rewrite Hcur in Hcok.
  destruct Hcok as (Hs & Hp & Hd & Hr & Hkind & Hdead). destruct (sched_facts σ HI i Hi _ Hs) as (u & l0 & Eu & Eu' & Hsc & _).
  assert (¬ running s' p) as Hnr by (unfold running, st; rewrite Ex'; simpl; congruence).
  assert (∀ q, q ≠ p → running s' q ↔ running (m_sys σ) q) as Hruns.
  { intros q Hq. specialize (Hoth q Hq). unfold running, st. inversion Hoth as [x y Hb E1 E2|E1 E2]; [|done]. simpl.
    pose proof (benign_running _ _ Hb) as Hbr. split; intros [= ?]; f_equal; by apply Hbr. }
  assert (∀ j, cpu s' j = cpu (m_sys σ) j) as Hcpu' by (intros; unfold cpu; by rewrite Hcpu).
  set (σ' := set_cur i (Sch p.1) (set_ppc p k (set_sys s' σ))).
  assert (∀ c, inside σ i c → inside σ' i c) as Hins.
  { intros c [->|(h & q & Es & Ep & Hdq & Hrq)]; [by left|]. destruct (decide (c = 0)%nat) as [->|Hc]; [by left|right].
    exists h, q. split_and!; [by rewrite Hst|done|done|].
    apply Hruns; [|done]. intros ->. destruct (w_sub _ (m_w _ HI) c h Es Hc) as (_ & _ & k' & Ep' & Hk').
    destruct Hkind as [o Ho]. by simplify_eq. }
  eapply (local_step_minv σ σ' i); [done..|]. split; try done.
  - intros q. simpl. destruct (decide (q = p)) as [->|Hq].
    + rewrite Ex'. split; [intros _; by apply running_Some|by eexists].
    + symmetry. eapply Forall2_is_Some, Hoth, Hq.
  - simpl. rewrite Hcpu'. by exists u, p.1.
  - intros j Hj. simpl. rewrite decide_False by done. by rewrite Hcpu'.
  - intros q Hr' Hn. destruct (decide (q = p)) as [->|Hq]; [done|]. by destruct Hn; apply Hruns.
  - intros q Hr' Hn. destruct (decide (q = p)) as [->|Hq]; [done|]. by destruct Hn; apply Hruns.
  - intros q Hdq. by left.
  - intros q Hdq Hn. simpl. rewrite decide_True by done. destruct (decide (q = p)) as [->|Hq]; [done|].
    destruct (m_disp _ HI q i Hi Hdq) as ([Hr'|Hc] & _); [by destruct Hn; apply Hruns|congruence].
  - intros q Hdq. destruct (m_disp _ HI q i Hi Hdq) as (_ & Hin & Hl'). split; [by apply Hins|]. simpl.
    destruct (decide (q = p)) as [->|Hq]; [by rewrite Ex'|]. by apply (Forall2_is_Some _ _ _ (Hoth q Hq)).
  - intros c Hc. apply Hins, (m_in _ HI); [done|]. unfold csched in *. simpl in Hc. by rewrite Hcpu' in Hc.
  - intros q j Hj Hne Hq. simpl. rewrite decide_False; [done|]. intros ->. destruct Hne. by eapply cur_unique.
  - unfold cur_ok. simpl. rewrite decide_True by done. rewrite Hst. split; [done|]. unfold disp in Hd. rewrite Hd. split.
    + unfold csched in *. by rewrite Hcpu'.
    + by destruct p.
  - intros c l'. simpl. unfold owner, hold. simpl. rewrite decide_True by done. unfold disp in Hd. rewrite Hd. rewrite Hcur.
    change (match m_ppc σ p with PRun | PRelock _ | PAlloc _ | PEmbryo _ => false | _ => true end) with (holds (m_ppc σ p)).
    unfold csched in *. rewrite Hcpu', Hs. intros El'. destruct (decide (c = p.1)) as [->|Hc].
    + destruct Hl as (l & l'' & El & El'' & Hl1 & Hl2). exists l. split; [done|]. left. simplify_eq. split_and!; [done..|].
      destruct Hl2 as [->|?]; [by left|by right].
    + rewrite Hptl in El' by done. exists l'. split; [done|]. right. right. split_and!; [congruence| |done].
      destruct (holds (m_ppc σ p)); congruence.
  - intros q. destruct (decide (q = p)) as [->|Hq].
    + unfold ppc_ok. simpl. rewrite decide_True by done. destruct k; try done.
      * destruct Hpk as (? & ? & ?). split; [destruct lock; simpl in *; by rewrite ?Hlocks|]. exists x'. split_and!; [done|by left|done].
      * intros y Ey. simplify_eq. by left.
    + eapply (ppc_ok_frame σ); simpl; [by rewrite decide_False| | |by rewrite Hlocks|done|apply (m_ppcok _ HI)].
      * destruct (Hoth q Hq); constructor. by apply benign_calm.
      * intros j Hj Hcj. case_decide; [|done]. subst j. congruence.
  - intros l q Hq. simpl. rewrite Hlocks. by apply (m_owned _ HI l q).
  - intros c Hc. simpl in *. pose proof (m_loop _ HI c i Hi Hc). congruence.
  - intros c. by apply (m_slot _ HI).
  - apply (targets_frame σ); [apply (m_targets _ HI)| |].
    + intros q. simpl. case_decide; [left; by destruct k|by right].
    + intros _ q a _ Ha Hq. destruct (decide (q = p)) as [->|Hne]; [|by apply (benign_still (m_sys σ) s'); [apply Hoth|..]].
      unfold running in Hr. rewrite Hr in Hq. destruct Ha; congruence.
Qed.

(** The lock condition of [local_step], in terms of the lock held afterwards. *)
Definition lock_cond (own own' : option nat) (s s' : Sys) : Prop :=
  ∀ c l', ptl s' c = Some l' → ∃ l, ptl s c = Some l ∧
    (own' = Some c ∧ locked l' = true ∧ (own = Some c ∨ locked l = false) ∨
     own' ≠ Some c ∧ own = Some c ∧ locked l' = false ∨
     own' ≠ Some c ∧ own ≠ Some c ∧ locked l' = locked l).

(** The scheduler thread of [c] goes on in its loop. *)
Lemma sched_move_minv c s' k' : m_cur σ i = Sch c → in_loop k' = true →
  match k' with SVisit n => (n ≤ Z.to_nat NPROC)%nat | _ => True end →
  (∀ d, stat s' d = stat (m_sys σ) d) → (∀ q, lookup_proc s' q = lookup_proc (m_sys σ) q) →
  sy_locks s' = sy_locks (m_sys σ) → (∀ j, j ≠ i → cpu s' j = cpu (m_sys σ) j) →
  csched s' i = Some c → inside σ i c →
  lock_cond (owner σ i) (match k' with STop => Some c | _ => None end) (m_sys σ) s' →
  minv (set_spc i c k' (set_sys s' σ)).
Proof.
  intros Hcur Hk Hn Hst Hlook Hlocks Hcpu Hcs Hin Hl. pose proof (m_curok _ HI i Hi) as Hok. unfold cur_ok in Hok. rewrite Hcur in Hok.
  destruct Hok as [Hsc Hok].
  assert (∀ q, running s' q ↔ running (m_sys σ) q) as Hrun by (intros; unfold running, st; by rewrite Hlook).
  assert (∀ q, kind s' q = kind (m_sys σ) q) as Hkind by (intros; unfold kind; by rewrite Hlook).
  assert (∃ u, cpu s' i = Some u ∧ cpu_scheduler u = Some c) as (u & Eu & Eu').
  { unfold csched in Hcs. destruct (cpu s' i) as [u|]; [|done]. by exists u. }
  eapply (quiet_step σ _ i); try done; simpl.
  - intros q. by rewrite Hlook.
  - exists u, c. by split_and!.
  - intros d j Hj. by rewrite decide_False by naive_solver.
  - intros q. unfold disp. simpl. case_decide as Hq; [|done]. destruct Hq as [-> _]. by destruct k'.
  - intros q Hr Hd. unfold disp in *. simpl. case_decide as Hq; [|done]. destruct Hq as [Hq _]. rewrite Hq in Hd. rewrite Hd in Hok.
    destruct Hok as [_ Hnr]. destruct Hnr. destruct q as [a b]. simpl in *. by subst a.
  - intros d Hd. by simplify_eq.
  - unfold cur_ok. simpl. rewrite Hcur, decide_True, Hst by done. split; [done|]. by destruct k'.
  - intros d l' El'. destruct (Hl d l' El') as (l & El & H). exists l. split; [done|].
    assert (owner (set_spc i c k' (set_sys s' σ)) i = match k' with STop => Some c | _ => None end) as ->.
    { unfold owner, hold. simpl. rewrite Hcur, decide_True by done. by destruct k'. }
    exact H.
  - intros q. eapply (ppc_ok_frame σ); simpl; try done; [|by rewrite Hlocks|apply (m_ppcok _ HI)].
    rewrite Hlook. destruct (lookup_proc (m_sys σ) q); constructor. by apply benign_calm.
  - intros l q Hq. rewrite Hlocks. by apply (m_owned _ HI l q).
  - intros d. case_decide as Hd; [by destruct Hd as [-> _]|]. by apply (m_loop _ HI).
  - intros d. case_decide as Hd; [by destruct k'|]. by apply (m_slot _ HI).
  - apply (targets_frame σ); [apply (m_targets _ HI)|by right|]. intros _ q a _ _. by apply same_still.
Qed.

(** The entry of a container stands for a scheduler further down that has nothing running
    on this CPU; that of a process for one that is not on a CPU. *)
Lemma dispatch_sub c k o d : m_cur σ i = Sch c → m_spc σ c i = SVisit k → kind (m_sys σ) (c, k) = Some (true, o) → o = Some d →
  ∃ h, stat (m_sys σ) d = Some h ∧ sh_p h = Some (c, k) ∧ d ≠ 0%nat ∧ d ≠ c ∧
    match m_spc σ d i with SYield _ | SRound | SEntry => True | _ => False end.
Proof.
  intros Hcur Hspc Hkd ->. destruct (w_kind _ (m_w _ HI) _ _ Hkd) as (d' & h & [= <-] & Hd0 & Es & Ep).
  assert (c ≠ d) as Hcd.
  { intros <-. destruct (w_sub _ (m_w _ HI) c h Es Hd0) as (Hlt & _ & k' & Ep' & _). simplify_eq. lia. }
  exists h. split_and!; try done. pose proof (m_loop _ HI d i Hi) as Hloop. rewrite Hcur in Hloop.
  destruct (m_spc σ d i) eqn:Esd; simpl in Hloop; try done; try (specialize (Hloop eq_refl); congruence).
  destruct (m_disp _ HI (d, k0) i Hi) as (_ & Hin & _); [by unfold disp; simpl|]. simpl in Hin.
  destruct Hin as [?|(h' & p' & Es' & Ep' & Hdp & _)]; [done|]. simplify_eq. unfold disp in Hdp. simpl in Hdp. congruence.
Qed.

(** The scheduler of [c] gives the CPU to the process in slot [k]. *)
Lemma dispatch_minv c k s' t l x u' o : m_cur σ i = Sch c → m_spc σ c i = SVisit k →
  lookup_proc (m_sys σ) (c, k) = Some x → p_state x = RUNNABLE → kind (m_sys σ) (c, k) = Some o →
  ptl (m_sys σ) c = Some l → locked l = false →
  (∀ d, stat s' d = stat (m_sys σ) d) → (∀ q, kind s' q = kind (m_sys σ) q) → sy_locks s' = sy_locks (m_sys σ) →
  (∀ q, lookup_proc s' q = if decide (q = (c, k)) then with_state RUNNING <$> lookup_proc (m_sys σ) q else lookup_proc (m_sys σ) q) →
  (∀ j, j ≠ i → cpu s' j = cpu (m_sys σ) j) → cpu s' i = Some u' → cpu_scheduler u' = Some c → cpu_proc u' = Some (c, k) →
  (∀ d, ptl s' d = if decide (d = c) then Some (held i l) else ptl (m_sys σ) d) →
  match o with (true, Some d) => t = Sch d | (true, None) => False | (false, _) => t = Pr (c, k) end →
  minv (set_cur i t (set_spc i c (SSwitch k) (set_sys s' σ))).
Proof.
  intros Hcur Hspc Ex Hx Hkd El Hl Hst Hk Hlocks Hlook Hcpu Eu' Hcs Hcp Hptl Ht.
  pose proof (m_curok _ HI i Hi) as Hok. unfold cur_ok in Hok. rewrite Hcur, Hspc in Hok. destruct Hok as [Hsc Hcs0].
  assert (¬ running (m_sys σ) (c, k)) as Hnr by (unfold running, st; rewrite Ex; simpl; congruence).
  assert (running s' (c, k)) as Hr' by (unfold running, st; rewrite Hlook, decide_True, Ex by done; done).
  assert (∀ q, q ≠ (c, k) → running s' q ↔ running (m_sys σ) q) as Hruns.
  { intros q Hq. unfold running, st. by rewrite Hlook, decide_False. }
  set (σ' := set_cur i t (set_spc i c (SSwitch k) (set_sys s' σ))).
  assert (∀ q, q ≠ (c, k) → disp σ' q i ↔ disp σ q i) as Hdq.
  { intros [a b] Hq. unfold disp. simpl. case_decide as Hd; [|done]. destruct Hd as [-> _]. rewrite Hspc. split; [|done].
    intros [= ->]. by destruct Hq. }
  assert (disp σ' (c, k) i) as Hdck by (unfold disp; simpl; by rewrite decide_True).
  assert (∀ d, inside σ i d → inside σ' i d) as Hins.
  { intros d [->|(h & q & Es & Ep & Hdi & Hrq)]; [by left|right].
    assert (q ≠ (c, k)) by (by intros ->). exists h, q. split_and!; [by rewrite Hst|done|by apply Hdq|by apply Hruns]. }
  assert (inside σ' i c) as Hinc by (by apply Hins, (m_in _ HI)).
  assert (∀ d, t = Sch d → ∃ h, stat (m_sys σ) d = Some h ∧ sh_p h = Some (c, k) ∧ d ≠ 0%nat ∧ d ≠ c ∧
    match m_spc σ d i with SYield _ | SRound | SEntry => True | _ => False end) as Hsub.
  { intros d ->. destruct o as [[] [d'|]]; try done. injection Ht as <-. by eapply dispatch_sub. }
  assert (∀ q, t = Pr q → q = (c, k) ∧ ∃ o, kind (m_sys σ) (c, k) = Some (false, o) ∧ parked (m_ppc σ (c, k))) as Hpr.
  { intros q ->. destruct o as [[] o']; [by destruct o'|]. injection Ht as ->. split; [done|]. exists o'. split; [done|].
    by apply not_running_parked. }
  eapply (local_step_minv σ σ' i); [done..|]. split; try done; simpl.
  - intros q. rewrite Hlook. case_decide as Hq; [|done]. subst q. by rewrite Ex.
  - by exists u', c.
  - intros j Hj. rewrite decide_False, Hcpu by done. split_and!; [done..|]. intros d. by rewrite decide_False by naive_solver.
  - intros q Hrq Hn. destruct (decide (q = (c, k))) as [->|Hq]; [|by destruct Hn; apply Hruns]. split; [done|].
    intros j Hj _. by eapply (free_not_disp σ HI c l).
  - intros q Hrq Hn. destruct (decide (q = (c, k))) as [->|Hq]; [done|]. by destruct Hn; apply Hruns.
  - intros q Hrq _ Hd. destruct (decide (q = (c, k))) as [->|Hq]; [done|]. by apply Hdq.
  - intros q Hd. destruct (decide (q = (c, k))) as [->|Hq]; [by right|]. left. by apply Hdq.
  - intros q Hd Hn. destruct (decide (q = (c, k))) as [->|Hq]; [done|]. rewrite Hdq in Hd by done.
    destruct (m_disp _ HI q i Hi Hd) as ([Hr|Hc] & _); [by destruct Hn; apply Hruns|]. rewrite Hcur in Hc. injection Hc as ->.
    unfold disp in Hd. congruence.
  - intros q Hd. destruct (decide (q = (c, k))) as [->|Hq].
    + split; [done|]. by apply running_Some.
    + rewrite Hdq in Hd by done. destruct (m_disp _ HI q i Hi Hd) as (_ & ? & ?). split; [by apply Hins|]. by rewrite Hlook, decide_False.
  - intros d Hd. unfold csched in Hd. rewrite Eu' in Hd. simpl in Hd. by simplify_eq.
  - unfold cur_ok. simpl. rewrite decide_True by done. unfold csched, cproc. rewrite Eu'. cbn [mbind option_bind].
    destruct t as [d|q].
    + destruct (Hsub d eq_refl) as (h & Es & Ep & Hd0 & Hdc & Hout). rewrite Hst, Es. split; [done|].
      rewrite decide_False by naive_solver.
      destruct (m_spc σ d i); try done; by exists h, (c, k).
    + destruct (Hpr q eq_refl) as (-> & o' & Ho & Hpk). split_and!; try done; [by exists o'; rewrite Hk|].
      intros E. pose proof (m_ppcok _ HI (c, k)) as Hp. unfold ppc_ok in Hp. rewrite E in Hp. destruct (Hp x Ex) as [?|[?|?]]; congruence.
  - intros d l' El'. rewrite Hptl in El'.
    assert (owner σ' i = Some c) as ->.
    { unfold owner, hold. simpl. rewrite decide_True by done. unfold csched. rewrite Eu'. cbn [mbind option_bind]. rewrite Hcs.
      destruct t as [d'|q].
      - destruct (Hsub d' eq_refl) as (h & Es & Ep & Hd0 & Hdc & Hout). rewrite decide_False by naive_solver. by destruct (m_spc σ d' i).
      - destruct (Hpr q eq_refl) as (-> & o' & Ho & Hpk). by destruct (m_ppc σ (c, k)). }
    assert (owner σ i = None) as -> by (unfold owner, hold; by rewrite Hcur, Hspc).
    case_decide as Hd; simplify_eq.
    + exists l. split; [done|]. left. by auto.
    + exists l'. split; [done|]. right. right. split_and!; congruence.
  - intros q. eapply (ppc_ok_frame σ); simpl; try done; [| |by rewrite Hlocks|apply (m_ppcok _ HI)].
    + rewrite Hlook. case_decide as Hq; [subst q; rewrite Ex|destruct (lookup_proc (m_sys σ) q)]; constructor; [|by apply benign_calm].
      split; [done|]. split; [|by right; right]. intros [?|[?|?]]; congruence.
    + intros j Hj Hq. rewrite decide_False; [done|]. intros ->. congruence.
  - intros l' q Hq. rewrite Hlocks. by apply (m_owned _ HI l' q).
  - intros d Hd. case_decide as Hdc; [done|]. rewrite decide_True by done. pose proof (m_loop _ HI d i Hi Hd) as Hd'.
    rewrite Hcur in Hd'. injection Hd' as ->. by destruct Hdc.
  - intros d. case_decide as Hd; [|by apply (m_slot _ HI)]. simpl. eapply table_lookup_inv; [|exact Ex].
    by destruct (stat_facts σ HI c Hsc) as (? & ? & _).
  - apply (targets_frame σ); [apply (m_targets _ HI)|by right|]. intros _ q a _ Ha Hq. destruct (decide (q = (c, k))) as [->|Hne].
    + unfold st in Hq. rewrite Ex in Hq. simpl in Hq. destruct Ha; congruence.
    + apply (same_still (m_sys σ)); [|done]. by rewrite Hlook, decide_False.
Qed.

(** The scheduler of the container [c] gives the CPU back to its parent. *)
Lemma pop_minv c k' h p x l l' u s' : m_cur σ i = Sch c → csched (m_sys σ) i = Some c → hold σ i = true → c ≠ 0%nat →
  match k' with SYield n => (n < Z.to_nat NPROC)%nat | SRound => True | _ => False end →
  stat (m_sys σ) c = Some h → sh_p h = Some p → p.1 = sh_sparent h → p.1 ≠ c →
  lookup_proc (m_sys σ) p = Some x → ptl (m_sys σ) c = Some l → ptl (m_sys σ) p.1 = Some l' → locked l' = false →
  (∀ d, stat s' d = stat (m_sys σ) d) → (∀ q, kind s' q = kind (m_sys σ) q) → sy_locks s' = sy_locks (m_sys σ) →
  (∀ q, lookup_proc s' q = if decide (q = p) then with_state RUNNABLE <$> lookup_proc (m_sys σ) q else lookup_proc (m_sys σ) q) →
  (∀ j, j ≠ i → cpu s' j = cpu (m_sys σ) j) → cpu s' i = Some u → cpu_scheduler u = Some p.1 →
  (∀ d, ptl s' d = if decide (d = c) then Some (freed l) else if decide (d = p.1) then Some (held i l') else ptl (m_sys σ) d) →
  minv (set_cur i (Sch p.1) (set_spc i c k' (set_sys s' σ))).
Proof.
  intros Hcur Hcs Hhold Hc0 Hk' Es Ep Hsp Hpc Ex El El' Hl' Hst Hk Hlocks Hlook Hcpu Eu Hcs' Hptl.
  pose proof (m_curok _ HI i Hi) as Hok. unfold cur_ok in Hok. rewrite Hcur in Hok. destruct Hok as [Hsc Hok].
  assert (disp σ p i ∧ running (m_sys σ) p) as [Hd Hr].
  { destruct (m_in _ HI i c Hi Hcs) as [?|(h' & p' & Es' & Ep' & ? & ?)]; [done|]. by simplify_eq. }
  assert (¬ running s' p) as Hnr by (unfold running, st; rewrite Hlook, decide_True, Ex by done; done).
  assert (∀ q, q ≠ p → running s' q ↔ running (m_sys σ) q) as Hruns.
  { intros q Hq. unfold running, st. by rewrite Hlook, decide_False. }
  assert (∀ q, q.1 = c → disp σ q i → ¬ running (m_sys σ) q) as Hnc.
  { intros [a b] Ha Hdq. simpl in Ha. subst a. unfold disp in Hdq. simpl in Hdq. rewrite Hdq in Hok. tauto. }
  set (σ' := set_cur i (Sch p.1) (set_spc i c k' (set_sys s' σ))).
  assert (∀ q, disp σ' q i ↔ disp σ q i ∧ q.1 ≠ c) as Hdq.
  { intros q. unfold disp. simpl. case_decide as Hd'; [|naive_solver]. destruct Hd' as [-> _]. split; [by destruct k'|naive_solver]. }
  assert (∀ d, inside σ i d → d ≠ c → inside σ' i d) as Hins.
  { intros d [->|(h' & q & Es' & Ep' & Hdi & Hrq)] Hdc; [by left|]. destruct (decide (d = 0)%nat) as [->|Hd0]; [by left|right].
    exists h', q. split_and!; [by rewrite Hst|done| |].
    - apply Hdq. split; [done|]. intros Hq. by eapply (Hnc q).
    - apply Hruns; [|done]. intros ->. destruct (w_sub _ (m_w _ HI) d h' Es' Hd0) as (_ & _ & k0 & Ep0 & Hkd).
      destruct (w_sub _ (m_w _ HI) c h Es Hc0) as (_ & _ & k1 & Ep1 & Hkc). congruence. }
  assert (inside σ' i p.1) as Hinp.
  { apply Hins; [|done]. by apply (m_disp _ HI p i Hi Hd). }
  eapply (local_step_minv σ σ' i); [done..|]. split; try done; simpl.
  - intros q. rewrite Hlook. case_decide as Hq; [|done]. subst q. by rewrite Ex.
  - exists u, p.1. split_and!; [done|done|]. rewrite Hsp. by apply (w_sub _ (m_w _ HI) c h Es Hc0).
  - intros j Hj. rewrite decide_False, Hcpu by done. split_and!; [done..|]. intros d. by rewrite decide_False by naive_solver.
  - intros q Hrq Hn. destruct (decide (q = p)) as [->|Hq]; [done|]. by destruct Hn; apply Hruns.
  - intros q Hrq Hn. destruct (decide (q = p)) as [->|Hq]; [done|]. by destruct Hn; apply Hruns.
  - intros q Hrq _ Hd'. apply Hdq. split; [done|]. intros Hq. by eapply (Hnc q).
  - intros q Hd'. left. by apply Hdq.
  - intros q Hd' Hn. rewrite decide_True by done. destruct (decide (q = p)) as [->|Hq]; [done|]. rewrite Hdq in Hd'. destruct Hd' as [Hd' Hqc].
    destruct (m_disp _ HI q i Hi Hd') as ([Hr'|Hc'] & _); [by destruct Hn; apply Hruns|]. congruence.
  - intros q Hd'. rewrite Hdq in Hd'. destruct Hd' as [Hd' Hqc]. destruct (m_disp _ HI q i Hi Hd') as (_ & ? & ?).
    split; [by apply Hins|]. rewrite Hlook. case_decide; [|done]. subst q. by rewrite Ex.
  - intros d Hd'. unfold csched in Hd'. rewrite Eu in Hd'. simpl in Hd'. by simplify_eq.
  - unfold cur_ok. simpl. rewrite decide_True by done. rewrite Hst. split; [rewrite Hsp; by apply (w_sub _ (m_w _ HI) c h Es Hc0)|].
    rewrite decide_False by naive_solver. unfold disp in Hd. rewrite Hd. split; [|by destruct p]. unfold csched. by rewrite Eu.
  - intros d l1. rewrite Hptl.
    assert (owner σ' i = Some p.1) as ->.
    { unfold owner, hold. simpl. rewrite decide_True by done. rewrite decide_False by naive_solver. unfold disp in Hd. rewrite Hd.
      unfold csched. by rewrite Eu. }
    assert (owner σ i = Some c) as -> by (unfold owner; by rewrite Hhold).
    repeat case_decide; intros; simplify_eq.
    + exists l. split; [done|]. right. left. split_and!; [congruence|done|done].
    + exists l'. split; [done|]. left. by auto.
    + exists l1. split; [done|]. right. right. split_and!; congruence.
  - intros q. eapply (ppc_ok_frame σ); simpl; try done; [| |by rewrite Hlocks|apply (m_ppcok _ HI)].
    + rewrite Hlook. case_decide as Hq; [subst q; rewrite Ex|destruct (lookup_proc (m_sys σ) q)]; constructor; [|by apply benign_calm].
      split; [done|]. unfold running, st in Hr. rewrite Ex in Hr. simpl in Hr. split; [intros [?|[?|?]]; congruence|by right; left].
    + intros j Hj Hq. rewrite decide_False; [done|]. intros ->. congruence.
  - intros l1 q Hq. rewrite Hlocks. by apply (m_owned _ HI l1 q).
  - intros d Hd'. case_decide as Hdc; [by destruct k'|]. pose proof (m_loop _ HI d i Hi Hd') as Hd2.
    rewrite Hcur in Hd2. injection Hd2 as ->. by destruct Hdc.
  - intros d. case_decide as Hd1; [by destruct k'|]. by apply (m_slot _ HI).
  - apply (targets_frame σ); [apply (m_targets _ HI)|by right|]. intros _ q a _ Ha Hq. destruct (decide (q = p)) as [->|Hne].
    + unfold running in Hr. rewrite Hr in Hq. destruct Ha; congruence.
    + apply (same_still (m_sys σ)); [|done]. by rewrite Hlook, decide_False.
Qed.
End switch.
