(* ===== verification/SchedSafe.v ===== *)
(** * The scheduler is safe

    Every step of the machine of SchedMachine.v keeps the invariant of SchedInv.v,
    and the properties that follow from it. *)
From S2P Require Import Prelude Locks PhysMem Sched SchedMachine SchedInv.

(** CPU [j] was given a slot of the table of [c] that it has not marked EMBRYO yet. *)
Definition allocating (σ : mstate) (j c : nat) : bool :=
  match m_cur σ j with
  | Pr p => match m_ppc σ p with PAlloc q => bool_decide (q.1 = c) | _ => false end
  | Sch _ => false
  end.

(** What the callers of the scheduler have to respect: a process sleeps with, and
    releases, only a lock it took; filling in an entry changes neither its state nor the
    container it stands for; and [alloc_proc] is not called while another CPU is between
    [alloc_pcb] and the next line of [alloc_proc] for the same table. The code does not
    ensure the last: see [slot_given_twice]. *)
Definition legal (σ : mstate) (i : nat) (a : action) : Prop :=
  match m_cur σ i with
  | Sch _ => True
  | Pr p =>
      match m_ppc σ p, a with
      | PRun, (ASleep _ l | AUnlock l) => m_own σ !! l = Some p
      | PRun, ALock l => is_Some (sy_locks (m_sys σ) !! l)
      | PRun, ACreate => ∀ j, (j < ncpu)%nat → allocating σ j p.1 = false
      | PRun, (AInit _ | AReady | AFail) => False
      | PEmbryo _, AInit f => ∀ x, (p_is_scheduler (f x), p_cont (f x), p_state (f x)) = (p_is_scheduler x, p_cont x, p_state x)
      | PEmbryo _, (AReady | AFail) => True
      | PEmbryo _, _ => False
      | _, _ => True
      end
  end.

Section scheduler.
Context (σ : mstate) (HI : minv σ) (i : nat) (Hi : (i < ncpu)%nat) (c : nat) (Hcur : m_cur σ i = Sch c).

Lemma to_scheduler_Ok (σ' : mstate) d : in_sched i (m_sys σ') d → to_scheduler i σ' = Ok () (set_cur i (Sch d) σ').
Proof.
  intros Hs. unfold to_scheduler. erewrite bind_Ok by (apply zoom_Ok; by apply this_scheduler_Ok). cbn. unfold modify. by destruct σ'.
Qed.

Lemma owner_loop k : m_spc σ c i = SVisit k → owner σ i = None.
Proof. intros E. unfold owner, hold. by rewrite Hcur, E. Qed.

Lemma in_sched_cpu s d g : (∀ u, cpu_scheduler (g u) = cpu_scheduler u) → in_sched i (alter_cpu i g s) d ↔ in_sched i s d.
Proof.
  intros Hg. unfold in_sched. setoid_rewrite stat_cpu. setoid_rewrite cpu_alter. rewrite decide_True by done.
  split; intros (u & h & Eu & Ec & H).
  - apply fmap_Some in Eu as (u0 & Eu & ->). exists u0, h. by rewrite <- Hg.
  - exists (g u), h. rewrite Eu. by rewrite Hg.
Qed.

Lemma visit_good k : m_spc σ c i = SVisit k → (k < Z.to_nat NPROC)%nat →
  good (r ← ons (scheduler_visit i c k); match r with
        | None => modify (set_spc i c (SVisit (S k)))
        | Some p => t ← ons (thread_of p); modify (set_spc i c (SSwitch k));; modify (set_cur i t)
        end) σ.
Proof.
  intros Hspc Hk. pose proof (m_curok _ HI i Hi) as Hok. unfold cur_ok in Hok. rewrite Hcur, Hspc in Hok. destruct Hok as [Hsc Hcs].
  destruct (sched_facts σ HI i Hi c Hcs) as (u & l & Eu & Eu' & _ & Hin & Ht & El & _).
  destruct (table_lookup (m_sys σ) c k Ht Hk) as [x Ex]. apply good_ons. destruct (locked l) eqn:Hl.
  { unfold scheduler_visit, mbind at 1, M_bind at 1. by rewrite (acquire_sched_held i _ _ l Hin El Hl). }
  destruct (decide (p_state x = RUNNABLE)) as [Hx|Hx].
  2:{ rewrite (scheduler_visit_skip i _ c k l x Hin El Hl Ex Hx).
      apply (sched_move_minv σ HI i Hi c (set_ptl c (freed l) (m_sys σ)) (SVisit (S k))); try done; simpl.
      - intros d. apply stat_ptl.
      - intros q. apply lookup_proc_ptl.
      - by apply (m_in _ HI).
      - intros d l'. rewrite ptl_set, (owner_loop k Hspc). case_decide as Hd; [subst d; rewrite El; simpl|]; intros [= <-] || intros El'.
        + exists l. split; [done|]. right. right. by rewrite Hl.
        + exists l'. split; [done|]. right. by right. }
  destruct (scheduler_visit_dispatch i _ c k l u x Hin El Hl Eu Ex Hx) as (g & Hg1 & Hg2 & _ & ->).
  set (s' := alter_cpu i g _).
  assert (lookup_proc s' (c, k) = Some (with_state RUNNING x)) as Ex'.
  { unfold s'. by rewrite lookup_proc_cpu, lookup_proc_alter, decide_True, lookup_proc_ptl, Ex. }
  assert (kind (m_sys σ) (c, k) = Some (p_is_scheduler x, p_cont x)) as Hkd by (unfold kind; by rewrite Ex).
  assert (∃ t, thread_of (c, k) s' = Ok t s' ∧
    match (p_is_scheduler x, p_cont x) with (true, Some d) => t = Sch d | (true, None) => False | (false, _) => t = Pr (c, k) end) as (t & Et & Ht').
  { unfold thread_of. erewrite bind_Ok by (by apply get_proc_Ok). cbn [with_state p_is_scheduler p_cont].
    destruct (p_is_scheduler x) eqn:E; [|by eexists]. destruct (w_kind _ (m_w _ HI) _ _ Hkd) as (d & h & -> & _). eexists. by split. }
  apply good_ons. cbn [m_sys set_sys]. rewrite Et.
  apply (dispatch_minv σ HI i Hi c k s' t l x (g u) (p_is_scheduler x, p_cont x)); try done.
  - intros d. unfold s'. by rewrite stat_cpu, stat_alter, stat_ptl.
  - intros q. unfold s'. rewrite kind_cpu, kind_alter by done. apply kind_ptl.
  - intros q. unfold s'. by rewrite lookup_proc_cpu, lookup_proc_alter, lookup_proc_ptl.
  - intros j Hj. unfold s'. by rewrite cpu_alter, decide_False.
  - unfold s'. by rewrite cpu_alter, decide_True, cpu_alter_proc, cpu_ptl, Eu.
  - by rewrite Hg1.
  - intros d. unfold s'. rewrite ptl_cpu, ptl_alter, ptl_set. case_decide as Hd; [|done]. subst d. by rewrite El.
Qed.

Lemma round_lock_good k : m_spc σ c i = SVisit k → good (ons (acquire_sched_lock i);; modify (set_spc i c STop)) σ.
Proof.
  intros Hspc. pose proof (m_curok _ HI i Hi) as Hok. unfold cur_ok in Hok. rewrite Hcur, Hspc in Hok. destruct Hok as [Hsc Hcs].
  destruct (sched_facts σ HI i Hi c Hcs) as (u & l & Eu & Eu' & _ & Hin & Ht & El & _). apply good_ons.
  destruct (locked l) eqn:Hl.
  { by rewrite (acquire_sched_held i _ _ l Hin El Hl). }
  rewrite (acquire_sched_free i _ _ l Hin El Hl).
  apply (sched_move_minv σ HI i Hi c (set_ptl c (held i l) (m_sys σ)) STop); try done; simpl.
  - intros d. apply stat_ptl.
  - intros q. apply lookup_proc_ptl.
  - by apply (m_in _ HI).
  - intros d l'. rewrite ptl_set, (owner_loop k Hspc). case_decide as Hd; [subst d; rewrite El; simpl; intros [= <-]|intros El'].
    + exists l. split; [done|]. left. by auto.
    + exists l'. split; [done|]. right. right. split_and!; congruence.
Qed.

(** [yield_scheduler] up to the switch, after a change [g] to the CPU's record. *)
Lemma yield_out_good g k' : csched (m_sys σ) i = Some c → hold σ i = true → (∀ u, cpu_scheduler (g u) = cpu_scheduler u) →
  match k' with SYield n => (n < Z.to_nat NPROC)%nat | SRound => True | _ => False end →
  match yield_scheduler_out i c (alter_cpu i g (m_sys σ)) with
  | Ok true s' => good (modify (set_spc i c k');; to_scheduler i) (set_sys s' σ)
  | Ok false s' => s' = alter_cpu i g (m_sys σ)
  | Blocked _ => True
  | _ => False
  end.
Proof.
  intros Hcs Hhold Hg Hk'. destruct (sched_facts σ HI i Hi c Hcs) as (u & l & Eu & Eu' & [h Es] & Hin & Ht & El & _ & Hl).
  specialize (Hl Hhold). set (s1 := alter_cpu i g (m_sys σ)). destruct (decide (c = 0)%nat) as [Hc|Hc].
  { destruct (w_root _ (m_w _ HI)) as (h0 & Es0 & Hp0). rewrite (yield_out_root i s1 c h0); [done| |congruence]. unfold s1. by rewrite stat_cpu, Hc. }
  destruct (w_sub _ (m_w _ HI) c h Es Hc) as (Hlt & Hsp & k & Ep & Hkd). set (d := sh_sparent h) in *.
  destruct (stat_facts σ HI d Hsp) as (l' & Ht' & El' & _).
  assert (stat s1 c = Some h) as Es1 by done. destruct (locked l') eqn:Hl'.
  { by rewrite (yield_out_blocked i s1 c h l' Es1) by (lia || done). }
  assert (∃ x, lookup_proc (m_sys σ) (d, k) = Some x) as [x Ex].
  { unfold kind in Hkd. destruct (lookup_proc (m_sys σ) (d, k)); [by eexists|done]. }
  rewrite (yield_out_sub i s1 c h l l' (g u) (d, k) x); [|lia || done..|unfold s1; by rewrite cpu_alter, decide_True, Eu|done].
  fold d. set (s' := set_ptl c (freed l) _).
  set (g' := λ u, mkCpu (Some d) (cpu_proc u) (cpu_ttbr0 u)).
  assert (cpu s' i = Some (g' (g u))) as Eu1.
  { unfold s'. rewrite cpu_ptl, cpu_alter_proc, cpu_alter, decide_True by done. rewrite cpu_ptl. unfold s1. by rewrite cpu_alter, decide_True, Eu. }
  assert (∀ e, stat s' e = stat (m_sys σ) e) as Hst.
  { intros e. unfold s'. rewrite stat_ptl, stat_alter, stat_cpu, stat_ptl. done. }
  apply good_modify. unfold good. rewrite (to_scheduler_Ok _ d).
  2:{ destruct Hsp as [h' Eh']. exists (g' (g u)), h'. cbn [m_sys set_spc set_sys]. rewrite Hst. split_and!; try done.
      by apply (w_cont _ (m_w _ HI) d). }
  change (Sch d) with (Sch (d, k).1). apply (pop_minv σ HI i Hi c k' h (d, k) x l l' (g' (g u)) s'); try done; simpl.
  - lia.
  - intros q. unfold s'. rewrite kind_ptl, kind_alter by done. by rewrite kind_cpu, kind_ptl.
  - intros q. unfold s'. rewrite lookup_proc_ptl, lookup_proc_alter, lookup_proc_cpu, lookup_proc_ptl. done.
  - intros j Hj. unfold s'. rewrite cpu_ptl, cpu_alter_proc, cpu_alter, decide_False, cpu_ptl by done. unfold s1. by rewrite cpu_alter, decide_False.
  - intros e. unfold s'. rewrite ptl_set, ptl_alter, ptl_cpu, ptl_set. unfold s1. rewrite ptl_cpu.
    repeat case_decide; subst; by rewrite ?El, ?El'.
Qed.

(** The end of an iteration at the root: the lock is released. *)
Lemma release_loop_good g k' : csched (m_sys σ) i = Some c → hold σ i = true → (∀ u, cpu_scheduler (g u) = cpu_scheduler u) →
  match k' with SVisit n => (n ≤ Z.to_nat NPROC)%nat | _ => False end →
  match release_sched_lock i (alter_cpu i g (m_sys σ)) with
  | Ok _ s' => minv (set_spc i c k' (set_sys s' σ))
  | _ => False
  end.
Proof.
  intros Hcs Hhold Hg Hk'. destruct (sched_facts σ HI i Hi c Hcs) as (u & l & Eu & Eu' & [h Es] & Hin & Ht & El & _ & Hl).
  rewrite (release_sched_Ok i _ c l); [|by apply in_sched_cpu|done|by apply Hl].
  apply (sched_move_minv σ HI i Hi c (set_ptl c (freed l) (alter_cpu i g (m_sys σ))) k'); try done; try (by destruct k').
  - intros d. rewrite stat_ptl. apply stat_cpu.
  - intros q. by rewrite lookup_proc_ptl, lookup_proc_cpu.
  - intros j Hj. by rewrite cpu_ptl, cpu_alter, decide_False.
  - unfold csched. rewrite cpu_ptl, cpu_alter, decide_True, Eu by done. simpl. by rewrite Hg.
  - by apply (m_in _ HI).
  - assert (owner σ i = Some c) as Ho by (unfold owner; by rewrite Hhold).
    destruct k'; try done. intros d l'. rewrite ptl_set, ptl_cpu, Ho. case_decide as Hd; [subst d; rewrite El; simpl; intros [= <-]|intros El'].
    + exists l. split; [done|]. right. by left.
    + exists l'. split; [done|]. right. right. split_and!; congruence.
Qed.

Lemma alter_cpu_id s : alter_cpu i (λ u, u) s = s.
Proof. unfold alter_cpu. rewrite list_alter_id by done. by destruct s. Qed.

Lemma back_good k : m_spc σ c i = SSwitch k →
  good (out ← ons (scheduler_back i c); if (out : bool) then modify (set_spc i c (SYield k));; to_scheduler i
        else modify (set_spc i c (SVisit (S k)))) σ.
Proof.
  intros Hspc. pose proof (m_curok _ HI i Hi) as Hok. unfold cur_ok in Hok. rewrite Hcur, Hspc in Hok. destruct Hok as [Hsc [Hcs _]].
  pose proof (m_slot _ HI c i Hi) as Hk. rewrite Hspc in Hk. cbn [slot_ok] in Hk.
  assert (hold σ i = true) as Hhold by (unfold hold; by rewrite Hcur, Hspc).
  destruct (sched_facts σ HI i Hi c Hcs) as (u & l & Eu & Eu' & [h Es] & Hin & Ht & El & _).
  apply good_ons. unfold scheduler_back. destruct (get_cont_stat _ _ _ Es) as (C & EC & HC & _). erewrite bind_Ok by exact EC.
  erewrite bind_Ok by (by eapply set_cpu_proc_Ok). set (g := λ u, mkCpu (cpu_scheduler u) (c_p C) (cpu_ttbr0 u)).
  pose proof (yield_out_good g (SYield k) Hcs Hhold (λ _, eq_refl) Hk) as Hout. unfold mbind at 1, M_bind at 1.
  destruct (yield_scheduler_out i c (alter_cpu i g (m_sys σ))) as [[] s'| | | |]; try done. subst s'.
  erewrite bind_Ok by (eapply set_cpu_proc_Ok; by rewrite cpu_alter, decide_True, Eu). rewrite alter_cpu_compose.
  pose proof (release_loop_good (g ∘ g) (SVisit (S k)) Hcs Hhold (λ _, eq_refl) ltac:(simpl; lia)) as Hrel.
  unfold mbind at 1, M_bind at 1. fold g. destruct (release_sched_lock i _); try done.
Qed.

Lemma round_good : m_spc σ c i = STop →
  good (out ← ons (scheduler_round i c); if (out : bool) then modify (set_spc i c SRound);; to_scheduler i
        else modify (set_spc i c (SVisit 0))) σ.
Proof.
  intros Hspc. pose proof (m_curok _ HI i Hi) as Hok. unfold cur_ok in Hok. rewrite Hcur, Hspc in Hok. destruct Hok as [Hsc Hcs].
  assert (hold σ i = true) as Hhold by (unfold hold; by rewrite Hcur, Hspc).
  apply good_ons. unfold scheduler_round.
  pose proof (yield_out_good (λ u, u) SRound Hcs Hhold (λ _, eq_refl) I) as Hout. rewrite alter_cpu_id in Hout.
  unfold mbind at 1, M_bind at 1. destruct (yield_scheduler_out i c (m_sys σ)) as [[] s'| | | |]; try done. subst s'.
  pose proof (release_loop_good (λ u, u) (SVisit 0) Hcs Hhold (λ _, eq_refl) (le_0_n _)) as Hrel. rewrite alter_cpu_id in Hrel.
  unfold mbind at 1, M_bind at 1. destruct (release_sched_lock i _); try done.
Qed.

(** A scheduler that is dispatched by its parent. *)
Definition resumes (k : spc) : Prop := match k with SYield _ | SRound | SEntry => True | _ => False end.
Lemma resumed_facts : resumes (m_spc σ c i) →
  ∃ h p u l l', c ≠ 0%nat ∧ stat (m_sys σ) c = Some h ∧ sh_p h = Some p ∧ sh_sparent h = p.1 ∧ p.1 ≠ c ∧
    cpu (m_sys σ) i = Some u ∧ cpu_scheduler u = Some p.1 ∧ cpu_proc u = Some p ∧ in_sched i (m_sys σ) p.1 ∧
    ptl (m_sys σ) c = Some l ∧ ptl (m_sys σ) p.1 = Some l' ∧ locked l' = true ∧ owner σ i = Some p.1 ∧ inside σ i c ∧
    in_sched i (alter_cpu i (λ u, mkCpu (Some c) (cpu_proc u) (cpu_ttbr0 u)) (m_sys σ)) c.
Proof.
  intros Hk. pose proof (m_curok _ HI i Hi) as Hok. unfold cur_ok in Hok. rewrite Hcur in Hok. destruct Hok as [Hsc Hok].
  assert (∃ h p, c ≠ 0%nat ∧ stat (m_sys σ) c = Some h ∧ sh_p h = Some p ∧ csched (m_sys σ) i = Some p.1 ∧ cproc (m_sys σ) i = Some p ∧
    disp σ p i ∧ running (m_sys σ) p) as (h & p & Hc0 & Es & Ep & Hcs & Hcp & Hd & Hr) by (by destruct (m_spc σ c i)).
  assert (hold σ i = true) as Hhold by (unfold hold; rewrite Hcur; by destruct (m_spc σ c i)).
  destruct (sched_facts σ HI i Hi _ Hcs) as (u & l' & Eu & Eu' & _ & Hin & Ht & El' & _ & Hl').
  destruct (stat_facts σ HI c Hsc) as (l & _ & El & _). destruct (w_sub _ (m_w _ HI) c h Es Hc0) as (Hlt & _ & k & Ep' & _).
  simplify_eq. simpl in *. exists h, (sh_sparent h, k), u, l, l'. simpl. split_and!; try done.
  - lia.
  - unfold cproc in Hcp. by rewrite Eu in Hcp.
  - by apply Hl'.
  - unfold owner. by rewrite Hhold.
  - right. by exists h, (sh_sparent h, k).
  - exists (mkCpu (Some c) (cpu_proc u) (cpu_ttbr0 u)), h. rewrite cpu_alter, decide_True, Eu by done. split_and!; try done.
    by apply (w_cont _ (m_w _ HI) c).
Qed.

(** Back in the loop of [c], with every lock released. *)
Lemma resume_minv g (p : pptr) l l' k' : csched (alter_cpu i g (m_sys σ)) i = Some c → inside σ i c → p.1 ≠ c → owner σ i = Some p.1 →
  ptl (m_sys σ) c = Some l → ptl (m_sys σ) p.1 = Some l' → locked l = false → locked l' = true →
  match k' with SVisit n => (n ≤ Z.to_nat NPROC)%nat | _ => False end →
  ∀ s', sy_conts s' = sy_conts (set_ptl c (freed l) (set_ptl p.1 (freed l') (m_sys σ))) →
  sy_cpus s' = sy_cpus (alter_cpu i g (m_sys σ)) → sy_locks s' = sy_locks (m_sys σ) →
  minv (set_spc i c k' (set_sys s' σ)).
Proof.
  intros Hcs Hin Hpc Ho El El' Hl Hl' Hk' s' Hconts Hcpus Hlocks.
  set (s0 := set_ptl c (freed l) (set_ptl p.1 (freed l') (m_sys σ))) in *.
  assert (∀ d, stat s' d = stat s0 d) as Hst by (intros; unfold stat; by rewrite Hconts).
  assert (∀ d, ptl s' d = ptl s0 d) as Hptl by (intros; unfold ptl; by rewrite Hconts).
  assert (∀ q, lookup_proc s' q = lookup_proc s0 q) as Hlook by (intros; unfold lookup_proc; by rewrite Hconts).
  assert (∀ j, cpu s' j = cpu (alter_cpu i g (m_sys σ)) j) as Hcpu by (intros; unfold cpu; by rewrite Hcpus).
  apply (sched_move_minv σ HI i Hi c s' k'); try done; try (by destruct k').
  - intros d. rewrite Hst. unfold s0. by rewrite !stat_ptl.
  - intros q. rewrite Hlook. unfold s0. by rewrite !lookup_proc_ptl.
  - intros j Hj. by rewrite Hcpu, cpu_alter, decide_False.
  - unfold csched in *. by rewrite Hcpu.
  - rewrite Ho. destruct k'; try done. intros d l1. rewrite Hptl. unfold s0. rewrite !ptl_set.
    repeat case_decide; subst; rewrite ?El, ?El'; simpl; intros; simplify_eq.
    + exists l. split; [done|]. right. right. split_and!; [done|congruence|done].
    + exists l'. split; [done|]. right. by left.
    + exists l1. split; [done|]. right. right. split_and!; congruence.
Qed.

Lemma set_ptl_swap d l1 l2 l3 s : d ≠ c →
  sy_conts (set_ptl c l1 (set_ptl d l2 (set_ptl c l3 s))) = sy_conts (set_ptl c l1 (set_ptl d l2 s)).
Proof.
  intros Hd. unfold set_ptl. simpl. rewrite (list_alter_alter_ne _ _ _ d c) by done. rewrite list_alter_alter_eq.
  by apply list_alter_ext.
Qed.

Lemma yield_in_good (h : Shape) (p : pptr) u l l' : stat (m_sys σ) c = Some h → sh_sparent h = p.1 → p.1 ≠ c →
  cpu (m_sys σ) i = Some u → ptl (m_sys σ) c = Some l → ptl (m_sys σ) p.1 = Some l' → locked l' = true →
  yield_scheduler_in i c (m_sys σ) =
    if locked l then Blocked (m_sys σ) else Ok () (set_ptl p.1 (freed l')
      (alter_cpu i (λ u, mkCpu (Some c) (cpu_proc u) (cpu_ttbr0 u)) (set_ptl c (held i l) (m_sys σ)))).
Proof.
  intros Es Hsp Hpc Eu El El' Hl'. destruct (locked l) eqn:Hl; [by eapply yield_in_blocked|]. rewrite <- Hsp in *.
  by eapply yield_in_Ok.
Qed.

Lemma resume_good (m : M Sys unit) k' : resumes (m_spc σ c i) →
  match k' with SVisit n => (n ≤ Z.to_nat NPROC)%nat | _ => False end →
  (∀ s l (p : pptr) u, in_sched i s c → stat s c ≠ None → ptl s c = Some (held i l) → cpu s i = Some u →
     ∃ g, (∀ u, cpu_scheduler (g u) = cpu_scheduler u) ∧ m s = Ok () (set_ptl c (freed l) (alter_cpu i g s))) →
  good (ons (yield_scheduler_in i c;; m);; modify (set_spc i c k')) σ.
Proof.
  intros Hr Hk' Hm. destruct (resumed_facts Hr) as (h & p & u & l & l' & Hc0 & Es & Ep & Hsp & Hpc & Eu & Eu' & Ecp & Hin & El & El' & Hl' & Ho & Hins & Hinc).
  apply good_ons. pose proof (yield_in_good h p u l l' Es Hsp Hpc Eu El El' Hl') as E. destruct (locked l) eqn:Hl.
  { unfold mbind at 1, M_bind at 1. by rewrite E. }
  erewrite bind_Ok by exact E. set (g1 := λ u, mkCpu (Some c) (cpu_proc u) (cpu_ttbr0 u)) in *. set (s1 := set_ptl p.1 _ _).
  destruct (Hm s1 l p (g1 u)) as (g & Hg & ->).
  - unfold s1. rewrite in_sched_ptl. destruct Hinc as (u1 & h1 & E1 & E2 & E3). exists u1, h1. split_and!; [|by apply E2|rewrite stat_cpu, stat_ptl; by apply E3|by apply E3].
    rewrite cpu_alter, decide_True, cpu_ptl by done. rewrite cpu_alter, decide_True in E1 by done. done.
  - unfold s1. rewrite stat_ptl, stat_cpu, stat_ptl. by rewrite Es.
  - unfold s1. rewrite ptl_set, decide_False by done. rewrite ptl_cpu, ptl_set, decide_True by done. by rewrite El.
  - unfold s1. rewrite cpu_ptl, cpu_alter, decide_True, cpu_ptl by done. by rewrite Eu.
  - apply (resume_minv (g ∘ g1) p l l'); try done.
    + unfold csched. rewrite cpu_alter, decide_True, Eu by done. simpl. by rewrite Hg.
    + simpl. apply (set_ptl_swap p.1 (freed l) (freed l') (held i l) (m_sys σ) Hpc).
    + simpl. by rewrite list_alter_alter_eq.
Qed.

Lemma again_good k : m_spc σ c i = SYield k → good (ons (scheduler_again i c);; modify (set_spc i c (SVisit (S k)))) σ.
Proof.
  intros Hspc. pose proof (m_slot _ HI c i Hi) as Hk. rewrite Hspc in Hk. apply resume_good; [by rewrite Hspc|exact Hk|].
  intros s l p u Hin Hs El Eu. destruct (stat s c) as [h|] eqn:Es; [|done]. destruct (get_cont_stat _ _ _ Es) as (C & EC & _).
  exists (λ u, mkCpu (cpu_scheduler u) (c_p C) (cpu_ttbr0 u)). split; [done|]. erewrite bind_Ok by exact EC.
  erewrite bind_Ok by (by eapply set_cpu_proc_Ok). rewrite (release_sched_Ok i _ c (held i l)); [done|by apply in_sched_cpu|done|done].
Qed.

Lemma round_again_good : m_spc σ c i = SRound → good (ons (scheduler_round_again i c);; modify (set_spc i c (SVisit 0))) σ.
Proof.
  intros Hspc. apply resume_good; [by rewrite Hspc|apply le_0_n|]. intros s l p u Hin Hs El Eu. exists (λ u, u). split; [done|].
  rewrite alter_cpu_id. by rewrite (release_sched_Ok i _ c (held i l)).
Qed.

Lemma entry_good : m_spc σ c i = SEntry → good (ons (container_entry i);; modify (set_spc i c (SVisit 0))) σ.
Proof.
  intros Hspc. destruct resumed_facts as (h & p & u & l & l' & Hc0 & Es & Ep & Hsp & Hpc & Eu & Eu' & Ecp & Hin & El & El' & Hl' & Ho & Hins & Hinc);
    [by rewrite Hspc|].
  destruct (w_sub _ (m_w _ HI) c h Es Hc0) as (_ & _ & k & Ep' & Hkd). simplify_eq.
  assert (∃ x, lookup_proc (m_sys σ) (sh_sparent h, k) = Some x ∧ p_cont x = Some c) as (x & Ex & Hx).
  { unfold kind in Hkd. destruct (lookup_proc (m_sys σ) (sh_sparent h, k)) as [x|]; [|done]. simpl in Hkd. exists x. naive_solver. }
  apply good_ons. unfold container_entry. erewrite bind_Ok by (by apply release_sched_Ok). set (s1 := set_ptl _ (freed l') (m_sys σ)).
  erewrite bind_Ok by (by eapply current_Ok). erewrite bind_Ok by (apply get_proc_Ok; unfold s1; by rewrite lookup_proc_ptl).
  rewrite Hx. erewrite bind_Ok by done. erewrite bind_Ok by (by eapply set_cpu_scheduler_Ok). set (s2 := alter_cpu i _ s1).
  assert (stat s2 c = Some h) as Es2 by (unfold s2; rewrite stat_cpu; unfold s1; by rewrite stat_ptl).
  destruct (get_cont_stat _ _ _ Es2) as (C & EC & _). unfold scheduler_enter. erewrite bind_Ok by exact EC.
  erewrite set_cpu_proc_Ok by (unfold s2; rewrite cpu_alter, decide_True by done; unfold s1; by rewrite cpu_ptl, Eu).
  unfold s2. rewrite alter_cpu_compose. set (g := _ ∘ _). apply (sched_move_minv σ HI i Hi c (alter_cpu i g s1) (SVisit 0)); try done.
  - apply le_0_n.
  - intros d. rewrite stat_cpu. apply stat_ptl.
  - intros q. rewrite lookup_proc_cpu. apply lookup_proc_ptl.
  - intros j Hj. by rewrite cpu_alter, decide_False.
  - unfold csched. rewrite cpu_alter, decide_True by done. unfold s1. by rewrite cpu_ptl, Eu.
  - rewrite Ho. intros d l1. rewrite ptl_cpu. unfold s1. rewrite ptl_set. case_decide as Hd; [subst d; rewrite El'; simpl; intros [= <-]|intros El1].
    + exists l'. split; [done|]. right. by left.
    + exists l1. split; [done|]. right. right. split_and!; congruence.
Qed.

Lemma step_scheduler_good : good (step_scheduler i c) σ.
Proof.
  unfold step_scheduler. apply good_getS.
  destruct (m_spc σ c i) as [k|k|k| | |] eqn:Hspc.
  - destruct (Nat.ltb_spec k (Z.to_nat NPROC)); [by apply visit_good|by eapply round_lock_good].
  - by apply back_good.
  - by apply again_good.
  - by apply round_good.
  - by apply round_again_good.
  - by apply entry_good.
Qed.
End scheduler.

Section process.
Context (σ : mstate) (HI : minv σ) (i : nat) (Hi : (i < ncpu)%nat) (p : pptr) (Hcur : m_cur σ i = Pr p).

(** The end of [yield], [sleep] and [exit]: the switch. *)
Lemma to_sched_good s' k x' : in_sched i s' p.1 →
  (∀ c, stat s' c = stat (m_sys σ) c) → (∀ q, kind s' q = kind (m_sys σ) q) → sy_cpus s' = sy_cpus (m_sys σ) →
  sy_locks s' = sy_locks (m_sys σ) →
  (∀ q, q ≠ p → option_Forall2 benign (lookup_proc (m_sys σ) q) (lookup_proc s' q)) →
  lookup_proc s' p = Some x' → p_state x' ≠ RUNNING →
  (∀ c, c ≠ p.1 → ptl s' c = ptl (m_sys σ) c) →
  (∃ l l', ptl (m_sys σ) p.1 = Some l ∧ ptl s' p.1 = Some l' ∧ locked l' = true ∧ (holds (m_ppc σ p) = true ∨ locked l = false)) →
  match k with PYield => True | PSleep ch lock => lock_there (m_sys σ) lock ∧ p_state x' = SLEEPING ∧ p_chan x' = ch | PDead => p_state x' = ZOMBIE | _ => False end →
  good (modify (set_ppc p k);; to_scheduler i) (set_sys s' σ).
Proof.
  intros Hin. intros. apply good_modify. unfold good. rewrite (to_scheduler_Ok i _ p.1) by done.
  by eapply (switch_back_minv σ HI i Hi).
Qed.

Lemma yield_good : m_ppc σ p = PRun → good (ons (yield i);; modify (set_ppc p PYield);; to_scheduler i) σ.
Proof.
  intros Hk. destruct (proc_facts σ HI i Hi p Hcur) as (u & l & x & Eu & Eu' & Ep & Hin & Ht & El & Hpf & _ & Ex & Hx & Hcs & Hd).
  apply good_ons. unfold yield. destruct (locked l) eqn:Hl.
  { unfold mbind at 1, M_bind at 1. by rewrite (acquire_sched_held i _ _ l Hin El Hl). }
  erewrite bind_Ok by (by apply acquire_sched_free). erewrite bind_Ok by (by eapply current_Ok).
  erewrite bind_Ok by (eapply upd_proc_Ok; by rewrite lookup_proc_ptl). set (s' := alter_proc p (with_state RUNNABLE) (set_ptl p.1 (held i l) (m_sys σ))).
  assert (in_sched i s' p.1) as Hin' by (apply in_sched_alter; by apply in_sched_ptl).
  assert (lookup_proc s' p = Some (with_state RUNNABLE x)) as Ex' by (unfold s'; by rewrite lookup_proc_alter, decide_True, lookup_proc_ptl, Ex).
  assert (ptl s' p.1 = Some (held i l)) as El' by (unfold s'; by rewrite ptl_alter, ptl_set, decide_True, El).
  rewrite (sched_Ok i s' p.1 u p (with_state RUNNABLE x) (held i l)) by done.
  eapply (to_sched_good s' PYield); try done.
  - intros c. unfold s'. by rewrite stat_alter, stat_ptl.
  - intros q. unfold s'. rewrite kind_alter by done. apply kind_ptl.
  - intros q Hq. unfold s'. rewrite lookup_proc_alter, decide_False, lookup_proc_ptl by done. by destruct (lookup_proc (m_sys σ) q); constructor.
  - intros c Hc. unfold s'. by rewrite ptl_alter, ptl_set, decide_False.
  - exists l, (held i l). by auto.
Qed.

Lemma sleep_good chan lock : m_ppc σ p = PSleepU chan lock →
  good (ons (sleep_park i chan);; modify (set_ppc p (PSleep chan lock));; to_scheduler i) σ.
Proof.
  intros Hk. destruct (proc_facts σ HI i Hi p Hcur) as (u & l & x & Eu & Eu' & Ep & Hin & Ht & El & Hpf & Hl & Ex & Hx & Hcs & Hd).
  assert (locked l = true) as Hl' by (apply Hl; unfold hold; by rewrite Hcur, Hk).
  pose proof (m_ppcok _ HI p) as Hok. unfold ppc_ok in Hok. rewrite Hk in Hok. destruct Hok as [_ Hthere].
  apply good_ons. unfold sleep_park. erewrite bind_Ok by (by eapply current_Ok). erewrite bind_Ok by (by eapply upd_proc_Ok).
  set (f := λ x, with_state SLEEPING (with_chan chan x)). set (s' := alter_proc p f (m_sys σ)).
  assert (lookup_proc s' p = Some (f x)) as Ex' by (unfold s'; by rewrite lookup_proc_alter, decide_True, Ex).
  rewrite (sched_Ok i s' p.1 u p (f x) l); [|by apply in_sched_alter|unfold s'; by rewrite ptl_alter|done..].
  eapply (to_sched_good s' (PSleep chan lock)); try done.
  - by apply in_sched_alter.
  - intros c. apply stat_alter.
  - intros q. by apply kind_alter.
  - intros q Hq. unfold s'. rewrite lookup_proc_alter, decide_False by done. by destruct (lookup_proc (m_sys σ) q); constructor.
  - intros c Hc. apply ptl_alter.
  - exists l, l. unfold s'. rewrite ptl_alter, Hk. by auto.
Qed.

Lemma exit_good : m_ppc σ p = PRun → good (ons (exit_sched i);; modify (set_ppc p PDead);; to_scheduler i) σ.
Proof.
  intros Hk. destruct (proc_facts σ HI i Hi p Hcur) as (u & l & x & Eu & Eu' & Ep & Hin & Ht & El & Hpf & _ & Ex & Hx & Hcs & Hd).
  apply good_ons. destruct (locked l) eqn:Hl.
  { unfold exit_sched. erewrite bind_Ok by (by eapply current_Ok). unfold mbind at 1, M_bind at 1. by rewrite (acquire_sched_held i _ _ l Hin El Hl). }
  destruct (exit_sched_Ok i (m_sys σ) p.1 l u p x Hin Ht El Hl Eu Ep Ex Hx) as (s1 & Hev & ->).
  destruct (evolves_running _ s1 p x Hev) as (x1 & Ex1 & Hx1); [by rewrite lookup_proc_ptl|done|].
  eapply (to_sched_good _ PDead (with_state ZOMBIE x1)); try done.
  - apply in_sched_alter. eapply evolves_in_sched; [exact Hev|]. by apply in_sched_ptl.
  - intros c. by rewrite stat_alter, (ev_stat _ _ Hev), stat_ptl.
  - intros q. rewrite kind_alter by done. by rewrite (ev_kind _ _ Hev), kind_ptl.
  - simpl. by rewrite (ev_cpus _ _ Hev).
  - simpl. by rewrite (ev_locks _ _ Hev).
  - intros q Hq. rewrite lookup_proc_alter, decide_False by done. rewrite <- (lookup_proc_ptl _ p.1 (held i l)). apply (ev_proc _ _ Hev).
  - by rewrite lookup_proc_alter, decide_True, Ex1.
  - intros c Hc. by rewrite ptl_alter, (ev_ptl _ _ Hev), ptl_set, decide_False.
  - exists l, (held i l). rewrite ptl_alter, (ev_ptl _ _ Hev), ptl_set, decide_True, El by done. by auto.
Qed.

Lemma create_good : m_ppc σ p = PRun → (∀ j, (j < ncpu)%nat → allocating σ j p.1 = false) → good (create i p) σ.
Proof.
  intros Hk Hno. destruct (proc_facts σ HI i Hi p Hcur) as (u & l & x & Eu & Eu' & Ep & Hin & Ht & El & Hpf & _ & Ex & Hx & Hcs & Hd).
  unfold create. apply good_ons. destruct (locked l) eqn:Hl.
  { unfold alloc_pcb. erewrite bind_Ok by (by apply thiscpu_Ok). rewrite Eu'. erewrite bind_Ok by done. erewrite bind_Ok by done.
    destruct Hin as (u1 & h & E1 & E2 & Es & Hop). destruct (get_cont_stat _ _ _ Es) as (C & EC & <- & _). erewrite bind_Ok by exact EC.
    cbn [shape sh_op] in Hop. rewrite Hop. erewrite bind_Ok by done. unfold alloc_pcb_simple, mbind at 1, M_bind at 1.
    rewrite (acquire_sched_held i _ p.1 l); [done| |done|done]. exists u1, (shape C). by split_and!. }
  destruct (alloc_pcb_spec i (m_sys σ) p.1 l u Hin Ht El Hl Hpf Eu) as [(k & y & pid & s' & Ey & Hy & _ & -> & Hev & Hall)|[_ ->]].
  - apply (move_target_minv σ HI i Hi p Hcur s' l (p.1, k) y); try done; [by rewrite Hk|].
    intros r a Hr. pose proof (tg_state _ (m_targets _ HI) r (p.1, k) a Hr) as Hst. unfold st in Hst. rewrite Ey in Hst. simpl in Hst.
    pose proof (m_ppcok _ HI r) as Hok. unfold ppc_ok in Hok. destruct (m_ppc σ r) as [| | | | | | | | |q|q|] eqn:Er; try done; simpl in Hr.
    + destruct Hok as (j & Hj & Hcj). specialize (Hno j Hj). unfold allocating in Hno. rewrite Hcj, Er in Hno.
      injection Hr as -> _. simpl in Hno. by rewrite bool_decide_true in Hno.
    + injection Hr as _ <-. congruence.
  - apply (move_lock_minv σ HI i Hi p Hcur (freed l) PRun (m_own σ)); [|by auto|apply (m_owned _ HI)|done]. exists l. split; [done|].
    right. right. by rewrite Hk, Hl.
Qed.

Lemma embryo_good q : m_ppc σ p = PAlloc q → good (embryo p q) σ.
Proof.
  intros Hk. pose proof (tg_state _ (m_targets _ HI) p q UNUSED ltac:(by rewrite Hk)) as Hst.
  apply (move_entry_good σ HI i Hi p Hcur q UNUSED (with_state EMBRYO) (PEmbryo q)); rewrite ?Hk; try done. by left.
Qed.

Lemma fill_good q a : m_ppc σ p = PEmbryo q → legal σ i a → good (fill p q a) σ.
Proof.
  intros Hk Hleg. unfold legal in Hleg. rewrite Hcur, Hk in Hleg.
  pose proof (tg_state _ (m_targets _ HI) p q EMBRYO ltac:(by rewrite Hk)) as Hst.
  destruct a as [| | | | | | | |f| |]; try done; cbn [fill].
  - apply (move_entry_good σ HI i Hi p Hcur q EMBRYO f (PEmbryo q)); rewrite ?Hk; try done.
    + intros x. specialize (Hleg x). congruence.
    + intros x Hx. specialize (Hleg x). left. simpl. congruence.
  - pose proof Hst as Hst'. unfold st in Hst'. destruct (lookup_proc (m_sys σ) q) as [x|] eqn:Ex; [|done]. injection Hst' as Hx.
    assert (minv (set_ppc p PRun σ)) as HI'.
    { replace (set_ppc p PRun σ) with (move_proc σ p (m_sys σ) PRun (m_own σ)) by done. apply (stay_minv σ HI i Hi p Hcur). by rewrite Hk. }
    apply good_modify, good_ons. rewrite (upd_proc_Ok _ _ x) by done. apply (create_minv _ q x (with_state RUNNABLE) HI'); try done.
    intros r b. simpl. case_decide as Hr; [done|]. intros E. destruct Hr. eapply (tg_one _ (m_targets _ HI)); [exact E|by rewrite Hk].
  - apply (move_entry_good σ HI i Hi p Hcur q EMBRYO (with_state UNUSED) PRun); rewrite ?Hk; try done. by right.
Qed.

Lemma step_process_good a : legal σ i a → good (step_process i p a) σ.
Proof.
  intros Hlegal. pose proof Hlegal as Hleg. unfold legal in Hleg. rewrite Hcur in Hleg. unfold step_process. apply good_getS.
  destruct (m_ppc σ p) as [| | |chan lock|chan lock|chan lock|l| | |q|q|] eqn:Hk.
  - apply (release_run_good σ HI i Hi p Hcur). by rewrite Hk.
  - destruct a as [|chan l|chan| | |l|l| |f| |]; cbn [step_action]; try done.
    + by apply yield_good.
    + apply (acquire_good σ HI i Hi p Hcur); [done|exact Hleg].
    + by apply (wakeup_good σ HI i Hi p Hcur).
    + by apply exit_good.
    + by apply (acquire_good σ HI i Hi p Hcur).
    + apply good_ons. destruct (acquire_lock_spec σ HI i Hi p Hcur l) as [[s' ->]|(s' & -> & Hm)]; [by rewrite Hk|done|done|exact Hm].
    + apply good_ons. destruct (release_lock_spec σ HI i Hi p Hcur l PRun Hleg) as (s' & -> & Hm); [by rewrite Hk|done|exact Hm].
    + by apply create_good.
  - apply (release_run_good σ HI i Hi p Hcur). by rewrite Hk.
  - pose proof (m_ppcok _ HI p) as Hok. unfold ppc_ok in Hok. rewrite Hk in Hok. destruct Hok as [_ Hown]. apply good_ons. destruct lock as [l|].
    + destruct (release_lock_spec σ HI i Hi p Hcur l (PSleepU chan (Some l)) Hown) as (s' & E & Hm); [by rewrite Hk|done|].
      cbn [sleep_unlock]. rewrite E. exact Hm.
    + destruct (proc_facts σ HI i Hi p Hcur) as (u & l & x & Eu & Eu' & Ep & Hin & Ht & El & Hpf & Hl & Ex & Hx & _).
      apply (move_proc_minv σ HI i Hi p Hcur (m_sys σ) (PSleepU chan None) (m_own σ)); try done.
      * unfold running, st. rewrite Ex. simpl. by rewrite Hx.
      * exists l, l. split_and!; try done. left. rewrite Hk. split_and!; [done| |by left]. apply Hl. unfold hold. by rewrite Hcur, Hk.
      * apply (m_owned _ HI).
  - by apply sleep_good.
  - by eapply (sleep_resume_good σ HI i Hi p Hcur).
  - pose proof (m_ppcok _ HI p) as Hok. unfold ppc_ok in Hok. rewrite Hk in Hok. destruct Hok as [_ Hth]. apply good_ons. cbn [sleep_relock].
    destruct (acquire_lock_spec σ HI i Hi p Hcur l) as [[s' ->]|(s' & -> & Hm)]; [by rewrite Hk|done|done|exact Hm].
  - by apply (wait_good σ HI i Hi p Hcur).
  - apply (release_run_good σ HI i Hi p Hcur). by rewrite Hk.
  - by apply embryo_good.
  - by apply fill_good.
  - pose proof (m_curok _ HI i Hi) as Hok. unfold cur_ok in Hok. rewrite Hcur, Hk in Hok. tauto.
Qed.
End process.

Lemma mstep_good σ i a : minv σ → (i < ncpu)%nat → legal σ i a → good (mstep i a) σ.
Proof.
  intros HI Hi Hleg. unfold mstep. apply good_getS. destruct (m_cur σ i) as [c|p] eqn:Hcur.
  - by apply step_scheduler_good.
  - by apply step_process_good.
Qed.

(** ** Reachable states *)
Definition mtrans (σ σ' : mstate) : Prop := ∃ i a, (i < ncpu)%nat ∧ legal σ i a ∧ mstep i a σ = Ok () σ'.

(** Every CPU enters the scheduler of the root container, and no process has run. *)
Record initial (σ : mstate) : Prop := {
  in_w : winv (m_sys σ);
  in_cpu : ∀ i, (i < ncpu)%nat → csched (m_sys σ) i = Some 0%nat ∧ m_cur σ i = Sch 0 ∧ m_spc σ 0%nat i = SVisit 0;
  in_entry : ∀ c i, c ≠ 0%nat → m_spc σ c i = SEntry;
  in_free : ∀ c l, ptl (m_sys σ) c = Some l → locked l = false;
  in_procs : ∀ p, ¬ running (m_sys σ) p;
  in_ppc : ∀ p, m_ppc σ p = PFresh;
  in_own : m_own σ = ∅
}.

Lemma initial_minv σ : initial σ → minv σ.
Proof.
  intros [Hw Hcpu Hentry Hfree Hprocs Hppc Hown].
  assert (∀ p i, (i < ncpu)%nat → ¬ disp σ p i) as Hnd.
  { intros p i Hi. unfold disp. destruct (decide (p.1 = 0)%nat) as [->|Hp]; [|by rewrite Hentry].
    by destruct (Hcpu i Hi) as (_ & _ & ->). }
  assert (∀ i, (i < ncpu)%nat → owner σ i = None) as Hno.
  { intros i Hi. unfold owner, hold. by destruct (Hcpu i Hi) as (_ & -> & ->). }
  split.
  - done.
  - intros i Hi. destruct (Hcpu i Hi) as (Hcs & Hc & Hs). unfold cur_ok. rewrite Hc, Hs.
    destruct (w_root _ Hw) as (h & -> & _). done.
  - intros p i j Hi _ Hd. by destruct (Hnd p i Hi).
  - intros p i Hi Hd. by destruct (Hnd p i Hi).
  - intros p Hr. by destruct (Hprocs p).
  - intros i c Hi Hc. destruct (Hcpu i Hi) as (Hcs & _). left. congruence.
  - intros c l El. rewrite (Hfree c l El). split; [done|]. intros (i & Hi & Ho). by rewrite Hno in Ho.
  - intros c i j Hi _ Ho. by rewrite Hno in Ho.
  - intros p. unfold ppc_ok. by rewrite Hppc.
  - intros l p. by rewrite Hown, lookup_empty.
  - intros c i Hi Hl. destruct (Hcpu i Hi) as (_ & Hc & Hs). destruct (decide (c = 0)%nat) as [->|Hc0]; [done|]. by rewrite Hentry in Hl.
  - intros c i Hi. destruct (decide (c = 0)%nat) as [->|Hc0]; [|by rewrite Hentry].
    destruct (Hcpu i Hi) as (_ & _ & ->). apply le_0_n.
  - split; intros ? *; by rewrite Hppc.
Qed.

Lemma reachable_minv σ0 σ : initial σ0 → rtc mtrans σ0 σ → minv σ.
Proof.
  intros H0 Hr. assert (minv σ0) as HI by (by apply initial_minv). clear H0.
  induction Hr as [|σ0 σ1 σ (i & a & Hi & Hleg & E) _ IH]; [done|]. apply IH.
  pose proof (mstep_good σ0 i a HI Hi Hleg) as Hg. unfold good in Hg. by rewrite E in Hg.
Qed.

(** ** Steps that take no lock never wait *)
Definition nb {S A} (m : M S A) : Prop := ∀ s s', m s ≠ Blocked s'.
Section nb.
Context {S : Type}.
Lemma nb_ret {A} (a : A) : nb (S := S) (mret a).
Proof. done. Qed.
Lemma nb_bind {A B} (m : M S A) (k : A → M S B) : nb m → (∀ a, nb (k a)) → nb (m ≫= k).
Proof. intros Hm Hk s s'. unfold mbind, M_bind. destruct (m s) eqn:E; try done; [apply Hk|]. by destruct (Hm s s0). Qed.
Lemma nb_derefM {A} (o : option A) : nb (S := S) (derefM o).
Proof. by destruct o. Qed.
Lemma nb_if {A} (b : bool) (m m' : M S A) : nb m → nb m' → nb (if b then m else m').
Proof. by destruct b. Qed.
Lemma nb_dec {A} P `{Decision P} (m m' : M S A) : nb m → nb m' → nb (if decide P then m else m').
Proof. by case_decide. Qed.
Lemma nb_zoom {T A} (get : S → T) put (m : M T A) : nb m → nb (zoom get put m).
Proof. intros Hm s s'. unfold zoom. destruct (m (get s)) eqn:E; try done. by destruct (Hm (get s) s0). Qed.
End nb.
Create HintDb nb.
#[global] Hint Resolve nb_ret nb_bind nb_derefM nb_if nb_dec nb_zoom : nb.
Lemma nb_getS {S} : nb (S := S) getS. Proof. done. Qed.
Lemma nb_modify {S} (f : S → S) : nb (modify f). Proof. done. Qed.
Lemma nb_panic {S A} e : nb (S := S) (A := A) (panic e). Proof. done. Qed.
Lemma nb_undef {S A} : nb (S := S) (A := A) undef. Proof. done. Qed.
#[global] Hint Resolve nb_getS nb_modify nb_panic nb_undef : nb.
Lemma nb_get_cont c : nb (get_cont c). Proof. unfold get_cont. auto with nb. Qed.
Lemma nb_get_proc p : nb (get_proc p). Proof. unfold get_proc. auto with nb. Qed.
#[global] Hint Resolve nb_get_cont nb_get_proc : nb.
Lemma nb_upd_cont c f : nb (upd_cont c f). Proof. unfold upd_cont. auto with nb. Qed.
Lemma nb_upd_proc p f : nb (upd_proc p f). Proof. unfold upd_proc. auto with nb. Qed.
Lemma nb_thiscpu i : nb (thiscpu i). Proof. unfold thiscpu. auto with nb. Qed.
#[global] Hint Resolve nb_upd_cont nb_upd_proc nb_thiscpu : nb.
Lemma nb_this_scheduler i : nb (this_scheduler i). Proof. unfold this_scheduler. auto 10 with nb. Qed.
Lemma nb_relay l (k : SpinLock → M Sys unit) : (∀ l', nb (k l')) → nb (relay (release_spinlock l) k).
Proof. intros Hk s s'. unfold release_spinlock. destruct (negb _); [done|]. apply Hk. Qed.
#[global] Hint Resolve nb_this_scheduler nb_relay : nb.
Lemma nb_release_ptable c : nb (release_ptable_lock c). Proof. unfold release_ptable_lock, on_ptlock. auto with nb. Qed.
#[global] Hint Resolve nb_release_ptable : nb.
Lemma nb_release_sched i : nb (release_sched_lock i). Proof. unfold release_sched_lock. auto with nb. Qed.
Lemma nb_release_lock l : nb (on_lock l release_spinlock). Proof. unfold on_lock. auto with nb. Qed.
Lemma nb_current i : nb (current i). Proof. unfold current. auto with nb. Qed.
Lemma nb_set_cpu_proc i p : nb (set_cpu_proc i p). Proof. unfold set_cpu_proc. auto with nb. Qed.
Lemma nb_set_cpu_scheduler i c : nb (set_cpu_scheduler i c). Proof. unfold set_cpu_scheduler. auto with nb. Qed.
#[global] Hint Resolve nb_release_sched nb_release_lock nb_current nb_set_cpu_proc nb_set_cpu_scheduler : nb.
Lemma nb_sched i : nb (sched i). Proof. unfold sched, sched_simple. auto 10 with nb. Qed.
#[global] Hint Resolve nb_sched : nb.
Lemma nb_wait_scan c tp : ∀ n k kids, nb (wait_scan n c k tp kids).
Proof. induction n; intros; cbn [wait_scan]; auto 10 with nb. Qed.
#[global] Hint Resolve nb_wait_scan : nb.
Lemma nb_wait_pass i p : nb (wait_pass i p).
Proof. unfold wait_pass. apply nb_bind; [auto with nb|]. intros c. apply nb_bind; [auto with nb|]. intros [w|kids]; auto with nb. Qed.
#[global] Hint Resolve nb_wait_pass : nb.

(** A process that holds the lock of its table goes on without waiting. *)
Lemma process_nb i p a σ : holds (m_ppc σ p) = true → ∀ σ', step_process i p a σ ≠ Blocked σ'.
Proof.
  intros Hh. unfold step_process, mbind at 1, M_bind at 1, getS. unfold to_scheduler, yield_resume, sleep_park, ons.
  destruct (m_ppc σ p) as [| | |chan lock|chan lock|chan lock|l| | | | |]; try done.
  all: apply nb_bind; [apply nb_zoom|]; auto with nb.
  - destruct lock; cbn [sleep_unlock]; auto with nb.
  - unfold sleep_resume. destruct lock; cbn iota; auto 10 with nb.
Qed.

(** A container's scheduler that holds the lock goes on without waiting, unless the
    lock of the parent is held. *)
Lemma scheduler_nb σ i c d : minv σ → (i < ncpu)%nat → m_cur σ i = Sch c → owner σ i = Some d →
  (∀ e l, (e < d)%nat → ptl (m_sys σ) e = Some l → locked l = false) → ∀ σ', step_scheduler i c σ ≠ Blocked σ'.
Proof.
  intros HI Hi Hcur Ho Hmin. pose proof (m_curok _ HI i Hi) as Hok. unfold cur_ok in Hok. rewrite Hcur in Hok. destruct Hok as [Hsc Hok].
  unfold owner in Ho. destruct (hold σ i) eqn:Hhold; [|done]. unfold step_scheduler, mbind at 1, M_bind at 1, getS.
  assert (∀ s, sy_conts s = sy_conts (m_sys σ) → d = c → is_Some (cpu s i) → ∀ s', yield_scheduler_out i c s ≠ Blocked s') as Hout.
  { intros s Hconts -> [u Eu] s'. destruct Hsc as [h Es]. unfold yield_scheduler_out.
    assert (stat s c = Some h) as Es1 by (unfold stat; by rewrite Hconts).
    destruct (get_cont_stat _ _ _ Es1) as (C & EC & <- & _). erewrite bind_Ok by exact EC. destruct (Nat.eqb_spec c (c_sparent C)) as [|Hne]; [done|].
    assert (c ≠ 0%nat) as Hc0. { intros ->. destruct (w_root _ (m_w _ HI)) as (h0 & E0 & Hp0). rewrite Es in E0. injection E0 as <-. done. }
    destruct (w_sub _ (m_w _ HI) c _ Es Hc0) as (Hlt & Hsp & _). cbn [shape sh_sparent] in Hlt, Hsp.
    destruct (stat_facts σ HI _ Hsp) as (l' & _ & El' & _). pose proof (Hmin _ l' Hlt El') as Hl'.
    assert (ptl s (c_sparent C) = Some l') as El1 by (unfold ptl; by rewrite Hconts).
    erewrite bind_Ok by (by apply acquire_ptable_free). revert s'. apply nb_bind; [auto with nb|]. auto 10 with nb. }
  assert (resumes (m_spc σ c i) → ∀ l, ptl (m_sys σ) c = Some l → locked l = false) as Hfree.
  { intros Hr l El. destruct (resumed_facts σ HI i Hi c Hcur Hr) as (h & p & u & l1 & l2 & Hc0 & Es & Ep & Hsp & Hpc & Eu & Eu' & _ & _ & _ & _ & _ & Ho' & Hins & _).
    destruct (locked l) eqn:Hl; [|done]. apply (m_lock _ HI c l El) in Hl as (j & Hj & Hoj). exfalso.
    assert (csched (m_sys σ) j = Some c) as Hcj by (unfold owner in Hoj; by destruct (hold σ j)).
    destruct (m_in _ HI j c Hj Hcj) as [?|(h' & p' & Es' & Ep' & Hd' & _)]; [done|]. destruct Hins as [?|(h'' & p'' & Es'' & Ep'' & Hd'' & _)]; [done|].
    simplify_eq. assert (i = j) as <- by (by eapply (m_one _ HI p)). congruence. }
  assert (resumes (m_spc σ c i) → ∀ s', yield_scheduler_in i c (m_sys σ) ≠ Blocked s') as Hyin.
  { intros Hr s'. destruct (resumed_facts σ HI i Hi c Hcur Hr) as (h & p & u & l1 & l2 & Hc0 & Es & Ep & Hsp & Hpc & Eu & Eu' & _ & _ & El & El' & Hl' & _).
    rewrite (yield_in_good σ i c h p u l1 l2) by done. by rewrite (Hfree Hr l1 El). }
  assert (∀ (m : M Sys unit) k, resumes (m_spc σ c i) → nb m → ∀ σ', (ons (yield_scheduler_in i c;; m);; modify (set_spc i c k)) σ ≠ Blocked σ') as Hres.
  { intros m k Hr Hm σ'. unfold ons, zoom, mbind at 1, M_bind at 1. unfold mbind at 1, M_bind at 1. specialize (Hyin Hr).
    destruct (yield_scheduler_in i c (m_sys σ)) as [[] s1| |s1| |]; try done; [|by destruct (Hyin s1)].
    specialize (Hm s1). by destruct (m s1) as [| |s2| |]; [| |destruct (Hm s2)| |]. }
  destruct (sched_facts σ HI i Hi d Ho) as (u & ld & Eu & Eud & _ & Hind & _ & Eld & _ & Hld).
  destruct (m_spc σ c i) as [k|k|k| | |] eqn:Hspc.
  - unfold hold in Hhold. by rewrite Hcur, Hspc in Hhold.
  - destruct Hok as [Hcs _]. assert (d = c) as -> by congruence. intros σ'. unfold mbind at 1, M_bind at 1, ons at 1, zoom.
    assert (∀ s', scheduler_back i c (m_sys σ) ≠ Blocked s') as Hb.
    { intros s'. unfold scheduler_back. destruct Hsc as [h Es]. destruct (get_cont_stat _ _ _ Es) as (C & EC & _). erewrite bind_Ok by exact EC.
      erewrite bind_Ok by (by eapply set_cpu_proc_Ok). set (s1 := alter_cpu i _ (m_sys σ)).
      assert (is_Some (cpu s1 i)) as Hs1 by (unfold s1; by rewrite cpu_alter, decide_True, Eu).
      pose proof (Hout s1 eq_refl eq_refl Hs1) as Hb. unfold mbind at 1, M_bind at 1. destruct (yield_scheduler_out i c s1) as [o s2| |s2| |]; try done.
      revert s'. by apply nb_if; auto with nb. }
    destruct (scheduler_back i c (m_sys σ)) as [o s1| |s1| |]; try done; try (by destruct (Hb s1)). revert σ'. apply nb_if; unfold to_scheduler, ons; auto 10 with nb.
  - apply Hres; [done|]. auto with nb.
  - assert (d = c) as -> by congruence. intros σ'. unfold mbind at 1, M_bind at 1, ons at 1, zoom, scheduler_round, mbind at 1, M_bind at 1.
    pose proof (Hout (m_sys σ) eq_refl eq_refl ltac:(by rewrite Eu)) as Hb.
    destruct (yield_scheduler_out i c (m_sys σ)) as [[] s1| |s1| |]; try done; try (by destruct (Hb s1)).
    + revert σ'. unfold to_scheduler, ons. apply nb_bind; auto 10 with nb.
    + unfold mbind at 1, M_bind at 1. pose proof (nb_release_sched i s1) as Hrel.
      destruct (release_sched_lock i s1) as [? s2| |s2| |]; try done. by destruct (Hrel s2).
  - apply Hres; [done|]. auto with nb.
  - apply nb_bind; [unfold ons; apply nb_zoom|auto with nb]. unfold container_entry, scheduler_enter. auto 10 with nb.
Qed.

(** ** The properties *)

(** C2. Safety of the scheduler, with any number of containers nested in each
    other and any interleaving of the CPUs in which [alloc_proc] is not called in the
    window where another CPU has been given a slot of the same table and not yet marked it
    ([legal]; the code does not exclude this, see [slot_given_twice]): a process that a
    CPU executes is RUNNING in its table, is [thiscpu()->proc] there, and is executed by no
    other CPU; a RUNNING entry belongs to exactly one CPU; the lock of a process table is held
    exactly while one CPU is between taking it and releasing it, across the
    context switches in between; and no step panics or goes wrong: it succeeds or
    waits for a lock. *)
Theorem scheduler_safe σ0 σ : initial σ0 → rtc mtrans σ0 σ →
  (∀ i p, (i < ncpu)%nat → m_cur σ i = Pr p →
     (∃ x, lookup_proc (m_sys σ) p = Some x ∧ p_state x = RUNNING) ∧ cproc (m_sys σ) i = Some p ∧
     ∀ j, (j < ncpu)%nat → m_cur σ j = Pr p → j = i) ∧
  (∀ p x, lookup_proc (m_sys σ) p = Some x → p_state x = RUNNING →
     ∃ i, (i < ncpu)%nat ∧ disp σ p i ∧ ∀ j, (j < ncpu)%nat → disp σ p j → j = i) ∧
  (∀ c l, ptl (m_sys σ) c = Some l → locked l = true →
     ∃ i, (i < ncpu)%nat ∧ owner σ i = Some c ∧ ∀ j, (j < ncpu)%nat → owner σ j = Some c → j = i) ∧
  (∀ i a, (i < ncpu)%nat → legal σ i a → ∃ σ', mstep i a σ = Ok () σ' ∨ mstep i a σ = Blocked σ').
Proof.
  intros H0 Hr. pose proof (reachable_minv σ0 σ H0 Hr) as HI. split_and!.
  - intros i p Hi Hc. destruct (proc_facts σ HI i Hi p Hc) as (u & l & x & Eu & _ & Ep & _ & _ & _ & _ & _ & Ex & Hx & _).
    split; [by exists x|]. split; [unfold cproc; by rewrite Eu|]. intros j Hj Hcj. by eapply cur_unique.
  - intros p x Ex Hx. destruct (m_run _ HI p) as (i & Hi & Hd); [unfold running, st; rewrite Ex; simpl; by rewrite Hx|].
    exists i. split_and!; [done..|]. intros j Hj Hdj. by eapply (m_one _ HI p).
  - intros c l El Hl. apply (m_lock _ HI c l El) in Hl as (i & Hi & Ho). exists i. split_and!; [done..|]. intros j Hj Hoj. by eapply (m_lock1 _ HI c).
  - intros i a Hi Hleg. pose proof (mstep_good σ i a HI Hi Hleg) as Hg. unfold good in Hg. destruct (mstep i a σ) as [[] σ'| |σ'| |]; try done; exists σ'; auto.
Qed.


(** C22. The locks of the process tables do not deadlock: whenever one is held, some CPU that
    holds one takes its next step without waiting. *)
Theorem ptable_locks_progress σ0 σ c l : initial σ0 → rtc mtrans σ0 σ → ptl (m_sys σ) c = Some l → locked l = true →
  ∃ i d, (i < ncpu)%nat ∧ owner σ i = Some d ∧ ∀ a, legal σ i a → ∃ σ', mstep i a σ = Ok () σ'.
Proof.
  intros H0 Hr El Hl. pose proof (reachable_minv σ0 σ H0 Hr) as HI. clear H0 Hr. revert l El Hl.
  induction c as [c IH] using lt_wf_ind. intros l El Hl.
  destruct (decide (Exists (λ e, locked <$> ptl (m_sys σ) e = Some true) (seq 0 c))) as [He|He].
  { apply Exists_exists in He as (e & He%elem_of_seq & Hle). destruct (ptl (m_sys σ) e) as [le|] eqn:Ele; [|done].
    eapply (IH e); [lia|exact Ele|]. by injection Hle. }
  apply (m_lock _ HI c l El) in Hl as (i & Hi & Ho). exists i, c. split_and!; [done..|]. intros a Hleg.
  pose proof (mstep_good σ i a HI Hi Hleg) as Hg. unfold good in Hg.
  assert (∀ σ', mstep i a σ ≠ Blocked σ') as Hnb.
  { unfold mstep, mbind, M_bind, getS. destruct (m_cur σ i) as [d|p] eqn:Hcur.
    - eapply scheduler_nb; [done..|]. intros e le Hec Ele. destruct (locked le) eqn:Hle; [|done]. destruct He. apply Exists_exists. exists e.
      split; [apply elem_of_seq; lia|]. rewrite Ele. simpl. by rewrite Hle.
    - apply process_nb. unfold owner, hold in Ho. rewrite Hcur in Ho. unfold holds. by destruct (m_ppc σ p). }
  destruct (mstep i a σ) as [[] σ'| |σ'| |]; try done; [by exists σ'|]. by destruct (Hnb σ').
Qed.

(** ** Every runnable process is reached

    The positions of a scheduler thread in the order in which it goes through them. *)
Definition place (k : spc) : nat :=
  match k with
  | SVisit n => 3 * n
  | SSwitch n => 3 * n + 1
  | SYield n => 3 * n + 2
  | STop => 3 * Z.to_nat NPROC + 1
  | SRound | SEntry => 3 * Z.to_nat NPROC + 2
  end.
Definition cycle : nat := 3 * Z.to_nat NPROC + 3.
(** How far it is to the visit of slot [t]. *)
Definition ahead (k : spc) (t : nat) : nat :=
  if (place k <=? 3 * t)%nat then 3 * t - place k else 3 * t + cycle - place k.

(** Steps of all CPUs, among them [n] of the scheduler thread of [c] on CPU [i], through
    states with [P]. *)
Inductive runs (P : mstate → Prop) (i c : nat) : nat → mstate → mstate → Prop :=
| runs_end σ : P σ → runs P i c 0 σ σ
| runs_step j a n σ σ1 σ' : P σ → (j < ncpu)%nat → legal σ j a → mstep j a σ = Ok () σ1 → runs P i c n σ1 σ' →
    runs P i c ((if bool_decide (j = i ∧ m_cur σ i = Sch c) then 1 else 0) + n) σ σ'.

Lemma ons_inv {X} (m : M Sys X) σ a σ' : ons m σ = Ok a σ' → ∃ s', m (m_sys σ) = Ok a s' ∧ σ' = set_sys s' σ.
Proof. unfold ons, zoom. destruct (m (m_sys σ)) as [b s'| | | |] eqn:E; try done. intros [= <- <-]. by exists s'. Qed.
Lemma modify_inv f (σ : mstate) a σ' : modify f σ = Ok a σ' → σ' = f σ.
Proof. by intros [= _ <-]. Qed.
Lemma to_scheduler_inv i σ σ' : to_scheduler i σ = Ok () σ' → m_spc σ' = m_spc σ.
Proof. unfold to_scheduler. by intros (c & σ1 & (s1 & _ & ->)%ons_inv & ->%modify_inv)%bind_Ok_inv. Qed.

(** Taking a step of the machine apart. *)
Ltac step_inv :=
  repeat match goal with
  | H : (getS ≫= _) _ = Ok _ _ |- _ => change (getS ≫= ?k) with (λ σ, k σ σ) in H; cbv beta in H
  | H : (_ ≫= _) _ = Ok _ _ |- _ => apply bind_Ok_inv in H as (? & ? & ? & H)
  | H : ons _ _ = Ok _ _ |- _ => apply ons_inv in H as (? & ? & ->)
  | H : modify _ _ = Ok _ _ |- _ => apply modify_inv in H; subst
  | H : to_scheduler _ _ = Ok _ _ |- _ => apply to_scheduler_inv in H
  end.

(** A process does not move the schedulers. *)
Lemma step_process_spc i p a σ σ' : step_process i p a σ = Ok () σ' → m_spc σ' = m_spc σ.
Proof.
  unfold step_process. intros E. apply bind_Ok_inv in E as (? & ? & [= <- <-] & E).
  destruct (m_ppc σ p); try done; cbn [step_action] in E; unfold create, embryo in E.
  2:{ destruct a; cbn [step_action] in E; unfold create in E; try done; step_inv; try done; by repeat case_match. }
  all: try (step_inv; try done; by destruct lock). destruct a; cbn [fill] in E; try done; by step_inv.
Qed.

(** A scheduler moves only itself, and on its CPU. *)
Lemma step_scheduler_spc i d σ σ' : step_scheduler i d σ = Ok () σ' → ∀ c j, c ≠ d ∨ j ≠ i → m_spc σ' c j = m_spc σ c j.
Proof.
  unfold step_scheduler. intros E c j Hc. apply bind_Ok_inv in E as (? & ? & [= <- <-] & E).
  assert (∀ k τ, m_spc (set_spc i d k τ) c j = m_spc τ c j) as Hs by (intros; simpl; rewrite decide_False; [done|tauto]).
  destruct (m_spc σ d i); [destruct (_ <? _)%nat|..]; step_inv; try case_match; step_inv; rewrite ?Hs; try done.
  - simpl. rewrite decide_False; [done|tauto].
  - match goal with H : m_spc _ = _ |- _ => rewrite H end. by rewrite Hs.
  - match goal with H : m_spc _ = _ |- _ => rewrite H end. by rewrite Hs.
Qed.
Lemma mstep_spc j a σ σ' c i : mstep j a σ = Ok () σ' → ¬ (j = i ∧ m_cur σ i = Sch c) → m_spc σ' c i = m_spc σ c i.
Proof.
  unfold mstep. intros E Hn. apply bind_Ok_inv in E as (? & ? & [= <- <-] & E). destruct (m_cur σ j) as [d|p] eqn:Ej.
  - apply (step_scheduler_spc _ _ _ _ E). destruct (decide (i = j)) as [->|]; [|by right]. left. intros ->. by destruct Hn.
  - by rewrite (step_process_spc _ _ _ _ _ E).
Qed.

(** Where a scheduler thread goes from where it is. *)
Lemma step_scheduler_next i c σ σ' : step_scheduler i c σ = Ok () σ' →
  match m_spc σ c i with
  | SVisit n => if (n <? Z.to_nat NPROC)%nat then m_spc σ' c i = SVisit (S n) ∨ m_spc σ' c i = SSwitch n else m_spc σ' c i = STop
  | SSwitch n => m_spc σ' c i = SYield n ∨ m_spc σ' c i = SVisit (S n)
  | SYield n => m_spc σ' c i = SVisit (S n)
  | STop => m_spc σ' c i = SRound ∨ m_spc σ' c i = SVisit 0
  | SRound | SEntry => m_spc σ' c i = SVisit 0
  end.
Proof.
  unfold step_scheduler. intros E. apply bind_Ok_inv in E as (? & ? & [= <- <-] & E).
  assert (∀ k τ, m_spc (set_spc i c k τ) c i = k) as Hs by (intros; simpl; by rewrite decide_True).
  destruct (m_spc σ c i); [destruct (_ <? _)%nat|..]; step_inv; try case_match; step_inv; rewrite ?Hs; auto.
  - right. simpl. by rewrite decide_True.
  - left. match goal with H : m_spc _ = _ |- _ => rewrite H end. by rewrite Hs.
  - left. match goal with H : m_spc _ = _ |- _ => rewrite H end. by rewrite Hs.
Qed.

(** The visit of a runnable slot gives it the CPU. *)
Lemma visit_dispatches σ i c k x a σ' : minv σ → (i < ncpu)%nat → m_cur σ i = Sch c → m_spc σ c i = SVisit k →
  lookup_proc (m_sys σ) (c, k) = Some x → p_state x = RUNNABLE → mstep i a σ = Ok () σ' →
  lookup_proc (m_sys σ') (c, k) = Some (with_state RUNNING x) ∧
  m_cur σ' i = (if p_is_scheduler x then Sch (default 0%nat (p_cont x)) else Pr (c, k)) ∧
  ∃ u, cpu (m_sys σ') i = Some u ∧ cpu_proc u = Some (c, k) ∧ (p_is_scheduler x = false → cpu_ttbr0 u = K2P (p_pgdir x)).
Proof.
  intros HI Hi Hcur Hspc Ex Hx E. pose proof (m_curok _ HI i Hi) as Hok. unfold cur_ok in Hok. rewrite Hcur, Hspc in Hok. destruct Hok as [Hsc Hcs].
  destruct (sched_facts σ HI i Hi c Hcs) as (u & l & Eu & Eu' & _ & Hin & Ht & El & _).
  pose proof (table_lookup_inv _ _ _ _ Ht Ex) as Hk. unfold mstep in E. apply bind_Ok_inv in E as (? & ? & [= <- <-] & E). rewrite Hcur in E.
  unfold step_scheduler in E. apply bind_Ok_inv in E as (? & ? & [= <- <-] & E). rewrite Hspc, (proj2 (Nat.ltb_lt _ _) Hk) in E.
  apply bind_Ok_inv in E as (r & σ1 & (s1 & Ev & ->)%ons_inv & E). destruct (locked l) eqn:Hl.
  { unfold scheduler_visit, mbind at 1, M_bind at 1 in Ev. by rewrite (acquire_sched_held i _ _ l Hin El Hl) in Ev. }
  destruct (scheduler_visit_dispatch i _ c k l u x Hin El Hl Eu Ex Hx) as (g & Hg1 & Hg2 & Hg3 & Ed). rewrite Ed in Ev. injection Ev as <- <-.
  set (s' := alter_cpu i g _) in E. apply bind_Ok_inv in E as (t & σ2 & (s2 & Et & ->)%ons_inv & E). step_inv. cbn [m_sys set_sys] in Et.
  assert (lookup_proc s' (c, k) = Some (with_state RUNNING x)) as Ex'.
  { unfold s'. by rewrite lookup_proc_cpu, lookup_proc_alter, decide_True, lookup_proc_ptl, Ex. }
  unfold thread_of in Et. erewrite bind_Ok in Et by (by apply get_proc_Ok). cbn [with_state p_is_scheduler p_cont] in Et.
  assert (s2 = s' ∧ t = (if p_is_scheduler x then Sch (default 0%nat (p_cont x)) else Pr (c, k))) as [-> ->].
  { destruct (p_is_scheduler x); [|by injection Et as <- <-]. destruct (p_cont x); [by injection Et as <- <-|done]. }
  simpl. rewrite decide_True by done. split_and!; [done|done|]. exists (g u). split_and!; [|by rewrite Hg2|by auto].
  unfold s'. by rewrite cpu_alter, decide_True, cpu_alter_proc, cpu_ptl, Eu.
Qed.

(** A step of the scheduler thread that leaves slot [t] runnable brings it closer to it. *)
Lemma scheduler_closer σ i c t a σ' : minv σ → (i < ncpu)%nat → m_cur σ i = Sch c → st (m_sys σ) (c, t) = Some RUNNABLE →
  mstep i a σ = Ok () σ' → st (m_sys σ') (c, t) = Some RUNNABLE → (ahead (m_spc σ' c i) t < ahead (m_spc σ c i) t)%nat.
Proof.
  intros HI Hi Hcur Hst E Hst'. unfold st in Hst. destruct (lookup_proc (m_sys σ) (c, t)) as [x|] eqn:Ex; [|done]. injection Hst as Hx.
  assert (m_spc σ c i ≠ SVisit t) as Hne.
  { intros Hv. destruct (visit_dispatches σ i c t x a σ' HI Hi Hcur Hv Ex Hx E) as (E' & _). unfold st in Hst'. by rewrite E' in Hst'. }
  pose proof (m_curok _ HI i Hi) as Hok. unfold cur_ok in Hok. rewrite Hcur in Hok. destruct Hok as [Hsc _].
  destruct (stat_facts σ HI c Hsc) as (l & Ht & _). pose proof (table_lookup_inv _ _ _ _ Ht Ex) as Ht'.
  pose proof (m_slot _ HI c i Hi) as Hslot. unfold mstep in E. apply bind_Ok_inv in E as (? & ? & [= <- <-] & E). rewrite Hcur in E.
  apply step_scheduler_next in E. change (Z.to_nat NPROC) with 14%nat in *. unfold ahead, place, cycle. change (Z.to_nat NPROC) with 14%nat.
  destruct (m_spc σ c i) as [n|n|n| | |]; cbn [slot_ok] in Hslot; try change (Z.to_nat NPROC) with 14%nat in Hslot; [assert (n ≠ t) by congruence; revert E; destruct (Nat.ltb_spec n 14); intros E|..].
  all: try (destruct E as [E|E]); rewrite E; repeat match goal with |- context [(?a <=? ?b)%nat] => destruct (Nat.leb_spec a b) end; lia.
Qed.

(** C35. No runnable process is passed over. Let slot [k] of a table be RUNNABLE. While the
    CPUs run in any interleaving and the slot stays RUNNABLE, the scheduler thread that
    each CPU has for this table makes at most 44 steps, those of one round: it reaches the
    slot from wherever it is, over the end of the table too. And the step in which it is at
    the slot gives the CPU to the process (or to the scheduler of its container): RUNNING,
    as [thiscpu()->proc] and with its page table loaded. *)
Theorem round_robin σ0 σ i c k x : initial σ0 → rtc mtrans σ0 σ → (i < ncpu)%nat →
  lookup_proc (m_sys σ) (c, k) = Some x → p_state x = RUNNABLE →
  (∀ n σ', runs (λ τ, st (m_sys τ) (c, k) = Some RUNNABLE) i c n σ σ' → (n ≤ 44)%nat) ∧
  (∀ a σ', m_cur σ i = Sch c → m_spc σ c i = SVisit k → mstep i a σ = Ok () σ' →
     lookup_proc (m_sys σ') (c, k) = Some (with_state RUNNING x) ∧
     m_cur σ' i = (if p_is_scheduler x then Sch (default 0%nat (p_cont x)) else Pr (c, k)) ∧
     ∃ u, cpu (m_sys σ') i = Some u ∧ cpu_proc u = Some (c, k) ∧ (p_is_scheduler x = false → cpu_ttbr0 u = K2P (p_pgdir x))).
Proof.
  intros H0 Hr Hi Ex Hx. pose proof (reachable_minv σ0 σ H0 Hr) as HI. split.
  - assert (is_Some (stat (m_sys σ) c)) as Hc.
    { unfold lookup_proc in Ex. unfold stat. simpl in Ex. by destruct (sy_conts (m_sys σ) !! c). }
    destruct (stat_facts σ HI c Hc) as (l & Ht & _). pose proof (table_lookup_inv _ _ _ _ Ht Ex) as Hk. change (Z.to_nat NPROC) with 14%nat in Hk.
    intros n σ' Hruns. transitivity (ahead (m_spc σ c i) k).
    2:{ unfold ahead, cycle. change (Z.to_nat NPROC) with 14%nat. destruct (Nat.leb_spec (place (m_spc σ c i)) (3 * k)); lia. }
    clear Ex Hx H0 Hr σ0 Hc l Ht. induction Hruns as [|j a n σ σ1 σ' HP Hj Hleg E Hruns IH]; [lia|].
    pose proof (mstep_good σ j a HI Hj Hleg) as HI1. unfold good in HI1. rewrite E in HI1. specialize (IH HI1).
    case_bool_decide as Hji.
    + destruct Hji as [-> Hcur]. enough (ahead (m_spc σ1 c i) k < ahead (m_spc σ c i) k)%nat by lia.
      eapply scheduler_closer; try done. by inversion Hruns.
    + by rewrite (mstep_spc _ _ _ _ _ _ E Hji) in IH.
  - intros a σ' Hcur Hspc E. by eapply visit_dispatches.
Qed.

(** ** An example: a process and a container with a process of its own *)
Definition demo_root : Container :=
  mkContainer None true [] (with_state RUNNABLE zero_proc :: with_state RUNNABLE (with_scheduler 1 zero_proc) ::
      with_state RUNNABLE zero_proc :: replicate 11 zero_proc)
    (init_spinlock "ptable") 0 0 (init_spinlock "container") 0 (replicate 64 (mkPidMap false 0 None)).
Definition demo_sub : Container :=
  mkContainer (Some (0, 1)%nat) true [] (with_state RUNNABLE zero_proc :: replicate 13 zero_proc)
    (init_spinlock "ptable") 0 0 (init_spinlock "container") 0 (replicate 64 (mkPidMap false 0 None)).
Definition demo_sys : Sys :=
  mkSys [demo_root; demo_sub] (replicate 4 (mkCpu (Some 0%nat) None 0)) {[7 := init_spinlock "lock"]} None.
Definition demo_machine : mstate :=
  mkM demo_sys (λ _, Sch 0) (λ c _, if decide (c = 0%nat) then SVisit 0 else SEntry) (λ _, PFresh) ∅.

Lemma demo_lookup p x : lookup_proc demo_sys p = Some x →
  x = with_state RUNNABLE zero_proc ∨ p = (0, 1)%nat ∧ x = with_state RUNNABLE (with_scheduler 1 zero_proc) ∨ x = zero_proc.
Proof.
  destruct p as [c k]. unfold lookup_proc. simpl.
  destruct c as [|[|c]]; simpl; [| |by destruct c].
  - destruct k as [|[|[|k]]]; simpl; [by intros [= <-]; auto..|]. change (zero_proc :: _) with (replicate 11 zero_proc).
    intros [-> _]%lookup_replicate. by auto.
  - destruct k as [|k]; simpl; [by intros [= <-]; auto|]. change (zero_proc :: _) with (replicate 13 zero_proc).
    intros [-> _]%lookup_replicate. by auto.
Qed.

Lemma demo_winv : winv demo_sys.
Proof.
  split.
  - by eexists.
  - intros [|[|c]] h; [intros [= <-]..|by destruct c]; simpl; split_and!; try done; [by left|right]. split; [lia|by eexists].
  - intros [|[|c]] h; [done|intros [= <-] _|by destruct c]. simpl. split_and!; [lia|by eexists|]. by exists 1%nat.
  - intros p o. unfold kind. destruct (lookup_proc demo_sys p) as [x|] eqn:E; [|done]. simpl. intros [= Hs Ho].
    apply demo_lookup in E as [->|[[-> ->]| ->]]; try done. simpl in Ho. eexists 1%nat, _. by split_and!.
  - intros i Hi. change ncpu with 4%nat in Hi. exists (mkCpu (Some 0%nat) None 0), 0%nat. split_and!; [|done|by eexists].
    unfold cpu. change (sy_cpus demo_sys) with (replicate 4 (mkCpu (Some 0%nat) None 0)). by apply lookup_replicate_2.
Qed.

Lemma demo_initial : initial demo_machine.
Proof.
  split.
  - apply demo_winv.
  - intros i Hi. split_and!; [|done|done]. change ncpu with 4%nat in Hi. unfold csched, cpu.
    change (sy_cpus (m_sys demo_machine)) with (replicate 4 (mkCpu (Some 0%nat) None 0)). by rewrite lookup_replicate_2.
  - intros c i Hc. simpl. by rewrite decide_False.
  - intros [|[|c]] l; [intros [= <-]..|by destruct c]; done.
  - intros p Hr. unfold running, st in Hr. destruct (lookup_proc _ p) as [x|] eqn:E; [|done]. simpl in Hr.
    apply demo_lookup in E as [->|[[-> ->]| ->]]; done.
  - done.
  - done.
Qed.

(** Running a script of steps. *)
Definition legalb (σ : mstate) (i : nat) (a : action) : bool :=
  match m_cur σ i with
  | Sch _ => true
  | Pr p =>
      match m_ppc σ p, a with
      | PRun, (ASleep _ l | AUnlock l) => bool_decide (m_own σ !! l = Some p)
      | PRun, ALock l => bool_decide (is_Some (sy_locks (m_sys σ) !! l))
      | PRun, ACreate => forallb (λ j, negb (allocating σ j p.1)) (seq 0 ncpu)
      | PRun, (AInit _ | AReady | AFail) => false
      | PEmbryo _, (AReady | AFail) => true
      | PEmbryo _, _ => false
      | _, _ => true
      end
  end.
Lemma legalb_legal σ i a : legalb σ i a = true → legal σ i a.
Proof.
  unfold legal, legalb. destruct (m_cur σ i) as [|p]; [done|].
  destruct (m_ppc σ p) eqn:Ep; try done; destruct a; try done; try apply bool_decide_eq_true.
  intros Hall j Hj. rewrite forallb_forall in Hall. specialize (Hall j). apply negb_true_iff, Hall, in_seq. lia.
Qed.
Fixpoint run (sc : list (nat * action)) (σ : mstate) : option mstate :=
  match sc with
  | [] => Some σ
  | (i, a) :: sc' =>
      if (i <? ncpu)%nat && legalb σ i a then
        match mstep i a σ with Ok _ σ' => run sc' σ' | _ => None end
      else None
  end.
Lemma run_reachable sc : ∀ σ σ', run sc σ = Some σ' → rtc mtrans σ σ'.
Proof.
  induction sc as [|[i a] sc IH]; intros σ σ' E; [by injection E as <-|]. cbn [run] in E.
  destruct (Nat.ltb_spec i ncpu) as [Hi|]; [|done]. destruct (legalb σ i a) eqn:Hl; [|done]. cbn [andb] in E.
  destruct (mstep i a σ) as [[] σ1| | | |] eqn:E1; try done. eapply rtc_l; [|by apply IH]. exists i, a. split_and!; [done| |done]. by apply legalb_legal.
Qed.

(** CPU 0 runs process 0, which sleeps on channel 5 with lock 7; CPU 1 enters the
    container and runs its process; CPU 0 runs process 2. *)
Definition demo_script : list (nat * action) :=
  [(0, AYield); (0, AYield); (0, ALock 7); (0, ASleep 5 7); (0, AYield); (0, AYield); (0, AYield);
   (1, AYield); (1, AYield); (1, AYield); (0, AYield); (1, AYield); (0, AYield); (0, AYield)]%nat.
Definition demo_sleeping : mstate := default demo_machine (run demo_script demo_machine).
Definition demo_dispatched : mstate := default demo_machine (run (take 1 demo_script) demo_machine).

Lemma demo_sleeping_reachable : rtc mtrans demo_machine demo_sleeping.
Proof. apply (run_reachable demo_script). vm_compute. reflexivity. Qed.
Lemma demo_dispatched_reachable : rtc mtrans demo_machine demo_dispatched.
Proof. apply (run_reachable (take 1 demo_script)). vm_compute. reflexivity. Qed.

Lemma scheduler_safe_witness :
  m_cur demo_sleeping 1%nat = Pr (1, 0)%nat ∧ cproc (m_sys demo_sleeping) 1%nat = Some (1, 0)%nat ∧
  ∃ i, (i < ncpu)%nat ∧ disp demo_sleeping (1, 0)%nat i ∧ ∀ j, (j < ncpu)%nat → disp demo_sleeping (1, 0)%nat j → j = i.
Proof.
  destruct (scheduler_safe demo_machine demo_sleeping demo_initial demo_sleeping_reachable) as (H1 & H2 & _).
  assert (m_cur demo_sleeping 1%nat = Pr (1, 0)%nat) as E by (vm_compute; reflexivity).
  destruct (H1 1%nat (1, 0)%nat ltac:(vm_compute; lia) E) as ((x & Ex & Hx) & Hc & _).
  split; [exact E|]. split; [exact Hc|]. exact (H2 _ x Ex Hx).
Defined.


Lemma ptable_locks_progress_witness :
  ∃ i d, (i < ncpu)%nat ∧ owner demo_dispatched i = Some d ∧ ∀ a, legal demo_dispatched i a → ∃ σ', mstep i a demo_dispatched = Ok () σ'.
Proof.
  apply (ptable_locks_progress demo_machine demo_dispatched 0 (held 0 (init_spinlock "ptable")) demo_initial demo_dispatched_reachable).
  - vm_compute. reflexivity.
  - reflexivity.
Defined.

(** Process 2 of the example is runnable from the start. *)
Lemma round_robin_witness :
  (∀ n σ', runs (λ τ, st (m_sys τ) (0, 2)%nat = Some RUNNABLE) 0 0 n demo_machine σ' → (n ≤ 44)%nat) ∧
  runs (λ τ, st (m_sys τ) (0, 2)%nat = Some RUNNABLE) 0 0 1 demo_machine demo_dispatched.
Proof.
  split.
  - exact (proj1 (round_robin demo_machine demo_machine 0 0 2 (with_state RUNNABLE zero_proc) demo_initial (rtc_refl _ _)
      ltac:(vm_compute; lia) eq_refl eq_refl)).
  - apply (runs_step _ 0 0 0 AYield 0 demo_machine demo_dispatched demo_dispatched).
    + reflexivity.
    + vm_compute. lia.
    + exact I.
    + vm_compute. reflexivity.
    + apply runs_end. vm_compute. reflexivity.
Defined.

(** ** What goes wrong when two CPUs create processes at the same time

    CPU 2 calls [alloc_proc] after CPU 0 was given slot 3 and before it marks it. It is
    given slot 3 too, and its writes make the process that CPU 3 already executes runnable
    again: CPU 0 then executes it as well. *)
Fixpoint run_any (sc : list (nat * action)) (σ : mstate) : option mstate :=
  match sc with
  | [] => Some σ
  | (i, a) :: sc' => match mstep i a σ with Ok _ σ' => run_any sc' σ' | _ => None end
  end.
Definition race_script : list (nat * action) :=
  [(0, AYield); (0, AYield); (1, AYield); (1, AYield); (1, AYield); (2, AYield); (2, AYield); (2, AYield); (2, AYield);
   (0, ACreate); (2, ACreate); (0, AYield); (0, AReady);
   (3, AYield); (3, AYield); (3, AYield); (3, AYield); (3, AYield);
   (2, AYield); (2, AReady);
   (0, AYield); (0, AYield); (0, AYield); (0, AYield); (0, AYield)]%nat.
Lemma slot_given_twice : ∃ σ, run_any race_script demo_machine = Some σ ∧ m_cur σ 0%nat = Pr (0, 3)%nat ∧ m_cur σ 3%nat = Pr (0, 3)%nat.
Proof.
  assert ((λ σ, (m_cur σ 0%nat, m_cur σ 3%nat)) <$> run_any race_script demo_machine = Some (Pr (0, 3)%nat, Pr (0, 3)%nat)) as H by (vm_compute; reflexivity).
  destruct (run_any race_script demo_machine) as [σ|]; [|discriminate H]. injection H as H1 H2. exists σ. split; [reflexivity|]. split; [exact H1|exact H2].
Qed.
