(* ===== verification/Proc.v ===== *)
(** * Processes (core/proc.c, core/container.c, core/trapframe.h)

    Creating, growing, forking, ending and reaping processes, and creating
    containers: the functions that work on the process table, on physical memory
    and on the open files together. The trap frame and the saved context of a
    process lie at the top of its kernel stack, which is a page of the physical
    memory. *)
From S2P Require Import Prelude Locks PhysMem VirtMem Cache Inode InodeIO File Sched.

(** The state of the kernel: scheduler, memory, files, the arena of containers, and
    the counter of [forkret]. *)
Record Kernel (C A K P : Type) := mkKernel {
  k_sys : Sys;
  k_mem : PMemory;
  k_ft : FTable C A K;
  k_pool : P;
  k_procnum : Z
}.
Arguments mkKernel {C A K P} _ _ _ _ _.
Arguments k_sys {C A K P} _.
Arguments k_mem {C A K P} _.
Arguments k_ft {C A K P} _.
Arguments k_pool {C A K P} _.
Arguments k_procnum {C A K P} _.

(** The fields of [Trapframe] and of [struct context], all of them [u64], in order. *)
Definition Trapframe : list string :=
  ["tpidr_el0"; "elr_el1"; "spsr_el1"; "sp_el0";
   "x0"; "x1"; "x2"; "x3"; "x4"; "x5"; "x6"; "x7"; "x8"; "x9"; "x10"; "x11"; "x12"; "x13"; "x14"; "x15"; "x16"; "x17"; "x18"; "x19"; "x20"; "x21"; "x22"; "x23"; "x24"; "x25"; "x26"; "x27"; "x28"; "x29"; "x30"].
Definition context : list string :=
  ["r15"; "r16"; "r17"; "r18"; "r19"; "r20"; "r21"; "r22"; "r23"; "r24"; "r25"; "r26"; "r27"; "r28"; "r29"; "r30"].
Definition sizeof (fields : list string) : Z := 8 * Z.of_nat (length fields).
Fixpoint offsetof (fields : list string) (f : string) : nat :=
  match fields with
  | [] => 0
  | g :: fields' => if String.eqb f g then 0 else S (offsetof fields' f)
  end.
Definition sizeof_Trapframe : Z := Eval vm_compute in sizeof Trapframe.
Definition sizeof_context : Z := Eval vm_compute in sizeof context.
Definition tf_elr_el1 : nat := Eval vm_compute in offsetof Trapframe "elr_el1".
Definition tf_spsr_el1 : nat := Eval vm_compute in offsetof Trapframe "spsr_el1".
Definition tf_sp_el0 : nat := Eval vm_compute in offsetof Trapframe "sp_el0".
Definition tf_x0 : nat := Eval vm_compute in offsetof Trapframe "x0".
Definition tf_x (n : nat) : nat := tf_x0 + n.
Definition ctx_r30 : nat := Eval vm_compute in offsetof context "r30".
Definition sizeof_container : Z := 3840.

(** String literals, with their NUL. *)
Definition initproc_name : list Z := [105; 110; 105; 116; 112; 114; 111; 99; 0].
Definition sdproc_name : list Z := [115; 100; 112; 114; 111; 99; 0].
Definition container_name : list Z := [99; 111; 110; 116; 97; 105; 110; 101; 114; 0].

Section proc.
Context {C A K P : Type} {BC : BlockCache C} {TX : Transactions C} {OP : ObjectPool A} {CP : ObjectPool P}.
Context (sb : SuperBlock) (kend : Z) (me : nat).
Abbreviation T := (ITree C A K).
Abbreviation F := (FTable C A K).
Abbreviation KS := (Kernel C A K P).
Context (console_read : Z → Z → M T (Z * list Z)) (stack16 : list Z).
(** The code of the first user programs ([icode], [ispin], [loop_start]) and the
    addresses of [initenter] and [container_entry]. *)
Context (icode ispin loop_code : list Z) (initenter container_entry_addr : Z).
(** [init_filesystem], run by the second process that starts. *)
Context (init_filesystem : M F unit).

Definition set_k_sys x (s : KS) : KS := mkKernel x (k_mem s) (k_ft s) (k_pool s) (k_procnum s).
Definition set_k_mem x (s : KS) : KS := mkKernel (k_sys s) x (k_ft s) (k_pool s) (k_procnum s).
Definition set_k_ft x (s : KS) : KS := mkKernel (k_sys s) (k_mem s) x (k_pool s) (k_procnum s).
Definition set_k_pool x (s : KS) : KS := mkKernel (k_sys s) (k_mem s) (k_ft s) x (k_procnum s).
Definition set_k_procnum x (s : KS) : KS := mkKernel (k_sys s) (k_mem s) (k_ft s) (k_pool s) x.
Definition on_sys {X} (m : M Sys X) : M KS X := zoom k_sys set_k_sys m.
Definition on_mem {X} (m : M PMemory X) : M KS X := zoom k_mem set_k_mem m.
Definition on_ft {X} (m : M F X) : M KS X := zoom k_ft set_k_ft m.
Definition on_tree {X} (m : M T X) : M KS X := on_ft (ont m).
Definition on_pool {X} (m : M P X) : M KS X := zoom k_pool set_k_pool m.
Abbreviation cpuid := (Z.of_nat me).

(** Word [k] of the structure at address [a]. *)
Definition word_of (a : Z) (k : nat) : Z * nat := (ROUNDDOWN a PGSIZE, (Z.to_nat (a mod PGSIZE / 8) + k)%nat).
Definition load_word (a : Z) (k : nat) : M KS Z := on_mem (read_word (word_of a k).1 (word_of a k).2).
Definition store_word (a : Z) (k : nat) (v : Z) : M KS unit := on_mem (write_word (word_of a k).1 (word_of a k).2 v).
(** A field of the trap frame of a process. *)
Definition get_tf (p : pptr) (k : nat) : M KS Z := x ← on_sys (get_proc p); load_word (p_tf x) k.
Definition set_tf (p : pptr) (k : nat) (v : Z) : M KS unit := x ← on_sys (get_proc p); store_word (p_tf x) k v.

(** [strncpy(p->name, src, 16)] *)
Definition set_name (p : pptr) (src : list Z) : M KS unit :=
  name ← derefM (strncpy_bytes src 16); on_sys (upd_proc p (with_name name)).

Definition begin_op : M KS Z := on_tree (onc bc_begin).
Definition end_op (ctx : Z) : M KS unit := on_tree (onc (bc_end ctx)).

(** [None] for the null pointer. *)
Definition alloc_proc : M KS (option pptr) :=
  p ← on_sys (alloc_pcb me);
  match p with
  | None => mret None
  | Some p =>
      on_sys (upd_proc p (with_state EMBRYO));;
      stp ← on_mem (kalloc cpuid);
      if stp =? NULL then on_sys (upd_proc p (with_state UNUSED));; mret None
      else
        on_sys (upd_proc p (with_kstack (stp + KSTACKSIZE)));;
        let tf := stp + KSTACKSIZE - sizeof_Trapframe in
        let ctx := stp + KSTACKSIZE - sizeof_Trapframe - sizeof_context in
        on_sys (upd_proc p (with_frames tf ctx));;
        store_word ctx ctx_r30 initenter;;
        mret (Some p)
  end.

(** The part that [spawn_init_process], [spawn_init_process_sd] and [add_loop_test]
    share: a process with one page of code. *)
Definition spawn_code (code name : list Z) : M KS pptr :=
  p ← alloc_proc;
  match p with
  | None => panic "failed alloc proc"
  | Some p =>
      newpgdir ← on_mem (my_pgdir_init cpuid);
      (if newpgdir =? NULL then panic "failed to alloc pgdir" else mret ());;
      on_sys (upd_proc p (with_pgdir newpgdir));;
      newpage ← on_mem (kalloc cpuid);
      on_mem (store_bytes newpage 0 code);;
      set_name p name;;
      on_mem (my_uvm_map cpuid newpgdir 0 PGSIZE (K2P newpage));;
      set_tf p tf_elr_el1 0;;
      set_tf p tf_spsr_el1 0;;
      set_tf p tf_sp_el0 PGSIZE;;
      set_tf p (tf_x 30) 0;;
      on_sys (upd_proc p (with_state RUNNABLE));;
      on_sys (upd_proc p (with_sz PGSIZE));;
      mret p
  end.
Definition current_cwd : M KS Z := p ← on_sys (current me); x ← on_sys (get_proc p); mret (p_cwd x).
Definition spawn_init_process : M KS unit :=
  p ← spawn_code icode initproc_name;
  on_sys (modify (set_initproc (Some p)));;
  ctx ← begin_op;
  cwd ← current_cwd;
  ip ← on_tree (namei sb cpuid console_read stack16 cwd [slash] ctx);
  on_sys (upd_proc p (with_cwd ip));;
  end_op ctx.
Definition spawn_init_process_sd : M KS unit := spawn_code ispin sdproc_name;; mret ().
Fixpoint add_loop_test (times : nat) : M KS unit :=
  match times with
  | O => mret ()
  | S times' => spawn_code loop_code initproc_name;; add_loop_test times'
  end.

Definition forkret : M KS unit :=
  modify (λ s, set_k_procnum (i32 (k_procnum s + 1)) s);;
  x ← gets k_procnum;
  on_sys (release_sched_lock me);;
  if x =? 2 then on_ft init_filesystem;; spawn_init_process else mret ().

(** The loop of [exit] over the file descriptors. *)
Fixpoint close_files (n fd : nat) (p : pptr) : M KS unit :=
  match n with
  | O => mret ()
  | S n' =>
      x ← on_sys (get_proc p);
      o ← derefM (p_ofile x !! fd);
      (match o with
       | Some f =>
           on_ft (fileclose sb cpuid f);;
           on_sys (upd_proc p (λ x, with_ofile (<[fd := None]> (p_ofile x)) x))
       | None => mret ()
       end);;
      close_files n' (S fd) p
  end.
(** [exit] up to [swtch]. *)
Definition exit : M KS unit :=
  p ← on_sys (current me);
  ip ← on_sys (gets sy_initproc);
  (if decide (ip = Some p) then panic "exit INITPROC" else mret ());;
  close_files (Z.to_nat NOFILE) 0 p;;
  ctx ← begin_op;
  x ← on_sys (get_proc p);
  on_tree (inode_put sb cpuid ctx (p_cwd x));;
  end_op ctx;;
  on_sys (upd_proc p (with_cwd 0));;
  on_sys (exit_sched me).

(** The result of [uvm_alloc] and [uvm_dealloc] is an [int] that is stored in a [usize]. *)
Definition growproc (n : Z) : M KS Z :=
  p ← on_sys (current me);
  x ← on_sys (get_proc p);
  let sz := p_sz x in
  if 0 <? n then
    r ← on_mem (my_uvm_alloc kend cpuid (p_pgdir x) (p_base x) (p_stksz x) sz (u64 (sz + n)));
    if u64 r =? 0 then mret (-1)
    else on_sys (upd_proc p (with_sz (u64 r)));; mret 0
  else if n <? 0 then
    r ← on_mem (my_uvm_dealloc kend cpuid (p_pgdir x) (p_base x) sz (u64 (sz + n)));
    on_sys (upd_proc p (with_sz (u64 r)));; mret 0
  else on_sys (upd_proc p (with_sz sz));; mret 0.

(** [*(np->tf) = *(p->tf)], from word [k] on. *)
Fixpoint copy_tf (n k : nat) (dst src : Z) : M KS unit :=
  match n with
  | O => mret ()
  | S n' => w ← load_word src k; store_word dst k w;; copy_tf n' (S k) dst src
  end.
(** The loop of [fork] over the file descriptors. *)
Fixpoint dup_files (n i : nat) (p np : pptr) : M KS unit :=
  match n with
  | O => mret ()
  | S n' =>
      x ← on_sys (get_proc p);
      o ← derefM (p_ofile x !! i);
      (match o with
       | Some f =>
           f' ← on_ft (filedup cpuid f);
           on_sys (upd_proc np (λ y, with_ofile (<[i := Some f']> (p_ofile y)) y))
       | None => mret ()
       end);;
      dup_files n' (S i) p np
  end.
(** The rest of [fork] once the child [np] has its memory; [x] is the entry of the caller. *)
Definition fork_child (p np : pptr) (x : Proc) : M KS Z :=
  on_sys (upd_proc np (with_sz (p_sz x)));;
  y ← on_sys (get_proc np);
  copy_tf (length Trapframe) 0 (p_tf y) (p_tf x);;
  set_tf np (tf_x 0) 0;;
  on_sys (upd_proc np (with_parent (Some p)));;
  dup_files (Z.to_nat NOFILE) 0 p np;;
  set_name np (p_name x);;
  cwd ← on_tree (inode_share cpuid (p_cwd x));
  on_sys (upd_proc np (with_cwd cwd));;
  on_sys (upd_proc np (with_state RUNNABLE));;
  y ← on_sys (get_proc np);
  mret (p_pid y).
(** [fuel] bounds the loop of [uvm_copy] and exceeds the number of pages of the process. *)
Definition fork (fuel : nat) : M KS Z :=
  p ← on_sys (current me);
  np ← alloc_proc;
  match np with
  | None => mret (-1)
  | Some np =>
      x ← on_sys (get_proc p);
      npg ← on_mem (my_uvm_copy cpuid fuel (p_pgdir x));
      on_sys (upd_proc np (with_pgdir npg));;
      if npg =? NULL then
        y ← on_sys (get_proc np);
        on_mem (kfree kend cpuid (u64 (p_kstack y - KSTACKSIZE)));;
        on_sys (upd_proc np (with_kstack 0));;
        on_sys (upd_proc np (with_state UNUSED));;
        mret (-1)
      else fork_child p np x
  end.

(** The body of the loop of [wait], with the lock held: [None] when the process goes
    to sleep ([sleep(tp, lk)] up to [swtch]). *)
Definition wait_body (tp : pptr) : M KS (option Z) :=
  w ← on_sys (wait_pass me tp);
  match w with
  | Reaped pid pgdir kstack =>
      on_mem (my_vm_free kend cpuid pgdir);;
      on_mem (kfree kend cpuid (u64 (kstack - KSTACKSIZE)));;
      on_sys (release_sched_lock me);;
      mret (Some pid)
  | NoChild => mret (Some (-1))
  | MustSleep => on_sys (sleep_park me (proc_chan tp));; mret None
  end.
Definition wait : M KS (option Z) :=
  tp ← on_sys (current me);
  on_sys (acquire_sched_lock me);;
  wait_body tp.
(** [wait] when the process is resumed. *)
Definition wait_resume (tp : pptr) : M KS (option Z) :=
  on_sys (sleep_resume me tp None);;
  wait_body tp.

(** ** container.c *)
Definition zero_container : Container :=
  mkContainer None false (replicate (Z.to_nat NCPU) 0) (replicate (Z.to_nat NPROC) zero_proc) (mkSpinLock false None "") 0 0
    (mkSpinLock false None "") 0 (replicate (Z.to_nat NPID) (mkPidMap false 0 None)).
Definition with_context i x (c : Container) : Container := mkContainer (c_p c) (c_op c) (<[i := x]> (c_context c)) (c_proc c) (c_ptlock c) (c_pid c) (c_sparent c) (Sched.c_lock c) (c_parent c) (c_pmap c).
Definition with_cp x (c : Container) : Container := mkContainer x (c_op c) (c_context c) (c_proc c) (c_ptlock c) (c_pid c) (c_sparent c) (Sched.c_lock c) (c_parent c) (c_pmap c).
Definition with_links op sparent parent (c : Container) : Container := mkContainer (c_p c) op (c_context c) (c_proc c) (c_ptlock c) (c_pid c) sparent (Sched.c_lock c) parent (c_pmap c).

(** The contexts of the scheduler threads of a new container. *)
Fixpoint alloc_contexts (n i c : nat) : M KS unit :=
  match n with
  | O => mret ()
  | S n' =>
      pg ← on_mem (kalloc cpuid);
      (if pg =? NULL then panic "kalloc error" else mret ());;
      let sp := pg + PGSIZE - sizeof_context in
      on_sys (upd_cont c (with_context i sp));;
      store_word sp ctx_r30 container_entry_addr;;
      alloc_contexts n' (S i) c
  end.
(** An object of the arena comes from a page that [kalloc] cleared, and containers
    are never freed, so a new container is all zeros. *)
Definition alloc_container (root : bool) : M KS (option nat) :=
  on_pool op_alloc;;
  c ← gets (λ s, length (sy_conts (k_sys s)));
  on_sys (modify (λ s, set_conts (sy_conts s ++ [with_clock (init_spinlock "container") zero_container]) s));;
  if root then mret (Some c)
  else
    p ← on_sys (alloc_pcb me);
    on_sys (upd_cont c (with_cp p));;
    match p with
    | None => mret None
    | Some p =>
        on_sys (upd_proc p (with_state EMBRYO));;
        on_sys (upd_proc p (with_scheduler c));;
        alloc_contexts (Z.to_nat NCPU) 0 c;;
        mret (Some c)
    end.
Definition init_container : M KS unit :=
  on_pool (op_init sizeof_container);;
  c ← alloc_container true;
  c ← derefM c;
  on_sys (upd_cont c (with_links true c c));;
  on_sys (init_sched_simple c).
(** The function ends without a [return]: its value is not defined. *)
Definition spawn_container (this : nat) : M KS unit :=
  c ← alloc_container false;
  match c with
  | None => panic "Failed alloc container"
  | Some c =>
      on_sys (upd_cont c (with_links true this this));;
      on_sys (init_sched_simple c);;
      C ← on_sys (get_cont c);
      p ← derefM (c_p C);
      set_name p container_name;;
      T ← on_sys (get_cont this);
      on_sys (upd_proc p (with_parent (c_p T)));;
      on_sys (upd_proc p (with_state RUNNABLE))
  end.
End proc.
