(* ===== verification/ProcSpec.v ===== *)
(** * What the process operations do (core/proc.c)

    Theorems about Proc.v: reaping a child in [wait], and [fork]. *)
From S2P Require Import Prelude Locks PhysMem VirtMem UserMem VmFree Cache Inode InodeIO File Sched SchedMachine Proc.

Section spec.
Context {C A K P : Type} {BC : BlockCache C} {TX : Transactions C} {OP : ObjectPool A}.
Context (kend : Z) (me : nat) (Hkend : KSPACE_MASK ≤ kend).
Abbreviation KS := (Kernel C A K P).
Abbreviation cpuid := (Z.of_nat me).
Implicit Types (s : KS) (sy : Sys) (p tp : pptr) (x : Proc) (free : list Z).

Lemma kernel_eta s : set_k_sys (k_sys s) s = s.
Proof. by destruct s. Qed.

(** The step of a computation on one part of the kernel. *)
Lemma on_sys_Ok {X} (m : M Sys X) s a sy' : m (k_sys s) = Ok a sy' → on_sys m s = Ok a (set_k_sys sy' s).
Proof. apply zoom_Ok. Qed.
Lemma on_sys_get {X} (m : M Sys X) s a : m (k_sys s) = Ok a (k_sys s) → on_sys m s = Ok a s.
Proof. intros E. rewrite (on_sys_Ok m s a _ E). by rewrite kernel_eta. Qed.
Lemma on_mem_Ok {X} (m : M PMemory X) s a mm : m (k_mem s) = Ok a mm → on_mem m s = Ok a (set_k_mem mm s).
Proof. apply zoom_Ok. Qed.

(** The memory of a dead process: its page table with everything below, and its
    kernel stack. *)
Definition stack_page x : Z := u64 (p_kstack x - KSTACKSIZE).
Record reapable (mm : PMemory) free x : Prop := {
  rp_nodup : NoDup (stack_page x :: under (pm_mem mm) 3 (p_pgdir x));
  rp_pages : Forall (tree_page kend (pm_mem mm)) (stack_page x :: under (pm_mem mm) 3 (p_pgdir x));
  rp_free : ∀ y, y ∈ stack_page x :: under (pm_mem mm) 3 (p_pgdir x) → y ∉ free
}.

Lemma free_proc_memory mm free x : pm_inv kend mm free → locked (pm_lock mm) = false → reapable mm free x →
  ∃ m1 m2, my_vm_free kend cpuid (p_pgdir x) mm = Ok () m1 ∧ kfree kend cpuid (stack_page x) m1 = Ok () m2 ∧
    ∃ l, gives_back (pm_mem mm) (p_pgdir x) l ∧ pm_inv kend m2 (stack_page x :: l ++ free) ∧ locked (pm_lock m2) = false ∧
    ∀ y, y ≠ stack_page x → y ∉ l → pm_mem m2 !! y = pm_mem mm !! y.
Proof.
  intros Hpm Hl [R1 R2 R3]. apply NoDup_cons in R1 as [Hst Hnd]. apply Forall_cons in R2 as [[He (pg & Epg & _)] Htp].
  destruct (vm_free_r_Ok kend cpuid Hkend (pm_mem mm) 3 (p_pgdir x) mm free Hpm Hl Hnd Htp) as (m1 & E1 & H1 & H2 & H3).
  { intros y Hy. split; [|done]. apply R3, elem_of_cons. by right. }
  assert (stack_page x ∉ freed_pages (pm_mem mm) 3 (p_pgdir x)) as Hsf by (intros ?%(freed_under kend Hkend); done).
  destruct (free_kernel_page kend _ Hkend He) as [_ H0].
  destruct (kfree_Ok kend cpuid m1 (stack_page x) (reverse (freed_pages (pm_mem mm) 3 (p_pgdir x)) ++ free) pg) as (m2 & E2 & H4 & H5 & H6); try done.
  { rewrite elem_of_app, elem_of_reverse. intros [?|Hf]; [done|]. revert Hf. apply R3, elem_of_cons. by left. }
  { by rewrite H3. }
  exists m1, m2. split_and!; try done. exists (reverse (freed_pages (pm_mem mm) 3 (p_pgdir x))). split_and!; try done; [by apply (freed_gives_back kend Hkend)|].
  intros y Hy1 Hy2. rewrite H6, lookup_insert_ne, H3; [done| |done]. by rewrite <- elem_of_reverse.
Qed.

Lemma sleep_park_Ok sy c l u tp t chan : in_sched me sy c → ptl sy c = Some l → locked l = true → cpu sy me = Some u → cpu_proc u = Some tp →
  lookup_proc sy tp = Some t → sleep_park me chan sy = Ok () (alter_proc tp (λ x, with_state SLEEPING (with_chan chan x)) sy).
Proof.
  intros Hs El Hl Eu Ep Et. unfold sleep_park. erewrite bind_Ok by (by eapply current_Ok). erewrite bind_Ok by (by eapply upd_proc_Ok).
  eapply sched_Ok; [by apply in_sched_alter|by rewrite ptl_alter|done|done|done|by rewrite lookup_proc_alter, decide_True, Et|done].
Qed.

(** C10. [wait]. When a child of the process is dead, one such child is reaped: its entry
    becomes unused, its kernel stack, its user pages and its page tables above the last
    level are back in the free list, no other memory changes, and its pid is returned. When
    the process has no children, or was killed, the result is -1. Otherwise the process is
    SLEEPING on its own channel, holding the lock of the table, which it gives up in the
    scheduler. No other entry changes. *)
Theorem wait_correct s c l u tp t free :
  in_sched me (k_sys s) c → table_full (k_sys s) c → ptl (k_sys s) c = Some l → locked l = false →
  cpu (k_sys s) me = Some u → cpu_proc u = Some tp → lookup_proc (k_sys s) tp = Some t → p_state t = RUNNING →
  pm_inv kend (k_mem s) free → locked (pm_lock (k_mem s)) = false →
  (∀ k x, lookup_proc (k_sys s) (c, k) = Some x → p_parent x = Some tp → p_state x = ZOMBIE → reapable (k_mem s) free x) →
  (∃ k x sy' m', lookup_proc (k_sys s) (c, k) = Some x ∧ p_parent x = Some tp ∧ p_state x = ZOMBIE ∧
     wait kend me s = Ok (Some (p_pid x)) (set_k_sys sy' (set_k_mem m' s)) ∧
     (∀ q, lookup_proc sy' q = if decide (q = (c, k)) then Some (reap x) else lookup_proc (k_sys s) q) ∧
     ptl sy' c = Some (freed l) ∧
     (∃ l, gives_back (pm_mem (k_mem s)) (p_pgdir x) l ∧ pm_inv kend m' (stack_page x :: l ++ free)) ∧
     (∀ y, y ∉ stack_page x :: under (pm_mem (k_mem s)) 3 (p_pgdir x) → pm_mem m' !! y = pm_mem (k_mem s) !! y)) ∨
  (∀ k x, lookup_proc (k_sys s) (c, k) = Some x → p_parent x = Some tp → p_state x ≠ ZOMBIE) ∧
  ((p_killed t ≠ 0 ∨ ∀ k x, lookup_proc (k_sys s) (c, k) = Some x → p_parent x ≠ Some tp) ∧
     wait kend me s = Ok (Some (-1)) (set_k_sys (set_ptl c (freed l) (k_sys s)) s) ∨
   p_killed t = 0 ∧ (∃ k x, lookup_proc (k_sys s) (c, k) = Some x ∧ p_parent x = Some tp) ∧
     wait kend me s = Ok None (set_k_sys (alter_proc tp (λ x, with_state SLEEPING (with_chan (proc_chan tp) x)) (set_ptl c (held me l) (k_sys s))) s)).
Proof.
  intros Hs Ht El Hl Eu Ep Et Hst Hpm Hpl Hreap. unfold wait.
  erewrite bind_Ok by (apply on_sys_get; by eapply current_Ok).
  erewrite bind_Ok by (apply on_sys_Ok; by apply acquire_sched_free).
  set (sy1 := set_ptl c (held me l) (k_sys s)).
  assert (∀ q, lookup_proc sy1 q = lookup_proc (k_sys s) q) as Hlk by (intros q; apply lookup_proc_ptl).
  assert (in_sched me sy1 c) as Hs1 by (by apply in_sched_ptl).
  assert (table_full sy1 c) as Ht1 by (destruct Ht as (h & ? & ?); exists h; unfold sy1; by rewrite stat_ptl).
  assert (ptl sy1 c = Some (held me l)) as El1 by (unfold sy1; by rewrite ptl_set, decide_True, El).
  unfold wait_body.
  destruct (wait_pass_spec me sy1 c (held me l) tp t) as [(k & x & Ex & Hpx & Hx & E)|(Hz & [(Hno & E)|(Hk & Hkid & E)])]; try done; try (by rewrite Hlk).
  - left. rewrite Hlk in Ex. destruct (free_proc_memory (k_mem s) free x Hpm Hpl) as (m1 & m2 & E1 & E2 & fl & Hgb & Hpm2 & _ & Hag); [by eapply Hreap|].
    exists k, x, (set_ptl c (freed (held me l)) (alter_proc (c, k) reap sy1)), m2. split_and!; try done.
    + erewrite bind_Ok by (apply on_sys_Ok; exact E). cbv beta iota.
      erewrite bind_Ok by (apply on_mem_Ok; exact E1). erewrite bind_Ok by (apply on_mem_Ok; exact E2).
      erewrite bind_Ok by (apply on_sys_Ok, (release_sched_Ok me _ c (held me l)); [by apply in_sched_alter|cbn; by rewrite ptl_alter|done]).
      by destruct s.
    + intros q. rewrite lookup_proc_ptl, lookup_proc_alter, Hlk. case_decide; [subst q; by rewrite Ex|done].
    + rewrite ptl_set, decide_True by done. cbn. by rewrite ptl_alter, El1.
    + by exists fl.
    + intros y [Hy1 Hy2]%not_elem_of_cons. apply Hag; [done|]. intros Hy. by apply Hy2, (gb_only _ _ _ Hgb).
  - right. split; [intros k x; rewrite <- Hlk; apply Hz|]. left. split.
    + destruct Hno as [?|Hno]; [by left|right]. intros k x. rewrite <- Hlk. apply Hno.
    + erewrite bind_Ok by (apply on_sys_Ok; exact E). unfold sy1. rewrite set_ptl_set_ptl. by destruct s.
  - right. split; [intros k x; rewrite <- Hlk; apply Hz|]. right. split; [done|]. split.
    { destruct Hkid as (k & x & Ex & Hx). exists k, x. by rewrite <- Hlk. }
    erewrite bind_Ok by (apply on_sys_Ok; exact E). cbv beta iota.
    erewrite bind_Ok by (apply on_sys_Ok; apply (sleep_park_Ok sy1 c (held me l) u tp t); try done; by rewrite Hlk). by destruct s.
Qed.

(** ** The parts of [fork] *)
Lemma filedup_Ok (ft : FTable C A K) f (x : File) : locked (ft_lock ft) = false → ft_file ft !! Z.to_nat f = Some x → 1 ≤ f_ref x → f_ref x + 1 < 2 ^ 31 →
  ∃ ft', filedup cpuid f ft = Ok f ft' ∧ locked (ft_lock ft') = false ∧ ft_tree ft' = ft_tree ft ∧
    ft_file ft' = <[Z.to_nat f := with_f_ref (f_ref x + 1) x]> (ft_file ft).
Proof.
  intros Hl Ex H1 H2. eexists. split.
  - unfold filedup. erewrite bind_Ok by (by apply ftable_lock_Ok). erewrite bind_Ok by (by apply get_file_Ok).
    rewrite (proj2 (Z.ltb_ge _ _) H1). erewrite bind_Ok by done. erewrite bind_Ok by (by apply upd_file_Ok).
    by erewrite bind_Ok by (by apply ftable_unlock_Ok).
  - split_and!; try done. simpl. do 2 f_equal. unfold i32, swrap. rewrite Z.mod_small; lia.
Qed.

Lemma inode_share_Ok (t : ITree C A K) ip i : locked (t_lock t) = false → t_inodes t !! ip = Some i →
  ∃ t', inode_share cpuid ip t = Ok ip t' ∧ locked (t_lock t') = false ∧ t_cache t' = t_cache t ∧
    t_inodes t' = <[ip := with_i_rc (increment_rc (i_rc i)) i]> (t_inodes t).
Proof.
  intros Hl Ei. eexists. split.
  - unfold inode_share. erewrite bind_Ok by (apply zoom_Ok; by apply acquire_spinlock_free).
    erewrite bind_Ok.
    2:{ unfold upd_inode. erewrite bind_Ok; [done|]. unfold get_inode. erewrite bind_Ok by done. simpl. by rewrite Ei. }
    by erewrite bind_Ok by (apply zoom_Ok; by apply release_spinlock_held).
  - done.
Qed.

(** How often file [k] is open. *)
Definition opens (l : list (option Z)) (k : nat) : Z := Z.of_nat (length (filter (λ o, o = Some (Z.of_nat k)) l)).
Lemma opens_cons o l k : opens (o :: l) k = (if decide (o = Some (Z.of_nat k)) then 1 else 0) + opens l k.
Proof. unfold opens. rewrite filter_cons. case_decide; simpl; lia. Qed.

(** The open files of a process are valid, and [n] more references to each fit. *)
Definition files_ok (ft : FTable C A K) (l : list (option Z)) (n : Z) : Prop :=
  ∀ f, Some f ∈ l → 0 ≤ f ∧ ∃ z, ft_file ft !! Z.to_nat f = Some z ∧ 1 ≤ f_ref z ∧ f_ref z + n < 2 ^ 31.

Lemma dup_files_Ok p np x : p ≠ np → ∀ l i s y,
  drop i (p_ofile x) = l → lookup_proc (k_sys s) p = Some x → lookup_proc (k_sys s) np = Some y → (i + length l ≤ length (p_ofile y))%nat →
  locked (ft_lock (k_ft s)) = false → files_ok (k_ft s) l (Z.of_nat (length l)) →
  ∃ sy' ft' of', dup_files me (length l) i p np s = Ok () (set_k_sys sy' (set_k_ft ft' s)) ∧
    (∀ q, lookup_proc sy' q = if decide (q = np) then Some (with_ofile of' y) else lookup_proc (k_sys s) q) ∧
    sy_cpus sy' = sy_cpus (k_sys s) ∧ (∀ c, ptl sy' c = ptl (k_sys s) c) ∧
    (length of' = length (p_ofile y)) ∧
    (∀ j, of' !! j = match l !! (j - i)%nat with Some (Some f) => if decide (i ≤ j)%nat then Some (Some f) else p_ofile y !! j | _ => p_ofile y !! j end) ∧
    locked (ft_lock ft') = false ∧ ft_tree ft' = ft_tree (k_ft s) ∧
    ∀ k, ft_file ft' !! k = (λ z, with_f_ref (f_ref z + opens l k) z) <$> ft_file (k_ft s) !! k.
Proof.
  intros Hne. induction l as [|o l IH]; intros i s y Hd Ex Ey Hlen Hl Hf; cbn [length dup_files].
  { exists (k_sys s), (k_ft s), (p_ofile y). split_and!; try done.
    - by destruct s.
    - intros q. case_decide; [subst q; rewrite Ey; by destruct y|done].
    - intros k. unfold opens. simpl. destruct (ft_file (k_ft s) !! k) as [[]|]; simpl; [|done]. by rewrite Z.add_0_r. }
  assert (p_ofile x !! i = Some o) as Eo by (rewrite <- (Nat.add_0_r i), <- lookup_drop, Hd; done).
  assert (drop (S i) (p_ofile x) = l) as Hd' by (rewrite <- Nat.add_1_r, <- drop_drop, Hd; done). cbn [length] in Hlen, Hf.
  erewrite bind_Ok by (apply on_sys_get; by apply get_proc_Ok). rewrite Eo. erewrite bind_Ok by done.
  destruct o as [f|].
  2:{ cbn beta iota. erewrite bind_Ok by done. destruct (IH (S i) s y) as (sy' & ft' & of' & E & H1 & H2 & H3 & H4 & H5 & H6 & H7 & H8); try done; [lia| |].
      { intros f Hfl. destruct (Hf f) as (? & z & ? & ? & ?); [by apply elem_of_cons; right|]. split; [done|]. exists z. split_and!; try done. lia. }
      exists sy', ft', of'. split_and!; try done.
      - intros j. rewrite H5. destruct (decide (j = i)) as [->|].
        + replace (i - i)%nat with 0%nat by lia. replace (i - S i)%nat with 0%nat by lia. simpl. destruct l as [|[g|] l']; try done. simpl. by rewrite decide_False by lia.
        + destruct (decide (i ≤ j)%nat).
          * replace (j - i)%nat with (S (j - S i)) by lia. simpl. destruct (l !! (j - S i)%nat) as [[g|]|]; try done. by rewrite !decide_True by lia.
          * destruct (l !! (j - S i)%nat) as [[g|]|]; rewrite ?decide_False by lia; by destruct (_ !! (j - i)%nat) as [[]|]. }
  destruct (Hf f) as (Hf0 & z & Ez & Hz1 & Hz2); [by apply elem_of_cons; left|].
  destruct (filedup_Ok (k_ft s) f z Hl Ez Hz1 ltac:(lia)) as (ft1 & E1 & Hl1 & Ht1 & Hf1).
  set (g := λ y, with_ofile (<[i := Some f]> (p_ofile y)) y).
  assert (((f' ← on_ft (filedup cpuid f); on_sys (upd_proc np (λ y, with_ofile (<[i := Some f']> (p_ofile y)) y))) : M KS unit) s =
    Ok () (set_k_sys (alter_proc np g (k_sys s)) (set_k_ft ft1 s))) as E2.
  { erewrite bind_Ok by (apply zoom_Ok; exact E1). apply on_sys_Ok. by eapply upd_proc_Ok. }
  cbv beta iota. erewrite bind_Ok by exact E2. clear E2.
  destruct (IH (S i) (set_k_sys (alter_proc np g (k_sys s)) (set_k_ft ft1 s)) (g y)) as (sy' & ft' & of' & E & H1 & H2 & H3 & H4 & H5 & H6 & H7 & H8); try done.
  { cbn. by rewrite lookup_proc_alter, decide_False. }
  { cbn. by rewrite lookup_proc_alter, decide_True, Ey. }
  { unfold g. cbn. rewrite length_insert. lia. }
  { intros f' Hfl. destruct (Hf f') as (? & z' & Ez' & ? & ?); [by apply elem_of_cons; right|]. split; [done|]. cbn. rewrite Hf1.
    destruct (decide (Z.to_nat f' = Z.to_nat f)) as [Ef|Ef].
    - rewrite Ef, list_lookup_insert_eq by (by eapply lookup_lt_Some). eexists. split; [done|]. cbn. lia.
    - rewrite list_lookup_insert_ne by done. exists z'. split_and!; try done. lia. }
  exists sy', ft', of'. split_and!; try done.
  - intros q. rewrite H1. cbn. case_decide; [done|]. by rewrite lookup_proc_alter, decide_False.
  - intros c. rewrite H3. cbn. by rewrite ptl_alter.
  - rewrite H4. unfold g. cbn. by rewrite length_insert.
  - intros j. rewrite H5. unfold g. cbn [p_ofile with_ofile]. destruct (decide (j = i)) as [->|].
    + replace (i - i)%nat with 0%nat by lia. replace (i - S i)%nat with 0%nat by lia. rewrite list_lookup_insert_eq by lia.
      simpl. rewrite decide_True by done. destruct l as [|[h|] l']; try done. simpl. by rewrite decide_False by lia.
    + rewrite list_lookup_insert_ne by done. destruct (decide (i ≤ j)%nat).
      * replace (j - i)%nat with (S (j - S i)) by lia. simpl. destruct (l !! (j - S i)%nat) as [[h|]|]; try done. by rewrite !decide_True by lia.
      * replace (j - i)%nat with 0%nat by lia. cbn [lookup list_lookup]. destruct (decide (i ≤ j)%nat) as [|_]; [lia|]. destruct (l !! (j - S i)%nat) as [[h|]|]; try done. by rewrite decide_False by lia.
  - by rewrite H7.
  - intros k. rewrite H8. cbn. rewrite Hf1, opens_cons. destruct (decide (k = Z.to_nat f)) as [->|Hk].
    + rewrite list_lookup_insert_eq by (by eapply lookup_lt_Some). rewrite Ez. simpl. rewrite decide_True by (f_equal; lia). f_equal. unfold with_f_ref. cbn. f_equal. lia.
    + rewrite list_lookup_insert_ne by done. rewrite decide_False; [done|]. intros [= Hk']. lia.
Qed.
(** *** The trap frame at the top of the kernel stack *)
Definition tf_off : Z := PGSIZE - sizeof_Trapframe.
Definition tf_idx : nat := Z.to_nat (tf_off / 8).

Lemma page_offset (p a : Z) : kernel_page p → 0 ≤ a < 4096 → ROUNDDOWN (p + a) PGSIZE = p ∧ (p + a) mod PGSIZE = a.
Proof.
  intros [Hm Hr] Ha. unfold KSPACE_MASK, PGSIZE in *. pose proof (Z.div_mod p 4096 ltac:(lia)).
  assert ((p + a) / 4096 = p / 4096) as Hd by (symmetry; apply (Z.div_unique _ 4096 _ a); lia).
  rewrite ROUNDDOWN_eq by lia. rewrite Hd. split; [lia|]. symmetry. apply (Z.mod_unique _ 4096 (p / 4096)); lia.
Qed.

Lemma tf_word (p : Z) k : kernel_page p → word_of (p + tf_off) k = (p, (tf_idx + k)%nat).
Proof. intros Hp. unfold word_of. destruct (page_offset p tf_off Hp) as [-> ->]; [by vm_compute|]. done. Qed.

(** Assigning and reading a word of a trap frame. *)
Lemma load_word_Ok s (p : Z) k pg w : kernel_page p → pm_mem (k_mem s) !! p = Some pg → pg !! (tf_idx + k)%nat = Some w →
  load_word (p + tf_off) k s = Ok w s.
Proof.
  intros Hp Ep Ew. unfold load_word. rewrite tf_word by done. unfold on_mem, zoom. cbn [fst snd]. rewrite (read_word_Ok _ _ _ _ _ Ep Ew). by destruct s.
Qed.
Lemma store_word_Ok s (p : Z) k pg w : kernel_page p → pm_mem (k_mem s) !! p = Some pg → (tf_idx + k < length pg)%nat →
  store_word (p + tf_off) k w s = Ok () (set_k_mem (set_pm_mem (<[p := <[(tf_idx + k)%nat := w]> pg]> (pm_mem (k_mem s))) (k_mem s)) s).
Proof. intros Hp Ep Hk. unfold store_word. rewrite tf_word by done. apply on_mem_Ok. by apply write_word_Ok. Qed.

Lemma copy_tf_Ok dst src pgs : kernel_page dst → kernel_page src → dst ≠ src → length pgs = 512%nat → ∀ n k s pgd,
  pm_mem (k_mem s) !! src = Some pgs → pm_mem (k_mem s) !! dst = Some pgd → length pgd = 512%nat → (tf_idx + k + n ≤ 512)%nat →
  ∃ pg, copy_tf n k (dst + tf_off) (src + tf_off) s = Ok () (set_k_mem (set_pm_mem (<[dst := pg]> (pm_mem (k_mem s))) (k_mem s)) s) ∧ length pg = 512%nat ∧
    ∀ j, pg !! j = if decide (tf_idx + k ≤ j < tf_idx + k + n)%nat then pgs !! j else pgd !! j.
Proof.
  intros Hd Hs Hne Hl. induction n as [|n IH]; intros k s pgd Es Ed Hld Hk; cbn [copy_tf].
  { exists pgd. split_and!; [|done|intros j; by rewrite decide_False by lia]. rewrite insert_id by done. by destruct s as [? []]. }
  destruct (lookup_lt_is_Some_2 pgs (tf_idx + k)) as [w Ew]; [lia|].
  erewrite bind_Ok by (by eapply load_word_Ok). erewrite bind_Ok by (eapply store_word_Ok; [done|done|lia]).
  destruct (IH (S k) (set_k_mem (set_pm_mem (<[dst := <[(tf_idx + k)%nat := w]> pgd]> (pm_mem (k_mem s))) (k_mem s)) s) (<[(tf_idx + k)%nat := w]> pgd))
    as (pg & E & Hlp & Hp).
  - cbn. by rewrite lookup_insert_ne.
  - cbn. by rewrite lookup_insert_eq.
  - by rewrite length_insert.
  - lia.
  - exists pg. split_and!; [|done|].
    + rewrite E. cbn. by rewrite insert_insert_eq.
    + intros j. rewrite Hp. destruct (decide (j = tf_idx + k)%nat) as [->|].
      * rewrite decide_False, decide_True, list_lookup_insert_eq by lia. done.
      * rewrite list_lookup_insert_ne by done. repeat case_decide; try lia; done.
Qed.

(** [alloc_proc] when the table has room: the first unused slot [k] gets a pid, a
    kernel stack and the frames on it. *)
Definition new_proc (pid stp : Z) x : Proc :=
  with_frames (stp + tf_off) (stp + tf_off - sizeof_context) (with_kstack (stp + KSTACKSIZE) (with_state EMBRYO (with_pid pid x))).
Lemma alloc_proc_Ok initenter s c l u stp free :
  in_sched me (k_sys s) c → table_full (k_sys s) c → ptl (k_sys s) c = Some l → locked l = false → pids_free (k_sys s) c →
  cpu (k_sys s) me = Some u → (∃ k x, lookup_proc (k_sys s) (c, k) = Some x ∧ p_state x = UNUSED) →
  pm_inv kend (k_mem s) (stp :: free) → locked (pm_lock (k_mem s)) = false →
  ∃ k x pid sy' m', alloc_proc me initenter s = Ok (Some (c, k)) (set_k_sys sy' (set_k_mem m' s)) ∧
    lookup_proc (k_sys s) (c, k) = Some x ∧ p_state x = UNUSED ∧
    (∀ k' y, (k' < k)%nat → lookup_proc (k_sys s) (c, k') = Some y → p_state y ≠ UNUSED) ∧
    (∀ q, lookup_proc sy' q = if decide (q = (c, k)) then Some (new_proc pid stp x) else lookup_proc (k_sys s) q) ∧
    sy_cpus sy' = sy_cpus (k_sys s) ∧ ptl sy' c = Some (freed l) ∧
    pm_inv kend m' free ∧ locked (pm_lock m') = false ∧ kernel_page stp ∧ stp ≠ NULL ∧ stp ∉ free ∧
    (∃ pg, pm_mem m' !! stp = Some pg ∧ length pg = 512%nat) ∧ ∀ y, y ≠ stp → pm_mem m' !! y = pm_mem (k_mem s) !! y.
Proof.
  intros Hs Ht El Hl Hpf Eu (k0 & x0 & Ex0 & Hx0) Hpm Hpl.
  destruct (alloc_pcb_spec me (k_sys s) c l u Hs Ht El Hl Hpf Eu) as [(k & x & pid & sy1 & Ex & Hx & Hlt & E1 & Hev & Hall)|[Hno _]].
  2:{ by destruct (Hno k0 x0 Ex0). }
  destruct (kalloc_Ok kend cpuid (k_mem s) stp free Hpm Hpl) as (m1 & E2 & Hpm1 & Hpl1 & Em1).
  pose proof (pi_nodup _ _ _ Hpm) as [Hnew _]%NoDup_cons. pose proof (pi_ok _ _ _ Hpm) as [Hok _]%Forall_cons.
  destruct (free_kernel_page kend stp Hkend Hok) as [Hk H0].
  assert (∀ f sy y, lookup_proc sy (c, k) = Some y → ∀ q, lookup_proc (alter_proc (c, k) f sy) q = if decide (q = (c, k)) then Some (f y) else lookup_proc sy q) as Hup.
  { intros f sy y Ey q. rewrite lookup_proc_alter. case_decide; [subst; by rewrite Ey|done]. }
  pose proof (Hall (c, k)) as Ek. rewrite decide_True in Ek by done.
  set (sy2 := alter_proc (c, k) (with_state EMBRYO) sy1). pose proof (Hup (with_state EMBRYO) sy1 _ Ek) as L2. fold sy2 in L2.
  set (sy3 := alter_proc (c, k) (with_kstack (stp + KSTACKSIZE)) sy2).
  pose proof (Hup (with_kstack (stp + KSTACKSIZE)) sy2 _ ltac:(by rewrite L2, decide_True)) as L3. fold sy3 in L3.
  set (tf := stp + KSTACKSIZE - sizeof_Trapframe). set (ctx := stp + KSTACKSIZE - sizeof_Trapframe - sizeof_context).
  set (sy4 := alter_proc (c, k) (with_frames tf ctx) sy3).
  pose proof (Hup (with_frames tf ctx) sy3 _ ltac:(by rewrite L3, decide_True)) as L4. fold sy4 in L4.
  assert (word_of ctx ctx_r30 = (stp, 476%nat)) as Ew.
  { unfold word_of. replace ctx with (stp + 3688) by (unfold ctx; vm_compute (KSTACKSIZE); vm_compute (sizeof_Trapframe); vm_compute (sizeof_context); lia).
    destruct (page_offset stp 3688 Hk) as [-> ->]; [lia|]. done. }
  set (m2 := set_pm_mem (<[stp := <[476%nat := initenter]> zero_page]> (pm_mem m1)) m1).
  exists k, x, pid, sy4, m2. split_and!; try done.
  - unfold alloc_proc. erewrite bind_Ok by (apply on_sys_Ok; exact E1). cbv beta iota.
    erewrite bind_Ok by (apply on_sys_Ok; by eapply upd_proc_Ok). erewrite bind_Ok by (apply on_mem_Ok; exact E2).
    rewrite (proj2 (Z.eqb_neq _ _) H0). erewrite bind_Ok by (apply on_sys_Ok; eapply upd_proc_Ok; cbn; by rewrite L2, decide_True).
    cbv zeta. erewrite bind_Ok by (apply on_sys_Ok; eapply upd_proc_Ok; cbn; by rewrite L3, decide_True).
    fold ctx tf. erewrite bind_Ok; [|unfold store_word; rewrite Ew; apply on_mem_Ok, write_word_Ok; [cbn; rewrite Em1; apply lookup_insert_eq|vm_compute; lia]].
    by destruct s.
  - intros q. rewrite L4. case_decide; [|by rewrite L3, decide_False, L2, decide_False, Hall, decide_False].
    f_equal. unfold new_proc, tf, ctx, tf_off. f_equal; unfold PGSIZE, KSTACKSIZE; lia.
  - exact (ev_cpus _ _ Hev).
  - unfold sy4, sy3, sy2. by rewrite !ptl_alter, (ev_ptl _ _ Hev), ptl_set, decide_True, El.
  - destruct Hpm1 as [L1 N1 O1]. split; [|done|done]. cbn. eapply freelist_ext; [exact L1|]. intros y Hy. rewrite lookup_insert_ne; [done|]. by intros ->.
  - eexists. split; [apply lookup_insert_eq|]. by rewrite length_insert.
  - intros y Hy. cbn. by rewrite lookup_insert_ne, Em1, lookup_insert_ne.
Qed.
(** Only the entry [np] changes, to [y]. *)
Record entry_now sy sy' np y : Prop := {
  en_np : lookup_proc sy' np = Some y;
  en_other : ∀ q, q ≠ np → lookup_proc sy' q = lookup_proc sy q;
  en_cpus : sy_cpus sy' = sy_cpus sy;
  en_ptl : ∀ c, ptl sy' c = ptl sy c
}.
Lemma entry_now_trans sy1 sy2 sy3 np y y' : entry_now sy1 sy2 np y → entry_now sy2 sy3 np y' → entry_now sy1 sy3 np y'.
Proof.
  intros [A1 A2 A3 A4] [B1 B2 B3 B4]. split; [done| |by rewrite B3|intros d; by rewrite B4].
  intros q Hq. by rewrite B2, A2.
Qed.

Lemma upd_np s np y f : lookup_proc (k_sys s) np = Some y →
  ∃ sy', on_sys (upd_proc np f) s = Ok () (set_k_sys sy' s) ∧ entry_now (k_sys s) sy' np (f y).
Proof.
  intros Ey. eexists. split; [apply on_sys_Ok; by eapply upd_proc_Ok|]. split; try done.
  - by rewrite lookup_proc_alter, decide_True, Ey.
  - intros q Hq. by rewrite lookup_proc_alter, decide_False.
  - intros d. apply ptl_alter.
Qed.

Record fork_pre s c p x free (n src : Z) (pgs : page) : Prop := {
  fp_sched : in_sched me (k_sys s) c;
  fp_table : table_full (k_sys s) c;
  fp_lock : ∃ l, ptl (k_sys s) c = Some l ∧ locked l = false;
  fp_pids : pids_free (k_sys s) c;
  fp_cpu : ∃ u, cpu (k_sys s) me = Some u ∧ cpu_proc u = Some p;
  fp_proc : lookup_proc (k_sys s) p = Some x;
  fp_used : p_state x ≠ UNUSED;
  fp_room : ∃ k y, lookup_proc (k_sys s) (c, k) = Some y ∧ p_state y = UNUSED;
  fp_ofile : ∀ q y, lookup_proc (k_sys s) q = Some y → length (p_ofile y) = Z.to_nat NOFILE;
  fp_name : strncpy_bytes (p_name x) 16 = Some (p_name x);
  fp_vm : vm_ok kend (k_mem s) (p_pgdir x) free;
  fp_us : uspace (pm_mem (k_mem s)) (p_pgdir x) free;
  fp_n : 0 ≤ n ∧ (n + 1) * 4096 ≤ 2 ^ 48;
  fp_map : ∀ k, 0 ≤ k < n → is_Some (pte_of (pm_mem (k_mem s)) (p_pgdir x) (k * 4096));
  fp_end : ∀ va, n * 4096 ≤ va < 2 ^ 48 → pte_of (pm_mem (k_mem s)) (p_pgdir x) va = None;
  fp_free : (2 + 4 * Z.to_nat n ≤ length free)%nat;
  fp_tf : p_tf x = src + tf_off ∧ kernel_page src ∧ src ∉ free ∧ pm_mem (k_mem s) !! src = Some pgs ∧ length pgs = 512%nat;
  fp_files : locked (ft_lock (k_ft s)) = false ∧ files_ok (k_ft s) (p_ofile x) NOFILE;
  fp_cwd : locked (t_lock (ft_tree (k_ft s))) = false ∧ is_Some (t_inodes (ft_tree (k_ft s)) !! p_cwd x)
}.

(** The memory part of [fork]: the stack page [stp] of the child, its address space
    and its trap frame. *)
Record child_memory (mm mm' : PMemory) (root newroot stp : Z) (pgs : page) free free' : Prop := {
  cm_vm : vm_ok kend mm' newroot free';
  cm_us : uspace (pm_mem mm') newroot free';
  cm_parent : vm_ok kend mm' root free';
  cm_bytes : ∀ va, 0 ≤ va < 2 ^ 48 → ubyte (pm_mem mm') root va = ubyte (pm_mem mm) root va ∧
    ubyte (pm_mem mm') newroot va = ubyte (pm_mem mm) root va;
  cm_frame : ∃ pg, pm_mem mm' !! stp = Some pg ∧ ∀ j, (j < length Trapframe)%nat →
    pg !! (tf_idx + j)%nat = if decide (j = tf_x 0) then Some 0 else pgs !! (tf_idx + j)%nat;
  cm_other : ∀ y, y ∉ free → pm_mem mm' !! y = pm_mem mm !! y;
  cm_tables : ∀ y, is_table (pm_mem mm') newroot y → y ∈ free;
  cm_pages : ∀ va w, 0 ≤ va < 2 ^ 48 → pte_of (pm_mem mm') newroot va = Some w → page_at w ∈ free;
  cm_stack : stp ∈ free;
  cm_own : ∀ va va' w w', 0 ≤ va < 2 ^ 48 → 0 ≤ va' < 2 ^ 48 → pte_of (pm_mem mm') root va = Some w → pte_of (pm_mem mm') newroot va' = Some w' →
    page_at w ≠ page_at w'
}.

(** After [uvm_copy], writing the trap frame leaves the two address spaces alone. *)
Lemma child_memory_intro (m0 m1 m2 : PMemory) root newroot stp pgs pg free free' :
  vm_ok kend m0 root (stp :: free) → uspace (pm_mem m0) root (stp :: free) → stp ∉ free → (∀ y, y ≠ stp → pm_mem m1 !! y = pm_mem m0 !! y) →
  vm_ok kend m2 newroot free' → uspace (pm_mem m2) newroot free' → agree (pm_mem m1) (pm_mem m2) free → free' ⊆ free →
  (∀ y, is_table (pm_mem m2) newroot y → y ∈ free) → (∀ va w, 0 ≤ va < 2 ^ 48 → pte_of (pm_mem m2) newroot va = Some w → page_at w ∈ free) →
  (∀ va, 0 ≤ va < 2 ^ 48 → ubyte (pm_mem m2) newroot va = ubyte (pm_mem m1) root va) →
  (∀ j, (j < length Trapframe)%nat → pg !! (tf_idx + j)%nat = if decide (j = tf_x 0) then Some 0 else pgs !! (tf_idx + j)%nat) →
  child_memory m0 (set_pm_mem (<[stp := pg]> (pm_mem m2)) m2) root newroot stp pgs (stp :: free) free'.
Proof.
  intros V0 U0 Hstp Hm1 V2 U2 Ha Hsub Htab Hpage Hb Hpg.
  assert (stp ∉ free') as Hstp' by set_solver.
  assert (agree (pm_mem m0) (pm_mem m1) (stp :: free)) as Ha01 by (intros y Hy; apply Hm1; set_solver).
  assert (agree (pm_mem m0) (pm_mem m2) (stp :: free)) as Ha02 by (intros y Hy; rewrite Ha by set_solver; apply Ha01; done).
  assert (pt_inv (pm_mem m2) newroot (stp :: free')) as P2.
  { apply (pt_inv_free _ _ free'); [exact (vo_pt _ _ _ _ V2)|]. intros y Hy. apply not_elem_of_cons.
    split; [intros ->; by apply Hstp, Htab|]. destruct Hy as (path & Hpo & E). by apply (pv_page _ _ _ (vo_pt _ _ _ _ V2) path y). }
  assert (uspace (pm_mem m2) newroot (stp :: free')) as U2'.
  { split; [|apply U2]. intros va w Hva E. destruct (us_page _ _ _ U2 va w Hva E) as (H1 & H2 & H3 & H4). split_and!; try done.
    apply not_elem_of_cons. split; [|done]. intros Ep. apply Hstp. rewrite <- Ep. by apply (Hpage va). }
  destruct (write_other kend Hkend m2 newroot free' stp pg V2 P2 U2' Hstp') as (W1 & W2 & W3 & W4 & W5).
  assert (agree (pm_mem m0) (<[stp := pg]> (pm_mem m2)) (stp :: free)) as Ha03.
  { intros y Hy. rewrite lookup_insert_ne by set_solver. by apply Ha02. }
  assert (agree (pm_mem m2) (<[stp := pg]> (pm_mem m2)) (stp :: free')) as Ha23.
  { intros y Hy. apply lookup_insert_ne. set_solver. }
  split.
  - done.
  - eapply (agree_uspace kend Hkend); [exact W2|done|set_solver|exact W3].
  - destruct W1 as [L1 L2 L3]. split; [done|done|]. eapply (agree_pt_inv kend Hkend); [exact (vo_pt _ _ _ _ V0)|exact Ha03|set_solver].
  - intros va Hva. split.
    + by apply (agree_ubyte (pm_mem m0) _ root (stp :: free)); [apply (vo_pt _ _ _ _ V0)|..].
    + rewrite W5, Hb by done. rewrite (agree_ubyte (pm_mem m0) (pm_mem m1) root (stp :: free)); try done. apply (vo_pt _ _ _ _ V0).
  - exists pg. split; [apply lookup_insert_eq|done].
  - done.
  - intros y Hy. apply elem_of_cons. right. apply Htab. by apply (agree_table (pm_mem m2) (<[stp := pg]> (pm_mem m2)) newroot (stp :: free')).
  - intros va w Hva Ew. apply elem_of_cons. right. apply (Hpage va w Hva).
    by rewrite <- (agree_pte_of (pm_mem m2) (<[stp := pg]> (pm_mem m2)) newroot (stp :: free')).
  - apply list_elem_of_here.
  - intros va va' w w' Hva Hva' Ew Ew' E. cbn in Ew, Ew'.
    rewrite (agree_pte_of (pm_mem m0) (<[stp := pg]> (pm_mem m2)) root (stp :: free)) in Ew by (done || apply (vo_pt _ _ _ _ V0)).
    rewrite (agree_pte_of (pm_mem m2) (<[stp := pg]> (pm_mem m2)) newroot (stp :: free')) in Ew' by done.
    destruct (us_page _ _ _ U0 va w Hva Ew) as (_ & Hn & _). apply Hn. rewrite E. apply elem_of_cons. right. by apply (Hpage va').
Qed.
(** [fork_child]: the entry, the trap frame, the files and the directory of the child. *)
Definition child_entry p (stp : Z) x of' y : Proc :=
  with_state RUNNABLE (with_cwd (p_cwd x) (with_name (p_name x) (with_ofile of' (with_parent (Some p) (with_sz (p_sz x) y))))).
Lemma fork_child_Ok s p np x y stp src pgs pgd ino :
  p ≠ np → lookup_proc (k_sys s) p = Some x → lookup_proc (k_sys s) np = Some y → p_tf y = stp + tf_off → p_tf x = src + tf_off →
  kernel_page stp → kernel_page src → stp ≠ src → pm_mem (k_mem s) !! src = Some pgs → length pgs = 512%nat →
  pm_mem (k_mem s) !! stp = Some pgd → length pgd = 512%nat → strncpy_bytes (p_name x) 16 = Some (p_name x) →
  length (p_ofile x) = Z.to_nat NOFILE → length (p_ofile y) = Z.to_nat NOFILE →
  locked (ft_lock (k_ft s)) = false → files_ok (k_ft s) (p_ofile x) NOFILE →
  locked (t_lock (ft_tree (k_ft s))) = false → t_inodes (ft_tree (k_ft s)) !! p_cwd x = Some ino →
  ∃ sy' ft' of' pg, fork_child me p np x s =
      Ok (p_pid y) (set_k_sys sy' (set_k_mem (set_pm_mem (<[stp := pg]> (pm_mem (k_mem s))) (k_mem s)) (set_k_ft ft' s))) ∧
    entry_now (k_sys s) sy' np (child_entry p stp x of' y) ∧
    (∀ i, of' !! i = match p_ofile x !! i with Some (Some f) => Some (Some f) | _ => p_ofile y !! i end) ∧ length pg = 512%nat ∧
    (∀ j, (j < length Trapframe)%nat → pg !! (tf_idx + j)%nat = if decide (j = tf_x 0) then Some 0 else pgs !! (tf_idx + j)%nat) ∧
    (∀ f, ft_file ft' !! f = (λ z, with_f_ref (f_ref z + opens (p_ofile x) f) z) <$> ft_file (k_ft s) !! f) ∧
    t_inodes (ft_tree ft') = <[p_cwd x := with_i_rc (increment_rc (i_rc ino)) ino]> (t_inodes (ft_tree (k_ft s))).
Proof.
  intros Hne Lp Ln Ety Etx Hks Hksrc Hss Es Hls Ed Hld Hnm Hox Hoy Hfl Hfi Hcl Hino. unfold fork_child.
  destruct (upd_np s np y (with_sz (p_sz x)) Ln) as (sy1 & E1 & N1). erewrite bind_Ok by exact E1.
  erewrite bind_Ok by (apply on_sys_get, get_proc_Ok; apply N1). cbn [p_tf with_sz]. rewrite Ety, Etx.
  destruct (copy_tf_Ok stp src pgs Hks Hksrc Hss Hls (length Trapframe) 0 (set_k_sys sy1 s) pgd Es Ed Hld) as (pg1 & E2 & Hl1 & Hp1); [vm_compute; lia|].
  erewrite bind_Ok by exact E2. cbn [k_mem set_k_sys]. set (m2 := set_pm_mem (<[stp := pg1]> (pm_mem (k_mem s))) (k_mem s)).
  set (pg2 := <[(tf_idx + tf_x 0)%nat := 0]> pg1). set (m3 := set_pm_mem (<[stp := pg2]> (pm_mem m2)) m2).
  assert (set_tf np (tf_x 0) 0 (set_k_mem m2 (set_k_sys sy1 s)) = Ok () (set_k_mem m3 (set_k_mem m2 (set_k_sys sy1 s)))) as E3.
  { unfold set_tf. erewrite bind_Ok by (apply on_sys_get, get_proc_Ok; apply N1). cbn [p_tf with_sz]. rewrite Ety.
    apply store_word_Ok; [done|cbn; apply lookup_insert_eq|rewrite Hl1; vm_compute; lia]. }
  erewrite bind_Ok by exact E3. match goal with |- context [set_k_mem m3 ?t] => set (s3 := set_k_mem m3 t) end.
  destruct (upd_np s3 np _ (with_parent (Some p)) (en_np _ _ _ _ N1)) as (sy4 & E4 & N4). erewrite bind_Ok by exact E4.
  pose proof (entry_now_trans _ _ _ _ _ _ N1 N4) as N14.
  destruct (dup_files_Ok p np x Hne (p_ofile x) 0 (set_k_sys sy4 s3) (with_parent (Some p) (with_sz (p_sz x) y)) eq_refl) as (sy5 & ft5 & of' & E5 & L5 & C5 & P5 & Hlo & Hof & Hl5 & Ht5 & Hf5).
  { cbn. by rewrite (en_other _ _ _ _ N14). }
  { apply N4. }
  { cbn. rewrite Hox, Hoy. lia. }
  { done. }
  { rewrite Hox. exact Hfi. }
  rewrite Hox in E5. erewrite bind_Ok by exact E5. match goal with |- context [set_k_sys sy5 ?t] => set (s5 := set_k_sys sy5 t) end.
  assert (entry_now sy4 sy5 np (with_ofile of' (with_parent (Some p) (with_sz (p_sz x) y)))) as N5.
  { split; [by rewrite L5, decide_True|intros q Hq; by rewrite L5, decide_False|done|done]. }
  destruct (upd_np s5 np _ (with_name (p_name x)) (en_np _ _ _ _ N5)) as (sy6 & E6 & N6).
  erewrite bind_Ok; [|unfold set_name; rewrite Hnm; erewrite bind_Ok by done; exact E6].
  destruct (inode_share_Ok (ft_tree (k_ft s)) (p_cwd x) ino Hcl Hino) as (t7 & E7 & _ & _ & Hi7).
  erewrite bind_Ok; [|apply zoom_Ok, zoom_Ok; unfold s5; cbn; rewrite Ht5; exact E7].
  match goal with |- context [set_k_ft ?f ?t] => set (s7 := set_k_ft f t) end.
  destruct (upd_np s7 np _ (with_cwd (p_cwd x)) (en_np _ _ _ _ N6)) as (sy8 & E8 & N8). erewrite bind_Ok by exact E8.
  destruct (upd_np (set_k_sys sy8 s7) np _ (with_state RUNNABLE) (en_np _ _ _ _ N8)) as (sy9 & E9 & N9). erewrite bind_Ok by exact E9.
  erewrite bind_Ok by (apply on_sys_get, get_proc_Ok; apply N9).
  eexists sy9, _, of', pg2. split_and!.
  - unfold s7, s5, s3, m3, m2. cbn. rewrite insert_insert_eq. reflexivity.
  - eapply entry_now_trans; [|exact N9]. eapply entry_now_trans; [|exact N8]. eapply entry_now_trans; [|exact N6].
    eapply entry_now_trans; [exact N14|exact N5].
  - intros i. rewrite Hof, Nat.sub_0_r. destruct (p_ofile x !! i) as [[f|]|]; [by rewrite decide_True by lia|done..].
  - unfold pg2. by rewrite length_insert.
  - intros j Hj. unfold pg2. case_decide as Ej.
    + subst j. rewrite list_lookup_insert_eq; [done|]. rewrite Hl1. vm_compute. lia.
    + rewrite list_lookup_insert_ne by lia. rewrite Hp1, decide_True by lia. done.
  - exact Hf5.
  - exact Hi7.
Qed.

Lemma fork_Ok initenter fuel s c p x free n src pgs :
  fork_pre s c p x free n src pgs → (Z.to_nat n < fuel)%nat →
  ∃ k x0 y stp free' s', fork kend me initenter fuel s = Ok (p_pid y) s' ∧
    lookup_proc (k_sys s) (c, k) = Some x0 ∧ p_state x0 = UNUSED ∧
    (∀ k' z, (k' < k)%nat → lookup_proc (k_sys s) (c, k') = Some z → p_state z ≠ UNUSED) ∧
    lookup_proc (k_sys s') (c, k) = Some y ∧ (∀ q, q ≠ (c, k) → lookup_proc (k_sys s') q = lookup_proc (k_sys s) q) ∧
    p_state y = RUNNABLE ∧ p_parent y = Some p ∧ p_sz y = p_sz x ∧ p_name y = p_name x ∧ p_cwd y = p_cwd x ∧
    p_tf y = stp + tf_off ∧ p_kstack y = stp + KSTACKSIZE ∧
    (∀ i, p_ofile y !! i = match p_ofile x !! i with Some (Some f) => Some (Some f) | _ => p_ofile x0 !! i end) ∧
    child_memory (k_mem s) (k_mem s') (p_pgdir x) (p_pgdir y) stp pgs free free' ∧
    (∀ f, ft_file (k_ft s') !! f = (λ z, with_f_ref (f_ref z + opens (p_ofile x) f) z) <$> ft_file (k_ft s) !! f) ∧
    t_inodes (ft_tree (k_ft s')) = alter (λ i, with_i_rc (increment_rc (i_rc i)) i) (p_cwd x) (t_inodes (ft_tree (k_ft s))).
Proof.
  intros [F1 F2 (l & Fl & Fl') F4 (u & Fu & Fp) F6 F7 F8 F9 Fnm Fvm Fus [Fn Fn'] Fmap Fend Ffree (Ftf & Fk & Fsf & Fpg & Fpl) (Ffl & Ffi) (Fcl & ino & Fc)] Hfuel.
  destruct free as [|stp free]; [simpl in Ffree; lia|]. cbn [length] in Ffree. pose proof Fvm as [Vpm Vl Vpt].
  unfold fork. erewrite bind_Ok by (apply on_sys_get; by eapply current_Ok).
  destruct (alloc_proc_Ok initenter s c l u stp free F1 F2 Fl Fl' F4 Fu F8 Vpm Vl)
    as (k & x0 & pid & sy1 & m1 & E1 & Ex0 & Hx0 & Hfirst & L1 & _ & _ & Hpm1 & Hpl1 & Hks & Hs0 & Hsf & (pg1 & Epg1 & Hpgl1) & Hm1).
  set (np := (c, k)) in *. assert (p ≠ np) as Hne by (intros ->; rewrite Ex0 in F6; congruence).
  erewrite bind_Ok by exact E1. cbv beta iota.
  erewrite bind_Ok by (apply on_sys_get, get_proc_Ok; cbn; by rewrite L1, decide_False).
  assert (agree (pm_mem (k_mem s)) (pm_mem m1) (stp :: free)) as Ha1 by (intros y Hy; apply Hm1; set_solver).
  destruct (uvm_copy_Ok kend cpuid Hkend m1 (p_pgdir x) free n fuel) as (newroot & m2 & free' & E2 & Hnr & V2 & U2 & _ & _ & Ha2 & Hsub & Htab & Hpage & Hb2); try done; try lia.
  { split; [done|done|]. eapply (agree_pt_inv kend Hkend); [exact Vpt|exact Ha1|set_solver]. }
  { eapply (agree_uspace kend Hkend); [exact Vpt|exact Ha1|set_solver|done]. }
  { intros j Hj. rewrite (agree_pte_of (pm_mem (k_mem s)) _ _ (stp :: free)) by done. by apply Fmap. }
  { intros va Hva. rewrite (agree_pte_of (pm_mem (k_mem s)) _ _ (stp :: free)) by done. by apply Fend. }
  erewrite bind_Ok by (apply on_mem_Ok; exact E2).
  assert (lookup_proc sy1 np = Some (new_proc pid stp x0)) as Ln by (by rewrite L1, decide_True).
  match goal with |- context [set_k_mem m2 ?s] => set (s2 := set_k_mem m2 s) end.
  destruct (upd_np s2 np _ (with_pgdir newroot) Ln) as (sy2 & E3 & N2). erewrite bind_Ok by exact E3. rewrite (proj2 (Z.eqb_neq _ _) Hnr).
  assert (lookup_proc sy2 p = Some x) as Lp by (rewrite (en_other _ _ _ _ N2) by done; unfold s2; cbn; by rewrite L1, decide_False).
  destruct (fork_child_Ok (set_k_sys sy2 s2) p np x (with_pgdir newroot (new_proc pid stp x0)) stp src pgs pg1 ino) as (sy' & ft' & of' & pg & E5 & N5 & Hof & Hpgl & Hpg & Hft & Hino); try done.
  { exact (en_np _ _ _ _ N2). }
  { intros ->. apply Fsf. set_solver. }
  { unfold s2. cbn. rewrite Ha2, Hm1; [done|intros ->; apply Fsf; set_solver|set_solver]. }
  { unfold s2. cbn. by rewrite Ha2. }
  { exact (F9 p x F6). }
  { exact (F9 np x0 Ex0). }
  eexists k, x0, (child_entry p stp x of' (with_pgdir newroot (new_proc pid stp x0))), stp, free', _. split; [exact E5|]. split_and!; try done.
  - apply N5.
  - intros q Hq. cbn. rewrite (en_other _ _ _ _ N5), (en_other _ _ _ _ N2) by done. unfold s2. cbn. by rewrite L1, decide_False.
  - apply (child_memory_intro (k_mem s) m1 m2); try done. intros va Hva. by apply Hb2.
  - cbn. rewrite Hino. unfold s2. cbn. apply map_eq. intros a. destruct (decide (a = p_cwd x)) as [->|].
    + by rewrite lookup_insert_eq, lookup_alter_eq, Fc.
    + by rewrite lookup_insert_ne, lookup_alter_ne.
Qed.

(** C3. [fork] of a process whose memory is [n] pages without gaps: it takes the first
    unused slot for the child and returns its pid. The slot is in use, the child's parent
    is the caller, it has the size, name and current directory of the caller, its open files
    at the same descriptors (at the others the entry is as it was), and sees the same bytes
    at every user address, in pages of its own; its registers are those of the caller
    except that [x0] is 0. Each open file and the current directory have as many more
    references. The caller and all other processes are as before. *)
Theorem fork_correct initenter fuel s c p x free n src pgs :
  fork_pre s c p x free n src pgs → (Z.to_nat n < fuel)%nat →
  ∃ k x0 y stp free' s', fork kend me initenter fuel s = Ok (p_pid y) s' ∧
    lookup_proc (k_sys s) (c, k) = Some x0 ∧ p_state x0 = UNUSED ∧
    (∀ k' z, (k' < k)%nat → lookup_proc (k_sys s) (c, k') = Some z → p_state z ≠ UNUSED) ∧
    lookup_proc (k_sys s') (c, k) = Some y ∧ (∀ q, q ≠ (c, k) → lookup_proc (k_sys s') q = lookup_proc (k_sys s) q) ∧
    p_state y ≠ UNUSED ∧ p_parent y = Some p ∧ p_sz y = p_sz x ∧ p_name y = p_name x ∧ p_cwd y = p_cwd x ∧
    p_tf y = stp + tf_off ∧ p_kstack y = stp + KSTACKSIZE ∧
    (∀ i, p_ofile y !! i = match p_ofile x !! i with Some (Some f) => Some (Some f) | _ => p_ofile x0 !! i end) ∧
    child_memory (k_mem s) (k_mem s') (p_pgdir x) (p_pgdir y) stp pgs free free' ∧
    (∀ f, ft_file (k_ft s') !! f = (λ z, with_f_ref (f_ref z + opens (p_ofile x) f) z) <$> ft_file (k_ft s) !! f) ∧
    t_inodes (ft_tree (k_ft s')) = alter (λ i, with_i_rc (increment_rc (i_rc i)) i) (p_cwd x) (t_inodes (ft_tree (k_ft s))).
Proof.
  intros HF Hfuel. destruct (fork_Ok initenter fuel s c p x free n src pgs HF Hfuel) as (k & x0 & y & stp & free' & s' & E & E0 & H0 & Hf & Ey & Hq & Hr & H).
  exists k, x0, y, stp, free', s'. split_and!; try done; try apply H. congruence.
Qed.

(** The comment above [fork] leaves it to the caller to make the child RUNNABLE; [fork]
    does it itself, and its caller does not. *)
Lemma fork_child_runnable initenter fuel s c p x free n src pgs :
  fork_pre s c p x free n src pgs → (Z.to_nat n < fuel)%nat →
  ∃ k y s', fork kend me initenter fuel s = Ok (p_pid y) s' ∧ lookup_proc (k_sys s') (c, k) = Some y ∧ p_state y = RUNNABLE.
Proof.
  intros HF Hfuel. destruct (fork_Ok initenter fuel s c p x free n src pgs HF Hfuel) as (k & x0 & y & stp & free' & s' & E & _ & _ & _ & Ey & _ & Hr & _).
  by exists k, y, s'.
Qed.
End spec.

(** ** Examples: a process in slot 0 of the root container *)
Definition demo_files : list (option Z) := [Some 0; Some 0; None; None; None; None; None; None].
Definition demo_parent : Proc :=
  with_cwd 1 (with_ofile demo_files (with_frames (tf_page + tf_off) 0 (with_pgdir um_root (with_sz 4096 (with_state RUNNING (with_pid 1 zero_proc)))))).
Definition demo_table (ps : list Proc) : Sys :=
  mkSys [mkContainer None true [] ps (init_spinlock "ptable") 1 0 (init_spinlock "container") 0 (replicate 64 (mkPidMap false 0 None))]
    [mkCpu (Some 0%nat) (Some (0, 0)%nat) 0] ∅ None.
Definition demo_tree : ITree unit unit unit :=
  mkITree (init_spinlock "tree") [1] {[1 := mkInode (init_spinlock "Inode") {| rcount := 1 |} 1 true (mkInodeEntry 1 0 0 1 0 [] 0)]} () () 1 ().
Definition demo_ft : FTable unit unit unit := mkFTable (init_spinlock "file table") [mkFile FD_INODE 2 true true 1 0] demo_tree.
Definition demo_kernel (ps : list Proc) (m : PMemory) : Kernel unit unit unit unit := mkKernel (demo_table ps) m demo_ft () 0.
Definition fork_table : list Proc := demo_parent :: replicate 13 zero_proc.

Lemma ps_demo_lookup ps k x : lookup_proc (demo_table ps) k = Some x → ps !! k.2 = Some x.
Proof. destruct k as [[|c] k]; [done|]. unfold lookup_proc. simpl. by destruct c. Qed.

Lemma demo_sched ps : in_sched 0 (demo_table ps) 0.
Proof. eexists _, _. split; [reflexivity|]. split; [reflexivity|]. split; reflexivity. Qed.

(** It may fork, with any page [pg] for its registers. *)
Lemma demo_fork_pre m free (pg : page) : vm_ok demo_kend m um_root free → pt_inv (pm_mem m) um_root (tf_page :: free) →
  uspace (pm_mem m) um_root (tf_page :: free) → tf_page ∉ free → (10 ≤ length free)%nat →
  (∀ va, 0 ≤ va < 2 ^ 48 → pte_of (pm_mem m) um_root va = if decide (va / 4096 = 0) then Some 0x110647 else None) →
  pm_mem m !! tf_page = Some pg → length pg = 512%nat →
  fork_pre demo_kend 0 (demo_kernel fork_table m) 0 (0, 0)%nat demo_parent free 1 tf_page pg.
Proof.
  intros Hvm Hpt HU Htf Hl Hp Etf Hlen. split.
  - exact (demo_sched fork_table).
  - eexists. split; reflexivity.
  - eexists. split; reflexivity.
  - intros d h Hd Eh. destruct d as [|d]; [|lia]. injection Eh as <-. split; [reflexivity|]. left. reflexivity.
  - eexists. split; reflexivity.
  - reflexivity.
  - discriminate.
  - exists 1%nat, zero_proc. split; reflexivity.
  - intros q z Hz%ps_demo_lookup. apply list_elem_of_lookup_2 in Hz. apply elem_of_cons in Hz as [->|Hz]; [reflexivity|].
    apply elem_of_replicate in Hz as [-> _]. reflexivity.
  - reflexivity.
  - exact Hvm.
  - apply (agree_uspace demo_kend ltac:(vm_compute; congruence) (pm_mem m) _ um_root (tf_page :: free)); [exact Hpt|intros ? _; reflexivity|set_solver|exact HU].
  - lia.
  - intros j Hj. assert (j = 0) as -> by lia. change (is_Some (pte_of (pm_mem m) um_root 0)). rewrite Hp by lia. eexists. reflexivity.
  - intros va Hva. change (pte_of (pm_mem m) um_root va = None). rewrite Hp by lia. rewrite decide_False; [reflexivity|].
    pose proof (Z.div_le_lower_bound va 4096 1 ltac:(lia)). lia.
  - lia.
  - split; [reflexivity|]. split; [split; [reflexivity|vm_compute; intuition congruence]|]. split; [exact Htf|]. split; [exact Etf|exact Hlen].
  - split; [reflexivity|]. intros f Hf. assert (f = 0) as ->.
    { change (Some f ∈ demo_files) in Hf. unfold demo_files in Hf. rewrite !elem_of_cons, elem_of_nil in Hf. intuition congruence. }
    split; [lia|]. eexists. split; [reflexivity|]. simpl. unfold NOFILE. lia.
  - split; [reflexivity|]. eexists. reflexivity.
Qed.

Lemma fork_correct_witness :
  ∃ m y s', fork demo_kend 0 0 2 (demo_kernel fork_table m) = Ok (p_pid y) s' ∧ lookup_proc (k_sys s') (0, 1)%nat = Some y ∧
    p_state y ≠ UNUSED ∧ p_parent y = Some (0, 0)%nat ∧ p_ofile y !! 1%nat = Some (Some 0) ∧
    ubyte (pm_mem (k_mem s')) (p_pgdir y) 100 = ubyte (pm_mem m) um_root 100 ∧
    ft_file (k_ft s') !! 0%nat = Some (mkFile FD_INODE 4 true true 1 0).
Proof.
  destruct um_tf as (m & free & Hvm & Hpt & HU & Htf & Hl & Hp & Etf).
  destruct (fork_correct demo_kend 0 ltac:(vm_compute; congruence) 0 2 (demo_kernel fork_table m) 0 (0, 0)%nat demo_parent free 1 tf_page zero_page)
    as (k & x0 & y & stp & free' & s' & E & Ex0 & Hx0 & Hfirst & Ey & _ & H1 & H2 & _ & _ & _ & _ & _ & H3 & [_ _ _ H4 _ _ _ _ _ _] & H5 & _).
  - by apply demo_fork_pre.
  - lia.
  - assert (k = 1%nat) as ->.
    { destruct k as [|[|k]]; [by injection Ex0 as <-|reflexivity|]. by destruct (Hfirst 1%nat zero_proc ltac:(lia) eq_refl). }
    exists m, y, s'. split; [exact E|]. split; [exact Ey|]. split; [exact H1|]. split; [exact H2|]. split; [rewrite H3; reflexivity|]. split.
    + destruct (H4 100 ltac:(lia)) as [_ ->]. reflexivity.
    + rewrite H5. reflexivity.
Defined.

(** A dead child in slot 1, with the memory of [vf_demo]. *)
Definition wait_mem : PMemory := set_pm_mem (<[vf_page 5 := zero_page]> (pm_mem vf_demo)) vf_demo.
Definition demo_child : Proc :=
  with_parent (Some (0, 0)%nat) (with_kstack (vf_page 6) (with_pgdir (vf_page 0) (with_state ZOMBIE (with_pid 7 zero_proc)))).
Definition wait_table : list Proc := demo_parent :: demo_child :: replicate 12 zero_proc.

Lemma wait_correct_witness :
  ∃ sy' m', wait demo_kend 0 (demo_kernel wait_table wait_mem) = Ok (Some 7) (set_k_sys sy' (set_k_mem m' (demo_kernel wait_table wait_mem))) ∧
    lookup_proc sy' (0, 1)%nat = Some (reap demo_child) ∧
    ∃ l, pm_inv demo_kend m' (vf_page 5 :: l ++ [vf_page 9]) ∧ vf_page 4 ∈ l.
Proof.
  assert (∀ k x, lookup_proc (demo_table wait_table) (0%nat, k) = Some x → p_parent x = Some (0, 0)%nat → k = 1%nat ∧ x = demo_child) as Hkid.
  { intros k x Hx%ps_demo_lookup Hpar. cbn [snd] in Hx. destruct k as [|[|k]]; [by injection Hx as <-|by injection Hx as <-|].
    apply lookup_replicate in Hx as [-> _]. discriminate Hpar. }
  destruct (wait_correct demo_kend 0 ltac:(vm_compute; congruence) (demo_kernel wait_table wait_mem) 0 (init_spinlock "ptable")
    (mkCpu (Some 0%nat) (Some (0, 0)%nat) 0) (0, 0)%nat demo_parent [vf_page 9])
    as [(k & x & sy' & m' & Ex & Hpx & Hx & E & HL & _ & (l & Hgb & Hm) & _)|(Hno & _)].
  - exact (demo_sched wait_table).
  - eexists. split; reflexivity.
  - reflexivity.
  - reflexivity.
  - reflexivity.
  - reflexivity.
  - reflexivity.
  - reflexivity.
  - split; [split; [reflexivity|]; split; [vm_compute; congruence|]; eexists _, _; split; [vm_compute; reflexivity|]; split; [reflexivity|]; split; reflexivity| |].
    + apply NoDup_singleton.
    + repeat constructor.
  - reflexivity.
  - intros k x Hx Hpar _. destruct (Hkid k x Hx Hpar) as [_ ->].
    assert (stack_page demo_child :: under (pm_mem wait_mem) 3 (p_pgdir demo_child) = vf_page <$> [5; 0; 1; 2; 3; 4]) as Eu by (vm_compute; reflexivity).
    split; change (k_mem (demo_kernel wait_table wait_mem)) with wait_mem; rewrite Eu.
    + apply (bool_decide_unpack _). vm_compute. exact I.
    + repeat (apply Forall_cons; split); try apply Forall_nil; try exact I; (split; [reflexivity|]; eexists; split; [vm_compute; reflexivity|reflexivity]).
    + intros y Hy. assert (Forall (λ x, x ∉ [vf_page 9]) (vf_page <$> [5; 0; 1; 2; 3; 4])) as Hf by (apply (bool_decide_unpack _); vm_compute; exact I).
      rewrite Forall_forall in Hf. exact (Hf y Hy).
  - destruct (Hkid k x Ex Hpx) as [-> ->]. exists sy', m'. split; [exact E|]. split; [rewrite HL; reflexivity|]. exists l. split; [exact Hm|].
    apply (gb_user _ _ _ Hgb). apply (bool_decide_unpack _). vm_compute. exact I.
  - exfalso. apply (Hno 1%nat demo_child); reflexivity.
Defined.
