(* ===== verification/SysArg.v ===== *)
(** * System call arguments and user memory (core/syscall.c, core/sysfile.c)

    The kernel reads and writes the memory of the current process through the user
    half of the address space: the MMU translates the address with the table that
    [ttbr0_el1] points to. An address that the table does not map faults, which the
    C code does not handle; it is [Undef] here. *)
From S2P Require Import Prelude Locks PhysMem VirtMem Cache Inode InodeIO File Sched Proc.

(** What the kernel takes from the headers of the C library (fcntl.h, sys/stat.h,
    sys/syscall.h), which are not part of the repository. [abi_stat st old] are the
    bytes of a [struct stat] in which [stati] has assigned its fields. *)
Record Abi := mkAbi {
  AT_FDCWD : Z;
  O_WRONLY : Z;
  O_RDWR : Z;
  O_CREAT : Z;
  sizeof_stat : Z;
  abi_stat : Inode.stat → list Z → list Z
}.

(** core/virtual_memory.h *)
Definition USERTOP : Z := 0x0001000000000000.

(** ** The MMU

    A descriptor is followed when its two low bits are set; its bits 47 to 12 are the
    physical address of the next table, or of the page. *)
Definition desc_ok (w : Z) : bool := Z.land w 3 =? 3.
Definition desc_addr (w : Z) : Z := Z.land w 0xFFFFFFFFF000.
Fixpoint mmu_walk (level : nat) (table va : Z) : M PMemory Z :=
  w ← read_word (P2K table) (Z.to_nat (PX (Z.of_nat level) va));
  if desc_ok w then
    match level with
    | O => mret (desc_addr w)
    | S level' => mmu_walk level' (desc_addr w) va
    end
  else undef.

(** A byte of a page of the physical memory. *)
Definition load_byte (p : Z) (off : nat) : M PMemory Z :=
  w ← read_word p (off / 8); derefM (le_bytes 8 w !! (off mod 8)%nat).
Definition store_byte (p : Z) (off : nat) (b : Z) : M PMemory unit :=
  w ← read_word p (off / 8);
  write_word p (off / 8) (le_val (<[(off mod 8)%nat := b]> (le_bytes 8 w))).

Section sysarg.
Context {C A K P : Type}.
Context (me : nat).
Abbreviation KS := (Kernel C A K P).

(** Where the byte at user address [va] lies. *)
Definition translate (va : Z) : M KS (Z * nat) :=
  u ← on_sys (thiscpu me);
  pa ← on_mem (mmu_walk 3 (cpu_ttbr0 u) va);
  mret (P2K pa, Z.to_nat (va mod PGSIZE)).
Definition load_user (va : Z) : M KS Z := a ← translate va; on_mem (load_byte a.1 a.2).
Definition store_user (va b : Z) : M KS unit := a ← translate va; on_mem (store_byte a.1 a.2 b).
Fixpoint load_bytes_user (n : nat) (va : Z) : M KS (list Z) :=
  match n with
  | O => mret []
  | S n' => b ← load_user va; l ← load_bytes_user n' (u64 (va + 1)); mret (b :: l)
  end.
Fixpoint store_bytes_user (va : Z) (l : list Z) : M KS unit :=
  match l with
  | [] => mret ()
  | b :: l' => store_user va b;; store_bytes_user (u64 (va + 1)) l'
  end.

Definition this_proc : M KS (pptr * Proc) :=
  p ← on_sys (current me); x ← on_sys (get_proc p); mret (p, x).

Definition in_user (s n : Z) : M KS bool :=
  px ← this_proc;
  let p := px.2 in
  mret (((p_base p <=? s) && (u64 (s + n) <=? p_sz p)) ||
        ((u64 (USERTOP - p_stksz p) <=? s) && (u64 (s + n) <=? USERTOP))).

(** The [long] at [addr]. *)
Definition fetchint (addr : Z) : M KS Z := l ← load_bytes_user 8 addr; mret (le_val l).

(** The scan for the NUL from [s] to [top]. [None] is the result -1. *)
Fixpoint scan_str (n : nat) (s : Z) : M KS (option (list Z)) :=
  match n with
  | O => mret None
  | S n' =>
      c ← load_user s;
      if c =? 0 then mret (Some [])
      else r ← scan_str n' (s + 1); mret (cons c <$> r)
  end.
(** The string that [*pp] points to, without its NUL; its length is the result of
    the C function. The bounds of the loops are those of the user address space, so
    the number of bytes to the bound is enough fuel. *)
Definition fetchstr (addr : Z) : M KS (option (list Z)) :=
  px ← this_proc;
  let p := px.2 in
  if (p_base p <=? addr) && (addr <? p_sz p) then scan_str (Z.to_nat (p_sz p - addr)) addr
  else if (u64 (USERTOP - p_stksz p) <=? addr) && (addr <? USERTOP) then scan_str (Z.to_nat (USERTOP - addr)) addr
  else mret None.

(** [None] is the result -1 in the following; [n] is at least 0 in every call. *)
Definition argu64 (n : nat) : M KS (option Z) :=
  p ← on_sys (current me);
  if (5 <? n)%nat then mret None else v ← get_tf p (tf_x n); mret (Some v).
Definition argint (n : nat) : M KS (option Z) :=
  p ← on_sys (current me);
  if (5 <? n)%nat then mret None else v ← get_tf p (tf_x n); mret (Some (i32 v)).
Definition argptr (n : nat) (size : Z) : M KS (option Z) :=
  i ← argu64 n;
  match i with
  | None => mret None
  | Some i => ok ← in_user i size; mret (if (ok : bool) then Some i else None)
  end.
Definition argstr (n : nat) : M KS (option (list Z)) :=
  addr ← argu64 n;
  match addr with
  | None => mret None
  | Some addr => fetchstr addr
  end.

(** The descriptor and the file. *)
Definition argfd (n : nat) : M KS (option (Z * Z)) :=
  fd ← argint n;
  match fd with
  | None => mret None
  | Some fd =>
      if (fd <? 0) || (NOFILE <=? fd) then mret None
      else
        px ← this_proc;
        o ← derefM (p_ofile px.2 !! Z.to_nat fd);
        mret (match o with Some f => Some (fd, f) | None => None end)
  end.

(** The first free descriptor. *)
Fixpoint free_fd (l : list (option Z)) (i : nat) : option nat :=
  match l with
  | [] => None
  | Some _ :: l' => free_fd l' (S i)
  | None :: _ => Some i
  end.
Definition fdalloc (f : Z) : M KS (option Z) :=
  px ← this_proc;
  match free_fd (p_ofile px.2) 0 with
  | Some i => on_sys (upd_proc px.1 (λ x, with_ofile (<[i := Some f]> (p_ofile x)) x));; mret (Some (Z.of_nat i))
  | None => mret None
  end.
End sysarg.
