(* ===== verification/SysFile.v ===== *)
(** * File system calls (core/sysfile.c)

    Each handler gives the value it returns. [None] where a C function gives a null
    pointer. *)
From S2P Require Import Prelude Locks PhysMem VirtMem Cache Inode InodeIO File Sched Proc SysArg.

Definition with_e_dev major minor (e : InodeEntry) : InodeEntry :=
  mkInodeEntry (e_type e) major minor (e_num_links e) (e_num_bytes e) (e_addrs e) (e_indirect e).
Definition dot : list Z := [46; 0].
Definition dotdot : list Z := [46; 46; 0].
Definition sizeof_iovec : Z := 16.

Section sysfile.
Context {C A K P : Type} {BC : BlockCache C} {TX : Transactions C} {OP : ObjectPool A}.
Context (sb : SuperBlock) (me : nat) (abi : Abi).
Abbreviation T := (ITree C A K).
Abbreviation KS := (Kernel C A K P).
Context (console_read : Z → Z → M T (Z * list Z)) (console_write : Z → list Z → Z → M T Z) (stack16 : list Z).
(** The upper half of a local variable of which only the lower half is assigned. *)
Context (junk : Z).
Abbreviation cpuid := (Z.of_nat me).

Definition sys_dup : M KS Z :=
  a ← argfd me 0;
  match a with
  | None => mret (-1)
  | Some (_, f) =>
      fd ← fdalloc me f;
      match fd with
      | None => mret (-1)
      | Some fd => on_ft (filedup cpuid f);; mret fd
      end
  end.

(** [fileread(f, p, n)] with its result stored in user memory. *)
Definition sys_read : M KS Z :=
  a ← argfd me 0;
  match a with
  | None => mret (-1)
  | Some (_, f) =>
      n ← argint me 2;
      match n with
      | None => mret (-1)
      | Some n =>
          p ← argptr me 1 (u64 n);
          match p with
          | None => mret (-1)
          | Some p =>
              r ← on_ft (fileread cpuid console_read f n);
              store_bytes_user me p r.2;;
              mret r.1
          end
      end
  end.

(** [filewrite(f, p, n)] with the bytes at [p], which are read when the file is
    writable. *)
Definition write_user (f p n : Z) : M KS Z :=
  x ← on_ft (get_file f);
  buf ← (if f_writable x then load_bytes_user me (Z.to_nat n) p else mret []);
  on_ft (filewrite sb cpuid console_write f buf n).
Definition sys_write : M KS Z :=
  a ← argfd me 0;
  match a with
  | None => mret (-1)
  | Some (_, f) =>
      n ← argint me 2;
      match n with
      | None => mret (-1)
      | Some n =>
          p ← argptr me 1 (u64 n);
          match p with
          | None => mret (-1)
          | Some p => write_user f p n
          end
      end
  end.

(** The loop of [sys_writev] over [n] pieces, the next one at [p]. *)
Fixpoint writev_loop (n : nat) (f p tot : Z) : M KS Z :=
  match n with
  | O => mret (i64 tot)
  | S n' =>
      base ← fetchint me p;
      len ← fetchint me (u64 (p + 8));
      ok ← in_user me base len;
      if negb ok then mret (-1)
      else
        r ← write_user f base (i64 len);
        writev_loop n' f (u64 (p + sizeof_iovec)) (u64 (tot + r))
  end.
(** [iovcnt] is an [i64] of which [argint] assigns the lower half. *)
Definition sys_writev : M KS Z :=
  a ← argfd me 0;
  match a with
  | None => mret (-1)
  | Some (_, f) =>
      c ← argint me 2;
      match c with
      | None => mret (-1)
      | Some c =>
          let iovcnt := i64 (junk * 2 ^ 32 + u32 c) in
          iov ← argptr me 1 (u64 (iovcnt * sizeof_iovec));
          match iov with
          | None => mret (-1)
          | Some iov => writev_loop (Z.to_nat iovcnt) f iov 0
          end
      end
  end.

Definition sys_close : M KS Z :=
  a ← argfd me 0;
  match a with
  | None => mret (-1)
  | Some (fd, f) =>
      p ← on_sys (current me);
      on_sys (upd_proc p (λ x, with_ofile (<[Z.to_nat fd := None]> (p_ofile x)) x));;
      on_ft (fileclose sb cpuid f);;
      mret 0
  end.

(** Assign the fields of the [struct stat] at [p]. *)
Definition store_stat (p : Z) (st : Inode.stat) : M KS unit :=
  old ← load_bytes_user me (Z.to_nat (sizeof_stat abi)) p;
  store_bytes_user me p (abi_stat abi st old).
Definition sys_fstat : M KS Z :=
  a ← argfd me 0;
  match a with
  | None => mret (-1)
  | Some (_, f) =>
      st ← argptr me 1 (sizeof_stat abi);
      match st with
      | None => mret (-1)
      | Some st =>
          r ← on_ft (filestat cpuid f);
          match r with
          | None => mret (-1)
          | Some v => store_stat st v;; mret 0
          end
      end
  end.

(** [namei(path, ctx)] for the current process. *)
Definition namei_user (path : list Z) (ctx : Z) : M KS Z :=
  cwd ← current_cwd me;
  on_tree (namei sb cpuid console_read stack16 cwd path ctx).

Definition sys_fstatat : M KS Z :=
  dirfd ← argint me 0;
  match dirfd with
  | None => mret (-1)
  | Some dirfd =>
  path ← argstr me 1;
  match path with
  | None => mret (-1)
  | Some path =>
  st ← argptr me 2 (sizeof_stat abi);
  match st with
  | None => mret (-1)
  | Some st =>
  flags ← argint me 3;
  match flags with
  | None => mret (-1)
  | Some flags =>
      if negb (dirfd =? AT_FDCWD abi) then mret (-1)
      else if negb (flags =? 0) then mret (-1)
      else
        ctx ← begin_op;
        ip ← namei_user path ctx;
        if ip =? NULL then end_op ctx;; mret (-1)
        else
          on_tree (inode_lock cpuid ip);;
          v ← on_tree (stati ip);
          store_stat st v;;
          on_tree (inode_unlock ip);;
          on_tree (inode_put sb cpuid ctx ip);;
          end_op ctx;;
          mret 0
  end end end end.

Abbreviation insert := (inode_insert sb console_read console_write stack16).
(** The tests [insert(...) < 0] compare an unsigned value: they are never true. The
    last call of the branch for an existing file passes [ip] and [ctx] in the wrong
    order, so it dereferences the context as an inode. *)
Definition create (path : list Z) (type major minor ctx : Z) : M KS Z :=
  cwd ← current_cwd me;
  r ← on_tree (nameiparent sb cpuid console_read stack16 cwd path (replicate (Z.to_nat FILE_NAME_MAX_LENGTH) 0) ctx);
  let '(dp, nm) := r in
  if dp =? NULL then mret NULL
  else
    on_tree (inode_lock cpuid dp);;
    r ← on_tree (inode_lookup console_read stack16 dp nm);
    if negb (r.1 =? 0) then
      ip ← on_tree (inode_get sb cpuid r.1);
      on_tree (inode_unlock dp);;
      on_tree (inode_put sb cpuid ctx dp);;
      on_tree (inode_lock cpuid ip);;
      i ← on_tree (get_inode ip);
      if (type =? INODE_REGULAR) && (e_type (i_entry i) =? INODE_REGULAR) then mret ip
      else on_tree (inode_unlock ip);; undef
    else
      no ← on_tree (inode_alloc sb ctx type);
      ip ← on_tree (inode_get sb cpuid no);
      (if ip =? NULL then panic "alloc failed" else mret ());;
      on_tree (inode_lock cpuid ip);;
      on_tree (upd_entry ip (λ e, with_e_num_links 1 (with_e_dev (u16 major) (u16 minor) e)));;
      on_tree (inode_sync sb ctx ip true);;
      i ← on_tree (get_inode ip);
      d ← on_tree (get_inode dp);
      (if type =? INODE_DIRECTORY then
         on_tree (upd_entry dp (λ e, with_e_num_links (u16 (e_num_links e + 1)) e));;
         on_tree (inode_sync sb ctx dp true);;
         on_tree (insert ctx ip dot (i_inode_no i));;
         on_tree (insert ctx ip dotdot (i_inode_no d));;
         mret ()
       else mret ());;
      on_tree (insert ctx dp nm (i_inode_no i));;
      on_tree (inode_unlock dp);;
      on_tree (inode_put sb cpuid ctx dp);;
      mret ip.

(** The inode that [sys_openat] opens, locked; [NULL] when there is none. *)
Definition open_inode (path : list Z) (omode ctx : Z) : M KS Z :=
  if test omode (O_CREAT abi) then create path INODE_REGULAR 0 0 ctx
  else
    ip ← namei_user path ctx;
    if ip =? NULL then mret NULL
    else on_tree (inode_lock cpuid ip);; mret ip.
Definition open_file (ip omode : Z) (x : File) : File :=
  mkFile FD_INODE (f_ref x) (negb (test omode (O_WRONLY abi))) (test omode (O_WRONLY abi) || test omode (O_RDWR abi)) ip 0.
(** The file and the descriptor, or neither: a file that got no descriptor is closed. *)
Definition open_fd : M KS (option (Z * Z)) :=
  f ← on_ft (filealloc cpuid);
  match f with
  | None => mret None
  | Some f =>
      fd ← fdalloc me f;
      match fd with
      | Some fd => mret (Some (f, fd))
      | None => on_ft (fileclose sb cpuid f);; mret None
      end
  end.
Definition sys_openat : M KS Z :=
  dirfd ← argint me 0;
  match dirfd with
  | None => mret (-1)
  | Some dirfd =>
  path ← argstr me 1;
  match path with
  | None => mret (-1)
  | Some path =>
  omode ← argint me 2;
  match omode with
  | None => mret (-1)
  | Some omode =>
      if negb (dirfd =? AT_FDCWD abi) then mret (-1)
      else
        ctx ← begin_op;
        ip ← open_inode path omode ctx;
        if ip =? NULL then end_op ctx;; mret (-1)
        else
          o ← open_fd;
          match o with
          | None =>
              on_tree (inode_unlock ip);;
              on_tree (inode_put sb cpuid ctx ip);;
              end_op ctx;;
              mret (-1)
          | Some (f, fd) =>
              on_tree (inode_unlock ip);;
              end_op ctx;;
              on_ft (upd_file f (open_file ip omode));;
              mret fd
          end
  end end end.

(** The part that [sys_mkdirat] and [sys_mknodat] share. *)
Definition create_put (path : list Z) (type major minor : Z) : M KS Z :=
  ctx ← begin_op;
  ip ← create path type major minor ctx;
  if ip =? NULL then end_op ctx;; mret (-1)
  else
    on_tree (inode_unlock ip);;
    on_tree (inode_put sb cpuid ctx ip);;
    end_op ctx;;
    mret 0.
Definition sys_mkdirat : M KS Z :=
  dirfd ← argint me 0;
  match dirfd with
  | None => mret (-1)
  | Some dirfd =>
  path ← argstr me 1;
  match path with
  | None => mret (-1)
  | Some path =>
  mode ← argint me 2;
  match mode with
  | None => mret (-1)
  | Some mode =>
      if negb (dirfd =? AT_FDCWD abi) then mret (-1)
      else if negb (mode =? 0) then mret (-1)
      else create_put path INODE_DIRECTORY 0 0
  end end end.
Definition sys_mknodat : M KS Z :=
  dirfd ← argint me 0;
  match dirfd with
  | None => mret (-1)
  | Some dirfd =>
  path ← argstr me 1;
  match path with
  | None => mret (-1)
  | Some path =>
  major ← argint me 2;
  match major with
  | None => mret (-1)
  | Some major =>
  minor ← argint me 3;
  match minor with
  | None => mret (-1)
  | Some minor =>
      if negb (dirfd =? AT_FDCWD abi) then mret (-1)
      else create_put path INODE_DEVICE major minor
  end end end end.

Definition sys_chdir : M KS Z :=
  curproc ← on_sys (current me);
  ctx ← begin_op;
  path ← argstr me 0;
  match path with
  | None => end_op ctx;; mret (-1)
  | Some path =>
      ip ← namei_user path ctx;
      if ip =? NULL then end_op ctx;; mret (-1)
      else
        on_tree (inode_lock cpuid ip);;
        i ← on_tree (get_inode ip);
        if negb (e_type (i_entry i) =? INODE_DIRECTORY) then
          on_tree (inode_unlock ip);;
          on_tree (inode_put sb cpuid ctx ip);;
          end_op ctx;;
          mret (-1)
        else
          on_tree (inode_unlock ip);;
          x ← on_sys (get_proc curproc);
          on_tree (inode_put sb cpuid ctx (p_cwd x));;
          end_op ctx;;
          on_sys (upd_proc curproc (with_cwd ip));;
          mret 0
  end.
End sysfile.
