(* ===== verification/Exec.v ===== *)
(** * Program loading (core/exec.c, and [sys_exec] of core/sysfile.c)

    The layout of ELF files and the constants of elf.h come from the C library, which
    is not part of the repository: they are the fields of [Elf]. *)
From S2P Require Import Prelude Locks PhysMem VirtMem Cache Inode InodeIO File Sched Proc SysArg SysFile UserMem.

Record Ehdr := mkEhdr { e_ident : list Z; e_phoff : Z; e_phnum : Z; e_entry : Z }.
Record Phdr := mkPhdr { p_type : Z; p_offset : Z; p_vaddr : Z; p_filesz : Z; p_memsz : Z }.
Record Elf := mkElf {
  sizeof_Ehdr : Z;
  sizeof_Phdr : Z;
  ehdr_of : list Z → Ehdr;
  phdr_of : list Z → Phdr;
  ELFMAG : list Z;      (* with its NUL *)
  PT_LOAD : Z;
  AT_PAGESZ : Z;
  AT_NULL : Z
}.

(** Where the code goes: [goto bad], or on. *)
Abbreviation bad := (@None _).

Section exec.
Context {C A K P : Type} {BC : BlockCache C} {TX : Transactions C} {OP : ObjectPool A}.
Context (sb : SuperBlock) (kend : Z) (me : nat) (elf_h : Elf).
Abbreviation T := (ITree C A K).
Abbreviation KS := (Kernel C A K P).
Context (console_read : Z → Z → M T (Z * list Z)) (stack16 : list Z).
(** The four bytes after the local variable [argc]. *)
Context (after_argc : list Z).
Abbreviation cpuid := (Z.of_nat me).
Abbreviation read := (inode_read console_read).

(** [loaduvm]. Each iteration reads at least one byte, so [sz + 1] iterations are
    enough fuel. True when it returns 0. *)
Fixpoint loaduvm (fuel : nat) (pgdir va ip offset sz : Z) : M KS bool :=
  match fuel with
  | O => nofuel
  | S fuel' =>
      if 0 <? sz then
        let va0 := ROUNDDOWN va PAGE_SIZE in
        pa ← on_mem (uva2ka cpuid pgdir va0);
        (if pa =? 0 then panic "addr not exist" else mret ());;
        let n := Z.min (PGSIZE - (va - va0)) sz in
        r ← on_tree (read ip offset n);
        on_mem (store_bytes pa (Z.to_nat (va - va0)) r.2);;
        if negb (r.1 =? n) then mret false
        else loaduvm fuel' pgdir (u64 (va + n)) ip (u32 (offset + n)) (u32 (sz - n))
      else mret true
  end.

(** The loop over the program headers: the size of the image, or [bad]. *)
Fixpoint load_segments (n : nat) (pgdir ip off sz : Z) : M KS (option Z) :=
  match n with
  | O => mret (Some sz)
  | S n' =>
      r ← on_tree (read ip off (sizeof_Phdr elf_h));
      if negb (r.1 =? sizeof_Phdr elf_h) then mret bad
      else
        let ph := phdr_of elf_h r.2 in
        let next := u64 (off + sizeof_Phdr elf_h) in
        if negb (p_type ph =? PT_LOAD elf_h) then load_segments n' pgdir ip next sz
        else if p_memsz ph <? p_filesz ph then mret bad
        else
          r ← on_mem (my_uvm_alloc kend cpuid pgdir 0 8192 sz (u64 (p_vaddr ph + p_memsz ph)));
          let sz := u64 r in
          if sz =? 0 then mret bad
          else
            ok ← loaduvm (S (Z.to_nat (u32 (p_filesz ph)))) pgdir (p_vaddr ph) ip (u32 (p_offset ph)) (u32 (p_filesz ph));
            if (ok : bool) then load_segments n' pgdir ip next sz else mret bad
  end.

Definition copyout (pgdir va : Z) (buf : list Z) : M KS bool :=
  r ← on_mem (my_copyout cpuid pgdir va buf); mret (0 <=? r).

(** The loop over the arguments: the stack pointer and the addresses of the strings.
    [sys_exec] gives at most 31 of them, below the limit of 32. *)
Fixpoint push_args (argv : list (list Z)) (pgdir sp : Z) (ustk : list Z) : M KS (option (Z * list Z)) :=
  match argv with
  | [] => mret (Some (sp, ustk))
  | s :: argv' =>
      if 32 <? Z.of_nat (length ustk) then mret bad
      else
        let sp := ROUNDDOWN (u64 (sp - (Z.of_nat (length s) + 1))) 16 in
        ok ← copyout pgdir sp (s ++ [0]);
        if (ok : bool) then push_args argv' pgdir sp (ustk ++ [sp]) else mret bad
  end.
Definition words_bytes (l : list Z) : list Z := l ≫= le_bytes 8.

(** The stack of the new program: from [if (argv)] to the last [copyout]. *)
Definition build_stack (argv : list (list Z)) (pgdir sz : Z) (p : pptr) : M KS (option Z) :=
  a ← push_args argv pgdir sz [];
  match a with
  | None => mret bad
  | Some (sp, ustk) =>
      let argc := Z.of_nat (length ustk) in
      let ustk := ustk ++ [0] in
      set_tf p (tf_x 0) argc;;
      let sp := if Z.land argc 1 =? 0 then u64 (sp - 8) else sp in
      let auxv := [0; AT_PAGESZ elf_h; PGSIZE; AT_NULL elf_h] in
      let sp := u64 (sp - 32) in
      ok ← copyout pgdir sp (words_bytes auxv);
      if negb ok then mret bad
      else
        let sp := u64 (sp - 8) in
        ok ← copyout pgdir sp (le_bytes 8 0);
        if negb ok then mret bad
        else
          let sp := u64 (sp - (argc + 1) * 8) in
          set_tf p (tf_x 1) sp;;
          ok ← copyout pgdir sp (words_bytes ustk);
          if negb ok then mret bad
          else
            let sp := u64 (sp - 8) in
            ok ← copyout pgdir sp (le_bytes 4 argc ++ after_argc);
            mret (if (ok : bool) then Some sp else bad)
  end.

(** The code after [bad]; [ip] is [NULL] once the file has been released. The
    operation is not ended. *)
Definition exec_bad (pgdir ip ctx : Z) : M KS Z :=
  (if pgdir =? NULL then mret () else on_mem (my_vm_free kend cpuid pgdir));;
  (if ip =? NULL then mret ()
   else on_tree (inode_unlock ip);; on_tree (inode_put sb cpuid ctx ip));;
  mret (-1).

(** [strncpy(p->name, path, strlen(path) + 1)]: a path of more than 15 bytes runs
    over the fields after the name. *)
Definition exec_name (p : pptr) (path : list Z) : M KS unit :=
  if (16 <? length path + 1)%nat then undef
  else on_sys (upd_proc p (λ x, with_name (splice 0 (path ++ [0]) (p_name x)) x)).

(** From the last [copyout] to the end: the new image replaces the old one. *)
Definition exec_commit (p : pptr) (path : list Z) (pgdir sz sp entry : Z) : M KS Z :=
  x ← on_sys (get_proc p);
  exec_name p path;;
  on_sys (upd_proc p (with_pgdir pgdir));;
  on_sys (upd_proc p (with_sz sz));;
  set_tf p tf_sp_el0 sp;;
  set_tf p tf_elr_el1 entry;;
  on_sys (uvm_switch me pgdir);;
  on_mem (my_vm_free kend cpuid (p_pgdir x));;
  mret 0.

(** The image of the program: the page table, its size and the entry point. On [bad]
    the first component is the page table made so far. *)
Definition load_image (ip : Z) : M KS (Z * option (Z * Z)) :=
  r ← on_tree (read ip 0 (sizeof_Ehdr elf_h));
  if r.1 <? sizeof_Ehdr elf_h then mret (NULL, bad)
  else
    let elf := ehdr_of elf_h r.2 in
    d ← derefM (strncmp_bytes (e_ident elf) (ELFMAG elf_h) 4);
    (if negb (d =? 0) then panic "bad magic" else mret ());;
    pgdir ← on_mem (my_pgdir_init cpuid);
    if pgdir =? NULL then mret (NULL, bad)
    else
      sz ← load_segments (Z.to_nat (e_phnum elf)) pgdir ip (e_phoff elf) 0;
      mret (pgdir, match sz with Some sz => Some (sz, e_entry elf) | None => bad end).

Definition execve (path : list Z) (argv : list (list Z)) : M KS Z :=
  p ← on_sys (current me);
  ctx ← begin_op;
  ip ← namei_user sb me console_read stack16 path ctx;
  if ip =? NULL then mret (-1)
  else
    on_tree (inode_lock cpuid ip);;
    img ← load_image ip;
    let '(pgdir, img) := img in
    match img with
    | None => exec_bad pgdir ip ctx
    | Some (sz, entry) =>
        on_tree (inode_unlock ip);;
        on_tree (inode_put sb cpuid ctx ip);;
        end_op ctx;;
        let sz := ROUNDUP sz PGSIZE in
        r ← on_mem (my_uvm_alloc kend cpuid pgdir 0 8192 sz (u64 (sz + 2 * PGSIZE)));
        let sz := u64 r in
        if sz =? 0 then exec_bad pgdir NULL ctx
        else
          on_mem (clearpteu cpuid pgdir (u64 (sz - 2 * PGSIZE)));;
          sp ← build_stack argv pgdir sz p;
          match sp with
          | None => exec_bad pgdir NULL ctx
          | Some sp => exec_commit p path pgdir sz sp entry
          end
    end.

(** The loop of [sys_exec]: the pointers with the strings they point to, and whether
    the null pointer was reached ([goto bbad] otherwise); [None] for the result -1. *)
Fixpoint fetch_args (n : nat) (uargv i : Z) (argv : list (Z * list Z)) : M KS (option (bool * list (Z * list Z))) :=
  match n with
  | O => mret (Some (false, argv))
  | S n' =>
      uarg ← fetchint me (u64 (uargv + 8 * i));
      if uarg =? 0 then mret (Some (true, argv))
      else
        s ← fetchstr me uarg;
        match s with
        | None => mret None
        | Some s => fetch_args n' uargv (i + 1) (argv ++ [(uarg, s)])
        end
  end.
(** The loop after [bbad]: the pointers, which are user addresses, are given to [kfree]. *)
Fixpoint free_args (argv : list Z) : M KS unit :=
  match argv with
  | [] => mret ()
  | a :: argv' => on_mem (kfree kend cpuid a);; free_args argv'
  end.
Definition sys_exec : M KS Z :=
  path ← argstr me 0;
  match path with
  | None => mret (-1)
  | Some path =>
  uargv ← argu64 me 1;
  match uargv with
  | None => mret (-1)
  | Some uargv =>
  uenvv ← argu64 me 2;
  match uenvv with
  | None => mret (-1)
  | Some _ =>
      if uargv =? 0 then execve path []
      else
        a ← fetch_args 32 uargv 0 [];
        match a with
        | None => mret (-1)
        | Some (true, argv) => execve path argv.*2
        | Some (false, argv) => free_args argv.*1;; mret (-1)
        end
  end end end.
End exec.

(** ** The stack of a new program *)
Section stack.
Context {C A K P : Type}.
Context (kend : Z) (me : nat) (Hkend : KSPACE_MASK ≤ kend).
Abbreviation KS := (Kernel C A K P).
Abbreviation cpuid := (Z.of_nat me).
Implicit Types (s : KS) (m : PMemory) (free : list Z).

Definition byte_list (l : list Z) : Prop := Forall (λ b, 0 ≤ b < 256) l.

(** The bytes [l] are at user address [a]. *)
Definition at_user m (root a : Z) (l : list Z) : Prop :=
  ∀ i b, l !! i = Some b → ubyte (pm_mem m) root (a + Z.of_nat i) = Some b.

Lemma at_user_app m root a l1 l2 : at_user m root a l1 → at_user m root (a + Z.of_nat (length l1)) l2 → at_user m root a (l1 ++ l2).
Proof.
  intros H1 H2 i b [E|[Hl E]]%lookup_app_Some; [by apply H1|]. specialize (H2 _ _ E).
  by replace (a + Z.of_nat i) with (a + Z.of_nat (length l1) + Z.of_nat (i - length l1)) by lia.
Qed.

Lemma at_user_keep m m' root a l : at_user m root a l →
  (∀ x, a ≤ x < a + Z.of_nat (length l) → ubyte (pm_mem m') root x = ubyte (pm_mem m) root x) → at_user m' root a l.
Proof. intros H Hk i b E. rewrite Hk; [by apply H|]. apply lookup_lt_Some in E. lia. Qed.

(** The address space of the new program, whose pages from [lo] to [hi] are mapped;
    the page [tfp] with the trap frame is no page of it. *)
Record image (tfp root : Z) free (lo hi : Z) m : Prop := {
  im_vm : vm_ok kend m root free;
  im_pt : pt_inv (pm_mem m) root (tfp :: free);
  im_us : uspace (pm_mem m) root (tfp :: free);
  im_tfp : tfp ∉ free;
  im_map : ∀ a, lo ≤ a < hi → is_Some (pte_of (pm_mem m) root a)
}.

(** The pages behind [lo .. hi] and the page [tfp] are all that changed. *)
Definition only_stack (tfp root lo hi : Z) m m' : Prop :=
  (∀ a, pte_of (pm_mem m') root a = pte_of (pm_mem m) root a) ∧
  ∀ x, x ≠ tfp → (∀ a w, lo ≤ a < hi → pte_of (pm_mem m) root a = Some w → page_at w ≠ x) → pm_mem m' !! x = pm_mem m !! x.

Lemma only_stack_refl tfp root lo hi m : only_stack tfp root lo hi m m.
Proof. done. Qed.

Lemma only_stack_trans tfp root lo hi m m1 m2 : only_stack tfp root lo hi m m1 → only_stack tfp root lo hi m1 m2 → only_stack tfp root lo hi m m2.
Proof. intros [A1 A2] [B1 B2]. split; [intros a; by rewrite B1, A1|]. intros x Hx Hn. rewrite B2, A2; [done..|]. intros a w Ha. rewrite A1. by apply Hn. Qed.

Section steps.
Context (tfp root : Z) (free : list Z) (lo hi : Z).
Hypothesis Hlo : 0 ≤ lo.
Hypothesis Hhi : hi ≤ 2 ^ 48.

Lemma push_step s va buf : image tfp root free lo hi (k_mem s) → lo ≤ va → va + Z.of_nat (length buf) ≤ hi → byte_list buf →
  ∃ m', copyout me root va buf s = Ok true (set_k_mem m' s) ∧ image tfp root free lo hi m' ∧ only_stack tfp root lo hi (k_mem s) m' ∧
    pm_mem m' !! tfp = pm_mem (k_mem s) !! tfp ∧ at_user m' root va buf ∧
    ∀ a, 0 ≤ a < 2 ^ 48 → ¬ (va ≤ a < va + Z.of_nat (length buf)) → ubyte (pm_mem m') root a = ubyte (pm_mem (k_mem s)) root a.
Proof.
  intros [I1 I2 I3 I4 I5] Hva Hmax Hb.
  assert (uspace (pm_mem (k_mem s)) root free) as HU by (apply (agree_uspace kend Hkend (pm_mem (k_mem s)) _ root (tfp :: free)); [done|done|set_solver|done]).
  destruct (copyout_loop_Ok kend cpuid root free (S (length buf)) (k_mem s) va buf) as (m' & E & W); try done; try lia.
  { intros a Ha. apply I5. lia. }
  destruct (wrote_other kend Hkend _ _ _ _ _ _ tfp W ltac:(lia) ltac:(lia) I2 I3) as (P1 & P2 & P3).
  exists m'. split_and!.
  - unfold copyout. erewrite bind_Ok by (apply zoom_Ok; exact E). done.
  - split; try done; [apply W|]. intros a Ha. rewrite (wr_pte _ _ _ _ _ _ _ W). by apply I5.
  - split; [apply W|]. intros x _ Hx. apply W. intros a w Ha. apply Hx. lia.
  - done.
  - intros i b Ei. pose proof (lookup_lt_Some _ _ _ Ei). rewrite (wr_byte _ _ _ _ _ _ _ W) by lia. rewrite decide_True by lia.
    rewrite <- Ei. f_equal. lia.
  - intros a Ha Hn. rewrite (wr_byte _ _ _ _ _ _ _ W) by done. by rewrite decide_False.
Qed.

(** The word [k] of the trap frame is assigned. *)
Lemma tf_step s p x k v pg : image tfp root free lo hi (k_mem s) → lookup_proc (k_sys s) p = Some x → (word_of (p_tf x) k).1 = tfp →
  pm_mem (k_mem s) !! tfp = Some pg → ((word_of (p_tf x) k).2 < length pg)%nat →
  ∃ m', set_tf p k v s = Ok () (set_k_mem m' s) ∧ image tfp root free lo hi m' ∧ only_stack tfp root lo hi (k_mem s) m' ∧
    pm_mem m' !! tfp = Some (<[(word_of (p_tf x) k).2 := v]> pg) ∧
    ∀ a, 0 ≤ a < 2 ^ 48 → ubyte (pm_mem m') root a = ubyte (pm_mem (k_mem s)) root a.
Proof.
  intros [I1 I2 I3 I4 I5] Ex Etf Epg Hlt. eexists (set_pm_mem _ _).
  destruct (write_other kend Hkend (k_mem s) root free tfp (<[(word_of (p_tf x) k).2 := v]> pg) I1 I2 I3 I4) as (W1 & W2 & W3 & W4 & W5).
  split_and!.
  - unfold set_tf, store_word. erewrite bind_Ok.
    2:{ apply zoom_Ok. unfold get_proc, mbind, M_bind, getS. by rewrite Ex. }
    destruct s as [sy mm ft po pn]. rewrite Etf. apply zoom_Ok. by apply write_word_Ok.
  - split; try done. intros a Ha. rewrite W4. by apply I5.
  - split; [done|]. intros y Hy _. cbn [pm_mem set_pm_mem]. by rewrite lookup_insert_ne.
  - apply lookup_insert_eq.
  - done.
Qed.

(** What [push_args] leaves behind: the strings lie at [addrs], between [sp'] and [sp]. *)
Definition strings_at m (argv : list (list Z)) (addrs : list Z) (lo hi : Z) : Prop :=
  Forall2 (λ str a, at_user m root a (str ++ [0]) ∧ lo ≤ a ∧ a + Z.of_nat (length str) + 1 ≤ hi) argv addrs.

Lemma strings_at_keep m m' argv addrs lo' hi' lo2 : strings_at m argv addrs lo' hi' → lo2 ≤ lo' →
  (∀ x, lo' ≤ x < hi' → ubyte (pm_mem m') root x = ubyte (pm_mem m) root x) → strings_at m' argv addrs lo2 hi'.
Proof.
  intros H Hlo2 Hk. eapply Forall2_impl; [exact H|]. intros str a (Hu & H1 & H2). split_and!; [|lia|lia].
  eapply at_user_keep; [done|]. intros x Hx. apply Hk. rewrite length_app in Hx. simpl in Hx. lia.
Qed.

(** Room for the strings, with the padding of each to 16 bytes. *)
Definition room (argv : list (list Z)) : Z := foldr (λ str n, Z.of_nat (length str) + 16 + n) 0 argv.
Lemma room_nonneg argv : 0 ≤ room argv.
Proof. induction argv; simpl; lia. Qed.

Lemma push_args_Ok argv : ∀ s sp ustk,
  image tfp root free lo hi (k_mem s) → lo + room argv ≤ sp → sp ≤ hi → sp mod 16 = 0 → Forall byte_list argv →
  (length ustk + length argv ≤ 32)%nat →
  ∃ m' sp' addrs, push_args me argv root sp ustk s = Ok (Some (sp', ustk ++ addrs)) (set_k_mem m' s) ∧
    image tfp root free lo hi m' ∧ only_stack tfp root lo hi (k_mem s) m' ∧ pm_mem m' !! tfp = pm_mem (k_mem s) !! tfp ∧
    sp - room argv ≤ sp' ≤ sp ∧ sp' mod 16 = 0 ∧ strings_at m' argv addrs sp' sp ∧
    ∀ a, 0 ≤ a < 2 ^ 48 → ¬ (sp' ≤ a < sp) → ubyte (pm_mem m') root a = ubyte (pm_mem (k_mem s)) root a.
Proof.
  induction argv as [|str argv IH]; intros s sp ustk HI Hroom Hsp H16 Hb Hlen; cbn [push_args].
  { exists (k_mem s), sp, []. rewrite app_nil_r. split_and!; try done; try (simpl; lia); [by destruct s|by constructor]. }
  apply Forall_cons in Hb as [Hb1 Hb2]. cbn [room foldr length] in Hroom, Hlen. fold (room argv) in Hroom. pose proof (room_nonneg argv) as Hr0.
  destruct (Z.ltb_spec 32 (Z.of_nat (length ustk))) as [|_]; [lia|]. cbv zeta.
  set (sp1 := 16 * ((sp - (Z.of_nat (length str) + 1)) / 16)).
  assert (ROUNDDOWN (u64 (sp - (Z.of_nat (length str) + 1))) 16 = sp1) as ->.
  { rewrite u64_small by lia. apply ROUNDDOWN_eq; lia. }
  assert (sp - (Z.of_nat (length str) + 16) ≤ sp1 ≤ sp - (Z.of_nat (length str) + 1)) as Hsp1.
  { unfold sp1. pose proof (Z.div_mod (sp - (Z.of_nat (length str) + 1)) 16 ltac:(lia)).
    pose proof (Z.mod_pos_bound (sp - (Z.of_nat (length str) + 1)) 16 ltac:(lia)). lia. }
  destruct (push_step s sp1 (str ++ [0])) as (m1 & E1 & I1 & O1 & T1 & U1 & B1); rewrite ?length_app; simpl; try done; try lia.
  { apply Forall_app. split; [done|]. repeat constructor; lia. }
  rewrite length_app in B1. simpl in B1.
  erewrite bind_Ok by exact E1. cbn beta iota.
  destruct (IH (set_k_mem m1 s) sp1 (ustk ++ [sp1])) as (m2 & sp2 & addrs & E2 & I2 & O2 & T2 & Hr & H16' & S2 & B2); try done; try lia.
  { unfold sp1. by rewrite Z.mul_comm, Z.mod_mul. }
  { rewrite length_app. simpl. lia. }
  exists m2, sp2, (sp1 :: addrs). split_and!; try done; try (cbn [room foldr]; fold (room argv); lia).
  - rewrite E2. by rewrite <- app_assoc.
  - by eapply only_stack_trans.
  - by rewrite T2.
  - constructor.
    + split_and!; [|lia|lia]. eapply at_user_keep; [exact U1|]. intros x Hx. rewrite length_app in Hx. simpl in Hx. apply B2; lia.
    + eapply Forall2_impl; [exact S2|]. intros str' a (? & ? & ?). split_and!; [done|lia|lia].
  - intros a Ha Hn. rewrite B2 by lia. apply B1; lia.
Qed.
End steps.

Lemma words_bytes_ok l : byte_list (words_bytes l) ∧ length (words_bytes l) = (8 * length l)%nat.
Proof. split; [apply page_bytes_range|apply length_page_bytes]. Qed.

(** The padding that makes the final stack pointer a multiple of 16. *)
Lemma stack_pad n sp : sp mod 16 = 0 → 8 ≤ sp < 2 ^ 64 →
  let sp' := if Z.land n 1 =? 0 then u64 (sp - 8) else sp in sp - 8 ≤ sp' ≤ sp ∧ (sp' + 8 * (n + 1)) mod 16 = 0.
Proof.
  intros H16 Hsp sp'. assert (sp' = sp - 8 * (1 - n mod 2)) as ->.
  { unfold sp'. change (Z.land n 1) with (Z.land n (Z.ones 1)). rewrite land_ones_mod by lia. change (2 ^ 1) with 2.
    pose proof (Z.mod_pos_bound n 2 ltac:(lia)). destruct (Z.eqb_spec (n mod 2) 0); rewrite ?u64_small; lia. }
  pose proof (Z.mod_pos_bound n 2 ltac:(lia)). split; [lia|].
  pose proof (Z.div_mod n 2 ltac:(lia)). pose proof (Z.div_mod sp 16 ltac:(lia)).
  symmetry. apply (Z.mod_unique _ 16 (sp / 16 + n / 2 + n mod 2) 0); lia.
Qed.

(** The bytes from the stack pointer of the new program on, as the code lays them out.
    [copyout(pgdir, sp, &argc, 8)] copies eight bytes of a four-byte variable, and the
    auxiliary vector begins with a zero word: the comment below the code has an eight-byte
    [argc] and [AT_PAGESZ] right after the null of the environment. *)
Definition stack_frame (elf_h : Elf) (after_argc addrs : list Z) : list Z :=
  (le_bytes 4 (Z.of_nat (length addrs)) ++ after_argc) ++ words_bytes (addrs ++ [0]) ++ le_bytes 8 0 ++
  words_bytes [0; AT_PAGESZ elf_h; PGSIZE; AT_NULL elf_h].

Lemma build_stack_Ok elf_h after_argc s p x pg tfp root free lo hi argv :
  0 ≤ lo → hi ≤ 2 ^ 48 → hi mod 16 = 0 → image tfp root free lo hi (k_mem s) →
  lo + room argv + 8 * (Z.of_nat (length argv) + 8) ≤ hi → Forall byte_list argv → (length argv ≤ 32)%nat →
  length after_argc = 4%nat → byte_list after_argc →
  lookup_proc (k_sys s) p = Some x → ROUNDDOWN (p_tf x) PGSIZE = tfp → pm_mem (k_mem s) !! tfp = Some pg →
  ((word_of (p_tf x) (tf_x 1)).2 < length pg)%nat →
  ∃ m' sp addrs, build_stack me elf_h after_argc argv root hi p s = Ok (Some sp) (set_k_mem m' s) ∧
    sp mod 16 = 0 ∧ lo ≤ sp ∧ at_user m' root sp (stack_frame elf_h after_argc addrs) ∧
    strings_at root m' argv addrs (sp + Z.of_nat (length (stack_frame elf_h after_argc addrs))) hi ∧
    pm_mem m' !! tfp = Some (<[(word_of (p_tf x) (tf_x 1)).2 := sp + 8]>
                              (<[(word_of (p_tf x) (tf_x 0)).2 := Z.of_nat (length argv)]> pg)) ∧
    only_stack tfp root lo hi (k_mem s) m'.
Proof.
  intros Hlo Hhi H16 HI Hroom Hb Hlen Hla Hba Ex Etf Epg Hw.
  assert ((word_of (p_tf x) (tf_x 0)).2 < length pg)%nat as Hw0 by (unfold word_of, tf_x in *; cbn [snd] in *; lia).
  pose proof (room_nonneg argv) as Hr0.
  destruct (push_args_Ok tfp root free lo hi Hlo Hhi argv s hi [] HI) as (m1 & sp1 & addrs & E1 & I1 & O1 & T1 & Hsp1 & H16' & S1 & _); try done; try lia.
  pose proof (Forall2_length _ _ _ S1) as Hal. cbn [app] in E1. set (n := Z.of_nat (length argv)) in *.
  assert (Z.of_nat (length addrs) = n) as Hn by (unfold n; by rewrite Hal).
  unfold build_stack. erewrite bind_Ok by exact E1. cbv beta iota zeta. rewrite Hn.
  destruct (tf_step tfp root free lo hi (set_k_mem m1 s) p x (tf_x 0) n pg I1 Ex Etf ltac:(by rewrite <- Epg) Hw0) as (m2 & E2 & I2 & O2 & T2 & B2).
  erewrite bind_Ok by exact E2. set (sp2 := if Z.land n 1 =? 0 then u64 (sp1 - 8) else sp1).
  destruct (stack_pad n sp1 H16' ltac:(lia)) as [Hsp2 Hal2]. fold sp2 in Hsp2, Hal2.
  clearbody sp2.
  rewrite (u64_small (sp2 - 32)) by lia. destruct (words_bytes_ok [0; AT_PAGESZ elf_h; PGSIZE; AT_NULL elf_h]) as [W1 W2].
  destruct (push_step tfp root free lo hi Hlo Hhi (set_k_mem m2 (set_k_mem m1 s)) (sp2 - 32) (words_bytes [0; AT_PAGESZ elf_h; PGSIZE; AT_NULL elf_h]))
    as (m3 & E3 & I3 & O3 & T3 & U3 & B3); try done; try (rewrite W2; simpl; lia); try lia.
  erewrite bind_Ok by exact E3. cbn [negb]. rewrite (u64_small (sp2 - 32 - 8)) by lia.
  destruct (push_step tfp root free lo hi Hlo Hhi (set_k_mem m3 (set_k_mem m2 (set_k_mem m1 s))) (sp2 - 32 - 8) (le_bytes 8 0))
    as (m4 & E4 & I4 & O4 & T4 & U4 & B4); try done; try (rewrite length_le_bytes; lia); try lia; [apply le_bytes_range|].
  erewrite bind_Ok by exact E4. cbn [negb]. rewrite (u64_small (sp2 - 32 - 8 - _)) by lia.
  set (sp3 := sp2 - 32 - 8 - (n + 1) * 8) in *.
  destruct (tf_step tfp root free lo hi (set_k_mem m4 (set_k_mem m3 (set_k_mem m2 (set_k_mem m1 s)))) p x (tf_x 1) sp3 (<[(word_of (p_tf x) (tf_x 0)).2 := n]> pg) I4 Ex Etf)
    as (m5 & E5 & I5 & O5 & T5 & B5); [cbn [k_mem set_k_mem] in *; by rewrite T4, T3|by rewrite length_insert|].
  erewrite bind_Ok by exact E5. destruct (words_bytes_ok (addrs ++ [0])) as [W3 W4]. rewrite length_app in W4. cbn [length] in W4.
  destruct (push_step tfp root free lo hi Hlo Hhi (set_k_mem m5 (set_k_mem m4 (set_k_mem m3 (set_k_mem m2 (set_k_mem m1 s))))) sp3 (words_bytes (addrs ++ [0])))
    as (m6 & E6 & I6 & O6 & T6 & U6 & B6); try done; try (rewrite W4; lia); try lia.
  erewrite bind_Ok by exact E6. cbn [negb]. rewrite (u64_small (sp3 - 8)) by lia.
  assert (length (le_bytes 4 n ++ after_argc) = 8%nat) as Ha8 by (rewrite length_app, length_le_bytes, Hla; done).
  destruct (push_step tfp root free lo hi Hlo Hhi (set_k_mem m6 (set_k_mem m5 (set_k_mem m4 (set_k_mem m3 (set_k_mem m2 (set_k_mem m1 s)))))) (sp3 - 8) (le_bytes 4 n ++ after_argc))
    as (m7 & E7 & I7 & O7 & T7 & U7 & B7); try (rewrite Ha8; lia); try done; try lia.
  { apply Forall_app. split; [apply le_bytes_range|done]. }
  erewrite bind_Ok by exact E7. exists m7, (sp3 - 8), addrs.
  rewrite W2 in B3. rewrite length_le_bytes in B4. rewrite W4 in B6. rewrite Ha8 in B7. cbn [k_mem set_k_mem length] in *.
  assert (∀ a, 0 ≤ a < 2 ^ 48 → sp3 + 8 * (n + 1) ≤ a → ubyte (pm_mem m7) root a = ubyte (pm_mem m5) root a) as K75.
  { intros a Ha Hge. rewrite B7, B6 by lia. done. }
  assert (∀ a, 0 ≤ a < 2 ^ 48 → sp2 ≤ a → ubyte (pm_mem m7) root a = ubyte (pm_mem m1) root a) as K71.
  { intros a Ha Hge. rewrite K75, B5, B4, B3, B2 by lia. done. }
  split_and!; try done; try lia.
  - unfold sp3. rewrite <- Hal2. symmetry. rewrite <- (Z.mod_add _ (- (n + 4)) 16) by lia. f_equal. lia.
  - unfold stack_frame. rewrite Hn. apply at_user_app; [exact U7|]. rewrite Ha8. replace (sp3 - 8 + Z.of_nat 8) with sp3 by lia.
    apply at_user_app; [|rewrite W4; apply at_user_app; rewrite ?length_le_bytes].
    + apply (at_user_keep m6); [done|]. intros y Hy. rewrite W4 in Hy. apply B7; lia.
    + replace (sp3 + _) with (sp2 - 32 - 8) by lia. apply (at_user_keep m4); [done|]. intros y Hy. rewrite length_le_bytes in Hy. rewrite K75, B5 by lia. done.
    + replace (sp3 + _ + _) with (sp2 - 32) by lia. apply (at_user_keep m3); [done|]. intros y Hy. rewrite W2 in Hy. simpl in Hy. rewrite K75, B5, B4 by lia. done.
  - eapply strings_at_keep; [exact S1| |].
    + unfold stack_frame. rewrite !length_app, !length_le_bytes, Hla, W2, W4. simpl. lia.
    + intros y Hy. apply K71; lia.
  - rewrite T7, T6, T5. by replace (sp3 - 8 + 8) with sp3 by lia.
  - repeat (eapply only_stack_trans; [eassumption|]). apply only_stack_refl.
Qed.

Lemma at_user_app_inv m root a l1 l2 : at_user m root a (l1 ++ l2) →
  at_user m root a l1 ∧ at_user m root (a + Z.of_nat (length l1)) l2.
Proof.
  intros H. split; intros i b E.
  - apply H. by apply lookup_app_l_Some.
  - rewrite <- Z.add_assoc, <- Nat2Z.inj_add. apply H. by rewrite lookup_app_r, Nat.add_comm, Nat.add_sub by lia.
Qed.

Lemma at_user_words m root l : ∀ a i w, at_user m root a (words_bytes l) → l !! i = Some w →
  at_user m root (a + 8 * Z.of_nat i) (le_bytes 8 w).
Proof.
  unfold words_bytes. induction l as [|v l IH]; intros a i w H E; [done|].
  cbn [mbind list_bind] in H. apply at_user_app_inv in H as [H1 H2]. rewrite length_le_bytes in H2.
  destruct i as [|i]; simpl in E; [simplify_eq; by rewrite Z.add_0_r|].
  specialize (IH _ _ _ H2 E). by replace (a + 8 * Z.of_nat (S i)) with (a + Z.of_nat 8 + 8 * Z.of_nat i) by lia.
Qed.

(** What the first instruction of a program finds at its stack pointer [sp]: the integer
    [argc], from [sp + 8] on the pointers to the arguments and a null pointer, and the
    null pointer of an empty environment. *)
Record entry_stack m (root sp : Z) (addrs : list Z) : Prop := {
  es_aligned : sp mod 16 = 0;
  es_argc : at_user m root sp (le_bytes 4 (Z.of_nat (length addrs)));
  es_argv : ∀ i a, addrs !! i = Some a → at_user m root (sp + 8 + 8 * Z.of_nat i) (le_bytes 8 a);
  es_argv_end : at_user m root (sp + 8 + 8 * Z.of_nat (length addrs)) (le_bytes 8 0);
  es_envp : at_user m root (sp + 16 + 8 * Z.of_nat (length addrs)) (le_bytes 8 0)
}.

Lemma stack_frame_entry elf_h after_argc m root sp addrs : length after_argc = 4%nat → sp mod 16 = 0 →
  at_user m root sp (stack_frame elf_h after_argc addrs) → entry_stack m root sp addrs.
Proof.
  intros Hla H16 H. unfold stack_frame in H. apply at_user_app_inv in H as [[Ha _]%at_user_app_inv H].
  apply at_user_app_inv in H as [Hw [He _]%at_user_app_inv].
  assert (∀ a i, (addrs ++ [0]) !! i = Some a → at_user m root (sp + 8 + 8 * Z.of_nat i) (le_bytes 8 a)) as Hargv.
  { intros a i E. rewrite length_app, length_le_bytes, Hla in Hw. exact (at_user_words _ _ _ _ _ _ Hw E). }
  split; try done.
  - intros i a E. apply Hargv. by apply lookup_app_l_Some.
  - apply Hargv. apply list_lookup_middle. done.
  - destruct (words_bytes_ok (addrs ++ [0])) as [_ W]. rewrite W, !length_app, length_le_bytes, Hla in He. simpl in He.
    replace (sp + 16 + _) with (sp + 8 + Z.of_nat (8 * (length addrs + 1))) by lia. exact He.
Qed.

(** C19. The stack that [execve] builds for a program with the arguments [argv]. The stack
    pointer is a multiple of 16; the integer at it is the number of arguments; from
    eight bytes above it lie the addresses of the arguments, one for each and in their
    order, a null pointer and the null pointer that ends the environment; at each of
    these addresses lies the argument's string with its NUL, above the vectors and
    inside the stack. [x0] and [x1] of the trap frame are the number of arguments and
    the address of the vector, and nothing but the pages of the stack and of the trap
    frame changes. *)
Theorem exec_stack_correct elf_h after_argc s p x pg tfp root free lo hi argv :
  0 ≤ lo → hi ≤ 2 ^ 48 → hi mod 16 = 0 → image tfp root free lo hi (k_mem s) →
  lo + room argv + 8 * (Z.of_nat (length argv) + 8) ≤ hi → Forall byte_list argv → (length argv ≤ 32)%nat →
  length after_argc = 4%nat → byte_list after_argc →
  lookup_proc (k_sys s) p = Some x → ROUNDDOWN (p_tf x) PGSIZE = tfp → pm_mem (k_mem s) !! tfp = Some pg →
  ((word_of (p_tf x) (tf_x 1)).2 < length pg)%nat →
  ∃ m' sp addrs, build_stack me elf_h after_argc argv root hi p s = Ok (Some sp) (set_k_mem m' s) ∧
    lo ≤ sp ∧ entry_stack m' root sp addrs ∧ length addrs = length argv ∧
    (∀ i str, argv !! i = Some str → ∃ a, addrs !! i = Some a ∧ at_user m' root a (str ++ [0]) ∧
       sp + 24 + 8 * Z.of_nat (length argv) ≤ a ∧ a + Z.of_nat (length str) + 1 ≤ hi) ∧
    pm_mem m' !! tfp = Some (<[(word_of (p_tf x) (tf_x 1)).2 := sp + 8]>
                              (<[(word_of (p_tf x) (tf_x 0)).2 := Z.of_nat (length argv)]> pg)) ∧
    only_stack tfp root lo hi (k_mem s) m'.
Proof.
  intros Hlo Hhi H16 HI Hroom Hb Hlen Hla Hba Ex Etf Epg Hw.
  destruct (build_stack_Ok elf_h after_argc s p x pg tfp root free lo hi argv) as (m' & sp & addrs & E & Hsp & Hl & Hu & HS & Ht & Ho); try done.
  pose proof (Forall2_length _ _ _ HS) as Hal.
  exists m', sp, addrs. split_and!; try done; [by eapply stack_frame_entry|].
  intros i str Ei. destruct (Forall2_lookup_l _ _ _ _ _ HS Ei) as (a & Ea & Hua & H1 & H2). exists a. split_and!; try done.
  unfold stack_frame in H1. rewrite !length_app, (proj2 (words_bytes_ok (addrs ++ [0]))), !length_app in H1. simpl in H1. lia.
Qed.

(** The auxiliary vector: the word after the null of the environment, where the comment
    below the code has [AT_PAGESZ], is zero, and the pair [AT_PAGESZ], [PGSIZE] comes
    one word later, so a reader that stops at [AT_NULL] finds the vector empty. *)
Lemma auxv_starts_with_zero elf_h after_argc m root sp addrs : length after_argc = 4%nat →
  at_user m root sp (stack_frame elf_h after_argc addrs) →
  at_user m root (sp + 24 + 8 * Z.of_nat (length addrs)) (words_bytes [0; AT_PAGESZ elf_h; PGSIZE; AT_NULL elf_h]) ∧
  at_user m root (sp + 4) after_argc.
Proof.
  intros Hla H. unfold stack_frame in H. apply at_user_app_inv in H as [[_ Ha]%at_user_app_inv H].
  apply at_user_app_inv in H as [_ [_ H]%at_user_app_inv].
  rewrite (proj2 (words_bytes_ok (addrs ++ [0]))), !length_app, !length_le_bytes, Hla in H. rewrite length_le_bytes in Ha. simpl in H. split; [|exact Ha].
  by replace (sp + 24 + 8 * Z.of_nat (length addrs)) with (sp + 8 + Z.of_nat (8 * (length addrs + 1)) + Z.of_nat 8) by lia.
Qed.
End stack.

(** ** An example: two arguments on a stack of one page *)
Definition elf_demo : Elf :=
  mkElf 64 56 (λ l, mkEhdr (take 16 l) (le_val (slice 32 8 l)) (le_val (slice 56 2 l)) (le_val (slice 24 8 l)))
    (λ l, mkPhdr (le_val (slice 0 4 l)) (le_val (slice 8 8 l)) (le_val (slice 16 8 l)) (le_val (slice 32 8 l)) (le_val (slice 40 8 l)))
    [127; 69; 76; 70; 0] 1 6 0.
Definition demo_tf_proc : Proc := with_frames (tf_page + 4096 - sizeof_Trapframe) 0 zero_proc.
Definition demo_sys : Sys :=
  mkSys [mkContainer None true [] [demo_tf_proc] (init_spinlock "ptable") 0 0 (init_spinlock "container") 0 []] [] ∅ None.

Lemma demo_image : ∃ m free pg, image demo_kend tf_page um_root free 0 4096 m ∧ pm_mem m !! tf_page = Some pg ∧ length pg = 512%nat.
Proof.
  destruct um_tf as (m & free & Hvm & Hpt & HU & Htf & _ & Hp & Etf). exists m, free, zero_page.
  split; [split; try done|done]. intros a Ha. rewrite Hp by lia. rewrite decide_True by (apply Z.div_small; lia). by eexists.
Qed.

Lemma exec_stack_correct_witness :
  ∃ (s : Kernel unit unit unit unit) m' sp a1 a2,
    build_stack 0 elf_demo [0; 0; 0; 0] [[115; 104]; [45; 99]] um_root 4096 (0, 0)%nat s = Ok (Some sp) (set_k_mem m' s) ∧
    entry_stack m' um_root sp [a1; a2] ∧
    at_user m' um_root a1 [115; 104; 0] ∧ at_user m' um_root a2 [45; 99; 0].
Proof.
  destruct demo_image as (m & free & pg & HI & Epg & Hl).
  set (s := mkKernel demo_sys m (mkFTable (init_spinlock "file table") [] (mkITree (init_spinlock "tree") [] ∅ () () 0 ())) () 0 : Kernel unit unit unit unit).
  destruct (exec_stack_correct demo_kend 0 ltac:(vm_compute; congruence) elf_demo [0; 0; 0; 0] s (0, 0)%nat demo_tf_proc pg tf_page um_root free 0 4096 [[115; 104]; [45; 99]])
    as (m' & sp & addrs & E & _ & Hen & Hlen & HS & _).
  - lia.
  - lia.
  - reflexivity.
  - exact HI.
  - vm_compute. congruence.
  - repeat constructor; lia.
  - simpl. lia.
  - reflexivity.
  - repeat constructor; lia.
  - reflexivity.
  - reflexivity.
  - exact Epg.
  - rewrite Hl. vm_compute. lia.
  - destruct (HS 0%nat _ eq_refl) as (a1 & E1 & H1 & _). destruct (HS 1%nat _ eq_refl) as (a2 & E2 & H2 & _).
    destruct addrs as [|b1 [|b2 [|]]]; try discriminate. simpl in E1, E2. simplify_eq.
    exists s, m', sp, a1, a2. split; [exact E|]. split; [exact Hen|]. split; [exact H1|exact H2].
Defined.
