(* ===== verification/Syscall.v ===== *)
(** * System call dispatch, traps and interrupts (core/syscall.c, core/sysproc.c,
    core/sysproc_my.c, core/trap.c)

    A handler that gives up the CPU ends at the switch; it gives [None], and what is
    left of it runs when the process is resumed. *)
From S2P Require Import Prelude Locks PhysMem VirtMem UserMem KernelPt Interrupt Cache Inode InodeIO File Sched Proc SysArg SysFile Exec.

(** The system calls with a handler. *)
Inductive syscall :=
| SYS_set_tid_address | SYS_ioctl | SYS_gettid | SYS_rt_sigprocmask | SYS_brk | SYS_execve
| SYS_sched_yield | SYS_clone | SYS_wait4 | SYS_exit_group | SYS_exit | SYS_dup | SYS_chdir
| SYS_fstat | SYS_newfstatat | SYS_mkdirat | SYS_mknodat | SYS_openat | SYS_writev | SYS_read
| SYS_write | SYS_close | SYS_myyield.
#[global] Instance syscall_eq_dec : EqDecision syscall.
Proof. solve_decision. Defined.

(** In the order of the initialisers of [syscall_table]. *)
Definition syscalls : list syscall :=
  [SYS_set_tid_address; SYS_ioctl; SYS_gettid; SYS_rt_sigprocmask; SYS_brk; SYS_execve;
   SYS_sched_yield; SYS_clone; SYS_wait4; SYS_exit_group; SYS_exit; SYS_dup; SYS_chdir;
   SYS_fstat; SYS_newfstatat; SYS_mkdirat; SYS_mknodat; SYS_openat; SYS_writev; SYS_read;
   SYS_write; SYS_close; SYS_myyield].
Definition NR_SYSCALL : Z := 512.
(** core/syscallno.h *)
Definition SYSNO_myyield : Z := 459.

(** core/trap.h *)
Definition ESR_EC_SHIFT : Z := 26.
Definition ESR_ISS_MASK : Z := 0xFFFFFF.
Definition ESR_IR_MASK : Z := Z.shiftl 1 25.
Definition ESR_EC_UNKNOWN : Z := 0x00.
Definition ESR_EC_SVC64 : Z := 0x15.

Section syscall.
Context {C A K P : Type} {BC : BlockCache C} {TX : Transactions C} {OP : ObjectPool A}.
Context (sb : SuperBlock) (kend : Z) (me : nat) (abi : Abi) (elf_h : Elf).
Abbreviation T := (ITree C A K).
Abbreviation KS := (Kernel C A K P).
Context (console_read : Z → Z → M T (Z * list Z)) (console_write : Z → list Z → Z → M T Z) (stack16 : list Z).
Context (junk : Z) (after_argc : list Z).
(** The fuel of [uvm_copy] in [fork]. *)
Context (fuel : nat) (initenter : Z).
(** The numbers of the system calls in sys/syscall.h of the C library; that of
    [SYS_myyield] is in core/syscallno.h. *)
Context (number : syscall → Z).

(** ** core/sysproc.c *)
(** The call returns 0 after [yield_resume]. *)
Definition sys_yield : M KS (option Z) := on_sys (yield me);; mret None.
(** [argint] assigns the lower half of [n], which is all that [growproc] takes. *)
Definition sys_brk : M KS Z :=
  n ← argint me 0;
  match n with
  | None => mret (-1)
  | Some n =>
      px ← this_proc me;
      r ← growproc kend me n;
      if r <? 0 then mret (-1) else mret (p_sz px.2)
  end.
Definition sys_clone : M KS Z :=
  flag ← argint me 0;
  match flag with
  | None => mret (-1)
  | Some flag =>
      childstk ← argint me 1;
      match childstk with
      | None => mret (-1)
      | Some _ => if negb (flag =? 17) then mret (-1) else fork kend me initenter fuel
      end
  end.
(** [None] when the process goes to sleep in [wait]. *)
Definition sys_wait4 : M KS (option Z) :=
  pid ← argint me 0;
  wstatus ← argint me 1;
  opt ← argint me 2;
  rusage ← argint me 3;
  match pid, wstatus, opt, rusage with
  | Some _, Some _, Some _, Some _ => wait kend me
  | _, _, _, _ => mret (Some (-1))
  end.
Definition sys_exit : M KS (option Z) := exit sb me;; mret None.

(** ** core/sysproc_my.c *)
(** The last entry for process [p]. *)
Definition root_pid (p : pptr) (l : list pid_mapping) : Z :=
  foldl (λ r m, if pm_valid m && bool_decide (pm_p m = Some p) then pm_pid_local m else r) (-1) l.
(** Container 0 is [root_container]. *)
Definition sys_myprint : M KS (option unit) :=
  R ← on_sys (get_cont 0);
  p ← on_sys (current me);
  let rootpid := root_pid p (c_pmap R) in
  assertM (0 <? rootpid) "rootpid > 0";;
  on_sys (yield me);;
  mret None.

(** ** core/syscall.c *)
Definition sys_gettid : M KS Z := px ← this_proc me; mret (p_pid px.2).
Definition sys_ioctl : M KS Z :=
  p ← on_sys (current me);
  x1 ← get_tf p (tf_x 1);
  if negb (x1 =? 0x5413) then panic "sys_ioctl" else mret 0.
Definition sys_sigprocmask : M KS Z := mret 0.
Definition sys_default : M KS Z := mret 0.

Definition handler (c : syscall) : M KS (option Z) :=
  let returns (m : M KS Z) := r ← m; mret (Some r) in
  match c with
  | SYS_set_tid_address => returns sys_gettid
  | SYS_ioctl => returns sys_ioctl
  | SYS_gettid => returns sys_gettid
  | SYS_rt_sigprocmask => returns sys_sigprocmask
  | SYS_brk => returns sys_brk
  | SYS_execve => returns (sys_exec sb kend me elf_h console_read stack16 after_argc)
  | SYS_sched_yield => sys_yield
  | SYS_clone => returns sys_clone
  | SYS_wait4 => sys_wait4
  | SYS_exit_group => sys_exit
  | SYS_exit => sys_exit
  | SYS_dup => returns (sys_dup me)
  | SYS_chdir => returns (sys_chdir sb me console_read stack16)
  | SYS_fstat => returns (sys_fstat me abi)
  | SYS_newfstatat => returns (sys_fstatat sb me abi console_read stack16)
  | SYS_mkdirat => returns (sys_mkdirat sb me abi console_read console_write stack16)
  | SYS_mknodat => returns (sys_mknodat sb me abi console_read console_write stack16)
  | SYS_openat => returns (sys_openat sb me abi console_read console_write stack16)
  | SYS_writev => returns (sys_writev sb me console_write junk)
  | SYS_read => returns (sys_read me console_read)
  | SYS_write => returns (sys_write sb me console_write)
  | SYS_close => returns (sys_close sb me)
  | SYS_myyield => sys_yield
  end.
(** The table: the last initialiser of an index counts, [sys_default] where there is
    none; an index outside the table is undefined. *)
Definition syscall_table (sysno : Z) : M KS (option Z) :=
  if (0 <=? sysno) && (sysno <? NR_SYSCALL) then
    match list_find (λ c, number c = sysno) (rev syscalls) with
    | Some (_, c) => handler c
    | None => r ← sys_default; mret (Some r)
    end
  else undef.
(** The handlers are called as functions that return [int]. The frame is the trap
    frame of the current process. *)
Definition syscall_return (frame v : Z) : M KS unit := store_word frame tf_x0 (u64 (i32 v)).
Definition syscall_dispatch (frame : Z) : M KS (option Z) :=
  x8 ← load_word frame (tf_x 8);
  r ← syscall_table (i32 x8);
  match r with
  | None => mret None
  | Some v => syscall_return frame v;; mret (Some (u64 (i32 v)))
  end.

(** ** core/trap.c *)
Context `{!Mmio KS} (irqs : Interrupts KS).
(** [esr] is the exception syndrome register. *)
Definition trap_global_handler (frame esr : Z) : M KS (option unit) :=
  let ec := Z.shiftr esr ESR_EC_SHIFT in
  let iss := Z.land esr ESR_ISS_MASK in
  let ir := Z.land esr ESR_IR_MASK in
  if ec =? ESR_EC_UNKNOWN then
    if negb (ir =? 0) then panic "unknown error" else interrupt_global_handler (Z.of_nat me) irqs
  else if ec =? ESR_EC_SVC64 then
    r ← syscall_dispatch frame;
    match r with
    | None => mret None
    | Some _ => if negb (iss =? 0) then panic "iss!=0" else mret (Some ())
    end
  else exit sb me;; mret None.
End syscall.

(** An exception of a type that the vectors do not handle. *)
Definition trap_error_handler {S} (type : Z) : M S unit := panic "unknown trap type".

(** main.c: the clock handler of every CPU. *)
Definition hello {C A K P} `{!CoreTimer (Kernel C A K P)} (irqs : Interrupts (Kernel C A K P)) (me : nat) : M (Kernel C A K P) (option unit) :=
  reset_clock irqs 1000;;
  on_sys (yield me);;
  mret None.
