(* ===== verification/Trap.v ===== *)
(** * System calls from user code (core/trap.c, core/syscall.c, with core/proc.c)

    A system call as the exception it is: the handler reads the number from the saved
    registers, finds the function in the table and leaves the result in the saved [x0].
    The theorem follows one call, the one that makes a process, through all of it. *)
From S2P Require Import Prelude Locks PhysMem VirtMem UserMem KernelPt Interrupt Cache Inode InodeIO File Sched SchedMachine Proc ProcSpec SysArg SysFile Exec Syscall.

Section trap.
Context {C A K P : Type} {BC : BlockCache C} {TX : Transactions C} {OP : ObjectPool A}.
Context (sb : SuperBlock) (kend : Z) (me : nat) (abi : Abi) (elf_h : Elf) (Hkend : KSPACE_MASK ≤ kend).
Abbreviation KS := (Kernel C A K P).
Context (console_read : Z → Z → M (ITree C A K) (Z * list Z)) (console_write : Z → list Z → Z → M (ITree C A K) Z).
Context (stack16 : list Z) (junk : Z) (after_argc : list Z) (fuel : nat) (initenter : Z) (number : syscall → Z).
Context `{!Mmio KS} (irqs : Interrupts KS).
Abbreviation trap := (trap_global_handler sb kend me abi elf_h console_read console_write stack16 junk after_argc fuel initenter number irqs).
Abbreviation run_handler := (handler sb kend me abi elf_h console_read console_write stack16 junk after_argc fuel initenter).
Abbreviation table := (syscall_table sb kend me abi elf_h console_read console_write stack16 junk after_argc fuel initenter number).
Abbreviation dispatch := (syscall_dispatch sb kend me abi elf_h console_read console_write stack16 junk after_argc fuel initenter number).
Implicit Types (s : KS) (p : pptr) (x : Proc) (free : list Z) (pgs : page).

(** The numbers of the C library are distinct indices of the table. *)
Record numbers_ok : Prop := {
  no_inj : ∀ a b, number a = number b → a = b;
  no_range : ∀ a, 0 ≤ number a < NR_SYSCALL
}.
Context (Hnum : numbers_ok).

Lemma table_handler a s : table (number a) s = run_handler a s.
Proof.
  unfold syscall_table. pose proof (no_range Hnum a) as [H1 H2]. rewrite (proj2 (Z.leb_le _ _) H1), (proj2 (Z.ltb_lt _ _) H2). cbn [andb].
  destruct (list_find (λ c, number c = number a) (rev syscalls)) as [[i b]|] eqn:E.
  - apply list_find_Some in E as (_ & Hb & _). by apply (no_inj Hnum) in Hb as ->.
  - exfalso. apply list_find_None in E. rewrite Forall_forall in E. apply (E a); [|done].
    apply list_elem_of_In, in_rev. rewrite rev_involutive. destruct a; simpl; tauto.
Qed.

(** Register [k] of the saved registers in the page [pg]. *)
Definition saved (pg : page) (k : nat) : option Z := pg !! (tf_idx + tf_x k)%nat.

(** A system call whose handler returns: its result, as an [int], is in [x0]. *)
Lemma svc_Ok s s1 a v esr src pgs pg1 :
  Z.shiftr esr ESR_EC_SHIFT = ESR_EC_SVC64 → Z.land esr ESR_ISS_MASK = 0 →
  kernel_page src → pm_mem (k_mem s) !! src = Some pgs → saved pgs 8 = Some (number a) →
  run_handler a s = Ok (Some v) s1 → pm_mem (k_mem s1) !! src = Some pg1 → length pg1 = 512%nat →
  trap (src + tf_off) esr s =
    Ok (Some ()) (set_k_mem (set_pm_mem (<[src := <[(tf_idx + tf_x 0)%nat := u64 (i32 v)]> pg1]> (pm_mem (k_mem s1))) (k_mem s1)) s1).
Proof.
  intros Hec Hiss Hk Ep E8 Eh Ep1 Hl1. set (s2 := set_k_mem _ s1).
  pose proof (no_range Hnum a) as Hr. unfold NR_SYSCALL in Hr.
  assert (dispatch (src + tf_off) s = Ok (Some (u64 (i32 v))) s2) as Ed.
  { unfold syscall_dispatch. erewrite bind_Ok by (by eapply load_word_Ok).
    replace (i32 (number a)) with (number a) by (unfold i32, swrap; rewrite Z.mod_small; lia).
    erewrite bind_Ok by (rewrite table_handler; exact Eh). cbv beta iota. unfold syscall_return.
    by erewrite bind_Ok by (apply (store_word_Ok s1 src tf_x0 pg1); [done|done|rewrite Hl1; vm_compute; lia]). }
  unfold trap_global_handler. rewrite Hec, Hiss.
  change (ESR_EC_SVC64 =? ESR_EC_UNKNOWN) with false. change (ESR_EC_SVC64 =? ESR_EC_SVC64) with true. cbv beta iota zeta.
  by erewrite bind_Ok by exact Ed.
Qed.

Lemma argint_Ok s p x u src pgs k w : cpu (k_sys s) me = Some u → cpu_proc u = Some p → lookup_proc (k_sys s) p = Some x →
  p_tf x = src + tf_off → kernel_page src → pm_mem (k_mem s) !! src = Some pgs → (k ≤ 5)%nat → saved pgs k = Some w →
  argint me k s = Ok (Some (i32 w)) s.
Proof.
  intros Eu Hp Ex Etf Hk Ep Hle Ew. unfold argint. erewrite bind_Ok by (apply on_sys_get; by eapply current_Ok).
  rewrite (proj2 (Nat.ltb_ge _ _)) by lia. unfold get_tf.
  erewrite bind_Ok; [reflexivity|]. erewrite bind_Ok by (by apply on_sys_get, get_proc_Ok). rewrite Etf. by eapply load_word_Ok.
Qed.

(** A page that is neither free nor in the address space of the caller. *)
Record own_frame s x free (src : Z) : Prop := {
  of_pt : pt_inv (pm_mem (k_mem s)) (p_pgdir x) (src :: free);
  of_us : uspace (pm_mem (k_mem s)) (p_pgdir x) (src :: free)
}.
Lemma clone_Ok s c p x free n src pgs w1 : fork_pre kend me s c p x free n src pgs →
  saved pgs 0 = Some 17 → saved pgs 1 = Some w1 →
  run_handler SYS_clone s = (r ← fork kend me initenter fuel; mret (Some r)) s.
Proof.
  intros [_ _ _ _ (u & Fu & Fp) F6 _ _ _ _ _ _ _ _ _ _ (Ftf & Fk & _ & Fpg & _) _ _] E0 E1. cbn [handler]. unfold sys_clone.
  rewrite bind_assoc. erewrite bind_Ok by (eapply (argint_Ok s p x u src pgs 0); (done || lia)). cbv beta iota.
  rewrite bind_assoc. by erewrite bind_Ok by (eapply (argint_Ok s p x u src pgs 1); (done || lia)).
Qed.

(** The address space of the child does not contain a page that was not free. *)
Lemma child_space (mm mm' : PMemory) root newroot stp pgs free free' src :
  child_memory kend mm mm' root newroot stp pgs free free' → src ∉ free →
  pt_inv (pm_mem mm') newroot [src] ∧ uspace (pm_mem mm') newroot [src].
Proof.
  intros [[_ _ Hpt] Hus _ _ _ _ Ht Hp _ _] Hsrc. split.
  - apply (pt_inv_free _ _ free'); [done|]. intros y Hy ->%list_elem_of_singleton. by apply Hsrc, Ht.
  - split; [|apply Hus]. intros va' w Hva' E. destruct (us_page _ _ _ Hus va' w Hva' E) as (H1 & _ & H3 & H4). split_and!; try done.
    intros Hy%list_elem_of_singleton. apply Hsrc. rewrite <- Hy. by apply (Hp va').
Qed.
Lemma child_other (mm mm' : PMemory) root newroot stp pgs free free' src pg va :
  child_memory kend mm mm' root newroot stp pgs free free' → src ∉ free → 0 ≤ va < 2 ^ 48 →
  ubyte (<[src := pg]> (pm_mem mm')) newroot va = ubyte (pm_mem mm') newroot va.
Proof.
  intros HM Hsrc Hva. destruct (child_space _ _ _ _ _ _ _ _ _ HM Hsrc) as [Hpt Hus]. apply (agree_ubyte _ _ _ [src]); try done.
  intros y Hy. apply lookup_insert_ne. set_solver.
Qed.

(** C4. A process that makes the system call [clone] as the C library does for
    [fork]. The exception handler finds the function by the number in [x8] and returns with
    a new process: in a slot in use, a child of the caller, with the same bytes at every user
    address in pages of its own. The saved registers of both processes are those that the
    caller had, except [x0], which is the pid of the child in the caller and 0 in the
    child; the memory of the caller and all other processes are as before. *)
Theorem clone_trap_correct s c p x free n src pgs esr w1 :
  fork_pre kend me s c p x free n src pgs → own_frame s x free src → (Z.to_nat n < fuel)%nat →
  Z.shiftr esr ESR_EC_SHIFT = ESR_EC_SVC64 → Z.land esr ESR_ISS_MASK = 0 →
  saved pgs 8 = Some (number SYS_clone) → saved pgs 0 = Some 17 → saved pgs 1 = Some w1 →
  ∃ k y stp s' pg pg', trap (p_tf x) esr s = Ok (Some ()) s' ∧
    lookup_proc (k_sys s') (c, k) = Some y ∧ (∀ q, q ≠ (c, k) → lookup_proc (k_sys s') q = lookup_proc (k_sys s) q) ∧
    p_state y ≠ UNUSED ∧ p_parent y = Some p ∧ p_tf y = stp + tf_off ∧
    pm_mem (k_mem s') !! src = Some pg ∧ pm_mem (k_mem s') !! stp = Some pg' ∧
    (∀ j, (j < length Trapframe)%nat →
       pg !! (tf_idx + j)%nat = (if decide (j = tf_x 0) then Some (u64 (i32 (p_pid y))) else pgs !! (tf_idx + j)%nat) ∧
       pg' !! (tf_idx + j)%nat = (if decide (j = tf_x 0) then Some 0 else pgs !! (tf_idx + j)%nat)) ∧
    ∀ va, 0 ≤ va < 2 ^ 48 →
      ubyte (pm_mem (k_mem s')) (p_pgdir x) va = ubyte (pm_mem (k_mem s)) (p_pgdir x) va ∧
      ubyte (pm_mem (k_mem s')) (p_pgdir y) va = ubyte (pm_mem (k_mem s)) (p_pgdir x) va ∧
      ∀ va' w w', 0 ≤ va' < 2 ^ 48 → pte_of (pm_mem (k_mem s')) (p_pgdir x) va = Some w →
        pte_of (pm_mem (k_mem s')) (p_pgdir y) va' = Some w' → page_at w ≠ page_at w'.
Proof.
  intros HF [Hpt Hus] Hfuel Hec Hiss E8 E0 E1. pose proof (fp_tf _ _ _ _ _ _ _ _ _ _ HF) as (Etf & Hk & Hsrc & Ep & Hl).
  destruct (fork_Ok kend me Hkend initenter fuel s c p x free n src pgs HF Hfuel)
    as (k & x0 & y & stp & free' & s1 & Ef & _ & _ & _ & Ey & Hq & Hrun & Hpar & _ & _ & _ & Htf & _ & _ & HM & _ & _).
  pose proof HM as [_ _ _ Hb (pg' & Epg' & Hpg') Ho _ _ Hst Hown].
  assert (pm_mem (k_mem s1) !! src = Some pgs) as Ep1 by (by rewrite Ho).
  assert (stp ≠ src) as Hne.
  { intros ->. done. }
  set (pg := <[(tf_idx + tf_x 0)%nat := u64 (i32 (p_pid y))]> pgs).
  set (m2 := set_pm_mem (<[src := pg]> (pm_mem (k_mem s1))) (k_mem s1)).
  exists k, y, stp, (set_k_mem m2 s1), pg, pg'. split_and!; try done; try congruence.
  - rewrite Etf. eapply svc_Ok; try done. erewrite clone_Ok by done. by erewrite bind_Ok by exact Ef.
  - apply lookup_insert_eq.
  - cbn. by rewrite lookup_insert_ne.
  - intros j Hj. split; [|by apply Hpg']. unfold pg. case_decide as Ej.
    + subst j. apply list_lookup_insert_eq. rewrite Hl. vm_compute. lia.
    + apply list_lookup_insert_ne. lia.
  - destruct (child_space _ _ _ _ _ _ _ _ _ HM Hsrc) as [Hptc Husc].
    intros va Hva. split_and!.
    + apply (agree_ubyte _ _ _ (src :: free)); try done. intros z Hz. cbn. rewrite lookup_insert_ne by set_solver. apply Ho. set_solver.
    + rewrite <- (proj2 (Hb va Hva)). by eapply child_other.
    + intros va' w w' Hva' Ew Ew'. apply (Hown va va'); try done.
      * rewrite <- Ew. symmetry. apply (agree_pte_of _ _ _ (src :: free)); [|intros z Hz; cbn; apply lookup_insert_ne; set_solver].
        eapply (agree_pt_inv kend Hkend); [exact Hpt|intros z Hz; apply Ho; set_solver|done].
      * rewrite <- Ew'. symmetry. apply (agree_pte_of _ _ _ [src]); [done|]. intros z Hz. cbn. apply lookup_insert_ne. set_solver.
Qed.
End trap.

(** ** Example: the process of ProcSpec.v makes the call; nothing of the disk, of the
    console or of an interrupt is used *)
Definition clone_frame : page := <[(tf_idx + tf_x 8)%nat := 220]> (<[(tf_idx + tf_x 0)%nat := 17]> zero_page).
(** The numbers of 64-bit ARM. *)
Definition arm64_number (a : syscall) : Z :=
  match a with
  | SYS_set_tid_address => 96 | SYS_ioctl => 29 | SYS_gettid => 178 | SYS_rt_sigprocmask => 135 | SYS_brk => 214
  | SYS_execve => 221 | SYS_sched_yield => 124 | SYS_clone => 220 | SYS_wait4 => 260 | SYS_exit_group => 94
  | SYS_exit => 93 | SYS_dup => 23 | SYS_chdir => 49 | SYS_fstat => 80 | SYS_newfstatat => 79 | SYS_mkdirat => 34
  | SYS_mknodat => 33 | SYS_openat => 56 | SYS_writev => 66 | SYS_read => 63 | SYS_write => 64 | SYS_close => 57
  | SYS_myyield => SYSNO_myyield
  end.
#[local] Instance no_disk : BlockCache unit := {
  bc_acquire _ _ := Undef; bc_get _ _ := Undef; bc_set _ _ _ := Undef; bc_sync _ _ _ := Undef; bc_release _ _ := Undef;
  bc_alloc _ _ := Undef; bc_free _ _ _ := Undef
}.
#[local] Instance no_ops : Transactions unit := { bc_begin _ := Undef; bc_end _ _ := Undef }.
#[local] Instance no_pool : ObjectPool unit := { op_init _ _ := Undef; op_alloc _ := Undef; op_free _ _ := Undef }.
#[local] Instance no_mmio : Mmio (Kernel unit unit unit unit) := { device_get_u32 _ _ := Undef; device_put_u32 _ _ _ := Undef }.

Lemma arm64_numbers : numbers_ok arm64_number.
Proof.
  split.
  - by intros [] [].
  - intros []; vm_compute; intuition congruence.
Qed.

Lemma clone_trap_correct_witness : ∃ m s',
  trap_global_handler (mkSuperBlock 0 0 0 0 0 0 0) demo_kend 0 (mkAbi (-100) 1 2 64 128 (λ _ l, l))
    (mkElf 64 56 (λ _, mkEhdr [] 0 0 0) (λ _, mkPhdr 0 0 0 0 0) [] 1 6 0)
    (λ _ _ _, Undef) (λ _ _ _ _, Undef) [] 0 [] 2 0 arm64_number (mkInterrupts [] None 0) (tf_page + tf_off) (Z.shiftl ESR_EC_SVC64 ESR_EC_SHIFT)
    (demo_kernel fork_table m) = Ok (Some ()) s' ∧
  ∃ k y pg, lookup_proc (k_sys s') (0%nat, k) = Some y ∧ p_state y ≠ UNUSED ∧ p_parent y = Some (0, 0)%nat ∧
    pm_mem (k_mem s') !! tf_page = Some pg ∧ saved pg 0 = Some (u64 (i32 (p_pid y))) ∧
    ubyte (pm_mem (k_mem s')) (p_pgdir y) 100 = ubyte (pm_mem m) um_root 100.
Proof.
  destruct um_tf as (m0 & free & Hvm & Hpt & HU & Htf & Hl & Hp & Etf).
  destruct (write_other demo_kend ltac:(vm_compute; congruence) m0 um_root free tf_page clone_frame Hvm Hpt HU Htf) as (W1 & W2 & W3 & W4 & _).
  match type of W1 with vm_ok _ ?mm _ _ => exists mm; set (m := mm) in * end.
  edestruct (clone_trap_correct (mkSuperBlock 0 0 0 0 0 0 0) demo_kend 0 (mkAbi (-100) 1 2 64 128 (λ _ l, l))
    (mkElf 64 56 (λ _, mkEhdr [] 0 0 0) (λ _, mkPhdr 0 0 0 0 0) [] 1 6 0) ltac:(vm_compute; congruence)
    (λ _ _ _, Undef) (λ _ _ _ _, Undef) [] 0 [] 2 0 arm64_number (mkInterrupts [] None 0) arm64_numbers
    (demo_kernel fork_table m) 0 (0, 0)%nat demo_parent free 1 tf_page clone_frame (Z.shiftl ESR_EC_SVC64 ESR_EC_SHIFT) 0)
    as (k & y & stp & s' & pg & pg' & E & Ey & _ & Hr & Hpar & _ & Ep & _ & Hreg & Hb).
  - apply demo_fork_pre; try done; [intros va Hva; by rewrite W4, Hp by done|apply lookup_insert_eq].
  - split; [exact W2|exact W3].
  - lia.
  - reflexivity.
  - reflexivity.
  - reflexivity.
  - reflexivity.
  - reflexivity.
  - exists s'. split; [exact E|]. exists k, y, pg. split; [exact Ey|]. split; [exact Hr|]. split; [exact Hpar|]. split; [exact Ep|]. split.
    + exact (proj1 (Hreg (tf_x 0) ltac:(vm_compute; lia))).
    + exact (proj1 (proj2 (Hb 100 ltac:(lia)))).
Defined.
