(* ===== verification/Format.v ===== *)
(** * Formatted output (common/format.c)

    [put_char] is a callback on a state of its own. The format is the string up to
    its terminator, and the argument list a list of 64-bit words and strings, as
    [va_arg] reads them: an integer type takes the low bits of its word. *)
From S2P Require Import Prelude.

(** An argument: a word, or a pointer to a string ([None] is null). *)
Inductive va := VWord (w : Z) | VStr (s : option (list Z)).

(** ["0123456789abcdef"] *)
Definition digit : list Z := [48; 49; 50; 51; 52; 53; 54; 55; 56; 57; 97; 98; 99; 100; 101; 102].
Definition sizeof_buf : nat := 64.
Definition minus : Z := 45.
Definition percent : Z := 37.
Definition letter_c : Z := 99.
Definition letter_s : Z := 115.
(** ["(null)"] *)
Definition null_text : list Z := [40; 110; 117; 108; 108; 41].

Section format.
Context {S : Type} (put_char : Z → M S unit).

(** [do *pos++ = digit[v % base]; while (v /= base);] on the part of [buf] already
    written, last character first. *)
Fixpoint digits_loop (fuel : nat) (v base : Z) (buf : list Z) : M S (list Z) :=
  match fuel with
  | O => nofuel
  | Datatypes.S fuel' =>
      d ← derefM (digit !! Z.to_nat (v mod base));
      if (sizeof_buf <=? length buf)%nat then undef
      else
        let v := v / base in
        if negb (v =? 0) then digits_loop fuel' v base (d :: buf) else mret (d :: buf)
  end.

Fixpoint put_all (l : list Z) : M S unit :=
  match l with [] => mret () | c :: l' => put_char c;; put_all l' end.

Definition _print_int (u base : Z) (is_signed : bool) : M S unit :=
  let v := u64 u in
  v ← (if is_signed && (u <? 0) then put_char minus;; mret (u64 (- v)) else mret v);
  buf ← digits_loop (Datatypes.S sizeof_buf) v base [];
  put_all buf.

(** [va_arg] for a word and for a string. *)
Definition va_word (args : list va) : M S (Z * list va) :=
  match args with VWord w :: args' => mret (w, args') | _ => undef end.
Definition va_str (args : list va) : M S (option (list Z) * list va) :=
  match args with VStr s :: args' => mret (s, args') | _ => undef end.

(** The integer directives: identifier, conversion to [i64], base and sign. *)
Definition int_cases : list (list Z * (Z → Z) * Z * bool) := [
  ([117], u32, 10, false);               (* u *)
  ([108; 108; 117], (λ w, i64 (u64 w)), 10, false); (* llu *)
  ([100], i32, 10, true);                (* d *)
  ([108; 108; 100], i64, 10, true);      (* lld *)
  ([120], u32, 16, false);               (* x *)
  ([108; 108; 120], (λ w, i64 (u64 w)), 16, false); (* llx *)
  ([112], (λ w, i64 (u64 w)), 16, false);           (* p *)
  ([122; 117], (λ w, i64 (u64 w)), 10, false);      (* zu *)
  ([122; 100], i64, 10, true)            (* zd *)
].
(** [strncmp(pos, ident, sizeof(ident) - 1) == 0] *)
Definition starts_with (ident pos : list Z) : bool := bool_decide (take (length ident) pos = ident).

(** The chain of [_INT_CASE]s at [pos]: the rest of the format and of the arguments,
    or [None] when no directive matches. *)
Fixpoint int_case (cases : list (list Z * (Z → Z) * Z * bool)) (pos : list Z) (args : list va) : M S (option (list Z * list va)) :=
  match cases with
  | [] => mret None
  | (ident, conv, base, sign) :: cases' =>
      if starts_with ident pos then
        ' (w, args) ← va_word args;
        _print_int (conv w) base sign;;
        mret (Some (drop (length ident) pos, args))
      else int_case cases' pos args
  end.

Fixpoint vformat_loop (fuel : nat) (pos : list Z) (args : list va) : M S unit :=
  match fuel with
  | O => nofuel
  | Datatypes.S fuel' =>
      match pos with
      | [] => mret ()
      | c :: pos =>
          if c =? percent then
            let other :=
              r ← int_case int_cases pos args;
              match r with
              | Some (pos', args) => vformat_loop fuel' pos' args
              | None => put_char c;; vformat_loop fuel' pos args
              end in
            match pos with
            | [] => other
            | d :: pos' =>
                if d =? percent then put_char percent;; vformat_loop fuel' pos' args
                else if d =? letter_c then
                  ' (w, args) ← va_word args;
                  put_char (u8 w);;
                  vformat_loop fuel' pos' args
                else if d =? letter_s then
                  ' (s, args) ← va_str args;
                  put_all (default null_text s);;
                  vformat_loop fuel' pos' args
                else other
            end
          else put_char c;; vformat_loop fuel' pos args
      end
  end.
Definition vformat (fmt : list Z) (args : list va) : M S unit := vformat_loop (Datatypes.S (length fmt)) fmt args.
Definition format (fmt : list Z) (args : list va) : M S unit := vformat fmt args.
End format.

(** ** Numerals *)

(** The digits of [v] in base [base], most significant first, without leading zeros. *)
Record numeral (base v : Z) (ds : list Z) : Prop := {
  nm_value : foldl (λ a d, a * base + d) 0 ds = v;
  nm_digits : Forall (λ d, 0 ≤ d < base) ds;
  nm_first : head ds ≠ Some 0 ∨ ds = [0];
  nm_ne : ds ≠ []
}.
(** [0] to [9], then [a] to [f]. *)
Definition digit_char (d : Z) : Z := if d <? 10 then 48 + d else 87 + d.
(** An integer as it is printed. *)
Definition shows (base z : Z) (out : list Z) : Prop :=
  ∃ ds, numeral base (Z.abs z) ds ∧ out = (if z <? 0 then [minus] else []) ++ (digit_char <$> ds).

Lemma numeral_one base v : 0 ≤ v < base → numeral base v [v].
Proof.
  intros H. constructor; [simpl; lia|by apply Forall_singleton|destruct (decide (v = 0)) as [->|]; [by right|left; by intros [= ->]]|done].
Qed.
Lemma numeral_snoc base v ds : 0 < base → 0 < v / base → numeral base (v / base) ds → numeral base v (ds ++ [v mod base]).
Proof.
  intros Hb Hv [H1 H2 H3 H4]. constructor.
  - rewrite foldl_app, H1. simpl. pose proof (Z.div_mod v base ltac:(lia)). lia.
  - apply Forall_app. split; [done|]. apply Forall_singleton. by apply Z.mod_pos_bound.
  - left. destruct H3 as [H3| ->]; [by destruct ds|]. simpl in H1. lia.
  - by destruct ds.
Qed.
(** Two numerals of a number are equal, so a number can be read back. *)
Lemma numeral_unique base ds : ∀ v ds', 1 < base → numeral base v ds → numeral base v ds' → ds = ds'.
Proof.
  assert (Hpos : ∀ l, 1 < base → Forall (λ d, 0 ≤ d < base) l → 0 ≤ foldl (λ a d, a * base + d) 0 l).
  { intros l Hb. induction l as [|d l IH] using rev_ind; [done|]. rewrite Forall_app, Forall_singleton, foldl_app. simpl. intros [? ?]. specialize (IH ltac:(done)). nia. }
  assert (Hnz : ∀ l, 1 < base → Forall (λ d, 0 ≤ d < base) l → head l ≠ Some 0 → l ≠ [] → 0 < foldl (λ a d, a * base + d) 0 l).
  { intros l Hb. induction l as [|d l IH] using rev_ind; [done|]. rewrite Forall_app, Forall_singleton, foldl_app. simpl. intros [Hl Hd] Hh _.
    destruct l as [|d' l]; [simpl in *; assert (d ≠ 0) by congruence; lia|]. specialize (IH Hl Hh ltac:(done)). nia. }
  induction ds as [|d ds IH] using rev_ind; intros v ds' Hb [H1 H2 H3 H4] [H1' H2' H3' H4']; [done|].
  destruct ds' as [|d' ds' _] using rev_ind; [done|].
  rewrite Forall_app, Forall_singleton in H2. rewrite Forall_app, Forall_singleton in H2'. rewrite foldl_app in H1. rewrite foldl_app in H1'. simpl in H1, H1'.
  set (x := foldl _ 0 ds) in *. set (y := foldl _ 0 ds') in *.
  assert (x = y ∧ d = d') as [Exy ->] by (destruct H2, H2'; assert (x = y) by nia; lia).
  destruct ds as [|e ds], ds' as [|e' ds']; [done| | |].
  - exfalso. subst x y. destruct H3' as [H3'|[=]]; [|by destruct ds']. pose proof (Hnz (e' :: ds') Hb (proj1 H2') ltac:(done) ltac:(done)). simpl in *. lia.
  - exfalso. subst x y. destruct H3 as [H3|[=]]; [|by destruct ds]. pose proof (Hnz (e :: ds) Hb (proj1 H2) ltac:(done) ltac:(done)). simpl in *. lia.
  - f_equal. apply (IH x (e' :: ds') Hb); [constructor|constructor]; try done; try apply H2; try apply H2'.
    + left. by destruct H3 as [H3|[=]]; [|destruct ds].
    + left. by destruct H3' as [H3'|[=]]; [|destruct ds'].
Qed.

(** ** The printer *)

(** [put_char] for an output buffer. *)
Definition put (c : Z) : M (list Z) unit := modify (λ o, o ++ [c]).

Lemma put_all_Ok l : ∀ o, put_all put l o = Ok () (o ++ l).
Proof.
  induction l as [|c l IH]; intros o; simpl; [by rewrite app_nil_r|]. erewrite bind_Ok by done. by rewrite IH, <- app_assoc.
Qed.
Lemma digit_lookup d : 0 ≤ d < 16 → digit !! Z.to_nat d = Some (digit_char d).
Proof.
  intros Hd. rewrite <- (Z2Nat.id d) at 2 by lia. assert (Z.to_nat d < 16)%nat as Hn by lia. revert Hn. generalize (Z.to_nat d). intros n Hn.
  do 16 (destruct n as [|n]; [done|]). lia.
Qed.
Lemma digits_loop_Ok (n : nat) : ∀ fuel v base (buf : list Z) (s : list Z), 2 ≤ base ≤ 16 → 0 ≤ v < base ^ Z.of_nat n → (1 ≤ n ≤ fuel)%nat →
  (length buf + n ≤ sizeof_buf)%nat → ∃ ds, digits_loop fuel v base buf s = Ok ((digit_char <$> ds) ++ buf) s ∧ numeral base v ds.
Proof.
  induction n as [|n IH]; intros fuel v base buf s Hb Hv Hn Hl; [lia|]. destruct fuel as [|fuel]; [lia|].
  cbn [digits_loop]. pose proof (Z.mod_pos_bound v base ltac:(lia)) as Hm.
  assert (Hd : digit !! Z.to_nat (v mod base) = Some (digit_char (v mod base))).
  { by apply digit_lookup; lia. }
  erewrite bind_Ok by (by rewrite Hd). rewrite (proj2 (Nat.leb_gt _ _)) by (unfold sizeof_buf in *; lia).
  destruct (v / base =? 0) eqn:E; simpl.
  - apply Z.eqb_eq in E. exists [v mod base]. split; [done|]. replace (v mod base) with v; [|rewrite Z.mod_eq, E by lia; lia].
    apply numeral_one. rewrite Z.mod_eq, E in Hm by lia. lia.
  - apply Z.eqb_neq in E. assert (Hq : 0 < v / base) by (pose proof (Z.div_pos v base ltac:(lia) ltac:(lia)); lia).
    rewrite Nat2Z.inj_succ, Z.pow_succ_r in Hv by lia. assert (Hv' : v / base < base ^ Z.of_nat n) by (apply Z.div_lt_upper_bound; lia).
    destruct n as [|n]; [simpl in Hv'; lia|].
    destruct (IH fuel (v / base) base (digit_char (v mod base) :: buf) s) as (ds & -> & Hds); [lia|lia|lia|simpl; lia|].
    exists (ds ++ [v mod base]). rewrite fmap_app, <- app_assoc. split; [done|]. apply numeral_snoc; [lia|lia|done].
Qed.
(** The value that [_print_int] shows for [u]. *)
Definition shown (u : Z) (is_signed : bool) : Z := if is_signed then u else u64 u.
Lemma print_int_Ok u base sign o : 2 ≤ base ≤ 16 → - 2 ^ 63 ≤ u < 2 ^ 63 →
  ∃ out, _print_int put u base sign o = Ok () (o ++ out) ∧ shows base (shown u sign) out.
Proof.
  intros Hb Hu. unfold _print_int, shown. pose proof (u64_range u) as Hr.
  assert (Hpow : 2 ^ 64 ≤ base ^ Z.of_nat 64) by (apply Z.pow_le_mono_l; lia).
  destruct (sign && (u <? 0)) eqn:E.
  - apply andb_true_iff in E as [-> E]. apply Z.ltb_lt in E.
    assert (Hv : u64 (- u64 u) = - u). { unfold u64, wrap. rewrite <- (Z.mod_unique_pos u (2 ^ 64) (-1) (u + 2 ^ 64)) by lia.
      symmetry. apply (Z.mod_unique_pos _ (2 ^ 64) (-1)); lia. }
    erewrite bind_Ok by done. rewrite Hv.
    destruct (digits_loop_Ok 64 65 (- u) base [] (o ++ [minus])) as (ds & E1 & Hds); [lia|lia|lia|done|].
    exists (minus :: (digit_char <$> ds)). erewrite bind_Ok by exact E1. rewrite put_all_Ok, app_nil_r, <- app_assoc. split; [done|].
    exists ds. replace (Z.abs u) with (- u) by lia. split; [done|]. by rewrite (proj2 (Z.ltb_lt _ _) E).
  - erewrite bind_Ok by done. destruct (digits_loop_Ok 64 65 (u64 u) base [] o) as (ds & E1 & Hds); [lia|lia|lia|done|].
    exists (digit_char <$> ds). erewrite bind_Ok by exact E1. rewrite put_all_Ok, app_nil_r. split; [done|].
    assert (Ez : (if sign then u else u64 u) = u64 u).
    { destruct sign; [|done]. simpl in E. apply Z.ltb_ge in E. symmetry. apply u64_small. lia. }
    rewrite Ez. exists ds. replace (Z.abs (u64 u)) with (u64 u) by lia. split; [done|]. by rewrite (proj2 (Z.ltb_ge _ _)) by lia.
Qed.

(** ** Formats *)

(** The integer directives: how each is written, the base it prints in, and the value
    it gives to the 64-bit word of its argument: the low 32 or all 64 bits, as an
    unsigned or as a two's complement number. *)
Inductive directive := Du | Dllu | Dd | Dlld | Dx | Dllx | Dp | Dzu | Dzd.
Definition written (d : directive) : list Z :=
  match d with
  | Du => str "u" | Dllu => str "llu" | Dd => str "d" | Dlld => str "lld" | Dx => str "x"
  | Dllx => str "llx" | Dp => str "p" | Dzu => str "zu" | Dzd => str "zd"
  end.
Definition base_of (d : directive) : Z := match d with Dx | Dllx | Dp => 16 | _ => 10 end.
Definition value_of (d : directive) (w : Z) : Z :=
  match d with
  | Du | Dx => w mod 2 ^ 32
  | Dllu | Dllx | Dp | Dzu => w mod 2 ^ 64
  | Dd => (w + 2 ^ 31) mod 2 ^ 32 - 2 ^ 31
  | Dlld | Dzd => (w + 2 ^ 63) mod 2 ^ 64 - 2 ^ 63
  end.

(** A format as a list of pieces: a character that is not a percent sign, [%%], [%c],
    [%s], one of the integer directives, or a percent sign before a character that
    begins none of these. *)
Inductive piece := Lit (c : Z) | Percent | Char | Str | Int (d : directive) | Stray (c : Z).
Definition text (p : piece) : list Z :=
  match p with
  | Lit c => [c]
  | Percent => str "%%"
  | Char => str "%c"
  | Str => str "%s"
  | Int d => str "%" ++ written d
  | Stray c => str "%" ++ [c]
  end.
(** The pieces fit the arguments. *)
Fixpoint fits (ps : list piece) (args : list va) : Prop :=
  match ps with
  | [] => True
  | Lit c :: ps' => c ≠ 37 ∧ fits ps' args
  | Percent :: ps' => fits ps' args
  | Str :: ps' => match args with VStr _ :: args' => fits ps' args' | _ => False end
  | (Char | Int _) :: ps' => match args with VWord _ :: args' => fits ps' args' | _ => False end
  | Stray c :: ps' => c ∉ str "%csuldxpz" ∧ fits ps' args
  end.
(** What the pieces print. *)
Inductive renders : list piece → list va → list Z → Prop :=
| renders_nil args : renders [] args []
| renders_lit c ps args out : renders ps args out → renders (Lit c :: ps) args (c :: out)
| renders_percent ps args out : renders ps args out → renders (Percent :: ps) args (str "%" ++ out)
| renders_char w ps args out : renders ps args out → renders (Char :: ps) (VWord w :: args) (w mod 256 :: out)
| renders_str s ps args out : renders ps args out → renders (Str :: ps) (VStr s :: args) (default (str "(null)") s ++ out)
| renders_int d w ps args out num : shows (base_of d) (value_of d w) num → renders ps args out →
    renders (Int d :: ps) (VWord w :: args) (num ++ out)
| renders_stray c ps args out : renders ps args out → renders (Stray c :: ps) args (str "%" ++ [c] ++ out).

Lemma swrap_range w x : 0 < w → - 2 ^ (w - 1) ≤ swrap w x < 2 ^ (w - 1).
Proof.
  intros Hw. unfold swrap. pose proof (Z.mod_pos_bound (x + 2 ^ (w - 1)) (2 ^ w) ltac:(lia)).
  assert (2 ^ w = 2 * 2 ^ (w - 1)) by (rewrite <- Z.pow_succ_r by lia; f_equal; lia). lia.
Qed.
(** The code's table against the directives. *)
Lemma i64_u64 w : u64 (i64 (u64 w)) = w mod 2 ^ 64.
Proof.
  unfold u64, i64, swrap, wrap. change (64 - 1) with 63. rewrite Zminus_mod_idemp_l. replace (w mod 2 ^ 64 + 2 ^ 63 - 2 ^ 63) with (w mod 2 ^ 64) by lia.
  apply Z.mod_mod. lia.
Qed.
Lemma int_case_Ok d w rest args o : ∃ conv sign,
  int_case put int_cases (written d ++ rest) (VWord w :: args) o =
    (_print_int put (conv w) (base_of d) sign;; mret (Some (rest, args))) o ∧
  - 2 ^ 63 ≤ conv w < 2 ^ 63 ∧ shown (conv w) sign = value_of d w.
Proof.
  assert (Hu : - 2 ^ 63 ≤ u32 w < 2 ^ 63) by (pose proof (u32_range w); lia).
  assert (Hi : ∀ v, - 2 ^ 63 ≤ i64 v < 2 ^ 63) by (intros v; apply (swrap_range 64); lia).
  assert (Hi2 : - 2 ^ 63 ≤ i32 w < 2 ^ 63) by (pose proof (swrap_range 32 w ltac:(lia)); unfold i32; lia).
  destruct d; (eexists _, _; split; [reflexivity|split; [done|]]); unfold shown, value_of; try exact (i64_u64 w); try done;
    rewrite u64_small; [done|pose proof (u32_range w); lia|done|pose proof (u32_range w); lia].
Qed.
(** No directive is mistaken for one of the others. *)
Lemma written_first d : ∃ c l, written d = c :: l ∧ c ≠ percent ∧ c ≠ letter_c ∧ c ≠ letter_s.
Proof. destruct d; by eexists _, _. Qed.
Lemma base_of_range d : 2 ≤ base_of d ≤ 16.
Proof. destruct d; simpl; lia. Qed.
Lemma int_case_stray c rest args o : c ∉ str "%csuldxpz" → int_case put int_cases (c :: rest) args o = Ok None o.
Proof.
  intros Hc. assert (∀ ident, head ident ≠ None → head ident ≠ Some c → starts_with ident (c :: rest) = false) as Hs.
  { intros [|d l] H1 H2; [done|]. apply bool_decide_eq_false_2. intros [= E _]. by subst d. }
  unfold int_cases. cbn [int_case]. rewrite !Hs; [done|..]; simpl; try done; intros [= <-]; apply Hc; by apply (bool_decide_unpack _).
Qed.

Lemma vformat_loop_Ok ps : ∀ fuel args o, (length (ps ≫= text) < fuel)%nat → fits ps args →
  ∃ out, renders ps args out ∧ vformat_loop put fuel (ps ≫= text) args o = Ok () (o ++ out).
Proof.
  induction ps as [|p ps IH]; intros [|fuel] args o Hf HF; try lia.
  { exists []. split; [constructor|]. by rewrite app_nil_r. }
  cbn [mbind list_bind] in Hf |- *. rewrite length_app in Hf. destruct p as [c| | | |d|c].
  - destruct HF as [Hc HF]. destruct (IH fuel args (o ++ [c])) as (out & Hr & E); [simpl in Hf; lia|done|].
    exists (c :: out). split; [by constructor|]. simpl. rewrite (proj2 (Z.eqb_neq c percent) Hc). erewrite bind_Ok by done. by rewrite E, <- app_assoc.
  - destruct (IH fuel args (o ++ [percent])) as (out & Hr & E); [simpl in Hf; lia|done|].
    exists (percent :: out). split; [by constructor|]. simpl. erewrite bind_Ok by done. by rewrite E, <- app_assoc.
  - destruct args as [|[w|] args]; try done. destruct (IH fuel args (o ++ [u8 w])) as (out & Hr & E); [simpl in Hf; lia|done|].
    exists (u8 w :: out). split; [by constructor|]. simpl. erewrite bind_Ok by done. cbn beta iota. erewrite bind_Ok by done. by rewrite E, <- app_assoc.
  - destruct args as [|[|s] args]; try done. destruct (IH fuel args (o ++ default null_text s)) as (out & Hr & E); [simpl in Hf; lia|done|].
    exists (default null_text s ++ out). split; [by constructor|]. simpl. erewrite bind_Ok by done. cbn beta iota.
    erewrite bind_Ok by apply put_all_Ok. by rewrite E, <- app_assoc.
  - destruct args as [|[w|] args]; try done. cbn [text app] in Hf |- *.
    destruct (int_case_Ok d w (ps ≫= text) args o) as (conv & sign & Ei & Hw & Hv).
    destruct (print_int_Ok (conv w) (base_of d) sign o (base_of_range d) Hw) as (num & Ep & Hs). rewrite Hv in Hs.
    destruct (IH fuel args (o ++ num)) as (out & Hr & E); [simpl in Hf; lia|done|].
    exists (num ++ out). split; [by constructor|].
    destruct (written_first d) as (c & l & Ed & H1 & H2 & H3). rewrite Ed in *.
    change (str "%" ++ c :: l) with (percent :: c :: l). cbn [app] in *.
    cbn [vformat_loop]. change (percent =? percent) with true. cbn beta iota.
    rewrite (proj2 (Z.eqb_neq _ _) H1), (proj2 (Z.eqb_neq _ _) H2), (proj2 (Z.eqb_neq _ _) H3).
    erewrite bind_Ok by (rewrite Ei; by erewrite bind_Ok by exact Ep). cbn beta iota. by rewrite E, <- app_assoc.
  - destruct HF as [Hc HF]. simpl in Hf. destruct fuel as [|fuel]; [lia|].
    destruct (IH fuel args (o ++ [percent; c])) as (out & Hr & E); [lia|done|].
    exists (percent :: c :: out). split; [by constructor|].
    assert (c ≠ percent ∧ c ≠ letter_c ∧ c ≠ letter_s) as (H1 & H2 & H3)
      by (split_and!; intros ->; apply Hc; by apply (bool_decide_unpack _)).
    change (text (Stray c) ++ (ps ≫= text)) with (percent :: c :: (ps ≫= text)). cbn [vformat_loop].
    change (percent =? percent) with true. cbn beta iota.
    rewrite (proj2 (Z.eqb_neq _ _) H1), (proj2 (Z.eqb_neq _ _) H2), (proj2 (Z.eqb_neq _ _) H3).
    erewrite bind_Ok by (by apply int_case_stray). cbn beta iota. erewrite bind_Ok by done. erewrite bind_Ok by done.
    rewrite <- app_assoc. cbn [app]. by rewrite E, <- app_assoc.
Qed.

(** C37. [vformat] prints every format as it should: characters stand for
    themselves, [%s] prints the string or [(null)], [%c] one character, and each
    integer directive prints, for every word, the digits of the value of its type
    ([%u], [%d] and [%x] take the low 32 bits of the argument, the others all 64; [%d],
    [%lld] and [%zd] read them as signed) in its base (16 for [%x], [%llx] and [%p], 10
    for the others) without leading zeros, after a minus sign when it is negative (the
    smallest 64-bit integer included), never leaving its digit buffer; a percent sign
    before any other character stands for itself. The digits are determined by the
    value. *)
Theorem vformat_correct ps args o : fits ps args →
  (∃ out, renders ps args out ∧ vformat put (ps ≫= text) args o = Ok () (o ++ out)) ∧
  (∀ base v ds ds', 1 < base → numeral base v ds → numeral base v ds' → ds = ds').
Proof. intros HF. split; [apply vformat_loop_Ok; [lia|done]|]. intros base v ds ds'. apply numeral_unique. Qed.

(** [pid %d: %s = %llx], with the smallest integer. *)
Definition demo_pieces : list piece := [Lit 112; Int Dd; Lit 58; Str; Lit 61; Int Dllx; Percent; Stray 113].
Lemma vformat_correct_witness :
  (∃ out, renders demo_pieces [VWord (-2147483648); VStr None; VWord 65535] out ∧
    vformat put (demo_pieces ≫= text) [VWord (-2147483648); VStr None; VWord 65535] [] = Ok () ([] ++ out)) ∧
  vformat put (demo_pieces ≫= text) [VWord (-2147483648); VStr None; VWord 65535] [] =
    Ok () [112; 45; 50; 49; 52; 55; 52; 56; 51; 54; 52; 56; 58; 40; 110; 117; 108; 108; 41; 61; 102; 102; 102; 102; 37; 37; 113].
Proof.
  split; [|by vm_compute]. apply (vformat_correct demo_pieces [VWord (-2147483648); VStr None; VWord 65535] []).
  repeat split; try lia. apply (bool_decide_unpack _). reflexivity.
Defined.
