(* ===== verification/Uart.v ===== *)
(** * The serial port (driver/uart.c, driver/aux.h, driver/gpio.h, core/char_device.c)

    The registers are an interface, by address. The theorems assume what the manual of
    the peripheral says of the mini UART: it has a queue of received bytes and a line
    that it transmits on, and a bit that tells when it takes the next byte. *)
From S2P Require Import Prelude Locks PhysMem VirtMem UserMem KernelPt Interrupt Cache Inode Format Console.

Definition GPIO_BASE : Z := MMIO_BASE + 0x200000.
Definition GPPUD : Z := GPIO_BASE + 0x94.
Definition GPPUDCLK0 : Z := GPIO_BASE + 0x98.
Definition AUX_BASE : Z := MMIO_BASE + 0x215000.
Definition AUX_ENABLES : Z := AUX_BASE + 0x04.
Definition AUX_MU_IO_REG : Z := AUX_BASE + 0x40.
Definition AUX_MU_IER_REG : Z := AUX_BASE + 0x44.
Definition AUX_MU_IIR_REG : Z := AUX_BASE + 0x48.
Definition AUX_MU_LCR_REG : Z := AUX_BASE + 0x4C.
Definition AUX_MU_MCR_REG : Z := AUX_BASE + 0x50.
Definition AUX_MU_LSR_REG : Z := AUX_BASE + 0x54.
Definition AUX_MU_CNTL_REG : Z := AUX_BASE + 0x60.
Definition AUX_MU_BAUD_REG : Z := AUX_BASE + 0x68.
Definition AUX_UART_CLOCK : Z := 250000000.
Definition AUX_MU_BAUD (baudrate : Z) : Z := AUX_UART_CLOCK / (baudrate * 8) - 1.

Section uart.
Context {D : Type} `{Mmio D}.
(** The bound on the polls of [uart_put_char]. *)
Context (fuel : nat).

(** The waits between the accesses are not visible. [handler] is [uart_intr]. *)
Definition init_uart (handler : M D (option unit)) : M (IrqState D) unit :=
  on_kernel (device_put_u32 GPPUD 0);;
  on_kernel (device_put_u32 GPPUDCLK0 (Z.lor (Z.shiftl 1 14) (Z.shiftl 1 15)));;
  on_kernel (device_put_u32 GPPUDCLK0 0);;
  on_kernel (device_put_u32 AUX_ENABLES 1);;
  on_kernel (device_put_u32 AUX_MU_CNTL_REG 0);;
  on_kernel (device_put_u32 AUX_MU_IER_REG (Z.lor (Z.shiftl 3 2) 1));;
  on_kernel (device_put_u32 AUX_MU_LCR_REG 3);;
  on_kernel (device_put_u32 AUX_MU_MCR_REG 0);;
  on_kernel (device_put_u32 AUX_MU_BAUD_REG (AUX_MU_BAUD 115200));;
  on_kernel (device_put_u32 AUX_MU_IIR_REG 6);;
  on_kernel (device_put_u32 AUX_MU_CNTL_REG 3);;
  set_interrupt_handler IRQ_AUX handler.

(** [(char)-1]; [char] is unsigned. *)
Definition no_char : Z := 0xff.
Definition uart_get_char : M D Z :=
  state ← device_get_u32 AUX_MU_IIR_REG;
  if test state 1 || negb (Z.land state 6 =? 4) then mret no_char
  else v ← device_get_u32 AUX_MU_IO_REG; mret (Z.land v 0xff).

Fixpoint wait_transmitter (fuel : nat) : M D unit :=
  match fuel with
  | O => nofuel
  | S fuel' =>
      v ← device_get_u32 AUX_MU_LSR_REG;
      if negb (test v 0x20) then wait_transmitter fuel' else mret ()
  end.
Definition transmit (c : Z) : M D unit := wait_transmitter fuel;; device_put_u32 AUX_MU_IO_REG c.
(** The recursive call is for a carriage return, which makes no further one. *)
Definition uart_put_char (c : Z) : M D unit :=
  transmit c;; if c =? newline then transmit carriage_return else mret ().

(** ** The interrupt

    [console_intr(uart_get_char)]. The characters that [intr_char] gives to
    [uart_put_char] are those it appends to [con_out]; they are transmitted here. *)
Record UConsole := mkUConsole { uc_con : Console; uc_dev : D }.
Definition on_dev {A} (m : M D A) : M UConsole A := zoom uc_dev (λ d s, mkUConsole (uc_con s) d) m.
Definition on_con {A} (m : M Console A) : M UConsole A := zoom uc_con (λ c s, mkUConsole c (uc_dev s)) m.
Definition uart_intr_char (c : Z) : M UConsole unit :=
  n ← gets (λ s, length (con_out (uc_con s)));
  on_con (intr_char c);;
  echo ← gets (λ s, drop n (con_out (uc_con s)));
  on_dev (put_all uart_put_char echo).
Fixpoint uart_intr_loop (n : nat) : M UConsole unit :=
  match n with
  | O => nofuel
  | S n' =>
      c ← on_dev uart_get_char;
      if negb (c =? no_char) then uart_intr_char c;; uart_intr_loop n' else mret ()
  end.
(** [n] bounds the number of characters that are waiting. *)
Definition uart_intr (me : Z) (n : nat) : M UConsole unit :=
  on_con (on_conslock (acquire_spinlock me));;
  if 0 <=? panicked then on_con (on_conslock release_spinlock);; nofuel   (* [while (1);] *)
  else
    uart_intr_loop n;;
    on_con (on_conslock release_spinlock).
End uart.
Arguments UConsole D : clear implicits.

(** ** The mini UART *)

(** [ut_is d rx tx]: [rx] are the received bytes not yet read, [tx] the bytes put on
    the line. [ut_wait] counts the polls until the transmitter takes a byte. *)
Class MiniUart (D : Type) `{Mmio D} := {
  ut_is : D → list Z → list Z → Prop;
  ut_wait : D → nat;
  ut_max : nat;
  ut_wait_max : ∀ d rx tx, ut_is d rx tx → (ut_wait d < ut_max)%nat;
  ut_bytes : ∀ d rx tx, ut_is d rx tx → Forall (λ c, 0 ≤ c < 256) rx;
  ut_lsr : ∀ d rx tx, ut_is d rx tx → ∃ v d', device_get_u32 AUX_MU_LSR_REG d = Ok v d' ∧ ut_is d' rx tx ∧
    if test v 0x20 then ut_wait d' = 0%nat else (ut_wait d' < ut_wait d)%nat;
  ut_put : ∀ d rx tx c, ut_is d rx tx → ut_wait d = 0%nat →
    ∃ d', device_put_u32 AUX_MU_IO_REG c d = Ok () d' ∧ ut_is d' rx (tx ++ [u8 c]);
  ut_iir : ∀ d rx tx, ut_is d rx tx → ∃ v d', device_get_u32 AUX_MU_IIR_REG d = Ok v d' ∧ ut_is d' rx tx ∧
    test v 1 || negb (Z.land v 6 =? 4) = bool_decide (rx = []);
  ut_get : ∀ d c rx tx, ut_is d (c :: rx) tx → ∃ v d', device_get_u32 AUX_MU_IO_REG d = Ok v d' ∧ ut_is d' rx tx ∧ Z.land v 0xff = c
}.

(** What is on the line for a text: a carriage return after every newline. *)
Definition on_line (l : list Z) : list Z := l ≫= λ c, if c =? newline then [newline; carriage_return] else [u8 c].

Lemma on_line_app l l' : on_line (l ++ l') = on_line l ++ on_line l'.
Proof. apply bind_app. Qed.

Section line.
Context {D : Type} `{MiniUart D}.
Context (fuel : nat) (Hfuel : (ut_max ≤ fuel)%nat).

Lemma wait_transmitter_Ok n : ∀ d rx tx, ut_is d rx tx → (ut_wait d < n)%nat →
  ∃ d', wait_transmitter n d = Ok () d' ∧ ut_is d' rx tx ∧ ut_wait d' = 0%nat.
Proof.
  induction n as [|n IH]; intros d rx tx Hd Hn; [lia|]. cbn [wait_transmitter].
  destruct (ut_lsr d rx tx Hd) as (v & d1 & E & Hd1 & Hv). erewrite bind_Ok by exact E.
  destruct (test v 0x20); cbn [negb]; [by exists d1|]. apply IH; [done|lia].
Qed.
Lemma transmit_Ok d rx tx c : ut_is d rx tx → ∃ d', transmit fuel c d = Ok () d' ∧ ut_is d' rx (tx ++ [u8 c]).
Proof.
  intros Hd. pose proof (ut_wait_max d rx tx Hd). destruct (wait_transmitter_Ok fuel d rx tx Hd) as (d1 & E & Hd1 & Hw); [lia|].
  unfold transmit. erewrite bind_Ok by exact E. by apply ut_put.
Qed.
Lemma uart_put_char_Ok d rx tx c : ut_is d rx tx →
  ∃ d', uart_put_char fuel c d = Ok () d' ∧ ut_is d' rx (tx ++ on_line [c]).
Proof.
  intros Hd. destruct (transmit_Ok d rx tx c Hd) as (d1 & E1 & H1). unfold uart_put_char. erewrite bind_Ok by exact E1.
  unfold on_line. cbn [mbind list_bind]. rewrite app_nil_r. destruct (Z.eqb_spec c newline) as [->|].
  - destruct (transmit_Ok d1 rx _ carriage_return H1) as (d2 & E2 & H2). exists d2. split; [done|].
    by rewrite <- app_assoc in H2.
  - by exists d1.
Qed.
Lemma put_line_Ok l : ∀ d rx tx, ut_is d rx tx →
  ∃ d', put_all (uart_put_char fuel) l d = Ok () d' ∧ ut_is d' rx (tx ++ on_line l).
Proof.
  induction l as [|c l IH]; intros d rx tx Hd; [exists d; by rewrite app_nil_r|].
  destruct (uart_put_char_Ok d rx tx c Hd) as (d1 & E1 & H1). destruct (IH d1 rx _ H1) as (d2 & E2 & H2).
  exists d2. cbn [put_all]. erewrite bind_Ok by exact E1. split; [done|].
  by rewrite (on_line_app [c] l : on_line (c :: l) = _), app_assoc.
Qed.
Lemma uart_get_char_Ok d rx tx : ut_is d rx tx →
  ∃ d', uart_get_char d = Ok (default no_char (head rx)) d' ∧ ut_is d' (tail rx) tx.
Proof.
  intros Hd. destruct (ut_iir d rx tx Hd) as (v & d1 & E & Hd1 & Hv). unfold uart_get_char. erewrite bind_Ok by exact E. rewrite Hv.
  destruct rx as [|c rx]; [by exists d1|]. destruct (ut_get d1 c rx tx Hd1) as (w & d2 & E2 & H2 & <-).
  exists d2. rewrite bool_decide_eq_false_2 by done. by erewrite bind_Ok by exact E2.
Qed.
End line.

(** ** The interrupt handler is [console_intr] on the received bytes *)

(** The bytes that one interrupt takes: those before the first one that equals
    [(char)-1], which ends the loop like an empty queue does. *)
Fixpoint taken (rx : list Z) : list Z :=
  match rx with
  | [] => []
  | c :: rx' => if c =? no_char then [] else c :: taken rx'
  end.

(** [intr_char] only appends to the output. *)
Definition appends (c c' : Console) : Prop := con_out c `prefix_of` con_out c'.
Definition appending {A} (m : M Console A) : Prop := ∀ s a s', m s = Ok a s' → appends s s'.
Lemma appending_bind {A B} (m : M Console A) (k : A → M Console B) : appending m → (∀ a, appending (k a)) → appending (m ≫= k).
Proof. intros Hm Hk s b s' (a & s1 & E1 & E2)%bind_Ok_inv. unfold appends. etrans; [by eapply Hm|by eapply Hk]. Qed.
Lemma appending_same {A} (m : M Console A) : (∀ s a s', m s = Ok a s' → con_out s' = con_out s) → appending m.
Proof. intros H s a s' E. unfold appends. by rewrite (H _ _ _ E). Qed.
Lemma appending_put c : appending (consputc c).
Proof.
  assert (∀ c, appending (Console.uart_put_char c)) as Hp by (intros x s a s' [= <- <-]; by eexists).
  unfold consputc. case_match; [|apply Hp]. repeat (apply appending_bind; [apply Hp|intros _]). apply Hp.
Qed.
Lemma appending_input f : appending (upd_input f).
Proof. apply appending_same. by intros s a s' [= <- <-]. Qed.
Lemma appending_wakeup : appending wakeup_readers.
Proof. apply appending_same. by intros s a s' [= <- <-]. Qed.
Lemma appending_ret {A} (a : A) : appending (mret a).
Proof. apply appending_same. by intros s b s' [= <- <-]. Qed.
Lemma appending_gets {A} (f : Console → A) : appending (gets f).
Proof. apply appending_same. by intros s b s' [= <- <-]. Qed.
Lemma appending_cell k : appending (cell k).
Proof.
  apply appending_same. intros s b s' (i & s1 & [= <- <-] & E)%bind_Ok_inv. unfold derefM in E.
  by destruct (_ !! _); [injection E as <- <-|].
Qed.
Create HintDb appending.
#[local] Hint Resolve appending_put appending_input appending_wakeup appending_ret appending_gets appending_cell : appending.
Ltac appending_steps := repeat first [progress eauto with appending | apply appending_bind; [solve [eauto with appending]|intros] | case_match].

Lemma appending_kill n : appending (kill_line n).
Proof.
  induction n as [|n IH]; [by intros s a s' E|]. cbn [kill_line]. appending_steps.
Qed.
#[local] Hint Resolve appending_kill : appending.
#[local] Opaque kill_line.
Lemma appending_intr c : appending (intr_char c).
Proof. unfold intr_char. appending_steps. Qed.

Section intr.
Context {D : Type} `{MiniUart D}.
Context (fuel : nat) (Hfuel : (ut_max ≤ fuel)%nat).

Lemma uart_intr_loop_Ok n : ∀ con con' d rx tx, ut_is d rx tx → (length (taken rx) < n)%nat → intr_loop (taken rx) con = Ok () con' →
  ∃ d' echo, uart_intr_loop fuel n (mkUConsole con d) = Ok () (mkUConsole con' d') ∧ con_out con' = con_out con ++ echo ∧
    ut_is d' (drop (S (length (taken rx))) rx) (tx ++ on_line echo).
Proof.
  induction n as [|n IH]; intros con con' d rx tx Hd Hn E; [lia|]. cbn [uart_intr_loop].
  destruct (uart_get_char_Ok d rx tx Hd) as (d1 & E1 & H1).
  erewrite bind_Ok by (by apply zoom_Ok). cbn [uc_con uc_dev]. destruct rx as [|c rx]; cbn [taken] in *.
  { injection E as <-. exists d1, []. by rewrite !app_nil_r. }
  simpl in H1 |- *. destruct (Z.eqb_spec c no_char) as [->|Hc].
  { injection E as <-. exists d1, []. by rewrite !app_nil_r. }
  simpl. cbn [intr_loop] in E. apply bind_Ok_inv in E as ([] & con1 & Ec & El).
  destruct (appending_intr c con () con1 Ec) as [e1 Eo].
  unfold uart_intr_char. destruct (put_line_Ok fuel Hfuel e1 d1 rx tx H1) as (d2 & E2 & H2).
  destruct (IH con1 con' d2 rx _ H2 ltac:(simpl in Hn; lia) El) as (d3 & e2 & E3 & Eo2 & H3).
  exists d3, (e1 ++ e2). split; [|split; [by rewrite Eo2, Eo, app_assoc|by rewrite on_line_app, app_assoc]].
  erewrite bind_Ok; [exact E3|]. erewrite bind_Ok by done. erewrite bind_Ok by (by apply zoom_Ok). erewrite bind_Ok by done.
  cbn [uc_con uc_dev]. rewrite Eo, drop_app_length. exact (zoom_Ok _ _ _ _ _ _ E2).
Qed.

(** C25. The serial interrupt. The handler takes the received bytes up to the first
    that is 255 or until none is left, runs the line editor of the console on them, and
    sends the echo back on the line, with a carriage return after every newline. *)
Theorem uart_intr_correct me n con d rx tx ready line :
  ut_is d rx tx → (length rx < n)%nat → locked (con_lock con) = false → ring (con_input con) ready line →
  ∃ con' d' echo, uart_intr fuel me n (mkUConsole con d) = Ok () (mkUConsole con' d') ∧
    console_intr me (taken rx) con = Ok () con' ∧
    ring (con_input con') (edit_chars (taken rx) ready line).1 (edit_chars (taken rx) ready line).2 ∧
    con_out con' = con_out con ++ echo ∧
    ut_is d' (drop (S (length (taken rx))) rx) (tx ++ on_line echo) ∧
    locked (con_lock con') = false.
Proof.
  intros Hd Hn Hl HR. destruct (console_intr_Ok me (taken rx) con ready line Hl HR) as (con2 & E & Hf & [S1 S2 S3 S4]).
  pose proof E as E'. unfold console_intr in E'. apply bind_Ok_inv in E' as ([] & con1 & Ea & E'). cbn [panicked Z.leb] in E'.
  change (0 <=? panicked) with false in E'. cbn beta iota in E'. apply bind_Ok_inv in E' as ([] & con3 & El & Er).
  assert (length (taken rx) ≤ length rx)%nat as Ht.
  { clear. induction rx as [|c rx IH]; simpl; [lia|]. case_match; simpl; lia. }
  destruct (uart_intr_loop_Ok n con1 con3 d rx tx Hd ltac:(lia) El) as (d' & echo & E3 & Eo & Hd').
  assert (con_out con1 = con_out con ∧ con_out con2 = con_out con3) as [Eo1 Eo2].
  { unfold on_conslock, zoom in Ea, Er. split; [by destruct (acquire_spinlock me (con_lock con)); simplify_eq|].
    by destruct (release_spinlock (con_lock con3)); simplify_eq. }
  exists con2, d', echo. split; [|split_and!; try done; congruence].
  unfold uart_intr. erewrite bind_Ok by (by apply zoom_Ok). cbn [uc_con uc_dev]. change (0 <=? panicked) with false. cbn beta iota.
  erewrite bind_Ok by exact E3. exact (zoom_Ok _ _ _ _ _ _ Er).
Qed.
End intr.

(** ** A mini UART that needs a few polls for every byte *)
Module SimUart.
Record uart := mkUart { su_rx : list Z; su_tx : list Z; su_busy : nat }.
Definition get (a : Z) : M uart Z := λ d,
  if a =? AUX_MU_LSR_REG then Ok (if decide (su_busy d = 0%nat) then 0x20 else 0) (mkUart (su_rx d) (su_tx d) (su_busy d - 1))
  else if a =? AUX_MU_IIR_REG then Ok (if decide (su_rx d = []) then 1 else 4) d
  else if a =? AUX_MU_IO_REG then Ok (default 0 (head (su_rx d))) (mkUart (tail (su_rx d)) (su_tx d) (su_busy d))
  else Ok 0 d.
Definition put (a v : Z) : M uart unit := λ d,
  if a =? AUX_MU_IO_REG then Ok () (mkUart (su_rx d) (su_tx d ++ [u8 v]) 2) else Ok () d.
#[export] Instance sim_mmio : Mmio uart := {| device_get_u32 := get; device_put_u32 := put |}.
#[export, refine] Instance sim_uart : MiniUart uart := {|
  ut_is d rx tx := su_rx d = rx ∧ su_tx d = tx ∧ Forall (λ c, 0 ≤ c < 256) rx ∧ (su_busy d < 3)%nat;
  ut_wait := su_busy;
  ut_max := 3
|}.
Proof.
  - tauto.
  - tauto.
  - intros d rx tx (<- & <- & Hb & Hn). eexists _, _. split; [done|]. split; [simpl; split_and!; [done..|lia]|]. simpl.
    case_decide; simpl; lia.
  - intros d rx tx c (<- & <- & Hb & Hn) _. eexists. split; [done|]. simpl. split_and!; [done..|lia].
  - intros d rx tx (<- & <- & Hb & Hn). eexists _, _. split; [done|]. split; [done|]. by case_decide as E; [rewrite bool_decide_eq_true_2|rewrite bool_decide_eq_false_2].
  - intros [rx0 tx0 n] c rx tx (E & <- & [Hc Hb]%Forall_cons & Hn). simpl in E. subst rx0. eexists _, _. split; [done|]. split; [done|]. simpl.
    change 0xff with (Z.ones 8). rewrite Z.land_ones by lia. by apply Z.mod_small.
Defined.
End SimUart.
Import SimUart.

(** Two lines arrive, with a correction in the second. *)
Lemma uart_intr_correct_witness :
  ∃ con' d' echo, uart_intr 3 0 10 (mkUConsole demo_console (mkUart [108; 115; 13; 120; 127; 121] [] 0)) = Ok () (mkUConsole con' d') ∧
    ring (con_input con') [108; 115; 10] [121] ∧ su_rx d' = [] ∧ su_tx d' = on_line echo.
Proof.
  destruct (uart_intr_correct (D:=uart) 3 ltac:(exact (le_n 3)) 0 10 demo_console (mkUart [108; 115; 13; 120; 127; 121] [] 0) [108; 115; 13; 120; 127; 121] [] [] [])
    as (con' & d' & echo & E & _ & HR & _ & (H1 & H2 & _) & _).
  - split_and!; [done..|by apply (bool_decide_unpack _)|simpl; lia].
  - simpl. lia.
  - done.
  - exact demo_ring.
  - exists con', d', echo. split_and!; done.
Defined.
