(* ===== verification/Printf.v ===== *)
(** * Console output (core/console.c: [puts], [printf], [_panic])

    The messages of the kernel go to the serial port under a lock. A panic sets a flag
    under this lock, and every CPU that finds the flag set stops. The functions are
    given as the operations on shared state that they execute, in their order ([instr]):
    a CPU executes them one at a time, and the operations of the CPUs interleave. What
    the functions do in between (the loops over the text, the formatting) is local to
    the CPU. *)
From S2P Require Import Prelude Locks PhysMem VirtMem UserMem KernelPt Interrupt Cache Inode Format Console Uart.

Definition PANIC_BAR_CHAR : Z := 61.
Definition PANIC_BAR_LENGTH : nat := 32.

Record ConsoleContext (D : Type) := mkContext { ctx_lock : SpinLock; panicked_flag : bool; ctx_device : D }.
Arguments mkContext {D}.
Arguments ctx_lock {D}.
Arguments panicked_flag {D}.
Arguments ctx_device {D}.

(** ** The functions *)

Inductive instr :=
| Acquire           (* [acquire_spinlock(&ctx.lock)] *)
| CheckPanicked     (* [check_panicked()] *)
| SetPanicked       (* [__atomic_store_n(&panicked_flag, true, ...)] *)
| Put (c : Z)       (* [ctx.device.put(c)] *)
| Release           (* [release_spinlock(&ctx.lock)] *)
| NoReturn.         (* [no_return()] *)
Abbreviation Code := (list instr).
Definition emit (i : instr) : M Code unit := modify (λ code, code ++ [i]).

Definition device_put (c : Z) : M Code unit := emit (Put c).
Definition _put_char (c : Z) : M Code unit := device_put c.

Definition puts (s : list Z) : M Code unit :=
  emit Acquire;;
  emit CheckPanicked;;
  put_all device_put s;;
  device_put newline;;
  emit Release.

Definition vprintf (fmt : list Z) (arg : list va) : M Code unit :=
  emit Acquire;;
  emit CheckPanicked;;
  vformat _put_char fmt arg;;
  emit Release.
Definition printf (fmt : list Z) (arg : list va) : M Code unit := vprintf fmt arg.

Definition _panic (cpuid : Z) (file : list Z) (line : Z) (fmt : list Z) (arg : list va) : M Code unit :=
  emit Acquire;;
  emit CheckPanicked;;
  emit SetPanicked;;
  put_all device_put (replicate PANIC_BAR_LENGTH PANIC_BAR_CHAR);;
  device_put newline;;
  format _put_char (strln "KERNEL PANIC at CPU %zu:") [VWord cpuid];;
  format _put_char (strln "file: %s") [VStr (Some file)];;
  format _put_char (strln "line: %zu") [VWord line];;
  vformat _put_char fmt arg;;
  device_put newline;;
  emit Release;;
  emit NoReturn.

(** ** The operations on the shared state *)

(** Whether the CPU goes on, tries the same operation again, or has entered [no_return]. *)
Inductive verdict := Go | Wait | Stop.

Section operations.
Context {D : Type} `{Mmio D}.
Context (fuel : nat).
Abbreviation Ctx := (ConsoleContext D).

Definition on_lock {A} (m : M SpinLock A) : M Ctx A := zoom ctx_lock (λ l s, mkContext l (panicked_flag s) (ctx_device s)) m.
Definition check_panicked : M Ctx verdict :=
  panicked ← gets panicked_flag;
  if (panicked : bool) then on_lock release_spinlock;; mret Stop else mret Go.

Definition exec_instr (me : Z) (i : instr) : M Ctx verdict :=
  match i with
  | Acquire => got ← on_lock (try_acquire_spinlock me); mret (if (got : bool) then Go else Wait)
  | CheckPanicked => check_panicked
  | SetPanicked => modify (λ s, mkContext (ctx_lock s) true (ctx_device s));; mret Go
  | Put c => zoom ctx_device (λ d s, mkContext (ctx_lock s) (panicked_flag s) d) (uart_put_char fuel c);; mret Go
  | Release => on_lock release_spinlock;; mret Go
  | NoReturn => mret Stop
  end.
End operations.

(** ** Formatted output over any device

    If [put_char] appends to what the device has shown, then printing on the device
    shows what printing to a buffer gives. *)
Section echoes.
Context {S : Type} (put_char : Z → M S unit) (R : S → list Z → Prop).
Hypothesis Hput : ∀ s o c, R s o → ∃ s', put_char c s = Ok () s' ∧ R s' (o ++ [c]).

Definition echoes {A} (m : M S A) (m' : M (list Z) A) : Prop :=
  ∀ s o a o', R s o → m' o = Ok a o' → ∃ s', m s = Ok a s' ∧ R s' o'.

Lemma echo_ret {A} (a : A) : echoes (mret a) (mret a).
Proof. intros s o b o' HR [= <- <-]. by exists s. Qed.
Lemma echo_bind {A B} (m : M S A) m' (k : A → M S B) k' : echoes m m' → (∀ a, echoes (k a) (k' a)) → echoes (m ≫= k) (m' ≫= k').
Proof.
  intros Hm Hk s o b o' HR (a & o1 & E1 & E2)%bind_Ok_inv. destruct (Hm s o a o1 HR E1) as (s1 & F1 & HR1).
  destruct (Hk a s1 o1 b o' HR1 E2) as (s2 & F2 & HR2). exists s2. by erewrite bind_Ok by exact F1.
Qed.
Lemma echo_fail {A} (m : M S A) m' : (∀ o a o', m' o ≠ Ok a o') → echoes m m'.
Proof. intros H s o a o' _ E. by apply H in E. Qed.
Lemma echo_deref {A} (x : option A) : echoes (derefM x) (derefM x).
Proof. destruct x; [apply echo_ret|by apply echo_fail]. Qed.
Lemma echo_put c : echoes (put_char c) (put c).
Proof. intros s o [] o' HR [= <-]. by apply Hput. Qed.

Lemma echo_put_all l : echoes (put_all put_char l) (put_all put l).
Proof. induction l as [|c l IH]; [apply echo_ret|]. apply echo_bind; [apply echo_put|done]. Qed.
Lemma echo_digits n : ∀ v base buf, echoes (digits_loop n v base buf) (digits_loop n v base buf).
Proof.
  induction n as [|n IH]; intros v base buf; [by apply echo_fail|]. cbn [digits_loop]. apply echo_bind; [apply echo_deref|]. intros d.
  case_match; [by apply echo_fail|]. case_match; [apply IH|apply echo_ret].
Qed.
Lemma echo_print_int u base sign : echoes (_print_int put_char u base sign) (_print_int put u base sign).
Proof.
  unfold _print_int. apply echo_bind.
  - case_match; [|apply echo_ret]. apply echo_bind; [apply echo_put|intros; apply echo_ret].
  - intros v. apply echo_bind; [apply echo_digits|apply echo_put_all].
Qed.
Lemma echo_word args : echoes (va_word args) (va_word args).
Proof. destruct args as [|[w|w] args]; first [apply echo_ret|by apply echo_fail]. Qed.
Lemma echo_str args : echoes (va_str args) (va_str args).
Proof. destruct args as [|[w|w] args]; first [apply echo_ret|by apply echo_fail]. Qed.
Lemma echo_int_case cases pos args : echoes (int_case put_char cases pos args) (int_case put cases pos args).
Proof.
  induction cases as [|[[[ident conv] base] sign] cases IH]; [apply echo_ret|]. cbn [int_case]. case_match; [|done].
  apply echo_bind; [apply echo_word|]. intros [w args']. apply echo_bind; [apply echo_print_int|intros; apply echo_ret].
Qed.
Lemma echo_vformat_loop n : ∀ pos args, echoes (vformat_loop put_char n pos args) (vformat_loop put n pos args).
Proof.
  induction n as [|n IH]; intros pos args; [by apply echo_fail|]. cbn [vformat_loop].
  assert (∀ c pos' args', echoes (put_char c;; vformat_loop put_char n pos' args') (put c;; vformat_loop put n pos' args')) as Hc
    by (intros; apply echo_bind; [apply echo_put|done]).
  assert (∀ c pos' args', echoes (r ← int_case put_char int_cases pos' args';
      match r with Some (p, a) => vformat_loop put_char n p a | None => put_char c;; vformat_loop put_char n pos' args' end)
    (r ← int_case put int_cases pos' args';
      match r with Some (p, a) => vformat_loop put n p a | None => put c;; vformat_loop put n pos' args' end)) as Ho.
  { intros. apply echo_bind; [apply echo_int_case|]. intros [[p a]|]; [apply IH|apply Hc]. }
  destruct pos as [|c pos]; [apply echo_ret|]. destruct (c =? percent); [|apply Hc].
  destruct pos as [|d pos]; [apply Ho|]. destruct (d =? percent); [apply Hc|].
  destruct (d =? letter_c); [apply echo_bind; [apply echo_word|intros [w args']; apply Hc]|].
  destruct (d =? letter_s); [|apply Ho]. apply echo_bind; [apply echo_str|]. intros [s args']. apply echo_bind; [apply echo_put_all|done].
Qed.
Lemma echo_vformat fmt args : echoes (vformat put_char fmt args) (vformat put fmt args).
Proof. apply echo_vformat_loop. Qed.
End echoes.

(** ** What the calls show *)

Inductive call :=
| CPuts (s : list Z)
| CPrintf (ps : list piece) (args : list va)
| CPanic (file : list Z) (line : Z) (ps : list piece) (args : list va).
Definition call_ok (c : call) : Prop :=
  match c with
  | CPuts _ => True
  | CPrintf ps args => fits ps args
  | CPanic _ line ps args => 0 ≤ line < 2 ^ 64 ∧ fits ps args
  end.
Definition is_panic (c : call) : bool := match c with CPanic _ _ _ _ => true | _ => false end.
Inductive call_text (me : Z) : call → list Z → Prop :=
| text_puts s : call_text me (CPuts s) (s ++ [newline])
| text_printf ps args out : renders ps args out → call_text me (CPrintf ps args) out
| text_panic file line ps args cpu ln out : shows 10 me cpu → shows 10 line ln → renders ps args out →
    call_text me (CPanic file line ps args)
      ((replicate 32 61 ++ [newline]) ++ (str "KERNEL PANIC at CPU " ++ cpu ++ strln ":") ++
       (str "file: " ++ file ++ [newline]) ++ (str "line: " ++ ln ++ [newline]) ++ (out ++ [newline])).

Lemma renders_lits l : ∀ ps args out, renders ((Lit <$> l) ++ ps) args out → ∃ out', out = l ++ out' ∧ renders ps args out'.
Proof.
  induction l as [|c l IH]; intros ps args out Hr; [by exists out|]. inversion Hr as [|? ? ? out1 Hr1| | | | |]; subst.
  destruct (IH _ _ _ Hr1) as (out2 & -> & H2). by exists out2.
Qed.
(** A message with one directive. *)
Definition message (l1 : list Z) (p : piece) (l2 : list Z) : list piece := (Lit <$> l1) ++ p :: (Lit <$> l2).
Lemma renders_only_lits l args out : renders (Lit <$> l) args out → out = l.
Proof. intros Hr. rewrite <- (app_nil_r (Lit <$> l)) in Hr. apply renders_lits in Hr as (o & -> & Ho). inversion Ho. by rewrite app_nil_r. Qed.
Lemma message_int l1 l2 w out : 0 ≤ w < 2 ^ 64 → renders (message l1 (Int Dzu) l2) [VWord w] out →
  ∃ num, shows 10 w num ∧ out = l1 ++ num ++ l2.
Proof.
  intros Hw (o & -> & Ho)%renders_lits. inversion Ho as [| | | | |d w' ps args out' num Hs Hr|]; subst.
  apply renders_only_lits in Hr as ->. exists num. split; [|done]. cbn [base_of value_of] in Hs. by rewrite Z.mod_small in Hs.
Qed.
Lemma message_str l1 l2 s out : renders (message l1 Str l2) [VStr (Some s)] out → out = l1 ++ s ++ l2.
Proof.
  intros (o & -> & Ho)%renders_lits. inversion Ho as [| | | |s' ps args out' Hr| |]; subst. by apply renders_only_lits in Hr as ->.
Qed.
Lemma fits_lits l : percent ∉ l → ∀ ps args, fits ps args → fits ((Lit <$> l) ++ ps) args.
Proof.
  induction l as [|c l IH]; intros Hl ps args Hf; [done|]. apply not_elem_of_cons in Hl as [Hc Hl]. split; [by apply not_eq_sym|by apply IH].
Qed.

(** ** The operations of a call *)

Definition call_code (me : Z) (c : call) : M Code unit :=
  match c with
  | CPuts s => puts s
  | CPrintf ps args => printf (ps ≫= text) args
  | CPanic file line ps args => _panic me file line (ps ≫= text) args
  end.

(** The text is put out between the check and the release; a panic sets the flag before
    it and does not return after it. *)
Definition text_code (c : call) (out : list Z) : Code := (Put <$> out) ++ Release :: (if is_panic c then [NoReturn] else []).
Definition body_code (c : call) (out : list Z) : Code := (if is_panic c then [SetPanicked] else []) ++ text_code c out.

Section codes.
Context (pre : Code).
Definition emitted (code : Code) (o : list Z) : Prop := code = pre ++ (Put <$> o).

Lemma device_put_Ok s o c : emitted s o → ∃ s', device_put c s = Ok () s' ∧ emitted s' (o ++ [c]).
Proof. intros ->. eexists. split; [done|]. unfold emitted. by rewrite fmap_app, app_assoc. Qed.
Lemma put_all_device s o t : emitted s o → ∃ s', put_all device_put t s = Ok () s' ∧ emitted s' (o ++ t).
Proof. intros HR. exact (echo_put_all _ emitted device_put_Ok t s o () _ HR (put_all_Ok t o)). Qed.
Lemma format_device s o ps args : emitted s o → fits ps args →
  ∃ out s', renders ps args out ∧ vformat _put_char (ps ≫= text) args s = Ok () s' ∧ emitted s' (o ++ out).
Proof.
  intros HR Hf. destruct (vformat_loop_Ok ps (Datatypes.S (length (ps ≫= text))) args o ltac:(lia) Hf) as (out & Hr & E).
  destruct (echo_vformat device_put emitted device_put_Ok (ps ≫= text) args s o () _ HR E) as (s' & E' & HR'). by exists out, s'.
Qed.
(** A line with a number, and a line with a string. *)
Lemma format_int s o l1 l2 w : emitted s o → 0 ≤ w < 2 ^ 64 → percent ∉ l1 → percent ∉ l2 →
  ∃ num s', shows 10 w num ∧ format _put_char (message l1 (Int Dzu) l2 ≫= text) [VWord w] s = Ok () s' ∧ emitted s' (o ++ l1 ++ num ++ l2).
Proof.
  intros HR Hw H1 H2. destruct (format_device s o (message l1 (Int Dzu) l2) [VWord w] HR) as (out & s' & Hr & E & HR').
  { apply fits_lits; [done|]. simpl. rewrite <- (app_nil_r (Lit <$> l2)). by apply fits_lits. }
  apply message_int in Hr as (num & Hn & ->); [|done]. by exists num, s'.
Qed.
Lemma format_str s o l1 l2 t : emitted s o → percent ∉ l1 → percent ∉ l2 →
  ∃ s', format _put_char (message l1 Str l2 ≫= text) [VStr (Some t)] s = Ok () s' ∧ emitted s' (o ++ l1 ++ t ++ l2).
Proof.
  intros HR H1 H2. destruct (format_device s o (message l1 Str l2) [VStr (Some t)] HR) as (out & s' & Hr & E & HR').
  { apply fits_lits; [done|]. simpl. rewrite <- (app_nil_r (Lit <$> l2)). by apply fits_lits. }
  apply message_str in Hr as ->. by exists s'.
Qed.
End codes.

Lemma panic_code me file line ps args : 0 ≤ me < 2 ^ 64 → 0 ≤ line < 2 ^ 64 → fits ps args →
  ∃ out, call_text me (CPanic file line ps args) out ∧
    _panic me file line (ps ≫= text) args [] = Ok () ([Acquire; CheckPanicked; SetPanicked] ++ (Put <$> out) ++ [Release; NoReturn]).
Proof.
  intros Hme Hline Hf. set (pre := [Acquire; CheckPanicked; SetPanicked]).
  destruct (put_all_device pre pre [] (replicate PANIC_BAR_LENGTH PANIC_BAR_CHAR)) as (s3 & E3 & H3); [by unfold emitted; rewrite app_nil_r|].
  destruct (device_put_Ok pre s3 _ newline H3) as (s4 & E4 & H4).
  destruct (format_int pre s4 _ (str "KERNEL PANIC at CPU ") (strln ":") me H4 Hme) as (cpu & s5 & Hcpu & E5 & H5);
    [by apply (bool_decide_unpack _)..|].
  destruct (format_str pre s5 _ (str "file: ") [newline] file H5) as (s6 & E6 & H6); [by apply (bool_decide_unpack _)..|].
  destruct (format_int pre s6 _ (str "line: ") [newline] line H6 Hline) as (ln & s7 & Hln & E7 & H7); [by apply (bool_decide_unpack _)..|].
  destruct (format_device pre s7 _ ps args H7 Hf) as (out & s8 & Hout & E8 & H8).
  destruct (device_put_Ok pre s8 _ newline H8) as (s9 & E9 & H9).
  eexists. split; [by constructor|].
  unfold _panic. erewrite bind_Ok by done. erewrite bind_Ok by done. erewrite bind_Ok by done.
  erewrite bind_Ok by exact E3. erewrite bind_Ok by exact E4. erewrite bind_Ok by exact E5. erewrite bind_Ok by exact E6.
  erewrite bind_Ok by exact E7. erewrite bind_Ok by exact E8. erewrite bind_Ok by exact E9. erewrite bind_Ok by done.
  unfold emit, modify. rewrite H9. rewrite <- !app_assoc. done.
Qed.

Lemma call_code_Ok me c : 0 ≤ me < 2 ^ 64 → call_ok c →
  ∃ out, call_text me c out ∧ call_code me c [] = Ok () (Acquire :: CheckPanicked :: body_code c out).
Proof.
  intros Hme Hc. set (pre := [Acquire; CheckPanicked]). assert (emitted pre pre []) as H0 by (by unfold emitted; rewrite app_nil_r).
  destruct c as [t|ps args|file line ps args]; [| |by apply panic_code; [done|apply Hc..]].
  - destruct (put_all_device pre pre [] t H0) as (s2 & E2 & H2). destruct (device_put_Ok pre s2 _ newline H2) as (s3 & E3 & H3).
    eexists. split; [constructor|]. cbn [call_code]. unfold puts. erewrite bind_Ok by done. erewrite bind_Ok by done.
    erewrite bind_Ok by exact E2. erewrite bind_Ok by exact E3. unfold emit, modify. rewrite H3. by rewrite <- !app_assoc.
  - destruct (format_device pre pre [] ps args H0 Hc) as (out & s2 & Hout & E2 & H2).
    exists out. split; [by constructor|]. cbn [call_code]. unfold printf, vprintf. erewrite bind_Ok by done. erewrite bind_Ok by done.
    erewrite bind_Ok by exact E2. unfold emit, modify. rewrite H2. by rewrite <- !app_assoc.
Qed.

(** ** Interleaved calls

    Any number of CPUs call the functions, any number of times. A CPU is idle, in the
    middle of a call with the rest of its operations, or stopped in its last call.
    [mc_ret] lists the calls that have returned, in the order of their returns. *)
Inductive cpu := Idle | Busy (c : call) (code : Code) | Stopped (c : call).
Record machine (D : Type) := mkMachine { mc_ctx : ConsoleContext D; mc_cpus : list cpu; mc_ret : list (Z * call) }.
Arguments mkMachine {D}.
Arguments mc_ctx {D}.
Arguments mc_cpus {D}.
Arguments mc_ret {D}.

Section machine.
Context {D : Type} `{Mmio D}.
Context (fuel : nat).
Abbreviation Mach := (machine D).

Definition set_cpu (me : nat) (x : cpu) (s : Mach) : Mach := mkMachine (mc_ctx s) (<[me := x]> (mc_cpus s)) (mc_ret s).

(** CPU [me] calls a function. *)
Definition start_call (me : nat) (c : call) : M Mach unit := λ s,
  match call_code (Z.of_nat me) c [] with
  | Ok _ code => Ok () (set_cpu me (Busy c code) s)
  | _ => Undef
  end.
(** CPU [me] executes its next operation. *)
Definition step_cpu (me : nat) : M Mach unit :=
  cpus ← gets mc_cpus;
  match cpus !! me with
  | Some (Busy c (i :: code)) =>
      v ← zoom mc_ctx (λ x s, mkMachine x (mc_cpus s) (mc_ret s)) (exec_instr fuel (Z.of_nat me) i);
      match v with
      | Wait => mret ()
      | Stop => modify (set_cpu me (Stopped c))
      | Go =>
          match code with
          | [] => modify (λ s, mkMachine (mc_ctx s) (<[me := Idle]> cpus) (mc_ret s ++ [(Z.of_nat me, c)]))
          | _ => modify (set_cpu me (Busy c code))
          end
      end
  | _ => mret ()
  end.

Inductive console_step (s s' : Mach) : Prop :=
| con_call me c : mc_cpus s !! me = Some Idle → call_ok c → start_call me c s = Ok () s' → console_step s s'
| con_step me : step_cpu me s = Ok () s' → console_step s s'.

(** The operations that a CPU has left in its call. *)
Definition left_of (s : Mach) (me : nat) : nat := match mc_cpus s !! me with Some (Busy _ code) => length code | _ => 0 end.
(** CPU [me] is in a call and its next operation is carried out. *)
Definition advances (s : Mach) (me : nat) : Prop := ∃ s', step_cpu me s = Ok () s' ∧ (left_of s' me < left_of s me)%nat.
End machine.

(** ** The invariant

    [owner] holds the lock, [cur] is the text shown since the last return, [over] tells
    that a panic has shown all of its message; [active] are the CPUs that the stage
    speaks of, the others rest. *)
Definition at_code (me : nat) (c : call) (out : list Z) (x : cpu) (code : Code) : Prop :=
  call_text (Z.of_nat me) c out ∧ x = Busy c code.

Inductive resting (over : bool) (me : nat) : cpu → Prop :=
| rest_idle : resting over me Idle
| rest_wait c out x : at_code me c out x (Acquire :: CheckPanicked :: body_code c out) → resting over me x
| rest_stop c : over = true → resting over me (Stopped c).

Definition gone (q : nat) (c : call) (out : list Z) (cpus : list cpu) : Prop :=
  is_panic c = true ∧ call_text (Z.of_nat q) c out ∧ (cpus !! q = Some (Busy c [NoReturn]) ∨ cpus !! q = Some (Stopped c)).

Inductive stage (cpus : list cpu) : option nat → bool → list Z → bool → list nat → Prop :=
| st_free : stage cpus None false [] false []
| st_check q c out x : cpus !! q = Some x → at_code q c out x (CheckPanicked :: body_code c out) → stage cpus (Some q) false [] false [q]
| st_set q c out x : is_panic c = true → cpus !! q = Some x → at_code q c out x (SetPanicked :: text_code c out) → stage cpus (Some q) false [] false [q]
| st_talk q c done rest x flag : flag = is_panic c → cpus !! q = Some x → at_code q c (done ++ rest) x (text_code c rest) → stage cpus (Some q) flag done false [q]
| st_gone q c out : gone q c out cpus → stage cpus None true out true [q]
| st_last q c out r c' out' x : gone q c out cpus → r ≠ q → cpus !! r = Some x → at_code r c' out' x (CheckPanicked :: body_code c' out') →
    stage cpus (Some r) true out true [q; r].

Definition lock_of (name : string) (owner : option nat) : SpinLock :=
  match owner with None => init_spinlock name | Some q => mkSpinLock true (Some (Z.of_nat q)) name end.

Section invariant.
Context {D : Type} `{MiniUart D}.
Context (fuel : nat) (Hfuel : (ut_max ≤ fuel)%nat).
Context (name : string) (rx tx : list Z) (n : nat) (Hn : Z.of_nat n ≤ 2 ^ 64).
Abbreviation Mach := (machine D).
Implicit Types s : Mach.

Record inv_at (s : Mach) (outs : list (list Z)) (owner : option nat) (flag : bool) (cur : list Z) (over : bool) (active : list nat) : Prop := {
  ia_lock : ctx_lock (mc_ctx s) = lock_of name owner;
  ia_flag : panicked_flag (mc_ctx s) = flag;
  ia_dev : ut_is (ctx_device (mc_ctx s)) rx (tx ++ on_line (concat outs ++ cur));
  ia_cpus : length (mc_cpus s) = n;
  ia_ret : Forall2 (λ x out, call_text x.1 x.2 out) (mc_ret s) outs;
  ia_calm : Forall (λ x, is_panic x.2 = false) (mc_ret s);
  ia_stage : stage (mc_cpus s) owner flag cur over active;
  ia_rest : ∀ p x, mc_cpus s !! p = Some x → p ∉ active → resting over p x
}.
Definition inv s : Prop := ∃ outs owner flag cur over active, inv_at s outs owner flag cur over active.

(** What a step of CPU [me] gives. *)
Record stepped (me : nat) s (owner : option nat) (over : bool) s' : Prop := {
  sp_inv : ∃ outs' owner' flag' cur' over' active', inv_at s' outs' owner' flag' cur' over' active' ∧ (over = true → over' = true);
  sp_left : (left_of s' me < left_of s me)%nat ∨ left_of s me = 0%nat ∨ ∃ q, owner = Some q ∧ q ≠ me;
  sp_over : over = true → ctx_device (mc_ctx s') = ctx_device (mc_ctx s) ∧ mc_ret s' = mc_ret s
}.

(** One executed operation, from the operation on the context. *)
Lemma step_cpu_go me s c i j code x' : mc_cpus s !! me = Some (Busy c (i :: j :: code)) → exec_instr fuel (Z.of_nat me) i (mc_ctx s) = Ok Go x' →
  step_cpu fuel me s = Ok () (mkMachine x' (<[me := Busy c (j :: code)]> (mc_cpus s)) (mc_ret s)).
Proof. intros E Ei. unfold step_cpu. erewrite bind_Ok by done. rewrite E. by erewrite bind_Ok by (by apply zoom_Ok). Qed.
Lemma step_cpu_return me s c i x' : mc_cpus s !! me = Some (Busy c [i]) → exec_instr fuel (Z.of_nat me) i (mc_ctx s) = Ok Go x' →
  step_cpu fuel me s = Ok () (mkMachine x' (<[me := Idle]> (mc_cpus s)) (mc_ret s ++ [(Z.of_nat me, c)])).
Proof. intros E Ei. unfold step_cpu. erewrite bind_Ok by done. rewrite E. by erewrite bind_Ok by (by apply zoom_Ok). Qed.
Lemma step_cpu_stop me s c i code x' : mc_cpus s !! me = Some (Busy c (i :: code)) → exec_instr fuel (Z.of_nat me) i (mc_ctx s) = Ok Stop x' →
  step_cpu fuel me s = Ok () (mkMachine x' (<[me := Stopped c]> (mc_cpus s)) (mc_ret s)).
Proof. intros E Ei. unfold step_cpu. erewrite bind_Ok by done. rewrite E. by erewrite bind_Ok by (by apply zoom_Ok). Qed.
Lemma step_cpu_wait me s c i code x' : mc_cpus s !! me = Some (Busy c (i :: code)) → exec_instr fuel (Z.of_nat me) i (mc_ctx s) = Ok Wait x' →
  step_cpu fuel me s = Ok () (mkMachine x' (mc_cpus s) (mc_ret s)).
Proof. intros E Ei. unfold step_cpu. erewrite bind_Ok by done. rewrite E. by erewrite bind_Ok by (by apply zoom_Ok). Qed.

Lemma left_of_insert s me x (ctx : ConsoleContext D) ret y : mc_cpus s !! me = Some y →
  left_of (mkMachine ctx (<[me := x]> (mc_cpus s)) ret) me = match x with Busy _ code => length code | _ => 0%nat end.
Proof. intros E. unfold left_of. simpl. by rewrite list_lookup_insert_eq by (by eapply lookup_lt_Some). Qed.

(** The CPUs outside the stage are untouched by an update of one inside it. *)
Lemma rest_insert (cpus : list cpu) me x over over' (active active' : list nat) :
  (∀ p y, cpus !! p = Some y → p ∉ active → resting over p y) → (over = true → over' = true) →
  (∀ p, p ∈ active → p ∈ active' ∨ p = me) → resting over' me x ∨ me ∈ active' →
  ∀ p y, <[me := x]> cpus !! p = Some y → p ∉ active' → resting over' p y.
Proof.
  intros Hr Ho Ha Hme p y E Hp. destruct (decide (p = me)) as [->|Hne].
  - destruct Hme as [Hx|Hx]; [|done]. apply list_lookup_insert_Some in E as [(_ & <- & _)|[? _]]; done.
  - rewrite list_lookup_insert_ne in E by done.
    assert (p ∉ active) as Hp' by (intros Hin; by destruct (Ha p Hin)).
    destruct (Hr p y E Hp'); [constructor|by econstructor|constructor; auto].
Qed.





(** *** The steps *)

(** A CPU that waits for the lock finds it free, or held. *)
Lemma step_acquire me s outs flag cur over active c out : inv_at s outs None flag cur over active → me ∉ active →
  mc_cpus s !! me = Some (Busy c (Acquire :: CheckPanicked :: body_code c out)) → call_text (Z.of_nat me) c out →
  ∃ s', step_cpu fuel me s = Ok () s' ∧ stepped me s None over s'.
Proof.
  intros [I1 I2 I3 I4 I5 I6 I7 I8] Hme E Ht. pose proof (lookup_lt_Some _ _ _ E) as Hlt. eexists. split.
  { eapply step_cpu_go; [exact E|]. cbn [exec_instr]. erewrite bind_Ok by (apply zoom_Ok; rewrite I1; reflexivity). reflexivity. }
  split; simpl.
  - inversion I7 as [|?|?|?|q c1 out1 Hg|?]; subst.
    + exists outs, (Some me), false, [], false, [me]. split; [|done]. split; simpl; try done; try congruence.
      * by rewrite length_insert.
      * eapply (st_check _ me c out); [by apply list_lookup_insert_eq|done].
      * eapply rest_insert; [exact I8|done|set_solver|right; set_solver].
    + exists outs, (Some me), true, cur, true, [q; me]. split; [|done]. assert (me ≠ q) as Hne by set_solver. split; simpl; try done.
      * by rewrite length_insert.
      * destruct Hg as (G1 & G2 & G3). eapply (st_last _ q c1 cur me c out); [|done|by apply list_lookup_insert_eq|done].
        split_and!; [done|done|]. by rewrite list_lookup_insert_ne.
      * eapply rest_insert; [exact I8|done|set_solver|right; set_solver].
  - left. erewrite left_of_insert by exact E. unfold left_of. rewrite E. simpl. lia.
  - done.
Qed.
Lemma step_wait me s outs q flag cur over active c code : inv_at s outs (Some q) flag cur over active → q ≠ me →
  mc_cpus s !! me = Some (Busy c (Acquire :: code)) → ∃ s', step_cpu fuel me s = Ok () s' ∧ stepped me s (Some q) over s'.
Proof.
  intros HI Hne E. pose proof HI as [I1 I2 I3 I4 I5 I6 I7 I8]. eexists. split.
  { eapply step_cpu_wait; [exact E|]. cbn [exec_instr]. erewrite bind_Ok by (apply zoom_Ok; rewrite I1; reflexivity). reflexivity. }
  split; [exists outs, (Some q), flag, cur, over, active; split; [by split|done]|eauto|done].
Qed.

(** The holder checks the flag. *)
Lemma step_check me s outs c out : inv_at s outs (Some me) false [] false [me] → call_text (Z.of_nat me) c out →
  mc_cpus s !! me = Some (Busy c (CheckPanicked :: body_code c out)) →
  ∃ s', step_cpu fuel me s = Ok () s' ∧ stepped me s (Some me) false s'.
Proof.
  intros [I1 I2 I3 I4 I5 I6 I7 I8] Ht E. pose proof (lookup_lt_Some _ _ _ E) as Hlt.
  assert (∃ i code, body_code c out = i :: code) as (i & code & Eb).
  { unfold body_code, text_code. destruct (is_panic c), out; simpl; eauto. }
  eexists. split.
  { rewrite Eb in E. eapply step_cpu_go; [exact E|]. cbn [exec_instr]. unfold check_panicked. erewrite bind_Ok by done. by rewrite I2. }
  split; simpl; [|left; erewrite left_of_insert by exact E; unfold left_of; rewrite E, Eb; simpl; lia|done].
  exists outs, (Some me), false, [], false, [me]. split; [|done]. split; simpl; try done.
  - by rewrite length_insert.
  - rewrite <- Eb. simpl. unfold body_code. destruct (is_panic c) eqn:Ep; simpl.
    + eapply (st_set _ me c out); [done|by apply list_lookup_insert_eq|done].
    + eapply (st_talk _ me c [] out); [done|by apply list_lookup_insert_eq|done].
  - eapply rest_insert; [exact I8|done|set_solver|right; set_solver].
Qed.
Lemma step_set me s outs c out : inv_at s outs (Some me) false [] false [me] → is_panic c = true → call_text (Z.of_nat me) c out →
  mc_cpus s !! me = Some (Busy c (SetPanicked :: text_code c out)) →
  ∃ s', step_cpu fuel me s = Ok () s' ∧ stepped me s (Some me) false s'.
Proof.
  intros [I1 I2 I3 I4 I5 I6 I7 I8] Ep Ht E. pose proof (lookup_lt_Some _ _ _ E) as Hlt.
  assert (∃ i code, text_code c out = i :: code) as (i & code & Eb) by (unfold text_code; destruct out; simpl; eauto).
  eexists. split; [rewrite Eb in E; eapply step_cpu_go; [exact E|reflexivity]|].
  split; simpl; [|left; erewrite left_of_insert by exact E; unfold left_of; rewrite E, Eb; simpl; lia|done].
  exists outs, (Some me), true, [], false, [me]. split; [|done]. split; simpl; try done.
  - by rewrite length_insert.
  - rewrite <- Eb. simpl. eapply (st_talk _ me c [] out); [done|by apply list_lookup_insert_eq|done].
  - eapply rest_insert; [exact I8|done|set_solver|right; set_solver].
Qed.
(** The holder puts a character. *)
Lemma step_put me s outs c done ch rest : inv_at s outs (Some me) (is_panic c) done false [me] → call_text (Z.of_nat me) c (done ++ ch :: rest) →
  mc_cpus s !! me = Some (Busy c (text_code c (ch :: rest))) →
  ∃ s', step_cpu fuel me s = Ok () s' ∧ stepped me s (Some me) false s'.
Proof.
  intros [I1 I2 I3 I4 I5 I6 I7 I8] Ht E. pose proof (lookup_lt_Some _ _ _ E) as Hlt.
  assert (∃ i code, text_code c rest = i :: code) as (i & code & Eb) by (unfold text_code; destruct rest; simpl; eauto).
  assert (text_code c (ch :: rest) = Put ch :: i :: code) as Ec by (by rewrite <- Eb). rewrite Ec in E.
  destruct (uart_put_char_Ok fuel Hfuel _ _ _ ch I3) as (d' & Ed & Hd'). eexists. split.
  { eapply step_cpu_go; [exact E|]. cbn [exec_instr]. by erewrite bind_Ok by (apply zoom_Ok; exact Ed). }
  split; simpl; [|left; erewrite left_of_insert by exact E; unfold left_of; rewrite E; simpl; lia|done].
  exists outs, (Some me), (is_panic c), (done ++ [ch]), false, [me]. split; [|done]. split; simpl; try done.
  - simpl. by rewrite (app_assoc (concat outs)), on_line_app, app_assoc.
  - by rewrite length_insert.
  - rewrite <- Eb. simpl. eapply (st_talk _ me c (done ++ [ch]) rest); [done|by apply list_lookup_insert_eq|]. by rewrite <- app_assoc.
  - eapply rest_insert; [exact I8|done|set_solver|right; set_solver].
Qed.
(** The holder has put out its text: it returns, or a panic ends. *)
Lemma step_release me s outs c out : inv_at s outs (Some me) (is_panic c) out false [me] → call_text (Z.of_nat me) c out →
  mc_cpus s !! me = Some (Busy c (text_code c [])) →
  ∃ s', step_cpu fuel me s = Ok () s' ∧ stepped me s (Some me) false s'.
Proof.
  intros [I1 I2 I3 I4 I5 I6 I7 I8] Ht E. pose proof (lookup_lt_Some _ _ _ E) as Hlt.
  assert (∃ x', exec_instr fuel (Z.of_nat me) Release (mc_ctx s) = Ok Go x' ∧ ctx_lock x' = init_spinlock name ∧
    panicked_flag x' = panicked_flag (mc_ctx s) ∧ ctx_device x' = ctx_device (mc_ctx s)) as (x' & Ex & X1 & X2 & X3).
  { eexists. cbn [exec_instr]. erewrite bind_Ok by (apply zoom_Ok; rewrite I1; reflexivity). split_and!; done. }
  unfold text_code in E. cbn [fmap list_fmap app] in E. destruct (is_panic c) eqn:Ep.
  - eexists. split; [eapply step_cpu_go; [exact E|exact Ex]|].
    split; simpl; [|left; erewrite left_of_insert by exact E; unfold left_of; rewrite E; simpl; lia|done].
    exists outs, None, true, out, true, [me]. split; [|done]. split; simpl; try congruence; try (by rewrite length_insert).
    + eapply (st_gone _ me c out). split_and!; [done|done|]. left. by apply list_lookup_insert_eq.
    + eapply rest_insert; [exact I8|done|set_solver|right; set_solver].
  - eexists. split; [eapply step_cpu_return; [exact E|exact Ex]|].
    split; simpl; [|left; erewrite left_of_insert by exact E; unfold left_of; rewrite E; simpl; lia|done].
    exists (outs ++ [out]), None, false, [], false, []. split; [|done]. split; simpl; try congruence; try (by rewrite length_insert).
    + rewrite X3, concat_app, app_nil_r. simpl. by rewrite app_nil_r.
    + apply Forall2_app; [done|]. by repeat constructor.
    + apply Forall_app. split; [done|]. by apply Forall_singleton.
    + constructor.
    + eapply rest_insert; [exact I8|done|set_solver|left; constructor].
Qed.
(** After a panic: the holder stops at the check, and the panicking CPU stops. *)
Lemma step_late me s outs out q c c' out' : inv_at s outs (Some me) true out true [q; me] → gone q c out (mc_cpus s) → me ≠ q →
  mc_cpus s !! me = Some (Busy c' (CheckPanicked :: body_code c' out')) →
  ∃ s', step_cpu fuel me s = Ok () s' ∧ stepped me s (Some me) true s'.
Proof.
  intros [I1 I2 I3 I4 I5 I6 I7 I8] (G1 & G2 & G3) Hne E. pose proof (lookup_lt_Some _ _ _ E) as Hlt. eexists. split.
  { eapply step_cpu_stop; [exact E|]. cbn [exec_instr]. unfold check_panicked. erewrite bind_Ok by done. rewrite I2.
    erewrite bind_Ok by (apply zoom_Ok; rewrite I1; reflexivity). reflexivity. }
  split; simpl; [|left; erewrite left_of_insert by exact E; unfold left_of; rewrite E; simpl; lia|done].
  exists outs, None, true, out, true, [q]. split; [|done]. split; simpl; try done.
  - by rewrite length_insert.
  - eapply (st_gone _ q c out). split_and!; [done|done|]. by rewrite list_lookup_insert_ne.
  - eapply rest_insert; [exact I8|done|set_solver|left; by constructor].
Qed.
Lemma step_no_return q s outs owner out c active : inv_at s outs owner true out true active → is_panic c = true → q ∈ active →
  mc_cpus s !! q = Some (Busy c [NoReturn]) →
  ∃ s', step_cpu fuel q s = Ok () s' ∧ stepped q s owner true s'.
Proof.
  intros [I1 I2 I3 I4 I5 I6 I7 I8] Ep Hq E. pose proof (lookup_lt_Some _ _ _ E) as Hlt.
  eexists. split; [eapply step_cpu_stop; [exact E|reflexivity]|].
  split; simpl; [|left; erewrite left_of_insert by exact E; unfold left_of; rewrite E; simpl; lia|done].
  exists outs, owner, true, out, true, active. split; [|done]. split; simpl; try done.
  - by rewrite length_insert.
  - inversion I7 as [|?|?|?|q' c1 out1 (G1 & G2 & G3)|q' c1 out1 r c' out' x (G1 & G2 & G3) Hne Er Ha]; subst.
    + assert (q = q') as <- by set_solver. assert (c1 = c) as -> by (destruct G3; congruence).
      eapply (st_gone _ q c out). split_and!; [done|done|]. right. by apply list_lookup_insert_eq.
    + assert (q ≠ r) as Hqr. { intros ->. destruct Ha as [_ ->]. rewrite E in Er. discriminate. }
      assert (q = q') as <- by set_solver. assert (c1 = c) as -> by (destruct G3; congruence).
      eapply (st_last _ q c out r c' out'); [|done|by rewrite list_lookup_insert_ne|exact Ha].
      split_and!; [done|done|]. right. by apply list_lookup_insert_eq.
  - eapply rest_insert; [exact I8|done|set_solver|right; set_solver].
Qed.

(** *** All steps *)
Lemma step_Ok me s outs owner flag cur over active : inv_at s outs owner flag cur over active →
  ∃ s', step_cpu fuel me s = Ok () s' ∧ stepped me s owner over s'.
Proof.
  intros HI. pose proof (ia_stage _ _ _ _ _ _ _ HI) as St.
  destruct (decide (left_of s me = 0%nat)) as [E0|Hleft].
  { exists s. split; [|split; [exists outs, owner, flag, cur, over, active; by split|auto|done]].
    unfold step_cpu. erewrite bind_Ok by done. unfold left_of in E0. by destruct (mc_cpus s !! me) as [[|? [|]|]|]. }
  destruct (mc_cpus s !! me) as [x|] eqn:Ex; [|unfold left_of in Hleft; by rewrite Ex in Hleft].
  destruct (decide (me ∈ active)) as [Ha|Ha].
  2:{ destruct (ia_rest _ _ _ _ _ _ _ HI me x Ex Ha) as [|c out x [Ht ->]|c]; [unfold left_of in Hleft; by rewrite Ex in Hleft| |unfold left_of in Hleft; by rewrite Ex in Hleft].
      destruct owner as [q|]; [|by eapply step_acquire].
      eapply step_wait; [exact HI| |exact Ex]. intros ->. apply Ha. inversion St; subst; set_solver. }
  assert (∀ q c out, gone q c out (mc_cpus s) → q = me → Some x = Some (Busy c [NoReturn])) as Hgone.
  { intros q c out (_ & _ & [E|E]) ->; [congruence|]. unfold left_of in Hleft. by rewrite E in Hleft. }
  inversion St as [|q c out y Ey [Ht ->]|q c out y Ep Ey [Ht ->]|q c shown rest y fl Ep Ey [Ht ->]|q c out Hg|q c out r c' out' y Hg Hne Ey [Ht ->]]; subst.
  - set_solver.
  - assert (me = q) as -> by set_solver. by eapply step_check.
  - assert (me = q) as -> by set_solver. by eapply step_set.
  - assert (me = q) as -> by set_solver. destruct rest as [|ch rest]; [rewrite app_nil_r in Ht; by eapply step_release|by eapply step_put].
  - assert (me = q) as -> by set_solver. pose proof (Hgone _ _ _ Hg eq_refl) as [= ->]. eapply step_no_return; [exact HI|apply Hg|done|exact Ex].
  - destruct (decide (me = q)) as [->|Hmq].
    + pose proof (Hgone _ _ _ Hg eq_refl) as [= ->]. eapply step_no_return; [exact HI|apply Hg|done|exact Ex].
    + assert (me = r) as -> by set_solver. by eapply step_late.
Qed.

Lemma call_Ok me c s outs owner flag cur over active : inv_at s outs owner flag cur over active → mc_cpus s !! me = Some Idle → call_ok c →
  ∃ s', start_call me c s = Ok () s' ∧ inv_at s' outs owner flag cur over active ∧
    ctx_device (mc_ctx s') = ctx_device (mc_ctx s) ∧ mc_ret s' = mc_ret s.
Proof.
  intros [I1 I2 I3 I4 I5 I6 I7 I8] E Hc. pose proof (lookup_lt_Some _ _ _ E) as Hlt.
  destruct (call_code_Ok (Z.of_nat me) c ltac:(lia) Hc) as (out & Ht & Ec).
  eexists. unfold start_call. rewrite Ec. split; [done|]. split; [|done].
  assert (∀ q x, mc_cpus s !! q = Some x → x ≠ Idle → <[me := Busy c (Acquire :: CheckPanicked :: body_code c out)]> (mc_cpus s) !! q = Some x) as Hk.
  { intros q x Eq Hx. rewrite list_lookup_insert_ne; [done|]. intros ->. congruence. }
  split; simpl; try done.
  - by rewrite length_insert.
  - inversion I7 as [|q c1 out1 y Ey [Ht1 ->]|q c1 out1 y Ep Ey [Ht1 ->]|q c1 shown rest y fl Ep Ey [Ht1 ->]|q c1 out1 (G1 & G2 & G3)|q c1 out1 r c' out' y (G1 & G2 & G3) Hne Ey [Ht1 ->]]; subst.
    + constructor.
    + eapply st_check; [by apply Hk|done].
    + eapply st_set; [done|by apply Hk|done].
    + eapply st_talk; [done|by apply Hk|done].
    + eapply st_gone. split_and!; [done|done|]. destruct G3; [left|right]; by apply Hk.
    + eapply st_last; [|done|by apply Hk|done]. split_and!; [done|done|]. destruct G3; [left|right]; by apply Hk.
  - eapply rest_insert; [exact I8|done|auto|left; by econstructor].
Qed.

Lemma console_step_inv s s' : inv s → console_step fuel s s' → inv s'.
Proof.
  intros (outs & owner & flag & cur & over & active & HI) [me c E Hc Es|me Es].
  - destruct (call_Ok me c _ _ _ _ _ _ _ HI E Hc) as (s1 & E1 & HI1 & _). rewrite Es in E1. injection E1 as <-. by exists outs, owner, flag, cur, over, active.
  - destruct (step_Ok me _ _ _ _ _ _ _ HI) as (s1 & E1 & [(outs' & o' & f' & c' & v' & a' & HI' & _) _ _]). rewrite Es in E1. injection E1 as <-.
    by exists outs', o', f', c', v', a'.
Qed.
Lemma inv_over s s' : rtc (console_step fuel) s s' → ∀ outs owner flag cur active, inv_at s outs owner flag cur true active →
  ctx_device (mc_ctx s') = ctx_device (mc_ctx s) ∧ mc_ret s' = mc_ret s.
Proof.
  induction 1 as [s|s s1 s2 Hs _ IH]; intros outs owner flag cur active HI; [done|]. destruct Hs as [me c E Hc Es|me Es].
  - destruct (call_Ok me c _ _ _ _ _ _ _ HI E Hc) as (s1' & E1 & HI1 & D1 & D2). rewrite Es in E1. injection E1 as <-.
    destruct (IH _ _ _ _ _ HI1). split; congruence.
  - destruct (step_Ok me _ _ _ _ _ _ _ HI) as (s1' & E1 & [(outs' & o' & f' & c' & v' & a' & HI' & Hv) _ Ho]). rewrite Es in E1. injection E1 as <-.
    destruct (Ho eq_refl). rewrite (Hv eq_refl) in HI'. destruct (IH _ _ _ _ _ HI'). split; congruence.
Qed.
Lemma inv_advances s outs owner flag cur over active me c code : inv_at s outs owner flag cur over active →
  mc_cpus s !! me = Some (Busy c code) → code ≠ [] → advances fuel s me ∨ ∃ q, q ≠ me ∧ ctx_lock (mc_ctx s) = lock_of name (Some q) ∧ advances fuel s q.
Proof.
  intros HI E Hc. destruct (step_Ok me _ _ _ _ _ _ _ HI) as (s1 & E1 & [_ [Hl|[Hl|(q & -> & Hq)]] _]); [left; by exists s1|..].
  { unfold left_of in Hl. rewrite E in Hl. by destruct code. }
  right. exists q. split; [done|]. split; [apply HI|]. destruct (step_Ok q _ _ _ _ _ _ _ HI) as (s2 & E2 & [_ [Hl|[Hl|(q' & Eq & Hq')]] _]).
  - by exists s2.
  - exfalso. pose proof (ia_stage _ _ _ _ _ _ _ HI) as St. unfold left_of in Hl.
    inversion St as [|q1 c1 out1 y Ey [Ht1 ->]|q1 c1 out1 y Ep Ey [Ht1 ->]|q1 c1 shown rest y fl Ep Ey [Ht1 ->]| |q1 c1 out1 r c' out' y Hg Hne Ey [Ht1 ->]]; subst;
      rewrite Ey in Hl; try done. unfold text_code in Hl. rewrite length_app in Hl. simpl in Hl. lia.
  - congruence.
Qed.
Lemma inv_code s outs owner flag cur over active me c code : inv_at s outs owner flag cur over active →
  mc_cpus s !! me = Some (Busy c code) → code ≠ [].
Proof.
  intros HI E ->. pose proof (ia_stage _ _ _ _ _ _ _ HI) as St.
  assert (∀ c out, text_code c out ≠ []) as Htc by (intros c1 out1; unfold text_code; by destruct out1).
  assert (∀ q c1 out, gone q c1 out (mc_cpus s) → q ≠ me) as Hgone by (intros q c1 out (_ & _ & [Eq|Eq]) ->; congruence).
  assert (∀ q c1 code1, mc_cpus s !! q = Some (Busy c1 code1) → code1 ≠ [] → q ≠ me) as Hbusy by (intros q c1 code1 Eq Hne ->; congruence).
  assert (me ∉ active) as Ha; [|pose proof (ia_rest _ _ _ _ _ _ _ HI me _ E Ha) as Hr; inversion Hr as [|? ? ? [_ ?]|]; congruence].
  inversion St as [|q c1 out1 y Ey [Ht1 ->]|q c1 out1 y Ep Ey [Ht1 ->]|q c1 shown rest y fl Ep Ey [Ht1 ->]|q c1 out1 Hg|q c1 out1 r c' out' y Hg Hne Ey [Ht1 ->]]; subst.
  - set_solver.
  - specialize (Hbusy _ _ _ Ey ltac:(done)). set_solver.
  - specialize (Hbusy _ _ _ Ey ltac:(done)). set_solver.
  - specialize (Hbusy _ _ _ Ey (Htc _ _)). set_solver.
  - specialize (Hgone _ _ _ Hg). set_solver.
  - specialize (Hgone _ _ _ Hg). specialize (Hbusy _ _ _ Ey ltac:(done)). set_solver.
Qed.
End invariant.

(** ** What every interleaving shows *)
Section interleavings.
Context {D : Type} `{MiniUart D}.
Context (fuel : nat).
Abbreviation Mach := (machine D).

Definition power_up (n : nat) (name : string) (d : D) : Mach := mkMachine (mkContext (init_spinlock name) false d) (replicate n Idle) [].

(** [cur] is what the line carries beyond the texts of the calls that have returned. *)
Inductive on_air (s : Mach) (cur : list Z) : Prop :=
| air_quiet : cur = [] → panicked_flag (mc_ctx s) = false → on_air s cur
| air_talk q c code out : lcpu (ctx_lock (mc_ctx s)) = Some (Z.of_nat q) → mc_cpus s !! q = Some (Busy c code) →
    call_text (Z.of_nat q) c out → cur `prefix_of` out → panicked_flag (mc_ctx s) = is_panic c → on_air s cur
| air_dead q c : is_panic c = true → (mc_cpus s !! q = Some (Busy c [NoReturn]) ∨ mc_cpus s !! q = Some (Stopped c)) →
    call_text (Z.of_nat q) c cur → panicked_flag (mc_ctx s) = true →
    (∀ s', rtc (console_step fuel) s s' → ctx_device (mc_ctx s') = ctx_device (mc_ctx s) ∧ mc_ret s' = mc_ret s) → on_air s cur.

Hypothesis Hfuel : (ut_max ≤ fuel)%nat.

Lemma inv_power_up n name d rx tx : ut_is d rx tx → inv name rx tx n (power_up n name d).
Proof.
  intros Hd. exists [], None, false, [], false, []. split; simpl; try done.
  - by rewrite app_nil_r.
  - by rewrite length_replicate.
  - by constructor.
  - intros p x [-> _]%lookup_replicate_1 _. apply rest_idle.
Qed.
Lemma inv_on_air name rx tx n s outs owner flag cur over active : Z.of_nat n ≤ 2 ^ 64 → inv_at name rx tx n s outs owner flag cur over active → on_air s cur.
Proof.
  intros Hn HI. pose proof HI as [I1 I2 _ _ _ _ I7 _].
  inversion I7 as [|q c out y Ey [Ht ->]|q c out y Ep Ey [Ht ->]|q c shown rest y fl Ep Ey [Ht ->]|q c out (G1 & G2 & G3)|q c out r c' out' y (G1 & G2 & G3) Hne Ey [Ht ->]]; subst;
    try (apply air_quiet; congruence).
  - eapply air_talk; [by rewrite I1|exact Ey|exact Ht|by apply prefix_app_r|done].
  - eapply air_dead; [exact G1|exact G3|exact G2|congruence|]. intros s' Hs. by eapply inv_over.
  - eapply air_dead; [exact G1|exact G3|exact G2|congruence|]. intros s' Hs. by eapply inv_over.
Qed.

(** C23. Console output is not torn apart, and a panic is the last message, in every
    interleaving of any number of [puts], [printf] and [_panic] calls by [n] CPUs. The
    line carries the texts of the calls that have returned, whole and in the order of
    their returns, and after them either nothing, or the part shown so far of the text
    of the one CPU that holds the lock, or the whole text of a panic (the bar, the CPU,
    the file and line, and the formatted message); in the last case nothing is shown
    and no call returns from then on, whatever the CPUs do. A panic never returns, and
    a CPU stops only once the flag of a panic is set. Nobody is stuck: a CPU in a call
    carries out its next operation, or waits for the lock while its holder carries out
    one of its own; and no operation fails. *)
Theorem console_output_correct n name d rx tx (s : Mach) :
  ut_is d rx tx → Z.of_nat n ≤ 2 ^ 64 → rtc (console_step fuel) (power_up n name d) s →
  (∃ outs cur, Forall2 (λ x out, call_text x.1 x.2 out) (mc_ret s) outs ∧
     ut_is (ctx_device (mc_ctx s)) rx (tx ++ on_line (concat outs ++ cur)) ∧ on_air s cur) ∧
  Forall (λ x, is_panic x.2 = false) (mc_ret s) ∧
  (∀ q c, mc_cpus s !! q = Some (Stopped c) → panicked_flag (mc_ctx s) = true) ∧
  (∀ me c code, mc_cpus s !! me = Some (Busy c code) →
     advances fuel s me ∨ ∃ q, q ≠ me ∧ ctx_lock (mc_ctx s) = mkSpinLock true (Some (Z.of_nat q)) name ∧ advances fuel s q) ∧
  (∀ me c, mc_cpus s !! me = Some Idle → call_ok c → ∃ s', start_call me c s = Ok () s').
Proof.
  intros Hd Hn Hs. assert (inv name rx tx n s) as (outs & owner & flag & cur & over & active & HI).
  { apply (inv_power_up n name) in Hd. revert Hd. induction Hs as [|s s1 s2 Hs _ IH]; [done|]. intros HI. apply IH. by eapply console_step_inv. }
  split_and!.
  - exists outs, cur. split_and!; [apply HI|apply HI|by eapply inv_on_air].
  - apply HI.
  - intros q c E. rewrite (ia_flag _ _ _ _ _ _ _ _ _ _ _ HI). pose proof (ia_stage _ _ _ _ _ _ _ _ _ _ _ HI) as St.
    destruct (decide (q ∈ active)) as [Ha|Ha].
    + inversion St as [|q' ? ? y Ey [_ ->]|q' ? ? y ? Ey [_ ->]|q' ? ? ? y ? ? Ey [_ ->]|? ? ? Hg|? ? ? r ? ? y Hg]; subst; try done;
        first [set_solver|apply list_elem_of_singleton in Ha as ->; congruence].
    + pose proof (ia_rest _ _ _ _ _ _ _ _ _ _ _ HI q _ E Ha) as Hr. inversion Hr as [|? ? ? [_ ?]|? Ho]; [congruence|]. subst over.
      by inversion St.
  - intros me c code E. eapply (inv_advances fuel Hfuel name rx tx n); [done|exact HI|exact E|by eapply inv_code].
  - intros me c E Hc. edestruct call_Ok as (s' & E' & _); [..|exact HI|exact E|exact Hc|by exists s']; done.
Qed.
End interleavings.

Import SimUart.
(** Two CPUs print in alternation: one has returned, the other is about to put its newline. *)
Fixpoint run_steps (l : list nat) (s : machine SimUart.uart) : machine SimUart.uart :=
  match l with
  | [] => s
  | me :: l' => match step_cpu 3 me s with Ok _ s' => run_steps l' s' | _ => s end
  end.
Lemma run_steps_rtc l : ∀ s, rtc (console_step 3) s (run_steps l s).
Proof.
  induction l as [|me l IH]; intros s; [done|]. cbn [run_steps]. destruct (step_cpu 3 me s) as [[] s'| | | |] eqn:E; try done.
  eapply rtc_l; [|apply IH]. by eapply con_step.
Qed.
Definition demo_started : machine SimUart.uart :=
  mkMachine (mkContext (init_spinlock "console") false (SimUart.mkUart [] [] 0))
    [Busy (CPuts (str "hi")) [Acquire; CheckPanicked; Put 104; Put 105; Put newline; Release];
     Busy (CPuts (str "ok")) [Acquire; CheckPanicked; Put 111; Put 107; Put newline; Release]] [].
Definition demo_end : machine SimUart.uart := run_steps (concat (replicate 9 [0; 1]))%nat demo_started.
Lemma console_output_correct_witness : rtc (console_step 3) (power_up 2 "console" (SimUart.mkUart [] [] 0)) demo_end ∧
  (∃ outs cur, Forall2 (λ x out, call_text x.1 x.2 out) [(0, CPuts (str "hi"))] outs ∧
     SimUart.su_tx (ctx_device (mc_ctx demo_end)) = on_line (concat outs ++ cur) ∧ on_air 3 demo_end cur) ∧
  SimUart.su_tx (ctx_device (mc_ctx demo_end)) = on_line (str "hi" ++ [newline] ++ str "ok").
Proof.
  assert (rtc (console_step 3) (power_up 2 "console" (SimUart.mkUart [] [] 0)) demo_end) as Hs.
  { eapply rtc_l; [by apply (con_call _ _ _ 0 (CPuts (str "hi"))); vm_compute|].
    eapply rtc_l; [by apply (con_call _ _ _ 1 (CPuts (str "ok"))); vm_compute|]. apply run_steps_rtc. }
  split; [exact Hs|].
  destruct (console_output_correct (D:=SimUart.uart) 3 ltac:(exact (le_n 3)) 2 "console" (SimUart.mkUart [] [] 0) [] [] demo_end) as [(outs & cur & H1 & (_ & H2 & _) & H3) _].
  - split_and!; [done..|constructor|simpl; lia].
  - simpl. lia.
  - exact Hs.
  - split; [|vm_compute; reflexivity]. exists outs, cur. split; [|split; [exact H2|exact H3]].
    replace [(0, CPuts (str "hi"))] with (mc_ret demo_end) by (vm_compute; reflexivity). exact H1.
Defined.
