(* ===== verification/Boot.v ===== *)
(** * The start of the system (main.c, the handlers that driver/sd.c sets)

    First the set-up of the interrupts: after it, every line that is enabled has its
    handler. Then [main] as it runs on all CPUs: an interleaving of their steps around
    [init_lock]. *)
From S2P Require Import Prelude Locks PhysMem VirtMem UserMem KernelPt Interrupt Cache Inode Format Console Uart.

(** ** The interrupts *)
Section irqs.
Context {S : Type} `{IrqController S}.
Abbreviation Handler := (M S (option unit)).

(** The end of [sd_init]. *)
Definition sd_handlers (sd_intr : Handler) : M (IrqState S) unit :=
  set_interrupt_handler IRQ_SDIO sd_intr;;
  set_interrupt_handler IRQ_ARASANSDIO sd_intr.
(** What the CPU that initialises the system does for the interrupts: [init_interrupt],
    [init_char_device] and [sd_init] in [init_system_once], then [init_clock] and
    [set_clock_handler] in [init_system_per_cpu]. *)
Definition init_irqs (uart_intr sd_intr clock : Handler) (me : Z) : M (IrqState S) unit :=
  init_interrupt;;
  init_uart uart_intr;;
  sd_handlers sd_intr;;
  init_clock me;;
  set_clock_handler clock.
Definition handler_of (uart_intr sd_intr : Handler) (i : Z) : Handler := if i =? 29 then uart_intr else sd_intr.

Record irq_is (s : S) (L r : Z) (on : Z → bool) (left : Z) : Prop := {
  ii_lines : ic_lines s = L;
  ii_route : ic_route s = r;
  ii_timer : ∀ i, ic_timer s i = on i;
  ii_left : ct_left s = left
}.

Lemma irq_is_same s s' L r on left : irq_is s L r on left → ic_same s s' → irq_is s' L r on left.
Proof. intros [] (? & ? & Ht & ?). split; [congruence..| |congruence]. intros i. rewrite Ht. done. Qed.

Lemma enable_Ok c s L r on left n v : irq_is s L r on left → 0 ≤ n < 2 → 0 ≤ v < 2 ^ 32 →
  ∃ s', on_kernel (device_put_u32 (ENABLE_IRQS_1 + 4 * n) v) (mkIrq c s) = Ok () (mkIrq c s') ∧
    irq_is s' (Z.lor L (Z.shiftl v (32 * n))) r on left.
Proof.
  intros [] Hn Hv. destruct (ic_enable s n v Hn Hv) as (s' & E & ? & ? & Ht & ?).
  exists s'. split; [by unfold on_kernel; erewrite zoom_Ok by exact E|].
  split; [congruence..| |congruence]. intros i. rewrite Ht. done.
Qed.

Lemma set_interrupt_handler_Ok c s L r on left ty h : irq_is s L r on left →
  ∃ s', set_interrupt_handler ty h (mkIrq c s) =
      Ok () (mkIrq (set_irq_handlers (<[Z.to_nat (irq_number ty) := Some h]> (irq_handler c)) c) s') ∧
    irq_is s' (Z.lor L (Z.shiftl 1 (irq_number ty))) r on left.
Proof.
  intros Hs. destruct (enable_Ok c s L r on left (irq_number ty / 32) (u32 (Z.shiftl 1 (irq_number ty mod 32))) Hs)
    as (s' & E & Hs'); [by destruct ty|by destruct ty|].
  exists s'. split; [unfold set_interrupt_handler; by erewrite bind_Ok by exact E|].
  by destruct ty.
Qed.

Lemma init_interrupt_Ok c s r on left : irq_is s 0 r on left →
  ∃ s', init_interrupt (mkIrq c s) = Ok () (mkIrq (set_irq_handlers (replicate 64 None) c) s') ∧
    irq_is s' (Z.lor AUX_INT (Z.shiftl VC_ARASANSDIO_INT 32)) 0 on left.
Proof.
  intros Hs. set (c1 := set_irq_handlers (replicate 64 None) c).
  destruct (enable_Ok c1 s 0 r on left 0 AUX_INT Hs) as (s1 & E1 & H1); [done|done|].
  destruct (enable_Ok c1 s1 _ r on left 1 VC_ARASANSDIO_INT H1) as (s2 & E2 & [L2 _ T2 F2]); [done|done|].
  destruct (ic_set_route s2 0) as (s3 & E3 & L3 & R3 & T3 & F3); [done|].
  exists s3. split.
  - unfold init_interrupt. erewrite bind_Ok by done. erewrite bind_Ok by exact E1. erewrite bind_Ok by exact E2.
    unfold on_kernel. by erewrite zoom_Ok by exact E3.
  - split; [rewrite L3, L2; done|done| |congruence]. intros i. by rewrite T3.
Qed.

(** The registers of the serial port are not those of the controllers. *)
Lemma other_Ok c s L r on left a v (k : unit → M (IrqState S) unit) (Q : IrqState S → Prop) : irq_is s L r on left →
  MMIO_BASE + 0x200000 ≤ a < MMIO_BASE + 0x300000 →
  (∀ s', irq_is s' L r on left → ∃ x, k () (mkIrq c s') = Ok () x ∧ Q x) →
  ∃ x, (on_kernel (device_put_u32 a v) ≫= k) (mkIrq c s) = Ok () x ∧ Q x.
Proof.
  intros Hs Ha Hk. destruct (ic_other s a v Ha) as (s' & E & Hs'). erewrite bind_Ok.
  - apply Hk. by eapply irq_is_same.
  - unfold on_kernel. by erewrite zoom_Ok by exact E.
Qed.
Lemma init_uart_Ok c s L r on left h : irq_is s L r on left →
  ∃ s', init_uart h (mkIrq c s) = Ok () (mkIrq (set_irq_handlers (<[29%nat := Some h]> (irq_handler c)) c) s') ∧
    irq_is s' (Z.lor L (Z.shiftl 1 29)) r on left.
Proof.
  intros Hs. set (Q x := ∃ s', x = mkIrq (set_irq_handlers (<[29%nat := Some h]> (irq_handler c)) c) s' ∧
    irq_is s' (Z.lor L (Z.shiftl 1 29)) r on left).
  enough (∃ x, init_uart h (mkIrq c s) = Ok () x ∧ Q x) as (x & E & s' & -> & Hs') by eauto.
  unfold init_uart. do 11 (eapply other_Ok; [exact Hs|vm_compute; by split|clear s Hs; intros s Hs]).
  destruct (set_interrupt_handler_Ok c s L r on left IRQ_AUX h Hs) as (s' & E & Hs'). eexists. split; [exact E|]. by exists s'.
Qed.

Lemma init_clock_Ok c s L r on left me : irq_is s L r on left → 0 ≤ me < 4 → 0 ≤ ct_freq < 2 ^ 64 →
  ∃ s', init_clock me (mkIrq c s) = Ok () (mkIrq (set_one_ms (ct_freq / 1000) c) s') ∧
    irq_is s' L r (λ i, if decide (i = me) then true else on i) (ct_freq - ct_freq mod 1000).
Proof.
  intros [HL HR HT HF] Hme Hf. destruct (ct_ctl s 1) as (s1 & E1 & L1 & R1 & T1 & F1).
  destruct (ct_tval s1 (u64 (1000 * (ct_freq / 1000)))) as (s2 & E2 & L2 & R2 & T2 & F2).
  destruct (ic_set_timer s2 me CORE_CLOCK_ENABLE Hme ltac:(done)) as (s3 & E3 & L3 & R3 & T3 & F3).
  exists s3. split.
  - unfold init_clock, on_kernel. erewrite bind_Ok by (erewrite zoom_Ok by apply ct_frequency; done).
    erewrite bind_Ok by done. erewrite bind_Ok by (by erewrite zoom_Ok by exact E1). erewrite bind_Ok by done.
    erewrite bind_Ok by (by erewrite zoom_Ok by exact E2). by erewrite zoom_Ok by exact E3.
  - pose proof (Z.div_mod ct_freq 1000 ltac:(lia)). pose proof (Z.mod_pos_bound ct_freq 1000 ltac:(lia)).
    split; [congruence..| |].
    + intros i. rewrite T3, T2, T1, HT. done.
    + rewrite F3, F2. rewrite u64_small by lia. lia.
Qed.

Lemma init_irqs_Ok uart sd clock c0 s0 r on left me :
  irq_is s0 0 r on left → 0 ≤ me < 4 → 0 ≤ ct_freq < 2 ^ 64 →
  ∃ s, init_irqs uart sd clock me (mkIrq c0 s0) =
      Ok () (mkIrq (mkInterrupts (<[62%nat := Some sd]> (<[56%nat := Some sd]> (<[29%nat := Some uart]> (replicate 64 None))))
        (Some clock) (ct_freq / 1000)) s) ∧
    irq_is s (2 ^ 29 + 2 ^ 56 + 2 ^ 62) 0 (λ i, if decide (i = me) then true else on i) (ct_freq - ct_freq mod 1000).
Proof.
  intros Hs Hme Hf. destruct (init_interrupt_Ok c0 s0 r on left Hs) as (s1 & E1 & H1).
  set (c1 := set_irq_handlers (replicate 64 None) c0) in E1.
  set (c2 := set_irq_handlers (<[29%nat := Some uart]> (irq_handler c1)) c1).
  set (c3 := set_irq_handlers (<[56%nat := Some sd]> (irq_handler c2)) c2).
  set (c4 := set_irq_handlers (<[62%nat := Some sd]> (irq_handler c3)) c3).
  destruct (init_uart_Ok c1 s1 _ _ _ _ uart H1) as (s2 & E2 & H2).
  destruct (set_interrupt_handler_Ok c2 s2 _ _ _ _ IRQ_SDIO sd H2) as (s3 & E3 & H3).
  destruct (set_interrupt_handler_Ok c3 s3 _ _ _ _ IRQ_ARASANSDIO sd H3) as (s4 & E4 & H4).
  destruct (init_clock_Ok c4 s4 _ _ _ _ me H4 Hme Hf) as (s5 & E5 & H5).
  exists s5. split; [|exact H5]. unfold init_irqs, sd_handlers.
  erewrite bind_Ok by exact E1. erewrite bind_Ok by exact E2.
  erewrite bind_Ok by (erewrite bind_Ok by exact E3; exact E4). by erewrite bind_Ok by exact E5.
Qed.

Lemma testbit_enabled i : 0 ≤ i → Z.testbit (2 ^ 29 + 2 ^ 56 + 2 ^ 62) i = true ↔ i = 29 ∨ i = 56 ∨ i = 62.
Proof.
  intros Hi. split; [|by intros [->|[->| ->]]].
  change (2 ^ 29 + 2 ^ 56 + 2 ^ 62) with (Z.lor (Z.lor (2 ^ 29) (2 ^ 56)) (2 ^ 62)).
  rewrite !Z.lor_spec, !Z.pow2_bits_eqb by lia. destruct (Z.eqb_spec 29 i), (Z.eqb_spec 56 i), (Z.eqb_spec 62 i); naive_solver.
Qed.

(** C17. Interrupts reach their handlers. Setting up the interrupts enables the lines of
    the serial port and of the card, routes them to CPU 0, and starts the clock of the CPU
    with a period of one second (cut to whole milliseconds). From then on, as long as
    nobody enables another line, an interrupt on any CPU runs the clock handler if the
    clock has fired and then the handler of every pending line in ascending order, and
    nothing else: the panics for a missing clock handler, for an unknown line and for an
    unknown source are not reached, so that a panic can only come from a handler. *)
Theorem interrupts_correct uart sd clock c0 s0 r on left me :
  irq_is s0 0 r on left → 0 ≤ me < 4 → 0 ≤ ct_freq < 2 ^ 64 → keeps_lines clock →
  ∃ c s, init_irqs uart sd clock me (mkIrq c0 s0) = Ok () (mkIrq c s) ∧
    (∀ i, 0 ≤ i → Z.testbit (ic_lines s) i = true ↔ i = 29 ∨ i = 56 ∨ i = 62) ∧
    ic_route s = 0 ∧ ic_timer s me = true ∧ ct_left s = ct_freq - ct_freq mod 1000 ∧
    ∀ cpu s1, 0 ≤ cpu < 4 → ic_lines s1 = ic_lines s →
      interrupt_global_handler cpu c s1 = dispatch clock (handler_of uart sd) cpu s1 ∧
      ∀ msg, (∀ s, uart s ≠ Panic msg) → (∀ s, sd s ≠ Panic msg) → (∀ s, clock s ≠ Panic msg) →
        interrupt_global_handler cpu c s1 ≠ Panic msg.
Proof.
  intros Hs Hme Hf Hc. destruct (init_irqs_Ok uart sd clock c0 s0 r on left me Hs Hme Hf) as (s & E & [HL HR HT HF]).
  eexists _, s. split; [exact E|]. split; [rewrite HL; apply testbit_enabled|]. split; [done|].
  split; [by rewrite HT, decide_True|]. split; [done|]. intros cpu s1 Hcpu Hl. rewrite HL in Hl.
  rewrite (interrupt_dispatch _ (handler_of uart sd) clock (2 ^ 29 + 2 ^ 56 + 2 ^ 62)); [|split|done..].
  2:{ intros i Hi [->|[->| ->]]%testbit_enabled; [done..|lia]. }
  2:{ done. }
  split; [done|]. intros msg Hu Hsd Hck. apply dispatch_panic; [done| |done].
  intros i. unfold handler_of. by case_match.
Qed.
End irqs.

(** ** Controllers to run on

    [raised] are the lines that the devices hold up, [fired] tells which timers have run
    out. *)
Module SimIrq.
Record irqs := mkIrqs { lines : Z; route : Z; timer : Z → bool; left : Z; raised : Z; fired : Z → bool; served : list Z }.
Definition set_lines x s := mkIrqs x (route s) (timer s) (left s) (raised s) (fired s) (served s).
Definition set_route x s := mkIrqs (lines s) x (timer s) (left s) (raised s) (fired s) (served s).
Definition set_timer x s := mkIrqs (lines s) (route s) x (left s) (raised s) (fired s) (served s).
Definition set_left x s := mkIrqs (lines s) (route s) (timer s) x (raised s) (fired s) (served s).
Definition pending (s : irqs) : Z := Z.land (Z.land (lines s) (raised s)) (Z.ones 64).
Definition sources (s : irqs) (i : Z) : Z :=
  Z.lor (if timer s i && fired s i then 2 else 0) (if (route s =? i) && negb (pending s =? 0) then 256 else 0).
Definition core_of (base a : Z) : Z := (a - base) / 4.
Definition get (a : Z) : M irqs Z := λ s, Ok (
  if a =? IRQ_PENDING_1 then Z.land (pending s) (Z.ones 32)
  else if a =? IRQ_PENDING_2 then Z.shiftr (pending s) 32
  else sources s (core_of (IRQ_SRC_CORE 0) a)) s.
Definition put (a v : Z) : M irqs unit := λ s, Ok () (
  if a =? ENABLE_IRQS_1 then set_lines (Z.lor (lines s) v) s
  else if a =? ENABLE_IRQS_2 then set_lines (Z.lor (lines s) (Z.shiftl v 32)) s
  else if a =? GPU_INT_ROUTE then set_route v s
  else if (CORE_CLOCK_CTRL 0 <=? a) && (a <=? CORE_CLOCK_CTRL 3) then
    set_timer (λ i, if decide (i = core_of (CORE_CLOCK_CTRL 0) a) then Z.testbit v 1 else timer s i) s
  else s).

#[global] Instance sim_mmio : Mmio irqs := { device_get_u32 := get; device_put_u32 := put }.
#[global] Instance sim_timer : CoreTimer irqs := {
  get_clock_frequency := mret 62500000;
  set_cntp_ctl_el0 := λ _, mret ();
  set_cntp_tval_el0 := λ v s, Ok () (set_left v s)
}.
Lemma pending_bits s k : 0 ≤ k < 64 → Z.testbit (pending s) k = true → Z.testbit (lines s) k = true.
Proof. intros Hk. unfold pending. rewrite !Z.land_spec. intros [[? _]%andb_true_iff _]%andb_true_iff. done. Qed.
Lemma pending_range s : 0 ≤ pending s < 2 ^ 64.
Proof. unfold pending. rewrite Z.land_ones by lia. apply Z.mod_pos_bound. lia. Qed.
#[global, refine] Instance sim_irqs : IrqController irqs := {
  ic_lines := lines; ic_route := route; ic_timer := timer; ct_freq := 62500000; ct_left := left
}.
Proof.
  - intros s n v Hn Hv. eexists. split; [reflexivity|].
    assert (n = 0 ∨ n = 1) as [-> | ->] by lia; simpl; [by rewrite Z.shiftl_0_r|done].
  - intros s v _. eexists. split; [reflexivity|]. done.
  - intros s j v Hj _. eexists. split; [reflexivity|].
    assert (j = 0 ∨ j = 1 ∨ j = 2 ∨ j = 3) as [->|[->|[->| ->]]] by lia; done.
  - intros s a v Ha. eexists. split; [reflexivity|]. revert Ha.
    assert (ENABLE_IRQS_1 < MMIO_BASE + 0x200000) by done. assert (ENABLE_IRQS_2 < MMIO_BASE + 0x200000) by done.
    assert (MMIO_BASE + 0x300000 < GPU_INT_ROUTE) by done. assert (MMIO_BASE + 0x300000 < CORE_CLOCK_CTRL 0) by done.
    intros Ha. rewrite !(proj2 (Z.eqb_neq a _)) by lia. rewrite (proj2 (Z.leb_gt _ a)) by lia. done.
  - intros s i Hi. exists (timer s i && fired s i), ((route s =? i) && negb (pending s =? 0)), s. split; [|split; [done|]].
    + assert (i = 0 ∨ i = 1 ∨ i = 2 ∨ i = 3) as [->|[->|[->| ->]]] by lia; reflexivity.
    + split; [by intros [? _]%andb_true_iff|]. by intros [?%Z.eqb_eq _]%andb_true_iff.
  - intros s n Hn. pose proof (pending_range s) as Hp. assert (n = 0 ∨ n = 1) as [-> | ->] by lia.
    + exists (Z.land (pending s) (Z.ones 32)), s. split; [done|]. split; [done|]. split.
      * rewrite Z.land_ones by lia. apply Z.mod_pos_bound. lia.
      * intros k Hk. rewrite Z.land_spec. intros [? _]%andb_true_iff. apply pending_bits; [lia|done].
    + exists (Z.shiftr (pending s) 32), s. split; [done|]. split; [done|]. split.
      * rewrite Z.shiftr_div_pow2 by lia. split; [apply Z.div_pos; lia|]. apply Z.div_lt_upper_bound; lia.
      * intros k Hk. rewrite Z.shiftr_spec by lia. intros Hb. apply pending_bits; [lia|]. by rewrite Z.add_comm.
  - done.
  - intros s v. by exists s.
  - intros s v. eexists. split; [reflexivity|]. done.
Defined.

(** All lines are held up; the handlers note that they were called. *)
Definition note (i : Z) : M irqs (option unit) := λ s,
  Ok (Some ()) (mkIrqs (lines s) (route s) (timer s) (left s) (raised s) (fired s) (served s ++ [i])).
Definition start : irqs := mkIrqs 0 0 (λ _, false) 0 (2 ^ 64 - 1) (λ _, true) [].
End SimIrq.

Lemma interrupts_correct_witness :
  ∃ c s, init_irqs (SimIrq.note 1) (SimIrq.note 2) (SimIrq.note 3) 0 (mkIrq (mkInterrupts [] None 0) SimIrq.start) = Ok () (mkIrq c s) ∧
    ct_left s = 62500000 ∧
    interrupt_global_handler 0 c s = dispatch (SimIrq.note 3) (handler_of (SimIrq.note 1) (SimIrq.note 2)) 0 s.
Proof.
  destruct (interrupts_correct (SimIrq.note 1) (SimIrq.note 2) (SimIrq.note 3) (mkInterrupts [] None 0) SimIrq.start 0 (λ _, false) 0 0)
    as (c & s & E & _ & _ & _ & Hl & H).
  - by split.
  - by split.
  - by split.
  - intros s a s' E. by injection E as _ <-.
  - exists c, s. split; [exact E|]. split; [exact Hl|]. exact (proj1 (H 0 s ltac:(by split) eq_refl)).
Defined.
(** On CPU 0 the clock, the serial port and the two lines of the card are served. *)
Example interrupt_served :
  match init_irqs (SimIrq.note 1) (SimIrq.note 2) (SimIrq.note 3) 0 (mkIrq (mkInterrupts [] None 0) SimIrq.start) with
  | Ok _ s => match interrupt_global_handler 0 (ir_ctx s) (ir_kernel s) with Ok _ k => SimIrq.served k | _ => [] end
  | _ => []
  end = [3; 1; 2; 2].
Proof. vm_compute. reflexivity. Qed.
