(* ===== verification/Main.v ===== *)
(** * [main] on all CPUs (main.c)

    Every CPU runs [main]. The functions it calls are modelled elsewhere; here they are
    the entries of a trace, and the model is the order in which the CPUs reach them, around
    [init_lock]. The lock is in the initialised data (the build sets
    -fno-zero-initialized-in-bss), so that clearing the BSS section does not touch it. A
    failing [try_acquire_spinlock] and the rounds of [wait_spinlock] are one step each. *)
From S2P Require Import Prelude Locks.

Inductive call :=
| do_memset_bss | do_init_interrupt | do_init_char_device | do_init_console | do_init_sched | do_init_proc
| do_init_memory_manager | do_init_virtual_memory | do_vm_test | do_arena_test | do_init_container | do_sd_init
| do_init_clock | do_set_clock_handler_hello | do_init_trap | do_init_cpu_root
| do_spawn_init_process_sd | do_enter_scheduler.
#[global] Instance call_eq_dec : EqDecision call.
Proof. solve_decision. Defined.

(** Between the two operations on [init_lock]. *)
Definition init_system_once : list call :=
  [do_memset_bss; do_init_interrupt; do_init_char_device; do_init_console; do_init_sched; do_init_proc;
   do_init_memory_manager; do_init_virtual_memory; do_vm_test; do_arena_test; do_init_container; do_sd_init].
Definition init_system_per_cpu : list call := [do_init_clock; do_set_clock_handler_hello; do_init_trap; do_init_cpu_root].
(** [main] after [wait_spinlock]; [enter_scheduler] does not return. *)
Definition main_rest (cpuid : Z) : list call :=
  init_system_per_cpu ++
  if cpuid =? 0 then [do_spawn_init_process_sd; do_spawn_init_process_sd; do_enter_scheduler] else [do_enter_scheduler].
Definition NUM_CPUS : Z := 4.

Inductive pc :=
| Begin            (* about to call [try_acquire_spinlock] *)
| Once (k : nat)   (* won; [k] calls of [init_system_once] have returned *)
| Waiting          (* in [wait_spinlock], about to acquire *)
| Through          (* in [wait_spinlock], about to release *)
| Rest (k : nat).  (* after it; [k] calls of the rest were made *)
#[global] Instance pc_eq_dec : EqDecision pc.
Proof. solve_decision. Defined.
Record machine := mkMachine { init_lock : SpinLock; at_pc : Z → pc; trace : list (Z * call) }.
Definition goto (me : Z) (p : pc) (f : Z → pc) : Z → pc := λ i, if decide (i = me) then p else f i.

Inductive boot_step : machine → machine → Prop :=
| step_try me won l σ :
    0 ≤ me < NUM_CPUS → at_pc σ me = Begin → try_acquire_spinlock me (init_lock σ) = Ok won l →
    boot_step σ (mkMachine l (goto me (if (won : bool) then Once 0 else Waiting) (at_pc σ)) (trace σ))
| step_once me k c σ :
    at_pc σ me = Once k → init_system_once !! k = Some c →
    boot_step σ (mkMachine (init_lock σ) (goto me (Once (S k)) (at_pc σ)) (trace σ ++ [(me, c)]))
| step_release me l σ :
    at_pc σ me = Once (length init_system_once) → release_spinlock (init_lock σ) = Ok () l →
    boot_step σ (mkMachine l (goto me Waiting (at_pc σ)) (trace σ))
| step_acquire me l σ :
    at_pc σ me = Waiting → acquire_spinlock me (init_lock σ) = Ok () l →
    boot_step σ (mkMachine l (goto me Through (at_pc σ)) (trace σ))
| step_through me l σ :
    at_pc σ me = Through → release_spinlock (init_lock σ) = Ok () l →
    boot_step σ (mkMachine l (goto me (Rest 0) (at_pc σ)) (trace σ))
| step_rest me k c σ :
    at_pc σ me = Rest k → main_rest me !! k = Some c →
    boot_step σ (mkMachine (init_lock σ) (goto me (Rest (S k)) (at_pc σ)) (trace σ ++ [(me, c)])).

Definition power_on : machine := mkMachine (init_spinlock "") (λ _, Begin) [].
Definition reachable : machine → Prop := rtc boot_step power_on.

(** The calls of the two parts. *)
Definition once_calls (σ : machine) : list call := filter (λ c, c ∈ init_system_once) (snd <$> trace σ).
Definition rest_calls (i : Z) (σ : machine) : list call := snd <$> filter (λ x, x.1 = i ∧ x.2 ∉ init_system_once) (trace σ).
Definition holds (p : pc) : bool := match p with Once _ | Through => true | _ => false end.
Definition passed (p : pc) : bool := match p with Through | Rest _ => true | _ => false end.
Definition done_with (p : pc) : nat := match p with Rest k => k | _ => 0 end.

Lemma goto_eq me p f : goto me p f me = p.
Proof. unfold goto. by rewrite decide_True. Qed.
Lemma goto_ne me p f i : i ≠ me → goto me p f i = f i.
Proof. intros. unfold goto. by rewrite decide_False. Qed.

Lemma once_calls_app l f t me c :
  once_calls (mkMachine l f (t ++ [(me, c)])) = once_calls (mkMachine l f t) ++ filter (λ c, c ∈ init_system_once) [c].
Proof. unfold once_calls. cbn [trace]. by rewrite fmap_app, filter_app. Qed.
Lemma rest_calls_app i l f t me c :
  rest_calls i (mkMachine l f (t ++ [(me, c)])) = rest_calls i (mkMachine l f t) ++ if decide (me = i ∧ c ∉ init_system_once) then [c] else [].
Proof. unfold rest_calls. cbn [trace]. rewrite filter_app, fmap_app, filter_cons. simpl. by case_decide. Qed.
Lemma main_rest_other i k c : main_rest i !! k = Some c → c ∉ init_system_once.
Proof.
  intros Hc%list_elem_of_lookup_2. assert (Forall (λ c, c ∉ init_system_once) (main_rest i)) as HF.
  { unfold main_rest, init_system_per_cpu. case_match; refine (bool_decide_unpack _ _); by vm_compute. }
  by apply (proj1 (Forall_forall _ _) HF).
Qed.

(** [o] is the holder of the lock, [cur] the CPU that initialises. *)
Record owner_inv (f : Z → pc) (l : SpinLock) (o : option Z) : Prop := {
  ow_holds : ∀ i, holds (f i) = true ↔ o = Some i;
  ow_lock : locked l = true ↔ is_Some o
}.
Definition cur_inv (f : Z → pc) (cur : option (Z * nat)) : Prop := ∀ i k, f i = Once k ↔ cur = Some (i, k).
Definition is_once (p : pc) : bool := match p with Once _ => true | _ => false end.

Lemma goto_id me p f : f me = p → ∀ i, goto me p f i = f i.
Proof. intros <- i. unfold goto. case_decide; congruence. Qed.
Lemma owner_move f l o me p : owner_inv f l o → holds p = holds (f me) → owner_inv (goto me p f) l o.
Proof. intros [Ho Hl] Hp. split; [|done]. intros i. unfold goto. case_decide; subst; rewrite ?Hp; apply Ho. Qed.
Lemma owner_take f l l' o me p : owner_inv f l o → locked l = false → locked l' = true → holds p = true →
  owner_inv (goto me p f) l' (Some me).
Proof.
  intros [Ho Hl] Hf Ht Hp. assert (o = None) as ->. { destruct o; [|done]. by rewrite (proj2 Hl) in Hf. }
  split; [|by rewrite Ht; split; [eexists|]]. intros i. unfold goto. case_decide; subst; [done|].
  split; [by intros ?%Ho|congruence].
Qed.
Lemma owner_drop f l l' me o p : owner_inv f l o → holds (f me) = true → locked l' = false → holds p = false →
  owner_inv (goto me p f) l' None.
Proof.
  intros [Ho Hl] Hm Hf Hp. apply Ho in Hm as ->. split; [|rewrite Hf; split; [done|by intros [? [=]]]].
  intros i. unfold goto. case_decide; subst; [by rewrite Hp|]. split; [|done]. intros [= ->]%Ho. done.
Qed.
Lemma cur_move f cur me p : cur_inv f cur → is_once (f me) = false → is_once p = false → cur_inv (goto me p f) cur.
Proof.
  intros Hc Hm Hp i k. unfold goto. case_decide; subst; [|apply Hc]. split; [intros ->; done|].
  intros E%Hc. by rewrite E in Hm.
Qed.
Lemma cur_set f cur me k : cur_inv f cur → (∀ i, is_once (f i) = true → i = me) → cur_inv (goto me (Once k) f) (Some (me, k)).
Proof.
  intros Hc Hu i j. unfold goto. case_decide; [naive_solver|]. split; [|congruence].
  intros E. destruct (Hu i); [by rewrite E|done].
Qed.
Lemma cur_clear f cur me p : cur_inv f cur → (∀ i, is_once (f i) = true → i = me) → is_once p = false → cur_inv (goto me p f) None.
Proof.
  intros Hc Hu Hp i j. unfold goto. case_decide; [split; [intros ->|]; done|]. split; [|done].
  intros E. destruct (Hu i); [by rewrite E|done].
Qed.

Definition current (cur : option (Z * nat)) : list call :=
  match cur with Some (_, k) => take k init_system_once | None => [] end.
(** [n] initialisations are complete. *)
Record inv (σ : machine) (n : nat) (o : option Z) (cur : option (Z * nat)) : Prop := {
  iv_cpu : ∀ i, at_pc σ i ≠ Begin → 0 ≤ i < NUM_CPUS;
  iv_owner : owner_inv (at_pc σ) (init_lock σ) o;
  iv_cur : cur_inv (at_pc σ) cur;
  iv_log : once_calls σ = mjoin (replicate n init_system_once) ++ current cur;
  iv_k : ∀ i k, cur = Some (i, k) → (k ≤ length init_system_once)%nat;
  iv_started : ∀ i, at_pc σ i ≠ Begin → cur = None → (1 ≤ n)%nat;
  iv_passed : ∀ i, passed (at_pc σ i) = true → (1 ≤ n)%nat;
  iv_rest : ∀ i, rest_calls i σ = take (done_with (at_pc σ i)) (main_rest i) ∧ (done_with (at_pc σ i) ≤ length (main_rest i))%nat
}.

Lemma inv_power_on : inv power_on 0 None None.
Proof.
  split; try done. intros i. split; [done|]. simpl. lia.
Qed.
(** The CPU that initialises is the holder. *)
Lemma inv_alone σ n o cur me i : inv σ n o cur → holds (at_pc σ me) = true → is_once (at_pc σ i) = true → i = me.
Proof.
  intros HI Hm Hi. assert (holds (at_pc σ i) = true) as Hh by (by destruct (at_pc σ i)).
  apply (ow_holds _ _ _ (iv_owner _ _ _ _ HI)) in Hm, Hh. congruence.
Qed.

Lemma inv_try σ n o cur me won l : inv σ n o cur → 0 ≤ me < NUM_CPUS → at_pc σ me = Begin → try_acquire_spinlock me (init_lock σ) = Ok won l →
  ∃ n o cur, inv (mkMachine l (goto me (if (won : bool) then Once 0 else Waiting) (at_pc σ)) (trace σ)) n o cur.
Proof.
  intros HI Hme Hp E. destruct HI as [Hcpu Ho Hc Hlog Hk Hs Hpa Hr]. unfold try_acquire_spinlock in E.
  destruct (locked (init_lock σ)) eqn:Hl; simpl in E; rewrite ?Hl in E; injection E as <- <-.
  - assert (cur = None → ∃ i, at_pc σ i ≠ Begin) as Hstart.
    { apply (ow_lock _ _ _ Ho) in Hl as [j ->]. intros _. exists j. intros E.
      pose proof (proj2 (ow_holds _ _ _ Ho j) eq_refl) as Hj. by rewrite E in Hj. }
    exists n, o, cur. split; cbn [at_pc init_lock trace].
    + intros i. unfold goto. case_decide; subst; first [done|apply Hcpu|apply Hpa].
    + apply owner_move; [done|]. by rewrite Hp.
    + apply cur_move; [done| |done]. by rewrite Hp.
    + done.
    + done.
    + intros i _ E. destruct (Hstart E) as [j Hj]. by apply (Hs j).
    + intros i. unfold goto. case_decide; subst; first [done|apply Hcpu|apply Hpa].
    + intros i. destruct (Hr i). unfold goto. by case_decide; subst; rewrite ?Hp in *.
  - exists n, (Some me), (Some (me, 0%nat)). split; cbn [at_pc init_lock trace].
    + intros i. unfold goto. case_decide; subst; first [done|apply Hcpu|apply Hpa].
    + by eapply owner_take.
    + eapply cur_set; [done|]. intros i Hi. exfalso. assert (holds (at_pc σ i) = true) as Hh by (by destruct (at_pc σ i)).
      apply (ow_holds _ _ _ Ho) in Hh. by rewrite (proj2 (ow_lock _ _ _ Ho)) in Hl.
    + destruct cur as [[i k]|]; [|done]. exfalso. pose proof (proj2 (Hc i k) eq_refl) as Hi.
      assert (holds (at_pc σ i) = true) as Hh by (by rewrite Hi). apply (ow_holds _ _ _ Ho) in Hh.
      by rewrite (proj2 (ow_lock _ _ _ Ho)) in Hl.
    + intros i k [= <- <-]. lia.
    + done.
    + intros i. unfold goto. case_decide; subst; first [done|apply Hcpu|apply Hpa].
    + intros i. destruct (Hr i). unfold goto. by case_decide; subst; rewrite ?Hp in *.
Qed.

(** A CPU that moves on without making a call. *)
Lemma rest_move σ me p l f : (∀ i, rest_calls i σ = take (done_with (at_pc σ i)) (main_rest i) ∧ (done_with (at_pc σ i) ≤ length (main_rest i))%nat) →
  f = at_pc σ → done_with p = done_with (f me) →
  ∀ i, rest_calls i (mkMachine l (goto me p f) (trace σ)) = take (done_with (goto me p f i)) (main_rest i) ∧
    (done_with (goto me p f i) ≤ length (main_rest i))%nat.
Proof. intros Hr -> Hp i. destruct (Hr i). unfold goto. case_decide; subst; rewrite ?Hp; done. Qed.

Lemma inv_once σ n o cur me k c : inv σ n o cur → at_pc σ me = Once k → init_system_once !! k = Some c →
  inv (mkMachine (init_lock σ) (goto me (Once (S k)) (at_pc σ)) (trace σ ++ [(me, c)])) n o (Some (me, S k)).
Proof.
  intros HI Hp Hk'. pose proof (λ i, inv_alone σ n o cur me i HI) as Hal. destruct HI as [Hcpu Ho Hc Hlog Hk Hs Hpa Hr].
  rewrite Hp in Hal. apply Hc in Hp as Hcur. split; cbn [at_pc init_lock trace].
  - intros i. unfold goto. case_decide; subst; [|apply Hcpu]. intros _. apply Hcpu. by rewrite Hp.
  - apply owner_move; [done|]. by rewrite Hp.
  - eapply cur_set; [done|]. by auto.
  - rewrite once_calls_app. assert (c ∈ init_system_once) as Hin by (by eapply list_elem_of_lookup_2).
    rewrite filter_cons, decide_True by done. rewrite filter_nil. change (once_calls σ ++ [c] = mjoin (replicate n init_system_once) ++ current (Some (me, S k))).
    rewrite Hlog, Hcur. cbn [current]. rewrite (take_S_r _ _ _ Hk'). by rewrite app_assoc.
  - intros i j [= <- <-]. apply lookup_lt_Some in Hk'. lia.
  - done.
  - intros i. unfold goto. case_decide; subst; [done|apply Hpa].
  - intros i. rewrite rest_calls_app. assert (c ∈ init_system_once) as Hin by (by eapply list_elem_of_lookup_2).
    rewrite decide_False by naive_solver. rewrite app_nil_r. apply rest_move; [done|done|]. by rewrite Hp.
Qed.

Lemma inv_release σ n o cur me l : inv σ n o cur → at_pc σ me = Once (length init_system_once) → release_spinlock (init_lock σ) = Ok () l →
  inv (mkMachine l (goto me Waiting (at_pc σ)) (trace σ)) (S n) None None.
Proof.
  intros HI Hp E. pose proof (λ i, inv_alone σ n o cur me i HI) as Hal. destruct HI as [Hcpu Ho Hc Hlog Hk Hs Hpa Hr].
  rewrite Hp in Hal. apply Hc in Hp as Hcur. unfold release_spinlock in E. case_match; [done|]. injection E as <-.
  split; cbn [at_pc init_lock trace].
  - intros i. unfold goto. case_decide; subst; [|apply Hcpu]. intros _. apply Hcpu. by rewrite Hp.
  - eapply owner_drop; [done| |done|done]. by rewrite Hp.
  - eapply cur_clear; [done|by auto|done].
  - change (once_calls σ = mjoin (replicate (S n) init_system_once) ++ []). rewrite Hlog, Hcur. cbn [current].
    rewrite firstn_all, app_nil_r, replicate_S_end, join_app. done.
  - done.
  - intros. lia.
  - intros. lia.
  - apply rest_move; [done|done|]. by rewrite Hp.
Qed.

Lemma inv_holder σ n o cur i : inv σ n o cur → holds (at_pc σ i) = true → locked (init_lock σ) = true.
Proof.
  intros HI Hh. apply (ow_holds _ _ _ (iv_owner _ _ _ _ HI)) in Hh. by apply (ow_lock _ _ _ (iv_owner _ _ _ _ HI)); rewrite Hh.
Qed.
Lemma inv_no_cur σ n o cur : inv σ n o cur → locked (init_lock σ) = false → cur = None.
Proof.
  intros HI Hl. destruct cur as [[i k]|]; [|done]. pose proof (proj2 (iv_cur _ _ _ _ HI i k) eq_refl) as Hi.
  rewrite (inv_holder _ _ _ _ i HI) in Hl; [done|by rewrite Hi].
Qed.
Lemma inv_acquire σ n o cur me l : inv σ n o cur → at_pc σ me = Waiting → acquire_spinlock me (init_lock σ) = Ok () l →
  inv (mkMachine l (goto me Through (at_pc σ)) (trace σ)) n (Some me) cur.
Proof.
  intros HI Hp E. destruct (locked (init_lock σ)) eqn:Hl; [by rewrite acquire_spinlock_held in E|].
  rewrite acquire_spinlock_free in E by done. injection E as <-. pose proof (inv_no_cur _ _ _ _ HI Hl) as ->.
  destruct HI as [Hcpu Ho Hc Hlog Hk Hs Hpa Hr].
  assert (1 ≤ n)%nat as Hn. { apply (Hs me); [by rewrite Hp|done]. }
  split; cbn [at_pc init_lock trace]; try done.
  - intros i. unfold goto. case_decide; subst; [|apply Hcpu]. intros _. apply Hcpu. by rewrite Hp.
  - by eapply owner_take.
  - apply cur_move; [done| |done]. by rewrite Hp.
  - apply rest_move; [done|done|]. by rewrite Hp.
Qed.
Lemma inv_through σ n o cur me l : inv σ n o cur → at_pc σ me = Through → release_spinlock (init_lock σ) = Ok () l →
  inv (mkMachine l (goto me (Rest 0) (at_pc σ)) (trace σ)) n None cur.
Proof.
  intros HI Hp E. unfold release_spinlock in E. case_match; [done|]. injection E as <-.
  destruct HI as [Hcpu Ho Hc Hlog Hk Hs Hpa Hr].
  assert (1 ≤ n)%nat as Hn. { apply (Hpa me). by rewrite Hp. }
  split; cbn [at_pc init_lock trace]; try done.
  - intros i. unfold goto. case_decide; subst; [|apply Hcpu]. intros _. apply Hcpu. by rewrite Hp.
  - eapply owner_drop; [done| |done|done]. by rewrite Hp.
  - apply cur_move; [done| |done]. by rewrite Hp.
  - apply rest_move; [done|done|]. by rewrite Hp.
Qed.
Lemma inv_rest σ n o cur me k c : inv σ n o cur → at_pc σ me = Rest k → main_rest me !! k = Some c →
  inv (mkMachine (init_lock σ) (goto me (Rest (S k)) (at_pc σ)) (trace σ ++ [(me, c)])) n o cur.
Proof.
  intros HI Hp Hk'. pose proof (main_rest_other _ _ _ Hk') as Hnot. destruct HI as [Hcpu Ho Hc Hlog Hk Hs Hpa Hr].
  assert (1 ≤ n)%nat as Hn. { apply (Hpa me). by rewrite Hp. }
  split; cbn [at_pc init_lock trace]; try done.
  - intros i. unfold goto. case_decide; subst; [|apply Hcpu]. intros _. apply Hcpu. by rewrite Hp.
  - apply owner_move; [done|]. by rewrite Hp.
  - apply cur_move; [done| |done]. by rewrite Hp.
  - rewrite once_calls_app, filter_cons, decide_False by done. rewrite filter_nil, app_nil_r. done.
  - intros i. rewrite rest_calls_app. destruct (Hr i) as [Hi Hle]. unfold goto.
    change (rest_calls i (mkMachine _ _ (trace σ))) with (rest_calls i σ). rewrite Hi. destruct (decide (i = me)) as [->|Hd].
    + rewrite decide_True by done. rewrite Hp. cbn [done_with]. rewrite <- (take_S_r _ _ _ Hk').
      split; [done|]. apply lookup_lt_Some in Hk'. lia.
    + rewrite decide_False by naive_solver. by rewrite app_nil_r.
Qed.

Lemma boot_inv_reachable σ : reachable σ → ∃ n o cur, inv σ n o cur.
Proof.
  apply (rtc_ind_r (λ σ, ∃ n o cur, inv σ n o cur) power_on); [by eexists _, _, _; apply inv_power_on|].
  intros σ1 σ2 _ Hst (n & o & cur & HI). destruct Hst.
  - by eapply inv_try.
  - eexists _, _, _. by eapply inv_once.
  - eexists _, _, _. by eapply inv_release.
  - eexists _, _, _. by eapply inv_acquire.
  - eexists _, _, _. by eapply inv_through.
  - eexists _, _, _. by eapply inv_rest.
Qed.

(** A CPU is done when it has entered the scheduler. *)
Definition entered (σ : machine) (i : Z) : Prop := at_pc σ i = Rest (length (main_rest i)).
Lemma inv_progress σ n o cur i : inv σ n o cur → 0 ≤ i < NUM_CPUS → ¬ entered σ i → ∃ σ', boot_step σ σ'.
Proof.
  intros HI Hi He. destruct (locked (init_lock σ)) eqn:Hl.
  - apply (ow_lock _ _ _ (iv_owner _ _ _ _ HI)) in Hl as Ho. destruct Ho as [j ->].
    pose proof (proj2 (ow_holds _ _ _ (iv_owner _ _ _ _ HI) j) eq_refl) as Hj.
    destruct (at_pc σ j) as [|k| | |] eqn:Hp; try done.
    + apply (iv_cur _ _ _ _ HI) in Hp as Hc. apply (iv_k _ _ _ _ HI) in Hc.
      destruct (init_system_once !! k) as [c|] eqn:Hk; [eexists; by eapply step_once|].
      apply lookup_ge_None in Hk. replace k with (length init_system_once) in Hp by lia.
      eexists. eapply step_release; [done|]. by apply release_spinlock_held.
    + eexists. eapply step_through; [done|]. by apply release_spinlock_held.
  - destruct (at_pc σ i) as [|k| | |k] eqn:Hp.
    + eexists. eapply step_try; [done|done|]. unfold try_acquire_spinlock. rewrite Hl. simpl. by rewrite Hl.
    + rewrite (inv_holder _ _ _ _ i HI) in Hl; [done|by rewrite Hp].
    + eexists. eapply step_acquire; [done|]. by apply acquire_spinlock_free.
    + rewrite (inv_holder _ _ _ _ i HI) in Hl; [done|by rewrite Hp].
    + destruct (main_rest i !! k) as [c|] eqn:Hk; [eexists; by eapply step_rest|]. exfalso. apply He.
      apply lookup_ge_None in Hk. destruct (iv_rest _ _ _ _ HI i) as [_ Hle]. rewrite Hp in Hle. cbn [done_with] in Hle.
      unfold entered. rewrite Hp. f_equal. lia.
Qed.

(** ** What must come first

    Clearing the BSS section would undo anything that came before it; [init_interrupt]
    resets the handlers that the drivers register; the console is printed to; pages come
    from the memory manager; the CPUs and the first processes are put into the root
    container. *)
Definition needs (c : call) : list call :=
  match c with
  | do_memset_bss => []
  | do_init_char_device => [do_memset_bss; do_init_interrupt]
  | do_init_virtual_memory => [do_memset_bss; do_init_memory_manager]
  | do_vm_test | do_arena_test => [do_memset_bss; do_init_console; do_init_memory_manager]
  | do_init_container => [do_memset_bss; do_init_memory_manager]
  | do_sd_init => [do_memset_bss; do_init_interrupt; do_init_console]
  | do_init_clock => [do_memset_bss; do_init_interrupt]
  | do_init_cpu_root => [do_memset_bss; do_init_container]
  | do_spawn_init_process_sd => [do_memset_bss; do_init_proc; do_init_memory_manager; do_init_container; do_sd_init]
  | do_enter_scheduler => [do_memset_bss; do_init_container; do_sd_init]
  | _ => [do_memset_bss]
  end.
(** And what the CPU itself must have called. *)
Definition own_needs (c : call) : list call :=
  match c with
  | do_enter_scheduler => [do_init_clock; do_set_clock_handler_hello; do_init_trap; do_init_cpu_root]
  | _ => []
  end.
Definition in_order (t : list (Z * call)) : Prop :=
  ∀ i me c, t !! i = Some (me, c) → needs c ⊆ (take i t).*2 ∧ ∀ a, a ∈ own_needs c → (me, a) ∈ take i t.

Lemma in_order_app t me c : in_order t → needs c ⊆ t.*2 → (∀ a, a ∈ own_needs c → (me, a) ∈ t) → in_order (t ++ [(me, c)]).
Proof.
  intros Ht H1 H2 i q d [E|[Hi E]]%lookup_app_Some.
  - rewrite take_app_le by (apply lookup_lt_Some in E; lia). by apply Ht.
  - apply list_lookup_singleton_Some in E as [Ei [= <- <-]]. by rewrite take_app_length' by lia.
Qed.
Lemma once_calls_in σ c : c ∈ once_calls σ → c ∈ (trace σ).*2.
Proof. unfold once_calls. intros [_ Hc]%list_elem_of_filter. exact Hc. Qed.
Lemma rest_calls_in i σ c : c ∈ rest_calls i σ → (i, c) ∈ trace σ.
Proof. intros ([q d] & -> & [[<- _] ?]%list_elem_of_filter)%list_elem_of_fmap. done. Qed.
Lemma once_order k c : init_system_once !! k = Some c → needs c ⊆ take k init_system_once ∧ own_needs c = [].
Proof.
  intros E. assert (Forall (λ k, match init_system_once !! k with Some c => bool_decide (Forall (λ a, a ∈ take k init_system_once) (needs c) ∧ own_needs c = []) | None => true end = true)
    (seq 0 (length init_system_once))) as HF by (refine (bool_decide_unpack _ _); by vm_compute).
  pose proof (proj1 (Forall_forall _ _) HF k) as H. cbn beta in H. rewrite E, bool_decide_eq_true in H. destruct H as [H1 H2].
  { apply elem_of_seq. apply lookup_lt_Some in E. lia. }
  split; [|done]. intros a Ha. by apply (proj1 (Forall_forall _ _) H1).
Qed.
Lemma rest_order me k c : main_rest me !! k = Some c → needs c ⊆ init_system_once ∧ ∀ a, a ∈ own_needs c → a ∈ take k (main_rest me).
Proof.
  intros E. assert (∀ l, l = main_rest me → Forall (λ k, match l !! k with Some c => bool_decide (Forall (λ a, a ∈ init_system_once) (needs c) ∧ Forall (λ a, a ∈ take k l) (own_needs c)) | None => true end = true)
    (seq 0 (length l))) as HF.
  { intros l ->. unfold main_rest, init_system_per_cpu. case_match; refine (bool_decide_unpack _ _); by vm_compute. }
  pose proof (proj1 (Forall_forall _ _) (HF _ eq_refl) k) as H. cbn beta in H. rewrite E, bool_decide_eq_true in H. destruct H as [H1 H2].
  { apply elem_of_seq. apply lookup_lt_Some in E. lia. }
  split; intros a Ha; [by apply (proj1 (Forall_forall _ _) H1)|by apply (proj1 (Forall_forall _ _) H2)].
Qed.
Lemma boot_step_order σ n o cur σ' : inv σ n o cur → in_order (trace σ) → boot_step σ σ' → in_order (trace σ').
Proof.
  intros HI Ho Hs. destruct Hs as [me won l σ Hm Hp E|me k c σ Hp Hk|me l σ Hp E|me l σ Hp E|me l σ Hp E|me k c σ Hp Hk]; cbn [trace]; try done.
  - destruct (once_order k c Hk) as [H1 H2]. apply in_order_app; [done| |by rewrite H2; intros a ?%elem_of_nil].
    intros a Ha%H1. apply once_calls_in. rewrite (iv_log _ _ _ _ HI). apply (iv_cur _ _ _ _ HI) in Hp as ->. apply elem_of_app. by right.
  - destruct (rest_order me k c Hk) as [H1 H2]. apply in_order_app; [done| |].
    + intros a Ha%H1. apply once_calls_in. rewrite (iv_log _ _ _ _ HI). apply elem_of_app. left.
      pose proof (iv_passed _ _ _ _ HI me ltac:(by rewrite Hp)). destruct n as [|n]; [lia|]. apply elem_of_app. by left.
    + intros a Ha%H2. apply rest_calls_in. destruct (iv_rest _ _ _ _ HI me) as [-> _]. by rewrite Hp.
Qed.
Lemma boot_in_order σ : reachable σ → in_order (trace σ).
Proof.
  intros HR. assert (∀ σ0, rtc boot_step σ0 σ → reachable σ0 → in_order (trace σ0) → in_order (trace σ)) as H.
  { clear HR. induction 1 as [|σ0 σ1 σ2 Hs _ IH]; [done|]. intros HR Ho. apply IH; [by eapply rtc_r|].
    destruct (boot_inv_reachable _ HR) as (n & o & cur & HI). by eapply boot_step_order. }
  apply (H power_on); [done|apply rtc_refl|]. intros i me c. simpl. by rewrite lookup_nil.
Qed.

(** C18. The start of the system. In every interleaving of the CPUs, the calls of
    [init_system_once] are made by one CPU at a time, each time all of them in their order;
    a CPU goes on to its own initialisation and to the scheduler only after the system was
    initialised completely at least once, and makes its own calls once and in order. No
    call is made before the ones it depends on: the BSS section is cleared first, the
    interrupt controller is set up before the drivers, the console before what prints,
    the memory manager before what allocates pages, the root container before the CPUs
    and the first processes, the clock, its handler and the trap vector of a CPU before
    its scheduler. And as long as some CPU has not entered the scheduler, some CPU can
    take a step. *)
Theorem boot_correct σ : reachable σ →
  (∃ n cur, once_calls σ = mjoin (replicate n init_system_once) ++ current cur ∧
     (∀ i k, at_pc σ i = Once k ↔ cur = Some (i, k)) ∧
     (∀ i, passed (at_pc σ i) = true → (1 ≤ n)%nat)) ∧
  (∀ i, rest_calls i σ = take (done_with (at_pc σ i)) (main_rest i)) ∧
  in_order (trace σ) ∧
  ((∀ i, 0 ≤ i < NUM_CPUS → entered σ i) ∨ ∃ σ', boot_step σ σ').
Proof.
  intros HR. pose proof (boot_in_order σ HR) as Hord. apply boot_inv_reachable in HR as (n & o & cur & HI). split_and!; [| |done|].
  - exists n, cur. split_and!; [apply HI|apply HI|apply HI].
  - intros i. apply HI.
  - assert (∀ i, Decision (entered σ i)) as Hdec by (intros; unfold entered; solve_decision).
    destruct (decide (Forall (entered σ) (seqZ 0 NUM_CPUS))) as [Hall|Hnot].
    + left. intros i Hi. apply (proj1 (Forall_forall _ _) Hall), elem_of_seqZ. lia.
    + right. apply not_Forall_Exists in Hnot; [|done]. apply Exists_exists in Hnot as (i & Hi%elem_of_seqZ & He).
      eapply (inv_progress _ _ _ _ i); [done|lia|done].
Qed.

(** ** Running a schedule *)
Definition next (me : Z) (σ : machine) : option machine :=
  match at_pc σ me with
  | Begin =>
      if bool_decide (0 ≤ me < NUM_CPUS) then
        match try_acquire_spinlock me (init_lock σ) with
        | Ok won l => Some (mkMachine l (goto me (if (won : bool) then Once 0 else Waiting) (at_pc σ)) (trace σ))
        | _ => None
        end
      else None
  | Once k =>
      match init_system_once !! k with
      | Some c => Some (mkMachine (init_lock σ) (goto me (Once (S k)) (at_pc σ)) (trace σ ++ [(me, c)]))
      | None =>
          match decide (k = length init_system_once), release_spinlock (init_lock σ) with
          | left _, Ok _ l => Some (mkMachine l (goto me Waiting (at_pc σ)) (trace σ))
          | _, _ => None
          end
      end
  | Waiting =>
      match acquire_spinlock me (init_lock σ) with
      | Ok _ l => Some (mkMachine l (goto me Through (at_pc σ)) (trace σ))
      | _ => None
      end
  | Through =>
      match release_spinlock (init_lock σ) with
      | Ok _ l => Some (mkMachine l (goto me (Rest 0) (at_pc σ)) (trace σ))
      | _ => None
      end
  | Rest k =>
      match main_rest me !! k with
      | Some c => Some (mkMachine (init_lock σ) (goto me (Rest (S k)) (at_pc σ)) (trace σ ++ [(me, c)]))
      | None => None
      end
  end.
Lemma next_step me σ σ' : next me σ = Some σ' → boot_step σ σ'.
Proof.
  unfold next. destruct (at_pc σ me) as [|k| | |k] eqn:Hp.
  - case_bool_decide; [|done]. destruct (try_acquire_spinlock _ _) eqn:E; [|done..]. intros [= <-]. by constructor.
  - destruct (init_system_once !! k) eqn:Hk; [intros [= <-]; by constructor|].
    case_decide as Hd; [|done]. subst k. destruct (release_spinlock _) as [[]| | | |] eqn:E; [|done..]. intros [= <-]. by constructor.
  - destruct (acquire_spinlock _ _) as [[]| | | |] eqn:E; [|done..]. intros [= <-]. by constructor.
  - destruct (release_spinlock _) as [[]| | | |] eqn:E; [|done..]. intros [= <-]. by constructor.
  - destruct (main_rest me !! k) eqn:Hk; [|done]. intros [= <-]. by constructor.
Qed.
(** A CPU that cannot take a step spins. *)
Definition run (l : list Z) : machine := foldl (λ σ me, default σ (next me σ)) power_on l.
Lemma boot_run_reachable l : reachable (run l).
Proof.
  unfold run, reachable. generalize (rtc_refl boot_step power_on). generalize power_on at 2 4 as σ.
  induction l as [|me l IH]; intros σ Hr; [done|]. simpl. apply IH.
  destruct (next me σ) eqn:E; [|done]. simpl. eapply rtc_r; [done|]. by eapply next_step.
Qed.

(** CPU 1 fails to get the lock while CPU 0 initialises, and spins; then both go on. *)
Definition two_cpus : list Z := [0; 1; 1] ++ replicate 15 0 ++ replicate 4 1 ++ replicate 9 0 ++ replicate 6 1.
Lemma boot_correct_witness :
  at_pc (run two_cpus) 0 = Rest 7 ∧ at_pc (run two_cpus) 1 = Rest 5 ∧
  rest_calls 1 (run two_cpus) = take (done_with (at_pc (run two_cpus) 1)) (main_rest 1) ∧
  once_calls (run two_cpus) = init_system_once.
Proof.
  split; [vm_compute; reflexivity|]. split; [vm_compute; reflexivity|].
  split; [|vm_compute; reflexivity]. exact (proj1 (proj2 (boot_correct (run two_cpus) (boot_run_reachable two_cpus))) 1).
Defined.

(** Nothing keeps the lock closed after the initialisation: a CPU that reaches
    [init_system_once] only after CPU 0 has released the lock initialises the system
    again, here while CPU 0 is already in the scheduler. *)
Lemma initialised_again : ∃ σ, reachable σ ∧ entered σ 0 ∧ at_pc σ 1 = Once 1 ∧
  once_calls σ = init_system_once ++ [do_memset_bss].
Proof.
  exists (run (replicate 23 0 ++ replicate 2 1)). split; [apply boot_run_reachable|]. by vm_compute.
Qed.
