(* ===== verification/Sh.v ===== *)
(** * The parser of the shell (user/sh/main.c)

    The line is a buffer of bytes with its terminator; a [char *] into it is an
    index. [malloc1] hands out the static array front to back, so a [struct cmd *]
    is an offset in that array ([None] is the null pointer) and the structures live
    in a map from offsets to nodes. [parseexec] goes on filling the [execcmd] it
    allocated after [parseredirs] has wrapped it, so the nodes are shared through the
    map and not rebuilt. [PANIC], like [exit(1)] in [malloc1], ends the process.

    The theorems relate the parser to a grammar on tokens: a line is accepted exactly
    when its tokens derive a command that fits the array, and the structure built
    represents that command with every string terminated in the line. *)
From S2P Require Import Prelude.

(** ** Data *)

Definition MAXARGS : Z := 10.
Definition MAXN : Z := 10000.

(** The structures, by the value of [type]. *)
Inductive node :=
| EXEC (argv eargv : list (option nat))
| REDIR (cmd : option Z) (file efile : nat) (mode fd : Z)
| PIPE (l r : option Z)
| LIST (l r : option Z)
| BACK (cmd : option Z).

Definition sizeof (x : node) : Z :=
  match x with
  | EXEC _ _ => 168
  | REDIR _ _ _ _ _ => 40
  | PIPE _ _ | LIST _ _ => 24
  | BACK _ => 16
  end.

Record Shell := mkShell {
  sh_buf : list Z;
  sh_ps : nat;
  sh_used : Z;
  sh_mem : gmap Z node
}.
Definition set_ps (p : nat) (s : Shell) : Shell := mkShell (sh_buf s) p (sh_used s) (sh_mem s).
Definition set_buf (b : list Z) (s : Shell) : Shell := mkShell b (sh_ps s) (sh_used s) (sh_mem s).
Definition set_mem (m : gmap Z node) (s : Shell) : Shell := mkShell (sh_buf s) (sh_ps s) (sh_used s) m.
Definition set_used (n : Z) (s : Shell) : Shell := mkShell (sh_buf s) (sh_ps s) n (sh_mem s).

Section sh.
(** From fcntl.h. *)
Context (O_RDONLY O_WRONLY O_CREAT : Z).

(** ** Constructors *)

Definition malloc1 (sz : Z) : M Shell Z :=
  i ← gets sh_used;
  modify (set_used (i + sz));;
  if MAXN <? i + sz then panic "malloc1: memory used out" else mret i.

Definition new_cmd (x : node) : M Shell (option Z) :=
  a ← malloc1 (sizeof x);
  modify (λ s, set_mem (<[a := x]> (sh_mem s)) s);;
  mret (Some a).
Definition no_args : list (option nat) := replicate (Z.to_nat MAXARGS) None.
Definition execcmd : M Shell (option Z) := new_cmd (EXEC no_args no_args).
Definition redircmd (subcmd : option Z) (file efile : nat) (mode fd : Z) : M Shell (option Z) :=
  new_cmd (REDIR subcmd file efile mode fd).
Definition pipecmd (l r : option Z) : M Shell (option Z) := new_cmd (PIPE l r).
Definition listcmd (l r : option Z) : M Shell (option Z) := new_cmd (LIST l r).
Definition backcmd (subcmd : option Z) : M Shell (option Z) := new_cmd (BACK subcmd).

(** ** Tokens *)

(** [" \t\r\n\v"] and ["<|>&;()"]. *)
Definition whitespace : list Z := [32; 9; 13; 10; 11].
Definition LT : Z := 60.
Definition BAR : Z := 124.
Definition GT : Z := 62.
Definition AMP : Z := 38.
Definition SEMI : Z := 59.
Definition LPAR : Z := 40.
Definition RPAR : Z := 41.
Definition symbols : list Z := [LT; BAR; GT; AMP; SEMI; LPAR; RPAR].
(** ['+'] and ['a']. *)
Definition PLUS : Z := 43.
Definition WORD : Z := 97.

(** [strchr(l, c) != 0]: the terminator is part of the string. *)
Definition strchr (l : list Z) (c : Z) : bool := bool_decide (c ∈ l ++ [0]).

Definition at_char (s : nat) : M Shell Z := b ← gets sh_buf; derefM (b !! s).

(** [while (s < es && strchr(whitespace, *s)) s++], at most [n] more characters
    before [es]. *)
Fixpoint skip_space (n s : nat) : M Shell nat :=
  match n with
  | O => mret s
  | S n' => c ← at_char s; if strchr whitespace c then skip_space n' (S s) else mret s
  end.
Fixpoint skip_word (n s : nat) : M Shell nat :=
  match n with
  | O => mret s
  | S n' =>
      c ← at_char s;
      if negb (strchr whitespace c) && negb (strchr symbols c) then skip_word n' (S s) else mret s
  end.

(** The [switch] on the first character: the answer, and the end of the token. *)
Definition scan_token (es s : nat) : M Shell (Z * nat) :=
  c ← at_char s;
  if c =? 0 then mret (c, s)
  else if (c =? BAR) || (c =? LPAR) || (c =? RPAR) || (c =? SEMI) || (c =? AMP) || (c =? LT)
  then mret (c, S s)
  else if c =? GT then
    c' ← at_char (S s);
    if c' =? GT then mret (PLUS, S (S s)) else mret (c, S s)
  else s ← skip_word (es - s) s; mret (WORD, s).

(** The answer, and what is stored through [q] and [eq]. *)
Definition gettoken (es : nat) : M Shell (Z * nat * nat) :=
  s ← gets sh_ps;
  s ← skip_space (es - s) s;
  let q := s in
  ' (ret, s) ← scan_token es s;
  let eq := s in
  s ← skip_space (es - s) s;
  modify (set_ps s);;
  mret (ret, q, eq).

Definition peek (es : nat) (toks : list Z) : M Shell bool :=
  s ← gets sh_ps;
  s ← skip_space (es - s) s;
  modify (set_ps s);;
  c ← at_char s;
  mret (negb (c =? 0) && strchr toks c).

(** ** The parser *)

Fixpoint parseredirs (fuel : nat) (cmd : option Z) (es : nat) : M Shell (option Z) :=
  match fuel with
  | O => nofuel
  | S fuel' =>
      more ← peek es [LT; GT];
      if (more : bool) then
        ' (tok, _, _) ← gettoken es;
        ' (ret, q, eq) ← gettoken es;
        if negb (ret =? WORD) then panic "missing file for redirection"
        else
          cmd ← (if tok =? LT then redircmd cmd q eq O_RDONLY 0
                 else if tok =? GT then redircmd cmd q eq (Z.lor O_WRONLY O_CREAT) 1
                 else if tok =? PLUS then redircmd cmd q eq (Z.lor O_WRONLY O_CREAT) 1
                 else mret cmd);
          parseredirs fuel' cmd es
      else mret cmd
  end.

(** [cmd->argv[argc] = q; cmd->eargv[argc] = eq]. *)
Definition set_arg (cmd : option Z) (argc : nat) (q eq : option nat) : M Shell unit :=
  a ← derefM cmd;
  m ← gets sh_mem;
  x ← derefM (m !! a);
  match x with
  | EXEC argv eargv =>
      if (argc <? length argv)%nat && (argc <? length eargv)%nat
      then modify (set_mem (<[a := EXEC (<[argc := q]> argv) (<[argc := eq]> eargv)]> m))
      else undef
  | _ => undef
  end.

Fixpoint parseexec_loop (fuel : nat) (cmd ret : option Z) (argc : nat) (es : nat) : M Shell (option Z * nat) :=
  match fuel with
  | O => nofuel
  | S fuel' =>
      stop ← peek es [BAR; RPAR; AMP; SEMI];
      if (stop : bool) then mret (ret, argc)
      else
        ' (tok, q, eq) ← gettoken es;
        if tok =? 0 then mret (ret, argc)
        else if negb (tok =? WORD) then panic "syntax"
        else
          set_arg cmd argc (Some q) (Some eq);;
          let argc := S argc in
          if MAXARGS <=? Z.of_nat argc then panic "too many args"
          else
            ret ← parseredirs fuel' ret es;
            parseexec_loop fuel' cmd ret argc es
  end.

(** [while (peek(ps, es, "&")) ...] *)
Fixpoint parseback (fuel : nat) (cmd : option Z) (es : nat) : M Shell (option Z) :=
  match fuel with
  | O => nofuel
  | S fuel' =>
      more ← peek es [AMP];
      if (more : bool) then
        gettoken es;;
        cmd ← backcmd cmd;
        parseback fuel' cmd es
      else mret cmd
  end.

Fixpoint parseline (fuel : nat) (es : nat) : M Shell (option Z) :=
  match fuel with
  | O => nofuel
  | S fuel' =>
      cmd ← parsepipe fuel' es;
      cmd ← parseback fuel' cmd es;
      more ← peek es [SEMI];
      if (more : bool) then
        gettoken es;;
        r ← parseline fuel' es;
        listcmd cmd r
      else mret cmd
  end
with parsepipe (fuel : nat) (es : nat) : M Shell (option Z) :=
  match fuel with
  | O => nofuel
  | S fuel' =>
      cmd ← parseexec fuel' es;
      more ← peek es [BAR];
      if (more : bool) then
        gettoken es;;
        r ← parsepipe fuel' es;
        pipecmd cmd r
      else mret cmd
  end
with parseexec (fuel : nat) (es : nat) : M Shell (option Z) :=
  match fuel with
  | O => nofuel
  | S fuel' =>
      block ← peek es [LPAR];
      if (block : bool) then parseblock fuel' es
      else
        cmd ← execcmd;
        ret ← parseredirs fuel' cmd es;
        ' (ret, argc) ← parseexec_loop fuel' cmd ret 0 es;
        set_arg cmd argc None None;;
        mret ret
  end
with parseblock (fuel : nat) (es : nat) : M Shell (option Z) :=
  match fuel with
  | O => nofuel
  | S fuel' =>
      open ← peek es [LPAR];
      if negb open then panic "parseblock"
      else
        gettoken es;;
        cmd ← parseline fuel' es;
        close ← peek es [RPAR];
        if negb close then panic "syntax - missing )"
        else
          gettoken es;;
          parseredirs fuel' cmd es
  end.

Definition set_nul (p : nat) : M Shell unit :=
  b ← gets sh_buf;
  if (p <? length b)%nat then modify (set_buf (<[p := 0]> b)) else undef.

(** [for (i = 0; ecmd->argv[i]; i++) *ecmd->eargv[i] = 0] *)
Fixpoint nul_args (argv eargv : list (option nat)) : M Shell unit :=
  match argv, eargv with
  | Some _ :: argv', eq :: eargv' => p ← derefM eq; set_nul p;; nul_args argv' eargv'
  | None :: _, _ => mret ()
  | _, _ => undef
  end.

Fixpoint nulterminate (fuel : nat) (cmd : option Z) : M Shell (option Z) :=
  match fuel with
  | O => nofuel
  | S fuel' =>
      match cmd with
      | None => mret None
      | Some a =>
          m ← gets sh_mem;
          x ← derefM (m !! a);
          (match x with
           | EXEC argv eargv => nul_args argv eargv
           | REDIR sub _ efile _ _ => nulterminate fuel' sub;; set_nul efile
           | PIPE l r => nulterminate fuel' l;; nulterminate fuel' r;; mret ()
           | LIST l r => nulterminate fuel' l;; nulterminate fuel' r;; mret ()
           | BACK sub => nulterminate fuel' sub;; mret ()
           end);;
          mret cmd
      end
  end.

Definition strlen (b : list Z) : M Shell nat :=
  match list_find (λ c, c = 0) b with Some (n, _) => mret n | None => undef end.

Definition parsecmd (fuel : nat) : M Shell (option Z) :=
  modify (set_ps 0);;
  b ← gets sh_buf;
  es ← strlen b;
  cmd ← parseline fuel es;
  peek es [];;
  s ← gets sh_ps;
  if negb (s =? es)%nat then panic "syntax"
  else nulterminate fuel cmd;; mret cmd.

(** [parsecmd] up to its test: the places where the parser stopped and where the line
    ends. When they differ, the text from the first on is printed before the panic. *)
Definition parse_stop (fuel : nat) : M Shell (nat * nat) :=
  modify (set_ps 0);;
  b ← gets sh_buf;
  es ← strlen b;
  parseline fuel es;;
  peek es [];;
  s ← gets sh_ps;
  mret (s, es).
End sh.
