(* ===== verification/ShSpec.v ===== *)
(** * The shell parser against a grammar (user/sh/main.c)

    Tokens and commands as mathematical data, the grammar of command lines, and a
    parser on tokens that the parser of the shell refines. The parser on tokens is
    then shown to decide the grammar. *)
From S2P Require Import Prelude Sh.

(** Membership in a constant list. *)
Ltac in_const := apply (bool_decide_unpack _); vm_compute; exact I.

(** ** Tokens *)

Inductive tok := TLt | TBar | TGt | TGtGt | TAmp | TSemi | TLPar | TRPar | TWord (w : list Z).

Definition wordchar (c : Z) : Prop := c ∉ whitespace ∧ c ∉ symbols ∧ c ≠ 0.

(** The tokens that are one character wherever they stand. *)
Definition sym_tok (c : Z) : option tok :=
  if c =? LT then Some TLt else if c =? BAR then Some TBar else if c =? AMP then Some TAmp
  else if c =? SEMI then Some TSemi else if c =? LPAR then Some TLPar
  else if c =? RPAR then Some TRPar else None.

(** The tokens of a string: words are as long as they can be. *)
Inductive lexes : list Z → list tok → Prop :=
| lex_nil : lexes [] []
| lex_space c l ts : c ∈ whitespace → lexes l ts → lexes (c :: l) ts
| lex_sym c t l ts : sym_tok c = Some t → lexes l ts → lexes (c :: l) (t :: ts)
| lex_gtgt l ts : lexes l ts → lexes (GT :: GT :: l) (TGtGt :: ts)
| lex_gt l ts : head l ≠ Some GT → lexes l ts → lexes (GT :: l) (TGt :: ts)
| lex_word w l ts : w ≠ [] → Forall wordchar w → (∀ c, head l = Some c → ¬ wordchar c) →
    lexes l ts → lexes (w ++ l) (TWord w :: ts).

(** The answer of [gettoken], and the first character of a token that is not a word. *)
Definition tok_ret (t : tok) : Z :=
  match t with
  | TLt => LT | TBar => BAR | TGt => GT | TGtGt => PLUS | TAmp => AMP | TSemi => SEMI
  | TLPar => LPAR | TRPar => RPAR | TWord _ => WORD
  end.
Definition tok_first (t : tok) : option Z :=
  match t with TWord _ => None | TGtGt => Some GT | _ => Some (tok_ret t) end.
Definition starts (toks : list Z) (ts : list tok) : bool :=
  match head ts ≫= tok_first with Some c => bool_decide (c ∈ toks) | None => false end.

(** [w] stands at [q] in the line and ends at [eq], where no word goes on. *)
Record word_at (str : list Z) (q eq : nat) (w : list Z) : Prop := {
  wa_text : take (length w) (drop q str) = w;
  wa_end : eq = (q + length w)%nat;
  wa_le : (eq ≤ length str)%nat;
  wa_ne : w ≠ [];
  wa_chars : Forall wordchar w;
  wa_stop : ∀ c, str !! eq = Some c → ¬ wordchar c
}.

Lemma sym_not_space c t : sym_tok c = Some t → c ∉ whitespace ∧ c ≠ GT ∧ c ≠ 0 ∧ tok_first t = Some c ∧ tok_ret t = c ∧ t ≠ TGtGt.
Proof.
  unfold sym_tok. intros H.
  repeat (case_match; [match goal with E : (_ =? _) = true |- _ => apply Z.eqb_eq in E as ->; injection H as <- end;
    split_and!; [in_const|done..]|]).
  done.
Qed.
Lemma GT_not_space : GT ∉ whitespace.
Proof. in_const. Qed.
Lemma not_wordchar c : ¬ wordchar c → c ≠ 0 → c ∈ whitespace ∨ c = GT ∨ ∃ t, sym_tok c = Some t.
Proof.
  intros H H0. destruct (decide (c ∈ whitespace)) as [|Hw]; [by left|right].
  destruct (decide (c ∈ symbols)) as [Hs|]; [|by destruct H].
  unfold symbols in Hs. repeat (apply elem_of_cons in Hs as [->|Hs]; [try (by left); right; by eexists|]).
  by apply elem_of_nil in Hs.
Qed.
Lemma wordchar_sym c : wordchar c → sym_tok c = None ∧ c ≠ GT ∧ c ≠ 0 ∧ c ∉ whitespace.
Proof.
  intros (Hw & Hs & H0). split; [|split; [|done]].
  - destruct (sym_tok c) as [t|] eqn:E; [|done]. exfalso. apply Hs. unfold sym_tok in E.
    repeat (case_match; [match goal with H : (_ =? _) = true |- _ => apply Z.eqb_eq in H as -> end; in_const|]). done.
  - intros ->. apply Hs. in_const.
Qed.
#[global] Instance wordchar_dec c : Decision (wordchar c).
Proof. unfold wordchar. apply _. Defined.

Lemma lexes_space_inv c l ts : c ∈ whitespace → lexes (c :: l) ts → lexes l ts.
Proof.
  intros Hc H. inversion H as [|? ? ? ? H1|? ? ? ? Hs|? ? H1 E|? ? ? H1 E|w l' ? Hne Hw Hl H1 E]; subst; [done|..].
  - by apply sym_not_space in Hs as [].
  - by apply GT_not_space in Hc.
  - by apply GT_not_space in Hc.
  - destruct w as [|c' w]; [done|]. simplify_eq/=. apply Forall_cons in Hw as [Hw _]. apply wordchar_sym in Hw. naive_solver.
Qed.
Lemma lexes_nil_inv l ts : lexes l ts → (∀ c, head l = Some c → c ∉ whitespace) → ts = [] → l = [].
Proof. intros H Hh ->. inversion H as [|c ? ? Hc| | | |]; subst; [done|]. by destruct (Hh c). Qed.

Lemma word_prefix l : ∃ w l', l = w ++ l' ∧ Forall wordchar w ∧ (∀ c, head l' = Some c → ¬ wordchar c).
Proof.
  induction l as [|c l (w & l' & -> & Hw & Hl)]; [by exists [], []|].
  destruct (decide (wordchar c)) as [Hc|Hc]; [exists (c :: w), l'; by auto|].
  exists [], (c :: w ++ l'). split_and!; [done|done|]. by intros ? [= <-].
Qed.
(** Every string without a terminator has tokens. *)
Lemma lexes_total n l : (length l ≤ n)%nat → Forall (λ c, c ≠ 0) l → ∃ ts, lexes l ts.
Proof.
  revert l. induction n as [|n IH]; intros l Hn Hz; [destruct l; [|simpl in Hn; lia]; eexists; constructor|].
  destruct l as [|c l]; [eexists; constructor|].
  destruct (decide (wordchar c)) as [Hw|Hw].
  - destruct (word_prefix l) as (w & l' & -> & Hws & Hl'). apply Forall_cons in Hz as [_ [_ Hz]%Forall_app].
    simpl in Hn. rewrite length_app in Hn. destruct (IH l') as [ts Hts]; [lia|done|].
    exists (TWord (c :: w) :: ts). apply (lex_word (c :: w)); auto.
  - apply Forall_cons in Hz as [Hc Hz]. simpl in Hn. destruct (not_wordchar c Hw Hc) as [Hs|[->|[t Ht]]].
    + destruct (IH l) as [ts Hts]; [lia|done|]. exists ts. by apply lex_space.
    + destruct l as [|c l]; [exists [TGt]; apply lex_gt; [done|constructor]|].
      destruct (decide (c = GT)) as [->|Hgt].
      * apply Forall_cons in Hz as [_ Hz]. simpl in Hn. destruct (IH l) as [ts Hts]; [lia|done|]. exists (TGtGt :: ts). by apply lex_gtgt.
      * destruct (IH (c :: l)) as [ts Hts]; [simpl in *; lia|done|]. exists (TGt :: ts). apply lex_gt; [|done]. by intros [= ->].
    + destruct (IH l) as [ts Hts]; [lia|done|]. exists (t :: ts). by apply (lex_sym c).
Qed.

(** ** The tokenizer *)

Section lexer.
Context (str : list Z).
Notation es := (length str).
Hypothesis Hstr : Forall (λ c, c ≠ 0) str.

Lemma at_char_in s p c : sh_buf s = str ++ [0] → str !! p = Some c → at_char p s = Ok c s.
Proof.
  intros Hb Hp. unfold at_char. erewrite bind_Ok by done. by rewrite Hb, (lookup_app_l_Some _ _ _ _ Hp).
Qed.
Lemma at_char_end s : sh_buf s = str ++ [0] → at_char es s = Ok 0 s.
Proof. intros Hb. unfold at_char. erewrite bind_Ok by done. by rewrite Hb, lookup_app_r, Nat.sub_diag by done. Qed.
Lemma str_nz p c : str !! p = Some c → c ≠ 0.
Proof. intros H. by apply (Forall_lookup_1 _ _ _ _ Hstr H). Qed.
Lemma strchr_nz l c : c ≠ 0 → strchr l c = bool_decide (c ∈ l).
Proof. intros H. unfold strchr. apply bool_decide_ext. set_solver. Qed.

Lemma skip_space_spec s p ts n : sh_buf s = str ++ [0] → (p + n = es)%nat → lexes (drop p str) ts →
  ∃ p', skip_space n p s = Ok p' s ∧ (p ≤ p' ≤ es)%nat ∧ lexes (drop p' str) ts ∧ (∀ c, str !! p' = Some c → c ∉ whitespace).
Proof.
  intros Hb. revert p. induction n as [|n IH]; intros p Hp Hl; simpl.
  { exists p. split_and!; [done|lia|lia|done|]. intros c Hc%lookup_lt_Some. lia. }
  destruct (lookup_lt_is_Some_2 str p) as [c Hc]; [lia|]. erewrite bind_Ok by (by apply at_char_in).
  rewrite (strchr_nz _ c (str_nz _ _ Hc)). case_bool_decide as Hw.
  - rewrite (drop_S _ _ _ Hc) in Hl. destruct (IH (S p)) as (p' & -> & Hp' & Hl' & Hn); [lia|by eapply lexes_space_inv|].
    exists p'. split_and!; [done|lia|lia|done|done].
  - exists p. split_and!; [done|lia|lia|done|]. intros c' Hc'. by simplify_eq.
Qed.
Lemma skip_word_spec s w l n : ∀ p, sh_buf s = str ++ [0] → (p + n = es)%nat → drop p str = w ++ l → Forall wordchar w →
  (∀ c, head l = Some c → ¬ wordchar c) → skip_word n p s = Ok (p + length w)%nat s.
Proof.
  revert w. induction n as [|n IH]; intros w p Hb Hp Hd Hw Hl; simpl.
  { rewrite drop_ge in Hd by lia. destruct w; [|done]. by rewrite Nat.add_0_r. }
  destruct (lookup_lt_is_Some_2 str p) as [c Hc]; [lia|]. erewrite bind_Ok by (by apply at_char_in).
  pose proof (str_nz _ _ Hc) as Hz. rewrite !(strchr_nz _ c Hz). rewrite (drop_S _ _ _ Hc) in Hd.
  destruct w as [|c' w]; simpl in Hd; [|injection Hd as <- Hd].
  - specialize (Hl c). rewrite <- Hd in Hl. specialize (Hl eq_refl). simpl.
    replace (_ && _) with false; [by rewrite Nat.add_0_r|]. symmetry. apply not_true_is_false. intros [H1%negb_true_iff H2%negb_true_iff]%andb_true_iff.
    apply Hl. split_and!; [by eapply bool_decide_eq_false_1|by eapply bool_decide_eq_false_1|done].
  - apply Forall_cons in Hw as [(H1 & H2 & _) Hw]. rewrite !bool_decide_eq_false_2 by done. simpl.
    rewrite (IH w) by (done || lia). f_equal. lia.
Qed.

(** [s] stands before the tokens [ts]. *)
Record before (ts : list tok) (s : Shell) : Prop := {
  bf_buf : sh_buf s = str ++ [0];
  bf_le : (sh_ps s ≤ es)%nat;
  bf_lex : lexes (drop (sh_ps s) str) ts
}.

Lemma drop_cons_inv p c l : drop p str = c :: l → str !! p = Some c ∧ drop (S p) str = l.
Proof.
  intros H. assert (Hp : str !! p = Some c) by (rewrite <- (Nat.add_0_r p), <- lookup_drop, H; done).
  split; [done|]. rewrite (drop_S _ _ _ Hp) in H. by injection H.
Qed.
Lemma lexes_end p : (p ≤ es)%nat → lexes (drop p str) [] → (∀ c, str !! p = Some c → c ∉ whitespace) → p = es.
Proof.
  intros Hpe Hl Hn. assert (Hh : ∀ c, head (drop p str) = Some c → c ∉ whitespace).
  { intros c Hc. apply Hn. destruct (drop p str) eqn:E; [done|]. by apply drop_cons_inv in E as [-> _]. }
  apply lexes_nil_inv in Hl; [|done|done]. apply (f_equal length) in Hl. rewrite length_drop in Hl. simpl in Hl. lia.
Qed.

Lemma peek_spec toks ts s : before ts s → toks ⊆ symbols →
  ∃ p, peek es toks s = Ok (starts toks ts) (set_ps p s) ∧ before ts (set_ps p s) ∧ (ts = [] → p = es).
Proof.
  intros [Hb Hle Hl] Ht. destruct (skip_space_spec s (sh_ps s) ts (es - sh_ps s)) as (p & Hp & [_ Hpe] & Hl' & Hn); [done|lia|done|].
  exists p. split; [|split; [done|intros ->; by apply lexes_end]]. unfold peek. erewrite bind_Ok by done. erewrite bind_Ok by done. erewrite bind_Ok by done.
  assert (Hnot : ∀ c, wordchar c → strchr toks c = false).
  { intros c (_ & Hs & Hz). rewrite strchr_nz by done. apply bool_decide_eq_false_2. set_solver. }
  destruct (decide (p = es)) as [->|Hne].
  { erewrite bind_Ok by (by apply at_char_end). rewrite drop_ge in Hl' by lia. inversion Hl' as [| | | | |w l]; subst; [done|].
    by destruct w. }
  destruct (lookup_lt_is_Some_2 str p) as [c Hc]; [lia|]. erewrite bind_Ok by (by apply at_char_in).
  pose proof (str_nz _ _ Hc) as Hz. rewrite (proj2 (Z.eqb_neq c 0) Hz). cbn [negb andb mret M_ret]. do 2 f_equal.
  rewrite (drop_S _ _ _ Hc) in Hl'. inversion Hl' as [|? ? ? Hw|? ? ? ? Hs|? ? H1 E|? ? ? H1 E|w l ? Hwn Hw Hl1 H1 E]; subst; simpl.
  - by destruct (Hn c).
  - apply sym_not_space in Hs as (_ & _ & _ & E & _). unfold starts; simpl. rewrite E; simpl. by apply strchr_nz.
  - by apply strchr_nz.
  - by apply strchr_nz.
  - destruct w as [|c' w]; [done|]. simplify_eq/=. apply Forall_cons in Hw as [Hw _]. by apply Hnot.
Qed.

(** The two characters a symbol can have after it. *)
Lemma next_char s p : sh_buf s = str ++ [0] → (p ≤ es)%nat → ∃ c, at_char p s = Ok c s ∧ (c = GT ↔ head (drop p str) = Some GT).
Proof.
  intros Hb Hp. destruct (decide (p = es)) as [->|Hne].
  { exists 0. split; [by apply at_char_end|]. by rewrite drop_ge. }
  destruct (lookup_lt_is_Some_2 str p) as [c Hc]; [lia|]. exists c. split; [by apply at_char_in|].
  rewrite (drop_S _ _ _ Hc). simpl. naive_solver.
Qed.

Lemma scan_token_spec s p t ts : sh_buf s = str ++ [0] → (∀ c, str !! p = Some c → c ∉ whitespace) →
  lexes (drop p str) (t :: ts) → ∃ e, scan_token es p s = Ok (tok_ret t, e) s ∧ (e ≤ es)%nat ∧ lexes (drop e str) ts ∧
    (∀ w, t = TWord w → word_at str p e w).
Proof.
  intros Hb Hn Hl. inversion Hl as [E|c l ? Hw H1 E|c ? l ? Hs H1 E|l ? H1 E|l ? Hg H1 E|w l ? Hne Hw Hl1 H1 E]; subst; symmetry in E.
  - apply drop_cons_inv in E as [E _]. by destruct (Hn c).
  - apply drop_cons_inv in E as [E <-]. pose proof (lookup_lt_Some _ _ _ E) as Hlt. exists (S p).
    apply sym_not_space in Hs as (_ & Hgt & Hz & Hf & Hr & Ht).
    split_and!; [|lia|done|intros w ->; done].
    unfold scan_token. erewrite bind_Ok by (by apply at_char_in). rewrite (proj2 (Z.eqb_neq c 0) Hz), Hr.
    assert (c ∈ [BAR; LPAR; RPAR; SEMI; AMP; LT]) as Hc by (destruct t; simplify_eq/=; in_const).
    rewrite !elem_of_cons, elem_of_nil in Hc. destruct Hc as [->|[->|[->|[->|[->|[->|[]]]]]]]; done.
  - apply drop_cons_inv in E as [E E2]. apply drop_cons_inv in E2 as [E2 <-]. pose proof (lookup_lt_Some _ _ _ E2) as Hlt. exists (S (S p)).
    split_and!; [|lia|done|done]. unfold scan_token. erewrite bind_Ok by (by apply at_char_in). simpl.
    by erewrite bind_Ok by (by apply at_char_in).
  - apply drop_cons_inv in E as [E <-]. pose proof (lookup_lt_Some _ _ _ E) as Hlt. exists (S p). split_and!; [|lia|done|done].
    unfold scan_token. erewrite bind_Ok by (by apply at_char_in). simpl.
    destruct (next_char s (S p)) as (c & Ec & Hc); [done|lia|]. erewrite bind_Ok by done.
    rewrite (proj2 (Z.eqb_neq c GT)) by (by rewrite Hc). done.
  - assert (Hle : (p + length w ≤ es)%nat).
    { pose proof (f_equal length E) as HL. rewrite length_drop, length_app in HL. destruct w; simpl in *; [done|lia]. }
    exists (p + length w)%nat. destruct w as [|c w]; [done|]. split_and!; [|done| |].
    + pose proof E as [Hc _]%drop_cons_inv. apply Forall_cons in Hw as [Hwc Hws]. pose proof (wordchar_sym c Hwc) as (Hsy & Hgt & Hz & Hsp).
      unfold scan_token. erewrite bind_Ok by (by apply at_char_in). rewrite (proj2 (Z.eqb_neq c 0) Hz).
      replace (_ || _) with false; [|symmetry; destruct Hwc as (_ & Hc' & _); unfold symbols in Hc'; rewrite !not_elem_of_cons in Hc';
        rewrite !orb_false_iff, !Z.eqb_neq; naive_solver].
      rewrite (proj2 (Z.eqb_neq c GT) Hgt). erewrite bind_Ok; [done|]. eapply skip_word_spec; [done|lia|done|by constructor|done].
    + rewrite <- drop_drop, E, drop_app_length. done.
    + intros w' [= <-]. constructor; try done.
      * by rewrite E, take_app_length.
      * intros c' Hc'. apply Hl1. rewrite <- (Nat.add_0_r (p + _)), <- lookup_drop, <- drop_drop, E, drop_app_length in Hc'.
        by destruct l.
Qed.

Lemma gettoken_spec ts s : before ts s → ∃ q e p, gettoken es s = Ok (default 0 (tok_ret <$> head ts), q, e) (set_ps p s) ∧
  before (tail ts) (set_ps p s) ∧ (∀ w, head ts = Some (TWord w) → word_at str q e w).
Proof.
  intros [Hb Hle Hl]. destruct (skip_space_spec s (sh_ps s) ts (es - sh_ps s)) as (p & Hp & [_ Hpe] & Hl' & Hn); [done|lia|done|].
  unfold gettoken. erewrite bind_Ok by done. erewrite bind_Ok by done. destruct ts as [|t ts].
  - assert (p = es) as -> by (by apply lexes_end).
    exists es, es, es. erewrite bind_Ok by (unfold scan_token; by erewrite bind_Ok by (by apply at_char_end)).
    cbn beta zeta iota. rewrite Nat.sub_diag. simpl. erewrite bind_Ok by done. erewrite bind_Ok by done.
    split_and!; [done| |done]. constructor; [done|simpl; lia|]. simpl. rewrite drop_ge by done. constructor.
  - destruct (scan_token_spec s p t ts Hb Hn Hl') as (e & He & Hee & Hle2 & Hw). erewrite bind_Ok by done. cbn beta zeta iota.
    destruct (skip_space_spec s e ts (es - e)) as (p2 & Hp2 & [_ Hpe2] & Hl2 & _); [done|lia|done|].
    erewrite bind_Ok by done. erewrite bind_Ok by done. exists p, e, p2. split_and!; [done|done|]. intros w [= ->]. by apply Hw.
Qed.
End lexer.

(** ** Commands and the grammar *)

Inductive command :=
| Exec (args : list (list Z))
| Redir (c : command) (file : list Z) (mode fd : Z)
| Pipe (l r : command)
| Seq (l r : command)
| Back (c : command).

Definition redir : Type := list Z * Z * Z.
Definition wrap (c : command) (rs : list redir) : command := foldl (λ c '(w, m, f), Redir c w m f) c rs.

(** The bytes of the structures of a command. *)
Fixpoint cmd_size (c : command) : Z :=
  match c with
  | Exec _ => sizeof (EXEC [] [])
  | Redir c _ _ _ => cmd_size c + sizeof (REDIR None 0 0 0 0)
  | Pipe l r => cmd_size l + cmd_size r + sizeof (PIPE None None)
  | Seq l r => cmd_size l + cmd_size r + sizeof (LIST None None)
  | Back c => cmd_size c + sizeof (BACK None)
  end.

Section grammar.
Context (O_RDONLY O_WRONLY O_CREAT : Z).

(** What a redirection opens, and as which descriptor. *)
Inductive redirects : tok → Z → Z → Prop :=
| redirects_in : redirects TLt O_RDONLY 0
| redirects_out : redirects TGt (Z.lor O_WRONLY O_CREAT) 1
| redirects_append : redirects TGtGt (Z.lor O_WRONLY O_CREAT) 1.

Inductive Redirs : list tok → list redir → Prop :=
| Redirs_nil : Redirs [] []
| Redirs_cons t w m f ts rs : redirects t m f → Redirs ts rs → Redirs (t :: TWord w :: ts) ((w, m, f) :: rs).

(** Words and redirections, in any order. *)
Inductive Items : list tok → list (list Z) → list redir → Prop :=
| Items_redirs ts rs : Redirs ts rs → Items ts [] rs
| Items_word ts rs w ts' ws rs' : Redirs ts rs → Items ts' ws rs' → Items (ts ++ TWord w :: ts') (w :: ws) (rs ++ rs').

Inductive Line : list tok → command → Prop :=
| Line_one n ts c : Piped ts c → Line (ts ++ replicate n TAmp) (Nat.iter n Back c)
| Line_seq n ts c ts' c' : Piped ts c → Line ts' c' →
    Line (ts ++ replicate n TAmp ++ TSemi :: ts') (Seq (Nat.iter n Back c) c')
with Piped : list tok → command → Prop :=
| Piped_one ts c : Simple ts c → Piped ts c
| Piped_bar ts c ts' c' : Simple ts c → Piped ts' c' → Piped (ts ++ TBar :: ts') (Pipe c c')
with Simple : list tok → command → Prop :=
| Simple_exec ts ws rs : Items ts ws rs → Z.of_nat (length ws) < MAXARGS → Simple ts (wrap (Exec ws) rs)
| Simple_block ts c ts' rs : Line ts c → Redirs ts' rs → Simple (TLPar :: ts ++ TRPar :: ts') (wrap c rs).

(** ** The parser on tokens *)

Definition Ab : Type := list tok * Z.
Definition a_peek (toks : list Z) : M Ab bool := gets (λ t, starts toks t.1).
Definition a_get : M Ab (option tok) := t ← getS; putS (tail t.1, t.2);; mret (head t.1).
Definition a_new (sz : Z) : M Ab unit :=
  t ← getS; if MAXN <? t.2 + sz then panic "malloc1: memory used out" else putS (t.1, t.2 + sz).

Fixpoint a_redirs (fuel : nat) : M Ab (list redir) :=
  match fuel with
  | O => nofuel
  | S fuel' =>
      more ← a_peek [LT; GT];
      if (more : bool) then
        t ← a_get;
        x ← a_get;
        match x with
        | Some (TWord w) =>
            a_new 40;;
            rs ← a_redirs fuel';
            mret (match t with Some TLt => (w, O_RDONLY, 0) | _ => (w, Z.lor O_WRONLY O_CREAT, 1) end :: rs)
        | _ => panic "missing file for redirection"
        end
      else mret []
  end.
Fixpoint a_items (fuel : nat) (argc : nat) : M Ab (list (list Z) * list redir) :=
  match fuel with
  | O => nofuel
  | S fuel' =>
      stop ← a_peek [BAR; RPAR; AMP; SEMI];
      if (stop : bool) then mret ([], [])
      else
        x ← a_get;
        match x with
        | None => mret ([], [])
        | Some (TWord w) =>
            if MAXARGS <=? Z.of_nat (S argc) then panic "too many args"
            else rs ← a_redirs fuel'; r ← a_items fuel' (S argc); mret (w :: r.1, rs ++ r.2)
        | Some _ => panic "syntax"
        end
  end.
Fixpoint a_back (fuel : nat) (c : command) : M Ab command :=
  match fuel with
  | O => nofuel
  | S fuel' =>
      more ← a_peek [AMP];
      if (more : bool) then a_get;; a_new 16;; a_back fuel' (Back c) else mret c
  end.
Fixpoint a_line (fuel : nat) : M Ab command :=
  match fuel with
  | O => nofuel
  | S fuel' =>
      c ← a_pipe fuel';
      c ← a_back fuel' c;
      more ← a_peek [SEMI];
      if (more : bool) then a_get;; r ← a_line fuel'; a_new 24;; mret (Seq c r) else mret c
  end
with a_pipe (fuel : nat) : M Ab command :=
  match fuel with
  | O => nofuel
  | S fuel' =>
      c ← a_exec fuel';
      more ← a_peek [BAR];
      if (more : bool) then a_get;; r ← a_pipe fuel'; a_new 24;; mret (Pipe c r) else mret c
  end
with a_exec (fuel : nat) : M Ab command :=
  match fuel with
  | O => nofuel
  | S fuel' =>
      block ← a_peek [LPAR];
      if (block : bool) then a_block fuel'
      else
        a_new 168;;
        rs ← a_redirs fuel';
        r ← a_items fuel' 0;
        mret (wrap (Exec r.1) (rs ++ r.2))
  end
with a_block (fuel : nat) : M Ab command :=
  match fuel with
  | O => nofuel
  | S fuel' =>
      open ← a_peek [LPAR];
      if negb open then panic "parseblock"
      else
        a_get;;
        c ← a_line fuel';
        close ← a_peek [RPAR];
        if negb close then panic "syntax - missing )"
        else a_get;; rs ← a_redirs fuel'; mret (wrap c rs)
  end.

(** ** The parser on tokens decides the grammar *)

(** Every run ends, and what it returns satisfies [Q]. *)
Definition ends {B} (o : outcome Ab B) (Q : B → Ab → Prop) : Prop :=
  match o with Ok b t => Q b t | Panic _ => True | _ => False end.
Lemma ends_bind {B C} (m : M Ab B) (k : B → M Ab C) t Q R :
  ends (m t) Q → (∀ b t', Q b t' → ends (k b t') R) → ends ((m ≫= k) t) R.
Proof. unfold ends, mbind, M_bind. intros H HK. destruct (m t) as [b t'| | | |]; [by apply HK|done..]. Qed.
Lemma ends_peek {B} toks (k : bool → M Ab B) t Q : ends (k (starts toks t.1) t) Q → ends ((a_peek toks ≫= k) t) Q.
Proof. done. Qed.
Lemma ends_get {B} (k : option tok → M Ab B) t Q : ends (k (head t.1) (tail t.1, t.2)) Q → ends ((a_get ≫= k) t) Q.
Proof. done. Qed.
Lemma ends_new {B} sz (k : unit → M Ab B) t Q : (t.2 + sz ≤ MAXN → ends (k () (t.1, t.2 + sz)) Q) → ends ((a_new sz ≫= k) t) Q.
Proof.
  intros H. unfold a_new, mbind, M_bind, getS, putS. destruct (MAXN <? t.2 + sz) eqn:E; [done|]. apply H. by apply Z.ltb_ge in E.
Qed.

(** The array after [rs]. *)
Definition took (u : Z) (n : Z) (u' : Z) : Prop := u' = u + n ∧ u' ≤ MAXN.

Lemma starts_cons toks ts : starts toks ts = true → ∃ t ts', ts = t :: ts' ∧ ∃ c, tok_first t = Some c ∧ c ∈ toks.
Proof.
  unfold starts. destruct ts as [|t ts]; [done|]. simpl. destruct (tok_first t) as [c|] eqn:E; [|done]. intros H%bool_decide_eq_true.
  exists t, ts. split; [done|]. by exists c.
Qed.
Lemma starts_redirs ts : starts [LT; GT] ts = true → ∃ t ts', ts = t :: ts' ∧ (t = TLt ∨ t = TGt ∨ t = TGtGt).
Proof. destruct ts as [|[] ts]; intros H; try done; eauto 6. Qed.

Lemma a_redirs_ends fuel : ∀ ts u, (length ts < fuel)%nat → u ≤ MAXN →
  ends (a_redirs fuel (ts, u)) (λ rs t', ∃ ts1, ts = ts1 ++ t'.1 ∧ Redirs ts1 rs ∧ took u (40 * Z.of_nat (length rs)) t'.2).
Proof.
  induction fuel as [|fuel IH]; intros ts u Hf Hu; [lia|]. simpl. apply ends_peek. destruct (starts _ _) eqn:Es; simpl in Es.
  2: { exists []. split_and!; [done|constructor|]. simpl. unfold took. lia. }
  apply starts_redirs in Es as (t & ts' & -> & Ht). apply ends_get, ends_get. simpl in *. destruct ts' as [|w ts']; [done|]. simpl in *.
  destruct w as [| | | | | | | |w]; try done. apply ends_new. intros Hn. simpl in Hn.
  eapply ends_bind; [apply IH; simpl; lia|]. intros rs t' (ts1 & E & HR & [H1 H2]).
  exists (t :: TWord w :: ts1). split_and!; [simpl in *; by rewrite E| |].
  - destruct Ht as [->|[->| ->]]; by repeat constructor.
  - simpl in *. unfold took. lia.
Qed.

(** Words with their redirections, as the loop of [parseexec] sees them. *)
Definition WItems (ts : list tok) (ws : list (list Z)) (rs : list redir) : Prop :=
  (ts = [] ∧ ws = [] ∧ rs = []) ∨ ∃ w ts' ws', ts = TWord w :: ts' ∧ ws = w :: ws' ∧ Items ts' ws' rs.
Lemma Items_split ts ws rs : Items ts ws rs ↔ ∃ ts1 rs1 ts2 rs2, ts = ts1 ++ ts2 ∧ rs = rs1 ++ rs2 ∧ Redirs ts1 rs1 ∧ WItems ts2 ws rs2.
Proof.
  split.
  - destruct 1 as [ts rs H|ts1 rs1 w ts' ws rs' H1 H2].
    + exists ts, rs, [], []. rewrite !app_nil_r. split_and!; try done. by left.
    + exists ts1, rs1, (TWord w :: ts'), rs'. split_and!; try done. right. by exists w, ts', ws.
  - intros (ts1 & rs1 & ts2 & rs2 & -> & -> & H1 & [(-> & -> & ->)|(w & ts' & ws' & -> & -> & H2)]).
    + rewrite !app_nil_r. by constructor.
    + by constructor.
Qed.

Lemma a_items_ends fuel : ∀ argc ts u, (length ts < fuel)%nat → u ≤ MAXN → Z.of_nat argc < MAXARGS →
  ends (a_items fuel argc (ts, u)) (λ r t', ∃ ts1, ts = ts1 ++ t'.1 ∧ WItems ts1 r.1 r.2 ∧
    Z.of_nat (argc + length r.1) < MAXARGS ∧ took u (40 * Z.of_nat (length r.2)) t'.2).
Proof.
  induction fuel as [|fuel IH]; intros argc ts u Hf Hu Ha; [lia|]. simpl. apply ends_peek.
  assert (Hend : ends (mret (M:=M Ab) ([], []) (ts, u)) (λ (r : list (list Z) * list redir) t', ∃ ts1, ts = ts1 ++ t'.1 ∧ WItems ts1 r.1 r.2 ∧
    Z.of_nat (argc + length r.1) < MAXARGS ∧ took u (40 * Z.of_nat (length r.2)) t'.2)).
  { exists []. simpl. rewrite Nat.add_0_r. split_and!; [done|by left|done|unfold took; lia]. }
  destruct (starts _ _) eqn:Es; simpl in Es; [done|]. apply ends_get. simpl. destruct ts as [|w ts]; [done|]. simpl in *.
  destruct w as [| | | | | | | |w]; try done. destruct (MAXARGS <=? Z.of_nat (S argc)) eqn:Em; [done|]. apply Z.leb_gt in Em.
  eapply ends_bind; [apply a_redirs_ends; [lia|done]|]. intros rs [ts' u'] (ts1 & E & HR & [H1 H2]). simpl in *.
  eapply ends_bind; [apply IH; [rewrite E, length_app in Hf; lia|done|done]|].
  intros [ws rs'] [ts'' u''] (ts2 & E2 & HI & Hl & [H3 H4]). simpl in *. exists (TWord w :: ts1 ++ ts2). split_and!.
  - simpl. by rewrite <- app_assoc, E, E2.
  - right. exists w, (ts1 ++ ts2), ws. split_and!; [done|done|]. apply Items_split. by exists ts1, rs, ts2, rs'.
  - lia.
  - rewrite length_app. unfold took. lia.
Qed.

Lemma wrap_size c rs : cmd_size (wrap c rs) = cmd_size c + 40 * Z.of_nat (length rs).
Proof.
  revert c. induction rs as [|[[w m] f] rs IH]; intros c; unfold wrap; simpl; [lia|]. fold (wrap (Redir c w m f) rs). rewrite IH. simpl. lia.
Qed.
Lemma a_back_ends fuel : ∀ c ts u, (length ts < fuel)%nat → u ≤ MAXN →
  ends (a_back fuel c (ts, u)) (λ c' t', ∃ n, ts = replicate n TAmp ++ t'.1 ∧ c' = Nat.iter n Back c ∧ took u (16 * Z.of_nat n) t'.2).
Proof.
  induction fuel as [|fuel IH]; intros c ts u Hf Hu; [lia|]. simpl. apply ends_peek. destruct (starts _ _) eqn:Es; simpl in Es.
  2: { exists 0%nat. split_and!; [done|done|]. unfold took. simpl. lia. }
  apply starts_cons in Es as (t & ts' & -> & x & Ht & Hx%list_elem_of_singleton). assert (t = TAmp) as -> by (destruct t; simplify_eq/=; done).
  apply ends_get, ends_new. simpl in *. intros Hn. destruct (a_back fuel (Back c) (ts', u + 16)) as [c' [ts'' u'']| | | |] eqn:E;
    pose proof (IH (Back c) ts' (u + 16)) as H; rewrite E in H; try (apply H; lia).
  destruct H as (n & -> & -> & [H1 H2]); [lia|lia|]. exists (S n). split_and!; [done|by rewrite Nat.iter_succ_r|]. unfold took. simpl in *. lia.
Qed.
Lemma iter_size n c : cmd_size (Nat.iter n Back c) = cmd_size c + 16 * Z.of_nat n.
Proof. induction n as [|n IH]; [simpl; lia|]. rewrite Nat.iter_succ. simpl. lia. Qed.
Lemma starts_sep c t ts : starts [c] ts = true → (∀ t', tok_first t' = Some c → t' = t) → ∃ ts', ts = t :: ts'.
Proof.
  intros (t' & ts' & -> & x & Ht & ->%list_elem_of_singleton)%starts_cons Hc. exists ts'. by rewrite (Hc t').
Qed.

(** A parsed phrase: the tokens it stands for, and the array. *)
Definition phrase (G : list tok → command → Prop) (ts : list tok) (u : Z) (c : command) (t' : Ab) : Prop :=
  ∃ ts1, ts = ts1 ++ t'.1 ∧ G ts1 c ∧ took u (cmd_size c) t'.2.

Lemma parse_ends fuel : ∀ ts u, u ≤ MAXN →
  ((4 * length ts + 4 ≤ fuel)%nat → ends (a_line fuel (ts, u)) (phrase Line ts u)) ∧
  ((4 * length ts + 3 ≤ fuel)%nat → ends (a_pipe fuel (ts, u)) (phrase Piped ts u)) ∧
  ((4 * length ts + 2 ≤ fuel)%nat → ends (a_exec fuel (ts, u)) (phrase Simple ts u)) ∧
  ((4 * length ts + 1 ≤ fuel)%nat → ends (a_block fuel (ts, u)) (phrase Simple ts u)).
Proof.
  induction fuel as [|fuel IH]; intros ts u Hu; [split_and!; lia|]. split_and!; intros Hf; simpl.
  - eapply ends_bind; [apply IH; [done|lia]|]. intros c [ts1 u1] (p & E & HP & [H1 H2]). simpl in *.
    pose proof (f_equal length E) as HL. rewrite length_app in HL.
    eapply ends_bind; [apply a_back_ends; [lia|done]|]. intros c' [ts2 u2] (n & E2 & -> & [H3 H4]). simpl in *. subst ts1.
    rewrite length_app in HL. apply ends_peek. destruct (starts _ _) eqn:Es; simpl in Es.
    + apply starts_sep with (t := TSemi) in Es as [ts3 ->]; [|by intros [] [=]]. apply ends_get. simpl in *.
      eapply ends_bind; [apply IH; [done|lia]|]. intros r [ts4 u4] (q & E4 & HL4 & [H5 H6]). simpl in *.
      apply ends_new. simpl. intros Hn. exists (p ++ replicate n TAmp ++ TSemi :: q). split_and!.
      * rewrite E, E4, <- !app_assoc. done.
      * by constructor.
      * simpl. rewrite iter_size. unfold took. lia.
    + exists (p ++ replicate n TAmp). split_and!; [by rewrite E, <- app_assoc|by constructor|]. rewrite iter_size. unfold took. simpl. lia.
  - eapply ends_bind; [apply IH; [done|lia]|]. intros c [ts1 u1] (p & E & HP & [H1 H2]). simpl in *.
    pose proof (f_equal length E) as HL. rewrite length_app in HL. apply ends_peek. destruct (starts _ _) eqn:Es; simpl in Es.
    + apply starts_sep with (t := TBar) in Es as [ts3 ->]; [|by intros [] [=]]. apply ends_get. simpl in *.
      eapply ends_bind; [apply IH; [done|lia]|]. intros r [ts4 u4] (q & E4 & HL4 & [H5 H6]). simpl in *.
      apply ends_new. simpl. intros Hn. exists (p ++ TBar :: q). split_and!.
      * rewrite E, E4, <- !app_assoc. done.
      * by constructor.
      * simpl. unfold took. lia.
    + exists p. split_and!; [done|by constructor|done].
  - apply ends_peek. destruct (starts _ _) eqn:Es; [apply IH; [done|lia]|]. apply ends_new. simpl. intros Hn.
    eapply ends_bind; [apply a_redirs_ends; [lia|done]|]. intros rs [ts1 u1] (p & E & HP & [H1 H2]). simpl in *.
    pose proof (f_equal length E) as HL. rewrite length_app in HL.
    eapply ends_bind; [apply a_items_ends; [lia|done|done]|]. intros [ws rs'] [ts2 u2] (q & E2 & HI & Hl & [H3 H4]). simpl in *.
    exists (p ++ q). split_and!; [by rewrite E, E2, <- app_assoc| |].
    + constructor; [|done]. apply Items_split. by exists p, rs, q, rs'.
    + rewrite wrap_size, length_app. unfold took. simpl. lia.
  - apply ends_peek. destruct (starts _ _) eqn:Es; simpl in Es; [|done]. simpl.
    apply starts_sep with (t := TLPar) in Es as [ts3 ->]; [|by intros [] [=]]. apply ends_get. simpl in *.
    eapply ends_bind; [apply IH; [done|lia]|]. intros c [ts1 u1] (p & E & HP & [H1 H2]). simpl in *.
    pose proof (f_equal length E) as HL. rewrite length_app in HL. apply ends_peek. destruct (starts _ _) eqn:Es; simpl in Es; [|done]. simpl.
    apply starts_sep with (t := TRPar) in Es as [ts4 ->]; [|by intros [] [=]]. apply ends_get. simpl in *.
    eapply ends_bind; [apply a_redirs_ends; [lia|done]|]. intros rs [ts5 u5] (q & E5 & HR & [H3 H4]). simpl in *.
    exists (TLPar :: p ++ TRPar :: q). split_and!; [by rewrite E, E5; simpl; rewrite <- app_assoc|by constructor|].
    rewrite wrap_size. unfold took. simpl. lia.
Qed.

(** Every phrase is parsed, before any token that can follow it. *)
Lemma peek_bind {B} toks (k : bool → M Ab B) ts u : (a_peek toks ≫= k) (ts, u) = k (starts toks ts) (ts, u).
Proof. done. Qed.
Lemma get_bind {B} (k : option tok → M Ab B) t ts u : (a_get ≫= k) (t :: ts, u) = k (Some t) (ts, u).
Proof. done. Qed.
Lemma new_bind {B} sz (k : unit → M Ab B) ts u : u + sz ≤ MAXN → (a_new sz ≫= k) (ts, u) = k () (ts, u + sz).
Proof. intros H. unfold a_new, mbind, M_bind, getS, putS. simpl. by rewrite (proj2 (Z.ltb_ge _ _) H). Qed.

Lemma redirects_mode t m f (w : list Z) : redirects t m f →
  starts [LT; GT] [t] = true ∧ (match Some t with Some TLt => (w, O_RDONLY, 0) | _ => (w, Z.lor O_WRONLY O_CREAT, 1) end = (w, m, f)).
Proof. by destruct 1. Qed.
Lemma a_redirs_complete ts rs : Redirs ts rs → ∀ fuel rest u, (length ts < fuel)%nat → starts [LT; GT] rest = false →
  u + 40 * Z.of_nat (length rs) ≤ MAXN → a_redirs fuel (ts ++ rest, u) = Ok rs (rest, u + 40 * Z.of_nat (length rs)).
Proof.
  induction 1 as [|t w m f ts rs Ht HR IH]; intros [|fuel] rest u Hf Hr Hu; simpl in Hf; try lia; simpl; rewrite peek_bind.
  { rewrite Hr. unfold mret, M_ret. f_equal. f_equal. simpl. lia. }
  destruct (redirects_mode t m f w Ht) as [Hs Hm]. replace (starts _ (t :: _)) with true by (symmetry; exact Hs). rewrite get_bind, get_bind.
  simpl in Hu. rewrite new_bind by lia. erewrite bind_Ok by (apply IH; [lia|done|lia]). rewrite Hm. unfold mret, M_ret. f_equal. f_equal. simpl. lia.
Qed.

Definition stops (rest : list tok) : Prop := rest = [] ∨ starts [BAR; RPAR; AMP; SEMI] rest = true.
Lemma stops_redir rest : stops rest → starts [LT; GT] rest = false.
Proof. intros [->|H]; [done|]. by destruct rest as [|[] rest]. Qed.
Lemma WItems_redir ts ws rs rest : WItems ts ws rs → stops rest → starts [LT; GT] (ts ++ rest) = false.
Proof. intros [(-> & _ & _)|(w & ts' & ws' & -> & _)] H; [by apply stops_redir|done]. Qed.

Lemma a_items_complete ws : ∀ ts rs fuel argc rest u, WItems ts ws rs → (length ts < fuel)%nat → stops rest →
  Z.of_nat (argc + length ws) < MAXARGS → u + 40 * Z.of_nat (length rs) ≤ MAXN →
  a_items fuel argc (ts ++ rest, u) = Ok (ws, rs) (rest, u + 40 * Z.of_nat (length rs)).
Proof.
  induction ws as [|w ws IH]; intros ts rs [|fuel] argc rest u HI Hf Hs Hl Hu; try lia; simpl; rewrite peek_bind.
  - destruct HI as [(-> & _ & ->)|(w & ts' & ws' & _ & [=] & _)]. simpl. replace (u + 40 * Z.of_nat 0) with u by lia.
    destruct Hs as [->| ->]; done.
  - destruct HI as [(_ & [=] & _)|(w' & ts' & ws' & -> & [= <- <-] & HI)]. simpl. rewrite get_bind.
    simpl in Hl. rewrite (proj2 (Z.leb_gt _ _)) by lia. apply Items_split in HI as (ts1 & rs1 & ts2 & rs2 & -> & -> & HR & HI).
    simpl in Hf. rewrite length_app in Hf. rewrite length_app in Hu. rewrite <- app_assoc.
    erewrite bind_Ok by (apply a_redirs_complete; [done|lia|by eapply WItems_redir|lia]).
    erewrite bind_Ok by (apply (IH ts2 rs2); [done|lia|done|lia|lia]). simpl. unfold mret, M_ret. rewrite length_app. f_equal. f_equal. lia.
Qed.
Lemma a_back_complete n : ∀ fuel c rest u, (n < fuel)%nat → starts [AMP] rest = false → u + 16 * Z.of_nat n ≤ MAXN →
  a_back fuel c (replicate n TAmp ++ rest, u) = Ok (Nat.iter n Back c) (rest, u + 16 * Z.of_nat n).
Proof.
  induction n as [|n IH]; intros [|fuel] c rest u Hf Hr Hu; try lia; cbn [a_back replicate app]; rewrite peek_bind.
  - rewrite Hr. unfold mret, M_ret. f_equal. f_equal. lia.
  - change (starts [AMP] (TAmp :: _)) with true. cbn iota. rewrite get_bind, new_bind by lia. rewrite IH by (done || lia).
    rewrite Nat.iter_succ_r. f_equal. f_equal. lia.
Qed.

Scheme Line_mut := Induction for Line Sort Prop
  with Piped_mut := Induction for Piped Sort Prop
  with Simple_mut := Induction for Simple Sort Prop.
Combined Scheme grammar_ind from Line_mut, Piped_mut, Simple_mut.

(** What can follow a phrase. *)
Definition follow (toks : list Z) (rest : list tok) : Prop := rest = [] ∨ starts toks rest = true.
Lemma follow_not toks c rest : follow toks rest → c ∉ toks → starts [c] rest = false.
Proof.
  intros [->|(t & ts & -> & x & Ht & Hx)%starts_cons] Hc; [done|]. unfold starts. simpl. rewrite Ht. apply bool_decide_eq_false_2. set_solver.
Qed.
Lemma follow_mono toks toks' rest : follow toks rest → toks ⊆ toks' → follow toks' rest.
Proof.
  intros [->|(t & ts & -> & x & Ht & Hx)%starts_cons] Hc; [by left|right]. unfold starts. simpl. rewrite Ht. apply bool_decide_eq_true_2. set_solver.
Qed.
Lemma follow_amps n rest : follow [RPAR; SEMI] rest → follow [RPAR; SEMI; AMP] (replicate n TAmp ++ rest).
Proof. intros H. destruct n; [|by right]. eapply follow_mono; [exact H|set_solver]. Qed.
Lemma Items_not_par ts ws rs rest : Items ts ws rs → stops rest → starts [LPAR] (ts ++ rest) = false.
Proof.
  intros (ts1 & rs1 & ts2 & rs2 & -> & -> & HR & HI)%Items_split Hs. destruct HR as [|t w m f ts1 rs1 Ht _]; [|by destruct Ht].
  destruct HI as [(-> & _ & _)|(w & ts' & ws' & -> & _)]; [|done]. destruct Hs as [->|Hs]; [done|]. by destruct rest as [|[] rest].
Qed.

Definition parses (p : nat → M Ab command) (k : nat) (toks : list Z) (ts : list tok) (c : command) : Prop :=
  ∀ fuel rest u, (4 * length ts + k ≤ fuel)%nat → follow toks rest → u + cmd_size c ≤ MAXN →
  p fuel (ts ++ rest, u) = Ok c (rest, u + cmd_size c).
Lemma wrap_size_ge c rs : cmd_size c ≤ cmd_size (wrap c rs).
Proof. rewrite wrap_size. lia. Qed.

Lemma cmd_size_pos c : 0 ≤ cmd_size c.
Proof. induction c; simpl; lia. Qed.
Lemma line_parses n ts c : parses a_pipe 3 [RPAR; SEMI; AMP] ts c → ∀ fuel rest u, (4 * (length ts + n) + 3 ≤ fuel)%nat →
  follow [RPAR; SEMI] rest → u + cmd_size c + 16 * Z.of_nat n ≤ MAXN →
  (c ← a_pipe fuel; a_back fuel c) (ts ++ replicate n TAmp ++ rest, u) = Ok (Nat.iter n Back c) (rest, u + cmd_size (Nat.iter n Back c)).
Proof.
  intros H fuel rest u Hf Hr Hu. erewrite bind_Ok by (apply H; [lia|by apply follow_amps|lia]).
  rewrite a_back_complete; [|lia|eapply follow_not; [exact Hr|in_const]|lia]. rewrite iter_size. f_equal. f_equal. lia.
Qed.
Lemma bind_assoc_Ok {A B C} (m : M Ab A) (k : A → M Ab B) (h : B → M Ab C) s b s' :
  (m ≫= k) s = Ok b s' → (m ≫= λ x, k x ≫= h) s = h b s'.
Proof. unfold mbind, M_bind. destruct (m s) as [a s1| | | |]; [|done..]. by intros ->. Qed.

Lemma grammar_parses :
  (∀ ts c, Line ts c → parses a_line 4 [RPAR] ts c) ∧
  (∀ ts c, Piped ts c → parses a_pipe 3 [RPAR; SEMI; AMP] ts c) ∧
  (∀ ts c, Simple ts c → parses a_exec 2 [RPAR; SEMI; AMP; BAR] ts c).
Proof.
  apply grammar_ind.
  - intros n ts c _ H [|fuel] rest u Hf Hr Hu; [lia|]. rewrite length_app, length_replicate in Hf. rewrite iter_size in Hu. simpl.
    rewrite <- app_assoc. erewrite bind_assoc_Ok by (apply line_parses; [done|lia|eapply follow_mono; [exact Hr|set_solver]|lia]).
    rewrite peek_bind, (follow_not [RPAR]) by (done || in_const). done.
  - intros n ts c ts' c' _ H _ H' [|fuel] rest u Hf Hr Hu; [lia|]. rewrite !length_app, length_replicate in Hf. simpl in Hf, Hu. rewrite iter_size in Hu. simpl.
    pose proof (cmd_size_pos c'). rewrite <- !app_assoc.
    erewrite bind_assoc_Ok by (apply line_parses; [done|lia|by right|lia]). rewrite peek_bind. simpl. rewrite get_bind.
    erewrite bind_Ok by (apply H'; [lia|done|rewrite iter_size; lia]). rewrite new_bind by (rewrite iter_size; lia).
    unfold mret, M_ret. f_equal. f_equal. lia.
  - intros ts c _ H [|fuel] rest u Hf Hr Hu; [lia|]. simpl.
    erewrite bind_Ok by (apply H; [lia|eapply follow_mono; [exact Hr|set_solver]|lia]).
    rewrite peek_bind, (follow_not [RPAR; SEMI; AMP]) by (done || in_const). done.
  - intros ts c ts' c' _ H _ H' [|fuel] rest u Hf Hr Hu; [lia|]. rewrite length_app in Hf. simpl in Hf, Hu. simpl.
    pose proof (cmd_size_pos c'). rewrite <- app_assoc.
    erewrite bind_Ok by (apply H; [lia|by right|lia]). rewrite peek_bind. simpl. rewrite get_bind.
    erewrite bind_Ok by (apply H'; [lia|done|lia]). rewrite new_bind by lia. unfold mret, M_ret. f_equal. f_equal. lia.
  - intros ts ws rs HI Hl [|fuel] rest u Hf Hr Hu; [lia|]. rewrite wrap_size in Hu. simpl in Hu. simpl. rewrite peek_bind.
    assert (Hs : stops rest) by (eapply follow_mono; [exact Hr|set_solver]).
    rewrite (Items_not_par ts ws rs) by done. rewrite new_bind by lia.
    apply Items_split in HI as (ts1 & rs1 & ts2 & rs2 & -> & -> & HR & HI). rewrite length_app in Hu, Hf. rewrite <- app_assoc.
    erewrite bind_Ok by (apply a_redirs_complete; [done|lia|by eapply WItems_redir|lia]).
    erewrite bind_Ok by (apply (a_items_complete ws ts2 rs2); [done|lia|done|simpl; lia|lia]).
    unfold mret, M_ret. rewrite wrap_size, length_app. simpl. f_equal. f_equal. lia.
  - intros ts c ts' rs _ H HR [|[|fuel]] rest u Hf Hr Hu; [simpl in Hf; lia..|]. rewrite wrap_size in Hu. simpl in Hf. rewrite length_app in Hf. simpl in Hf.
    assert (Hs : stops rest) by (eapply follow_mono; [exact Hr|set_solver]).
    simpl. rewrite peek_bind. simpl. rewrite peek_bind. simpl. rewrite get_bind. rewrite <- app_assoc.
    erewrite bind_Ok by (apply H; [lia|by right|lia]). rewrite peek_bind. simpl. rewrite get_bind.
    erewrite bind_Ok by (apply a_redirs_complete; [done|lia|by apply stops_redir|lia]).
    unfold mret, M_ret. rewrite wrap_size. f_equal. f_equal. lia.
Qed.

(** The commands are not deeper than their lines are long. *)
Fixpoint depth (c : command) : nat :=
  match c with
  | Exec _ => 1
  | Redir c _ _ _ | Back c => S (depth c)
  | Pipe l r | Seq l r => S (depth l `max` depth r)
  end.
Lemma wrap_depth c rs : depth (wrap c rs) = (depth c + length rs)%nat.
Proof.
  revert c. induction rs as [|[[w m] f] rs IH]; intros c; unfold wrap; simpl; [lia|]. fold (wrap (Redir c w m f) rs). rewrite IH. simpl. lia.
Qed.
Lemma iter_depth n c : depth (Nat.iter n Back c) = (depth c + n)%nat.
Proof. induction n as [|n IH]; [simpl; lia|]. rewrite Nat.iter_succ. simpl. lia. Qed.
Lemma Redirs_length ts rs : Redirs ts rs → length ts = (2 * length rs)%nat.
Proof. induction 1; simpl; lia. Qed.
Lemma Items_length ts ws rs : Items ts ws rs → length ts = (length ws + 2 * length rs)%nat.
Proof. induction 1 as [? ? H|? ? ? ? ? ? H _ IH]; apply Redirs_length in H; [simpl; lia|]. rewrite !length_app. simpl. lia. Qed.
Lemma grammar_depth :
  (∀ ts c, Line ts c → depth c ≤ length ts + 1)%nat ∧ (∀ ts c, Piped ts c → depth c ≤ length ts + 1)%nat ∧
  (∀ ts c, Simple ts c → depth c ≤ length ts + 1)%nat.
Proof.
  apply grammar_ind; intros; rewrite ?wrap_depth, ?iter_depth, ?length_app, ?length_replicate; simpl; rewrite ?iter_depth, ?length_app;
    repeat match goal with H : Items _ _ _ |- _ => apply Items_length in H | H : Redirs _ _ |- _ => apply Redirs_length in H end; simpl; lia.
Qed.

(** ** Printing *)

(** What a command can be printed as: words that are words, and the two kinds of
    redirection. *)
Definition is_word (w : list Z) : Prop := w ≠ [] ∧ Forall wordchar w.
Fixpoint printable (c : command) : Prop :=
  match c with
  | Exec args => Forall is_word args ∧ Z.of_nat (length args) < MAXARGS
  | Redir c w m f => printable c ∧ is_word w ∧ (m = O_RDONLY ∧ f = 0 ∨ m = Z.lor O_WRONLY O_CREAT ∧ f = 1)
  | Pipe l r | Seq l r => printable l ∧ printable r
  | Back c => printable c
  end.

(** The tokens of a command where a phrase of level [k] is expected: 0 a line, 1 what
    is before a [;], 2 a pipeline, 3 a simple command. Parentheses lower the level. *)
Definition paren (b : bool) (ts : list tok) : list tok := if b then TLPar :: ts ++ [TRPar] else ts.
Fixpoint print_toks (k : nat) (c : command) : list tok :=
  match c with
  | Exec args => TWord <$> args
  | Redir c w m f => print_toks 3 c ++ [if f =? 0 then TLt else TGt; TWord w]
  | Pipe l r => paren (2 <? k)%nat (print_toks 3 l ++ TBar :: print_toks 2 r)
  | Seq l r => paren (0 <? k)%nat (print_toks 1 l ++ TSemi :: print_toks 0 r)
  | Back c => paren (1 <? k)%nat (print_toks 1 c ++ [TAmp])
  end.
Definition tok_text (t : tok) : list Z :=
  match t with TWord w => w | TGtGt => [GT; GT] | _ => [tok_ret t] end.
Definition print (c : command) : list Z := print_toks 0 c ≫= λ t, tok_text t ++ [32].

Definition tok_ok (t : tok) : Prop := match t with TWord w => is_word w | _ => True end.
Lemma lexes_print ts : Forall tok_ok ts → lexes (ts ≫= λ t, tok_text t ++ [32]) ts.
Proof.
  induction 1 as [|t ts Ht _ IH]; [constructor|]. cbn [mbind list_bind]. rewrite <- app_assoc.
  assert (Hs : lexes ([32] ++ (ts ≫= λ t, tok_text t ++ [32])) ts) by (apply lex_space; [in_const|done]).
  destruct t; simpl in Ht |- *; try (apply lex_sym; [reflexivity|exact Hs]); [by apply lex_gt|by apply lex_gtgt|].
  destruct Ht. apply lex_word; [done|done| |done]. intros c [= <-] [Hc _]. apply Hc. in_const.
Qed.
Lemma print_toks_ok c : printable c → ∀ k, Forall tok_ok (print_toks k c).
Proof.
  assert (Hp : ∀ b ts, Forall tok_ok ts → Forall tok_ok (paren b ts)).
  { intros [] ts H; [|done]. constructor; [done|]. apply Forall_app. split; [done|]. by repeat constructor. }
  induction c as [args|c IH w m f|l IHl r IHr|l IHl r IHr|c IH]; simpl; intros H k.
  - destruct H as [H _]. by apply Forall_fmap.
  - destruct H as (H1 & H2 & _). apply Forall_app. split; [auto|]. constructor; [by case_match|by apply Forall_singleton].
  - destruct H. apply Hp, Forall_app. split; [auto|]. constructor; [done|auto].
  - destruct H. apply Hp, Forall_app. split; [auto|]. constructor; [done|auto].
  - apply Hp, Forall_app. split; [auto|]. by repeat constructor.
Qed.

Lemma Redirs_snoc ts rs t w m f : Redirs ts rs → redirects t m f → Redirs (ts ++ [t; TWord w]) (rs ++ [(w, m, f)]).
Proof. induction 1; intros Ht; simpl; by repeat constructor; auto. Qed.
Lemma Items_snoc ts ws rs t w m f : Items ts ws rs → redirects t m f → Items (ts ++ [t; TWord w]) ws (rs ++ [(w, m, f)]).
Proof.
  induction 1 as [ts rs H|ts rs w' ts' ws rs' H _ IH]; intros Ht; [by constructor; apply Redirs_snoc|].
  rewrite <- !app_assoc. simpl. constructor; [done|by apply IH].
Qed.
Lemma Simple_redir ts c t w m f : Simple ts c → redirects t m f → Simple (ts ++ [t; TWord w]) (Redir c w m f).
Proof.
  assert (Hw : ∀ c rs, Redir (wrap c rs) w m f = wrap c (rs ++ [(w, m, f)])) by (intros; unfold wrap; by rewrite foldl_app).
  intros H Ht. destruct H as [ts ws rs H Hl|ts c ts' rs H HR]; rewrite Hw.
  - constructor; [by apply Items_snoc|done].
  - simpl. rewrite <- app_assoc. simpl. constructor; [done|by apply Redirs_snoc].
Qed.
Lemma Items_words ws : Items (TWord <$> ws) ws [].
Proof.
  induction ws as [|w ws IH]; [constructor; constructor|]. rewrite fmap_cons. apply (Items_word [] [] w (TWord <$> ws) ws []); [constructor|done].
Qed.

(** What stands before a [;]. *)
Definition Backs (ts : list tok) (c : command) : Prop :=
  ∃ n ts0 c0, ts = ts0 ++ replicate n TAmp ∧ c = Nat.iter n Back c0 ∧ Piped ts0 c0.
Lemma Backs_line ts c : Backs ts c → Line ts c.
Proof. intros (n & ts0 & c0 & -> & -> & H). by constructor. Qed.
Lemma Line_paren ts c : Line ts c → Simple (TLPar :: ts ++ [TRPar]) c.
Proof. intros H. apply (Simple_block ts c [] []); [done|constructor]. Qed.

Lemma Piped_backs ts c : Piped ts c → Backs ts c.
Proof. intros H. exists 0%nat, ts, c. by rewrite app_nil_r. Qed.
(** A simple command is a phrase of every level. *)
Lemma Simple_all ts c : Simple ts c → Line ts c ∧ Backs ts c ∧ Piped ts c ∧ Simple ts c.
Proof. intros H. split_and!; [by apply Backs_line, Piped_backs, Piped_one|by apply Piped_backs, Piped_one|by apply Piped_one|done]. Qed.

Lemma print_toks_parse c : printable c →
  Line (print_toks 0 c) c ∧ Backs (print_toks 1 c) c ∧ Piped (print_toks 2 c) c ∧ Simple (print_toks 3 c) c.
Proof.
  induction c as [args|c IH w m f|l IHl r IHr|l IHl r IHr|c IH]; intros Hp; simpl in Hp |- *.
  - apply Simple_all, (Simple_exec _ args []); [apply Items_words|by destruct Hp].
  - destruct Hp as (Hp & Hw & Hm). apply Simple_all, Simple_redir; [by apply IH|]. destruct Hm as [[-> ->]|[-> ->]]; constructor.
  - assert (H : Piped (print_toks 3 l ++ TBar :: print_toks 2 r) (Pipe l r)) by (destruct Hp; apply Piped_bar; [by apply IHl|by apply IHr]).
    split_and!; [by apply Backs_line, Piped_backs|by apply Piped_backs|done|by apply Line_paren, Backs_line, Piped_backs].
  - destruct IHl as (_ & (n & ts0 & c0 & E & -> & H0) & _); [by destruct Hp|].
    assert (H : Line (print_toks 1 (Nat.iter n Back c0) ++ TSemi :: print_toks 0 r) (Seq (Nat.iter n Back c0) r)).
    { rewrite E, <- app_assoc. destruct Hp. apply Line_seq; [done|by apply IHr]. }
    split; [done|]. by apply Simple_all, Line_paren.
  - destruct IH as (_ & (n & ts0 & c0 & E & -> & H0) & _); [done|].
    assert (H : Backs (print_toks 1 (Nat.iter n Back c0) ++ [TAmp]) (Back (Nat.iter n Back c0))).
    { exists (S n), ts0, c0. split_and!; [|by rewrite Nat.iter_succ|done]. by rewrite E, <- app_assoc, <- replicate_S_end. }
    split; [by apply Backs_line|]. split; [done|]. by apply Simple_all, Line_paren, Backs_line.
Qed.
End grammar.

Lemma lexes_length l ts : lexes l ts → (length ts ≤ length l)%nat.
Proof. induction 1 as [| | | | |w l ts Hw]; simpl in *; try lia. rewrite length_app. destruct w; [done|]. simpl. lia. Qed.
