(* ===== verification/ShRefine.v ===== *)
(** * The shell parser refines the parser on tokens (user/sh/main.c)

    [sim] relates a run of the parser of the shell to a run of the parser on tokens:
    both panic with the same message, both run out of fuel, or both return and the
    structures in the array represent the command. [nulterminate] then ends every
    string in the line without touching another one. *)
From S2P Require Import Prelude Sh ShSpec.

Definition sim {A B} (o : outcome Shell A) (a : outcome Ab B) (Q : A → B → Shell → Ab → Prop) : Prop :=
  match a with
  | Ok b t => ∃ x s, o = Ok x s ∧ Q x b s t
  | Panic e => o = Panic e
  | NoFuel => o = NoFuel
  | _ => False
  end.
Lemma sim_bind {A B A' B'} (m : M Shell A) (k : A → M Shell A') (n : M Ab B) (h : B → M Ab B') s t Q R :
  sim (m s) (n t) Q → (∀ x b s' t', Q x b s' t' → sim (k x s') (h b t') R) → sim ((m ≫= k) s) ((n ≫= h) t) R.
Proof.
  unfold sim, mbind, M_bind. intros H HK. destruct (n t) as [b t'| | | |]; [|by rewrite H|done|done|by rewrite H].
  destruct H as (x & s' & -> & HQ). by apply HK.
Qed.
Lemma sim_mono {A B} (o : outcome Shell A) (a : outcome Ab B) (Q R : A → B → Shell → Ab → Prop) :
  sim o a Q → (∀ x b s t, Q x b s t → R x b s t) → sim o a R.
Proof. unfold sim. destruct a; naive_solver. Qed.
Lemma sim_ret {A B} (x : A) (b : B) s t (Q : A → B → Shell → Ab → Prop) : Q x b s t → sim (mret (M:=M Shell) x s) (mret (M:=M Ab) b t) Q.
Proof. intros H. by exists x, s. Qed.
Lemma sim_post {A B B'} (o : outcome Shell A) (n : M Ab B) (f : B → B') t Q R :
  sim o (n t) Q → (∀ x b s t', Q x b s t' → R x (f b) s t') → sim o ((n ≫= λ b, mret (f b)) t) R.
Proof. unfold sim, mbind, M_bind. destruct (n t) as [b t'| | | |]; try done. intros (x & s & -> & HQ) HR. exists x, s. auto. Qed.

(** ** Representation *)

Definition pad (l : list nat) : list (option nat) := (Some <$> l) ++ replicate (Z.to_nat MAXARGS - length l) None.

(** The structures below [hi] at [p] are the command [c]; [W q eq w] says that the
    string between [q] and [eq] is [w]. *)
Section rep.
Context (W : nat → nat → list Z → Prop) (m : gmap Z node) (hi : Z).

Definition args_rep (a : Z) (args : list (list Z)) : Prop :=
  ∃ qs eqs, m !! a = Some (EXEC (pad qs) (pad eqs)) ∧ Forall3 W qs eqs args ∧ Z.of_nat (length args) < MAXARGS.
Definition redir_rep (a : Z) (sub : option Z) (r : redir) : Prop :=
  ∃ q e, m !! a = Some (REDIR sub q e r.1.2 r.2) ∧ W q e r.1.1.
Fixpoint rep (p : option Z) (c : command) : Prop :=
  ∃ a, p = Some a ∧ 0 ≤ a < hi ∧
  match c with
  | Exec args => args_rep a args
  | Redir c w md fd => ∃ sub, redir_rep a sub (w, md, fd) ∧ rep sub c
  | Pipe l r => ∃ pl pr, m !! a = Some (PIPE pl pr) ∧ rep pl l ∧ rep pr r
  | Seq l r => ∃ pl pr, m !! a = Some (LIST pl pr) ∧ rep pl l ∧ rep pr r
  | Back c => ∃ sub, m !! a = Some (BACK sub) ∧ rep sub c
  end.
(** The redirections [rs] wrapped around [base], above [lo]. *)
Inductive chain (lo : Z) (base : option Z) : option Z → list redir → Prop :=
| chain_nil : chain lo base base []
| chain_snoc p a rs r : chain lo base p rs → lo ≤ a < hi → redir_rep a p r → chain lo base (Some a) (rs ++ [r]).

Lemma chain_rep lo base p rs c : 0 ≤ lo → rep base c → chain lo base p rs → rep p (wrap c rs).
Proof.
  intros Hlo Hb H. induction H as [|p a rs [[w md] fd] H IH Ha Hr]; [done|].
  unfold wrap. rewrite foldl_app. simpl. exists a. split_and!; [done|lia|lia|]. by exists p.
Qed.
End rep.

Lemma rep_mono W m hi m' hi' p c : hi ≤ hi' → (∀ a, 0 ≤ a < hi → m' !! a = m !! a) → rep W m hi p c → rep W m' hi' p c.
Proof.
  intros Hhi Hm. revert p. induction c as [args|c IH w md fd|l IHl r IHr|l IHl r IHr|c IH]; intros p (a & -> & Ha & H);
    exists a; (split_and!; [done|lia|lia|]).
  - destruct H as (qs & es & E & H). exists qs, es. by rewrite Hm.
  - destruct H as (sub & (q & e & E & H) & Hr). exists sub. split; [|by apply IH]. exists q, e. by rewrite Hm.
  - destruct H as (pl & pr & E & Hl & Hr). exists pl, pr. rewrite Hm by done. auto.
  - destruct H as (pl & pr & E & Hl & Hr). exists pl, pr. rewrite Hm by done. auto.
  - destruct H as (sub & E & Hr). exists sub. rewrite Hm by done. auto.
Qed.
Lemma chain_mono W m hi m' hi' lo base p rs : hi ≤ hi' → (∀ a, lo ≤ a < hi → m' !! a = m !! a) →
  chain W m hi lo base p rs → chain W m' hi' lo base p rs.
Proof.
  intros Hhi Hm H. induction H as [|p a rs r H IH Ha (q & e & E & Hw)]; [constructor|].
  eapply chain_snoc; [done|lia|]. exists q, e. by rewrite Hm.
Qed.

(** ** The refinement *)

Section refine.
Context (O_RDONLY O_WRONLY O_CREAT : Z) (str : list Z).
Hypothesis Hstr : Forall (λ c, c ≠ 0) str.
Notation es := (length str).
Notation W := (word_at str).

(** The states agree, and what [s0] has allocated is untouched but for [ex]. *)
Record rel (ex : Z → Prop) (s0 : Shell) (s : Shell) (t : Ab) : Prop := {
  rl_before : before str t.1 s;
  rl_used : sh_used s = t.2;
  rl_range : 0 ≤ sh_used s0 ≤ sh_used s;
  rl_mem : ∀ a, a < sh_used s0 → ¬ ex a → sh_mem s !! a = sh_mem s0 !! a
}.
Notation keeps := (rel (λ _, False)).
Notation start s t := (keeps s s t).

Lemma rel_start s t : before str t.1 s → sh_used s = t.2 → 0 ≤ sh_used s → start s t.
Proof. intros. constructor; auto with lia. Qed.
Lemma rel_trans ex s0 s1 s2 t1 t2 : rel ex s0 s1 t1 → rel ex s1 s2 t2 → rel ex s0 s2 t2.
Proof.
  intros [_ H1 R1 M1] [B2 H2 R2 M2]. constructor; [done|done|lia|]. intros a Ha Hx. rewrite M2, M1; auto with lia.
Qed.
Definition keeps_trans := rel_trans (λ _, False).
Lemma keeps_rel ex s0 s t : keeps s0 s t → rel ex s0 s t.
Proof. intros [B H R E]. constructor; auto. Qed.
Lemma rel_fresh a0 s0 s1 s2 t1 t2 : keeps s0 s1 t1 → rel (λ a, a = a0) s1 s2 t2 → sh_used s0 ≤ a0 → keeps s0 s2 t2.
Proof.
  intros [_ H1 R1 M1] [B2 H2 R2 M2] Ha0. constructor; [done|done|lia|]. intros a Ha Hx. rewrite M2, M1; auto with lia.
Qed.
Lemma keeps_start ex s0 s t : rel ex s0 s t → start s t.
Proof. intros [B H R _]. constructor; auto with lia. Qed.

Lemma peek_sim toks s t : toks ⊆ symbols → start s t →
  sim (peek es toks s) (a_peek toks t) (λ x b s' t', x = b ∧ t' = t ∧ x = starts toks t.1 ∧ keeps s s' t' ∧ sh_used s' = sh_used s ∧ sh_mem s' = sh_mem s).
Proof.
  intros Ht [B H R _]. destruct (peek_spec str Hstr toks t.1 s B Ht) as (p & E & B' & _).
  exists (starts toks t.1), (set_ps p s). split; [done|]. split_and!; done.
Qed.
Lemma get_sim s t : start s t →
  sim (gettoken es s) (a_get t) (λ x b s' t', b = head t.1 ∧ x.1.1 = default 0 (tok_ret <$> b) ∧ t' = (tail t.1, t.2) ∧
    (∀ w, b = Some (TWord w) → W x.1.2 x.2 w) ∧ keeps s s' t' ∧ sh_used s' = sh_used s ∧ sh_mem s' = sh_mem s).
Proof.
  intros [B H R _]. destruct (gettoken_spec str Hstr t.1 s B) as (q & e & p & E & B' & Hw).
  exists (default 0 (tok_ret <$> head t.1), q, e), (set_ps p s). split; [done|]. split_and!; done.
Qed.
Lemma new_sim x s t sz : sizeof x = sz → 0 < sz → start s t →
  sim (new_cmd x s) (a_new sz t) (λ p _ s' t', p = Some (sh_used s) ∧ t' = (t.1, t.2 + sz) ∧ keeps s s' t' ∧
    sh_used s' = sh_used s + sz ∧ sh_mem s' = <[sh_used s := x]> (sh_mem s)).
Proof.
  intros Hx Hsz [[Hb Hle Hl] H R _]. unfold new_cmd, malloc1, a_new, sim, mbind, M_bind, gets, getS, modify, putS. rewrite Hx, H.
  destruct (MAXN <? t.2 + sz); [done|]. simpl. eexists _, _. split; [done|]. split_and!; try done.
  constructor; simpl; [done|done|lia|]. intros a Ha _. by rewrite lookup_insert_ne by lia.
Qed.

Lemma starts_redir ts : starts [LT; GT] ts = true → ∃ t ts', ts = t :: ts' ∧ (t = TLt ∨ t = TGt ∨ t = TGtGt).
Proof. destruct ts as [|[] ts]; intros H; try done; eauto 6. Qed.

Lemma redirs_sim fuel : ∀ s t cmd rs0 lo base, start s t → lo ≤ sh_used s → chain W (sh_mem s) (sh_used s) lo base cmd rs0 →
  sim (parseredirs O_RDONLY O_WRONLY O_CREAT fuel cmd es s) (a_redirs O_RDONLY O_WRONLY O_CREAT fuel t)
    (λ p rs s' t', keeps s s' t' ∧ chain W (sh_mem s') (sh_used s') lo base p (rs0 ++ rs)).
Proof.
  induction fuel as [|fuel IH]; intros s t cmd rs0 lo base Hs Hlo Hc; simpl; [done|].
  eapply sim_bind; [apply peek_sim; [set_solver|done]|].
  intros x b s1 t1 (-> & -> & Hst & K1 & U1 & M1). destruct b; [|apply sim_ret; rewrite app_nil_r, M1, U1; done].
  destruct (starts_redir t.1) as (t0 & ts & Ets & Ht0); [done|].
  eapply sim_bind; [apply get_sim; by eapply keeps_start|].
  intros [[tok q0] e0] b s2 t2 (-> & Ht & -> & _ & K2 & U2 & M2). simpl in Ht. rewrite Ets in Ht. simpl in Ht. subst tok.
  rewrite Ets in *. cbn [tail head fst snd] in *. cbn beta iota.
  eapply sim_bind; [apply get_sim; by eapply keeps_start|].
  intros [[ret q] e] b s3 t3 (-> & Hr & -> & Hw & K3 & U3 & M3). simpl in Hr. cbn [fst snd] in *. cbn beta iota.
  assert (K : keeps s s3 (tail ts, t.2)) by eauto using keeps_trans.
  destruct ts as [|w ts]; simpl in Hr; subst ret; [done|]. destruct w as [| | | | | | | |w]; try done. cbn [tail head negb] in *.
  replace (WORD =? WORD) with true by done. cbn [negb].
  set (r := match Some t0 with Some TLt => (w, O_RDONLY, 0) | _ => (w, Z.lor O_WRONLY O_CREAT, 1) end).
  assert (Em : (if tok_ret t0 =? LT then redircmd cmd q e O_RDONLY 0 else if tok_ret t0 =? GT then redircmd cmd q e (Z.lor O_WRONLY O_CREAT) 1
    else if tok_ret t0 =? PLUS then redircmd cmd q e (Z.lor O_WRONLY O_CREAT) 1 else mret cmd) = new_cmd (REDIR cmd q e r.1.2 r.2)).
  { destruct Ht0 as [->|[->| ->]]; done. }
  rewrite Em. eapply sim_bind; [apply (new_sim _ _ _ 40); [done|done|by eapply keeps_start]|].
  intros p [] s4 t4 (-> & -> & K4 & U4 & M4).
  assert (Hr : r.1.1 = w) by (destruct Ht0 as [->|[->| ->]]; done).
  pose proof (IH s4 _ (Some (sh_used s3)) (rs0 ++ [r]) lo base (keeps_start _ _ _ _ K4)) as HI.
  assert (sh_used s3 = sh_used s) as U by congruence. assert (sh_mem s3 = sh_mem s) as E3 by congruence.
  pose proof (rl_range _ _ _ _ K) as R.
  eapply sim_post; [apply HI; [lia|]|].
  - eapply chain_snoc.
    + eapply chain_mono; [| |exact Hc]; [lia|]. intros a Ha. rewrite M4, E3, lookup_insert_ne by lia. done.
    + lia.
    + exists q, e. rewrite M4, lookup_insert_eq. split; [done|]. rewrite Hr. by apply Hw.
  - intros p rs s5 t5 [K5 C5]. split; [|by rewrite <- app_assoc in C5]. eauto using keeps_trans.
Qed.

Lemma pad_length l : (length l ≤ Z.to_nat MAXARGS)%nat → length (pad l) = Z.to_nat MAXARGS.
Proof. intros. unfold pad. rewrite length_app, length_fmap, length_replicate. lia. Qed.
Lemma pad_snoc l n x : length l = n → (n < Z.to_nat MAXARGS)%nat → <[n := Some x]> (pad l) = pad (l ++ [x]).
Proof.
  intros <- H. unfold pad. rewrite fmap_app, length_app. cbn [length fmap list_fmap].
  rewrite insert_app_r_alt by (by rewrite length_fmap). rewrite length_fmap, Nat.sub_diag.
  destruct (Z.to_nat MAXARGS - length l)%nat as [|k] eqn:E; [lia|].
  replace (Z.to_nat MAXARGS - (length l + 1))%nat with k by lia. by rewrite <- app_assoc.
Qed.
Lemma pad_end l n : length l = n → (n < Z.to_nat MAXARGS)%nat → <[n := None]> (pad l) = pad l.
Proof.
  intros <- H. apply list_insert_id. unfold pad. rewrite lookup_app_r by (by rewrite length_fmap). rewrite length_fmap, Nat.sub_diag.
  apply lookup_replicate. split; [done|lia].
Qed.
Lemma set_arg_Ok s a argc q e qs eqs : sh_mem s !! a = Some (EXEC (pad qs) (pad eqs)) → length qs = argc → length eqs = argc →
  (argc < Z.to_nat MAXARGS)%nat →
  set_arg (Some a) argc q e s = Ok () (set_mem (<[a := EXEC (<[argc := q]> (pad qs)) (<[argc := e]> (pad eqs))]> (sh_mem s)) s).
Proof.
  intros Hm Hq He Hlt. unfold set_arg. erewrite bind_Ok by done. erewrite bind_Ok by done. erewrite bind_Ok by (by rewrite Hm).
  cbn beta iota. rewrite !pad_length by lia. by rewrite (proj2 (Nat.ltb_lt _ _)) by done.
Qed.
Lemma rel_set_mem a x s t : start s t → rel (λ b, b = a) s (set_mem (<[a := x]> (sh_mem s)) s) t.
Proof. intros [[Hb Hle Hl] H R _]. constructor; [done|done|done|]. intros b _ Hb'. simpl. by rewrite lookup_insert_ne. Qed.

Definition items_post (a0 : Z) (argc : nat) (ws : list (list Z)) (rs0 : list redir) (s : Shell)
    (x : option Z * nat) (r : list (list Z) * list redir) (s' : Shell) (t' : Ab) : Prop :=
  rel (λ a, a = a0) s s' t' ∧ x.2 = (argc + length r.1)%nat ∧ args_rep W (sh_mem s') a0 (ws ++ r.1) ∧
  chain W (sh_mem s') (sh_used s') (a0 + 1) (Some a0) x.1 (rs0 ++ r.2).

Lemma items_sim fuel : ∀ s t a0 ret argc qs eqs ws rs0, start s t → 0 ≤ a0 < sh_used s →
  sh_mem s !! a0 = Some (EXEC (pad qs) (pad eqs)) → Forall3 W qs eqs ws → length ws = argc → (argc < Z.to_nat MAXARGS)%nat →
  chain W (sh_mem s) (sh_used s) (a0 + 1) (Some a0) ret rs0 →
  sim (parseexec_loop O_RDONLY O_WRONLY O_CREAT fuel (Some a0) ret argc es s) (a_items O_RDONLY O_WRONLY O_CREAT fuel argc t)
    (items_post a0 argc ws rs0 s).
Proof.
  induction fuel as [|fuel IH]; intros s t a0 ret argc qs eqs ws rs0 Hs Ha0 Hm HW Hn Hlt Hc; simpl; [done|].
  pose proof (Forall3_length_lm _ _ _ _ HW) as Hl1. pose proof (Forall3_length_lr _ _ _ _ HW) as Hl2.
  assert (Hend : ∀ s' t', keeps s s' t' → sh_mem s' = sh_mem s → sh_used s' = sh_used s →
    items_post a0 argc ws rs0 s (ret, argc) ([], []) s' t').
  { intros s' t' K E U. split_and!; [by apply keeps_rel|simpl; lia| |by rewrite app_nil_r, E, U]. exists qs, eqs.
    rewrite E, app_nil_r. split_and!; [done|done|unfold MAXARGS in *; lia]. }
  eapply sim_bind; [apply peek_sim; [set_solver|done]|].
  intros x b s1 t1 (-> & -> & Hst & K1 & U1 & M1). destruct b; [by apply sim_ret, Hend|].
  eapply sim_bind; [apply get_sim; by eapply keeps_start|].
  intros [[tok q] e] b s2 t2 (-> & Ht & -> & Hw & K2 & U2 & M2). cbn [fst snd] in *. subst tok. cbn beta iota.
  assert (K : keeps s s2 (tail t.1, t.2)) by eauto using keeps_trans. assert (M : sh_mem s2 = sh_mem s) by congruence.
  assert (U : sh_used s2 = sh_used s) by congruence.
  destruct (head t.1) as [w|]; [|by apply sim_ret, Hend]. destruct w as [| | | | | | | |w]; try done. change (default 0 (tok_ret <$> Some (TWord w))) with WORD.
  replace (WORD =? 0) with false by done. replace (WORD =? WORD) with true by done. cbn [negb].
  erewrite bind_Ok by (apply (set_arg_Ok s2 a0 argc _ _ qs eqs); [by rewrite M|lia|lia|done]).
  rewrite !pad_snoc by lia.
  set (s3 := set_mem _ s2). set (t3 := (tail t.1, t.2)).
  assert (K3 : rel (λ a, a = a0) s2 s3 t3) by (apply rel_set_mem; by eapply keeps_start).
  assert (K03 : rel (λ a, a = a0) s s3 t3) by (eapply rel_trans; [by apply keeps_rel|done]).
  destruct (MAXARGS <=? Z.of_nat (S argc)) eqn:Emax; [done|]. apply Z.leb_gt in Emax.
  assert (M3 : sh_mem s3 !! a0 = Some (EXEC (pad (qs ++ [q])) (pad (eqs ++ [e])))) by (subst s3; simpl; by rewrite lookup_insert_eq).
  eapply sim_bind.
  { apply (redirs_sim fuel s3 t3 ret rs0 (a0 + 1) (Some a0)); [by eapply keeps_start|subst s3; simpl; lia|].
    eapply chain_mono; [| |exact Hc]; [subst s3; simpl; lia|]. intros a Ha. subst s3; simpl. rewrite lookup_insert_ne, M by lia. done. }
  intros p rs s4 t4 [K4 C4].
  eapply sim_post.
  { apply (IH s4 t4 a0 p (S argc) (qs ++ [q]) (eqs ++ [e]) (ws ++ [w]) (rs0 ++ rs)); [by eapply keeps_start| | | | | |done].
    - pose proof (rl_range _ _ _ _ K4). subst s3; simpl in *. lia.
    - rewrite (rl_mem _ _ _ _ K4); [done|subst s3; simpl; lia|auto].
    - apply Forall3_app; [done|]. constructor; [by apply Hw|constructor].
    - rewrite length_app. simpl. lia.
    - unfold MAXARGS in *. lia. }
  intros x r s5 t5 (K5 & Hx & HA & HC). split_and!.
  - eapply rel_trans; [|exact K5]. eapply rel_trans; [exact K03|by apply keeps_rel].
  - rewrite Hx. simpl. lia.
  - by rewrite <- app_assoc in HA.
  - by rewrite <- app_assoc in HC.
Qed.

Definition parsed (s : Shell) (p : option Z) (c : command) (s' : Shell) (t' : Ab) : Prop :=
  keeps s s' t' ∧ rep W (sh_mem s') (sh_used s') p c.
Lemma parsed_trans s0 s1 s2 t1 t2 p c : keeps s0 s1 t1 → parsed s1 p c s2 t2 → parsed s0 p c s2 t2.
Proof. intros K [K' R]. split; [|done]. by eapply keeps_trans. Qed.
Lemma rep_keeps s s' t p c : keeps s s' t → rep W (sh_mem s) (sh_used s) p c → rep W (sh_mem s') (sh_used s') p c.
Proof.
  intros [_ _ R E] H. eapply rep_mono; [| |exact H]; [lia|]. intros a Ha. apply E; [lia|auto].
Qed.
(** A new node above what it points to. *)
Lemma new_parsed x sz s t (c : command) : sizeof x = sz → 0 < sz → start s t →
  (∀ m hi, m !! sh_used s = Some x → sh_used s < hi → (∀ p d, rep W (sh_mem s) (sh_used s) p d → rep W m hi p d) →
     rep W m hi (Some (sh_used s)) c) →
  sim (new_cmd x s) ((a_new sz;; mret c) t) (parsed s).
Proof.
  intros Hx Hsz Hs HR. eapply (sim_post _ _ (λ _, c)); [by apply new_sim|]. intros p [] s' t' (-> & -> & K & U & E). split; [done|].
  apply HR; [by rewrite E, lookup_insert_eq|lia|]. intros p d. by eapply rep_keeps.
Qed.

(** [sep right], where [right] is parsed by [m] and [mk] joins it to what is on the left. *)
Lemma right_sim (m : M Shell (option Z)) (n : M Ab command) (mk : option Z → node) (MK : command → command) c0 p0 toks s t :
  toks ⊆ symbols → (∀ p, sizeof (mk p) = 24) → start s t → (∀ s t, start s t → sim (m s) (n t) (parsed s)) →
  (∀ q r m hi a, 0 ≤ a < hi → m !! a = Some (mk q) → rep W m hi p0 c0 → rep W m hi q r → rep W m hi (Some a) (MK r)) →
  rep W (sh_mem s) (sh_used s) p0 c0 →
  sim ((more ← peek es toks; if (more : bool) then gettoken es;; q ← m; new_cmd (mk q) else mret p0) s)
    ((more ← a_peek toks; if (more : bool) then a_get;; r ← n; a_new 24;; mret (MK r) else mret c0) t) (parsed s).
Proof.
  intros Ht Hsz Hs Hm HR R0. eapply sim_bind; [by apply peek_sim|].
  intros x b s1 t1 (-> & -> & Hst & K1 & U1 & M1). destruct b; [|apply sim_ret; split; [done|by eapply rep_keeps]].
  eapply sim_bind; [apply get_sim; by eapply keeps_start|]. intros x b s2 t2 (-> & _ & -> & _ & K2 & _ & _).
  assert (K : keeps s s2 (tail t.1, t.2)) by eauto using keeps_trans.
  eapply sim_bind; [apply Hm; by eapply keeps_start|]. intros q r s3 t3 [K3 R3]. assert (K' := keeps_trans _ _ _ _ _ K K3).
  pose proof (rl_range _ _ _ _ K'). eapply sim_mono; [|intros; by eapply parsed_trans].
  apply new_parsed; [done|done|by eapply keeps_start|]. intros m' hi E Hhi Hrep. eapply HR; [|done|apply Hrep; by eapply rep_keeps|by apply Hrep]. lia.
Qed.

Lemma back_sim fuel : ∀ s t cmd c, start s t → rep W (sh_mem s) (sh_used s) cmd c →
  sim (parseback fuel cmd es s) (a_back fuel c t) (parsed s).
Proof.
  induction fuel as [|fuel IH]; intros s t cmd c Hs Hr; simpl; [done|].
  eapply sim_bind; [apply peek_sim; [set_solver|done]|].
  intros x b s1 t1 (-> & -> & Hst & K1 & U1 & M1). destruct b; [|apply sim_ret; split; [done|by eapply rep_keeps]].
  eapply sim_bind; [apply get_sim; by eapply keeps_start|]. intros x b s2 t2 (-> & _ & -> & _ & K2 & _ & _).
  assert (K : keeps s s2 (tail t.1, t.2)) by eauto using keeps_trans.
  eapply sim_bind; [by apply (new_sim (BACK cmd) s2); [| |eapply keeps_start]|].
  intros p [] s3 t3 (-> & -> & K3 & U3 & E3). assert (K' := keeps_trans _ _ _ _ _ K K3).
  eapply sim_mono; [apply IH; [by eapply keeps_start|]|intros; by eapply parsed_trans].
  exists (sh_used s2). pose proof (rl_range _ _ _ _ K). split_and!; [done|lia|lia|]. exists cmd. split; [by rewrite E3, lookup_insert_eq|by eapply rep_keeps].
Qed.

(** A simple command: the redirections go around the [execcmd] that is still being filled. *)
Lemma exec_sim fuel s t : start s t →
  sim ((cmd ← execcmd; ret ← parseredirs O_RDONLY O_WRONLY O_CREAT fuel cmd es;
        ' (ret, argc) ← parseexec_loop O_RDONLY O_WRONLY O_CREAT fuel cmd ret 0 es; set_arg cmd argc None None;; mret ret) s)
    ((a_new 168;; rs ← a_redirs O_RDONLY O_WRONLY O_CREAT fuel; r ← a_items O_RDONLY O_WRONLY O_CREAT fuel 0;
      mret (wrap (Exec r.1) (rs ++ r.2))) t) (parsed s).
Proof.
  intros Hs. eapply sim_bind; [by apply (new_sim _ s t 168)|].
  intros p [] s1 t1 (-> & -> & K1 & U1 & M1). set (a0 := sh_used s) in *.
  pose proof (rl_range _ _ _ _ K1) as R1.
  eapply sim_bind; [apply (redirs_sim fuel s1 _ _ [] (a0 + 1) (Some a0)); [by eapply keeps_start|lia|constructor]|].
  intros p rs s2 t2 [K2 C2]. pose proof (rl_range _ _ _ _ K2) as R2.
  eapply sim_bind.
  { apply (items_sim fuel s2 t2 a0 p 0 [] [] [] rs); [by eapply keeps_start|lia| |apply Forall3_nil|done|unfold MAXARGS; lia|done].
    rewrite (rl_mem _ _ _ _ K2), M1, lookup_insert_eq by (auto || lia). done. }
  intros [q argc] [ws rs'] s3 t3 (K3 & Hx & (qs & eqs & E3 & HW & Hlen) & C3). cbn [fst snd app] in *. cbn beta iota.
  pose proof (Forall3_length_lm _ _ _ _ HW) as Hl1. pose proof (Forall3_length_lr _ _ _ _ HW) as Hl2. unfold MAXARGS in Hlen.
  erewrite bind_Ok by (apply (set_arg_Ok s3 a0 argc _ _ qs eqs); [done|lia..|unfold MAXARGS; lia]).
  rewrite !pad_end by (unfold MAXARGS; lia). rewrite insert_id by done.
  assert (K : keeps s s3 t3) by (eapply rel_fresh; [eapply keeps_trans; [exact K1|exact K2]|exact K3|done]).
  apply sim_ret. split; [by destruct K as [[] ?]|]. simpl. pose proof (rl_range _ _ _ _ K3).
  eapply chain_rep; [|exists a0; split_and!; [done|lia|lia|by exists qs, eqs]|exact C3]. lia.
Qed.

Ltac rep_node := intros; eexists; split_and!; [done|lia|lia|]; eauto.

Lemma parse_sim fuel : ∀ s t, start s t →
  sim (parseline O_RDONLY O_WRONLY O_CREAT fuel es s) (a_line O_RDONLY O_WRONLY O_CREAT fuel t) (parsed s) ∧
  sim (parsepipe O_RDONLY O_WRONLY O_CREAT fuel es s) (a_pipe O_RDONLY O_WRONLY O_CREAT fuel t) (parsed s) ∧
  sim (parseexec O_RDONLY O_WRONLY O_CREAT fuel es s) (a_exec O_RDONLY O_WRONLY O_CREAT fuel t) (parsed s) ∧
  sim (parseblock O_RDONLY O_WRONLY O_CREAT fuel es s) (a_block O_RDONLY O_WRONLY O_CREAT fuel t) (parsed s).
Proof.
  induction fuel as [|fuel IH]; intros s t Hs; [done|]. split_and!; simpl.
  - eapply sim_bind; [by apply IH|]. intros p c s1 t1 [K1 R1].
    eapply sim_bind; [apply back_sim; [by eapply keeps_start|done]|]. intros p2 c2 s2 t2 [K2 R2].
    eapply sim_mono; [|intros; eapply parsed_trans; [eapply keeps_trans; [exact K1|exact K2]|done]].
    apply (right_sim _ _ (LIST p2) (Seq c2)); [set_solver|done|by eapply keeps_start|intros; by apply IH|rep_node|done].
  - eapply sim_bind; [by apply IH|]. intros p c s1 t1 [K1 R1].
    eapply sim_mono; [|intros; by eapply parsed_trans].
    apply (right_sim _ _ (PIPE p) (Pipe c)); [set_solver|done|by eapply keeps_start|intros; by apply IH|rep_node|done].
  - eapply sim_bind; [apply peek_sim; [set_solver|done]|].
    intros x b s1 t1 (-> & -> & Hst & K1 & U1 & M1). eapply sim_mono; [|intros; by eapply parsed_trans].
    apply keeps_start in K1. destruct b; [by apply IH|]. by apply exec_sim.
  - eapply sim_bind; [apply peek_sim; [set_solver|done]|].
    intros x b s1 t1 (-> & -> & Hst & K1 & U1 & M1). destruct b; [|done]. simpl.
    eapply sim_bind; [apply get_sim; by eapply keeps_start|]. intros x b s2 t2 (-> & _ & -> & _ & K2 & _ & _).
    eapply sim_bind; [apply IH; by eapply keeps_start|]. intros p c s3 t3 [K3 R3].
    eapply sim_bind; [apply peek_sim; [set_solver|by eapply keeps_start]|].
    intros x' b s4 t4 (-> & -> & _ & K4 & _ & _). destruct b; [|done]. simpl.
    eapply sim_bind; [apply get_sim; by eapply keeps_start|]. intros x' b s5 t5 (-> & _ & -> & _ & K5 & _ & _).
    assert (K35 := keeps_trans _ _ _ _ _ K4 K5). assert (K05 := keeps_trans _ _ _ _ _ K1 (keeps_trans _ _ _ _ _ K2 (keeps_trans _ _ _ _ _ K3 K35))).
    eapply sim_post; [apply (redirs_sim fuel s5 _ p [] (sh_used s5) p); [by eapply keeps_start|done|constructor]|].
    intros q rs s6 t6 [K6 C6]. split; [by eapply keeps_trans|].
    pose proof (rl_range _ _ _ _ K05). eapply chain_rep; [|eapply rep_keeps; [exact K6|eapply rep_keeps; [exact K35|exact R3]]|exact C6]. lia.
Qed.

(** ** Ending the strings *)

(** The characters of the words are still in the line. *)
Definition words_kept (b : list Z) : Prop :=
  length b = S es ∧ ∀ i c, str !! i = Some c → wordchar c → b !! i = Some c.
Record nulled (s s' : Shell) : Prop := {
  nu_mem : sh_mem s' = sh_mem s;
  nu_used : sh_used s' = sh_used s;
  nu_words : words_kept (sh_buf s');
  nu_zero : ∀ i, sh_buf s !! i = Some 0 → sh_buf s' !! i = Some 0
}.
Definition ended (b : list Z) (q e : nat) (w : list Z) : Prop := W q e w ∧ b !! e = Some 0.

Lemma nulled_trans s0 s1 s2 : nulled s0 s1 → nulled s1 s2 → nulled s0 s2.
Proof. intros [A B C D] [A' B' C' D']. constructor; [congruence|congruence|done|auto]. Qed.
Lemma ended_later s s' q e w : nulled s s' → ended (sh_buf s) q e w → ended (sh_buf s') q e w.
Proof. intros [_ _ _ H] [HW H0]. split; auto. Qed.
Lemma rep_impl (W1 W2 : nat → nat → list Z → Prop) m hi : (∀ q e w, W1 q e w → W2 q e w) → ∀ c p, rep W1 m hi p c → rep W2 m hi p c.
Proof.
  intros HW. induction c as [args|c IH w md fd|l IHl r IHr|l IHl r IHr|c IH]; intros p (a & -> & Ha & H); exists a; (split_and!; [done|lia|lia|]).
  - destruct H as (qs & es & E & H & Hl). exists qs, es. split_and!; [done| |done]. eapply Forall3_impl; [exact H|auto].
  - destruct H as (sub & (q & e & E & H) & Hr). exists sub. split; [|by apply IH]. exists q, e. auto.
  - destruct H as (pl & pr & E & Hl & Hr). exists pl, pr. auto.
  - destruct H as (pl & pr & E & Hl & Hr). exists pl, pr. auto.
  - destruct H as (sub & E & Hr). exists sub. auto.
Qed.

Lemma set_nul_Ok s q e w : words_kept (sh_buf s) → W q e w →
  ∃ s', set_nul e s = Ok () s' ∧ nulled s s' ∧ ended (sh_buf s') q e w.
Proof.
  intros [Hl Hk] HW. destruct HW as [? ? Hle ? ? Hstop] eqn:E. clear E. unfold set_nul. erewrite bind_Ok by done.
  rewrite (proj2 (Nat.ltb_lt _ _)) by lia. eexists. split; [done|]. split.
  - constructor; [done|done| |].
    + split; [simpl; by rewrite length_insert|]. intros i c Hi Hc. simpl. rewrite list_lookup_insert_ne; [auto|]. intros ->. by apply (Hstop c).
    + intros i Hi. simpl. destruct (decide (e = i)) as [->|]; [|by rewrite list_lookup_insert_ne].
      rewrite list_lookup_insert_eq; [done|]. by eapply lookup_lt_Some.
  - split; [done|]. simpl. apply list_lookup_insert_eq. lia.
Qed.
Lemma nul_args_Ok qs eqs ws : Forall3 W qs eqs ws → ∀ s l l', words_kept (sh_buf s) →
  ∃ s', nul_args ((Some <$> qs) ++ None :: l) ((Some <$> eqs) ++ None :: l') s = Ok () s' ∧ nulled s s' ∧ Forall3 (ended (sh_buf s')) qs eqs ws.
Proof.
  induction 1 as [|q e w qs eqs ws HW H IH]; intros s l l' Hk; simpl; [exists s; split_and!; [done|by constructor|constructor]|].
  erewrite bind_Ok by done. destruct (set_nul_Ok s q e w Hk HW) as (s1 & E1 & N1 & H1). erewrite bind_Ok by done.
  destruct (IH s1 l l') as (s2 & E2 & N2 & H2); [apply N1|]. exists s2. split_and!; [done|by eapply nulled_trans|].
  constructor; [by eapply ended_later|done].
Qed.
Lemma pad_none l : Z.of_nat (length l) < MAXARGS → ∃ l', pad l = (Some <$> l) ++ None :: l'.
Proof.
  intros H. unfold pad, MAXARGS in *. destruct (Z.to_nat 10 - length l)%nat as [|k] eqn:E; [lia|]. by exists (replicate k None).
Qed.

Definition nul_ok (c : command) : Prop := ∀ fuel s hi p, (depth c ≤ fuel)%nat → words_kept (sh_buf s) → rep W (sh_mem s) hi p c →
  ∃ s', nulterminate fuel p s = Ok p s' ∧ nulled s s' ∧ rep (ended (sh_buf s')) (sh_mem s) hi p c.
Lemma nul_two l r fuel s hi pl pr : nul_ok l → nul_ok r → (depth l ≤ fuel)%nat → (depth r ≤ fuel)%nat → words_kept (sh_buf s) →
  rep W (sh_mem s) hi pl l → rep W (sh_mem s) hi pr r →
  ∃ s', (nulterminate fuel pl;; nulterminate fuel pr;; mret ()) s = Ok () s' ∧ nulled s s' ∧
    rep (ended (sh_buf s')) (sh_mem s) hi pl l ∧ rep (ended (sh_buf s')) (sh_mem s) hi pr r.
Proof.
  intros IHl IHr Hdl Hdr Hk Rl Rr. destruct (IHl fuel s hi pl Hdl Hk Rl) as (s1 & E1 & N1 & R1).
  destruct (IHr fuel s1 hi pr Hdr) as (s2 & E2 & N2 & R2); [apply N1|by rewrite (nu_mem _ _ N1)|].
  exists s2. erewrite bind_Ok by done. erewrite bind_Ok by done. split_and!; [done|by eapply nulled_trans| |by rewrite (nu_mem _ _ N1) in R2].
  eapply rep_impl; [|exact R1]. intros q e w. by apply ended_later.
Qed.
Lemma nulterminate_Ok c : nul_ok c.
Proof.
  induction c as [args|c IH w md fd|l IHl r IHr|l IHl r IHr|c IH]; intros [|fuel] s hi p Hd Hk (a & -> & Ha & H); simpl in Hd; try lia; simpl;
    (erewrite bind_Ok by done).
  - destruct H as (qs & eqs & E & H & Hl). pose proof (Forall3_length_lm _ _ _ _ H) as Hl1. pose proof (Forall3_length_lr _ _ _ _ H) as Hl2.
    destruct (pad_none qs) as [l Eq]; [lia|]. destruct (pad_none eqs) as [l' Ee]; [lia|].
    destruct (nul_args_Ok qs eqs args H s l l' Hk) as (s1 & E1 & N1 & H1). exists s1. erewrite bind_Ok by (by rewrite E). cbn beta iota.
    rewrite Eq, Ee. erewrite bind_Ok by done. split_and!; [done|done|]. exists a. split_and!; [done|lia|lia|]. by exists qs, eqs.
  - destruct H as (sub & (q & e & E & H) & Hr). erewrite bind_Ok by (by rewrite E). cbn beta iota.
    destruct (IH fuel s hi sub) as (s1 & E1 & N1 & R1); [lia|done|done|]. simpl in H.
    destruct (set_nul_Ok s1 q e w) as (s2 & E2 & N2 & H2); [apply N1|done|]. exists s2.
    erewrite bind_Ok by (by erewrite bind_Ok by done). split_and!; [done|by eapply nulled_trans|].
    exists a. split_and!; [done|lia|lia|]. exists sub. split; [by exists q, e|]. eapply rep_impl; [|exact R1]. intros q' e' w'. by apply ended_later.
  - destruct H as (pl & pr & E & Hl & Hr). erewrite bind_Ok by (by rewrite E). cbn beta iota.
    destruct (nul_two l r fuel s hi pl pr) as (s1 & E1 & N1 & R1 & R2); [done|done|lia|lia|done..|]. exists s1. erewrite bind_Ok by done.
    split_and!; [done|done|]. exists a. split_and!; [done|lia|lia|]. by exists pl, pr.
  - destruct H as (pl & pr & E & Hl & Hr). erewrite bind_Ok by (by rewrite E). cbn beta iota.
    destruct (nul_two l r fuel s hi pl pr) as (s1 & E1 & N1 & R1 & R2); [done|done|lia|lia|done..|]. exists s1. erewrite bind_Ok by done.
    split_and!; [done|done|]. exists a. split_and!; [done|lia|lia|]. by exists pl, pr.
  - destruct H as (sub & E & Hr). erewrite bind_Ok by (by rewrite E). cbn beta iota.
    destruct (IH fuel s hi sub) as (s1 & E1 & N1 & R1); [lia|done|done|]. exists s1. erewrite bind_Ok by (by erewrite bind_Ok by done).
    split_and!; [done|done|]. exists a. split_and!; [done|lia|lia|]. by exists sub.
Qed.
End refine.

(** ** The theorems *)

(** A C string in the line. *)
Definition cstring (b : list Z) (q : nat) (w : list Z) : Prop :=
  take (length w) (drop q b) = w ∧ b !! (q + length w)%nat = Some 0 ∧ Forall (λ c, c ≠ 0) w.
(** The structure at [p] is the command [c], and every argument and file name in it is
    a C string. *)
Definition points (s : Shell) (p : option Z) (c : command) : Prop :=
  rep (λ q _ w, cstring (sh_buf s) q w) (sh_mem s) (sh_used s) p c.
(** A line just read, in a fresh process. *)
Definition shell_of (str : list Z) : Shell := mkShell (str ++ [0]) 0 0 ∅.

Lemma ended_cstring str b q e w : words_kept str b → ended str b q e w → cstring b q w.
Proof.
  intros [Hl Hk] [[Ht -> Hle Hne Hc Hstop] H0]. split_and!; [|done|eapply Forall_impl; [exact Hc|by intros c (_ & _ & ?)]].
  apply list_eq. intros i. destruct (decide (i < length w)%nat) as [Hi|Hi].
  2: { rewrite lookup_take_ge by lia. symmetry. apply lookup_ge_None. lia. }
  rewrite lookup_take_lt, lookup_drop by done. destruct (lookup_lt_is_Some_2 w i Hi) as [c Ew]. rewrite Ew. apply Hk.
  - rewrite <- Ew, <- Ht at 1. by rewrite lookup_take_lt, lookup_drop.
  - by apply (Forall_lookup_1 _ _ _ _ Hc Ew).
Qed.
Lemma strlen_line str s : Forall (λ c, c ≠ 0) str → strlen (str ++ [0]) s = Ok (length str) s.
Proof.
  intros H. unfold strlen. replace (list_find _ _) with (Some (length str, 0)); [done|]. symmetry. apply list_find_Some.
  split_and!; [by rewrite lookup_app_r, Nat.sub_diag|done|]. intros j y Hj Hlt. rewrite lookup_app_l in Hj by done.
  by apply (Forall_lookup_1 _ _ _ _ H Hj).
Qed.

Section theorems.
Context (O_RDONLY O_WRONLY O_CREAT : Z).
Notation parsecmd := (parsecmd O_RDONLY O_WRONLY O_CREAT).
Notation Line := (Line O_RDONLY O_WRONLY O_CREAT).

(** What [parsecmd] does, by the parser on tokens. *)
Lemma parsecmd_run str ts fuel : Forall (λ c, c ≠ 0) str → lexes str ts →
  match a_line O_RDONLY O_WRONLY O_CREAT fuel (ts, 0) with
  | Ok c (rest, u) =>
      if decide (rest = []) then (depth c ≤ fuel)%nat → ∃ p s', parsecmd fuel (shell_of str) = Ok p s' ∧ points s' p c
      else ∃ e, parsecmd fuel (shell_of str) = Panic e
  | Panic e => parsecmd fuel (shell_of str) = Panic e
  | _ => True
  end.
Proof.
  intros Hs Hl. unfold Sh.parsecmd. assert (Hst : rel str (λ _, False) (shell_of str) (shell_of str) (ts, 0)).
  { constructor; [constructor; [done|simpl; lia|done]|done|simpl; lia|done]. }
  destruct (parse_sim O_RDONLY O_WRONLY O_CREAT str Hs fuel (shell_of str) (ts, 0) Hst) as [H _].
  erewrite bind_Ok by done. erewrite bind_Ok by done. change (set_ps 0 (shell_of str)) with (shell_of str).
  change (sh_buf (shell_of str)) with (str ++ [0]). erewrite bind_Ok by (by apply strlen_line).
  destruct (a_line _ _ _ fuel (ts, 0)) as [c [rest u]|e| | |]; simpl in H; [|unfold mbind, M_bind; by rewrite H|done..].
  destruct H as (p & s1 & E1 & K1 & R1). erewrite bind_Ok by done.
  destruct (peek_spec str Hs [] rest s1) as (q & E2 & B2 & Hq); [apply K1|set_solver|]. erewrite bind_Ok by done. erewrite bind_Ok by done. simpl.
  destruct B2 as [Hb Hle Hx]. simpl in Hb, Hle, Hx. destruct (decide (rest = [])) as [->|Hne].
  - intros Hd. rewrite (Hq eq_refl).
    rewrite Nat.eqb_refl. simpl. destruct (nulterminate_Ok str c fuel (set_ps (length str) s1) (sh_used s1) p Hd) as (s2 & E3 & N3 & R3); [|done|].
    { simpl. rewrite Hb. split; [rewrite length_app; simpl; lia|]. intros i x Hi _. by apply lookup_app_l_Some. }
    erewrite bind_Ok by done. exists p, s2. split; [done|]. unfold points. rewrite (nu_mem _ _ _ N3), (nu_used _ _ _ N3).
    eapply rep_impl; [|exact R3]. intros q' e w. apply ended_cstring, N3.
  - assert (q ≠ length str) as Hq'. { intros ->. rewrite drop_ge in Hx by done. apply Hne. inversion Hx as [| | | | |w l]; [done|by destruct w]. }
    rewrite (proj2 (Nat.eqb_neq _ _) Hq'). simpl. by eexists.
Qed.

(** The parser has not written to the line when it stops, and if it stops early it panics. *)
Lemma parse_stop_Ok str fuel q es s : Forall (λ c, c ≠ 0) str → (4 * length str + 4 ≤ fuel)%nat →
  parse_stop O_RDONLY O_WRONLY O_CREAT fuel (shell_of str) = Ok (q, es) s →
  sh_buf s = str ++ [0] ∧ (q ≤ length str)%nat ∧ es = length str ∧ (q ≠ es → parsecmd fuel (shell_of str) = Panic "syntax").
Proof.
  intros Hs Hf. destruct (lexes_total (length str) str) as [ts Hl]; [done|done|]. pose proof (lexes_length _ _ Hl) as Hlen.
  unfold Sh.parse_stop, Sh.parsecmd. assert (Hst : rel str (λ _, False) (shell_of str) (shell_of str) (ts, 0)).
  { constructor; [constructor; [done|simpl; lia|done]|done|simpl; lia|done]. }
  destruct (parse_sim O_RDONLY O_WRONLY O_CREAT str Hs fuel (shell_of str) (ts, 0) Hst) as [H _].
  erewrite !(bind_Ok (modify (set_ps 0))) by done. erewrite !(bind_Ok (gets sh_buf)) by done. change (set_ps 0 (shell_of str)) with (shell_of str).
  change (sh_buf (shell_of str)) with (str ++ [0]). erewrite !(bind_Ok (strlen (str ++ [0]))) by (by apply strlen_line).
  destruct (parse_ends O_RDONLY O_WRONLY O_CREAT fuel ts 0) as [HE _]; [done|]. specialize (HE ltac:(lia)).
  destruct (a_line _ _ _ fuel (ts, 0)) as [c [rest u]|e| | |]; simpl in H, HE; [|unfold mbind, M_bind; by rewrite H|done..].
  destruct H as (p & s1 & E1 & K1 & R1). erewrite !(bind_Ok (parseline _ _ _ fuel _)) by exact E1.
  destruct (peek_spec str Hs [] rest s1) as (q1 & E2 & B2 & Hq); [apply K1|set_solver|]. erewrite !(bind_Ok (peek _ [])) by exact E2.
  erewrite !(bind_Ok (gets sh_ps)) by done. intros [= -> <- <-]. destruct B2 as [Hb Hle Hx]. simpl in *. split_and!; try done.
  intros Hne. by rewrite (proj2 (Nat.eqb_neq _ _) Hne).
Qed.

Lemma parsecmd_accepts str ts c fuel : Forall (λ c, c ≠ 0) str → (4 * length str + 4 ≤ fuel)%nat → lexes str ts → Line ts c →
  cmd_size c ≤ MAXN → ∃ p s', parsecmd fuel (shell_of str) = Ok p s' ∧ points s' p c.
Proof.
  intros Hs Hf Hl HG Hsz. pose proof (lexes_length _ _ Hl) as Hlen. pose proof (parsecmd_run str ts fuel Hs Hl) as H.
  pose proof (proj1 (grammar_parses O_RDONLY O_WRONLY O_CREAT) ts c HG fuel [] 0) as E. rewrite app_nil_r in E. rewrite E in H; [|lia|by left|lia].
  rewrite decide_True in H by done. apply H. pose proof (proj1 (grammar_depth O_RDONLY O_WRONLY O_CREAT) ts c HG). lia.
Qed.

(** Either way the parser ends. *)
Lemma parsecmd_cases str fuel : Forall (λ c, c ≠ 0) str → (4 * length str + 4 ≤ fuel)%nat →
  (∃ ts c, lexes str ts ∧ Line ts c ∧ cmd_size c ≤ MAXN) ∨ ∃ msg, parsecmd fuel (shell_of str) = Panic msg.
Proof.
  intros Hs Hf. destruct (lexes_total (length str) str) as [ts Hl]; [done|done|]. pose proof (lexes_length _ _ Hl) as Hlen.
  pose proof (parsecmd_run str ts fuel Hs Hl) as H.
  destruct (parse_ends O_RDONLY O_WRONLY O_CREAT fuel ts 0) as [HE _]; [done|]. specialize (HE ltac:(lia)).
  destruct (a_line _ _ _ fuel (ts, 0)) as [c [rest u]|e| | |]; simpl in HE; [|right; by eexists|done..].
  destruct HE as (ts1 & E & HG & [Hu Hmax]). simpl in *. destruct (decide (rest = [])) as [->|]; [|by right].
  left. exists ts, c. rewrite app_nil_r in E. subst ts1. split_and!; [done|done|lia].
Qed.
Lemma parsecmd_rejects str fuel : Forall (λ c, c ≠ 0) str → (4 * length str + 4 ≤ fuel)%nat →
  (¬ ∃ ts c, lexes str ts ∧ Line ts c ∧ cmd_size c ≤ MAXN) → ∃ msg, parsecmd fuel (shell_of str) = Panic msg.
Proof. intros Hs Hf Hno. by destruct (parsecmd_cases str fuel Hs Hf) as [?|?]. Qed.

(** C13. The parser of the shell decides its grammar. Whatever the line, with
    fuel for its length [parsecmd] returns or ends the process, it never reads
    outside the line or the array. If the tokens of the line derive a command whose
    structures fit the array of [malloc1], it returns a structure that represents
    this command (redirections in the order of the line, pipelines and lists nested
    to the right, at most nine arguments), in which every argument and every file
    name is a terminated string in the line; if they derive none, it ends with an
    error. *)
Theorem parsecmd_correct str fuel :
  Forall (λ c, c ≠ 0) str → (4 * length str + 4 ≤ fuel)%nat →
  (∀ ts c, lexes str ts → Line ts c → cmd_size c ≤ MAXN → ∃ p s', parsecmd fuel (shell_of str) = Ok p s' ∧ points s' p c) ∧
  ((¬ ∃ ts c, lexes str ts ∧ Line ts c ∧ cmd_size c ≤ MAXN) → ∃ msg, parsecmd fuel (shell_of str) = Panic msg).
Proof. intros Hs Hf. split; [intros; by eapply parsecmd_accepts|by apply parsecmd_rejects]. Qed.

(** C36. Printing and parsing: a command printed with a blank after every token
    and parentheses where the levels of the grammar need them is parsed back to
    itself. *)
Theorem print_parse_round_trip c fuel :
  printable O_RDONLY O_WRONLY O_CREAT c → cmd_size c ≤ MAXN → (4 * length (print c) + 4 ≤ fuel)%nat →
  ∃ p s', parsecmd fuel (shell_of (print c)) = Ok p s' ∧ points s' p c.
Proof.
  intros Hp Hsz Hf. eapply parsecmd_accepts; [|done|by eapply lexes_print, print_toks_ok|by apply print_toks_parse|done].
  unfold print. apply Forall_bind. eapply Forall_impl; [by eapply print_toks_ok|]. intros t Ht. apply Forall_app. split; [|by repeat constructor].
  destruct t; try by repeat constructor. destruct Ht as [_ Ht]. eapply Forall_impl; [exact Ht|]. by intros x (_ & _ & ?).
Qed.
End theorems.

(** [(a < b | c &) > d ; e] *)
Definition demo_cmd : command :=
  Seq (Redir (Back (Pipe (Redir (Exec [[97]]) [98] 0 0) (Exec [[99]]))) [100] 65 1) (Exec [[101]]).
Definition demo_line : list Z := [40; 97; 60; 98; 124; 32; 99; 38; 41; 62; 100; 59; 101; 10].
Lemma demo_lexes : lexes demo_line (print_toks 0 demo_cmd).
Proof.
  assert (Hw : ∀ c, wordchar c → Forall wordchar [c]) by (intros c Hc; by apply Forall_singleton).
  unfold demo_line. simpl.
  repeat first [apply lex_nil | apply lex_sym; [reflexivity|] | apply lex_gt; [done|] | apply lex_space; [in_const|]
    | apply (lex_word [_]); [done|apply Hw, (bool_decide_unpack _); vm_compute; exact I|intros ? [= <-]; apply (bool_decide_unpack _); vm_compute; exact I|]].
Qed.
Lemma demo_printable : printable 0 1 64 demo_cmd.
Proof.
  assert (Hw : ∀ c, bool_decide (wordchar c) → is_word [c]) by (intros c Hc%bool_decide_unpack; split; [done|by apply Forall_singleton]).
  repeat split; try (by apply Forall_singleton, Hw); try (by apply Hw); try done; auto.
Qed.
Lemma parsecmd_correct_witness :
  (∃ p s', parsecmd 0 1 64 60 (shell_of demo_line) = Ok p s' ∧ points s' p demo_cmd) ∧
  (∃ p s', parsecmd 0 1 64 60 (shell_of demo_line) = Ok p s' ∧ p = Some 624).
Proof.
  split; [|vm_compute; by eexists _, _].
  refine (proj1 (parsecmd_correct 0 1 64 demo_line 60 _ _) (print_toks 0 demo_cmd) demo_cmd demo_lexes _ _).
  - by repeat constructor.
  - simpl. lia.
  - apply print_toks_parse, demo_printable.
  - vm_compute. done.
Defined.
Lemma print_parse_round_trip_witness :
  ∃ p s', parsecmd 0 1 64 200 (shell_of (print demo_cmd)) = Ok p s' ∧ points s' p demo_cmd.
Proof.
  apply (print_parse_round_trip 0 1 64 demo_cmd 200).
  - exact demo_printable.
  - vm_compute. done.
  - vm_compute. lia.
Defined.
