(* ===== verification/Libc.v ===== *)
(** * User programs and the calls they make

    A user program is an interaction tree: it calls functions of the C library, which
    are the events, and goes on with their answers. [runs] says what a process does when
    the calls behave as POSIX describes them for file descriptors, [fork], [wait] and
    [exec]: a new descriptor is the lowest free one, a child starts with a copy of the
    descriptors of its parent, a pipe has a reading and a writing end. Which files can be
    opened and which programs can be run is left open ([Host]), and so is the order in
    which different processes run. *)
From S2P Require Import Prelude.
From ITree Require Import ITree ITreeFacts.

(** ** The calls *)

(** [lib_print] is output through stdio, to descriptor 1 or 2. [lib_read] gives the
    result and the bytes it stored. [lib_execv] answers only when it fails. *)
Variant libE : Type → Type :=
| lib_open (path : list Z) (mode : Z) : libE Z
| lib_close (fd : Z) : libE Z
| lib_dup (fd : Z) : libE Z
| lib_pipe : libE (option (Z * Z))
| lib_fork : libE Z
| lib_wait : libE Z
| lib_execv (path : list Z) (argv : list (list Z)) : libE Z
| lib_exit (code : Z) : libE Empty_set
| lib_print (fd : Z) (text : list Z) : libE unit
| lib_gets (n : Z) : libE (option (list Z))
| lib_read (fd n : Z) : libE (Z * list Z)
| lib_write (fd : Z) (bytes : list Z) : libE Z
| lib_chdir (path : list Z) : libE Z
| lib_mkdir (path : list Z) : libE Z
| lib_mknod (path : list Z) : libE Z
| lib_getenv (name : list Z) : libE (option (list Z)).

#[global] Instance itree_ret {E} : MRet (itree E) := λ A a, Ret a.
#[global] Instance itree_bind {E} : MBind (itree E) := λ A B k t, ITree.bind t k.

Abbreviation prog A := (itree libE A).
Definition call {A} (e : libE A) : prog A := ITree.trigger e.
(** [exit] does not come back, so any code can follow it. *)
Definition exit {A} (code : Z) : prog A := call (lib_exit code) ≫= λ v : Empty_set, match v with end.
(** A loop that never ends, as the outcome of what C leaves undefined or of a loop that
    ran out of fuel: no behaviour of [runs] is one of such a program. *)
Definition stuck {A} : prog A := ITree.spin.

(** ** Processes *)

(** What a descriptor refers to. A pipe is named by the process that made it. A file has
    the position of the next byte to read; copies of a descriptor share it in POSIX, and
    no program here reads from a descriptor that it has copied. *)
Inductive desc :=
| Inherited (n : Z)
| File (path : list Z) (mode : Z) (pos : nat)
| ReadEnd (pipe : list nat)
| WriteEnd (pipe : list nat).
#[global] Instance desc_eq_dec : EqDecision desc.
Proof. solve_decision. Defined.
Definition Opened (path : list Z) (mode : Z) : desc := File path mode 0.

(** [p_id] is the path of the process in the tree of all processes, [p_forks] the number
    of its children, [p_in] what is left to read of its standard input. *)
Record proc := mkProc { p_id : list nat; p_forks : nat; p_fds : gmap Z desc; p_in : list Z }.
Definition set_fds (f : gmap Z desc) (σ : proc) : proc := mkProc (p_id σ) (p_forks σ) f (p_in σ).
Definition set_in (i : list Z) (σ : proc) : proc := mkProc (p_id σ) (p_forks σ) (p_fds σ) i.
(** The child of a process, and the process after it has made the child. *)
Definition child (σ : proc) : proc := mkProc (p_id σ ++ [p_forks σ]) 0 (p_fds σ) (p_in σ).
Definition forked (σ : proc) : proc := mkProc (p_id σ) (S (p_forks σ)) (p_fds σ) (p_in σ).

(** The lowest free descriptor: the first of [0 .. size] that is not in the table. *)
Definition lowest (f : gmap Z desc) : Z :=
  default 0 (snd <$> list_find (λ n, f !! n = None) (seqZ 0 (Z.of_nat (size f) + 1))).

Record Host := mkHost {
  can_open : list Z → Z → bool;
  can_exec : list Z → bool;
  can_fork : list nat → nat → bool;
  can_pipe : list nat → bool;
  can_chdir : list Z → bool;
  can_make : list Z → bool;
  environment : list Z → option (list Z);
  (** What is in the files, and the result of a [read] of a descriptor with these bytes
      left; a negative one is an error. *)
  contents : list Z → list Z;
  read_len : Z → list Z → Z
}.

(** What a process does, with what its children do. A process that executes another
    program keeps its descriptors. *)
Inductive tree :=
| TExit (code : Z)
| TExec (path : list Z) (argv : list (list Z)) (fds : gmap Z desc)
| TFork (child rest : tree)
| TWait (rest : tree)
| TSay (fd : Z) (text : list Z) (rest : tree)
| TChdir (path : list Z) (rest : tree)
| TMake (path : list Z) (rest : tree).

(** [fgets]: at most [n - 1] bytes, up to and with the first newline; null at the end. *)
Fixpoint line_of (n : nat) (i : list Z) : list Z :=
  match n, i with
  | S n', c :: i' => if c =? 10 then [c] else c :: line_of n' i'
  | _, _ => []
  end.

(** [read] of at most [n] of the bytes that are left: an error, or at least one byte unless
    none is left. *)
Definition read_from (H : Host) (fd n : Z) (left : list Z) : Z * list Z :=
  if read_len H fd left <? 0 then (-1, [])
  else let l := take (Z.to_nat (Z.max 1 (Z.min (read_len H fd left) n))) left in (Z.of_nat (length l), l).
(** The string in a buffer of zeros that [fgets] has filled. *)
Definition chars (l : list Z) : list Z := take (default (length l) (fst <$> list_find (λ c, c = 0) l)) l.

Section runs.
Context (H : Host).

(** A call with an immediate answer: the answer, the process after it, and what is seen
    of it. *)
Definition answer {A} (e : libE A) (σ : proc) : option (A * proc * (tree → tree)) :=
  match e with
  | lib_open path mode =>
      if can_open H path mode then
        let n := lowest (p_fds σ) in Some (n, set_fds (<[n := Opened path mode]> (p_fds σ)) σ, id)
      else Some (-1, σ, id)
  | lib_close fd => Some (if decide (is_Some (p_fds σ !! fd)) then 0 else -1, set_fds (delete fd (p_fds σ)) σ, id)
  | lib_dup fd =>
      match p_fds σ !! fd with
      | Some d => let n := lowest (p_fds σ) in Some (n, set_fds (<[n := d]> (p_fds σ)) σ, id)
      | None => Some (-1, σ, id)
      end
  | lib_pipe =>
      if can_pipe H (p_id σ) then
        let r := lowest (p_fds σ) in
        let f := <[r := ReadEnd (p_id σ)]> (p_fds σ) in
        let w := lowest f in
        Some (Some (r, w), set_fds (<[w := WriteEnd (p_id σ)]> f) σ, id)
      else Some (None, σ, id)
  | lib_print fd text => Some ((), σ, TSay fd text)
  | lib_gets n =>
      match p_in σ with
      | [] => Some (None, σ, id)
      | i => let l := line_of (Z.to_nat (n - 1)) i in Some (Some l, set_in (drop (length l) i) σ, id)
      end
  | lib_read fd n =>
      match p_fds σ !! fd with
      | Some (Inherited 0) => let r := read_from H fd n (p_in σ) in Some (r, set_in (drop (length r.2) (p_in σ)) σ, id)
      | Some (File path mode pos) =>
          let r := read_from H fd n (drop pos (contents H path)) in
          Some (r, set_fds (<[fd := File path mode (pos + length r.2)]> (p_fds σ)) σ, id)
      | _ => None
      end
  | lib_write fd bytes => Some (Z.of_nat (length bytes), σ, TSay fd bytes)
  | lib_chdir path => Some (if can_chdir H path then 0 else -1, σ, TChdir path)
  | lib_mkdir path | lib_mknod path => Some (if can_make H path then 0 else -1, σ, TMake path)
  | lib_getenv name => Some (environment H name, σ, id)
  | _ => None
  end.

Inductive runs : itree' libE Empty_set → proc → tree → Prop :=
| runs_tau t σ T : runs (observe t) σ T → runs (TauF t) σ T
| runs_call A (e : libE A) k σ a σ' f T : answer e σ = Some (a, σ', f) → runs (observe (k a)) σ' T → runs (VisF e k) σ (f T)
| runs_exit code k σ : runs (VisF (lib_exit code) k) σ (TExit code)
| runs_exec path argv k σ : can_exec H path = true → runs (VisF (lib_execv path argv) k) σ (TExec path argv (p_fds σ))
| runs_exec_fail path argv k σ T : can_exec H path = false → runs (observe (k (-1))) σ T → runs (VisF (lib_execv path argv) k) σ T
| runs_fork k σ T T' : can_fork H (p_id σ) (p_forks σ) = true →
    runs (observe (k 0)) (child σ) T → (∀ pid, 0 < pid → runs (observe (k pid)) (forked σ) T') →
    runs (VisF lib_fork k) σ (TFork T T')
| runs_fork_fail k σ T : can_fork H (p_id σ) (p_forks σ) = false → runs (observe (k (-1))) σ T → runs (VisF lib_fork k) σ T
| runs_wait k σ T : (∀ r, runs (observe (k r)) σ T) → runs (VisF lib_wait k) σ (TWait T).

Definition behaves (t : prog Empty_set) (σ : proc) (T : tree) : Prop := runs (observe t) σ T.

(** ** Rules *)

Lemma behaves_exit {A} code (k : A → prog Empty_set) σ : behaves (exit code ≫= k) σ (TExit code).
Proof. unfold behaves, exit, call, mbind, itree_bind. cbn. apply runs_exit. Qed.
Lemma behaves_exit_end code σ : behaves (exit code) σ (TExit code).
Proof. unfold behaves, exit, call, mbind, itree_bind. cbn. apply runs_exit. Qed.
Lemma behaves_call {A} (e : libE A) k σ a σ' f T : answer e σ = Some (a, σ', f) → behaves (k a) σ' T → behaves (call e ≫= k) σ (f T).
Proof. unfold behaves, call, mbind, itree_bind. cbn. intros E HT. by eapply runs_call. Qed.
Lemma behaves_fork k σ T T' : can_fork H (p_id σ) (p_forks σ) = true →
  behaves (k 0) (child σ) T → (∀ pid, 0 < pid → behaves (k pid) (forked σ) T') → behaves (call lib_fork ≫= k) σ (TFork T T').
Proof. unfold behaves, call, mbind, itree_bind. cbn. intros E H1 H2. by apply runs_fork. Qed.
Lemma behaves_wait k σ T : (∀ r, behaves (k r) σ T) → behaves (call lib_wait ≫= k) σ (TWait T).
Proof. unfold behaves, call, mbind, itree_bind. cbn. intros H1. by apply runs_wait. Qed.
Lemma behaves_exec path argv k σ : can_exec H path = true → behaves (call (lib_execv path argv) ≫= k) σ (TExec path argv (p_fds σ)).
Proof. unfold behaves, call, mbind, itree_bind. cbn. by apply runs_exec. Qed.
Lemma behaves_exec_fail path argv k σ T : can_exec H path = false → behaves (k (-1)) σ T → behaves (call (lib_execv path argv) ≫= k) σ T.
Proof. unfold behaves, call, mbind, itree_bind. cbn. intros E HT. by apply runs_exec_fail. Qed.
Lemma behaves_fork_fail k σ T : can_fork H (p_id σ) (p_forks σ) = false → behaves (k (-1)) σ T → behaves (call lib_fork ≫= k) σ T.
Proof. unfold behaves, call, mbind, itree_bind. cbn. intros E HT. by apply runs_fork_fail. Qed.
Lemma behaves_ret {A} (a : A) (k : A → prog Empty_set) σ T : behaves (k a) σ T → behaves (mret a ≫= k) σ T.
Proof. done. Qed.
Lemma behaves_tau t σ T : behaves t σ T → behaves (Tau t) σ T.
Proof. apply runs_tau. Qed.

(** Programs that are equal as trees behave alike. *)
Lemma runs_eq ot σ T : runs ot σ T → ∀ u : prog Empty_set, eq_itree eq u {| _observe := ot |} → runs (observe u) σ T.
Proof.
  assert (∀ (t u : prog Empty_set), eq_itree eq t u → eq_itree eq t {| _observe := observe u |}) as Heta.
  { intros t u E. by rewrite E, <- itree_eta. }
  induction 1 as [t σ T HT IH|A e k σ a σ' f T Ha HT IH|code k σ|path argv k σ He|path argv k σ T He HT IH
    |k σ T T' Hf HT IH HT' IH'|k σ T Hf HT IH|k σ T HT IH]; intros u E.
  - apply eqitree_inv_Tau_r in E as (t0 & -> & E). by apply runs_tau, IH, Heta.
  - apply eqitree_inv_Vis_r in E as (k' & -> & E). eapply runs_call; [exact Ha|]. by apply IH, Heta.
  - apply eqitree_inv_Vis_r in E as (k' & -> & E). apply runs_exit.
  - apply eqitree_inv_Vis_r in E as (k' & -> & E). by apply runs_exec.
  - apply eqitree_inv_Vis_r in E as (k' & -> & E). apply runs_exec_fail; [done|]. by apply IH, Heta.
  - apply eqitree_inv_Vis_r in E as (k' & -> & E). apply runs_fork; [done|by apply IH, Heta|]. intros pid Hp. by apply (IH' pid Hp), Heta.
  - apply eqitree_inv_Vis_r in E as (k' & -> & E). apply runs_fork_fail; [done|]. by apply IH, Heta.
  - apply eqitree_inv_Vis_r in E as (k' & -> & E). apply runs_wait. intros r. by apply (IH r), Heta.
Qed.
#[export] Instance behaves_proper : Proper (eq_itree eq ==> eq ==> eq ==> iff) behaves.
Proof.
  assert (∀ t u σ T, eq_itree eq t u → behaves t σ T → behaves u σ T) as Himp.
  { intros t u σ T E HT. eapply runs_eq; [exact HT|]. by rewrite <- itree_eta. }
  intros t u E σ ? <- T ? <-. split; apply Himp; [done|by symmetry].
Qed.
Lemma behaves_bind {A B} (t : prog A) (k : A → prog B) (k' : B → prog Empty_set) σ T :
  behaves (t ≫= λ a, k a ≫= k') σ T → behaves ((t ≫= k) ≫= k') σ T.
Proof. unfold mbind, itree_bind. by rewrite bind_bind. Qed.
(** One round of a loop, and what follows the loop. *)
Lemma behaves_iter {I R} (body : I → prog (I + R)) i (k : R → prog Empty_set) σ T :
  behaves (body i ≫= λ r, match r with inl j => Tau (ITree.iter body j ≫= k) | inr v => k v end) σ T → behaves (ITree.iter body i ≫= k) σ T.
Proof.
  apply behaves_proper; [|done|done]. unfold mbind, itree_bind. rewrite unfold_iter, bind_bind. apply eqit_bind; [done|].
  intros [j'|v]; [by rewrite bind_tau|by rewrite bind_ret_l].
Qed.
End runs.

(** ** A program has one behaviour *)

Section det.
Context (H : Host).

(** The first step of a program. *)
Inductive first_step :=
| SNone
| STau (t : prog Empty_set)
| SExit (code : Z)
| SExec (path : list Z) (argv : list (list Z)) (t : prog Empty_set)
| SFork (k : Z → prog Empty_set)
| SWait (k : Z → prog Empty_set)
| SCall (t : prog Empty_set) (σ : proc) (f : tree → tree).
Definition first_call (σ : proc) {A} (e : libE A) (k : A → prog Empty_set) : first_step :=
  match answer H e σ with
  | Some (a, σ', f) => SCall (k a) σ' f
  | None =>
      match e in libE A return (A → prog Empty_set) → first_step with
      | lib_exit code => λ _, SExit code
      | lib_execv path argv => λ k, SExec path argv (k (-1))
      | lib_fork => λ k, SFork k
      | lib_wait => λ k, SWait k
      | _ => λ _, SNone
      end k
  end.
Definition step_of (σ : proc) (ot : itree' libE Empty_set) : first_step :=
  match ot with RetF v => match v with end | TauF t => STau t | VisF e k => first_call σ e k end.

Lemma runs_inv ot σ T : runs H ot σ T →
  match step_of σ ot with
  | SNone => False
  | STau t => runs H (observe t) σ T
  | SExit code => T = TExit code
  | SExec path argv t => if can_exec H path then T = TExec path argv (p_fds σ) else runs H (observe t) σ T
  | SFork k =>
      if can_fork H (p_id σ) (p_forks σ) then
        ∃ T1 T2, T = TFork T1 T2 ∧ runs H (observe (k 0)) (child σ) T1 ∧ ∀ pid, 0 < pid → runs H (observe (k pid)) (forked σ) T2
      else runs H (observe (k (-1))) σ T
  | SWait k => ∃ T1, T = TWait T1 ∧ ∀ r, runs H (observe (k r)) σ T1
  | SCall t σ' f => ∃ T1, T = f T1 ∧ runs H (observe t) σ' T1
  end.
Proof.
  destruct 1 as [t σ T HT|A e k σ a σ' f T Ha HT|code k σ|path argv k σ He|path argv k σ T He HT|k σ T U Hf HT HU|k σ T Hf HT|k σ T HT];
    cbn [step_of]; unfold first_call; simpl; rewrite ?He, ?Hf, ?Ha; eauto.
Qed.

Lemma runs_det ot σ T T' : runs H ot σ T → runs H ot σ T' → T = T'.
Proof.
  intros HT. revert T'. induction HT as [t σ T HT IH|A e k σ a σ' f T Ha HT IH|code k σ|path argv k σ He|path argv k σ T He HT IH
    |k σ T U Hf HT IH HU IHU|k σ T Hf HT IH|k σ T HT IH]; intros T' HT'%runs_inv; cbn [step_of] in HT'; unfold first_call in HT'; simpl in HT';
    rewrite ?He, ?Hf, ?Ha in HT'; auto.
  - destruct HT' as (T1 & -> & H1). f_equal. by apply IH.
  - destruct HT' as (T1 & T2 & -> & H1 & H2). f_equal; [by apply IH|]. apply (IHU 1); [lia|]. by apply H2.
  - destruct HT' as (T1 & -> & H1). f_equal. by apply (IH 0).
Qed.
Lemma behaves_det t σ T T' : behaves H t σ T → behaves H t σ T' → T = T'.
Proof. apply runs_det. Qed.
End det.

(** ** Descriptors *)

Lemma lowest_spec f : f !! lowest f = None ∧ 0 ≤ lowest f ∧ ∀ j, 0 ≤ j < lowest f → is_Some (f !! j).
Proof.
  unfold lowest. set (l := seqZ 0 (Z.of_nat (size f) + 1)).
  destruct (list_find (λ n, f !! n = None) l) as [[i n]|] eqn:E; simpl.
  - apply list_find_Some in E as (El & En & Hmin). unfold l in *. apply lookup_seqZ in El as [-> Hi]. rewrite Z.add_0_l in *.
    split_and!; [done|lia|]. intros j Hj. apply not_eq_None_Some, (Hmin (Z.to_nat j)); [|lia]. apply lookup_seqZ. lia.
  - exfalso. apply list_find_None in E. assert (list_to_set l ⊆ dom f) as Hsub.
    { intros x Hx%elem_of_list_to_set. apply elem_of_dom, not_eq_None_Some. by rewrite Forall_forall in E; apply E. }
    apply subseteq_size in Hsub. rewrite size_list_to_set, size_dom in Hsub by apply NoDup_seqZ. unfold l in Hsub. rewrite length_seqZ in Hsub. lia.
Qed.
Lemma lowest_eq f n : f !! n = None → 0 ≤ n → (∀ j, 0 ≤ j < n → is_Some (f !! j)) → lowest f = n.
Proof.
  intros Hn H0 Hj. destruct (lowest_spec f) as (E & Hl & Hlt).
  destruct (Z.lt_trichotomy (lowest f) n) as [Hc|[Hc|Hc]]; [|done|].
  - destruct (Hj (lowest f) ltac:(lia)). congruence.
  - destruct (Hlt n ltac:(lia)). congruence.
Qed.
