(* ===== verification/ShRun.v ===== *)
(** * Running commands (user/sh/main.c: [runcmd], [getcmd], [main])

    The part of the shell that makes processes: what [runcmd] does with a structure that
    the parser built, and the loop that reads lines. *)
From ITree Require Import ITree ITreeFacts.
From S2P Require Import Prelude Sh ShSpec ShRefine Libc.

(** The bytes from [q] up to the terminator. *)
Definition cstr (b : list Z) (q : nat) : option (list Z) :=
  (λ r, take r.1 (drop q b)) <$> list_find (λ c, c = 0) (drop q b).
(** The strings of the array [argv], up to the null pointer. *)
Fixpoint arg_strings (b : list Z) (argv : list (option nat)) : option (list (list Z)) :=
  match argv with
  | Some q :: argv' => s ← cstr b q; l ← arg_strings b argv'; Some (s :: l)
  | None :: _ => Some []
  | [] => None
  end.

Definition fprintf_err (text : list Z) : prog unit := call (lib_print 2 text).
Definition PANIC {A} (s : list Z) : prog A := fprintf_err (s ++ [10]);; exit 1.
Definition fork1 : prog Z :=
  pid ← call lib_fork;
  if pid =? -1 then PANIC (str "fork") else mret pid.

Definition exec_failed (path : list Z) : list Z := str "exec " ++ path ++ strln " failed".
Definition open_failed (path : list Z) : list Z := str "open " ++ path ++ strln " failed".

(** The recursive calls do not return, so nothing follows them. A pointer or a string
    outside the structures is [stuck], and so is the end of the fuel. *)
Fixpoint runcmd (fuel : nat) (s : Shell) (cmd : option Z) : prog Empty_set :=
  match fuel with
  | O => stuck
  | S fuel' =>
      match cmd with
      | None => exit 0
      | Some a =>
          match sh_mem s !! a with
          | Some (EXEC argv _) =>
              match arg_strings (sh_buf s) argv with
              | Some [] => exit 0
              | Some (path :: args) =>
                  call (lib_execv path (path :: args));;
                  fprintf_err (exec_failed path);;
                  exit 0
              | None => stuck
              end
          | Some (REDIR sub file _ mode fd) =>
              match cstr (sh_buf s) file with
              | Some path =>
                  call (lib_close fd);;
                  r ← call (lib_open path mode);
                  if r <? 0 then fprintf_err (open_failed path);; exit 1
                  else runcmd fuel' s sub
              | None => stuck
              end
          | Some (LIST l r) =>
              pid ← fork1;
              if pid =? 0 then runcmd fuel' s l
              else
                call lib_wait;;
                runcmd fuel' s r
          | Some (PIPE l r) =>
              p ← call lib_pipe;
              match p with
              | None => PANIC (str "pipe")
              | Some (p0, p1) =>
                  pid ← fork1;
                  if pid =? 0 then
                    call (lib_close 1);;
                    call (lib_dup p1);;
                    call (lib_close p0);;
                    call (lib_close p1);;
                    runcmd fuel' s l
                  else
                    pid ← fork1;
                    if pid =? 0 then
                      call (lib_close 0);;
                      call (lib_dup p0);;
                      call (lib_close p0);;
                      call (lib_close p1);;
                      runcmd fuel' s r
                    else
                      call (lib_close p0);;
                      call (lib_close p1);;
                      call lib_wait;;
                      call lib_wait;;
                      exit 0
              end
          | Some (BACK sub) =>
              pid ← fork1;
              if pid =? 0 then runcmd fuel' s sub else exit 0
          | None => stuck
          end
      end
  end.

Definition sizeof_line : Z := 100.
(** [None] is -1. *)
Definition line_read (l : list Z) : option (list Z) := match l with [] => None | _ :: _ => Some l end.
Definition getcmd : prog (option (list Z)) :=
  fprintf_err (str "$ ");;
  r ← call (lib_gets sizeof_line);
  mret (line_read (chars (default [] r))).

Section shell.
(** From fcntl.h. *)
Context (O_RDONLY O_WRONLY O_RDWR O_CREAT : Z).

(** [runcmd(parsecmd(buf))] in the child. A panic of the parser prints its message; if
    the parser stopped before the end of the line, the rest is printed first. *)
Definition parse_fuel (line : list Z) : nat := 4 * length line + 4.
Definition leftovers (line : list Z) : option (list Z) :=
  match parse_stop O_RDONLY O_WRONLY O_CREAT (parse_fuel line) (shell_of line) with
  | Ok (q, es) s => if (q =? es)%nat then None else cstr (sh_buf s) q
  | _ => None
  end.
Definition left_text (rest : list Z) : list Z := str "leftovers: " ++ rest ++ [10].
Definition run_line (line : list Z) : prog Empty_set :=
  match parsecmd O_RDONLY O_WRONLY O_CREAT (parse_fuel line) (shell_of line) with
  | Ok p s => runcmd (parse_fuel line) s p
  | Panic msg =>
      match leftovers line with Some rest => fprintf_err (left_text rest) | None => mret () end;;
      PANIC (str msg)
  | _ => stuck
  end.

Definition is_cd (line : list Z) : bool := bool_decide (take 3 line = str "cd ").
(** [buf[strlen(buf) - 1] = 0], and then [buf + 3]. *)
Definition cd_path (line : list Z) : list Z := drop 3 (take (length line - 1) line).
Definition cannot_cd (path : list Z) : list Z := str "cannot cd " ++ path ++ [10].

(** One round of the loop: [inr] ends it. *)
Definition shell_line (line : list Z) : prog (unit + unit) :=
  if is_cd line then
    r ← call (lib_chdir (cd_path line));
    (if r <? 0 then fprintf_err (cannot_cd (cd_path line)) else mret ());;
    mret (inl ())
  else
    pid ← fork1;
    if pid =? 0 then run_line line ≫= λ v : Empty_set, match v with end
    else
      call lib_wait;;
      mret (inl ()).
Definition shell_round (_ : unit) : prog (unit + unit) :=
  r ← getcmd;
  match r with
  | None => mret (inr ())
  | Some line => shell_line line
  end.
(** [while ((fd = open("console", O_RDWR)) >= 0)] *)
Definition console_round (_ : unit) : prog (unit + unit) :=
  fd ← call (lib_open (str "console") O_RDWR);
  if 0 <=? fd then
    if 3 <=? fd then call (lib_close fd);; mret (inr ()) else mret (inl ())
  else mret (inr ()).

(** [digits] prints the index of an argument, as [%d] does. *)
Fixpoint print_argv (digits : nat → list Z) (i : nat) (argv : list (list Z)) : prog unit :=
  match argv with
  | [] => mret ()
  | a :: argv' =>
      call (lib_print 1 (str "sh: argv[" ++ digits i ++ str "] = '" ++ a ++ strln "'"));;
      print_argv digits (S i) argv'
  end.
Definition testenv (v : option (list Z)) : list Z :=
  match v with Some v => str "sh: testenv = '" ++ v ++ strln "'" | None => strln "sh: testenv not found!" end.

(** Falling off the end of [main] exits with 0. *)
Definition main (digits : nat → list Z) (argv : list (list Z)) : prog Empty_set :=
  print_argv digits 0 argv;;
  test_env ← call (lib_getenv (str "TEST_ENV"));
  call (lib_print 1 (testenv test_env));;
  ITree.iter console_round ();;
  ITree.iter shell_round ();;
  exit 0.
End shell.

(** ** What a command means

    The processes of a command, with their descriptors. Redirections replace one
    descriptor; the two sides of a pipe get one end each as output and input; everything
    else is inherited, and no other end of a pipe is left open. *)
Section meaning.
Context (H : Host).

Definition with_fd (fd : Z) (d : desc) (σ : proc) : proc := set_fds (<[fd := d]> (p_fds σ)) σ.
Definition fails (msg : list Z) (code : Z) : tree := TSay 2 msg (TExit code).
Definition try_fork (σ : proc) (T : tree) : tree :=
  if can_fork H (p_id σ) (p_forks σ) then T else fails (strln "fork") 1.
Fixpoint meaning (c : command) (σ : proc) : tree :=
  match c with
  | Exec [] => TExit 0
  | Exec (path :: args) => if can_exec H path then TExec path (path :: args) (p_fds σ) else fails (exec_failed path) 0
  | Redir c file mode fd => if can_open H file mode then meaning c (with_fd fd (Opened file mode) σ) else fails (open_failed file) 1
  | Seq l r => try_fork σ (TFork (meaning l (child σ)) (TWait (meaning r (forked σ))))
  | Pipe l r =>
      if can_pipe H (p_id σ) then
        try_fork σ (TFork (meaning l (with_fd 1 (WriteEnd (p_id σ)) (child σ)))
          (try_fork (forked σ) (TFork (meaning r (with_fd 0 (ReadEnd (p_id σ)) (child (forked σ)))) (TWait (TWait (TExit 0))))))
      else fails (strln "pipe") 1
  | Back c => try_fork σ (TFork (meaning c (child σ)) (TExit 0))
  end.
End meaning.

(** The descriptors 0, 1 and 2 are open. *)
Definition std_open (f : gmap Z desc) : Prop := ∀ j, 0 ≤ j < 3 → is_Some (f !! j).
(** Redirections are of descriptors 0 and 1. *)
Fixpoint std_redirs (c : command) : Prop :=
  match c with
  | Exec _ => True
  | Redir c _ _ fd => 0 ≤ fd < 3 ∧ std_redirs c
  | Pipe l r | Seq l r => std_redirs l ∧ std_redirs r
  | Back c => std_redirs c
  end.

(** ** Strings *)

Lemma cstring_cstr b q w : cstring b q w → cstr b q = Some w.
Proof.
  intros (Ht & H0 & Hw). unfold cstr. assert (list_find (λ c, c = 0) (drop q b) = Some (length w, 0)) as ->.
  { apply list_find_Some. split_and!; [by rewrite lookup_drop|done|]. intros j y Hy Hj E. subst y.
    assert (w !! j = Some 0) as Ew by (rewrite <- Ht; by rewrite lookup_take_lt). rewrite Forall_lookup in Hw. by apply (Hw j 0). }
  simpl. by rewrite Ht.
Qed.
Lemma arg_strings_pad b qs eqs args : Forall3 (λ q (_ : nat) w, cstring b q w) qs eqs args → Z.of_nat (length args) < MAXARGS →
  arg_strings b (pad qs) = Some args.
Proof.
  intros HF Hn. assert (length qs = length args) as El by (clear -HF; induction HF; simpl; congruence).
  unfold pad. rewrite El. destruct (Z.to_nat MAXARGS - length args)%nat as [|n] eqn:En; [unfold MAXARGS in *; lia|]. clear Hn El En.
  induction HF as [|q e w qs eqs args Hc HF IH]; [done|]. cbn [fmap list_fmap app arg_strings]. rewrite (cstring_cstr b q w Hc).
  cbn [mbind option_bind]. by rewrite IH.
Qed.

(** ** Processes *)

Section runcmd.
Context (H : Host).

Lemma behaves_panic {A} s σ (k : A → prog Empty_set) : behaves H (PANIC s ≫= k) σ (fails (s ++ [10]) 1).
Proof. unfold PANIC, fprintf_err. apply behaves_bind. eapply behaves_call; [done|]. apply behaves_exit. Qed.
Lemma behaves_panic_end s σ : behaves H (PANIC s) σ (fails (s ++ [10]) 1).
Proof. unfold PANIC, fprintf_err. eapply behaves_call; [done|]. apply behaves_exit_end. Qed.
Lemma behaves_fork1 k σ T T' : behaves H (k 0) (child σ) T → (∀ pid, 0 < pid → behaves H (k pid) (forked σ) T') →
  behaves H (fork1 ≫= k) σ (try_fork H σ (TFork T T')).
Proof.
  intros H1 H2. unfold fork1, try_fork. apply behaves_bind. destruct (can_fork H (p_id σ) (p_forks σ)) eqn:E.
  - apply behaves_fork; [done|by apply behaves_ret|]. intros pid Hp. rewrite (proj2 (Z.eqb_neq _ _)) by lia. by apply behaves_ret, H2.
  - apply behaves_fork_fail; [done|]. apply behaves_panic.
Qed.
Lemma behaves_close fd (k : Z → prog Empty_set) σ T : (∀ r, behaves H (k r) (set_fds (delete fd (p_fds σ)) σ) T) →
  behaves H (call (lib_close fd) ≫= k) σ T.
Proof. intros HT. by eapply (behaves_call _ _ _ _ _ _ id); [done|]. Qed.

(** [close(fd); dup(p)] gives [fd] what [p] refers to. *)
Lemma behaves_move fd p d (k : Z → prog Empty_set) σ T : 0 ≤ fd < 3 → std_open (p_fds σ) → p ≠ fd → p_fds σ !! p = Some d →
  (∀ r, behaves H (k r) (with_fd fd d σ) T) → behaves H (call (lib_close fd) ≫= λ _, call (lib_dup p) ≫= k) σ T.
Proof.
  intros Hfd Hstd Hp Ed HT. apply behaves_close. intros _. eapply (behaves_call _ _ _ _ _ _ id); [|apply HT].
  cbn [answer p_fds set_fds]. rewrite lookup_delete_ne, Ed by done.
  rewrite (lowest_eq _ fd); [|by rewrite lookup_delete_eq|lia|].
  - unfold with_fd, set_fds. simpl. by rewrite insert_delete_eq.
  - intros j Hj. rewrite lookup_delete_ne by lia. apply Hstd. lia.
Qed.
Lemma std_open_insert f fd d : std_open f → std_open (<[fd := d]> f).
Proof. intros Hf j Hj. destruct (decide (j = fd)) as [->|]; [rewrite lookup_insert_eq; by eexists|rewrite lookup_insert_ne by done; by apply Hf]. Qed.

(** The tables of the processes of a pipe. *)
Section pipe.
Context (f : gmap Z desc) (R W : desc) (Hf : std_open f).
Let r := lowest f.
Let f1 := <[r := R]> f.
Let w := lowest f1.
Let f2 := <[w := W]> f1.

Lemma pipe_fds : 3 ≤ r ∧ 3 ≤ w ∧ r ≠ w ∧ f !! r = None ∧ f !! w = None ∧ f2 !! r = Some R ∧ f2 !! w = Some W.
Proof.
  destruct (lowest_spec f) as (E1 & H1 & _). destruct (lowest_spec f1) as (E2 & H2 & _). fold r in E1, H1. fold w in E2, H2.
  assert (r ≠ w) as Hne by (intros E; rewrite <- E in E2; unfold f1 in E2; by rewrite lookup_insert_eq in E2).
  assert (∀ x, 0 ≤ x → f !! x = None → 3 ≤ x) as Hx.
  { intros x H0 Ex. destruct (decide (3 ≤ x)); [done|]. destruct (Hf x ltac:(lia)). congruence. }
  assert (f !! w = None) as E3 by (unfold f1 in E2; by rewrite lookup_insert_ne in E2).
  split_and!; try done; [by apply Hx|by apply Hx| |unfold f2; by rewrite lookup_insert_eq].
  unfold f2. rewrite lookup_insert_ne by done. unfold f1. by rewrite lookup_insert_eq.
Qed.
Lemma pipe_closed : delete w (delete r f2) = f.
Proof.
  destruct pipe_fds as (_ & _ & Hne & E1 & E2 & _). unfold f2. rewrite delete_insert_ne by done.
  unfold f1. by rewrite (delete_insert_id f r), delete_insert_id by done.
Qed.
Lemma pipe_side fd d : 0 ≤ fd < 3 → delete w (delete r (<[fd := d]> f2)) = <[fd := d]> f.
Proof. intros Hfd. destruct pipe_fds as (Hr & Hw & _). rewrite !delete_insert_ne by lia. by rewrite pipe_closed. Qed.
Lemma pipe_std : std_open f2.
Proof. by do 2 apply std_open_insert. Qed.
End pipe.

Lemma runcmd_pipe (l r : prog Empty_set) (Tl Tr : tree) σ : std_open (p_fds σ) →
  behaves H l (with_fd 1 (WriteEnd (p_id σ)) (child σ)) Tl →
  behaves H r (with_fd 0 (ReadEnd (p_id σ)) (child (forked σ))) Tr →
  behaves H (p ← call lib_pipe;
    match p with
    | None => PANIC (str "pipe")
    | Some (p0, p1) =>
        pid ← fork1;
        if pid =? 0 then
          call (lib_close 1);; call (lib_dup p1);; call (lib_close p0);; call (lib_close p1);; l
        else
          pid ← fork1;
          if pid =? 0 then
            call (lib_close 0);; call (lib_dup p0);; call (lib_close p0);; call (lib_close p1);; r
          else call (lib_close p0);; call (lib_close p1);; call lib_wait;; call lib_wait;; exit 0
    end) σ
    (if can_pipe H (p_id σ) then try_fork H σ (TFork Tl (try_fork H (forked σ) (TFork Tr (TWait (TWait (TExit 0))))))
     else fails (strln "pipe") 1).
Proof.
  intros Hstd Hl Hr. destruct (can_pipe H (p_id σ)) eqn:Ep.
  2: { eapply (behaves_call _ _ _ _ _ _ id); [cbn [answer]; by rewrite Ep|]. apply behaves_panic_end. }
  eapply (behaves_call _ _ _ _ _ _ id); [cbn [answer]; by rewrite Ep|]. cbv zeta. cbn beta iota.
  set (R := ReadEnd (p_id σ)) in *. set (W := WriteEnd (p_id σ)) in *.
  destruct (pipe_fds (p_fds σ) R W Hstd) as (Hr3 & Hw3 & Hne & _ & _ & E1 & E2).
  pose proof (pipe_side (p_fds σ) R W Hstd) as Hside. pose proof (pipe_std (p_fds σ) R W Hstd) as Hstd2.
  set (p0 := lowest (p_fds σ)) in *. set (p1 := lowest (<[p0 := R]> (p_fds σ))) in *.
  set (f2 := <[p1 := W]> (<[p0 := R]> (p_fds σ))) in *.
  assert (∀ fd d τ, 0 ≤ fd < 3 → p_fds τ = p_fds σ →
    set_fds (delete p1 (delete p0 (<[fd := d]> f2))) τ = with_fd fd d τ) as Hends.
  { intros fd d τ Hfd Eτ. unfold with_fd. by rewrite Eτ, Hside. }
  apply (behaves_fork1 _ (set_fds f2 σ)).
  - apply (behaves_move 1 p1 W); [lia|done|lia|done|]. intros _. do 2 (apply behaves_close; intros _).
    rewrite <- (Hends 1 W (child σ)) in Hl by done || lia. exact Hl.
  - intros pid Hp. rewrite (proj2 (Z.eqb_neq _ _)) by lia. apply (behaves_fork1 _ (forked (set_fds f2 σ))).
    + apply (behaves_move 0 p0 R); [lia|done|lia|done|]. intros _. do 2 (apply behaves_close; intros _).
      rewrite <- (Hends 0 R (child (forked σ))) in Hr by done || lia. exact Hr.
    + intros pid' Hp'. rewrite (proj2 (Z.eqb_neq _ _)) by lia. do 2 (apply behaves_close; intros _).
      do 2 (apply behaves_wait; intros _). apply behaves_exit_end.
Qed.

Lemma runcmd_redir path mode fd (k : prog Empty_set) T σ : std_open (p_fds σ) → 0 ≤ fd < 3 →
  behaves H k (with_fd fd (Opened path mode) σ) T →
  behaves H (call (lib_close fd);; r ← call (lib_open path mode); if r <? 0 then fprintf_err (open_failed path);; exit 1 else k) σ
    (if can_open H path mode then T else fails (open_failed path) 1).
Proof.
  intros Hstd Hfd Hk. apply behaves_close. intros _. destruct (can_open H path mode) eqn:Eo.
  - eapply (behaves_call _ _ _ _ _ _ id); [cbn [answer]; by rewrite Eo|]. cbn [p_fds set_fds].
    rewrite (lowest_eq _ fd); [|by rewrite lookup_delete_eq|lia|].
    + rewrite (proj2 (Z.ltb_ge _ _)) by lia. unfold set_fds at 1. simpl. by rewrite insert_delete_eq.
    + intros j Hj. rewrite lookup_delete_ne by lia. apply Hstd. lia.
  - eapply (behaves_call _ _ _ _ _ _ id); [cbn [answer]; by rewrite Eo|]. cbn. unfold fprintf_err.
    eapply behaves_call; [done|]. apply behaves_exit_end.
Qed.

Lemma runcmd_meaning s c : ∀ fuel p σ, points s p c → std_redirs c → std_open (p_fds σ) → (depth c ≤ fuel)%nat →
  behaves H (runcmd fuel s p) σ (meaning H c σ).
Proof.
  unfold points. induction c as [args|c IH file mode fd|l IHl r IHr|l IHl r IHr|c IH]; intros [|fuel] p σ HP HR Hstd Hd;
    try (simpl in Hd; lia); destruct HP as (a & -> & _ & HP); cbn [runcmd meaning].
  - destruct HP as (qs & eqs & -> & HF & Hn). rewrite (arg_strings_pad _ _ _ _ HF Hn).
    destruct args as [|path args]; [apply behaves_exit_end|]. destruct (can_exec H path) eqn:Ee; [by apply behaves_exec|].
    apply behaves_exec_fail; [done|]. eapply behaves_call; [done|]. apply behaves_exit_end.
  - destruct HP as (sub & (q & e & -> & Hc) & HP). simpl in Hc. rewrite (cstring_cstr _ _ _ Hc). destruct HR as [Hfd HR].
    apply runcmd_redir; [done|done|]. apply IH; [done|done|by apply std_open_insert|simpl in Hd; lia].
  - destruct HP as (pl & pr & -> & Hl & Hr). destruct HR as [Rl Rr]. simpl in Hd.
    apply runcmd_pipe; [done|apply IHl|apply IHr]; try done; try lia; by apply std_open_insert.
  - destruct HP as (pl & pr & -> & Hl & Hr). destruct HR as [Rl Rr]. simpl in Hd. apply behaves_fork1; [apply IHl; try done; lia|].
    intros pid Hp. rewrite (proj2 (Z.eqb_neq _ _)) by lia. apply behaves_wait. intros _. apply IHr; try done; lia.
  - destruct HP as (sub & -> & HP). simpl in Hd. apply behaves_fork1; [apply IH; try done; lia|].
    intros pid Hp. rewrite (proj2 (Z.eqb_neq _ _)) by lia. apply behaves_exit_end.
Qed.
End runcmd.

(** ** The shell *)

Lemma wrap_std c rs : std_redirs c → Forall (λ r, 0 ≤ r.2 < 3) rs → std_redirs (wrap c rs).
Proof. revert c. induction rs as [|[[w m] f] rs IH]; intros c Hc HF; [done|]. apply Forall_cons in HF as [Hf HF]. by apply IH. Qed.
Lemma iter_std n c : std_redirs c → std_redirs (Nat.iter n Back c).
Proof. by induction n. Qed.

Section session.
Context (O_RDONLY O_WRONLY O_RDWR O_CREAT : Z) (H : Host).
Abbreviation Line := (Line O_RDONLY O_WRONLY O_CREAT).
Abbreviation Redirs := (Redirs O_RDONLY O_WRONLY O_CREAT).

Lemma Redirs_std ts rs : Redirs ts rs → Forall (λ r, 0 ≤ r.2 < 3) rs.
Proof. induction 1 as [|t w m f ts rs Ht HR IH]; constructor; [|done]. destruct Ht; simpl; lia. Qed.
Lemma Items_std ts ws rs : Items O_RDONLY O_WRONLY O_CREAT ts ws rs → Forall (λ r, 0 ≤ r.2 < 3) rs.
Proof. induction 1; [by eapply Redirs_std|]. apply Forall_app. split; [by eapply Redirs_std|done]. Qed.
Lemma grammar_std : (∀ ts c, Line ts c → std_redirs c) ∧ (∀ ts c, Piped O_RDONLY O_WRONLY O_CREAT ts c → std_redirs c) ∧
  (∀ ts c, Simple O_RDONLY O_WRONLY O_CREAT ts c → std_redirs c).
Proof.
  apply grammar_ind; intros; simpl; repeat split; try apply iter_std; try apply wrap_std; eauto using Items_std, Redirs_std; done.
Qed.

(** What a line stands for: the command that its tokens derive, if its structures fit
    the array of the shell; otherwise the child ends with a message, after printing the
    rest of the line from where the parser stopped if that is before its end. *)
Inductive line_tree (line : list Z) (σ : proc) : tree → Prop :=
| line_command ts c : lexes line ts → Line ts c → cmd_size c ≤ MAXN → line_tree line σ (meaning H c σ)
| line_error msg : (¬ ∃ ts c, lexes line ts ∧ Line ts c ∧ cmd_size c ≤ MAXN) → line_tree line σ (fails (str msg ++ [10]) 1)
| line_leftovers rest : (¬ ∃ ts c, lexes line ts ∧ Line ts c ∧ cmd_size c ≤ MAXN) → rest `suffix_of` line → rest ≠ [] →
    line_tree line σ (TSay 2 (str "leftovers: " ++ rest ++ [10]) (fails (strln "syntax") 1)).

(** A session: what the shell does with its input, line by line. *)
Inductive session : proc → tree → Prop :=
| session_end σ : chars (line_of 99 (p_in σ)) = [] → session σ (TSay 2 (str "$ ") (TExit 0))
| session_cd σ line σ' T : chars (line_of 99 (p_in σ)) = line → line ≠ [] → is_cd line = true →
    σ' = set_in (drop (length (line_of 99 (p_in σ))) (p_in σ)) σ → session σ' T →
    session σ (TSay 2 (str "$ ") (TChdir (cd_path line) (if can_chdir H (cd_path line) then T else TSay 2 (cannot_cd (cd_path line)) T)))
| session_run σ line σ' T1 T : chars (line_of 99 (p_in σ)) = line → line ≠ [] → is_cd line = false →
    σ' = set_in (drop (length (line_of 99 (p_in σ))) (p_in σ)) σ → can_fork H (p_id σ) (p_forks σ) = true →
    line_tree line (child σ') T1 → session (forked σ') T →
    session σ (TSay 2 (str "$ ") (TFork T1 (TWait T)))
| session_no_fork σ line : chars (line_of 99 (p_in σ)) = line → line ≠ [] → is_cd line = false → can_fork H (p_id σ) (p_forks σ) = false →
    session σ (TSay 2 (str "$ ") (fails (strln "fork") 1)).

Lemma chars_ne l : Forall (λ c, c ≠ 0) (chars l).
Proof.
  unfold chars. destruct (list_find (λ c, c = 0) l) as [[n c]|] eqn:E; simpl.
  - apply list_find_Some in E as (E1 & E2 & E3). apply Forall_lookup. intros j x Hj.
    assert (j < n)%nat as Hjn by (apply lookup_lt_Some in Hj; rewrite length_take in Hj; lia).
    rewrite lookup_take_lt in Hj by done. by apply (E3 j x).
  - rewrite take_ge by lia. by apply list_find_None in E.
Qed.

Lemma leftovers_Some line rest : Forall (λ c, c ≠ 0) line → leftovers O_RDONLY O_WRONLY O_CREAT line = Some rest →
  rest `suffix_of` line ∧ rest ≠ [] ∧ parsecmd O_RDONLY O_WRONLY O_CREAT (parse_fuel line) (shell_of line) = Panic "syntax".
Proof.
  intros Hl. unfold leftovers. destruct (parse_stop _ _ _ _ _) as [[q es] s| | | |] eqn:E; try done.
  destruct (parse_stop_Ok O_RDONLY O_WRONLY O_CREAT line _ q es s Hl ltac:(done) E) as (Eb & Hq & -> & Hp).
  destruct (Nat.eqb_spec q (length line)) as [|Hne]; [done|]. rewrite Eb. unfold cstr. intros Er.
  assert (list_find (λ c, c = 0) (drop q (line ++ [0])) = Some ((length line - q)%nat, 0)) as Ef.
  { rewrite drop_app_le by done. apply list_find_Some. split_and!; [by rewrite lookup_app_r, length_drop, Nat.sub_diag by (rewrite length_drop; lia)|done|].
    intros j y Ey Hj. rewrite lookup_app_l in Ey by (rewrite length_drop; lia). rewrite lookup_drop in Ey. by apply (Forall_lookup_1 _ _ _ _ Hl Ey). }
  rewrite Ef in Er. simpl in Er. injection Er as <-. rewrite drop_app_le, take_app_le, take_ge by (rewrite ?length_drop; lia).
  split_and!; [exists (take q line); by rewrite take_drop| |by apply Hp]. intros E0. apply (f_equal length) in E0. rewrite length_drop in E0. simpl in E0. lia.
Qed.
Lemma run_line_correct line σ : Forall (λ c, c ≠ 0) line → std_open (p_fds σ) →
  ∃ T, line_tree line σ T ∧ behaves H (run_line O_RDONLY O_WRONLY O_CREAT line) σ T.
Proof.
  intros Hl Hstd. unfold run_line. assert (4 * length line + 4 ≤ parse_fuel line)%nat as Hf by done.
  destruct (parsecmd_cases O_RDONLY O_WRONLY O_CREAT line (parse_fuel line) Hl Hf) as [(ts & c & Hlex & HL & Hsz)|[msg Ep]].
  - destruct (parsecmd_accepts O_RDONLY O_WRONLY O_CREAT line ts c _ Hl Hf Hlex HL Hsz) as (p & s' & -> & HP).
    eexists. split; [by eapply line_command|]. apply runcmd_meaning; [done|by apply (proj1 grammar_std ts)|done|].
    pose proof (proj1 (grammar_depth O_RDONLY O_WRONLY O_CREAT) ts c HL). pose proof (lexes_length _ _ Hlex). unfold parse_fuel. lia.
  - assert (¬ ∃ ts c, lexes line ts ∧ Line ts c ∧ cmd_size c ≤ MAXN) as Hno.
    { intros (ts & c & Hlex & HL & Hsz).
      destruct (parsecmd_accepts O_RDONLY O_WRONLY O_CREAT line ts c _ Hl Hf Hlex HL Hsz) as (p & s' & E & _). congruence. }
    rewrite Ep. destruct (leftovers O_RDONLY O_WRONLY O_CREAT line) as [rest|] eqn:Er.
    + destruct (leftovers_Some line rest Hl Er) as (Hsuf & Hne & Ep'). rewrite Ep in Ep'. injection Ep' as ->.
      eexists. split; [by apply line_leftovers|]. unfold fprintf_err. eapply behaves_call; [done|]. apply behaves_panic_end.
    + eexists. split; [by eapply line_error|]. apply behaves_ret, behaves_panic_end.
Qed.

Definition shell_from (j : unit) : prog Empty_set := ITree.iter (shell_round O_RDONLY O_WRONLY O_CREAT) j;; exit 0.
Definition shell_next (r : unit + unit) : prog Empty_set := match r with inl j => Tau (shell_from j) | inr _ => exit 0 end.

Lemma behaves_getcmd (k : option (list Z) → prog Empty_set) σ T :
  let line := chars (line_of 99 (p_in σ)) in
  behaves H (k (line_read line)) (set_in (drop (length (line_of 99 (p_in σ))) (p_in σ)) σ) T →
  behaves H (getcmd ≫= k) σ (TSay 2 (str "$ ") T).
Proof.
  cbv zeta. intros HT. unfold getcmd, fprintf_err. apply behaves_bind. eapply behaves_call; [done|]. apply behaves_bind.
  destruct σ as [n f fds [|c i]]; (eapply (behaves_call _ _ _ _ _ _ id); [reflexivity|]).
  - apply behaves_ret. exact HT.
  - apply behaves_ret. exact HT.
Qed.

(** A line that is run by a child. *)
Lemma shell_line_run line σ T1 T : is_cd line = false → can_fork H (p_id σ) (p_forks σ) = true →
  behaves H (run_line O_RDONLY O_WRONLY O_CREAT line) (child σ) T1 → behaves H (shell_from ()) (forked σ) T →
  behaves H (shell_line O_RDONLY O_WRONLY O_CREAT line ≫= shell_next) σ (TFork T1 (TWait T)).
Proof.
  intros Ecd Ef HT1 HT. unfold shell_line. rewrite Ecd. apply behaves_bind.
  assert (try_fork H σ (TFork T1 (TWait T)) = TFork T1 (TWait T)) as <- by (unfold try_fork; by rewrite Ef).
  apply behaves_fork1.
  - cbn. apply behaves_bind. eapply behaves_proper; [|done|done|exact HT1].
    unfold mbind, itree_bind. rewrite <- (bind_ret_r (run_line _ _ _ line)) at 2. apply eqit_bind; [done|]. intros [].
  - intros pid Hp. rewrite (proj2 (Z.eqb_neq _ _)) by lia. apply behaves_bind, behaves_wait. intros r. by apply behaves_ret, behaves_tau.
Qed.
Lemma shell_line_cd line σ T : is_cd line = true → behaves H (shell_from ()) σ T →
  behaves H (shell_line O_RDONLY O_WRONLY O_CREAT line ≫= shell_next) σ
    (TChdir (cd_path line) (if can_chdir H (cd_path line) then T else TSay 2 (cannot_cd (cd_path line)) T)).
Proof.
  intros Ecd HT. unfold shell_line. rewrite Ecd. apply behaves_bind. eapply behaves_call; [done|]. apply behaves_bind.
  destruct (can_chdir H (cd_path line)) eqn:Ec; cbn.
  - by apply behaves_ret, behaves_ret, behaves_tau.
  - unfold fprintf_err. eapply behaves_call; [done|]. by apply behaves_ret, behaves_tau.
Qed.
Lemma shell_line_no_fork line σ : is_cd line = false → can_fork H (p_id σ) (p_forks σ) = false →
  behaves H (shell_line O_RDONLY O_WRONLY O_CREAT line ≫= shell_next) σ (fails (strln "fork") 1).
Proof.
  intros Ecd Ef. unfold shell_line. rewrite Ecd. unfold fork1. do 2 apply behaves_bind. apply behaves_fork_fail; [done|]. apply behaves_panic.
Qed.

Lemma shell_session n : ∀ σ, (length (p_in σ) < n)%nat → std_open (p_fds σ) → ∃ T, session σ T ∧ behaves H (shell_from ()) σ T.
Proof.
  induction n as [|n IH]; intros σ Hn Hstd; [lia|].
  set (line := chars (line_of 99 (p_in σ))). set (σ' := set_in (drop (length (line_of 99 (p_in σ))) (p_in σ)) σ).
  assert (∀ T, behaves H (match line_read line with None => mret (inr ()) | Some line => shell_line O_RDONLY O_WRONLY O_CREAT line end
    ≫= shell_next) σ' T → behaves H (shell_from ()) σ (TSay 2 (str "$ ") T)) as Hround.
  { intros T HT. apply behaves_iter. unfold shell_round at 1. apply behaves_bind, behaves_getcmd. exact HT. }
  destruct (decide (line = [])) as [El|El].
  { exists (TSay 2 (str "$ ") (TExit 0)). split; [by apply session_end|]. apply Hround. rewrite El. apply behaves_ret, behaves_exit_end. }
  assert (length (p_in σ') < n)%nat as Hn'.
  { unfold σ'. simpl. rewrite length_drop. assert (line_of 99 (p_in σ) ≠ []) as Hne by (intros E; apply El; unfold line; by rewrite E).
    assert (length (line_of 99 (p_in σ)) ≠ 0%nat) by by rewrite length_zero_iff_nil. destruct (p_in σ); simpl in *; lia. }
  assert (line_read line = Some line) as Esome by (by destruct line). rewrite Esome in Hround.
  destruct (is_cd line) eqn:Ecd; [|destruct (can_fork H (p_id σ) (p_forks σ)) eqn:Ef].
  - destruct (IH σ' Hn' Hstd) as (T & HS & HT). eexists. split; [by eapply (session_cd σ line)|]. by apply Hround, shell_line_cd.
  - destruct (IH (forked σ') Hn' Hstd) as (T & HS & HT). destruct (run_line_correct line (child σ') (chars_ne _) Hstd) as (T1 & HL & HT1).
    exists (TSay 2 (str "$ ") (TFork T1 (TWait T))). split; [by eapply (session_run σ line)|]. by apply Hround, shell_line_run.
  - eexists. split; [by eapply (session_no_fork σ line)|]. by apply Hround, shell_line_no_fork.
Qed.
End session.

(** ** The whole program *)

Section shell_main.
Context (O_RDONLY O_WRONLY O_RDWR O_CREAT : Z) (H : Host).

(** What [main] says before it reads the first line. *)
Fixpoint said (digits : nat → list Z) (i : nat) (argv : list (list Z)) (T : tree) : tree :=
  match argv with
  | [] => T
  | a :: argv' => TSay 1 (str "sh: argv[" ++ digits i ++ str "] = '" ++ a ++ strln "'") (said digits (S i) argv' T)
  end.
Lemma behaves_print_argv digits argv : ∀ i (k : unit → prog Empty_set) σ T, behaves H (k ()) σ T →
  behaves H (print_argv digits i argv ≫= k) σ (said digits i argv T).
Proof.
  induction argv as [|a argv IH]; intros i k σ T HT; [by apply behaves_ret|]. cbn [print_argv said].
  apply behaves_bind. eapply behaves_call; [done|]. by apply IH.
Qed.

(** The descriptors 0, 1 and 2 that are not open become the console. *)
Definition console : desc := Opened (str "console") O_RDWR.
Definition filled (f : gmap Z desc) : gmap Z desc := f ∪ {[0 := console; 1 := console; 2 := console]}.

Lemma filled_lookup f j : filled f !! j = match f !! j with Some d => Some d | None => if decide (0 ≤ j < 3) then Some console else None end.
Proof.
  unfold filled. destruct (f !! j) as [d|] eqn:E; [by apply lookup_union_Some_l|]. rewrite lookup_union_r by done.
  case_decide as Hj.
  - assert (j = 0 ∨ j = 1 ∨ j = 2) as [->|[->| ->]] by lia; done.
  - rewrite !lookup_insert_ne by lia. by rewrite lookup_singleton_ne by lia.
Qed.
Lemma filled_std f : std_open (filled f).
Proof. intros j Hj. rewrite filled_lookup. destruct (f !! j); [by eexists|]. rewrite decide_True by done. by eexists. Qed.
Lemma filled_insert f n : f !! n = None → 0 ≤ n < 3 → filled (<[n := console]> f) = filled f.
Proof.
  intros En Hn. apply map_eq. intros j. rewrite !filled_lookup. destruct (decide (j = n)) as [->|].
  - rewrite lookup_insert_eq, En. by rewrite decide_True.
  - by rewrite lookup_insert_ne.
Qed.
Lemma filled_full f : 3 ≤ lowest f → filled f = f.
Proof.
  intros Hl. destruct (lowest_spec f) as (_ & _ & Hs). apply map_eq. intros j. rewrite filled_lookup.
  destruct (f !! j) as [d|] eqn:E; [done|]. case_decide; [|done]. destruct (Hs j ltac:(lia)). congruence.
Qed.

Hypothesis Hcon : can_open H (str "console") O_RDWR = true.

Lemma behaves_console m : ∀ u (k : unit → prog Empty_set) σ T, (Z.to_nat (3 - lowest (p_fds σ)) < m)%nat →
  behaves H (k ()) (set_fds (filled (p_fds σ)) σ) T → behaves H (ITree.iter (console_round O_RDWR) u ≫= k) σ T.
Proof.
  induction m as [|m IH]; intros u k σ T Hm HT; [lia|]. destruct (lowest_spec (p_fds σ)) as (En & H0 & Hlow).
  apply behaves_iter. unfold console_round at 1. apply behaves_bind.
  eapply (behaves_call _ _ _ _ _ _ id); [cbn [answer]; by rewrite Hcon|]. rewrite (proj2 (Z.leb_le _ _)) by done.
  destruct (Z.leb_spec 3 (lowest (p_fds σ))) as [H3|H3].
  - apply behaves_bind, behaves_close. intros r. apply behaves_ret. cbn [p_fds set_fds]. fold console.
    rewrite delete_insert_id by done. by rewrite filled_full in HT.
  - apply behaves_ret, behaves_tau. apply IH; cbn [p_fds set_fds]; fold console; [|by rewrite filled_insert].
    destruct (lowest_spec (<[lowest (p_fds σ) := console]> (p_fds σ))) as (En' & H0' & _).
    assert (lowest (p_fds σ) < lowest (<[lowest (p_fds σ) := console]> (p_fds σ))) as Hlt; [|lia].
    destruct (Z.lt_trichotomy (lowest (p_fds σ)) (lowest (<[lowest (p_fds σ) := console]> (p_fds σ)))) as [?|[E|Hgt]]; [done|exfalso..].
    + rewrite <- E, lookup_insert_eq in En'. done.
    + rewrite lookup_insert_ne in En' by lia. destruct (Hlow _ (conj H0' Hgt)). congruence.
Qed.

(** C16. The shell runs what its input says. Started with any descriptors, when the
    console can be opened, [main] announces its arguments, opens the console for the
    descriptors 0, 1 and 2 that are not open, and then handles its input line by line:
    [cd] changes the directory, any other line is run by a child, and the shell waits for
    it. The child parses the line; if its tokens derive a command, the processes of this
    command are made, with the redirections and pipes of the line as their descriptors
    and every other end of a pipe closed, in the order of the line, and otherwise it ends
    with an error message, after the part of the line that the parser did not reach.
    Failures of [fork], [pipe], [open] and [exec] end the process
    concerned with a message. This is the only behaviour of the program. *)
Theorem shell_correct digits argv σ :
  ∃ T0, session O_RDONLY O_WRONLY O_CREAT H (set_fds (filled (p_fds σ)) σ) T0 ∧
    ∀ T, behaves H (main O_RDONLY O_WRONLY O_RDWR O_CREAT digits argv) σ T ↔
      T = said digits 0 argv (TSay 1 (testenv (environment H (str "TEST_ENV"))) T0).
Proof.
  destruct (shell_session O_RDONLY O_WRONLY O_CREAT H (S (length (p_in σ))) (set_fds (filled (p_fds σ)) σ)) as (T0 & HS & HT0);
    [simpl; lia|apply filled_std|].
  exists T0. split; [done|]. assert (behaves H (main O_RDONLY O_WRONLY O_RDWR O_CREAT digits argv) σ
    (said digits 0 argv (TSay 1 (testenv (environment H (str "TEST_ENV"))) T0))) as HB.
  { unfold main. apply behaves_print_argv. eapply (behaves_call _ _ _ _ _ _ id); [done|]. eapply behaves_call; [done|].
    by apply (behaves_console (S (Z.to_nat (3 - lowest (p_fds σ))))); [lia|]. }
  intros T. split; [intros HT; by eapply behaves_det|by intros ->].
Qed.
End shell_main.

(** A session with a pipe and a change of directory, for a host where everything works. *)
Definition demo_host : Host := mkHost (λ _ _, true) (λ _, true) (λ _ _, true) (λ _, true) (λ _, true) (λ _, true) (λ _, None) (λ _, []) (λ _ _, 0).
Definition demo_proc : proc := mkProc [] 0 {[0 := Inherited 0; 1 := Inherited 0; 2 := Inherited 0]} (strln "cd x" ++ strln "a | b > c").
Lemma shell_correct_witness : ∃ T0, session 0 1 64 demo_host (set_fds (filled 2 (p_fds demo_proc)) demo_proc) T0 ∧
  behaves demo_host (main 0 1 2 64 (λ _, []) []) demo_proc (TSay 1 (strln "sh: testenv not found!") T0).
Proof.
  destruct (shell_correct 0 1 2 64 demo_host eq_refl (λ _, []) [] demo_proc) as (T0 & HS & HB). exists T0. split; [done|].
  by apply HB.
Defined.
(** The processes of [a | b > c]. *)
Example pipe_meaning σ : p_fds σ = {[0 := Inherited 0; 1 := Inherited 0; 2 := Inherited 0]} →
  meaning demo_host (Pipe (Exec [[97]]) (Redir (Exec [[98]]) [99] 65 1)) σ =
    TFork (TExec [97] [[97]] {[0 := Inherited 0; 1 := WriteEnd (p_id σ); 2 := Inherited 0]})
      (TFork (TExec [98] [[98]] {[0 := ReadEnd (p_id σ); 1 := Opened [99] 65; 2 := Inherited 0]}) (TWait (TWait (TExit 0)))).
Proof.
  intros E. simpl. unfold try_fork, forked, child. simpl. rewrite E.
  assert (∀ a b c : desc, <[1 := b]> ({[0 := a; 1 := a; 2 := c]} : gmap Z desc) = {[0 := a; 1 := b; 2 := c]}) as E1.
  { intros a b c. rewrite insert_insert_ne by done. by rewrite insert_insert_eq. }
  assert (∀ a b c d : desc, <[0 := d]> ({[0 := a; 1 := b; 2 := c]} : gmap Z desc) = {[0 := d; 1 := b; 2 := c]}) as E0.
  { intros. by rewrite insert_insert_eq. }
  by rewrite E1, E0.
Qed.
