(* ===== verification/UserProgs.v ===== *)
(** * cat, echo and mkdir (user/cat/main.c, user/echo/main.c, user/mkdir/main.c)

    The programs as interaction trees over the calls of Libc.v, and what they print. *)
From ITree Require Import ITree ITreeFacts.
From S2P Require Import Prelude Libc.

(** Output through stdio. *)
Definition print (text : list Z) : prog unit := call (lib_print 1 text).

(** ** cat *)
Module Cat.
Definition cat_buf : Z := 512.
Definition read_error : list Z := strln "cat: read error".
Definition cannot_open (path : list Z) : list Z := str "cat: cannot open " ++ path ++ [10].
Definition cat_round (fd : Z) (_ : unit) : prog (unit + Z) :=
  r ← call (lib_read fd cat_buf);
  if 0 <? r.1 then call (lib_write 1 r.2);; mret (inl ()) else mret (inr r.1).
Definition cat (fd : Z) : prog unit :=
  n ← ITree.iter (cat_round fd) ();
  if n <? 0 then print read_error;; exit 1 else mret ().
Fixpoint cat_files (files : list (list Z)) : prog unit :=
  match files with
  | [] => mret ()
  | path :: files' =>
      fd ← call (lib_open path 0);
      if fd <? 0 then print (cannot_open path);; exit 0
      else cat fd;; call (lib_close fd);; cat_files files'
  end.
Definition cat_main (argv : list (list Z)) : prog Empty_set :=
  if (length argv <=? 1)%nat then cat 0;; exit 0
  else cat_files (drop 1 argv);; exit 0.
End Cat.

(** ** echo *)
Module Echo.
Definition copy_round (_ : unit) : prog (unit + unit) :=
  r ← call (lib_gets 512);
  match r with
  | Some s => print (chars s);; mret (inl ())
  | None => mret (inr ())
  end.
Fixpoint print_args (args : list (list Z)) : prog unit :=
  match args with
  | [] => mret ()
  | a :: args' =>
      print a;;
      match args' with [] => mret () | _ :: _ => print [32] end;;
      print_args args'
  end.
Definition is_n (a : list Z) : bool := bool_decide (a = str "-n").
(** Without even a name for the program, [*++argv] is outside of the array. *)
Definition echo_main (argv : list (list Z)) : prog Empty_set :=
  match argv with
  | [] => stuck
  | [_] => ITree.iter copy_round ();; exit 0
  | _ :: a :: args =>
      let nflag := is_n a in
      print_args (if nflag then args else a :: args);;
      (if negb nflag then print [10] else mret ());;
      exit 0
  end.
End Echo.

(** ** mkdir *)
Module Mkdir.
Definition usage : list Z := strln "Usage: mkdir files...".
Definition failed (path : list Z) : list Z := str "mkdir: " ++ path ++ strln " failed to create".
Fixpoint make_all (paths : list (list Z)) : prog unit :=
  match paths with
  | [] => mret ()
  | path :: paths' =>
      r ← call (lib_mkdir path);
      if r <? 0 then print (failed path) else make_all paths'
  end.
Definition mkdir_main (argv : list (list Z)) : prog Empty_set :=
  if (length argv <? 2)%nat then print usage;; exit 1
  else make_all (drop 1 argv);; exit 0.
End Mkdir.

(** ** What a process prints and creates, and its status *)
Fixpoint output (T : tree) : list Z :=
  match T with
  | TSay fd text T' => (if fd =? 1 then text else []) ++ output T'
  | TWait T' | TChdir _ T' | TMake _ T' => output T'
  | _ => []
  end.
Fixpoint created (T : tree) : list (list Z) :=
  match T with
  | TMake path T' => path :: created T'
  | TSay _ _ T' | TWait T' | TChdir _ T' => created T'
  | _ => []
  end.
Fixpoint status (T : tree) : option Z :=
  match T with
  | TExit code => Some code
  | TSay _ _ T' | TWait T' | TChdir _ T' | TMake _ T' => status T'
  | _ => None
  end.

Section programs.
Context (H : Host).

(** [prints t σ σ' out]: run in [σ], the part [t] of a program prints [out] and goes on
    in [σ']. *)
Definition prints {A} (t : prog A) (σ : proc) (a : A) (σ' : proc) (out : list Z) : Prop :=
  ∀ (k : A → prog Empty_set) T, behaves H (k a) σ' T →
    ∃ T', behaves H (t ≫= k) σ T' ∧ output T' = out ++ output T ∧ status T' = status T ∧ created T' = created T.

Lemma prints_ret {A} (a : A) σ : prints (mret a) σ a σ [].
Proof. intros k T HT. exists T. split; [by apply behaves_ret|done]. Qed.
Lemma prints_bind {A B} (t : prog A) (f : A → prog B) σ a σ1 o1 b σ2 o2 :
  prints t σ a σ1 o1 → prints (f a) σ1 b σ2 o2 → prints (t ≫= f) σ b σ2 (o1 ++ o2).
Proof.
  intros H1 H2 k T HT. destruct (H2 k T HT) as (T1 & B1 & O1 & S1 & C1).
  destruct (H1 (λ a, f a ≫= k) T1 B1) as (T2 & B2 & O2 & S2 & C2). exists T2. split; [by apply behaves_bind|].
  rewrite O2, O1, app_assoc, S2, C2. done.
Qed.
Lemma prints_silent {A} (e : libE A) σ a σ' : answer H e σ = Some (a, σ', id) → prints (call e) σ a σ' [].
Proof. intros E k T HT. exists T. split; [|done]. by eapply (behaves_call _ _ _ _ _ _ id). Qed.
Lemma prints_text {A} (e : libE A) σ a σ' text : answer H e σ = Some (a, σ', TSay 1 text) → prints (call e) σ a σ' text.
Proof. intros E k T HT. exists (TSay 1 text T). split; [|done]. by eapply (behaves_call _ _ _ _ _ _ (TSay 1 text)). Qed.
Lemma prints_iter {I R} (body : I → prog (I + R)) i σ j σ1 o1 r σ2 o2 :
  prints (body i) σ (inl j) σ1 o1 → prints (ITree.iter body j) σ1 r σ2 o2 → prints (ITree.iter body i) σ r σ2 (o1 ++ o2).
Proof.
  intros H1 H2 k T HT. destruct (H2 k T HT) as (T1 & B1 & O1 & S1 & C1).
  destruct (H1 (λ r, match r with inl j => Tau (ITree.iter body j ≫= k) | inr v => k v end) T1) as (T2 & B2 & O2 & S2 & C2);
    [by apply behaves_tau|].
  exists T2. split; [by apply behaves_iter|]. rewrite O2, O1, app_assoc, S2, C2. done.
Qed.
Lemma prints_iter_end {I R} (body : I → prog (I + R)) i σ r σ' o :
  prints (body i) σ (inr r) σ' o → prints (ITree.iter body i) σ r σ' o.
Proof.
  intros H1 k T HT. destruct (H1 (λ r, match r with inl j => Tau (ITree.iter body j ≫= k) | inr v => k v end) T HT) as (T2 & B2 & Hr).
  exists T2. split; [by apply behaves_iter|done].
Qed.
Lemma prints_exit t σ σ' out code : prints t σ () σ' out →
  ∃ T, behaves H (t;; exit code) σ T ∧ output T = out ∧ status T = Some code ∧ created T = [].
Proof.
  intros Ht. destruct (Ht (λ _, exit code) (TExit code) (behaves_exit_end _ _ _)) as (T & HT & HO & Hs & Hc).
  exists T. rewrite HO, app_nil_r. done.
Qed.

(** *** cat *)
Section cat.
Context (Hread : ∀ fd l, 0 ≤ read_len H fd l).

Lemma read_from_nil fd n : read_from H fd n [] = (0, []).
Proof. unfold read_from. rewrite (proj2 (Z.ltb_ge _ _)) by auto. by rewrite take_nil. Qed.
Lemma read_from_some fd n l : l ≠ [] → ∃ k, read_from H fd n l = (Z.of_nat k, take k l) ∧ (0 < k ≤ length l)%nat.
Proof.
  intros Hl. unfold read_from. rewrite (proj2 (Z.ltb_ge _ _)) by auto. set (m := Z.to_nat _).
  assert (1 ≤ m)%nat by (unfold m; lia). assert (1 ≤ length l)%nat by (destruct l; [done|simpl; lia]).
  exists (length (take m l)). rewrite length_take. split; [|lia]. cbv zeta. f_equal.
  destruct (Nat.min_spec m (length l)) as [[_ ->]|[? ->]]; [done|]. by rewrite !take_ge by lia.
Qed.

(** A descriptor to read from: [left x] are the bytes that are left in the state [st x]. *)
Lemma cat_prints {X} (st : X → proc) (left : X → list Z) (adv : X → nat → X) fd :
  (∀ x n, answer H (lib_read fd n) (st x) = Some (read_from H fd n (left x), st (adv x (length (read_from H fd n (left x)).2)), id)) →
  (∀ x k, left (adv x k) = drop k (left x)) →
  ∀ x, ∃ x', prints (Cat.cat fd) (st x) () (st x') (left x).
Proof.
  intros Ha Hadv.
  assert (∀ n x, (length (left x) ≤ n)%nat → ∃ x', prints (ITree.iter (Cat.cat_round fd) ()) (st x) 0 (st x') (left x)) as Hloop.
  { induction n as [|n IH]; intros x Hn; destruct (decide (left x = [])) as [El|El].
    1,3: exists (adv x 0%nat); apply prints_iter_end; rewrite El; apply (prints_bind _ _ _ (0, []) (st (adv x 0%nat)) [] _ _ []);
      [apply prints_silent; by rewrite Ha, El, read_from_nil|apply prints_ret].
    { destruct (left x); [done|simpl in Hn; lia]. }
    destruct (read_from_some fd Cat.cat_buf (left x) El) as (k & Er & Hk).
    destruct (IH (adv x k)) as (x' & HI); [rewrite Hadv, length_drop; lia|]. exists x'.
    rewrite <- (take_drop k (left x)), <- Hadv. eapply prints_iter; [|exact HI].
    apply (prints_bind _ _ _ (Z.of_nat k, take k (left x)) (st (adv x k)) [] _ _ (take k (left x))).
    - apply prints_silent. rewrite Ha, Er. cbn [snd]. by rewrite length_take, Nat.min_l by lia.
    - cbn [fst snd]. rewrite (proj2 (Z.ltb_lt _ _)) by lia. rewrite <- (app_nil_r (take k (left x))) at 2.
      eapply prints_bind; [by apply prints_text|apply prints_ret]. }
  intros x. destruct (Hloop _ x (Nat.le_refl _)) as (x' & HI). exists x'. rewrite <- (app_nil_r (left x)).
  eapply prints_bind; [exact HI|]. cbn [Z.ltb Z.compare]. apply prints_ret.
Qed.

(** What [cat] prints for its arguments: the files, up to the first that cannot be opened. *)
Fixpoint files_text (files : list (list Z)) : list Z :=
  match files with
  | [] => []
  | path :: files' => if can_open H path 0 then contents H path ++ files_text files' else Cat.cannot_open path
  end.

Lemma cat_files_text files σ :
  ∃ T, behaves H (Cat.cat_files files;; exit 0) σ T ∧ output T = files_text files ∧ status T = Some 0.
Proof.
  revert σ. induction files as [|path files IH]; intros σ.
  { exists (TExit 0). split; [|done]. apply behaves_ret, behaves_exit_end. }
  cbn [Cat.cat_files files_text]. destruct (can_open H path 0) eqn:Eo.
  - set (fd := lowest (p_fds σ)). assert (0 ≤ fd) as Hfd by apply lowest_spec.
    set (st k := set_fds (<[fd := File path 0 k]> (p_fds σ)) σ).
    destruct (cat_prints st (λ k, drop k (contents H path)) (λ k n, k + n)%nat fd) with (x := 0%nat) as (k' & Hc).
    { intros k n. cbn [answer st p_fds set_fds]. rewrite lookup_insert_eq. unfold st, set_fds. cbn. by rewrite insert_insert_eq. }
    { intros k n. by rewrite drop_drop. }
    destruct (IH (set_fds (delete fd (p_fds (st k'))) (st k'))) as (T & HT & HO & HS).
    destruct (Hc (λ _, call (lib_close fd) ≫= λ _, Cat.cat_files files ≫= λ _, exit 0) T) as (T' & HT' & HO' & HS' & _).
    { by eapply (behaves_call _ _ _ _ _ _ id). }
    exists T'. split; [|by rewrite HO', HO, HS', drop_0]. apply behaves_bind.
    eapply (behaves_call _ _ _ _ _ _ id); [cbn [answer]; by rewrite Eo|]. fold fd. rewrite (proj2 (Z.ltb_ge _ _)) by done.
    apply behaves_bind. refine (proj1 (behaves_proper H _ _ _ _ _ eq_refl _ _ eq_refl) HT').
    unfold mbind, itree_bind. apply eqit_bind; [done|]. intros []. by rewrite bind_bind.
  - exists (TSay 1 (Cat.cannot_open path) (TExit 0)). split; [|by simpl; rewrite app_nil_r]. apply behaves_bind.
    eapply (behaves_call _ _ _ _ _ _ id); [cbn [answer]; by rewrite Eo|]. cbn [Z.ltb Z.compare].
    apply behaves_bind. eapply behaves_call; [done|]. apply behaves_exit.
Qed.
End cat.

(** [cat] prints its files one after the other, or its input without arguments, in
    whatever pieces the reads return them; a file that cannot be opened ends it, still with
    status 0. *)
Theorem cat_correct σ name files : (∀ fd l, 0 ≤ read_len H fd l) →
  (files = [] → p_fds σ !! 0 = Some (Inherited 0)) →
  ∃ T, behaves H (Cat.cat_main (name :: files)) σ T ∧ status T = Some 0 ∧
    output T = match files with [] => p_in σ | _ :: _ => files_text files end.
Proof.
  intros Hread H0. destruct files as [|path files].
  - destruct (cat_prints Hread (λ i, set_in i σ) id (λ i k, drop k i) 0) with (x := p_in σ) as (x' & Hc); [|done|].
    { intros i n. cbn [answer p_fds set_in]. by rewrite H0. }
    destruct (prints_exit (Cat.cat 0) σ (set_in x' σ) (p_in σ) 0) as (T & HT & HO & HS & _); [|by exists T].
    by replace σ with (set_in (p_in σ) σ) at 1 by (by destruct σ).
  - destruct (cat_files_text Hread (path :: files) σ) as (T & HT & HO & HS). exists T. by split_and!.
Qed.

(** *** echo *)
Lemma line_of_prefix n i : take (length (line_of n i)) i = line_of n i.
Proof. revert i. induction n as [|n IH]; intros [|c i]; try done. cbn [line_of]. case_match; [done|]. simpl. by rewrite IH. Qed.
Lemma line_of_some n c i : line_of (S n) (c :: i) ≠ [].
Proof. cbn [line_of]. by case_match. Qed.
Lemma chars_text l : 0 ∉ l → chars l = l.
Proof.
  intros Hl. unfold chars. replace (list_find (λ c, c = 0) l) with (@None (nat * Z)); [by simpl; rewrite firstn_all|].
  symmetry. apply list_find_None, Forall_forall. intros x Hx ->. done.
Qed.
Lemma copy_prints n : ∀ σ, (length (p_in σ) ≤ n)%nat → 0 ∉ p_in σ →
  prints (ITree.iter Echo.copy_round ()) σ () (set_in [] σ) (p_in σ).
Proof.
  induction n as [|n IH]; intros σ Hn Hz; destruct (p_in σ) as [|c i] eqn:Ei; try (simpl in Hn; lia).
  1,2: apply prints_iter_end; apply (prints_bind _ _ σ None (set_in [] σ) [] _ _ []);
    [apply prints_silent; cbn [answer]; rewrite Ei; by destruct σ; simplify_eq/=|apply prints_ret].
  set (l := line_of 511 (c :: i)). pose proof (line_of_prefix 511 (c :: i)) as Hl. fold l in Hl.
  assert (l ≠ []) as Hne by apply line_of_some. assert (0 ∉ l) as Hzl. { intros Hin. apply Hz. rewrite <- (take_drop (length l) (c :: i)), Hl. apply elem_of_app. by left. }
  set (σ1 := set_in (drop (length l) (c :: i)) σ).
  assert (prints (ITree.iter Echo.copy_round ()) σ1 () (set_in [] σ1) (p_in σ1)) as HI.
  { apply IH; cbn [σ1 p_in set_in].
    - rewrite length_drop. assert (1 ≤ length l)%nat by (destruct l; [done|simpl; lia]). simpl in Hn |- *. lia.
    - intros Hin. apply Hz. rewrite <- (take_drop (length l) (c :: i)). apply elem_of_app. by right. }
  rewrite <- (take_drop (length l) (c :: i)), Hl. eapply prints_iter; [|exact HI].
  apply (prints_bind _ _ σ (Some l) σ1 [] _ _ l); [apply prints_silent; cbn [answer]; by rewrite Ei|].
  replace (prints _ σ1 _ σ1 l) with (prints (print (chars l);; mret (inl () : unit + unit)) σ1 (inl ()) σ1 (chars l ++ [])) by (by rewrite app_nil_r, chars_text). eapply prints_bind; [by apply prints_text|apply prints_ret].
Qed.

Fixpoint spaced (args : list (list Z)) : list Z :=
  match args with
  | [] => []
  | a :: args' => a ++ match args' with [] => [] | _ :: _ => [32] end ++ spaced args'
  end.
Lemma args_prints args σ : prints (Echo.print_args args) σ () σ (spaced args).
Proof.
  induction args as [|a args IH]; [apply prints_ret|]. eapply prints_bind; [by apply prints_text|].
  eapply prints_bind; [|exact IH]. destruct args; [apply prints_ret|by apply prints_text].
Qed.
(** [echo] prints its arguments, separated by spaces, and a newline unless the first one is
    -n; without arguments it copies its input, line by line. *)
Theorem echo_correct σ name args : 0 ∉ p_in σ →
  ∃ T, behaves H (Echo.echo_main (name :: args)) σ T ∧ status T = Some 0 ∧
    output T = match args with
               | [] => p_in σ
               | a :: args' => if Echo.is_n a then spaced args' else spaced args ++ [10]
               end.
Proof.
  intros Hz. destruct args as [|a args].
  - destruct (prints_exit (ITree.iter Echo.copy_round ()) σ (set_in [] σ) (p_in σ) 0) as (T & HT & HO & HS & _); [by eapply copy_prints|by exists T].
  - cbn [Echo.echo_main]. destruct (Echo.is_n a); cbn [negb].
    + destruct (args_prints args σ (λ _, mret ();; exit 0) (TExit 0)) as (T & HT & HO & HS & _); [apply behaves_ret, behaves_exit_end|].
      exists T. by rewrite HO, app_nil_r.
    + destruct (args_prints (a :: args) σ (λ _, print [10];; exit 0) (TSay 1 [10] (TExit 0))) as (T & HT & HO & HS & _).
      { eapply behaves_call; [done|]. apply behaves_exit_end. }
      exists T. by rewrite HO.
Qed.

(** *** mkdir *)
Definition made (paths : list (list Z)) : list (list Z) * list Z :=
  match list_find (λ p, can_make H p = false) paths with
  | Some (i, p) => (take (S i) paths, Mkdir.failed p)
  | None => (paths, [])
  end.
(** [mkdir] creates its arguments in order, up to the first that fails, which it reports;
    the status is 0 in either case. *)
Theorem mkdir_correct σ name paths :
  ∃ T, behaves H (Mkdir.mkdir_main (name :: paths)) σ T ∧
    match paths with
    | [] => created T = [] ∧ output T = Mkdir.usage ∧ status T = Some 1
    | _ :: _ => created T = (made paths).1 ∧ output T = (made paths).2 ∧ status T = Some 0
    end.
Proof.
  destruct paths as [|p0 paths0].
  { exists (TSay 1 Mkdir.usage (TExit 1)). split; [|done]. eapply behaves_call; [done|]. apply behaves_exit_end. }
  change (Mkdir.mkdir_main (name :: p0 :: paths0)) with ((Mkdir.make_all (p0 :: paths0);; exit 0) : prog Empty_set).
  generalize (p0 :: paths0) as paths. clear. induction paths as [|p paths IH].
  { exists (TExit 0). split; [apply behaves_ret, behaves_exit_end|done]. }
  cbn [Mkdir.make_all]. unfold made. cbn [list_find]. destruct (can_make H p) eqn:Em.
  - rewrite decide_False by done. destruct IH as (T & HT & HC & HO & HS). exists (TMake p T). split.
    + apply behaves_bind. eapply behaves_call; [cbn [answer]; by rewrite Em|]. exact HT.
    + cbn [created output status]. rewrite HC, HO. unfold made. destruct (list_find _ _) as [[i q]|]; done.
  - rewrite decide_True by done. exists (TMake p (TSay 1 (Mkdir.failed p) (TExit 0))). split.
    + apply behaves_bind. eapply behaves_call; [cbn [answer]; by rewrite Em|].
      eapply behaves_call; [done|]. apply behaves_exit_end.
    + by simpl; rewrite app_nil_r.
Qed.
End programs.
