(* ===== verification/Buf.v ===== *)
(** * The request queue of the SD driver (driver/buf.c, driver/buf.h)

    The queue is threaded through the buffers by [Next] and [Prev]; the buffers live
    in a map from addresses, the null pointer is 0. [qrep q m L] says that the queue
    is the list [L] of buffers; [push], [pop] and [front] are the operations of a
    first-in first-out queue on that list. *)
From S2P Require Import Prelude.

Definition BSIZE : Z := 512.
Definition B_VALID : Z := 2.
Definition B_DIRTY : Z := 4.

Record Buf := mkBuf {
  b_flags : Z;
  b_blockno : Z;
  b_data : list Z;
  b_prev : Z;
  b_next : Z
}.
Definition with_flags (f : Z) (b : Buf) : Buf := mkBuf f (b_blockno b) (b_data b) (b_prev b) (b_next b).
Definition with_data (d : list Z) (b : Buf) : Buf := mkBuf (b_flags b) (b_blockno b) d (b_prev b) (b_next b).
Definition with_prev (p : Z) (b : Buf) : Buf := mkBuf (b_flags b) (b_blockno b) (b_data b) p (b_next b).
Definition with_next (p : Z) (b : Buf) : Buf := mkBuf (b_flags b) (b_blockno b) (b_data b) (b_prev b) p.

Record bufQueue := mkQueue { q_begin : Z; q_end : Z; q_sz : Z }.

(** The queue and the buffers. *)
Record Bufs := mkBufs { bq_que : bufQueue; bq_mem : gmap Z Buf }.
Definition set_que (q : bufQueue) (s : Bufs) : Bufs := mkBufs q (bq_mem s).
Definition set_bufs (m : gmap Z Buf) (s : Bufs) : Bufs := mkBufs (bq_que s) m.

Definition get_buf (p : Z) : M Bufs Buf := m ← gets bq_mem; derefM (m !! p).
Definition upd_buf (p : Z) (f : Buf → Buf) : M Bufs unit :=
  b ← get_buf p; modify (λ s, set_bufs (<[p := f b]> (bq_mem s)) s).

Definition initBufQueue : M Bufs unit := modify (set_que (mkQueue NULL NULL 0)).
Definition push (y : Z) : M Bufs unit :=
  x ← gets bq_que;
  if q_sz x =? 0 then modify (set_que (mkQueue y y 1))
  else
    upd_buf (q_end x) (with_next y);;
    upd_buf y (with_prev (q_end x));;
    modify (set_que (mkQueue (q_begin x) y (i32 (q_sz x + 1)))).
Definition pop : M Bufs unit :=
  x ← gets bq_que;
  if q_sz x =? 0 then panic "EMPTY"
  else if q_sz x =? 1 then modify (set_que (mkQueue NULL NULL 0))
  else
    b ← get_buf (q_begin x);
    upd_buf (b_next b) (with_prev NULL);;
    modify (set_que (mkQueue (b_next b) (q_end x) (i32 (q_sz x - 1)))).
Definition front : M Bufs Z :=
  x ← gets bq_que; if q_sz x =? 0 then panic "EMPTY" else mret (q_begin x).
Definition back : M Bufs Z :=
  x ← gets bq_que; if q_sz x =? 0 then panic "EMPTY" else mret (q_end x).
Definition empty : M Bufs bool := x ← gets bq_que; mret (q_sz x =? 0).

(** ** The list of the queue *)

(** [Next] leads from each buffer of the list to the one after it. *)
Fixpoint linked (m : gmap Z Buf) (L : list Z) : Prop :=
  match L with
  | [] => True
  | p :: L' => is_Some (m !! p) ∧ match L' with [] => True | q :: _ => b_next <$> m !! p = Some q end ∧ linked m L'
  end.
Record qrep (s : Bufs) (L : list Z) : Prop := {
  qr_linked : linked (bq_mem s) L;
  qr_nodup : NoDup L;
  qr_sz : q_sz (bq_que s) = Z.of_nat (length L);
  qr_max : Z.of_nat (length L) < 2 ^ 31 - 1;
  qr_begin : ∀ p, head L = Some p → q_begin (bq_que s) = p;
  qr_end : ∀ p, last L = Some p → q_end (bq_que s) = p
}.

(** The request of a buffer, which the queue operations leave alone. *)
Definition request (b : Buf) : Z * Z * list Z := (b_flags b, b_blockno b, b_data b).
Definition same_requests (m m' : gmap Z Buf) : Prop := ∀ p, request <$> m' !! p = request <$> m !! p.

Lemma same_requests_trans m1 m2 m3 : same_requests m1 m2 → same_requests m2 m3 → same_requests m1 m3.
Proof. intros H1 H2 p. by rewrite H2, H1. Qed.
Lemma get_buf_Ok s p b : bq_mem s !! p = Some b → get_buf p s = Ok b s.
Proof. intros H. unfold get_buf. erewrite bind_Ok by done. by rewrite H. Qed.
Lemma upd_buf_Ok s p b f : bq_mem s !! p = Some b → upd_buf p f s = Ok () (set_bufs (<[p := f b]> (bq_mem s)) s).
Proof. intros H. unfold upd_buf. by erewrite bind_Ok by (by apply get_buf_Ok). Qed.
Lemma insert_request (m : gmap Z Buf) p b b' : m !! p = Some b → request b' = request b → same_requests m (<[p := b']> m).
Proof.
  intros H E q. destruct (decide (q = p)) as [->|]; [rewrite lookup_insert_eq, H; simpl; by rewrite E|by rewrite lookup_insert_ne].
Qed.
Lemma linked_ext m m' L : (∀ p, p ∈ L → b_next <$> m' !! p = b_next <$> m !! p) → linked m L → linked m' L.
Proof.
  induction L as [|p L IH]; intros H; [done|]. intros (Hp & Hn & HL). simpl. pose proof (H p ltac:(set_solver)) as E. split_and!.
  - apply fmap_is_Some with (f := b_next). rewrite E. by apply fmap_is_Some.
  - destruct L; [done|]. by rewrite E.
  - apply IH; [|done]. intros q Hq. apply H. set_solver.
Qed.
Lemma linked_elem m L p : linked m L → p ∈ L → is_Some (m !! p).
Proof. induction L as [|q L IH]; [set_solver|]. intros (Hq & _ & HL) [->|Hp]%elem_of_cons; auto. Qed.
Lemma linked_snoc m L e y : linked m (L ++ [e]) → is_Some (m !! y) → b_next <$> m !! e = Some y → linked m (L ++ [e; y]).
Proof.
  induction L as [|p L IH]; simpl.
  - intros (He & _) Hy E. split_and!; try done; exact Hy.
  - intros (Hp & Hn & HL) Hy E. split_and!; [done|by destruct L|by apply IH].
Qed.

Lemma push_Ok s L y : qrep s L → is_Some (bq_mem s !! y) → y ∉ L → Z.of_nat (length L) + 1 < 2 ^ 31 - 1 →
  ∃ s', push y s = Ok () s' ∧ qrep s' (L ++ [y]) ∧ same_requests (bq_mem s) (bq_mem s').
Proof.
  intros [Hl Hnd Hsz Hmax Hb He] [b Hy] Hin Hlen. unfold push. erewrite bind_Ok by done. rewrite Hsz.
  assert (Hnd' : NoDup (L ++ [y])) by (apply NoDup_app; split_and!; [done|set_solver|by apply NoDup_singleton]).
  destruct L as [|e L _] using rev_ind.
  { eexists. split; [done|]. split; [|done]. constructor; simpl; [by rewrite Hy|done|done|lia|by intros ? [= <-]|by intros ? [= <-]]. }
  rewrite length_app in *. simpl in *. rewrite (proj2 (Z.eqb_neq _ _)) by lia. rewrite (He e) by (by rewrite last_snoc).
  destruct (linked_elem _ _ e Hl) as [be Hbe]; [set_solver|]. erewrite bind_Ok by (by apply upd_buf_Ok).
  assert (Hne : y ≠ e) by set_solver.
  erewrite bind_Ok by (apply upd_buf_Ok; simpl; by rewrite lookup_insert_ne). eexists. split; [done|]. simpl.
  set (m' := <[y := _]> (<[e := _]> (bq_mem s))).
  assert (Hn : ∀ p, p ≠ e → b_next <$> m' !! p = b_next <$> bq_mem s !! p).
  { intros p Hp. unfold m'. destruct (decide (p = y)) as [->|]; [by rewrite lookup_insert_eq, Hy|by rewrite !lookup_insert_ne]. }
  split; [constructor; simpl|].
  - rewrite <- app_assoc. simpl. apply linked_snoc.
    + clear Hnd' Hmax Hb He Hlen Hsz. induction L as [|p L IH]; simpl in *; [split_and!; [|done|done]; unfold m'; rewrite lookup_insert_ne by done; by rewrite lookup_insert_eq|].
      apply NoDup_cons in Hnd as [Hp Hnd]. destruct Hl as (H1 & H2 & H3). pose proof (Hn p ltac:(set_solver)) as E. split_and!.
      * apply fmap_is_Some with (f := b_next). rewrite E. by apply fmap_is_Some.
      * destruct L; simpl in *; by rewrite E.
      * apply IH; [done|done|set_solver].
    + unfold m'. by rewrite lookup_insert_eq.
    + unfold m'. rewrite lookup_insert_ne by done. by rewrite lookup_insert_eq.
  - done.
  - rewrite !length_app. simpl. unfold i32, swrap. rewrite Z.mod_small by lia. lia.
  - rewrite !length_app. simpl. lia.
  - intros p Hp. apply Hb. by destruct L.
  - intros p. rewrite last_snoc. by intros [= <-].
  - eapply same_requests_trans; [by apply (insert_request _ e be (with_next y be))|]. apply (insert_request _ y b); [by rewrite lookup_insert_ne|done].
Qed.

Lemma pop_Ok s p L : qrep s (p :: L) → ∃ s', pop s = Ok () s' ∧ qrep s' L ∧ same_requests (bq_mem s) (bq_mem s').
Proof.
  intros [Hl Hnd Hsz Hmax Hb He]. unfold pop. erewrite bind_Ok by done. rewrite Hsz. apply NoDup_cons in Hnd as [Hp Hnd]. destruct L as [|q L].
  { simpl. eexists. split; [done|]. split; [|done]. constructor; simpl; done. }
  rewrite !length_cons, (proj2 (Z.eqb_neq (Z.of_nat _) 0)), (proj2 (Z.eqb_neq (Z.of_nat _) 1)) by lia. rewrite (Hb p) by done.
  destruct Hl as ([b Eb] & Hn & Hl). rewrite Eb in Hn. injection Hn as Hn. erewrite bind_Ok by (by apply get_buf_Ok). rewrite Hn.
  destruct (linked_elem _ _ q Hl) as [bq Eq]; [set_solver|]. erewrite bind_Ok by (by apply upd_buf_Ok). eexists. split; [done|].
  split; [|by apply (insert_request _ q bq)]. simpl in Hmax. constructor.
  - eapply linked_ext; [|exact Hl]. intros x _. destruct (decide (x = q)) as [->|]; [simpl; by rewrite lookup_insert_eq, Eq|simpl; by rewrite lookup_insert_ne].
  - done.
  - simpl. unfold i32, swrap. rewrite Z.mod_small by lia. lia.
  - simpl. lia.
  - by intros ? [= <-].
  - intros x Hx. apply He. simpl. by destruct L.
Qed.
Lemma front_Ok s p L : qrep s (p :: L) → front s = Ok p s.
Proof.
  intros [Hl Hnd Hsz Hmax Hb He]. unfold front. erewrite bind_Ok by done. rewrite Hsz.
  rewrite length_cons, (proj2 (Z.eqb_neq (Z.of_nat _) 0)) by lia. by rewrite (Hb p).
Qed.
Lemma empty_Ok s L : qrep s L → empty s = Ok (bool_decide (L = [])) s.
Proof. intros H. unfold empty. erewrite bind_Ok by done. rewrite (qr_sz _ _ H). by destruct L. Qed.
