(* ===== verification/Sd.v ===== *)
(** * The SD card driver (driver/sd.c, fs/block_device.c)

    The registers of the EMMC controller and of the GPIO block are an interface: a
    device of type [D] answers reads and takes writes, and both may change it. The
    delays between two accesses are not visible to the program. [printf] reads the
    registers it prints and has no other effect here. *)
From S2P Require Import Prelude Locks Buf.

(** ** Registers *)

Inductive reg :=
| EMMC_ARG2 | EMMC_BLKSIZECNT | EMMC_ARG1 | EMMC_CMDTM | EMMC_RESP0 | EMMC_RESP1 | EMMC_RESP2 | EMMC_RESP3
| EMMC_DATA | EMMC_STATUS | EMMC_CONTROL0 | EMMC_CONTROL1 | EMMC_INTERRUPT | EMMC_IRPT_MASK | EMMC_IRPT_EN
| EMMC_CONTROL2 | EMMC_SLOTISR_VER
| GPFSEL4 | GPFSEL5 | GPPUD | GPPUDCLK1 | GPHEN1 | GPEDS1.

Class Emmc (D : Type) := {
  mmio_read : reg → M D Z;
  mmio_write : reg → Z → M D unit;
  mbox_get_clock_rate : Z → M D Z
}.

Definition CMD_IS_DATA : Z := 0x00200000.
Definition CMD_RSPNS_NO : Z := 0.
Definition CMD_RSPNS_136 : Z := 0x00010000.
Definition CMD_RSPNS_48 : Z := 0x00020000.
Definition CMD_RSPNS_48B : Z := 0x00030000.
Definition TM_MULTI_BLOCK : Z := 0x00000020.
Definition TM_DAT_DIR_HC : Z := 0.
Definition TM_DAT_DIR_CH : Z := 0x00000010.
Definition TM_BLKCNT_EN : Z := 0x00000002.
Definition TM_MULTI_DATA : Z := Z.lor (Z.lor CMD_IS_DATA TM_MULTI_BLOCK) TM_BLKCNT_EN.

Definition INT_AUTO_ERROR : Z := 0x01000000.
Definition INT_DATA_END_ERR : Z := 0x00400000.
Definition INT_DATA_CRC_ERR : Z := 0x00200000.
Definition INT_DATA_TIMEOUT : Z := 0x00100000.
Definition INT_INDEX_ERROR : Z := 0x00080000.
Definition INT_END_ERROR : Z := 0x00040000.
Definition INT_CRC_ERROR : Z := 0x00020000.
Definition INT_CMD_TIMEOUT : Z := 0x00010000.
Definition INT_ERR : Z := 0x00008000.
Definition INT_READ_RDY : Z := 0x20.
Definition INT_WRITE_RDY : Z := 0x10.
Definition INT_DATA_DONE : Z := 0x2.
Definition INT_CMD_DONE : Z := 0x1.
Definition INT_ERROR_MASK : Z :=
  foldr Z.lor 0 [INT_CRC_ERROR; INT_END_ERROR; INT_INDEX_ERROR; INT_DATA_TIMEOUT; INT_DATA_CRC_ERR; INT_DATA_END_ERR; INT_ERR; INT_AUTO_ERROR].

Definition C0_HCTL_DWITDH : Z := 0x2.
Definition C1_SRST_HC : Z := 0x01000000.
Definition C1_TOUNIT_MAX : Z := 0x000e0000.
Definition C1_CLK_EN : Z := 0x4.
Definition C1_CLK_STABLE : Z := 0x2.
Definition C1_CLK_INTLEN : Z := 0x1.
Definition FREQ_SETUP : Z := 400000.
Definition FREQ_NORMAL : Z := 25000000.
Definition HOST_SPEC_NUM : Z := 0x00ff0000.
Definition HOST_SPEC_NUM_SHIFT : Z := 16.
Definition HOST_SPEC_V2 : Z := 1.
Definition SR_READ_AVAILABLE : Z := 0x800.
Definition SR_DAT_INHIBIT : Z := 0x2.
Definition SR_CMD_INHIBIT : Z := 0x1.
Definition ACMD41_HCS : Z := 0x40000000.
Definition ACMD41_SDXC_POWER : Z := 0x10000000.
Definition ACMD41_S18R : Z := 0x01000000.
Definition ACMD41_VOLTAGE : Z := 0x00ff8000.
Definition ACMD41_ARG_HC : Z := foldr Z.lor 0 [ACMD41_HCS; ACMD41_SDXC_POWER; ACMD41_VOLTAGE; ACMD41_S18R].
Definition ACMD41_ARG_SC : Z := Z.lor ACMD41_VOLTAGE ACMD41_S18R.
Definition ST_CARD_STATE : Z := 0x1e00.
Definition ST_APP_CMD : Z := 0x20.
Definition R1_CARD_STATE_SHIFT : Z := 9.
Definition R1_ERRORS_MASK : Z := 0xfff9c004.
Definition R3_COMPLETE : Z := 0x80000000.
Definition R3_CCS : Z := 0x40000000.
Definition R3_S18A : Z := 0x01000000.
Definition R6_RCA_MASK : Z := 0xffff0000.

(** ** Commands *)

(** The response types, with RESP_R1 and RESP_R1b, RESP_R2I and RESP_R2S apart. *)
Inductive resp_type := RESP_NO | RESP_R1 | RESP_R1b | RESP_R2I | RESP_R2S | RESP_R3 | RESP_R6 | RESP_R7.
Inductive rca_type := RCA_NO | RCA_YES.
Record EMMCCommand := mkCommand {
  cmd_name : string;
  cmd_code : Z;
  cmd_resp : resp_type;
  cmd_rca : rca_type;
  cmd_delay : Z
}.
Definition sdCommandTable : list EMMCCommand :=
  let c name code resp rca delay := mkCommand name (foldr Z.lor 0 code) resp rca delay in [
  c "GO_IDLE_STATE" [0x00000000; CMD_RSPNS_NO] RESP_NO RCA_NO 0;
  c "ALL_SEND_CID" [0x02000000; CMD_RSPNS_136] RESP_R2I RCA_NO 0;
  c "SEND_REL_ADDR" [0x03000000; CMD_RSPNS_48] RESP_R6 RCA_NO 0;
  c "SET_DSR" [0x04000000; CMD_RSPNS_NO] RESP_NO RCA_NO 0;
  c "SWITCH_FUNC" [0x06000000; CMD_RSPNS_48] RESP_R1 RCA_NO 0;
  c "CARD_SELECT" [0x07000000; CMD_RSPNS_48B] RESP_R1b RCA_YES 0;
  c "SEND_IF_COND" [0x08000000; CMD_RSPNS_48] RESP_R7 RCA_NO 100;
  c "SEND_CSD" [0x09000000; CMD_RSPNS_136] RESP_R2S RCA_YES 0;
  c "SEND_CID" [0x0A000000; CMD_RSPNS_136] RESP_R2I RCA_YES 0;
  c "VOLT_SWITCH" [0x0B000000; CMD_RSPNS_48] RESP_R1 RCA_NO 0;
  c "STOP_TRANS" [0x0C000000; CMD_RSPNS_48B] RESP_R1b RCA_NO 0;
  c "SEND_STATUS" [0x0D000000; CMD_RSPNS_48] RESP_R1 RCA_YES 0;
  c "GO_INACTIVE" [0x0F000000; CMD_RSPNS_NO] RESP_NO RCA_YES 0;
  c "SET_BLOCKLEN" [0x10000000; CMD_RSPNS_48] RESP_R1 RCA_NO 0;
  c "READ_SINGLE" [0x11000000; CMD_RSPNS_48; CMD_IS_DATA; TM_DAT_DIR_CH] RESP_R1 RCA_NO 0;
  c "READ_MULTI" [0x12000000; CMD_RSPNS_48; TM_MULTI_DATA; TM_DAT_DIR_CH] RESP_R1 RCA_NO 0;
  c "SEND_TUNING" [0x13000000; CMD_RSPNS_48] RESP_R1 RCA_NO 0;
  c "SPEED_CLASS" [0x14000000; CMD_RSPNS_48B] RESP_R1b RCA_NO 0;
  c "SET_BLOCKCNT" [0x17000000; CMD_RSPNS_48] RESP_R1 RCA_NO 0;
  c "WRITE_SINGLE" [0x18000000; CMD_RSPNS_48; CMD_IS_DATA; TM_DAT_DIR_HC] RESP_R1 RCA_NO 0;
  c "WRITE_MULTI" [0x19000000; CMD_RSPNS_48; TM_MULTI_DATA; TM_DAT_DIR_HC] RESP_R1 RCA_NO 0;
  c "PROGRAM_CSD" [0x1B000000; CMD_RSPNS_48] RESP_R1 RCA_NO 0;
  c "SET_WRITE_PR" [0x1C000000; CMD_RSPNS_48B] RESP_R1b RCA_NO 0;
  c "CLR_WRITE_PR" [0x1D000000; CMD_RSPNS_48B] RESP_R1b RCA_NO 0;
  c "SND_WRITE_PR" [0x1E000000; CMD_RSPNS_48] RESP_R1 RCA_NO 0;
  c "ERASE_WR_ST" [0x20000000; CMD_RSPNS_48] RESP_R1 RCA_NO 0;
  c "ERASE_WR_END" [0x21000000; CMD_RSPNS_48] RESP_R1 RCA_NO 0;
  c "ERASE" [0x26000000; CMD_RSPNS_48B] RESP_R1b RCA_NO 0;
  c "LOCK_UNLOCK" [0x2A000000; CMD_RSPNS_48] RESP_R1 RCA_NO 0;
  c "APP_CMD" [0x37000000; CMD_RSPNS_NO] RESP_NO RCA_NO 100;
  c "APP_CMD" [0x37000000; CMD_RSPNS_48] RESP_R1 RCA_YES 0;
  c "GEN_CMD" [0x38000000; CMD_RSPNS_48] RESP_R1 RCA_NO 0;
  c "SET_BUS_WIDTH" [0x06000000; CMD_RSPNS_48] RESP_R1 RCA_NO 0;
  c "SD_STATUS" [0x0D000000; CMD_RSPNS_48] RESP_R1 RCA_YES 0;
  c "SEND_NUM_WRBL" [0x16000000; CMD_RSPNS_48] RESP_R1 RCA_NO 0;
  c "SEND_NUM_ERS" [0x17000000; CMD_RSPNS_48] RESP_R1 RCA_NO 0;
  c "SD_SENDOPCOND" [0x29000000; CMD_RSPNS_48] RESP_R3 RCA_NO 1000;
  c "SET_CLR_DET" [0x2A000000; CMD_RSPNS_48] RESP_R1 RCA_NO 0;
  c "SEND_SCR" [0x33000000; CMD_RSPNS_48; CMD_IS_DATA; TM_DAT_DIR_CH] RESP_R1 RCA_NO 0
].

Definition IX_GO_IDLE_STATE : Z := 0.
Definition IX_ALL_SEND_CID : Z := 1.
Definition IX_SEND_REL_ADDR : Z := 2.
Definition IX_CARD_SELECT : Z := 5.
Definition IX_SEND_IF_COND : Z := 6.
Definition IX_SEND_CSD : Z := 7.
Definition IX_SET_BLOCKLEN : Z := 13.
Definition IX_READ_SINGLE : Z := 14.
Definition IX_WRITE_SINGLE : Z := 19.
Definition IX_APP_CMD : Z := 29.
Definition IX_APP_CMD_RCA : Z := 30.
Definition IX_APP_CMD_START : Z := 32.
Definition IX_SET_BUS_WIDTH : Z := 32.
Definition IX_APP_SEND_OP_COND : Z := 36.
Definition IX_SEND_SCR : Z := 38.

(** ** State *)

Definition SD_OK : Z := 0.
Definition SD_ERROR : Z := 1.
Definition SD_TIMEOUT : Z := 2.
Definition SD_BUSY : Z := 3.
Definition SD_ERROR_RESET : Z := 6.
Definition SD_ERROR_CLOCK : Z := 7.
Definition SD_ERROR_VOLTAGE : Z := 8.
Definition SD_ERROR_APP_CMD : Z := 9.
Definition SD_CARD_CHANGED : Z := 10.
Definition SD_CARD_ABSENT : Z := 11.
Definition SD_CARD_REINSERTED : Z := 12.
Definition SD_TYPE_1 : Z := 2.
Definition SD_TYPE_2_SC : Z := 3.
Definition SD_TYPE_2_HC : Z := 4.
Definition SD_SUPP_SET_BLOCK_COUNT : Z := 0x80000000.
Definition SD_SUPP_SPEED_CLASS : Z := 0x40000000.
Definition SD_SUPP_BUS_WIDTH_4 : Z := 0x20000000.
Definition SD_SUPP_BUS_WIDTH_1 : Z := 0x10000000.

Record SDDescriptor := mkDescriptor {
  card_capacity : Z;
  card_cid : list Z;
  card_csd : list Z;
  card_scr : list Z;
  card_ocr : Z;
  card_support : Z;
  card_fileFormat : Z;
  card_type : Z;
  card_uhsi : Z;
  card_init : bool;
  card_absent : bool;
  card_rca : Z;
  card_cardState : Z;
  card_status : Z;
  card_lastCmd : option EMMCCommand;
  card_lastArg : Z
}.
Definition with_capacity (v : Z) (c : SDDescriptor) : SDDescriptor :=
  mkDescriptor v (card_cid c) (card_csd c) (card_scr c) (card_ocr c) (card_support c) (card_fileFormat c) (card_type c) (card_uhsi c) (card_init c) (card_absent c) (card_rca c) (card_cardState c) (card_status c) (card_lastCmd c) (card_lastArg c).
Definition with_cid (v : list Z) (c : SDDescriptor) : SDDescriptor :=
  mkDescriptor (card_capacity c) v (card_csd c) (card_scr c) (card_ocr c) (card_support c) (card_fileFormat c) (card_type c) (card_uhsi c) (card_init c) (card_absent c) (card_rca c) (card_cardState c) (card_status c) (card_lastCmd c) (card_lastArg c).
Definition with_csd (v : list Z) (c : SDDescriptor) : SDDescriptor :=
  mkDescriptor (card_capacity c) (card_cid c) v (card_scr c) (card_ocr c) (card_support c) (card_fileFormat c) (card_type c) (card_uhsi c) (card_init c) (card_absent c) (card_rca c) (card_cardState c) (card_status c) (card_lastCmd c) (card_lastArg c).
Definition with_scr (v : list Z) (c : SDDescriptor) : SDDescriptor :=
  mkDescriptor (card_capacity c) (card_cid c) (card_csd c) v (card_ocr c) (card_support c) (card_fileFormat c) (card_type c) (card_uhsi c) (card_init c) (card_absent c) (card_rca c) (card_cardState c) (card_status c) (card_lastCmd c) (card_lastArg c).
Definition with_ocr (v : Z) (c : SDDescriptor) : SDDescriptor :=
  mkDescriptor (card_capacity c) (card_cid c) (card_csd c) (card_scr c) v (card_support c) (card_fileFormat c) (card_type c) (card_uhsi c) (card_init c) (card_absent c) (card_rca c) (card_cardState c) (card_status c) (card_lastCmd c) (card_lastArg c).
Definition with_support (v : Z) (c : SDDescriptor) : SDDescriptor :=
  mkDescriptor (card_capacity c) (card_cid c) (card_csd c) (card_scr c) (card_ocr c) v (card_fileFormat c) (card_type c) (card_uhsi c) (card_init c) (card_absent c) (card_rca c) (card_cardState c) (card_status c) (card_lastCmd c) (card_lastArg c).
Definition with_fileFormat (v : Z) (c : SDDescriptor) : SDDescriptor :=
  mkDescriptor (card_capacity c) (card_cid c) (card_csd c) (card_scr c) (card_ocr c) (card_support c) v (card_type c) (card_uhsi c) (card_init c) (card_absent c) (card_rca c) (card_cardState c) (card_status c) (card_lastCmd c) (card_lastArg c).
Definition with_type (v : Z) (c : SDDescriptor) : SDDescriptor :=
  mkDescriptor (card_capacity c) (card_cid c) (card_csd c) (card_scr c) (card_ocr c) (card_support c) (card_fileFormat c) v (card_uhsi c) (card_init c) (card_absent c) (card_rca c) (card_cardState c) (card_status c) (card_lastCmd c) (card_lastArg c).
Definition with_uhsi (v : Z) (c : SDDescriptor) : SDDescriptor :=
  mkDescriptor (card_capacity c) (card_cid c) (card_csd c) (card_scr c) (card_ocr c) (card_support c) (card_fileFormat c) (card_type c) v (card_init c) (card_absent c) (card_rca c) (card_cardState c) (card_status c) (card_lastCmd c) (card_lastArg c).
Definition with_init (v : bool) (c : SDDescriptor) : SDDescriptor :=
  mkDescriptor (card_capacity c) (card_cid c) (card_csd c) (card_scr c) (card_ocr c) (card_support c) (card_fileFormat c) (card_type c) (card_uhsi c) v (card_absent c) (card_rca c) (card_cardState c) (card_status c) (card_lastCmd c) (card_lastArg c).
Definition with_absent (v : bool) (c : SDDescriptor) : SDDescriptor :=
  mkDescriptor (card_capacity c) (card_cid c) (card_csd c) (card_scr c) (card_ocr c) (card_support c) (card_fileFormat c) (card_type c) (card_uhsi c) (card_init c) v (card_rca c) (card_cardState c) (card_status c) (card_lastCmd c) (card_lastArg c).
Definition with_rca (v : Z) (c : SDDescriptor) : SDDescriptor :=
  mkDescriptor (card_capacity c) (card_cid c) (card_csd c) (card_scr c) (card_ocr c) (card_support c) (card_fileFormat c) (card_type c) (card_uhsi c) (card_init c) (card_absent c) v (card_cardState c) (card_status c) (card_lastCmd c) (card_lastArg c).
Definition with_cardState (v : Z) (c : SDDescriptor) : SDDescriptor :=
  mkDescriptor (card_capacity c) (card_cid c) (card_csd c) (card_scr c) (card_ocr c) (card_support c) (card_fileFormat c) (card_type c) (card_uhsi c) (card_init c) (card_absent c) (card_rca c) v (card_status c) (card_lastCmd c) (card_lastArg c).
Definition with_status (v : Z) (c : SDDescriptor) : SDDescriptor :=
  mkDescriptor (card_capacity c) (card_cid c) (card_csd c) (card_scr c) (card_ocr c) (card_support c) (card_fileFormat c) (card_type c) (card_uhsi c) (card_init c) (card_absent c) (card_rca c) (card_cardState c) v (card_lastCmd c) (card_lastArg c).
Definition with_lastCmd (v : option EMMCCommand) (c : SDDescriptor) : SDDescriptor :=
  mkDescriptor (card_capacity c) (card_cid c) (card_csd c) (card_scr c) (card_ocr c) (card_support c) (card_fileFormat c) (card_type c) (card_uhsi c) (card_init c) (card_absent c) (card_rca c) (card_cardState c) (card_status c) v (card_lastArg c).
Definition with_lastArg (v : Z) (c : SDDescriptor) : SDDescriptor :=
  mkDescriptor (card_capacity c) (card_cid c) (card_csd c) (card_scr c) (card_ocr c) (card_support c) (card_fileFormat c) (card_type c) (card_uhsi c) (card_init c) (card_absent c) (card_rca c) (card_cardState c) (card_status c) (card_lastCmd c) v.

(** The driver: the device, the descriptor of the card, the two locks, the queue with
    the buffers, the channels woken so far, and the second partition ([lba2], [sz2]). *)
Record Sd (D : Type) := mkSd {
  sd_dev : D;
  sd_card : SDDescriptor;
  sd_hostver : Z;
  sd_sdlock : SpinLock;
  sd_qlock : SpinLock;
  sd_queue : Bufs;
  sd_woken : list Z;
  sd_mbr : Z * Z
}.
Arguments mkSd {D}.
Arguments sd_dev {D}.
Arguments sd_card {D}.
Arguments sd_hostver {D}.
Arguments sd_sdlock {D}.
Arguments sd_qlock {D}.
Arguments sd_queue {D}.
Arguments sd_woken {D}.
Arguments sd_mbr {D}.
Definition put_dev {D} (v : D) (s : Sd D) : Sd D := mkSd v (sd_card s) (sd_hostver s) (sd_sdlock s) (sd_qlock s) (sd_queue s) (sd_woken s) (sd_mbr s).
Definition put_card {D} (v : SDDescriptor) (s : Sd D) : Sd D := mkSd (sd_dev s) v (sd_hostver s) (sd_sdlock s) (sd_qlock s) (sd_queue s) (sd_woken s) (sd_mbr s).
Definition put_hostver {D} (v : Z) (s : Sd D) : Sd D := mkSd (sd_dev s) (sd_card s) v (sd_sdlock s) (sd_qlock s) (sd_queue s) (sd_woken s) (sd_mbr s).
Definition put_sdlock {D} (v : SpinLock) (s : Sd D) : Sd D := mkSd (sd_dev s) (sd_card s) (sd_hostver s) v (sd_qlock s) (sd_queue s) (sd_woken s) (sd_mbr s).
Definition put_qlock {D} (v : SpinLock) (s : Sd D) : Sd D := mkSd (sd_dev s) (sd_card s) (sd_hostver s) (sd_sdlock s) v (sd_queue s) (sd_woken s) (sd_mbr s).
Definition put_queue {D} (v : Bufs) (s : Sd D) : Sd D := mkSd (sd_dev s) (sd_card s) (sd_hostver s) (sd_sdlock s) (sd_qlock s) v (sd_woken s) (sd_mbr s).
Definition put_woken {D} (v : list Z) (s : Sd D) : Sd D := mkSd (sd_dev s) (sd_card s) (sd_hostver s) (sd_sdlock s) (sd_qlock s) (sd_queue s) v (sd_mbr s).
Definition put_mbr {D} (v : Z * Z) (s : Sd D) : Sd D := mkSd (sd_dev s) (sd_card s) (sd_hostver s) (sd_sdlock s) (sd_qlock s) (sd_queue s) (sd_woken s) v.

Section sd.
Context {D : Type} `{Emmc D} (me : Z).
Local Notation SD := (Sd D).

Definition on_dev {A} (m : M D A) : M SD A := zoom sd_dev put_dev m.
Definition on_queue {A} (m : M Bufs A) : M SD A := zoom sd_queue put_queue m.
Definition on_sdlock {A} (m : M SpinLock A) : M SD A := zoom sd_sdlock put_sdlock m.
Definition on_qlock {A} (m : M SpinLock A) : M SD A := zoom sd_qlock put_qlock m.
Definition upd_card (f : SDDescriptor → SDDescriptor) : M SD unit := modify (λ s, put_card (f (sd_card s)) s).

Definition get32 (r : reg) : M SD Z := on_dev (mmio_read r).
Definition put32 (r : reg) (v : Z) : M SD unit := on_dev (mmio_write r v).
(** The registers that a [printf] reads. *)
Fixpoint print_regs (l : list reg) : M SD unit :=
  match l with [] => mret () | r :: l' => get32 r;; print_regs l' end.

(** [while (cond && count--)]: the value of [count] after the loop. *)
Fixpoint poll (cond : M SD bool) (count : nat) : M SD Z :=
  go ← cond;
  if (go : bool) then match count with O => mret (-1) | S count' => poll cond count' end
  else mret (Z.of_nat count).
(** [while (cond && --count)] *)
Fixpoint poll_pre (cond : M SD bool) (count : nat) : M SD Z :=
  go ← cond;
  if (go : bool) then
    match count with O | 1%nat => mret (Z.of_nat count - 1) | S count' => poll_pre cond count' end
  else mret (Z.of_nat count).

Definition sdDebugResponse (resp : Z) : M SD Z :=
  c ← gets sd_card;
  derefM (card_lastCmd c);;
  print_regs [EMMC_RESP3; EMMC_RESP2; EMMC_RESP1; EMMC_RESP0; EMMC_STATUS; EMMC_CONTROL1; EMMC_INTERRUPT];;
  mret resp.

Definition sdWaitForInterrupt (mask : Z) : M SD Z :=
  let waitMask := Z.lor mask INT_ERROR_MASK in
  count ← poll (v ← get32 EMMC_INTERRUPT; mret (negb (test v waitMask))) (Z.to_nat 1000000);
  ival ← get32 EMMC_INTERRUPT;
  if (count <=? 0) || test ival INT_CMD_TIMEOUT || test ival INT_DATA_TIMEOUT then
    put32 EMMC_INTERRUPT ival;;
    mret SD_TIMEOUT
  else if test ival INT_ERROR_MASK then
    print_regs [EMMC_STATUS; EMMC_RESP0];;
    put32 EMMC_INTERRUPT ival;;
    mret SD_ERROR
  else
    put32 EMMC_INTERRUPT mask;;
    mret SD_OK.

(** The status has one of [bits] set, and no error has come in. *)
Definition inhibited (bits : Z) : M SD bool :=
  s ← get32 EMMC_STATUS;
  if test s bits then i ← get32 EMMC_INTERRUPT; mret (negb (test i INT_ERROR_MASK)) else mret false.
Definition sdWaitForCommand : M SD Z :=
  count ← poll (inhibited SR_CMD_INHIBIT) (Z.to_nat 1000000);
  stop ← (if count <=? 0 then mret true else i ← get32 EMMC_INTERRUPT; mret (test i INT_ERROR_MASK));
  if (stop : bool) then print_regs [EMMC_STATUS; EMMC_INTERRUPT; EMMC_RESP0];; mret SD_BUSY
  else mret SD_OK.
(** [++count < 500000], counted down. *)
Definition sdWaitForData : M SD Z :=
  left ← poll_pre (inhibited SR_DAT_INHIBIT) (Z.to_nat 500000);
  stop ← (if left <=? 0 then mret true else i ← get32 EMMC_INTERRUPT; mret (test i INT_ERROR_MASK));
  if (stop : bool) then print_regs [EMMC_STATUS; EMMC_INTERRUPT; EMMC_RESP0];; mret SD_BUSY
  else mret SD_OK.

Definition sdSendCommandP (cmd : EMMCCommand) (arg : Z) : M SD Z :=
  busy ← sdWaitForCommand;
  if negb (busy =? 0) then mret SD_BUSY
  else
    upd_card (λ c, with_lastArg (u32 arg) (with_lastCmd (Some cmd) c));;
    v ← get32 EMMC_INTERRUPT;
    put32 EMMC_INTERRUPT v;;
    put32 EMMC_ARG1 (u32 arg);;
    put32 EMMC_CMDTM (cmd_code cmd);;
    result ← sdWaitForInterrupt INT_CMD_DONE;
    if negb (result =? 0) then mret result
    else
      resp0 ← get32 EMMC_RESP0;
      match cmd_resp cmd with
      | RESP_NO => mret SD_OK
      | RESP_R1 | RESP_R1b =>
          upd_card (λ c, with_cardState (Z.shiftr (Z.land resp0 ST_CARD_STATE) R1_CARD_STATE_SHIFT) (with_status resp0 c));;
          mret (i32 (Z.land resp0 R1_ERRORS_MASK))
      | RESP_R2I | RESP_R2S =>
          upd_card (with_status 0);;
          r3 ← get32 EMMC_RESP3;
          r2 ← get32 EMMC_RESP2;
          r1 ← get32 EMMC_RESP1;
          let data := [r3; r2; r1; resp0] in
          upd_card (match cmd_resp cmd with RESP_R2I => with_cid data | _ => with_csd data end);;
          mret SD_OK
      | RESP_R3 => upd_card (λ c, with_ocr resp0 (with_status 0 c));; mret SD_OK
      | RESP_R6 =>
          let status := foldr Z.lor 0 [Z.land resp0 0x1fff; Z.shiftl (Z.land resp0 0x2000) 6;
            Z.shiftl (Z.land resp0 0x4000) 8; Z.shiftl (Z.land resp0 0x8000) 8] in
          upd_card (λ c, with_cardState (Z.shiftr (Z.land resp0 ST_CARD_STATE) R1_CARD_STATE_SHIFT)
            (with_status status (with_rca (Z.land resp0 R6_RCA_MASK) c)));;
          mret (i32 (Z.land status R1_ERRORS_MASK))
      | RESP_R7 => upd_card (with_status 0);; mret (if i32 resp0 =? i32 arg then SD_OK else SD_ERROR)
      end.

Definition command (index : Z) : M SD EMMCCommand := derefM (sdCommandTable !! Z.to_nat index).
Definition sdSendAppCommand : M SD Z :=
  c ← gets sd_card;
  if card_rca c =? 0 then cmd ← command IX_APP_CMD; sdSendCommandP cmd 0;; mret SD_OK
  else
    cmd ← command IX_APP_CMD_RCA;
    resp ← sdSendCommandP cmd (i32 (card_rca c));
    if negb (resp =? 0) then sdDebugResponse resp
    else c ← gets sd_card; mret (if test (card_status c) ST_APP_CMD then SD_OK else SD_ERROR).
(** What [sdSendCommand] and [sdSendCommandA] share: the answer of the command [cmd]
    with argument [arg], after an APP_CMD when the command needs one. *)
Definition app_first (index : Z) (k : M SD Z) : M SD Z :=
  if IX_APP_CMD_START <=? index then
    resp ← sdSendAppCommand;
    if negb (resp =? 0) then sdDebugResponse resp else k
  else k.
Definition app_accepted (index : Z) : M SD Z :=
  c ← gets sd_card;
  mret (if (IX_APP_CMD_START <=? index) && negb (card_rca c =? 0) && negb (test (card_status c) ST_APP_CMD)
        then SD_ERROR_APP_CMD else SD_OK).
Definition sdSendCommand (index : Z) : M SD Z :=
  app_first index (
    cmd ← command index;
    c ← gets sd_card;
    let arg := match cmd_rca cmd with RCA_YES => i32 (card_rca c) | RCA_NO => 0 end in
    resp ← sdSendCommandP cmd arg;
    if negb (resp =? 0) then mret resp else app_accepted index).
Definition sdSendCommandA (index arg : Z) : M SD Z :=
  app_first index (
    cmd ← command index;
    resp ← sdSendCommandP cmd arg;
    if negb (resp =? 0) then mret resp else app_accepted index).

(** ** Block transfers *)

(** The 128 words of a buffer of 512 bytes. *)
Definition words_of (data : list Z) : list Z := (λ i, le_val (slice (4 * i) 4 data)) <$> seq 0 128.
Definition bytes_of (words : list Z) : list Z := words ≫= le_bytes 4.

Fixpoint write_words (ws : list Z) : M SD unit :=
  match ws with [] => mret () | w :: ws' => put32 EMMC_DATA w;; write_words ws' end.
Fixpoint read_words (n : nat) : M SD (list Z) :=
  match n with O => mret [] | S n' => w ← get32 EMMC_DATA; ws ← read_words n'; mret (w :: ws) end.
(** The assertion that no interrupt is pending. *)
Definition no_interrupt (msg : string) : M SD unit :=
  v ← get32 EMMC_INTERRUPT; if v =? 0 then mret () else get32 EMMC_INTERRUPT;; panic msg.

Definition sd_start (b : Z) : M SD unit :=
  x ← on_queue (get_buf b);
  c ← gets sd_card;
  let bno := if card_type c =? SD_TYPE_2_HC then i32 (b_blockno x) else i32 (Z.shiftl (i32 (b_blockno x)) 9) in
  let write := test (b_flags x) B_DIRTY in
  no_interrupt "emmc interrupt flag should be empty";;
  let cmd := if write then IX_WRITE_SINGLE else IX_READ_SINGLE in
  put32 EMMC_BLKSIZECNT 512;;
  resp ← sdSendCommandA cmd bno;
  if negb (resp =? 0) then panic "* EMMC send command error."
  else
    assertM (Z.land (b + 8) 3 =? 0) "Only support word-aligned buffers. ";;
    if write then
      resp ← sdWaitForInterrupt INT_WRITE_RDY;
      if negb (resp =? 0) then panic "* EMMC ERROR: Timeout waiting for ready to write"
      else
        no_interrupt "interrupt";;
        write_words (words_of (b_data x))
    else mret ().

Definition wakeup (chan : Z) : M SD unit := modify (λ s, put_woken (sd_woken s ++ [chan]) s).

Definition start_front : M SD unit :=
  on_sdlock (acquire_spinlock me);;
  b ← on_queue front;
  sd_start b;;
  on_sdlock release_spinlock.
Definition sd_intr : M SD unit :=
  on_qlock (acquire_spinlock me);;
  none ← on_queue empty;
  if negb none then
    intr ← get32 EMMC_INTERRUPT;
    put32 EMMC_INTERRUPT intr;;
    bid ← on_queue front;
    if negb (intr =? INT_READ_RDY) && negb (intr =? INT_DATA_DONE) then panic "..."
    else
      x ← on_queue (get_buf bid);
      let is_write := test (b_flags x) B_DIRTY in
      if (is_write && negb (intr =? INT_DATA_DONE)) || (negb is_write && negb (intr =? INT_READ_RDY)) then panic ",,,"
      else
        (if negb is_write then
           ws ← read_words 128;
           on_queue (upd_buf bid (with_data (bytes_of ws)));;
           sdWaitForInterrupt INT_DATA_DONE;;
           mret ()
         else mret ());;
        on_queue (upd_buf bid (with_flags B_VALID));;
        wakeup bid;;
        on_queue pop;;
        none ← on_queue empty;
        (if negb none then start_front else mret ());;
        on_qlock release_spinlock
  else on_qlock release_spinlock.

(** The loop of [sdrw]: [sleep(b, &qlock)] gives the lock up and waits to be woken. *)
Definition sdrw_loop (b : Z) : M SD unit :=
  x ← on_queue (get_buf b);
  if b_flags x =? B_VALID then on_qlock release_spinlock
  else on_qlock release_spinlock;; blocked.
Definition sdrw (b : Z) : M SD unit :=
  on_qlock (acquire_spinlock me);;
  none ← on_queue empty;
  (if (none : bool) then on_queue (push b);; start_front else on_queue (push b));;
  sdrw_loop b.
(** Back from [sleep], which takes the lock again. *)
Definition sdrw_resume (b : Z) : M SD unit :=
  on_qlock (acquire_spinlock me);;
  sdrw_loop b.
End sd.
