(* ===== verification/SdSpec.v ===== *)
(** * Correctness of the SD request queue (driver/sd.c)

    The controller is described by the phases of a single-block transfer, as the
    register descriptions of the controller give them: a command is followed by
    [INT_CMD_DONE]; a read then waits for [INT_READ_RDY], 128 words and
    [INT_DATA_DONE]; a write for [INT_WRITE_RDY], takes 128 words and ends with
    [INT_DATA_DONE]. The interrupt bits are cleared by writing them. How many polls a
    bit takes is left open below the limit of the driver.

    The driver then serves the requests in the order of the calls, one at a time. *)
From S2P Require Import Prelude Locks Buf Sd.

(** ** The controller *)

Inductive transfer := TRead (arg : Z) | TWrite (arg : Z) (ws : list Z).
Definition transfer_arg (t : transfer) : Z := match t with TRead a => a | TWrite a _ => a end.

Inductive phase :=
| Idle
| Armed (arg : Z)
| Issued (n : nat) (wr : bool) (arg : Z)
| WaitWrite (n : nat) (arg : Z)
| Filling (arg : Z) (ws : list Z)
| Working (t : transfer)
| Ready (t : transfer)
| Draining (arg : Z) (ws : list Z)
| Drained (n : nat).

(** The interrupt register, and the phase after it was read. *)
Definition irq (p : phase) : Z :=
  match p with
  | Issued 0 _ _ => INT_CMD_DONE
  | WaitWrite 0 _ => INT_WRITE_RDY
  | Ready (TRead _) => INT_READ_RDY
  | Ready (TWrite _ _) | Drained 0 => INT_DATA_DONE
  | _ => 0
  end.
Definition polled (p : phase) : phase :=
  match p with
  | Issued (S n) wr a => Issued n wr a
  | WaitWrite (S n) a => WaitWrite n a
  | Drained (S n) => Drained n
  | _ => p
  end.
Definition READ_SINGLE : Z := foldr Z.lor 0 [0x11000000; CMD_RSPNS_48; CMD_IS_DATA; TM_DAT_DIR_CH].
Definition WRITE_SINGLE : Z := foldr Z.lor 0 [0x18000000; CMD_RSPNS_48; CMD_IS_DATA; TM_DAT_DIR_HC].
Definition POLLS : Z := 1000000.
Definition WORDS : nat := 128.

(** A controller with a card: [disk d a] are the words of the block addressed by [a]. *)
Class EmmcCard (D : Type) `{Emmc D} := {
  phase_of : D → phase;
  disk : D → Z → list Z;
  read_interrupt d : ∃ d', mmio_read EMMC_INTERRUPT d = Ok (irq (phase_of d)) d' ∧ phase_of d' = polled (phase_of d) ∧ disk d' = disk d;
  ack_quiet d : phase_of d = Idle → ∃ d', mmio_write EMMC_INTERRUPT 0 d = Ok () d' ∧ phase_of d' = Idle ∧ disk d' = disk d;
  ack_command d wr a : phase_of d = Issued 0 wr a → ∃ d', mmio_write EMMC_INTERRUPT INT_CMD_DONE d = Ok () d' ∧ disk d' = disk d ∧
    if wr then ∃ n, Z.of_nat n < POLLS ∧ phase_of d' = WaitWrite n a else phase_of d' = Working (TRead a);
  ack_write_ready d a : phase_of d = WaitWrite 0 a →
    ∃ d', mmio_write EMMC_INTERRUPT INT_WRITE_RDY d = Ok () d' ∧ phase_of d' = Filling a [] ∧ disk d' = disk d;
  ack_read_ready d a : phase_of d = Ready (TRead a) →
    ∃ d', mmio_write EMMC_INTERRUPT INT_READ_RDY d = Ok () d' ∧ phase_of d' = Draining a (disk d a) ∧ disk d' = disk d;
  ack_written d a ws : phase_of d = Ready (TWrite a ws) →
    ∃ d', mmio_write EMMC_INTERRUPT INT_DATA_DONE d = Ok () d' ∧ phase_of d' = Idle ∧ ∀ b, disk d' b = if decide (b = a) then ws else disk d b;
  ack_drained d : phase_of d = Drained 0 →
    ∃ d', mmio_write EMMC_INTERRUPT INT_DATA_DONE d = Ok () d' ∧ phase_of d' = Idle ∧ disk d' = disk d;
  read_status d : phase_of d = Idle →
    ∃ v d', mmio_read EMMC_STATUS d = Ok v d' ∧ test v SR_CMD_INHIBIT = false ∧ phase_of d' = Idle ∧ disk d' = disk d;
  set_block_size d : phase_of d = Idle → ∃ d', mmio_write EMMC_BLKSIZECNT 512 d = Ok () d' ∧ phase_of d' = Idle ∧ disk d' = disk d;
  set_argument d a : phase_of d = Idle → ∃ d', mmio_write EMMC_ARG1 a d = Ok () d' ∧ phase_of d' = Armed a ∧ disk d' = disk d;
  send_command d a (wr : bool) : phase_of d = Armed a → ∃ d' n, mmio_write EMMC_CMDTM (if wr then WRITE_SINGLE else READ_SINGLE) d = Ok () d' ∧
    Z.of_nat n < POLLS ∧ phase_of d' = Issued n wr a ∧ disk d' = disk d;
  read_response d : (∃ t, phase_of d = Working t) ∨ (∃ n a, phase_of d = WaitWrite n a) →
    ∃ v d', mmio_read EMMC_RESP0 d = Ok v d' ∧ Z.land v R1_ERRORS_MASK = 0 ∧ phase_of d' = phase_of d ∧ disk d' = disk d;
  put_data d a ws w : phase_of d = Filling a ws → ∃ d', mmio_write EMMC_DATA w d = Ok () d' ∧ disk d' = disk d ∧
    phase_of d' = if decide (S (length ws) = WORDS) then Working (TWrite a (ws ++ [w])) else Filling a (ws ++ [w]);
  get_data d a w ws : phase_of d = Draining a (w :: ws) → ∃ d', mmio_read EMMC_DATA d = Ok w d' ∧ disk d' = disk d ∧
    match ws with [] => ∃ n, Z.of_nat n < POLLS ∧ phase_of d' = Drained n | _ => phase_of d' = Draining a ws end
}.

Section spec.
Context {D : Type} `{EmmcCard D} (me : Z).
Implicit Types s : Sd D.

Lemma get32_Ok s r v d' : mmio_read r (sd_dev s) = Ok v d' → get32 r s = Ok v (put_dev d' s).
Proof. intros E. unfold get32, on_dev. by erewrite zoom_Ok by done. Qed.
Lemma put32_Ok s r v d' : mmio_write r v (sd_dev s) = Ok () d' → put32 r v s = Ok () (put_dev d' s).
Proof. intros E. unfold put32, on_dev. by erewrite zoom_Ok by done. Qed.
Lemma interrupt_Ok s : ∃ d', get32 EMMC_INTERRUPT s = Ok (irq (phase_of (sd_dev s))) (put_dev d' s) ∧
  phase_of d' = polled (phase_of (sd_dev s)) ∧ disk d' = disk (sd_dev s).
Proof. destruct (read_interrupt (sd_dev s)) as (d' & E & Hp & Hd). exists d'. split; [by apply get32_Ok|done]. Qed.

(** Waiting for a bit that is raised after [n] polls. *)
Definition raising (mask : Z) (P : nat → phase) : Prop :=
  irq (P 0%nat) = mask ∧ polled (P 0%nat) = P 0%nat ∧ ∀ n, irq (P (S n)) = 0 ∧ polled (P (S n)) = P n.
Lemma poll_Ok mask P n : raising mask P → test mask mask = true → ∀ count s, (n < count)%nat → phase_of (sd_dev s) = P n →
  ∃ d', poll (v ← get32 EMMC_INTERRUPT; mret (negb (test v (Z.lor mask INT_ERROR_MASK)))) count s =
      Ok (Z.of_nat (count - n)) (put_dev d' s) ∧ phase_of d' = P 0%nat ∧ disk d' = disk (sd_dev s).
Proof.
  intros (HM & Hs0 & HS) Hm. assert (Htest : test mask (Z.lor mask INT_ERROR_MASK) = true).
  { unfold test in *. apply negb_true_iff, Z.eqb_neq. apply negb_true_iff, Z.eqb_neq in Hm. intros E. apply Hm. rewrite Z.land_diag.
    rewrite Z.land_lor_distr_r, Z.land_diag in E. by apply Z.lor_eq_0_iff in E as [-> _]. }
  induction n as [|n IH]; intros [|count] s Hn Hp; try lia; cbn [poll]; destruct (interrupt_Ok s) as (d' & E & Hp' & Hd').
  - erewrite bind_Ok by (by erewrite bind_Ok by exact E). rewrite Hp, HM, Htest. cbn [negb]. exists d'.
    split; [done|]. split; [by rewrite Hp', Hp, Hs0|done].
  - erewrite bind_Ok by (by erewrite bind_Ok by exact E). destruct (HS n) as [HS0 HS1]. rewrite Hp, HS0. unfold test at 1. rewrite Z.land_0_l. cbn [negb Z.eqb].
    destruct (IH count (put_dev d' s)) as (d2 & E2 & Hp2 & Hd2); [lia|simpl; by rewrite Hp', Hp|]. exists d2. rewrite E2. simpl in Hd2.
    split; [done|]. split; [done|congruence].
Qed.

(** The bits the driver waits for are not error bits. *)
Definition plain (mask : Z) : Prop :=
  test mask mask = true ∧ test mask INT_CMD_TIMEOUT = false ∧ test mask INT_DATA_TIMEOUT = false ∧ test mask INT_ERROR_MASK = false.
Lemma wait_Ok mask P n s (Q : D → D → Prop) : raising mask P → plain mask → Z.of_nat n < POLLS → phase_of (sd_dev s) = P n →
  (∀ d, phase_of d = P 0%nat → ∃ d', mmio_write EMMC_INTERRUPT mask d = Ok () d' ∧ Q d d') →
  ∃ d0 d', sdWaitForInterrupt mask s = Ok SD_OK (put_dev d' s) ∧ disk d0 = disk (sd_dev s) ∧ Q d0 d'.
Proof.
  intros HR (Hm & H1 & H2 & H3) Hn Hp Hack. unfold sdWaitForInterrupt.
  destruct (poll_Ok mask P n HR Hm (Z.to_nat 1000000) s) as (d1 & E1 & Hp1 & Hd1); [unfold POLLS in Hn; lia|done|].
  erewrite bind_Ok by exact E1. destruct (interrupt_Ok (put_dev d1 s)) as (d2 & E2 & Hp2 & Hd2). simpl in Hp2, Hd2.
  erewrite bind_Ok by exact E2. destruct HR as (HM & Hs0 & _). simpl. rewrite Hp1, HM, H1, H2, H3.
  rewrite (proj2 (Z.leb_gt _ _)) by (unfold POLLS in Hn; lia). cbn [orb].
  destruct (Hack d2) as (d3 & E3 & HQ); [by rewrite Hp2, Hp1, Hs0|]. erewrite bind_Ok by (apply put32_Ok; exact E3).
  exists d2, d3. split; [done|]. split; [congruence|done].
Qed.

Lemma wait_command_Ok s : phase_of (sd_dev s) = Idle →
  ∃ d', sdWaitForCommand s = Ok SD_OK (put_dev d' s) ∧ phase_of d' = Idle ∧ disk d' = disk (sd_dev s).
Proof.
  intros Hp. unfold sdWaitForCommand. destruct (read_status (sd_dev s) Hp) as (v & d1 & E1 & Hv & Hp1 & Hd1).
  assert (Epoll : ∀ n, poll (inhibited SR_CMD_INHIBIT) n s = Ok (Z.of_nat n) (put_dev d1 s)).
  { intros n. destruct n; cbn [poll]; (erewrite bind_Ok by (unfold inhibited; erewrite bind_Ok by (by apply get32_Ok); by rewrite Hv)); done. }
  erewrite bind_Ok by apply Epoll. rewrite (proj2 (Z.leb_gt _ _)) by lia.
  destruct (interrupt_Ok (put_dev d1 s)) as (d2 & E2 & Hp2 & Hd2). simpl in Hp2, Hd2. rewrite Hp1 in Hp2.
  erewrite bind_Ok by (erewrite bind_Ok by exact E2; simpl; rewrite Hp1; done). simpl.
  exists d2. split; [done|]. split; [done|congruence].
Qed.

Definition single (wr : bool) : Z := if wr then IX_WRITE_SINGLE else IX_READ_SINGLE.
Lemma send_Ok s wr arg : phase_of (sd_dev s) = Idle →
  ∃ d' c', sdSendCommandA (single wr) arg s = Ok 0 (put_dev d' (put_card c' s)) ∧ card_type c' = card_type (sd_card s) ∧ disk d' = disk (sd_dev s) ∧
    if wr then ∃ n, Z.of_nat n < POLLS ∧ phase_of d' = WaitWrite n (u32 arg) else phase_of d' = Working (TRead (u32 arg)).
Proof.
  intros Hp. unfold sdSendCommandA, app_first. replace (IX_APP_CMD_START <=? single wr) with false by (by destruct wr).
  assert (Hcmd : ∃ cmd, sdCommandTable !! Z.to_nat (single wr) = Some cmd ∧ cmd_resp cmd = RESP_R1 ∧ cmd_code cmd = if wr then WRITE_SINGLE else READ_SINGLE).
  { destruct wr; eexists; split_and!; reflexivity. }
  destruct Hcmd as (cmd & Ecmd & Hresp & Hcode). erewrite bind_Ok by (unfold command; by rewrite Ecmd).
  destruct (wait_command_Ok s Hp) as (d1 & E1 & Hp1 & Hd1).
  set (s1 := put_card (with_lastArg (u32 arg) (with_lastCmd (Some cmd) (sd_card s))) (put_dev d1 s)).
  destruct (interrupt_Ok s1) as (d2 & E2 & Hp2 & Hd2). simpl in E2, Hp2, Hd2. rewrite Hp1 in E2, Hp2.
  destruct (ack_quiet d2 Hp2) as (d3 & E3 & Hp3 & Hd3). destruct (set_argument d3 (u32 arg) Hp3) as (d4 & E4 & Hp4 & Hd4).
  destruct (send_command d4 (u32 arg) wr Hp4) as (d5 & n & E5 & Hn & Hp5 & Hd5).
  destruct (wait_Ok INT_CMD_DONE (λ n, Issued n wr (u32 arg)) n (put_dev d5 s1)
    (λ d d', disk d' = disk d ∧ if wr then ∃ n, Z.of_nat n < POLLS ∧ phase_of d' = WaitWrite n (u32 arg) else phase_of d' = Working (TRead (u32 arg))))
    as (d6 & d7 & E7 & Hd6 & Hd7 & Hp7); [done|done|done|done| |].
  { intros d Hd. destruct (ack_command d wr (u32 arg) Hd) as (d' & E & Hdd & Hpp). by exists d'. }
  simpl in Hd6. destruct (read_response d7) as (v & d8 & E8 & Hv & Hp8 & Hd8).
  { destruct wr; [right; destruct Hp7 as (k & _ & Hk); by exists k, (u32 arg)|left; by eexists]. }
  assert (HP : sdSendCommandP cmd arg s = Ok 0 (put_card (with_cardState (Z.shiftr (Z.land v ST_CARD_STATE) R1_CARD_STATE_SHIFT) (with_status v (sd_card s1))) (put_dev d8 s1))).
  { unfold sdSendCommandP. erewrite bind_Ok by exact E1. cbn [negb Z.eqb SD_OK]. erewrite bind_Ok by done. fold s1.
    erewrite bind_Ok by exact E2. erewrite bind_Ok by (apply put32_Ok; exact E3). erewrite bind_Ok by (apply put32_Ok; exact E4).
    erewrite bind_Ok by (apply put32_Ok; rewrite Hcode; exact E5). erewrite bind_Ok by exact E7. cbn [negb Z.eqb SD_OK].
    erewrite bind_Ok by (apply get32_Ok; exact E8). rewrite Hresp. erewrite bind_Ok by done. by rewrite Hv. }
  erewrite bind_Ok by exact HP. cbn [negb Z.eqb]. unfold app_accepted. erewrite bind_Ok by done.
  replace (IX_APP_CMD_START <=? single wr) with false by (by destruct wr). simpl.
  eexists d8, _. split; [reflexivity|]. split; [done|]. split; [congruence|].
  destruct wr; [destruct Hp7 as (k & Hk & Hpk); exists k; split; [done|congruence]|congruence].
Qed.

Lemma write_words_Ok a ws : ∀ s acc, phase_of (sd_dev s) = Filling a acc → ws ≠ [] → (length acc + length ws = WORDS)%nat →
  ∃ d', write_words ws s = Ok () (put_dev d' s) ∧ phase_of d' = Working (TWrite a (acc ++ ws)) ∧ disk d' = disk (sd_dev s).
Proof.
  induction ws as [|w ws IH]; intros s acc Hp Hne Hl; [done|]. simpl in *. destruct (put_data _ _ _ w Hp) as (d1 & E1 & Hd1 & Hp1).
  erewrite bind_Ok by (apply put32_Ok; exact E1). destruct ws as [|w' ws].
  - exists d1. split; [done|]. rewrite decide_True in Hp1 by (simpl in Hl; lia). done.
  - rewrite decide_False in Hp1 by (simpl in Hl; lia).
    destruct (IH (put_dev d1 s) (acc ++ [w])) as (d2 & E2 & Hp2 & Hd2); [done|done|rewrite length_app; simpl in *; lia|].
    exists d2. rewrite E2. simpl in Hd2. split; [done|]. split; [by rewrite Hp2, <- app_assoc|congruence].
Qed.
Lemma read_words_Ok a ws : ∀ s, phase_of (sd_dev s) = Draining a ws → ws ≠ [] →
  ∃ d' n, read_words (length ws) s = Ok ws (put_dev d' s) ∧ Z.of_nat n < POLLS ∧ phase_of d' = Drained n ∧ disk d' = disk (sd_dev s).
Proof.
  induction ws as [|w ws IH]; intros s Hp Hne; [done|]. simpl. destruct (get_data _ _ _ _ Hp) as (d1 & E1 & Hd1 & Hp1).
  erewrite bind_Ok by (apply get32_Ok; exact E1). destruct ws as [|w' ws].
  - destruct Hp1 as (n & Hn & Hp1). by exists d1, n.
  - destruct (IH (put_dev d1 s)) as (d2 & n & E2 & Hn & Hp2 & Hd2); [done|done|]. exists d2, n. erewrite bind_Ok by exact E2.
    simpl in Hd2. split_and!; [done|done|done|congruence].
Qed.

(** The transfer of a buffer. *)
Definition arg_of (c : SDDescriptor) (x : Buf) : Z :=
  u32 (if card_type c =? SD_TYPE_2_HC then i32 (b_blockno x) else i32 (Z.shiftl (i32 (b_blockno x)) 9)).
Definition transfer_of (c : SDDescriptor) (x : Buf) : transfer :=
  if test (b_flags x) B_DIRTY then TWrite (arg_of c x) (words_of (b_data x)) else TRead (arg_of c x).
Lemma words_of_length data : length (words_of data) = WORDS.
Proof. unfold words_of. by rewrite length_fmap, length_seq. Qed.

Lemma no_interrupt_Ok s msg : irq (phase_of (sd_dev s)) = 0 → polled (phase_of (sd_dev s)) = phase_of (sd_dev s) →
  ∃ d', no_interrupt msg s = Ok () (put_dev d' s) ∧ phase_of d' = phase_of (sd_dev s) ∧ disk d' = disk (sd_dev s).
Proof.
  intros Hi Hp. destruct (interrupt_Ok s) as (d' & E & Hp' & Hd). exists d'. unfold no_interrupt. erewrite bind_Ok by exact E.
  rewrite Hi. split; [done|]. split; [congruence|done].
Qed.
Lemma sd_start_Ok s b x : bq_mem (sd_queue s) !! b = Some x → phase_of (sd_dev s) = Idle → Z.land (b + 8) 3 = 0 →
  ∃ d' c', sd_start b s = Ok () (put_dev d' (put_card c' s)) ∧ card_type c' = card_type (sd_card s) ∧ disk d' = disk (sd_dev s) ∧
    phase_of d' = Working (transfer_of (sd_card s) x).
Proof.
  intros Hb Hp Ha. unfold sd_start, transfer_of. erewrite bind_Ok by (unfold on_queue; erewrite zoom_Ok by (by apply get_buf_Ok); done).
  erewrite bind_Ok by done. simpl sd_card. fold (single (test (b_flags x) B_DIRTY)). set (wr := test (b_flags x) B_DIRTY). set (bno := if _ =? _ then _ else _).
  change (put_queue (sd_queue s) s) with (mkSd (sd_dev s) (sd_card s) (sd_hostver s) (sd_sdlock s) (sd_qlock s) (sd_queue s) (sd_woken s) (sd_mbr s)).
  destruct s as [dev card hv l1 l2 q wk mbr]. simpl in *. set (s := mkSd dev card hv l1 l2 q wk mbr).
  destruct (no_interrupt_Ok s "emmc interrupt flag should be empty") as (d1 & E1 & Hp1 & Hd1); [simpl; by rewrite Hp..|].
  erewrite bind_Ok by exact E1. simpl in Hp1, Hd1. rewrite Hp in Hp1. destruct (set_block_size d1 Hp1) as (d2 & E2 & Hp2 & Hd2).
  erewrite bind_Ok by (apply put32_Ok; exact E2). destruct (send_Ok (put_dev d2 s) wr bno Hp2) as (d3 & c3 & E3 & Hc3 & Hd3 & Hp3).
  change (put_dev d2 (put_dev d1 s)) with (put_dev d2 s). erewrite bind_Ok by exact E3. cbn [negb Z.eqb]. simpl in Hd3, Hc3.
  rewrite Ha. cbn [Z.eqb]. erewrite bind_Ok by done.
  destruct wr; [|exists d3, c3; split_and!; [done|done|congruence|done]]. destruct Hp3 as (n & Hn & Hp3).
  destruct (wait_Ok INT_WRITE_RDY (λ n, WaitWrite n (u32 bno)) n (put_dev d3 (put_card c3 (put_dev d2 s))) (λ d d', phase_of d' = Filling (u32 bno) [] ∧ disk d' = disk d))
    as (d4 & d5 & E5 & Hd4 & Hp5 & Hd5); [done|done|done|done| |].
  { intros d Hd. destruct (ack_write_ready d (u32 bno) Hd) as (d' & E & Hpp & Hdd). by exists d'. }
  simpl in Hd4. erewrite bind_Ok by exact E5. cbn [negb Z.eqb SD_OK].
  destruct (no_interrupt_Ok (put_dev d5 (put_dev d3 (put_card c3 (put_dev d2 s)))) "interrupt") as (d6 & E6 & Hp6 & Hd6); [simpl; by rewrite Hp5..|].
  erewrite bind_Ok by exact E6. simpl in Hp6, Hd6. rewrite Hp5 in Hp6.
  destruct (write_words_Ok (u32 bno) (words_of (b_data x)) (put_dev d6 (put_card c3 s)) []) as (d7 & E7 & Hp7 & Hd7);
    [done|by intros E%(f_equal length); rewrite words_of_length in E|by rewrite words_of_length|].
  exists d7, c3. split; [exact E7|]. split; [done|]. split; [simpl in Hd7; congruence|done].
Qed.

(** ** The queue *)

Lemma on_queue_Ok {A} (m : M Bufs A) s a q' : m (sd_queue s) = Ok a q' → on_queue m s = Ok a (put_queue q' s).
Proof. intros E. unfold on_queue. by erewrite zoom_Ok by done. Qed.
Lemma take_qlock s : locked (sd_qlock s) = false → on_qlock (acquire_spinlock me) s = Ok () (put_qlock (mkSpinLock true (Some me) (lname (sd_qlock s))) s).
Proof. intros E. unfold on_qlock. by erewrite zoom_Ok by (by apply acquire_spinlock_free). Qed.
Lemma give_qlock s : locked (sd_qlock s) = true → on_qlock release_spinlock s = Ok () (put_qlock (init_spinlock (lname (sd_qlock s))) s).
Proof. intros E. unfold on_qlock. by erewrite zoom_Ok by (by apply release_spinlock_held). Qed.
Lemma put_queue_id s : put_queue (sd_queue s) s = s.
Proof. by destruct s. Qed.

Lemma start_front_Ok s b L x : qrep (sd_queue s) (b :: L) → bq_mem (sd_queue s) !! b = Some x → Z.land (b + 8) 3 = 0 →
  phase_of (sd_dev s) = Idle → locked (sd_sdlock s) = false →
  ∃ d' c', start_front me s = Ok () (put_dev d' (put_card c' (put_sdlock (init_spinlock (lname (sd_sdlock s))) s))) ∧
    card_type c' = card_type (sd_card s) ∧ disk d' = disk (sd_dev s) ∧ phase_of d' = Working (transfer_of (sd_card s) x).
Proof.
  intros Hq Hb Ha Hp Hl. unfold start_front. erewrite bind_Ok by (unfold on_sdlock; by erewrite zoom_Ok by (by apply acquire_spinlock_free)).
  set (s1 := put_sdlock _ s). erewrite bind_Ok by (apply on_queue_Ok; by eapply front_Ok). rewrite put_queue_id.
  destruct (sd_start_Ok s1 b x) as (d & c & E & Hc & Hd & Hp'); [done..|]. erewrite bind_Ok by exact E.
  exists d, c. unfold on_sdlock. erewrite zoom_Ok by (by apply release_spinlock_held). done.
Qed.

(** What a caller of [sdrw] hands over. *)
Definition request_ok (b : Z) (x : Buf) : Prop :=
  Z.land (b + 8) 3 = 0 ∧ b_flags x ≠ B_VALID ∧ length (b_data x) = Z.to_nat BSIZE ∧ Forall (λ v, 0 ≤ v < 256) (b_data x).
(** The driver between two critical sections of [qlock]: the requests of [L] wait in
    this order, and the controller works on the first one; [ready] says that it has
    raised its interrupt. *)
Record serves (s : Sd D) (L : list Z) (ready : bool) : Prop := {
  sv_qlock : locked (sd_qlock s) = false;
  sv_sdlock : locked (sd_sdlock s) = false;
  sv_queue : qrep (sd_queue s) L;
  sv_bufs : ∀ b, b ∈ L → ∃ x, bq_mem (sd_queue s) !! b = Some x ∧ request_ok b x;
  sv_phase : phase_of (sd_dev s) =
    match head L ≫= λ b, bq_mem (sd_queue s) !! b with
    | Some x => (if ready then Ready else Working) (transfer_of (sd_card s) x)
    | None => Idle
    end;
  sv_disk : ∀ a, length (disk (sd_dev s) a) = WORDS
}.

Lemma request_transfer c c' x y : card_type c' = card_type c → request y = request x → transfer_of c' y = transfer_of c x.
Proof. intros Hc [= H1 H2 H3]. unfold transfer_of, arg_of. by rewrite H1, H2, H3, Hc. Qed.
Lemma request_ok_same b x y : request y = request x → request_ok b x → request_ok b y.
Proof. intros [= H1 H2 H3]. unfold request_ok. by rewrite H1, H3. Qed.
Lemma same_requests_lookup m m' p x : same_requests m m' → m !! p = Some x → ∃ y, m' !! p = Some y ∧ request y = request x.
Proof. intros HS Hx. pose proof (HS p) as E. rewrite Hx in E. destruct (m' !! p) as [y|]; [|done]. injection E as E. exists y. split; [done|]. unfold request. congruence. Qed.
Lemma bufs_same m m' (L : list Z) : same_requests m m' → (∀ b, b ∈ L → ∃ x, m !! b = Some x ∧ request_ok b x) →
  ∀ b, b ∈ L → ∃ x, m' !! b = Some x ∧ request_ok b x.
Proof.
  intros HS HB b Hb. destruct (HB b Hb) as (x & Hx & Hr). destruct (same_requests_lookup _ _ _ _ HS Hx) as (y & Hy & E).
  exists y. split; [done|]. by eapply request_ok_same.
Qed.

Definition sdrw_post (s s' : Sd D) : Prop :=
  sd_woken s' = sd_woken s ∧ disk (sd_dev s') = disk (sd_dev s) ∧ card_type (sd_card s') = card_type (sd_card s) ∧
  same_requests (bq_mem (sd_queue s)) (bq_mem (sd_queue s')).
Lemma sdrw_Ok s L r b x : serves s L r → b ∉ L → bq_mem (sd_queue s) !! b = Some x → request_ok b x → Z.of_nat (length L) + 1 < 2 ^ 31 - 1 →
  ∃ s', sdrw me b s = Blocked s' ∧ serves s' (L ++ [b]) (if decide (L = []) then false else r) ∧ sdrw_post s s'.
Proof.
  intros [Hq Hsd Hrep HB Hph Hdisk] Hin Hx Hr Hlen. unfold sdrw. erewrite bind_Ok by (by apply take_qlock).
  erewrite bind_Ok by (apply on_queue_Ok; by eapply empty_Ok). set (s1 := put_queue _ _). 
  destruct (push_Ok (sd_queue s1) L b Hrep ltac:(by eexists) Hin Hlen) as (q & Eq & Hrep' & HS).
  destruct (same_requests_lookup _ _ _ _ HS Hx) as (y & Hy & Ey). pose proof (request_ok_same b x y Ey Hr) as Hry.
  assert (HB' : ∀ b', b' ∈ L ++ [b] → ∃ x, bq_mem q !! b' = Some x ∧ request_ok b' x).
  { intros b' [Hb'| ->%list_elem_of_singleton]%elem_of_app; [by eapply bufs_same|by exists y]. }
  assert (Hloop : ∀ s2, sd_queue s2 = q → sd_qlock s2 = sd_qlock s1 →
    sdrw_loop b s2 = Blocked (put_qlock (init_spinlock (lname (sd_qlock s))) s2)).
  { intros s2 E1 E2. unfold sdrw_loop. erewrite bind_Ok by (apply on_queue_Ok; rewrite E1; by apply get_buf_Ok).
    rewrite (proj2 (Z.eqb_neq _ _)) by apply Hry. rewrite <- E1, put_queue_id. erewrite bind_Ok by (apply give_qlock; by rewrite E2).
    by rewrite E2. }
  destruct (decide (L = [])) as [->|HL].
  - rewrite bool_decide_eq_true_2 by done. destruct (start_front_Ok (put_queue q s1) b [] y) as (d & c & E & Hc & Hd & Hp); [done|done|apply Hr|done|done|].
    erewrite bind_Ok by (erewrite bind_Ok by (by apply on_queue_Ok); exact E). rewrite Hloop by done. eexists. split; [done|]. split; [|done].
    constructor; simpl; [done|done|done|done| |intros a; by rewrite Hd].
    rewrite Hy, Hp. f_equal. by apply request_transfer.
  - rewrite bool_decide_eq_false_2 by done. erewrite bind_Ok by (by apply on_queue_Ok). rewrite Hloop by done. eexists. split; [done|]. split; [|done].
    constructor; simpl; [done|done|done|done| |done].
    destruct L as [|b0 L]; [done|]. simpl in *. rewrite Hph. destruct (HB b0) as (z & Hz & _); [apply elem_of_cons; by left|].
    destruct (same_requests_lookup _ _ _ _ HS Hz) as (z' & Hz' & Ez). rewrite Hz, Hz'. destruct r; f_equal; symmetry; by apply request_transfer.
Qed.

(** What a completed transfer leaves in its buffer and on the card. *)
Definition data_after (t : transfer) (k : Z → list Z) (data : list Z) : list Z :=
  match t with TRead a => bytes_of (k a) | TWrite _ _ => data end.
Definition disk_after (t : transfer) (k : Z → list Z) (a : Z) : list Z :=
  match t with TWrite a' ws => if decide (a = a') then ws else k a | TRead _ => k a end.

(** The part of [sd_intr] that moves the data. *)
Lemma transfer_done s b x : bq_mem (sd_queue s) !! b = Some x → (∀ a, length (disk (sd_dev s) a) = WORDS) →
  phase_of (sd_dev s) = Ready (transfer_of (sd_card s) x) →
  ∃ d0 d' q' x', get32 EMMC_INTERRUPT s = Ok (irq (phase_of (sd_dev s))) (put_dev d0 s) ∧
  put32 EMMC_INTERRUPT (irq (phase_of (sd_dev s))) (put_dev d0 s) = Ok () (put_dev d' s) ∧
  ∃ d2, (if negb (test (b_flags x) B_DIRTY) then
     ws ← read_words 128; on_queue (upd_buf b (with_data (bytes_of ws)));; sdWaitForInterrupt INT_DATA_DONE;; mret () else mret ()) (put_dev d' s) =
     Ok () (put_dev d2 (put_queue q' s)) ∧ phase_of d2 = Idle ∧ (∀ a, disk d2 a = disk_after (transfer_of (sd_card s) x) (disk (sd_dev s)) a) ∧
     q' = set_bufs (<[b := x']> (bq_mem (sd_queue s))) (sd_queue s) ∧
     x' = with_data (data_after (transfer_of (sd_card s) x) (disk (sd_dev s)) (b_data x)) x.
Proof.
  intros Hx Hdisk Hp. destruct (interrupt_Ok s) as (d1 & E1 & Hp1 & Hd1). rewrite Hp in Hp1.
  unfold transfer_of in *. set (a := arg_of _ _) in *. destruct (test (b_flags x) B_DIRTY).
  - simpl in Hp1. destruct (ack_written d1 a (words_of (b_data x)) Hp1) as (d2 & E2 & Hp2 & Hd2).
    exists d1, d2, (sd_queue s), x. split; [exact E1|]. split; [rewrite Hp; exact (put32_Ok (put_dev d1 s) _ _ _ E2)|].
    exists d2. rewrite put_queue_id. split_and!; [done|done| | |by destruct x].
    + intros a'. rewrite Hd2. simpl. by rewrite Hd1.
    + destruct s as [? ? ? ? ? [] ? ?]. simpl in *. unfold set_bufs. simpl. by rewrite insert_id.
  - simpl in Hp1. destruct (ack_read_ready d1 a Hp1) as (d2 & E2 & Hp2 & Hd2). rewrite Hd1 in Hp2.
    destruct (read_words_Ok a (disk (sd_dev s) a) (put_dev d2 s)) as (d3 & n & E3 & Hn & Hp3 & Hd3); [done|by intros E; specialize (Hdisk a); rewrite E in Hdisk|].
    rewrite Hdisk in E3. simpl in Hd3. eexists d1, d2, _, (with_data (bytes_of (disk (sd_dev s) a)) x).
    split; [exact E1|]. split; [rewrite Hp; exact (put32_Ok (put_dev d1 s) _ _ _ E2)|].
    set (q' := set_bufs _ _). set (s4 := put_queue q' (put_dev d3 s)).
    destruct (wait_Ok INT_DATA_DONE Drained n s4 (λ d d', phase_of d' = Idle ∧ disk d' = disk d)) as (d5 & d6 & E6 & Hd5 & Hp6 & Hd6); [done|done|done|done| |].
    { intros d Hd. destruct (ack_drained d Hd) as (d' & E & Hpp & Hdd). by exists d'. }
    exists d6. simpl. split_and!; [|done|simpl in Hd5; intros a'; congruence|reflexivity|done].
    erewrite bind_Ok by exact E3. erewrite bind_Ok by (apply on_queue_Ok; by apply upd_buf_Ok). fold q'. by erewrite bind_Ok by exact E6.
Qed.

Lemma qrep_upd q L b x x' : bq_mem q !! b = Some x → b_next x' = b_next x → qrep q L → qrep (set_bufs (<[b := x']> (bq_mem q)) q) L.
Proof.
  intros Hx Hn [H1 H2 H3 H4 H5 H6]. constructor; try done. eapply linked_ext; [|exact H1]. intros p _. simpl.
  destruct (decide (p = b)) as [->|]; [rewrite lookup_insert_eq, Hx; simpl; by rewrite Hn|by rewrite lookup_insert_ne].
Qed.
Lemma words_of_disk t c x k : t = transfer_of c x → (∀ a, length (k a) = WORDS) → ∀ a, length (disk_after t k a) = WORDS.
Proof.
  intros -> Hk a. unfold transfer_of. destruct (test _ _); [|apply Hk]. simpl. case_decide; [apply words_of_length|apply Hk].
Qed.

Definition served (s s' : Sd D) (b : Z) (x : Buf) : Prop :=
  let t := transfer_of (sd_card s) x in
  sd_woken s' = sd_woken s ++ [b] ∧ card_type (sd_card s') = card_type (sd_card s) ∧
  (∀ a, disk (sd_dev s') a = disk_after t (disk (sd_dev s)) a) ∧
  request <$> bq_mem (sd_queue s') !! b = Some (B_VALID, b_blockno x, data_after t (disk (sd_dev s)) (b_data x)) ∧
  ∀ p, p ≠ b → request <$> bq_mem (sd_queue s') !! p = request <$> bq_mem (sd_queue s) !! p.

Lemma sd_intr_Ok s b L x : serves s (b :: L) true → bq_mem (sd_queue s) !! b = Some x →
  ∃ s', sd_intr me s = Ok () s' ∧ serves s' L false ∧ served s s' b x.
Proof.
  intros [Hq Hsd Hrep HB Hph Hdisk] Hx. unfold sd_intr. erewrite bind_Ok by (by apply take_qlock).
  erewrite bind_Ok by (apply on_queue_Ok; by eapply empty_Ok). set (s1 := put_queue _ _). rewrite bool_decide_eq_false_2 by done. cbn [negb].
  simpl in Hph. rewrite Hx in Hph.
  destruct (transfer_done s1 b x Hx Hdisk Hph) as (d0 & d & q & x1 & E0 & E1 & d2 & E2 & Hp2 & Hd2 & -> & ->). set (t := transfer_of _ x) in *.
  assert (Ht : irq (phase_of (sd_dev s1)) = if test (b_flags x) B_DIRTY then INT_DATA_DONE else INT_READ_RDY).
  { simpl. rewrite Hph. unfold t, transfer_of. by destruct (test (b_flags x) B_DIRTY). }
  erewrite bind_Ok by exact E0. rewrite Ht in *. erewrite bind_Ok by exact E1.
  erewrite bind_Ok by (apply on_queue_Ok; by eapply front_Ok). rewrite put_queue_id.
  replace (negb _ && negb _) with false by (by destruct (test (b_flags x) B_DIRTY)).
  erewrite bind_Ok by (apply on_queue_Ok; by apply get_buf_Ok). rewrite put_queue_id.
  replace (_ && negb _ || _ && negb _) with false by (by destruct (test (b_flags x) B_DIRTY)).
  erewrite bind_Ok by exact E2. set (x1 := with_data _ x) in *. set (q1 := set_bufs _ _).
  erewrite bind_Ok by (apply on_queue_Ok, upd_buf_Ok; simpl; by rewrite lookup_insert_eq).
  erewrite bind_Ok by done. set (x2 := with_flags B_VALID x1). simpl bq_mem. rewrite insert_insert_eq.
  set (q2 := set_bufs (<[b := x2]> _) _). set (s3 := put_woken _ _).
  assert (Hrep2 : qrep q2 (b :: L)) by (by apply (qrep_upd (sd_queue s) _ b x)).
  destruct (pop_Ok q2 b L Hrep2) as (q3 & E3 & Hrep3 & HS3).
  erewrite bind_Ok by (apply on_queue_Ok; exact E3). erewrite bind_Ok by (apply on_queue_Ok; by eapply empty_Ok).
  set (s4 := put_queue q3 _).
  assert (Hb2 : request <$> bq_mem q3 !! b = Some (request x2)) by (rewrite (HS3 b); simpl; by rewrite lookup_insert_eq).
  assert (Ho2 : ∀ p, p ≠ b → request <$> bq_mem q3 !! p = request <$> bq_mem (sd_queue s) !! p).
  { intros p Hne. rewrite (HS3 p). simpl. by rewrite lookup_insert_ne. }
  assert (HB3 : ∀ b', b' ∈ L → ∃ y, bq_mem q3 !! b' = Some y ∧ request_ok b' y).
  { intros b' Hb'. destruct (HB b') as (z & Hz & Hrz); [apply elem_of_cons; by right|]. pose proof (qr_nodup _ _ Hrep) as [Hnb _]%NoDup_cons.
    pose proof (Ho2 b' ltac:(by intros ->)) as Ez. rewrite Hz in Ez. destruct (bq_mem q3 !! b') as [y|]; [|done]. exists y. split; [done|].
    eapply request_ok_same; [|exact Hrz]. simpl in Ez. congruence. }
  assert (Hdisk2 : ∀ a, length (disk d2 a) = WORDS) by (intros a; rewrite Hd2; by eapply words_of_disk).
  destruct L as [|b1 L].
  - rewrite bool_decide_eq_true_2 by done. cbn [negb]. erewrite bind_Ok by done. erewrite give_qlock by done. eexists. split; [done|].
    split; [by constructor|]. done.
  - rewrite bool_decide_eq_false_2 by done. cbn [negb]. destruct (HB3 b1) as (y & Hy & Hry); [apply elem_of_cons; by left|].
    destruct (start_front_Ok s4 b1 L y Hrep3 Hy (proj1 Hry) Hp2 Hsd) as (d5 & c5 & E5 & Hc5 & Hd5 & Hp5).
    erewrite bind_Ok by exact E5. erewrite give_qlock by done. eexists. split; [done|]. simpl in Hd5. split.
    + constructor; simpl; [done|done|done|done| |by rewrite Hd5]. rewrite Hy, Hp5. f_equal. by apply request_transfer.
    + split_and!; simpl; [done|done|by rewrite Hd5|done|done].
Qed.

Lemma sdrw_resume_Ok s b x : locked (sd_qlock s) = false → bq_mem (sd_queue s) !! b = Some x →
  sdrw_resume me b s = if b_flags x =? B_VALID then Ok () (put_qlock (init_spinlock (lname (sd_qlock s))) s)
                       else Blocked (put_qlock (init_spinlock (lname (sd_qlock s))) s).
Proof.
  intros Hl Hx. unfold sdrw_resume, sdrw_loop. erewrite bind_Ok by (by apply take_qlock). erewrite bind_Ok by (apply on_queue_Ok; by apply get_buf_Ok).
  destruct (b_flags x =? B_VALID); [by erewrite give_qlock by done|by erewrite bind_Ok by (by apply give_qlock)].
Qed.

Lemma sd_intr_none s r : serves s [] r → sd_intr me s = Ok () (put_qlock (init_spinlock (lname (sd_qlock s))) s).
Proof.
  intros [Hq Hsd Hrep HB Hph Hdisk]. unfold sd_intr. erewrite bind_Ok by (by apply take_qlock).
  erewrite bind_Ok by (apply on_queue_Ok; by eapply empty_Ok). rewrite bool_decide_eq_true_2 by done. cbn [negb]. erewrite give_qlock by done.
  by destruct s.
Qed.

(** Every run of the driver: a thread hands a request over and goes to sleep, the
    controller finishes the transfer it works on, the interrupt handler runs. [subs]
    are the buffers handed over so far. *)
Inductive sd_reach : Sd D → list Z → Prop :=
| reach_init s : serves s [] false → sd_woken s = [] → sd_reach s []
| reach_submit s subs b x s' : sd_reach s subs → b ∉ drop (length (sd_woken s)) subs → bq_mem (sd_queue s) !! b = Some x → request_ok b x →
    Z.of_nat (length subs) + 1 < 2 ^ 31 - 1 → sdrw me b s = Blocked s' → sd_reach s' (subs ++ [b])
| reach_raise s subs d' t : sd_reach s subs → phase_of (sd_dev s) = Working t → phase_of d' = Ready t → disk d' = disk (sd_dev s) →
    sd_reach (put_dev d' s) subs
| reach_intr s subs s' : sd_reach s subs → phase_of (sd_dev s) = Idle ∨ (∃ t, phase_of (sd_dev s) = Ready t) → sd_intr me s = Ok () s' → sd_reach s' subs.

Lemma serves_head s b L r : serves s (b :: L) r → ∃ x, bq_mem (sd_queue s) !! b = Some x ∧
  phase_of (sd_dev s) = (if r then Ready else Working) (transfer_of (sd_card s) x).
Proof.
  intros Hs. destruct (sv_bufs _ _ _ Hs b) as (x & Hx & _); [apply elem_of_cons; by left|]. exists x. split; [done|]. pose proof (sv_phase _ _ _ Hs) as Hp.
  simpl in Hp. by rewrite Hx in Hp.
Qed.
Lemma reach_serves s subs : sd_reach s subs → ∃ L r, subs = sd_woken s ++ L ∧ serves s L r.
Proof.
  induction 1 as [s Hs Hw|s subs b x s' _ (L & r & -> & Hs) Hb Hx Hr Hlen E|s subs d' t _ (L & r & -> & Hs) Hp Hp' Hd|s subs s' _ (L & r & -> & Hs) Hp E].
  - exists [], false. by rewrite Hw.
  - rewrite drop_app_length in Hb. rewrite length_app in Hlen. destruct (sdrw_Ok s L r b x Hs Hb Hx Hr ltac:(lia)) as (s2 & E2 & Hs2 & Hw & _).
    rewrite E in E2. injection E2 as <-. eexists (L ++ [b]), _. split; [by rewrite Hw, app_assoc|done].
  - exists L, true. split; [done|]. destruct L as [|b L]; [destruct Hs as [? ? ? ? E]; simpl in E; congruence|].
    destruct (serves_head _ _ _ _ Hs) as (x & Hx & E). destruct Hs as [H1 H2 H3 H4 H5 H6]. constructor; try done; simpl.
    + rewrite Hx. destruct r; congruence.
    + by rewrite Hd.
  - destruct L as [|b L].
    + rewrite (sd_intr_none s r Hs) in E. injection E as <-. exists [], r. split; [done|]. by destruct Hs; constructor.
    + destruct (serves_head _ _ _ _ Hs) as (x & Hx & Ep). destruct r; [|destruct Hp as [Hp|[t Hp]]; congruence].
      destruct (sd_intr_Ok s b L x Hs Hx) as (s2 & E2 & Hs2 & Hw & _). rewrite E in E2. injection E2 as <-.
      exists L, false. split; [|done]. by rewrite Hw, <- app_assoc.
Qed.

(** What the driver promises in a state: the requests that are not finished wait in
    the order of the calls; another call is accepted and only queued; the interrupt
    of the controller finishes the first request, wakes its caller, which then
    returns, and starts the next one; an interrupt without a request does nothing. *)
Definition sd_promises (s : Sd D) (subs : list Z) : Prop :=
  ∃ L r, subs = sd_woken s ++ L ∧ serves s L r ∧
  (∀ b x, b ∉ L → bq_mem (sd_queue s) !! b = Some x → request_ok b x → Z.of_nat (length L) + 1 < 2 ^ 31 - 1 →
     ∃ s', sdrw me b s = Blocked s' ∧ sdrw_post s s') ∧
  (∀ b x L', L = b :: L' → r = true → bq_mem (sd_queue s) !! b = Some x →
     ∃ s', sd_intr me s = Ok () s' ∧ served s s' b x ∧ ∃ s'', sdrw_resume me b s' = Ok () s'' ∧ sd_queue s'' = sd_queue s') ∧
  (L = [] → ∃ s', sd_intr me s = Ok () s' ∧ sd_queue s' = sd_queue s ∧ sd_dev s' = sd_dev s ∧ sd_woken s' = sd_woken s).

Lemma slice_next {A} (l : list A) a n m : slice a n l ++ slice (a + n) m l = slice a (n + m) l.
Proof. unfold slice. rewrite <- drop_drop. apply take_take_drop. Qed.
Lemma bytes_of_slices data n : Forall (λ v, 0 ≤ v < 256) data → ∀ k, (4 * (k + n) ≤ length data)%nat →
  bytes_of ((λ i, le_val (slice (4 * i) 4 data)) <$> seq k n) = slice (4 * k) (4 * n) data.
Proof.
  intros Hr. induction n as [|n IH]; intros k Hk; [done|].
  rewrite <- cons_seq, fmap_cons. unfold bytes_of in *. rewrite bind_cons, IH by lia.
  assert (E : le_bytes 4 (le_val (slice (4 * k) 4 data)) = slice (4 * k) 4 data).
  { rewrite <- (length_slice (4 * k) 4 data) at 1 by lia. apply le_bytes_val. unfold slice. by apply Forall_take, Forall_drop. }
  rewrite E. replace (4 * S k)%nat with (4 * k + 4)%nat by lia. rewrite slice_next. f_equal. lia.
Qed.
Lemma bytes_of_words_of data : length data = Z.to_nat BSIZE → Forall (λ v, 0 ≤ v < 256) data → bytes_of (words_of data) = data.
Proof.
  intros Hl Hr. unfold words_of. rewrite bytes_of_slices by (done || (rewrite Hl; unfold BSIZE; lia)).
  unfold slice. rewrite drop_0. apply take_ge. rewrite Hl. unfold BSIZE. lia.
Qed.

(** C11. The SD driver is a first-in first-out server of block requests. In every
    state that the calls of [sdrw], the transfers of the controller and the runs of
    the interrupt handler can lead to, the buffers not yet finished are exactly the
    last ones handed over, in the order of the calls, and the controller works on the
    first of them. A further call is queued behind them and sleeps, without changing
    any other request. When the controller raises its interrupt, the handler returns,
    the first buffer is valid, holds the block of the card if it was read (the card
    holds its bytes if it was written, and nothing else changed), its caller is woken
    and returns, and the next transfer is started; an interrupt with an empty queue
    changes nothing. No run panics or waits for a lock, and the words of a block give
    its bytes back. *)
Theorem sd_requests_correct s subs : sd_reach s subs →
  sd_promises s subs ∧
  ∀ data, length data = Z.to_nat BSIZE → Forall (λ v, 0 ≤ v < 256) data → bytes_of (words_of data) = data.
Proof.
  intros (L & r & E & Hs)%reach_serves. split; [|apply bytes_of_words_of]. exists L, r. split_and!; [done|done|..].
  - intros b x Hb Hx Hr Hlen. destruct (sdrw_Ok s L r b x Hs Hb Hx Hr Hlen) as (s' & E' & _ & Hp). by exists s'.
  - intros b x L' -> -> Hx. destruct (sd_intr_Ok s b L' x Hs Hx) as (s' & E' & Hs' & HS). exists s'. split_and!; [done|done|].
    destruct HS as (_ & _ & _ & Hb & _). destruct (bq_mem (sd_queue s') !! b) as [y|] eqn:Ey; [|done]. injection Hb as Hf _ _.
    eexists. split; [rewrite (sdrw_resume_Ok s' b y (sv_qlock _ _ _ Hs') Ey), Hf; reflexivity|done].
  - intros ->. rewrite (sd_intr_none s r Hs). by eexists.
Qed.
End spec.

(** ** A controller *)

(** A controller that answers at once, and a card of zeros. *)
Definition demo_dev : Type := phase * (Z → list Z).
Definition demo_read (r : reg) : M demo_dev Z := λ '(p, k),
  match r, p with
  | EMMC_INTERRUPT, _ => Ok (irq p) (polled p, k)
  | EMMC_DATA, Draining a (w :: ws) => Ok w (match ws with [] => Drained 0 | _ => Draining a ws end, k)
  | _, _ => Ok 0 (p, k)
  end.
Definition demo_write (r : reg) (v : Z) : M demo_dev unit := λ '(p, k),
  match r, p with
  | EMMC_ARG1, Idle => Ok () (Armed v, k)
  | EMMC_CMDTM, Armed a => Ok () (Issued 0 (v =? WRITE_SINGLE) a, k)
  | EMMC_INTERRUPT, Issued 0 wr a => Ok () (if wr then WaitWrite 0 a else Working (TRead a), k)
  | EMMC_INTERRUPT, WaitWrite 0 a => Ok () (Filling a [], k)
  | EMMC_INTERRUPT, Ready (TRead a) => Ok () (Draining a (k a), k)
  | EMMC_INTERRUPT, Ready (TWrite a ws) => Ok () (Idle, λ b, if decide (b = a) then ws else k b)
  | EMMC_INTERRUPT, Drained 0 => Ok () (Idle, k)
  | EMMC_DATA, Filling a ws =>
      Ok () (if decide (S (length ws) = WORDS) then Working (TWrite a (ws ++ [v])) else Filling a (ws ++ [v]), k)
  | _, _ => Ok () (p, k)
  end.
#[global] Instance demo_emmc : Emmc demo_dev := {
  mmio_read := demo_read;
  mmio_write := demo_write;
  mbox_get_clock_rate _ := mret 0
}.
#[global] Instance demo_emmc_card : EmmcCard demo_dev.
Proof.
  refine {| phase_of d := d.1; disk d := d.2 |}; intros [p k]; intros; simpl in *; subst; simpl; try by eauto 6.
  - destruct wr; eexists; split_and!; try done. by exists 0%nat.
  - exists (Issued 0 wr a, k), 0%nat. by destruct wr.
  - destruct ws; eexists; split_and!; try done. by exists 0%nat.
Defined.

(** Block 5 is read and block 7 written, by two threads. *)
Definition demo_sd : Sd demo_dev :=
  mkSd (Idle, λ _, replicate WORDS 0) (mkDescriptor 0 [] [] [] 0 0 0 SD_TYPE_2_HC 0 true false 0 0 0 None 0) 2
    (init_spinlock "sdlock") (init_spinlock "qlock")
    (mkBufs (mkQueue NULL NULL 0) {[16 := mkBuf 0 5 (replicate 512 9) 0 0; 1024 := mkBuf (Z.lor B_DIRTY B_VALID) 7 (replicate 512 1) 0 0]}) [] (0, 0).
Definition state_of {A} (s : Sd demo_dev) (o : outcome (Sd demo_dev) A) : Sd demo_dev :=
  match o with Ok _ s' | Blocked s' => s' | _ => s end.
Definition demo_sd1 : Sd demo_dev := state_of demo_sd (sdrw 0 16 demo_sd).
Definition demo_sd2 : Sd demo_dev := state_of demo_sd1 (sdrw 0 1024 demo_sd1).
Definition demo_sd3 : Sd demo_dev := put_dev (Ready (TRead 5), disk (sd_dev demo_sd2)) demo_sd2.
Definition demo_sd4 : Sd demo_dev := state_of demo_sd3 (sd_intr 0 demo_sd3).

Lemma demo_serves : serves demo_sd [] false.
Proof.
  constructor; try done.
  - constructor; try done. constructor.
  - by intros b Hb%elem_of_nil.
Qed.
Lemma demo_reach : sd_reach 0 demo_sd4 [16; 1024].
Proof.
  assert (Hb : ∀ n v, 0 ≤ v < 256 → Forall (λ w, 0 ≤ w < 256) (replicate n v)) by (intros; by apply Forall_replicate).
  eapply (reach_intr _ demo_sd3); [|right; by exists (TRead 5)|by vm_compute].
  eapply (reach_raise _ demo_sd2 _ _ (TRead 5)); [|by vm_compute|done|done].
  eapply (reach_submit _ demo_sd1 [16] 1024); [| |reflexivity| |done|by vm_compute].
  - eapply (reach_submit _ demo_sd [] 16); [by apply reach_init; [apply demo_serves|]| |reflexivity| |done|by vm_compute].
    + by intros ?%elem_of_nil.
    + split_and!; [done|done|done|by apply Hb].
  - vm_compute. by intros ?%list_elem_of_singleton.
  - split_and!; [done|done|done|by apply Hb].
Qed.
Lemma sd_requests_correct_witness :
  sd_promises 0 demo_sd4 [16; 1024] ∧ sd_woken demo_sd4 = [16] ∧ phase_of (sd_dev demo_sd4) = Working (TWrite 7 (replicate WORDS 0x01010101)) ∧
  b_data <$> bq_mem (sd_queue demo_sd4) !! 16 = Some (replicate 512 0).
Proof. split; [exact (proj1 (sd_requests_correct 0 demo_sd4 [16; 1024] demo_reach))|]. split_and!; by vm_compute. Defined.
