(* ===== verification/SdInit.v ===== *)
(** * Setting up the SD card (driver/sd.c)

    The clock divider, the capacity of the card, the sequence of commands that brings a
    card into transfer state, and reading the partition table. *)
From S2P Require Import Prelude Locks Buf Sd.

(** ** The clock *)

(** Each step tests the top bits of the low 32 and shifts them up. *)
Definition fls_step (mask n : Z) (xr : Z * Z) : Z * Z :=
  let '(x, r) := xr in if Z.land x mask =? 0 then (u64 (Z.shiftl x n), r - n) else (x, r).
Definition fls_long (x : Z) : Z :=
  if x =? 0 then 0
  else (fls_step 0x80000000 1 (fls_step 0xc0000000 2 (fls_step 0xf0000000 4 (fls_step 0xff000000 8 (fls_step 0xffff0000 16 (x, 32)))))).2.
Definition roundup_pow_of_two (x : Z) : Z := u64 (Z.shiftl 1 (fls_long (u64 (x - 1)))).

(** The divisor, and its two parts in the control register. *)
Definition clock_divisor (hostver freq : Z) : Z :=
  let closest := 41666666 / freq in
  let shiftcount := fls_long (u32 (closest - 1)) in
  let shiftcount := if 0 <? shiftcount then shiftcount - 1 else shiftcount in
  let shiftcount := if 7 <? shiftcount then 7 else shiftcount in
  let divisor := if HOST_SPEC_V2 <? hostver then closest else u32 (Z.shiftl 1 shiftcount) in
  if divisor <=? 2 then 2 else divisor.
Definition sdGetClockDivider (hostver freq : Z) : Z :=
  let divisor := clock_divisor hostver freq in
  let hi := if HOST_SPEC_V2 <? hostver then Z.shiftr (Z.land divisor 0x300) 2 else 0 in
  let lo := Z.land divisor 0x0ff in
  u32 (u32 (Z.shiftl lo 8) + hi).

(** ** The capacity *)

Definition CSD0_VERSION : Z := 0x00c00000.
Definition CSD0_V1 : Z := 0.
Definition CSD1VN_READ_BL_LEN : Z := 0xf00.
Definition CSD1VN_READ_BL_LEN_SHIFT : Z := 8.
Definition CSD3VN_FILE_FORMAT : Z := 0xc.
Definition CSD3VN_FILE_FORMAT_HDD : Z := 0.
Definition CSD3VN_FILE_FORMAT_DOSFAT : Z := 4.
Definition CSD1V1_C_SIZEH : Z := 0x3.
Definition CSD1V1_C_SIZEH_SHIFT : Z := 10.
Definition CSD2V1_C_SIZEL : Z := 0xffc00000.
Definition CSD2V1_C_SIZEL_SHIFT : Z := 22.
Definition CSD2V1_C_SIZE_MULT : Z := 0x380.
Definition CSD2V1_C_SIZE_MULT_SHIFT : Z := 7.
Definition CSD2V2_C_SIZE : Z := 0x3fffff00.
Definition CSD2V2_C_SIZE_SHIFT : Z := 8.

Definition csd_capacity (csd0 csd1 csd2 : Z) : Z :=
  if Z.land csd0 CSD0_VERSION =? CSD0_V1 then
    let csize := i32 (u32 (Z.shiftl (Z.land csd1 CSD1V1_C_SIZEH) CSD1V1_C_SIZEH_SHIFT) +
                      Z.shiftr (Z.land csd2 CSD2V1_C_SIZEL) CSD2V1_C_SIZEL_SHIFT) in
    let mult := i32 (Z.shiftl 1 (Z.shiftr (Z.land csd2 CSD2V1_C_SIZE_MULT) CSD2V1_C_SIZE_MULT_SHIFT + 2)) in
    let blockSize := i32 (Z.shiftl 1 (Z.shiftr (Z.land csd1 CSD1VN_READ_BL_LEN) CSD1VN_READ_BL_LEN_SHIFT)) in
    let numBlocks := i64 ((csize + 1) * mult) in
    u64 (i64 (numBlocks * blockSize))
  else
    let csize := Z.shiftr (Z.land csd2 CSD2V2_C_SIZE) CSD2V2_C_SIZE_SHIFT in
    u64 (i64 ((csize + 1) * 512 * 1024)).

Section sdinit.
Context {D : Type} `{Emmc D} (me : Z).
Local Notation SD := (Sd D).

Definition word (l : list Z) (i : nat) : M SD Z := derefM (l !! i).
Definition sdParseCSD : M SD unit :=
  c ← gets sd_card;
  csd0 ← word (card_csd c) 0;
  csd1 ← word (card_csd c) 1;
  csd2 ← word (card_csd c) 2;
  csd3 ← word (card_csd c) 3;
  upd_card (λ c, with_fileFormat (Z.land csd3 CSD3VN_FILE_FORMAT) (with_capacity (csd_capacity csd0 csd1 csd2) c)).

Definition SCR_SD_BUS_WIDTH_1 : Z := 0x100.
Definition SCR_SD_BUS_WIDTH_4 : Z := 0x400.
Definition SCR_CMD_SUPP_SET_BLKCNT : Z := 0x02000000.
Definition SCR_CMD_SUPP_SPEED_CLASS : Z := 0x01000000.

(** Reading the two words of the SCR, with [count] polls left. *)
Fixpoint read_scr (fuel : nat) (words : list Z) (count : Z) : M SD (list Z) :=
  match fuel with
  | O => nofuel
  | S fuel' =>
      if (length words <? 2)%nat then
        s ← get32 EMMC_STATUS;
        if test s SR_READ_AVAILABLE then w ← get32 EMMC_DATA; read_scr fuel' (words ++ [w]) count
        else if count - 1 =? 0 then mret words else read_scr fuel' words (count - 1)
      else mret words
  end.
Definition scr_support (scr0 : Z) : Z :=
  let add c mask bit := if test scr0 mask then Z.lor c bit else c in
  add (add (add (add 0 SCR_SD_BUS_WIDTH_4 SD_SUPP_BUS_WIDTH_4) SCR_SD_BUS_WIDTH_1 SD_SUPP_BUS_WIDTH_1)
    SCR_CMD_SUPP_SET_BLKCNT SD_SUPP_SET_BLOCK_COUNT) SCR_CMD_SUPP_SPEED_CLASS SD_SUPP_SPEED_CLASS.
(** [sdCard.scr[numRead++] = *EMMC_DATA] overwrites only the words that were read. *)
Definition sdReadSCR : M SD Z :=
  busy ← sdWaitForData;
  if negb (busy =? 0) then mret SD_TIMEOUT
  else
    put32 EMMC_BLKSIZECNT (Z.lor (Z.shiftl 1 16) 8);;
    resp ← sdSendCommand IX_SEND_SCR;
    if negb (resp =? 0) then sdDebugResponse resp
    else
      resp ← sdWaitForInterrupt INT_READ_RDY;
      if negb (resp =? 0) then sdDebugResponse resp
      else
        words ← read_scr (Z.to_nat 100003) [] 100000;
        upd_card (λ c, with_scr (words ++ drop (length words) (card_scr c)) c);;
        if negb (length words =? 2)%nat then
          print_regs [EMMC_STATUS; EMMC_INTERRUPT; EMMC_RESP0];; mret SD_TIMEOUT
        else
          scr0 ← word words 0;
          upd_card (λ c, with_support (Z.lor (card_support c) (scr_support scr0)) c);;
          mret SD_OK.

Definition sdSetClock (freq : Z) : M SD Z :=
  count ← poll_pre (s ← get32 EMMC_STATUS; mret (test s (Z.lor SR_CMD_INHIBIT SR_DAT_INHIBIT))) (Z.to_nat 100000);
  if count <=? 0 then print_regs [EMMC_STATUS];; mret SD_ERROR_CLOCK
  else
    c1 ← get32 EMMC_CONTROL1;
    put32 EMMC_CONTROL1 (Z.land c1 (u32 (Z.lnot C1_CLK_EN)));;
    hv ← gets sd_hostver;
    c1 ← get32 EMMC_CONTROL1;
    put32 EMMC_CONTROL1 (Z.lor (Z.land c1 0xffff003f) (sdGetClockDivider hv freq));;
    c1 ← get32 EMMC_CONTROL1;
    put32 EMMC_CONTROL1 (Z.lor c1 C1_CLK_EN);;
    count ← poll (v ← get32 EMMC_CONTROL1; mret (negb (test v C1_CLK_STABLE))) (Z.to_nat 10000);
    if count <=? 0 then mret SD_ERROR_CLOCK
    else print_regs [EMMC_STATUS; EMMC_CONTROL1];; mret SD_OK.

Definition sdResetCard (resetType : Z) : M SD Z :=
  put32 EMMC_CONTROL0 0;;
  c1 ← get32 EMMC_CONTROL1;
  put32 EMMC_CONTROL1 (Z.lor c1 resetType);;
  count ← poll (v ← get32 EMMC_CONTROL1; mret (test v resetType)) (Z.to_nat 10000);
  if count <=? 0 then mret SD_ERROR_RESET
  else
    c1 ← get32 EMMC_CONTROL1;
    put32 EMMC_CONTROL1 (Z.lor c1 (Z.lor C1_CLK_INTLEN C1_TOUNIT_MAX));;
    resp ← sdSetClock FREQ_SETUP;
    if negb (resp =? 0) then mret resp
    else
      put32 EMMC_IRPT_EN (Z.land (Z.land 0xffffffff (u32 (Z.lnot INT_CMD_DONE))) (u32 (Z.lnot INT_WRITE_RDY)));;
      put32 EMMC_IRPT_MASK 0xffffffff;;
      upd_card (λ c, with_uhsi 0 (with_type 0 (with_status 0 (with_lastCmd None (with_lastArg 0 (with_ocr 0 (with_rca 0 c)))))));;
      sdSendCommand IX_GO_IDLE_STATE.

(** One round of ACMD41: [Some] is an error that ends the function. *)
Definition op_cond_round (arg : Z) : M SD (option Z) :=
  resp ← sdSendCommandA IX_APP_SEND_OP_COND arg;
  mret (if negb (resp =? 0) && negb (resp =? SD_TIMEOUT) then Some resp else None).
(** [while (!(sdCard.ocr & R3_COMPLETE) && count--)] *)
Fixpoint op_cond_loop (count : nat) (arg : Z) : M SD (option Z) :=
  c ← gets sd_card;
  if test (card_ocr c) R3_COMPLETE then mret None
  else
    match count with
    | O => mret None
    | S count' =>
        print_regs [EMMC_STATUS];;
        r ← op_cond_round arg;
        match r with Some resp => mret (Some resp) | None => op_cond_loop count' arg end
    end.
Definition sdAppSendOpCond (arg : Z) : M SD Z :=
  print_regs [EMMC_STATUS];;
  r ← op_cond_round arg;
  match r with
  | Some resp => mret resp
  | None =>
      r ← op_cond_loop 6 arg;
      match r with
      | Some resp => mret resp
      | None =>
          c ← gets sd_card;
          mret (if negb (test (card_ocr c) R3_COMPLETE) then SD_TIMEOUT
                else if negb (test (card_ocr c) ACMD41_VOLTAGE) then SD_ERROR_VOLTAGE else SD_OK)
      end
  end.

Definition sdSwitchVoltage : M SD Z := mret SD_OK.

(** Pull-up of the lines [clk] of bank 1, after [r] was written. *)
Definition pull_up (clk : Z) : M SD unit :=
  put32 GPPUD 2;; put32 GPPUDCLK1 clk;; put32 GPPUD 0;; put32 GPPUDCLK1 0.
Definition sdInitGPIO : M SD unit :=
  r ← get32 GPFSEL4;
  put32 GPFSEL4 (Z.land r (u32 (Z.lnot (Z.shiftl 7 (7 * 3)))));;
  pull_up (Z.shiftl 1 15);;
  r ← get32 GPHEN1;
  put32 GPHEN1 (Z.lor r (Z.shiftl 1 15));;
  r ← get32 GPFSEL4;
  put32 GPFSEL4 (Z.lor r (Z.lor (Z.shiftl 7 (8 * 3)) (Z.shiftl 7 (9 * 3))));;
  pull_up (Z.lor (Z.shiftl 1 16) (Z.shiftl 1 17));;
  r ← get32 GPFSEL5;
  put32 GPFSEL5 (Z.lor r (foldr Z.lor 0 [Z.shiftl 7 0; Z.shiftl 7 3; Z.shiftl 7 6; Z.shiftl 7 9]));;
  pull_up (foldr Z.lor 0 [Z.shiftl 1 18; Z.shiftl 1 19; Z.shiftl 1 20; Z.shiftl 1 21]).

Definition MBX_PROP_CLOCK_EMMC : Z := 1.
(** [sdBaseClock] is only printed afterwards. *)
Definition sdGetBaseClock : M SD Z :=
  rate ← on_dev (mbox_get_clock_rate MBX_PROP_CLOCK_EMMC);
  mret (if rate =? -1 then SD_ERROR else SD_OK).

(** [if ((resp = m)) return resp;] and [if ((resp = m)) return sdDebugResponse(resp);] *)
Definition check (m k : M SD Z) : M SD Z := resp ← m; if negb (resp =? 0) then mret resp else k.
Definition check_debug (m k : M SD Z) : M SD Z := resp ← m; if negb (resp =? 0) then sdDebugResponse resp else k.

(** The voltage and the type of the card, up to the end of the [if]. *)
Definition identify (k : M SD Z) : M SD Z :=
  resp ← sdSendCommandA IX_SEND_IF_COND 0x1AA;
  if resp =? SD_OK then
    check_debug (sdAppSendOpCond ACMD41_ARG_HC) (
      upd_card (λ c, with_type (if test (card_ocr c) R3_CCS then SD_TYPE_2_HC else SD_TYPE_2_SC) c);; k)
  else if resp =? SD_BUSY then mret resp
  else
    st ← get32 EMMC_STATUS;
    (if test st SR_CMD_INHIBIT then check (sdResetCard C1_SRST_HC) else λ k, k) (
      check_debug (sdAppSendOpCond ACMD41_ARG_SC) (upd_card (with_type SD_TYPE_1);; k)).
(** From the identification of the card to the end of [sdInit]. *)
Definition transfer_state (oldCID : list Z) : M SD Z :=
  c ← gets sd_card;
  (if test (card_ocr c) R3_S18A then check sdSwitchVoltage else λ k, k) (
  check_debug (sdSendCommand IX_ALL_SEND_CID) (
  check_debug (sdSendCommand IX_SEND_REL_ADDR) (
  check_debug (sdSendCommand IX_SEND_CSD) (
  sdParseCSD;;
  c ← gets sd_card;
  if negb (card_fileFormat c =? CSD3VN_FILE_FORMAT_DOSFAT) && negb (card_fileFormat c =? CSD3VN_FILE_FORMAT_HDD) then mret SD_ERROR
  else
    check_debug (sdSetClock FREQ_NORMAL) (
    check_debug (sdSendCommand IX_CARD_SELECT) (
    check_debug sdReadSCR (
    c ← gets sd_card;
    (if test (card_support c) SD_SUPP_BUS_WIDTH_4 then
       λ k, check_debug (sdSendCommandA IX_SET_BUS_WIDTH (i32 (Z.lor (card_rca c) 2)))
              (c0 ← get32 EMMC_CONTROL0; put32 EMMC_CONTROL0 (Z.lor c0 C0_HCTL_DWITDH);; k)
     else λ k, k) (
    check_debug (sdSendCommandA IX_SET_BLOCKLEN 512) (
    upd_card (with_init true);;
    c ← gets sd_card;
    mret (if decide (oldCID = card_cid c) then SD_CARD_REINSERTED else SD_CARD_CHANGED)))))))))).
(** [cardAbsent] is the constant 0. *)
Definition sdInit : M SD Z :=
  c ← gets sd_card;
  (if negb (card_init c) then sdInitGPIO else mret ());;
  eds ← get32 GPEDS1;
  let cardEjected := test eds (Z.shiftl 1 (47 - 32)) in
  upd_card (with_absent false);;
  c ← gets sd_card;
  oldCID ← (if cardEjected && card_init c then upd_card (with_init false);; mret (card_cid c)
            else mret (replicate 4 0));
  c ← gets sd_card;
  if card_init c then mret SD_OK
  else
    v ← get32 EMMC_SLOTISR_VER;
    modify (put_hostver (Z.shiftr (Z.land v HOST_SPEC_NUM) HOST_SPEC_NUM_SHIFT));;
    check sdGetBaseClock (check (sdResetCard C1_SRST_HC) (identify (transfer_state oldCID))).

(** ** The partition table *)

(** The answer of [sdInit] is not looked at. The handlers of the two interrupts are
    set by the interrupt controller, which is another component. *)
Definition sd_init (mbr : Z) : M SD unit :=
  sdInit;;
  modify (put_sdlock (init_spinlock "sdlock"));;
  modify (put_qlock (init_spinlock "qlock"));;
  on_queue initBufQueue;;
  sd_start mbr;;
  sdWaitForInterrupt INT_READ_RDY;;
  ws ← read_words 128;
  on_queue (upd_buf mbr (with_data (bytes_of ws)));;
  sdWaitForInterrupt INT_DATA_DONE;;
  modify (put_mbr (le_val (slice 470 4 (bytes_of ws)), le_val (slice 474 4 (bytes_of ws)))).
End sdinit.

(** ** The clock divider and the capacity *)

(** The top [n] bits of 32. *)
Lemma land_top (n x : Z) : 0 < n ≤ 32 → 0 ≤ x < 2 ^ 32 → Z.land x (2 ^ 32 - 2 ^ (32 - n)) = x / 2 ^ (32 - n) * 2 ^ (32 - n).
Proof.
  intros Hn Hx. replace (2 ^ 32 - 2 ^ (32 - n)) with (Z.shiftl (Z.ones n) (32 - n)).
  2: { rewrite Z.shiftl_mul_pow2, Z.ones_equiv, <- Z.sub_1_r by lia. rewrite Z.mul_sub_distr_r, <- Z.pow_add_r by lia.
       replace (n + (32 - n)) with 32 by lia. lia. }
  rewrite <- Z.shiftr_div_pow2, <- Z.shiftl_mul_pow2 by lia. apply Z.bits_inj'. intros i Hi. rewrite Z.land_spec.
  destruct (decide (i < 32 - n)).
  - rewrite !Z.shiftl_spec_low by lia. apply andb_false_r.
  - rewrite !Z.shiftl_spec_high by lia. rewrite Z.shiftr_spec by lia. replace (i - (32 - n) + (32 - n)) with i by lia.
    destruct (decide (i < 32)); [rewrite Z.ones_spec_low by lia; apply andb_true_r|].
    destruct (decide (x = 0)) as [->|]; [by rewrite Z.bits_0|]. assert (Z.log2 x < 32) by (apply Z.log2_lt_pow2; lia).
    by rewrite (Z.bits_above_log2 x i) by lia.
Qed.
(** One step of [fls_long]: the number moves up, its logarithm and [r] together. *)
Lemma fls_step_Ok n x r : 0 < n ≤ 16 → 2 ^ (32 - 2 * n) ≤ x < 2 ^ 32 →
  ∃ x' r', fls_step (2 ^ 32 - 2 ^ (32 - n)) n (x, r) = (x', r') ∧ 2 ^ (32 - n) ≤ x' < 2 ^ 32 ∧ Z.log2 x' - r = Z.log2 x - r'.
Proof.
  intros Hn Hx. assert (0 < 2 ^ (32 - 2 * n)) by lia. assert (0 < 2 ^ (32 - n)) by lia. unfold fls_step. rewrite land_top by lia.
  destruct (Z.eqb_spec (x / 2 ^ (32 - n) * 2 ^ (32 - n)) 0) as [E|E].
  - assert (Hlt : x < 2 ^ (32 - n)) by (apply Z.nle_gt; intros Hle; pose proof (Z.div_le_lower_bound x (2 ^ (32 - n)) 1); nia).
    exists (x * 2 ^ n), (r - n). rewrite Z.shiftl_mul_pow2 by lia.
    assert (H32 : 2 ^ (32 - n) * 2 ^ n = 2 ^ 32) by (rewrite <- Z.pow_add_r by lia; f_equal; lia).
    assert (H2n : 2 ^ (32 - 2 * n) * 2 ^ n = 2 ^ (32 - n)) by (rewrite <- Z.pow_add_r by lia; f_equal; lia).
    assert (0 < 2 ^ n) by lia. assert (x * 2 ^ n < 2 ^ 32) by nia. split_and!; [|nia|nia|].
    + unfold u64, wrap. rewrite Z.mod_small by (assert (2 ^ 32 < 2 ^ 64) by done; nia). done.
    + rewrite Z.log2_mul_pow2 by lia. lia.
  - exists x, r. split_and!; [done| |lia|done]. assert (x / 2 ^ (32 - n) ≠ 0) by nia. assert (1 ≤ x / 2 ^ (32 - n)) by (pose proof (Z.div_pos x (2 ^ (32 - n))); lia).
    pose proof (Z.mul_div_le x (2 ^ (32 - n))). nia.
Qed.
Lemma fls_long_Ok x : 0 < x < 2 ^ 32 → fls_long x = Z.log2 x + 1.
Proof.
  intros Hx. unfold fls_long. rewrite (proj2 (Z.eqb_neq _ _)) by lia.
  destruct (fls_step_Ok 16 x 32) as (x1 & r1 & E1 & H1 & L1); [lia|change (2 ^ (32 - 2 * 16)) with 1; lia|].
  destruct (fls_step_Ok 8 x1 r1) as (x2 & r2 & E2 & H2 & L2); [lia|exact H1|].
  destruct (fls_step_Ok 4 x2 r2) as (x3 & r3 & E3 & H3 & L3); [lia|exact H2|].
  destruct (fls_step_Ok 2 x3 r3) as (x4 & r4 & E4 & H4 & L4); [lia|exact H3|].
  destruct (fls_step_Ok 1 x4 r4) as (x5 & r5 & E5 & H5 & L5); [lia|exact H4|].
  change 0xffff0000 with (2 ^ 32 - 2 ^ (32 - 16)). change 0xff000000 with (2 ^ 32 - 2 ^ (32 - 8)). change 0xf0000000 with (2 ^ 32 - 2 ^ (32 - 4)).
  change 0xc0000000 with (2 ^ 32 - 2 ^ (32 - 2)). change 0x80000000 with (2 ^ 32 - 2 ^ (32 - 1)).
  rewrite E1, E2, E3, E4, E5. simpl. assert (Z.log2 x5 = 31) by (apply Z.log2_unique; [lia|split; [exact (proj1 H5)|exact (proj2 H5)]]). lia.
Qed.
(** Above 32 bits the answer is wrong. *)
Lemma fls_long_large : fls_long (2 ^ 32) = 1.
Proof. reflexivity. Qed.
Lemma roundup_pow_of_two_Ok x : 0 < x ≤ 2 ^ 32 → roundup_pow_of_two x = 2 ^ Z.log2_up x.
Proof.
  intros Hx. unfold roundup_pow_of_two. unfold u64 at 2, wrap. rewrite Z.mod_small by lia.
  destruct (decide (x = 1)) as [->|]; [done|]. rewrite fls_long_Ok by lia. rewrite Z.log2_up_eqn, <- Z.sub_1_r by lia.
  assert (0 ≤ Z.log2 (x - 1)) by apply Z.log2_nonneg. assert (Z.log2 (x - 1) < 32) by (apply Z.log2_lt_pow2; lia).
  rewrite Z.shiftl_mul_pow2, Z.mul_1_l by lia. unfold u64, wrap. apply Z.mod_small. split; [lia|]. apply Z.pow_lt_mono_r; lia.
Qed.

(** [n] bits of a register, from bit [lo]. *)
Definition field (lo n x : Z) : Z := (x / 2 ^ lo) mod 2 ^ n.
Lemma field_range lo n x : 0 ≤ n → 0 ≤ field lo n x < 2 ^ n.
Proof. intros Hn. apply Z.mod_pos_bound. lia. Qed.
Lemma field_shiftr lo n mask x : 0 ≤ lo → 0 ≤ n → mask = Z.shiftl (Z.ones n) lo → Z.shiftr (Z.land x mask) lo = field lo n x.
Proof.
  intros Hlo Hn ->. rewrite Z.shiftr_land, Z.shiftr_shiftl_l, Z.sub_diag, Z.shiftl_0_r by lia.
  rewrite Z.land_ones, Z.shiftr_div_pow2 by lia. done.
Qed.
Lemma land_field lo n mask x : 0 ≤ lo → 0 ≤ n → mask = Z.shiftl (Z.ones n) lo → Z.land x mask = field lo n x * 2 ^ lo.
Proof.
  intros Hlo Hn E. rewrite <- (field_shiftr lo n mask x Hlo Hn E), <- Z.shiftl_mul_pow2, <- Z.ldiff_ones_r by lia.
  apply Z.bits_inj'. intros i Hi. rewrite Z.ldiff_spec, Z.land_spec. destruct (decide (i < lo)).
  - subst mask. rewrite Z.shiftl_spec_low by done. by rewrite andb_false_r.
  - rewrite (Z.ones_spec_high lo i) by lia. by rewrite andb_true_r.
Qed.

(** The divisor that a value of the clock control register stands for: its low eight
    bits are bits 8 to 15, the other two are bits 6 and 7. *)
Definition divisor_of (cdiv : Z) : Z := field 8 8 cdiv + 256 * field 6 2 cdiv.
Lemma divider_bits k : 0 ≤ k < 1024 → Z.land (64 * k) 0xffff003f = 0.
Proof.
  intros Hk. assert (H : Forall (λ k, Z.land (64 * k) 0xffff003f = 0) (seqZ 0 1024))
    by (apply (bool_decide_unpack _); by vm_compute).
  apply (proj1 (Forall_forall _ _) H k). by apply elem_of_seqZ.
Qed.
Lemma clock_shift x : 0 < x < 2 ^ 32 → ∃ k, 0 ≤ k ≤ 7 ∧ (2 ^ k ≤ x) ∧ (k = 7 ∨ x ≤ 2 * 2 ^ k) ∧
  (let sc := fls_long (u32 (x - 1)) in let sc := if 0 <? sc then sc - 1 else sc in if 7 <? sc then 7 else sc) = k.
Proof.
  intros Hx. unfold u32, wrap. rewrite Z.mod_small by lia. destruct (decide (x = 1)) as [->|Hx1]; [exists 0; split_and!; [done|done|done|by right|done]|].
  rewrite fls_long_Ok by lia. pose proof (Z.log2_nonneg (x - 1)). rewrite (proj2 (Z.ltb_lt 0 _)) by lia. simpl.
  replace (Z.log2 (x - 1) + 1 - 1) with (Z.log2 (x - 1)) by lia. pose proof (Z.log2_spec (x - 1) ltac:(lia)) as [H1 H2].
  rewrite Z.pow_succ_r in H2 by done. destruct (Z.ltb_spec 7 (Z.log2 (x - 1))); eexists; (split_and!; [| | | |reflexivity]); try lia.
  assert (2 ^ 7 ≤ 2 ^ Z.log2 (x - 1)) by (apply Z.pow_le_mono_r; lia). lia.
Qed.
Lemma divider_value hv freq d : clock_divisor hv freq = d → 0 ≤ d →
  sdGetClockDivider hv freq = 64 * (4 * (d mod 256) + if HOST_SPEC_V2 <? hv then (d / 256) mod 4 else 0).
Proof.
  intros E Hd. unfold sdGetClockDivider. rewrite E. change (Z.land d 0x0ff) with (Z.land d (Z.ones 8)). rewrite Z.land_ones by lia.
  rewrite (land_field 8 2 0x300 d) by done. rewrite Z.shiftl_mul_pow2, Z.shiftr_div_pow2 by lia. unfold field.
  pose proof (Z.mod_pos_bound d 256). pose proof (Z.mod_pos_bound (d / 256) 4). change (2 ^ 8) with 256. change (2 ^ 2) with 4.
  replace ((d / 256) mod 4 * 256 / 4) with (64 * ((d / 256) mod 4)) by (rewrite <- (Z.mul_assoc _ 64 4) || idtac; apply Z.div_unique_exact; lia).
  unfold u32, wrap. rewrite (Z.mod_small (d mod 256 * 256)) by lia. rewrite Z.mod_small by (destruct (HOST_SPEC_V2 <? hv); lia).
  destruct (HOST_SPEC_V2 <? hv); lia.
Qed.
Lemma divisor_of_value lo hi : 0 ≤ lo < 256 → 0 ≤ hi < 4 → divisor_of (64 * (4 * lo + hi)) = lo + 256 * hi.
Proof. intros Hlo Hhi. unfold divisor_of, field. change (2 ^ 8) with 256. change (2 ^ 6) with 64. change (2 ^ 2) with 4. Z.to_euclidean_division_equations. lia. Qed.

(** C40. The clock divider. For every frequency up to the base clock the divisor
    is at least 2, and the value written to the control register has only bits of the
    divider field, so that the other bits of the register are kept. On a host of
    version 3 the divisor is the quotient of the two frequencies, and the register
    stands for exactly this divisor whenever it fits the ten bits of the field, which it
    does from 40691 Hz on; on an older host it is a power of two of at most 128 that the
    register holds exactly, not above the quotient unless it is 2, and not below half of
    it unless it is 128. The bit scan they use is the integer logarithm, and
    [roundup_pow_of_two] gives the least power of two that is not smaller, for numbers
    of 32 bits. *)
Theorem clock_divider_correct hv freq : 0 < freq ≤ 41666666 →
  let closest := 41666666 / freq in
  let d := clock_divisor hv freq in
  let cdiv := sdGetClockDivider hv freq in
  2 ≤ d ∧ Z.land cdiv 0xffff003f = 0 ∧ 0 ≤ cdiv < 2 ^ 16 ∧
  (HOST_SPEC_V2 < hv → d = Z.max 2 closest ∧ (d < 1024 → divisor_of cdiv = d) ∧ (40691 ≤ freq → d < 1024)) ∧
  (hv ≤ HOST_SPEC_V2 → (∃ k, 1 ≤ k ≤ 7 ∧ d = 2 ^ k) ∧ divisor_of cdiv = d ∧ (d ≤ closest ∨ d = 2) ∧ (d = 128 ∨ closest ≤ 2 * d)) ∧
  (∀ x, 0 < x < 2 ^ 32 → fls_long x = Z.log2 x + 1) ∧
  (∀ x, 0 < x ≤ 2 ^ 32 → x ≤ roundup_pow_of_two x ∧ ∀ k, 0 ≤ k → x ≤ 2 ^ k → roundup_pow_of_two x ≤ 2 ^ k).
Proof.
  intros Hf closest d cdiv. assert (Hc : 0 < closest < 2 ^ 32).
  { unfold closest. split; [apply Z.div_str_pos; lia|]. apply Z.div_lt_upper_bound; lia. }
  destruct (clock_shift closest Hc) as (k & Hk & Hk1 & Hk2 & Ek).
  assert (Hpow : 2 ^ k ≤ 2 ^ 7) by (apply Z.pow_le_mono_r; lia).
  assert (Ed : d = Z.max 2 (if HOST_SPEC_V2 <? hv then closest else 2 ^ k)).
  { unfold d, clock_divisor. fold closest. cbv zeta in Ek |- *. rewrite Ek. rewrite Z.shiftl_mul_pow2, Z.mul_1_l by lia.
    unfold u32, wrap. rewrite (Z.mod_small (2 ^ k)) by lia. set (x := if _ <? _ then _ else _). destruct (Z.leb_spec x 2); lia. }
  assert (Hd : 2 ≤ d) by (rewrite Ed; lia). pose proof (divider_value hv freq d eq_refl ltac:(lia)) as Ec. fold cdiv in Ec.
  assert (Hlo : 0 ≤ d mod 256 < 256) by (apply Z.mod_pos_bound; lia). assert (Hhi : 0 ≤ (d / 256) mod 4 < 4) by (apply Z.mod_pos_bound; lia).
  split_and!; [done| | | | | |apply fls_long_Ok|].
  - rewrite Ec. apply divider_bits. destruct (HOST_SPEC_V2 <? hv); lia.
  - rewrite Ec. destruct (HOST_SPEC_V2 <? hv); lia.
  - rewrite Ec. destruct (HOST_SPEC_V2 <? hv); lia.
  - intros Hv. rewrite (proj2 (Z.ltb_lt _ _) Hv) in *. split_and!; [done| |].
    + intros Hfit. rewrite Ec, divisor_of_value by done. rewrite <- (Z.mod_small d 1024) at 3 by lia.
      change 1024 with (256 * 4). by rewrite Z.rem_mul_r by lia.
    + intros Hfr. assert (closest < 1024) by (apply Z.div_lt_upper_bound; lia). lia.
  - intros Hv. rewrite (proj2 (Z.ltb_ge _ _) Hv) in *. assert (Hd2 : d ≤ 128) by lia.
    split_and!; [|rewrite Ec, divisor_of_value by lia; rewrite Z.mod_small by lia; lia| |].
    + destruct (decide (k = 0)) as [->|]; [exists 1; by rewrite Ed|]. exists k. split; [lia|]. rewrite Ed. apply Z.max_r.
      change 2 with (2 ^ 1) at 1. apply Z.pow_le_mono_r; lia.
    + lia.
    + destruct Hk2 as [->|]; [left; by rewrite Ed|]. right. lia.
  - intros x Hx. rewrite roundup_pow_of_two_Ok by done. split.
    + destruct (decide (x = 1)) as [->|]; [done|]. apply Z.log2_up_spec. lia.
    + intros j Hj Hxj. apply Z.pow_le_mono_r; [lia|]. apply Z.log2_up_le_pow2; [lia|done].
Qed.
(** Below that frequency the register of a version 3 host loses the upper bits. *)
Lemma clock_divider_truncated : clock_divisor 2 40000 = 1041 ∧ divisor_of (sdGetClockDivider 2 40000) = 17.
Proof. by vm_compute. Qed.
Lemma clock_divider_correct_witness :
  (0 < FREQ_SETUP ≤ 41666666 ∧ clock_divisor 2 FREQ_SETUP = 104 ∧ Z.land (sdGetClockDivider 2 FREQ_SETUP) 0xffff003f = 0) ∧
  sdGetClockDivider 1 FREQ_NORMAL = 0x200.
Proof. split; [split_and!; [done|done|done|apply (clock_divider_correct 2 FREQ_SETUP); done]|done]. Defined.

(** The capacity of a card is computed without overflow from the fields of its
    CSD register: for version 1 of the register the number of blocks, the multiplier
    and the block length, for later ones the number of units of 512 KiB. *)
Lemma csd_capacity_correct csd0 csd1 csd2 :
  csd_capacity csd0 csd1 csd2 =
    (if field 22 2 csd0 =? 0
     then (1024 * field 0 2 csd1 + field 22 10 csd2 + 1) * 2 ^ (field 7 3 csd2 + 2) * 2 ^ field 8 4 csd1
     else (field 8 22 csd2 + 1) * (512 * 1024)) ∧
  0 < csd_capacity csd0 csd1 csd2 ≤ 2 ^ 41.
Proof.
  pose proof (field_range 0 2 csd1) as F1. pose proof (field_range 22 10 csd2) as F2. pose proof (field_range 7 3 csd2) as F3.
  pose proof (field_range 8 4 csd1) as F4. pose proof (field_range 8 22 csd2) as F5.
  set (capacity := if _ =? _ then _ else _). assert (Hcap : 0 < capacity ≤ 2 ^ 41).
  { unfold capacity. destruct (_ =? _); [|lia].
    assert (2 ^ (field 7 3 csd2 + 2) ≤ 2 ^ 9) by (apply Z.pow_le_mono_r; lia). assert (2 ^ field 8 4 csd1 ≤ 2 ^ 15) by (apply Z.pow_le_mono_r; lia).
    assert (0 < 2 ^ (field 7 3 csd2 + 2)) by lia. assert (0 < 2 ^ field 8 4 csd1) by lia. nia. }
  enough (csd_capacity csd0 csd1 csd2 = capacity) as -> by done. unfold csd_capacity, capacity in *. clear capacity.
  unfold CSD2V2_C_SIZE_SHIFT, CSD2V1_C_SIZE_MULT_SHIFT, CSD1VN_READ_BL_LEN_SHIFT, CSD2V1_C_SIZEL_SHIFT, CSD1V1_C_SIZEH_SHIFT.
  rewrite (land_field 22 2 CSD0_VERSION csd0), (field_shiftr 8 22 CSD2V2_C_SIZE csd2), (field_shiftr 7 3 CSD2V1_C_SIZE_MULT csd2),
    (field_shiftr 8 4 CSD1VN_READ_BL_LEN csd1), (field_shiftr 22 10 CSD2V1_C_SIZEL csd2), (land_field 0 2 CSD1V1_C_SIZEH csd1) by done.
  replace (field 22 2 csd0 * 2 ^ 22 =? CSD0_V1) with (field 22 2 csd0 =? 0) by (unfold CSD0_V1; destruct (Z.eqb_spec (field 22 2 csd0) 0), (Z.eqb_spec (field 22 2 csd0 * 2 ^ 22) 0); lia).
  destruct (_ =? _).
  - rewrite !Z.shiftl_mul_pow2 by lia.
    assert (P1 : 2 ^ (field 7 3 csd2 + 2) ≤ 2 ^ 9) by (apply Z.pow_le_mono_r; lia). assert (P2 : 2 ^ field 8 4 csd1 ≤ 2 ^ 15) by (apply Z.pow_le_mono_r; lia).
    set (P := 2 ^ (field 7 3 csd2 + 2)) in *. set (Q := 2 ^ field 8 4 csd1) in *. assert (0 < P) by (unfold P; lia). assert (0 < Q) by (unfold Q; lia).
    set (A := field 0 2 csd1) in *. set (B := field 22 10 csd2) in *. set (N := 1024 * A + B + 1) in *. rewrite (u32_small (A * 2 ^ 0 * 2 ^ 10)) by lia.
    rewrite (i32_small (_ + B)), !(i32_small (1 * _)) by lia. replace (A * 2 ^ 0 * 2 ^ 10 + B + 1) with N by (unfold N; lia). rewrite !Z.mul_1_l.
    assert (HN : 0 < N ≤ 2 ^ 12) by (unfold N; lia). clearbody N P Q. assert (0 < N * P ≤ 2 ^ 21) by nia. rewrite (i64_small (N * P)) by lia.
    rewrite i64_small, u64_small by lia. done.
  - rewrite i64_small, u64_small by lia. lia.
Qed.
