(* ===== verification/SdInitSpec.v ===== *)
(** * Initialising the SD card (driver/sd.c)

    The controller is arbitrary here: every access to a register returns, with any
    value. The loops that wait for it are bounded, so the initialisation returns
    whatever the hardware does, and no step of it reads through the null pointer that
    [lastCmd] is before the first command. *)
From S2P Require Import Prelude Locks Buf Sd SdInit.

(** Reading or writing a register returns. *)
Class EmmcAnswers (D : Type) `{Emmc D} := {
  read_returns r d : ∃ v d', mmio_read r d = Ok v d';
  write_returns r v d : ∃ d', mmio_write r v d = Ok () d';
  mbox_returns c d : ∃ v d', mbox_get_clock_rate c d = Ok v d'
}.

(** The codes of driver/sd.h below [SD_CARD_CHANGED] and the error bits of a card. *)
Definition code (r : Z) : Prop := r mod 16 ≤ 9.
Lemma code_small r : 0 ≤ r ≤ 9 → code r.
Proof. intros Hr. unfold code. rewrite Z.mod_small; lia. Qed.
Lemma code_error_bits v : code (i32 (Z.land v R1_ERRORS_MASK)).
Proof.
  unfold code, i32, swrap. set (x := Z.land v R1_ERRORS_MASK).
  assert (Hx : x mod 16 = Z.land v 4).
  { change 16 with (2 ^ 4). rewrite <- Z.land_ones by lia. unfold x. by rewrite <- Z.land_assoc. }
  assert (H4 : Z.land v 4 = field 2 1 v * 2 ^ 2) by (by apply land_field). pose proof (field_range 2 1 v ltac:(lia)).
  assert (E : ((x + 2 ^ (32 - 1)) mod 2 ^ 32 - 2 ^ (32 - 1)) mod 16 = x mod 16).
  { rewrite (Z.mod_eq (x + _)) by lia. set (q := _ / _). replace (_ - _ - _) with (x + (- q * 2 ^ 28) * 16) by lia. by apply Z.mod_add. }
  rewrite E, Hx, H4. lia.
Qed.
#[export] Hint Resolve code_error_bits : rpi.
#[export] Hint Extern 1 (code _) => (apply code_small; done) : rpi.

Section init.
Context {D : Type} `{EmmcAnswers D}.
Implicit Types s : Sd D.

(** ** Functions that only touch the device *)

Definition dev_only {A} (m : M (Sd D) A) (R : A → Prop) : Prop := ∀ s, wp m (λ a s', R a ∧ ∃ d, s' = put_dev d s) s.
Definition any {A} (_ : A) : Prop := True.
Lemma put_dev_same s : s = put_dev (sd_dev s) s.
Proof. by destruct s. Qed.
Lemma dev_ret {A} (a : A) (R : A → Prop) : R a → dev_only (mret a) R.
Proof. intros Ha s. apply wp_ret. split; [done|]. exists (sd_dev s). apply put_dev_same. Qed.
Lemma dev_gets {A} (f : Sd D → A) : dev_only (gets f) any.
Proof. intros s. split; [done|]. exists (sd_dev s). apply put_dev_same. Qed.
Lemma dev_bind {A B} (m : M (Sd D) A) (k : A → M (Sd D) B) R R' : dev_only m R → (∀ a, R a → dev_only (k a) R') → dev_only (m ≫= k) R'.
Proof.
  intros Hm Hk s. apply wp_bind. eapply wp_mono; [apply Hm|]. intros a s' [Ha [d ->]]. eapply wp_mono; [by apply Hk|].
  intros b s' [Hb [d' ->]]. split; [done|]. by exists d'.
Qed.
Lemma dev_mono {A} (m : M (Sd D) A) (R R' : A → Prop) : dev_only m R → (∀ a, R a → R' a) → dev_only m R'.
Proof. intros Hm HR s. eapply wp_mono; [apply Hm|]. intros a s' [? ?]. auto. Qed.
Lemma dev_if {A} (b : bool) (m m' : M (Sd D) A) R : dev_only m R → dev_only m' R → dev_only (if b then m else m') R.
Proof. by destruct b. Qed.
Lemma dev_get32 r : dev_only (get32 r) any.
Proof. intros s. apply wp_zoom. destruct (read_returns r (sd_dev s)) as (v & d' & E). unfold wp. rewrite E. split; [done|]. by exists d'. Qed.
Lemma dev_put32 r v : dev_only (put32 r v) any.
Proof. intros s. apply wp_zoom. destruct (write_returns r v (sd_dev s)) as (d' & E). unfold wp. rewrite E. split; [done|]. by exists d'. Qed.
Lemma dev_print_regs l : dev_only (print_regs l) any.
Proof. induction l as [|r l IH]; [by apply dev_ret|]. eapply dev_bind; [apply dev_get32|done]. Qed.
Lemma dev_poll cond n : dev_only cond any → dev_only (poll cond n) any.
Proof.
  intros Hc. induction n as [|n IH]; (eapply dev_bind; [exact Hc|]); intros [] _; try by apply dev_ret. exact IH.
Qed.
Lemma dev_poll_pre cond n : dev_only cond any → dev_only (poll_pre cond n) any.
Proof.
  intros Hc. induction n as [|[|n] IH]; (eapply dev_bind; [exact Hc|]); intros [] _; try by apply dev_ret. exact IH.
Qed.

Local Ltac dev := repeat (intros; first
  [ apply dev_gets | apply dev_get32 | apply dev_put32 | apply dev_print_regs | apply dev_poll | apply dev_poll_pre | apply dev_if
  | solve [apply dev_ret; repeat case_match; first [exact I | by auto with rpi]]
  | eapply (dev_bind _ _ any) ]).
Lemma dev_wait_interrupt mask : dev_only (sdWaitForInterrupt mask) code.
Proof. unfold sdWaitForInterrupt. dev. Qed.
Lemma dev_inhibited bits : dev_only (inhibited bits) any.
Proof. unfold inhibited. dev. Qed.
Lemma dev_wait_command : dev_only sdWaitForCommand code.
Proof. unfold sdWaitForCommand. dev. Qed.
Lemma dev_wait_data : dev_only sdWaitForData code.
Proof. unfold sdWaitForData. dev. Qed.
Lemma dev_set_clock freq : dev_only (sdSetClock freq) code.
Proof. unfold sdSetClock. dev. Qed.
Lemma dev_init_gpio : dev_only sdInitGPIO any.
Proof. unfold sdInitGPIO, pull_up. dev. Qed.
Lemma dev_base_clock : dev_only sdGetBaseClock code.
Proof.
  intros s. unfold sdGetBaseClock. apply wp_bind, wp_zoom. destruct (mbox_returns MBX_PROP_CLOCK_EMMC (sd_dev s)) as (v & d' & E).
  unfold wp at 1. rewrite E. apply wp_ret. split; [case_match; auto with rpi|by exists d'].
Qed.
(** The fuel is enough: every round reads a word or uses up a poll. *)
Lemma dev_read_scr fuel : ∀ words count, 0 < count → (length words ≤ 2)%nat → count + 2 - Z.of_nat (length words) < Z.of_nat fuel →
  dev_only (read_scr fuel words count) (λ ws, (length ws ≤ 2)%nat).
Proof.
  induction fuel as [|fuel IH]; intros words count Hc Hw Hf; [lia|]. cbn [read_scr].
  destruct (Nat.ltb_spec (length words) 2); [|by apply dev_ret]. eapply dev_bind; [apply dev_get32|]. intros st _. apply dev_if.
  - eapply dev_bind; [apply dev_get32|]. intros w _. apply IH; rewrite ?length_app; simpl; lia.
  - destruct (Z.eqb_spec (count - 1) 0); [apply dev_ret; lia|]. apply IH; lia.
Qed.

(** ** The descriptor of the card *)

(** The queue, the locks and the partition are left alone. *)
Definition calm (s0 s : Sd D) : Prop :=
  sd_queue s = sd_queue s0 ∧ sd_sdlock s = sd_sdlock s0 ∧ sd_qlock s = sd_qlock s0 ∧ sd_woken s = sd_woken s0 ∧ sd_mbr s = sd_mbr s0.
Definition card_in (s0 : Sd D) (I : SDDescriptor → Prop) (s : Sd D) : Prop := I (sd_card s) ∧ calm s0 s.

(** The arrays have their sizes. *)
Definition card_wf (c : SDDescriptor) : Prop := length (card_cid c) = 4%nat ∧ length (card_csd c) = 4%nat ∧ length (card_scr c) = 2%nat.

(** A predicate that the answers of commands do not break, those with the registers
    CID and CSD apart. *)
Record stable (I : SDDescriptor → Prop) : Prop := {
  st_sent c cmd a : I c → I (with_lastArg a (with_lastCmd (Some cmd) c));
  st_status c b : I c → I (with_status b c);
  st_state c a : I c → I (with_cardState a c);
  st_ocr c v : I c → I (with_ocr v c);
  st_rca c v : I c → I (with_rca v c)
}.
Definition takes (I : SDDescriptor → Prop) (resp : resp_type) : Prop :=
  match resp with
  | RESP_R2I => ∀ c data, length data = 4%nat → I c → I (with_cid data c)
  | RESP_R2S => ∀ c data, length data = 4%nat → I c → I (with_csd data c)
  | _ => True
  end.
Definition known (I : SDDescriptor → Prop) : Prop := ∀ c, I c → is_Some (card_lastCmd c).

Lemma stable_known I : stable I → stable (λ c, I c ∧ is_Some (card_lastCmd c)).
Proof. intros [H1 H2 H3 H4 H5]. by constructor; intros; split; simpl; naive_solver. Qed.
Lemma takes_known I resp : takes I resp → takes (λ c, I c ∧ is_Some (card_lastCmd c)) resp.
Proof. destruct resp; simpl; try done; intros Ht c data Hl [Hc Hs]; (split; [by apply Ht|exact Hs]). Qed.
Lemma known_known I : known (λ c, I c ∧ is_Some (card_lastCmd c)).
Proof. by intros c [_ Hc]. Qed.

Section commands.
Context (s0 : Sd D).
Implicit Types I : SDDescriptor → Prop.
Local Notation inv := (card_in s0).

Lemma wp_dev {A} I (m : M (Sd D) A) R Q s : dev_only m R → inv I s → (∀ a s', R a → inv I s' → Q a s') → wp m Q s.
Proof. intros Hm Hs HQ. eapply wp_mono; [apply Hm|]. intros a s' [Ha [d ->]]. by apply HQ. Qed.
Lemma wp_card I I' f Q s : inv I s → (I (sd_card s) → I' (f (sd_card s))) → (∀ s', inv I' s' → Q () s') → wp (upd_card f) Q s.
Proof. intros [Hc Hs] Hf HQ. apply HQ. split; [by apply Hf|done]. Qed.
Lemma wp_keep I f Q s : inv I s → (I (sd_card s) → I (f (sd_card s))) → (∀ s', inv I s' → Q () s') → wp (upd_card f) Q s.
Proof. apply wp_card. Qed.
Lemma debug_Ok I r Q s : known I → inv I s → (∀ s', inv I s' → Q r s') → wp (sdDebugResponse r) Q s.
Proof.
  intros Hk Hs HQ. unfold sdDebugResponse. destruct (Hk _ (proj1 Hs)) as [cmd Hcmd]. apply wp_bind. unfold wp at 1, gets. rewrite Hcmd.
  apply wp_bind, wp_ret, wp_bind. eapply wp_dev; [apply dev_print_regs|done|]. intros _ s' _ Hs'. by apply wp_ret, HQ.
Qed.
Lemma card_in_mono I I' s : (∀ c, I c → I' c) → inv I s → inv I' s.
Proof. intros HI [Hc Hs]. split; [by apply HI|done]. Qed.

Definition answered I (r : Z) (s : Sd D) : Prop := inv I s ∧ code r ∧ (r = 0 → is_Some (card_lastCmd (sd_card s))).
(** The answer of a command that was sent. *)
Lemma answered_sent I r s : inv (λ c, I c ∧ is_Some (card_lastCmd c)) s → code r → answered I r s.
Proof. intros [[Hc Hl] Hs] Hr. by split. Qed.
Lemma send_P I cmd arg s : stable I → takes I (cmd_resp cmd) → inv I s → wp (sdSendCommandP cmd arg) (answered I) s.
Proof.
  intros Hst Ht Hs. unfold sdSendCommandP. apply wp_bind. eapply wp_dev; [apply dev_wait_command|done|]. intros busy s1 _ Hs1.
  destruct (busy =? 0); cbn [negb]; [|apply wp_ret; split_and!; auto with rpi; done].
  apply wp_bind. eapply (wp_card I (λ c, I c ∧ is_Some (card_lastCmd c))); [done|intros Hc; split; [by apply st_sent|done]|]. intros s2 Hs2.
  apply stable_known in Hst as [_ H2 H3 H4 H5]. apply takes_known in Ht.
  apply wp_bind. eapply wp_dev; [apply dev_get32|exact Hs2|]. intros v s3 _ Hs3.
  do 3 (apply wp_bind; eapply wp_dev; [apply dev_put32|eassumption|]; intros ? ? _ ?).
  apply wp_bind. eapply wp_dev; [apply dev_wait_interrupt|eassumption|]. intros r s4 Hr Hs4.
  destruct (r =? 0); cbn [negb]; [|apply wp_ret; by apply answered_sent].
  apply wp_bind. eapply wp_dev; [apply dev_get32|exact Hs4|]. intros resp0 s5 _ Hs5.
  destruct (cmd_resp cmd).
  - apply wp_ret, answered_sent; auto with rpi.
  - apply wp_bind. eapply wp_keep; [exact Hs5|intros; by apply H3, H2|]. intros s6 Hs6. apply wp_ret, answered_sent; auto with rpi.
  - apply wp_bind. eapply wp_keep; [exact Hs5|intros; by apply H3, H2|]. intros s6 Hs6. apply wp_ret, answered_sent; auto with rpi.
  - apply wp_bind. eapply wp_keep; [exact Hs5|by apply H2|]. intros s6 Hs6.
    do 3 (apply wp_bind; eapply wp_dev; [apply dev_get32|eassumption|]; intros ? ? _ ?).
    apply wp_bind. eapply wp_keep; [eassumption|by apply Ht|]. intros s7 Hs7. apply wp_ret, answered_sent; auto with rpi.
  - apply wp_bind. eapply wp_keep; [exact Hs5|by apply H2|]. intros s6 Hs6.
    do 3 (apply wp_bind; eapply wp_dev; [apply dev_get32|eassumption|]; intros ? ? _ ?).
    apply wp_bind. eapply wp_keep; [eassumption|by apply Ht|]. intros s7 Hs7. apply wp_ret, answered_sent; auto with rpi.
  - apply wp_bind. eapply wp_keep; [exact Hs5|intros; by apply H4, H2|]. intros s6 Hs6. apply wp_ret, answered_sent; auto with rpi.
  - apply wp_bind. eapply wp_keep; [exact Hs5|intros; by apply H3, H2, H5|]. intros s6 Hs6. apply wp_ret, answered_sent; auto with rpi.
  - apply wp_bind. eapply wp_keep; [exact Hs5|by apply H2|]. intros s6 Hs6. apply wp_ret, answered_sent; [done|case_match; auto with rpi].
Qed.

Lemma send_app I s : stable I → known I → inv I s → wp sdSendAppCommand (answered I) s.
Proof.
  intros Hst Hk Hs. unfold sdSendAppCommand. apply wp_bind. unfold wp at 1, gets. case_match.
  - apply wp_bind, wp_ret, wp_bind. eapply wp_mono; [by apply send_P|]. intros r s1 (Hs1 & _ & _). apply wp_ret. split_and!; [done|auto with rpi|]. intros _. apply Hk, Hs1.
  - apply wp_bind, wp_ret, wp_bind. eapply wp_mono; [by apply send_P|]. intros r s1 (Hs1 & Hr & _). destruct (r =? 0); cbn [negb].
    + apply wp_bind. unfold wp at 1, gets. apply wp_ret. split_and!; [done|case_match; auto with rpi|]. intros _. apply Hk, Hs1.
    + eapply debug_Ok; [done..|]. intros s2 Hs2. split_and!; [done|done|]. intros _. apply Hk, Hs2.
Qed.
(** A command of the table; the application commands begin with another command. *)
Definition allowed I (index : Z) (cmd : EMMCCommand) : Prop :=
  sdCommandTable !! Z.to_nat index = Some cmd ∧ takes I (cmd_resp cmd) ∧ (IX_APP_CMD_START ≤ index → known I).
Lemma app_first_Ok I index k s : stable I → (IX_APP_CMD_START ≤ index → known I) → inv I s → (∀ s, inv I s → wp k (answered I) s) → wp (app_first index k) (answered I) s.
Proof.
  intros Hst Hk Hs HK. unfold app_first. destruct (Z.leb_spec IX_APP_CMD_START index) as [Hi|]; [|by apply HK].
  apply wp_bind. eapply wp_mono; [by apply send_app; [|apply Hk|]|]. intros r s1 (Hs1 & Hr & _). destruct (r =? 0); cbn [negb]; [by apply HK|].
  eapply debug_Ok; [by apply Hk|done|]. intros s2 Hs2. split_and!; [done|done|]. intros _. apply (Hk Hi), Hs2.
Qed.
Lemma app_accepted_Ok I index r s : answered I r s → r = 0 → wp (app_accepted index) (answered I) s.
Proof. intros (Hs & _ & Hl) Hr. unfold app_accepted. apply wp_bind. unfold wp at 1, gets. apply wp_ret. split_and!; [done|case_match; auto with rpi|auto]. Qed.
Lemma send_command_Ok I index cmd s : stable I → allowed I index cmd → inv I s → wp (sdSendCommand index) (answered I) s.
Proof.
  intros Hst (Hcmd & Ht & Hk) Hs. apply app_first_Ok; [done..|]. intros s1 Hs1. unfold command. rewrite Hcmd. apply wp_bind, wp_ret, wp_bind.
  unfold wp at 1, gets. apply wp_bind. eapply wp_mono; [by apply send_P|]. intros r s2 Hr. destruct (Z.eqb_spec r 0); cbn [negb]; [by eapply app_accepted_Ok|by apply wp_ret].
Qed.
Lemma sendA_Ok I index cmd arg s : stable I → allowed I index cmd → inv I s → wp (sdSendCommandA index arg) (answered I) s.
Proof.
  intros Hst (Hcmd & Ht & Hk) Hs. apply app_first_Ok; [done..|]. intros s1 Hs1. unfold command. rewrite Hcmd. apply wp_bind, wp_ret, wp_bind.
  eapply wp_mono; [by apply send_P|]. intros r s2 Hr. destruct (Z.eqb_spec r 0); cbn [negb]; [by eapply app_accepted_Ok|by apply wp_ret].
Qed.

(** ** The stages of the initialisation *)

Definition base (i : bool) (c : SDDescriptor) : Prop := card_wf c ∧ card_init c = i.
Definition typed (c : SDDescriptor) : Prop := card_type c = SD_TYPE_1 ∨ card_type c = SD_TYPE_2_SC ∨ card_type c = SD_TYPE_2_HC.
Definition parsed (c : SDDescriptor) : Prop := ∃ w0 w1 w2 w3, card_csd c = [w0; w1; w2; w3] ∧ card_capacity c = csd_capacity w0 w1 w2 ∧
  card_fileFormat c = Z.land w3 CSD3VN_FILE_FORMAT ∧ (card_fileFormat c = CSD3VN_FILE_FORMAT_DOSFAT ∨ card_fileFormat c = CSD3VN_FILE_FORMAT_HDD).
(** A command was sent, and [P] holds. *)
Definition stage (P : SDDescriptor → Prop) (c : SDDescriptor) : Prop := (base false c ∧ P c) ∧ is_Some (card_lastCmd c).
Definition selected (c : SDDescriptor) : Prop := typed c ∧ parsed c.

Lemma stable_base i : stable (base i).
Proof. by constructor; intros c; intros. Qed.
Lemma stable_stage P : stable P → stable (stage P).
Proof. intros [H1 H2 H3 H4 H5]. constructor; [intros c cmd a [[Hb HP] Hl]|intros c v [[Hb HP] Hl]..]; (split; [split; [exact Hb|auto]|done]). Qed.
Lemma stable_any : stable any.
Proof. by constructor. Qed.
Lemma stable_typed : stable typed.
Proof. by constructor; intros c; intros. Qed.
Lemma stable_selected : stable selected.
Proof. by constructor; intros c; intros. Qed.
Lemma known_stage P : known (stage P).
Proof. by intros c [_ Hc]. Qed.
Hint Resolve stable_base stable_stage stable_any stable_typed stable_selected known_stage : rpi.

Lemma check_Ok (m k : M (Sd D) Z) Q s : wp m (λ r s', if r =? 0 then wp k Q s' else Q r s') s → wp (check m k) Q s.
Proof. intros Hm. unfold check. apply wp_bind. eapply wp_mono; [exact Hm|]. intros r s' Hr. cbv beta in Hr. destruct (r =? 0); [exact Hr|by apply wp_ret]. Qed.
Lemma check_debug_Ok I (m k : M (Sd D) Z) Q s : known I → wp m (λ r s', inv I s' ∧ code r) s →
  (∀ s', inv I s' → wp k Q s') → (∀ r s', inv I s' → code r → r ≠ 0 → Q r s') → wp (check_debug m k) Q s.
Proof.
  intros Hkn Hm Hk HQ. unfold check_debug. apply wp_bind. eapply wp_mono; [exact Hm|]. intros r s' [Hs' Hr].
  destruct (Z.eqb_spec r 0); cbn [negb]; [by apply Hk|]. eapply debug_Ok; [done..|]. intros s2 Hs2. by apply HQ.
Qed.

Lemma reset_Ok i t s : inv (base i) s → wp (sdResetCard t) (answered (base i)) s.
Proof.
  intros Hs. unfold sdResetCard.
  apply wp_bind. eapply wp_dev; [apply dev_put32|exact Hs|]. intros _ s1 _ Hs1.
  apply wp_bind. eapply wp_dev; [apply dev_get32|exact Hs1|]. intros v s2 _ Hs2.
  apply wp_bind. eapply wp_dev; [apply dev_put32|exact Hs2|]. intros _ s3 _ Hs3.
  apply wp_bind. eapply wp_dev; [apply dev_poll; dev|exact Hs3|]. intros n s4 _ Hs4.
  case_match; [apply wp_ret; split_and!; [done|auto with rpi|done]|].
  apply wp_bind. eapply wp_dev; [apply dev_get32|exact Hs4|]. intros v1 s5 _ Hs5.
  apply wp_bind. eapply wp_dev; [apply dev_put32|exact Hs5|]. intros _ s6 _ Hs6.
  apply wp_bind. eapply wp_dev; [apply dev_set_clock|exact Hs6|]. intros r s7 Hr Hs7.
  destruct (Z.eqb_spec r 0); cbn [negb]; [|apply wp_ret; by split_and!].
  apply wp_bind. eapply wp_dev; [apply dev_put32|exact Hs7|]. intros _ s8 _ Hs8.
  apply wp_bind. eapply wp_dev; [apply dev_put32|exact Hs8|]. intros _ s9 _ Hs9.
  apply wp_bind. eapply wp_keep; [exact Hs9|done|]. intros s10 Hs10. eapply send_command_Ok; [auto with rpi| |done]. split_and!; [reflexivity|done|by intros []].
Qed.
Lemma op_cond_round_Ok I arg s : stable I → known I → inv I s →
  wp (op_cond_round arg) (λ r s', inv I s' ∧ ∀ resp, r = Some resp → code resp) s.
Proof.
  intros Hst Hk Hs. unfold op_cond_round. apply wp_bind. eapply wp_mono; [eapply sendA_Ok; [done|by split_and!|done]|]. intros r s1 (Hs1 & Hr & _).
  apply wp_ret. split; [done|]. intros resp E. case_match; [by injection E as <-|done].
Qed.
Lemma op_cond_loop_Ok I arg n : stable I → known I → ∀ s, inv I s →
  wp (op_cond_loop n arg) (λ r s', inv I s' ∧ ∀ resp, r = Some resp → code resp) s.
Proof.
  intros Hst Hk. induction n as [|n IH]; intros s Hs; cbn [op_cond_loop]; apply wp_bind; unfold wp at 1, gets; (case_match; [by apply wp_ret|]); [by apply wp_ret|].
  apply wp_bind. eapply wp_dev; [apply dev_print_regs|exact Hs|]. intros _ s1 _ Hs1. apply wp_bind. eapply wp_mono; [by apply op_cond_round_Ok|].
  intros [resp|] s2 [Hs2 Hr]; [by apply wp_ret|by apply IH].
Qed.
Lemma op_cond_Ok I arg s : stable I → known I → inv I s → wp (sdAppSendOpCond arg) (λ r s', inv I s' ∧ code r) s.
Proof.
  intros Hst Hk Hs. unfold sdAppSendOpCond. apply wp_bind. eapply wp_dev; [apply dev_print_regs|exact Hs|]. intros _ s1 _ Hs1.
  apply wp_bind. eapply wp_mono; [by apply op_cond_round_Ok|]. intros [resp|] s2 [Hs2 Hr]; [apply wp_ret; auto|].
  apply wp_bind. eapply wp_mono; [by apply op_cond_loop_Ok|]. intros [resp|] s3 [Hs3 Hr3]; [apply wp_ret; auto|].
  apply wp_bind. unfold wp at 1, gets. apply wp_ret. split; [done|]. repeat case_match; auto with rpi.
Qed.
Lemma scr_Ok s : inv (stage selected) s → wp sdReadSCR (λ r s', inv (stage selected) s' ∧ code r) s.
Proof.
  intros Hs. unfold sdReadSCR. apply wp_bind. eapply wp_dev; [apply dev_wait_data|exact Hs|]. intros busy s1 _ Hs1.
  destruct (busy =? 0); cbn [negb]; [|apply wp_ret; auto with rpi].
  apply wp_bind. eapply wp_dev; [apply dev_put32|exact Hs1|]. intros _ s2 _ Hs2.
  apply wp_bind. eapply wp_mono; [eapply send_command_Ok; [|split_and!; [reflexivity|done|]|exact Hs2]; auto with rpi|]. intros r s3 (Hs3 & Hr & _).
  destruct (r =? 0); cbn [negb]; [|by eapply debug_Ok; [apply known_stage|exact Hs3|]].
  apply wp_bind. eapply wp_dev; [apply dev_wait_interrupt|exact Hs3|]. intros r1 s4 Hr1 Hs4.
  destruct (r1 =? 0); cbn [negb]; [|by eapply debug_Ok; [apply known_stage|exact Hs4|]].
  apply wp_bind. eapply wp_dev; [apply dev_read_scr; simpl; lia|exact Hs4|]. intros ws s5 Hws Hs5. cbv beta in Hws.
  apply wp_bind. eapply wp_keep; [exact Hs5| |].
  { intros [[[(H1 & H2 & H3) Hi] HP] Hl]. split; [|exact Hl]. split; [|exact HP]. split; [|exact Hi]. split_and!; [exact H1|exact H2|].
    simpl. rewrite length_app, length_drop. lia. }
  intros s6 Hs6. destruct (Nat.eqb_spec (length ws) 2) as [E|E]; cbn [negb].
  - destruct ws as [|w0 ws]; [done|]. apply wp_bind, wp_ret, wp_bind. eapply wp_keep; [exact Hs6|done|]. intros s7 Hs7. apply wp_ret. auto with rpi.
  - apply wp_bind. eapply wp_dev; [apply dev_print_regs|exact Hs6|]. intros _ s7 _ Hs7. apply wp_ret. auto with rpi.
Qed.
Lemma parse_Ok (k : M (Sd D) Z) Q s : inv (stage typed) s →
  (∀ s', inv (stage typed) s' → card_fileFormat (sd_card s') ≠ CSD3VN_FILE_FORMAT_DOSFAT → card_fileFormat (sd_card s') ≠ CSD3VN_FILE_FORMAT_HDD → Q SD_ERROR s') →
  (∀ s', inv (stage selected) s' → wp k Q s') →
  wp (sdParseCSD;; c ← gets sd_card;
      if negb (card_fileFormat c =? CSD3VN_FILE_FORMAT_DOSFAT) && negb (card_fileFormat c =? CSD3VN_FILE_FORMAT_HDD) then mret SD_ERROR else k) Q s.
Proof.
  intros Hs Herr Hk. destruct Hs as [[[[(H1 & H2 & H3) Hi] HP] Hl] Hcalm]. destruct (card_csd (sd_card s)) as [|w0 [|w1 [|w2 [|w3 [|]]]]] eqn:E; try done.
  apply wp_bind. unfold sdParseCSD. apply wp_bind. unfold wp at 1, gets. rewrite E. do 4 apply wp_bind, wp_ret. unfold upd_card, wp at 1, modify.
  set (s1 := put_card _ s). assert (Hs1 : inv (stage typed) s1) by (split; [|exact Hcalm]; split; [|exact Hl]; split; [|exact HP]; split; [|exact Hi]; split_and!; [exact H1|simpl; by rewrite E|exact H3]).
  apply wp_bind. unfold wp at 1, gets. destruct (Z.eqb_spec (card_fileFormat (sd_card s1)) CSD3VN_FILE_FORMAT_DOSFAT) as [E1|E1],
    (Z.eqb_spec (card_fileFormat (sd_card s1)) CSD3VN_FILE_FORMAT_HDD) as [E2|E2]; cbn [negb andb]; try by apply wp_ret, Herr.
  all: apply Hk; destruct Hs1 as [[[Hb Ht] Hl1] Hc1]; split; [|exact Hc1]; split; [|exact Hl1]; split; [exact Hb|]; split; [exact Ht|];
    exists w0, w1, w2, w3; split_and!; [exact E|done|done|by auto].
Qed.

(** How the initialisation ends: with an error, or with a card that can be used. *)
Definition failed (r : Z) (s : Sd D) : Prop := inv (base false) s ∧ code r ∧ r ≠ 0.
Definition usable (c : SDDescriptor) : Prop := base true c ∧ selected c.
Definition succeeded (old : list Z) (r : Z) (s : Sd D) : Prop :=
  inv usable s ∧ r = if decide (old = card_cid (sd_card s)) then SD_CARD_REINSERTED else SD_CARD_CHANGED.
Lemma stage_failed P r s : inv (stage P) s → code r → r ≠ 0 → failed r s.
Proof. intros [[[Hb _] _] Hc] Hr Hne. by split_and!. Qed.
Lemma answered_ready r s : answered (base false) r s → r = 0 → inv (stage any) s.
Proof. intros ([Hb Hc] & _ & Hl) Hr. split; [|done]. split; [by split|by apply Hl]. Qed.
Lemma sent_step P index cmd s : stable P → sdCommandTable !! Z.to_nat index = Some cmd → takes (stage P) (cmd_resp cmd) → inv (stage P) s →
  wp (sdSendCommand index) (λ r s', inv (stage P) s' ∧ code r) s.
Proof.
  intros Hst Hcmd Ht Hs. eapply wp_mono; [apply (send_command_Ok (stage P) index cmd); [by apply stable_stage| |exact Hs]|by intros r s' (Hs' & Hr & _)].
  split_and!; [done|done|intros _; apply known_stage].
Qed.
Lemma sent_stepA P index arg cmd s : stable P → sdCommandTable !! Z.to_nat index = Some cmd → takes (stage P) (cmd_resp cmd) → inv (stage P) s →
  wp (sdSendCommandA index arg) (λ r s', inv (stage P) s' ∧ code r) s.
Proof.
  intros Hst Hcmd Ht Hs. eapply wp_mono; [apply (sendA_Ok (stage P) index cmd); [by apply stable_stage| |exact Hs]|by intros r s' (Hs' & Hr & _)].
  split_and!; [done|done|intros _; apply known_stage].
Qed.
Lemma identify_Ok (k : M (Sd D) Z) (Q : Z → Sd D → Prop) s : inv (stage any) s → (∀ s', inv (stage typed) s' → wp k Q s') →
  (∀ r s', failed r s' → Q r s') → wp (identify k) Q s.
Proof.
  intros Hs Hk HQ. unfold identify. apply wp_bind. eapply wp_mono; [eapply (sent_stepA any IX_SEND_IF_COND); [auto with rpi|reflexivity|done|exact Hs]|].
  intros resp s1 [Hs1 Hr]. cbv beta. destruct (Z.eqb_spec resp SD_OK).
  - eapply (check_debug_Ok (stage any)); [apply known_stage|apply op_cond_Ok; [auto with rpi|apply known_stage|exact Hs1]| |intros; by eapply HQ, stage_failed].
    intros s2 Hs2. apply wp_bind. eapply (wp_card (stage any) (stage typed)); [exact Hs2| |exact Hk]. intros [[Hb _] Hl]. split; [|exact Hl]. split; [exact Hb|].
    unfold typed. simpl. case_match; auto.
  - destruct (resp =? SD_BUSY); [apply wp_ret; by eapply HQ, stage_failed|].
    apply wp_bind. eapply wp_dev; [apply dev_get32|exact Hs1|]. intros st s2 _ Hs2.
    assert (Hop : ∀ s, inv (stage any) s → wp (check_debug (sdAppSendOpCond ACMD41_ARG_SC) (upd_card (with_type SD_TYPE_1);; k)) Q s).
    { intros s3 Hs3. eapply (check_debug_Ok (stage any)); [apply known_stage|apply op_cond_Ok; [auto with rpi|apply known_stage|exact Hs3]| |intros; by eapply HQ, stage_failed].
      intros s4 Hs4. apply wp_bind. eapply (wp_card (stage any) (stage typed)); [exact Hs4| |exact Hk]. intros [[Hb _] Hl]. split; [|exact Hl]. split; [exact Hb|]. by left. }
    destruct (test st SR_CMD_INHIBIT); [|by apply Hop]. apply check_Ok. eapply wp_mono; [apply (reset_Ok false); by destruct Hs2 as [[[Hb _] _] Hc]|].
    intros r s3 Hr3. destruct (Z.eqb_spec r 0); [by eapply Hop, answered_ready|]. destruct Hr3 as (Hb & Hc & _). by apply HQ.
Qed.
Lemma maybe_switch (b : bool) (k : M (Sd D) Z) (Q : Z → Sd D → Prop) s :
  wp k Q s → wp ((if b then check sdSwitchVoltage else λ k, k) k) Q s.
Proof. intros Hk. destruct b; [|exact Hk]. by apply check_Ok, wp_ret. Qed.
Lemma takes_typed resp : takes (stage typed) resp.
Proof.
  destruct resp; simpl; try done; intros c data Hd [[[(H1 & H2 & H3) Hi] HP] Hl];
    (split; [|exact Hl]); (split; [|exact HP]); (split; [|exact Hi]); by split_and!.
Qed.
Lemma transfer_state_Ok old s : inv (stage typed) s → wp (transfer_state old) (λ r s', failed r s' ∨ succeeded old r s') s.
Proof.
  intros Hs. assert (Hfail : ∀ P r s', inv (stage P) s' → code r → r ≠ 0 → failed r s' ∨ succeeded old r s') by (intros; left; by eapply stage_failed).
  unfold transfer_state. apply wp_bind. unfold wp at 1, gets.
  apply maybe_switch.
  eapply check_debug_Ok; [apply known_stage|eapply (sent_step typed IX_ALL_SEND_CID); [auto with rpi|reflexivity|apply takes_typed|exact Hs]| |exact (Hfail typed)].
  clear s Hs. intros s Hs.
  eapply check_debug_Ok; [apply known_stage|eapply (sent_step typed IX_SEND_REL_ADDR); [auto with rpi|reflexivity|apply takes_typed|exact Hs]| |exact (Hfail typed)].
  clear s Hs. intros s Hs.
  eapply check_debug_Ok; [apply known_stage|eapply (sent_step typed IX_SEND_CSD); [auto with rpi|reflexivity|apply takes_typed|exact Hs]| |exact (Hfail typed)].
  clear s Hs. intros s Hs.
  apply parse_Ok; [exact Hs|intros s' Hs' _ _; by eapply Hfail; [exact Hs'|auto with rpi|]|].
  clear s Hs. intros s Hs.
  eapply (check_debug_Ok (stage selected)); [apply known_stage|eapply wp_dev; [apply dev_set_clock|exact Hs|by intros]| |exact (Hfail selected)].
  clear s Hs. intros s Hs.
  eapply check_debug_Ok; [apply known_stage|eapply (sent_step selected IX_CARD_SELECT); [auto with rpi|reflexivity|exact I|exact Hs]| |exact (Hfail selected)].
  clear s Hs. intros s Hs.
  eapply check_debug_Ok; [apply known_stage|apply scr_Ok, Hs| |exact (Hfail selected)].
  clear s Hs. intros s Hs. apply wp_bind. unfold wp at 1, gets.
  match goal with |- wp ((if _ then _ else _) ?k) ?Q _ => assert (Hk : ∀ s, inv (stage selected) s → wp k Q s) end.
  { clear s Hs. intros s Hs.
    eapply check_debug_Ok; [apply known_stage|eapply (sent_stepA selected IX_SET_BLOCKLEN); [auto with rpi|reflexivity|exact I|exact Hs]| |exact (Hfail selected)].
    clear s Hs. intros s Hs. apply wp_bind. eapply (wp_card (stage selected) usable); [exact Hs|by intros [[[? ?] ?] ?]|]. intros s' Hs'.
    apply wp_bind. unfold wp at 1, gets. apply wp_ret. right. by split. }
  case_match; [|by apply Hk].
  eapply check_debug_Ok; [apply known_stage|eapply (sent_stepA selected IX_SET_BUS_WIDTH); [auto with rpi|reflexivity|exact I|exact Hs]| |exact (Hfail selected)].
  clear s Hs H1. intros s Hs. apply wp_bind. eapply wp_dev; [apply dev_get32|exact Hs|]. intros v s1 _ Hs1.
  apply wp_bind. eapply wp_dev; [apply dev_put32|exact Hs1|]. intros _ s2 _ Hs2. by apply Hk.
Qed.
End commands.

(** What the answer of [sdInit] says. *)
Definition init_spec (s s' : Sd D) (r : Z) : Prop :=
  let old := if card_init (sd_card s) then card_cid (sd_card s) else replicate 4 0 in
  card_wf (sd_card s') ∧ calm s s' ∧
  (card_init (sd_card s') = true ↔ r = SD_OK ∨ r = SD_CARD_CHANGED ∨ r = SD_CARD_REINSERTED) ∧
  (r = SD_OK → card_init (sd_card s) = true ∧ sd_card s' = with_absent false (sd_card s)) ∧
  (r = SD_CARD_CHANGED ∨ r = SD_CARD_REINSERTED → typed (sd_card s') ∧ parsed (sd_card s')) ∧
  (r = SD_CARD_REINSERTED → card_cid (sd_card s') = old) ∧ (r = SD_CARD_CHANGED → card_cid (sd_card s') ≠ old).
Lemma failed_spec s r s' : failed s r s' → init_spec s s' r.
Proof.
  intros ([[Hw Hi] Hc] & Hr & Hne). assert (r ≠ SD_CARD_CHANGED ∧ r ≠ SD_CARD_REINSERTED) as [? ?] by (split; intros ->; by apply Hr).
  unfold init_spec, SD_OK. rewrite Hi. split_and!; [done|done| |intros; congruence|intros [|]; congruence|intros; congruence|intros; congruence].
  split; [done|]. intros [?|[?|?]]; congruence.
Qed.
Lemma succeeded_spec s r s' : succeeded s (if card_init (sd_card s) then card_cid (sd_card s) else replicate 4 0) r s' → init_spec s s' r.
Proof.
  intros ([[[Hw Hi] Hsel] Hc] & ->). unfold init_spec. case_decide; split_and!; try done; try (by intros _); try (by split; auto).
Qed.

Lemma sdInit_Ok s : card_wf (sd_card s) → ∃ r s', sdInit s = Ok r s' ∧ init_spec s s' r.
Proof.
  intros Hwf. apply wp_Ok. unfold sdInit. set (i0 := card_init (sd_card s)).
  assert (Hs : card_in s (λ c, c = sd_card s) s) by done. 
  apply wp_bind. unfold wp at 1, gets. apply wp_bind. eapply (wp_dev _ _ _ any); [|exact Hs|].
  { destruct (card_init (sd_card s)); cbn [negb]; [by apply dev_ret|apply dev_init_gpio]. }
  intros _ s1 _ Hs1. apply wp_bind. eapply wp_dev; [apply dev_get32|exact Hs1|]. intros eds s2 _ Hs2. set (ejected := test eds _).
  apply wp_bind. eapply (wp_card _ _ (λ c, c = with_absent false (sd_card s))); [exact Hs2|by intros ->|]. intros s3 [Es3 Hc3].
  apply wp_bind. unfold wp at 1, gets.
  assert (Hrest : ∀ old s', old = (if card_init (sd_card s) then card_cid (sd_card s) else replicate 4 0) → card_in s (base false) s' → 
    wp (c ← gets sd_card; if card_init c then mret SD_OK else
        v ← get32 EMMC_SLOTISR_VER; modify (put_hostver (Z.shiftr (Z.land v HOST_SPEC_NUM) HOST_SPEC_NUM_SHIFT));;
        check sdGetBaseClock (check (sdResetCard C1_SRST_HC) (identify (transfer_state old)))) (λ r s', init_spec s s' r) s').
  { intros old s4 -> Hs4. apply wp_bind. unfold wp at 1, gets. rewrite (proj2 (proj1 Hs4)). apply wp_bind.
    eapply wp_dev; [apply dev_get32|exact Hs4|]. intros v s5 _ Hs5. apply wp_bind. unfold wp at 1, modify. set (s6 := put_hostver _ s5).
    apply check_Ok. eapply (wp_dev s (base false)); [apply dev_base_clock|exact Hs5|]. intros r s7 Hr Hs7.
    destruct (Z.eqb_spec r 0); [|by apply failed_spec]. apply check_Ok. eapply wp_mono; [by apply reset_Ok|]. intros r8 s8 Hr8.
    destruct (Z.eqb_spec r8 0); [|apply failed_spec; by destruct Hr8 as (? & ? & _)].
    eapply identify_Ok; [by eapply answered_ready| |by apply failed_spec]. intros s9 Hs9. eapply wp_mono; [by apply transfer_state_Ok|].
    intros r10 s10 [?|?]; [by apply failed_spec|by apply succeeded_spec]. }
  rewrite Es3. change (card_init (with_absent false (sd_card s))) with (card_init (sd_card s)). destruct (ejected && card_init (sd_card s)) eqn:Eb.
  - apply andb_prop in Eb as [_ Ei]. apply wp_bind, wp_bind. unfold upd_card at 1, wp at 1, modify. apply wp_ret. apply Hrest; [by rewrite Ei|].
    split; [|exact Hc3]. simpl. rewrite Es3. by split.
  - apply wp_bind, wp_ret. destruct (card_init (sd_card s)) eqn:Ei.
    + apply wp_bind. unfold wp at 1, gets. rewrite Es3. change (card_init (with_absent false (sd_card s))) with (card_init (sd_card s)). rewrite Ei.
      apply wp_ret. unfold init_spec. rewrite Es3. split_and!; try done; [by split; auto|by intros [|]].
    + apply Hrest; [done|]. split; [|exact Hc3]. rewrite Es3. by split.
Qed.

(** What the driver may rely on after [sdInit] has answered [r]. *)
Record init_promise (s s' : Sd D) (r : Z) : Prop := {
  ip_wf : card_wf (sd_card s');
  ip_calm : calm s s';
  ip_zero : r = SD_OK → card_init (sd_card s') = true;
  ip_error : r ≠ SD_OK → r ≠ SD_CARD_CHANGED → r ≠ SD_CARD_REINSERTED → card_init (sd_card s') = false;
  ip_card : card_init (sd_card s') = true →
    card_init (sd_card s) = true ∧ sd_card s' = with_absent false (sd_card s) ∨ typed (sd_card s') ∧ parsed (sd_card s');
  ip_same : r = SD_CARD_REINSERTED → card_cid (sd_card s') = if card_init (sd_card s) then card_cid (sd_card s) else replicate 4 0;
  ip_other : r = SD_CARD_CHANGED → card_cid (sd_card s') ≠ if card_init (sd_card s) then card_cid (sd_card s) else replicate 4 0
}.


(** The comment on [sdInit] says that it returns zero if the initialisation was
    successful. Zero is the answer only for a card that was initialised before; a
    successful first initialisation answers with one of the other two codes. *)
Lemma sdInit_success_not_zero s : card_wf (sd_card s) → card_init (sd_card s) = false →
  ∃ r s', sdInit s = Ok r s' ∧ r ≠ SD_OK ∧ (card_init (sd_card s') = true ↔ r = SD_CARD_CHANGED ∨ r = SD_CARD_REINSERTED).
Proof.
  intros Hwf Hi. destruct (sdInit_Ok s Hwf) as (r & s' & E & H1 & H2 & H3 & H4 & H5 & H6 & H7). exists r, s'.
  assert (r ≠ SD_OK) as Hne by (intros Hr; destruct (H4 Hr); congruence). split_and!; [done|done|]. rewrite H3. naive_solver.
Qed.
End init.

(** ** A host with a card of 8 GiB *)

Record demo_host := mkHost { last_command : Z }.
Definition host_read (r : reg) : M demo_host Z := λ d,
  Ok match r with
     | EMMC_INTERRUPT => Z.lor INT_CMD_DONE INT_READ_RDY
     | EMMC_STATUS => SR_READ_AVAILABLE
     | EMMC_CONTROL1 => C1_CLK_STABLE
     | EMMC_SLOTISR_VER => 0x20000
     | EMMC_DATA => 0x500
     | EMMC_RESP3 => 0x400000
     | EMMC_RESP1 => 0x3fff00
     | EMMC_RESP0 => if last_command d =? Z.lor 0x08000000 CMD_RSPNS_48 then 0x1AA
                     else if last_command d =? Z.lor 0x29000000 CMD_RSPNS_48 then 0xc0ff8000 else 0x20
     | _ => 0
     end d.
Definition host_write (r : reg) (v : Z) : M demo_host unit := λ d,
  Ok () match r with EMMC_CMDTM => mkHost v | _ => d end.
#[global] Instance demo_host_emmc : Emmc demo_host := {
  mmio_read := host_read;
  mmio_write := host_write;
  mbox_get_clock_rate _ := mret 0
}.
#[global] Instance demo_host_answers : EmmcAnswers demo_host.
Proof. constructor; by repeat eexists. Defined.
Definition demo_new : Sd demo_host :=
  mkSd (mkHost 0) (mkDescriptor 0 (replicate 4 0) (replicate 4 0) (replicate 2 0) 0 0 0 0 0 false false 0 0 0 None 0) 0
    (init_spinlock "sdlock") (init_spinlock "qlock") (mkBufs (mkQueue NULL NULL 0) ∅) [] (0, 0).
Definition init_summary (o : outcome (Sd demo_host) Z) : option (Z * Z * Z * bool) :=
  match o with Ok r s => Some (r, card_type (sd_card s), card_capacity (sd_card s), card_init (sd_card s)) | _ => None end.
