(* ===== verification/BlockDev.v ===== *)
(** * The file system's view of the SD card (fs/block_device.c)

    [sd_read] and [sd_write] build a request in their stack frame and call [sdrw],
    which sleeps until the interrupt handler has served it. They are split there: the
    part up to the call, and the part after it. *)
From S2P Require Import Prelude Locks Buf Sd SdSpec.

Section blockdev.
Context {D : Type} `{Emmc D} (me : Z).
Local Notation SD := (Sd D).

(** The stack frame of [sd_read] has a [struct buf] at address [b] with contents
    [junk]. *)
Definition put_buf (b : Z) (x : Buf) : M Bufs unit := modify (λ s, set_bufs (<[b := x]> (bq_mem s)) s).
Definition sd_read_begin (b : Z) (junk : list Z) (block_no : Z) : M SD unit :=
  on_queue (put_buf b (mkBuf 0 (u32 block_no) junk 0 0));;
  sdrw me b.
Definition sd_read_end (b : Z) : M SD (list Z) :=
  sdrw_resume me b;;
  x ← on_queue (get_buf b);
  mret (b_data x).
Definition sd_write_begin (b : Z) (block_no : Z) (buffer : list Z) : M SD unit :=
  on_queue (put_buf b (mkBuf (Z.lor B_DIRTY B_VALID) (u32 block_no) buffer 0 0));;
  sdrw me b.
Definition sd_write_end (b : Z) : M SD unit := sdrw_resume me b.
(** [init_block_device] reads the super block, the second block of the partition that
    begins at 0x20800, into [sblock_data]. *)
Definition init_block_device_begin (b : Z) (junk : list Z) : M SD unit := sd_read_begin b junk (0x20800 + 1).
Definition init_block_device_end (b : Z) : M SD (list Z) := sd_read_end b.
End blockdev.

Section spec.
Context {D : Type} `{EmmcCard D} (me : Z).
Implicit Types s : Sd D.

(** The blocks that a card can address: by number, or by the 32-bit offset of their
    first byte. *)
Definition addressable (c : SDDescriptor) (n : Z) : Prop := 0 ≤ n < if card_type c =? SD_TYPE_2_HC then 2 ^ 32 else 2 ^ 23.
(** The bytes of block [n]. *)
Definition address (c : SDDescriptor) (n : Z) : Z := arg_of c (mkBuf 0 n [] 0 0).
Definition block_of (s : Sd D) (n : Z) : list Z := bytes_of (disk (sd_dev s) (address (sd_card s) n)).

Lemma u32_i32 x : u32 (i32 x) = u32 x.
Proof. unfold u32, i32, wrap, swrap. rewrite Zminus_mod_idemp_l. f_equal. lia. Qed.
Lemma address_value c n : addressable c n → address c n = if card_type c =? SD_TYPE_2_HC then n else n * 512.
Proof.
  unfold addressable, address, arg_of. simpl. destruct (_ =? _); intros Hn; rewrite u32_i32; [by apply u32_small|].
  rewrite i32_small, Z.shiftl_mul_pow2, u32_small by lia. lia.
Qed.
Lemma address_inj c m n : addressable c m → addressable c n → address c m = address c n → m = n.
Proof. intros Hm Hn. rewrite !address_value by done. destruct (_ =? _); lia. Qed.
Lemma arg_of_address c f n data p q : arg_of c (mkBuf f n data p q) = address c n.
Proof. done. Qed.
(** One request, from a quiet driver to a quiet driver. *)
Lemma request_Ok s b x : serves s [] false → request_ok b x → let t := transfer_of (sd_card s) x in
  ∃ s1, (on_queue (put_buf b x);; sdrw me b) s = Blocked s1 ∧ phase_of (sd_dev s1) = Working t ∧
  ∀ d', phase_of d' = Ready t → disk d' = disk (sd_dev s1) →
  ∃ s2 s', sd_intr me (put_dev d' s1) = Ok () s2 ∧ sdrw_resume me b s2 = Ok () s' ∧ serves s' [] false ∧ card_type (sd_card s') = card_type (sd_card s) ∧
    (∀ a, disk (sd_dev s') a = disk_after t (disk (sd_dev s)) a) ∧
    ∃ y, bq_mem (sd_queue s') !! b = Some y ∧ b_data y = data_after t (disk (sd_dev s)) (b_data x).
Proof.
  intros Hs Hr t. set (q := set_bufs (<[b := x]> (bq_mem (sd_queue s))) (sd_queue s)). set (s0 := put_queue q s).
  assert (Hs0 : serves s0 [] false) by (destruct Hs as [H1 H2 [] H4 H5 H6]; constructor; [done|done|by constructor|by intros ? ?%elem_of_nil|done|done]).
  assert (Hx0 : bq_mem (sd_queue s0) !! b = Some x) by (simpl; by rewrite lookup_insert_eq).
  destruct (sdrw_Ok me s0 [] false b x Hs0) as (s1 & E1 & Hs1 & Hw1 & Hd1 & Hc1 & Hq1); [by apply not_elem_of_nil|done|done|done|].
  destruct (same_requests_lookup _ _ _ _ Hq1 Hx0) as (x1 & Hx1 & Ex1).
  assert (Et : transfer_of (sd_card s1) x1 = t) by (by apply request_transfer).
  exists s1. split; [erewrite bind_Ok by (by apply on_queue_Ok); exact E1|].
  destruct (serves_head _ _ _ _ Hs1) as (z & Hz & Ep). rewrite Hx1 in Hz. injection Hz as <-. rewrite Et in Ep. split; [done|].
  intros d' Hp' Hd'. set (s2 := put_dev d' s1).
  assert (Hs2 : serves s2 [b] true).
  { destruct Hs1 as [A1 A2 A3 A4 A5 A6]. constructor; try done; simpl; [by rewrite Hx1, Hp', Et|intros a; by rewrite Hd']. }
  destruct (sd_intr_Ok me s2 b [] x1 Hs2 Hx1) as (s3 & E3 & Hs3 & Hw3 & Hc3 & Hd3 & Hb3 & _).
  destruct (bq_mem (sd_queue s3) !! b) as [y|] eqn:Ey; [|done]. injection Hb3 as Hf Hn Hdat.
  exists s3. eexists. split; [done|]. split; [rewrite (sdrw_resume_Ok me s3 b y (sv_qlock _ _ _ Hs3) Ey), Hf; reflexivity|].
  simpl in Hd3, Hdat. rewrite Et, Hd', Hd1 in *. split_and!; [|simpl; rewrite Hc3; exact Hc1|simpl; exact Hd3|].
  - destruct Hs3. by constructor.
  - exists y. split; [done|]. rewrite Hdat. f_equal. by injection Ex1.
Qed.

(** A call that waits in the driver: it starts a transfer, and when the controller has
    finished it, the interrupt handler and then the rest of the call run. *)
Definition calls {A} (begin : M (Sd D) unit) (rest : M (Sd D) A) (s : Sd D) (Q : A → Sd D → Prop) : Prop :=
  ∃ s1 t, begin s = Blocked s1 ∧ phase_of (sd_dev s1) = Working t ∧
  ∀ d', phase_of d' = Ready t → disk d' = disk (sd_dev s1) →
  ∃ s2 v s', sd_intr me (put_dev d' s1) = Ok () s2 ∧ rest s2 = Ok v s' ∧ serves s' [] false ∧ card_type (sd_card s') = card_type (sd_card s) ∧ Q v s'.

(** C39. The SD card is an array of blocks for the file system. From a driver with no
    request, [sd_read] hands its stack buffer over and sleeps; when the controller has
    done the transfer, the interrupt handler wakes it and it returns the 512 bytes of
    the block, and no block changes. [sd_write] leaves the 512 bytes of its argument in
    the block it names and every other block as it was, so that a following read gives
    them back. The driver ends with no request and both locks free. This holds for
    every block that the card can address: 2^32 blocks by number, 2^23 by the offset
    of their first byte. *)
Theorem sd_block_device_correct s b n : serves s [] false → Z.land (b + 8) 3 = 0 → addressable (sd_card s) n →
  length (block_of s n) = Z.to_nat BSIZE ∧ Forall (λ x, 0 ≤ x < 256) (block_of s n) ∧
  (∀ junk, length junk = Z.to_nat BSIZE → Forall (λ x, 0 ≤ x < 256) junk →
     calls (sd_read_begin me b junk n) (sd_read_end me b) s (λ v s', v = block_of s n ∧ ∀ m, block_of s' m = block_of s m)) ∧
  (∀ data, length data = Z.to_nat BSIZE → Forall (λ x, 0 ≤ x < 256) data →
     calls (sd_write_begin me b n data) (sd_write_end me b) s
       (λ _ s', ∀ m, addressable (sd_card s) m → block_of s' m = if decide (m = n) then data else block_of s m)).
Proof.
  intros Hs Ha Hn. assert (Hu : u32 n = n) by (apply u32_small; unfold addressable in Hn; case_match; lia). split_and!.
  - unfold block_of, bytes_of. rewrite length_bind_le_bytes, (sv_disk _ _ _ Hs). done.
  - apply Forall_bind_le_bytes.
  - intros junk Hl Hj. destruct (request_Ok s b (mkBuf 0 n junk 0 0) Hs) as (s1 & E1 & Ep & Hrest); [by split_and!|].
    exists s1. eexists. split; [unfold sd_read_begin; rewrite Hu; exact E1|]. split; [exact Ep|]. intros d' Hp' Hd'.
    destruct (Hrest d' Hp' Hd') as (s2 & s' & E2 & E3 & Hs' & Hc & Hd & y & Hy & Hdat). exists s2, (b_data y), s'. split; [done|].
    split; [unfold sd_read_end; erewrite bind_Ok by exact E3; erewrite bind_Ok by (apply on_queue_Ok; by apply get_buf_Ok); by rewrite put_queue_id|].
    split_and!; [done|done|done|]. intros m. unfold block_of, address, arg_of. by rewrite Hd, Hc.
  - intros data Hl Hj. destruct (request_Ok s b (mkBuf (Z.lor B_DIRTY B_VALID) n data 0 0) Hs) as (s1 & E1 & Ep & Hrest); [by split_and!|].
    exists s1. eexists. split; [unfold sd_write_begin; rewrite Hu; exact E1|]. split; [exact Ep|]. intros d' Hp' Hd'.
    destruct (Hrest d' Hp' Hd') as (s2 & s' & E2 & E3 & Hs' & Hc & Hd & _). exists s2, (), s'. split_and!; [done|done|done|done|].
    intros m Hm. unfold block_of. replace (address (sd_card s') m) with (address (sd_card s) m) by (unfold address, arg_of; by rewrite Hc).
    rewrite Hd. simpl. rewrite arg_of_address. destruct (decide (m = n)) as [->|Hne].
    + rewrite decide_True by done. by apply bytes_of_words_of.
    + rewrite decide_False; [done|]. intros E. by apply Hne, (address_inj (sd_card s)).
Qed.
End spec.

Lemma sd_block_device_correct_witness :
  Z.land (16 + 8) 3 = 0 ∧ addressable (sd_card demo_sd) 133121 ∧
  calls 0 (sd_write_begin 0 16 133121 (replicate 512 7)) (sd_write_end 0 16) demo_sd
    (λ _ s', ∀ m, addressable (sd_card demo_sd) m → block_of s' m = if decide (m = 133121) then replicate 512 7 else block_of demo_sd m).
Proof.
  split; [done|]. split; [done|]. apply (sd_block_device_correct 0 demo_sd 16 133121); [apply demo_serves|done|done|done|by apply Forall_replicate].
Defined.
