(* ===== verification/Mkfs.v ===== *)
(** * The image builder (user/mkfs/main.c)

    The host tool that writes the first file system image. The image file is the list of
    its blocks; the other files are given as the results of [read]. [exit(1)] and a failed
    [assert] end the program, as the outcome [Panic]. The host is little-endian. *)
From S2P Require Import Prelude Cache Inode InodeIO.

Definition FSSIZE : Z := 1000.
Definition NINODES : Z := 200.
Definition LOGSIZE : Z := LOG_MAX_SIZE.
Definition nbitmap : Z := FSSIZE / (BLOCK_SIZE * 8) + 1.
Definition ninodeblocks : Z := NINODES / INODE_PER_BLOCK + 1.
Definition num_log_blocks : Z := LOGSIZE.
Definition nmeta : Z := 2 + num_log_blocks + ninodeblocks + nbitmap.
Definition num_data_blocks : Z := FSSIZE - nmeta.

(** The bytes of the result are those of the argument, lowest first. *)
Definition xshort (x : Z) : Z := le_val (le_bytes 2 x).
Definition xint (x : Z) : Z := le_val (le_bytes 4 x).

Definition sb : SuperBlock :=
  mkSuperBlock (xint FSSIZE) (xint num_data_blocks) (xint NINODES) (xint num_log_blocks)
    (xint 2) (xint (2 + num_log_blocks)) (xint (2 + num_log_blocks + ninodeblocks)).
Definition sb_bytes (s : SuperBlock) : list Z :=
  [sb_num_blocks s; sb_num_data_blocks s; sb_num_inodes s; sb_num_log_blocks s; sb_log_start s; sb_inode_start s; sb_bitmap_start s] ≫= le_bytes 4.

Record Mkfs := mkMkfs { mk_img : list (list Z); mk_freeinode : Z; mk_freeblock : Z }.
Definition set_img x (m : Mkfs) : Mkfs := mkMkfs x (mk_freeinode m) (mk_freeblock m).
Definition set_freeinode x (m : Mkfs) : Mkfs := mkMkfs (mk_img m) x (mk_freeblock m).
Definition set_freeblock x (m : Mkfs) : Mkfs := mkMkfs (mk_img m) (mk_freeinode m) x.
Abbreviation MK := (M Mkfs).

(** The block at the offset [sec * BSIZE], which is computed in 32 bits. *)
Definition sector (sec : Z) : nat := Z.to_nat (u32 (sec * BLOCK_SIZE) / BLOCK_SIZE).
(** Writing after the end leaves a hole of zeros. *)
Definition wsect (sec : Z) (buf : list Z) : MK unit :=
  modify (λ m, let img := mk_img m in
    let img := img ++ replicate (S (sector sec) - length img) zero_data in
    set_img (<[sector sec := buf]> img) m).
(** Reading after the end gives fewer bytes than a block. *)
Definition rsect (sec : Z) : MK (list Z) :=
  m ← getS;
  match mk_img m !! sector sec with Some b => mret b | None => panic "read" end.

Definition IBLOCK (i : Z) : Z := u32 (i / INODE_PER_BLOCK + sb_inode_start sb).
Definition winode (inum : Z) (ip : InodeEntry) : MK unit :=
  let bn := IBLOCK inum in
  buf ← rsect bn;
  wsect bn (set_entry buf inum ip).
Definition rinode (inum : Z) : MK InodeEntry :=
  buf ← rsect (IBLOCK inum);
  mret (get_entry buf inum).

Definition ialloc (type : Z) : MK Z :=
  inum ← gets mk_freeinode;
  modify (set_freeinode (u32 (inum + 1)));;
  winode inum (mkInodeEntry (xshort type) 0 0 (xshort 1) (xint 0) (replicate 12 0) 0);;
  mret inum.

(** [freeblock++] *)
Definition next_block : MK Z :=
  b ← gets mk_freeblock;
  modify (set_freeblock (u32 (b + 1)));;
  mret b.
Definition zero_bitmap : list Z := replicate (Z.to_nat BLOCK_SIZE) 0.
Definition set_bit (buf : list Z) (i : Z) : list Z :=
  <[Z.to_nat (i / 8) := Z.lor (buf !!! Z.to_nat (i / 8)) (Z.shiftl 1 (i mod 8))]> buf.
Definition balloc (used : Z) : MK unit :=
  assertM (used <? BLOCK_SIZE * 8) "used < BSIZE * 8";;
  wsect (sb_bitmap_start sb) (foldl set_bit zero_bitmap (seqZ 0 used)).

(** The entry [fbn - NDIRECT] of the indirect block, made if it is not there. *)
Definition slot_block (fbn : Z) (din : InodeEntry) : MK (Z * InodeEntry) :=
  indirect ← rsect (xint (e_indirect din));
  let k := fbn - INODE_NUM_DIRECT in
  if get_addrs indirect !!! Z.to_nat k =? 0 then
    b ← next_block;
    let indirect := set_addr indirect k (xint b) in
    wsect (xint (e_indirect din)) indirect;;
    mret (xint (get_addrs indirect !!! Z.to_nat k), din)
  else mret (xint (get_addrs indirect !!! Z.to_nat k), din).
(** The block of the file with number [fbn], and the inode that has it. *)
Definition file_block (fbn : Z) (din : InodeEntry) : MK (Z * InodeEntry) :=
  if fbn <? INODE_NUM_DIRECT then
    din ← (if xint (e_addrs din !!! Z.to_nat fbn) =? 0
           then b ← next_block; mret (with_e_addrs (<[Z.to_nat fbn := xint b]> (e_addrs din)) din)
           else mret din);
    mret (xint (e_addrs din !!! Z.to_nat fbn), din)
  else
    din ← (if xint (e_indirect din) =? 0 then b ← next_block; mret (with_e_indirect (xint b) din) else mret din);
    slot_block fbn din.
(** [n1], the part of [n] bytes at [off] that lies in its block. *)
Definition piece_len (n off : Z) : Z := Z.min n (u32 (u32 ((off / BLOCK_SIZE + 1) * BLOCK_SIZE) - off)).
(** Each round takes at least one byte of [p]. *)
Fixpoint iappend_loop (fuel : nat) (p : list Z) (off : Z) (din : InodeEntry) : MK (Z * InodeEntry) :=
  match fuel, p with
  | _, [] => mret (off, din)
  | O, _ => nofuel
  | S fuel', _ =>
      let fbn := off / BLOCK_SIZE in
      assertM (fbn <? INODE_MAX_BLOCKS) "fbn < INODE_MAX_BLOCKS";;
      xd ← file_block fbn din;
      let n1 := piece_len (Z.of_nat (length p)) off in
      buf ← rsect xd.1;
      wsect xd.1 (splice (Z.to_nat (off - fbn * BLOCK_SIZE)) (take (Z.to_nat n1) p) buf);;
      iappend_loop fuel' (drop (Z.to_nat n1) p) (u32 (off + n1)) xd.2
  end.
Definition iappend (inum : Z) (p : list Z) : MK unit :=
  din ← rinode inum;
  r ← iappend_loop (length p) p (xint (e_num_bytes din)) din;
  winode inum (with_e_num_bytes (xint r.1) r.2).

(** ** [main] *)

(** An argument: its path, and what the calls of [read] return, if it can be opened. *)
Record input := mkInput { in_path : list Z; in_data : option (list (list Z)) }.
Definition SLASH : Z := 47.
Definition UNDERSCORE : Z := 95.
(** [j] counts the characters after the last slash. *)
Definition name_length (path : list Z) : nat :=
  foldl (λ j c, if c =? SLASH then O else S j) O path.
Definition base_name (path : list Z) : list Z := drop (length path - name_length path) path.
Definition file_name (path : list Z) : list Z :=
  let name := base_name path in if hd 0 name =? UNDERSCORE then tl name else name.
(** [strncpy(de.name, name, DIRSIZ)] into a cleared entry; a name ends with a zero. *)
Definition dir_name (name : list Z) : list Z :=
  default [] (strncpy_bytes (name ++ [0]) (Z.to_nat FILE_NAME_MAX_LENGTH)).
Definition append_dirent (rootino inum : Z) (name : list Z) : MK unit :=
  iappend rootino (dirent_bytes (mkDirEntry (xshort inum) (dir_name name))).

Fixpoint append_all (inum : Z) (chunks : list (list Z)) : MK unit :=
  match chunks with [] => mret () | c :: l => iappend inum c;; append_all inum l end.
Definition add_file (rootino : Z) (i : input) : MK unit :=
  assertM (bool_decide (SLASH ∉ base_name (in_path i))) "index(argv[i], '/') == 0";;
  match in_data i with
  | None => panic "open"
  | Some chunks =>
      inum ← ialloc INODE_REGULAR;
      append_dirent rootino inum (file_name (in_path i));;
      append_all inum chunks
  end.
Fixpoint add_files (rootino : Z) (l : list input) : MK unit :=
  match l with [] => mret () | i :: l' => add_file rootino i;; add_files rootino l' end.
Fixpoint clear_image (i : Z) (n : nat) : MK unit :=
  match n with O => mret () | S n' => wsect i zero_data;; clear_image (i + 1) n' end.

(** [image] says whether there is an image argument, and whether it can be opened;
    opening it truncates it. *)
Definition main (image : option bool) (files : list input) : MK unit :=
  match image with
  | None => panic "Usage: mkfs fs.img files..."
  | Some false => panic "open"
  | Some true =>
      modify (set_img []);;
      modify (set_freeblock nmeta);;
      clear_image 0 (Z.to_nat FSSIZE);;
      wsect 1 (sb_bytes sb ++ replicate (Z.to_nat BLOCK_SIZE - length (sb_bytes sb)) 0);;
      rootino ← ialloc INODE_DIRECTORY;
      assertM (rootino =? ROOT_INODE_NO) "rootino == ROOT_INODE_NO";;
      append_dirent rootino rootino [46];;
      append_dirent rootino rootino [46; 46];;
      add_files rootino files;;
      din ← rinode rootino;
      let off := xint (e_num_bytes din) in
      let off := u32 (u32 (off / BLOCK_SIZE + 1) * BLOCK_SIZE) in
      winode rootino (with_e_num_bytes (xint off) din);;
      used ← gets mk_freeblock;
      balloc (i32 used)
  end.
(** The globals at the start. *)
Definition mk_start : Mkfs := mkMkfs [] 1 0.
