(* ===== verification/MkfsSpec.v ===== *)
(** * The image that mkfs builds (user/mkfs/main.c)

    The image satisfies the invariant of the inode layer (InodeIO.v): the inode entries,
    the block tables and the bitmap that the tool writes are those that fs/inode.c and
    fs/cache.c expect, with the contents of the input files. *)
From S2P Require Import Prelude Cache Inode InodeIO Mkfs.

Local Notation fs_inv := (file_inv (sb := sb)).
Local Notation fs_ext := (extends (sb := sb)).
Local Notation fs_writes := (writes (sb := sb)).

Lemma sb_value : sb = mkSuperBlock 1000 908 200 63 2 65 91.
Proof. reflexivity. Qed.
Lemma sb_layout : fs_layout sb.
Proof. split; vm_compute; intuition congruence. Qed.
Lemma sb_data n : data_block sb n ↔ nmeta ≤ n < FSSIZE.
Proof. done. Qed.

Lemma xint_id x : word32 x → xint x = x.
Proof. intros Hx. apply le_val_bytes_small. unfold word32 in Hx. simpl. lia. Qed.

(** ** The image and the counters *)

Record rep (m : Mkfs) (V : Z → list Z) (U : Z → bool) : Prop := {
  rp_len : length (mk_img m) = Z.to_nat FSSIZE;
  rp_view : ∀ n, 0 ≤ n < FSSIZE → mk_img m !! Z.to_nat n = Some (V n);
  rp_bytes : ∀ n, 0 ≤ n < FSSIZE → bytes512 (V n);
  rp_free : nmeta ≤ mk_freeblock m ≤ FSSIZE;
  rp_used : ∀ n, U n = true ↔ n < mk_freeblock m;
  rp_zero : ∀ n, mk_freeblock m ≤ n < FSSIZE → V n = zero_data
}.
Lemma sector_id n : 0 ≤ n < FSSIZE → sector n = Z.to_nat n.
Proof. intros Hn. unfold sector, FSSIZE, BLOCK_SIZE in *. rewrite u32_small, Z.div_mul by lia. done. Qed.
Lemma rsect_Ok m V U n : rep m V U → 0 ≤ n < FSSIZE → rsect n m = Ok (V n) m.
Proof. intros HR Hn. unfold rsect. erewrite bind_Ok by done. rewrite sector_id by done. by rewrite (rp_view _ _ _ HR) by done. Qed.
Lemma wsect_Ok m V U n b : rep m V U → 0 ≤ n < mk_freeblock m → bytes512 b →
  ∃ m', wsect n b m = Ok () m' ∧ rep m' (upd_fn V n b) U ∧ mk_freeblock m' = mk_freeblock m ∧ mk_freeinode m' = mk_freeinode m.
Proof.
  intros [H1 H2 H3 H4 H5 H6] Hn Hb. assert (Hn' : 0 ≤ n < FSSIZE) by lia. eexists. split; [done|]. split; [|done]. cbv zeta.
  rewrite sector_id, H1 by done. replace (S (Z.to_nat n) - Z.to_nat FSSIZE)%nat with 0%nat by lia. rewrite app_nil_r.
  split; simpl; [by rewrite length_insert| | |done|done|].
  - intros k Hk. unfold upd_fn. case_decide as E; [subst; apply list_lookup_insert_eq; lia|]. rewrite list_lookup_insert_ne by lia. by apply H2.
  - intros k Hk. unfold upd_fn. case_decide; [done|by apply H3].
  - intros k Hk. rewrite upd_fn_ne by lia. by apply H6.
Qed.
Lemma next_block_Ok m V U : rep m V U → mk_freeblock m < FSSIZE → let b := mk_freeblock m in
  next_block m = Ok b (set_freeblock (b + 1) m) ∧ rep (set_freeblock (b + 1) m) (upd_fn V b zero_data) (upd_fn U b true) ∧
  data_block sb b ∧ U b = false ∧ word32 b.
Proof.
  intros [H1 H2 H3 H4 H5 H6] Hlt b. assert (Hb : nmeta ≤ b < FSSIZE) by (unfold b; lia). assert (Hn0 : 0 ≤ nmeta) by done.
  assert (HV : ∀ n, 0 ≤ n < FSSIZE → upd_fn V b zero_data n = V n).
  { intros n Hn. unfold upd_fn. case_decide; [|done]. subst n. by rewrite H6 by (unfold b; lia). }
  split_and!.
  - unfold next_block. erewrite bind_Ok by done. fold b. rewrite u32_small by (change FSSIZE with 1000 in *; lia). done.
  - split; simpl; [done| | |lia| |].
    + intros n Hn. rewrite HV by done. by apply H2.
    + intros n Hn. rewrite HV by done. by apply H3.
    + intros n. unfold upd_fn. case_decide; [subst; split; [lia|done]|]. rewrite H5. fold b. lia.
    + intros n Hn. rewrite HV by lia. apply H6. fold b. lia.
  - by apply sb_data.
  - destruct (U b) eqn:E; [|done]. apply H5 in E. fold b in E. lia.
  - unfold word32. change FSSIZE with 1000 in Hb. lia.
Qed.

(** ** The blocks of a file *)

(** Exactly the blocks below [off] are there, and the indirect block if one of them
    needs it. *)
Record full (V : Z → list Z) (e : InodeEntry) (off : Z) : Prop := {
  fu_addr : ∀ k, 0 ≤ k < INODE_MAX_BLOCKS → addr_of V e k ≠ 0 ↔ k * BLOCK_SIZE < off;
  fu_ind : e_indirect e ≠ 0 ↔ INODE_NUM_DIRECT * BLOCK_SIZE < off
}.
Definition file_blocks (n : Z) : Z := (n + 511) / BLOCK_SIZE + (if INODE_NUM_DIRECT * BLOCK_SIZE <? n then 1 else 0).

(** Within a block nothing has to be added. *)
Lemma full_within V e x y : full V e x → 0 < x → x ≤ y → (y - 1) / BLOCK_SIZE = (x - 1) / BLOCK_SIZE → full V e y ∧ file_blocks y = file_blocks x.
Proof.
  intros [H1 H2] Hx Hxy E. unfold BLOCK_SIZE, INODE_NUM_DIRECT in *.
  assert (Hk : ∀ k, k * 512 < y ↔ k * 512 < x).
  { intros k. split; [|lia]. intros Hk. assert (k ≤ (y - 1) / 512) by (apply Z.div_le_lower_bound; lia). rewrite E in *.
    pose proof (Z.mul_div_le (x - 1) 512). lia. }
  split; [split|].
  - intros k Hk'. rewrite H1 by done. by rewrite Hk.
  - rewrite H2. by rewrite (Hk 12).
  - unfold file_blocks, BLOCK_SIZE, INODE_NUM_DIRECT. replace (y + 511) with (y - 1 + 1 * 512) by lia. replace (x + 511) with (x - 1 + 1 * 512) by lia.
    rewrite !Z.div_add by lia. rewrite E. specialize (Hk 12). destruct (Z.ltb_spec (12 * 512) y), (Z.ltb_spec (12 * 512) x); lia.
Qed.
(** A new block at a block boundary. *)
Lemma full_extends V U e V' U' e' off : fs_ext V U e V' U' e' → full V e off → 0 ≤ off → off mod BLOCK_SIZE = 0 →
  addr_of V' e' (off / BLOCK_SIZE) ≠ 0 → (∀ n, U' n = true → U n = true ∨ n = addr_of V' e' (off / BLOCK_SIZE) ∨ n = e_indirect e') →
  off / BLOCK_SIZE < INODE_MAX_BLOCKS → (e_indirect e' ≠ 0 ↔ INODE_NUM_DIRECT * BLOCK_SIZE < off + 1) → full V' e' (off + 1).
Proof.
  intros HE [H1 H2] H0 Hm Ha HU Hmax Hi. split; [|done]. intros k Hk. pose proof (Z.div_mod off BLOCK_SIZE ltac:(done)) as Hd. rewrite Hm in Hd.
  assert (Hq : 0 ≤ off / BLOCK_SIZE) by (apply Z.div_pos; [lia|done]). destruct (decide (k = off / BLOCK_SIZE)) as [->|Hne].
  { split; [intros _; lia|done]. }
  transitivity (k * BLOCK_SIZE < off); [|unfold BLOCK_SIZE in *; lia]. rewrite <- (H1 k Hk). split; [|intros Hn; by rewrite (ex_addr _ _ _ _ _ _ HE)].
  intros Hn. destruct (ex_new _ _ _ _ _ _ HE k Hk) as [<-|Hf]; [done|].
  destruct (fi_addr _ _ _ (ex_inv _ _ _ _ _ _ HE) k Hk Hn) as (_ & Hu & Hind). destruct (HU _ Hu) as [?|[E|?]]; [congruence| |done].
  exfalso. apply Hne. by eapply (fi_inj _ _ _ (ex_inv _ _ _ _ _ _ HE)).
Qed.

Lemma addr_word32 V U e k : fs_inv V U e → 0 ≤ k < INODE_MAX_BLOCKS → word32 (addr_of V e k).
Proof.
  intros HI Hk. destruct (decide (addr_of V e k = 0)) as [->|Hn]; [by unfold word32|].
  destruct (fi_addr _ _ _ HI k Hk Hn) as (Hd & _). pose proof (data_nonzero _ sb_layout Hd). unfold word32. lia.
Qed.
Lemma file_inv_indirect V U e : fs_inv V U e → e_indirect e ≠ 0 → 0 ≤ e_indirect e < FSSIZE ∧ U (e_indirect e) = true.
Proof.
  intros HI Hn. destruct (fi_ind _ _ _ HI Hn) as [Hd Hu]. pose proof (proj1 (sb_data _) Hd) as Hr. change nmeta with 92 in Hr. split; [lia|done].
Qed.

(** What [file_block] leaves: the block [a] is there, and nothing else of the file
    changed. *)
Record mapped (m : Mkfs) V U e off (m' : Mkfs) V' U' e' a : Prop := {
  mp_rep : rep m' V' U';
  mp_ext : fs_ext V U e V' U' e';
  mp_addr : addr_of V' e' (off / BLOCK_SIZE) = a;
  mp_full : full V' e' (off + 1);
  mp_free : mk_freeblock m' = mk_freeblock m + file_blocks (off + 1) - file_blocks off;
  mp_ino : mk_freeinode m' = mk_freeinode m
}.

(** The block is there already. *)
Lemma mapped_there m V U e off : rep m V U → fs_inv V U e → full V e off → 0 ≤ off < INODE_MAX_BYTES → off mod BLOCK_SIZE ≠ 0 →
  addr_of V e (off / BLOCK_SIZE) ≠ 0 ∧ mapped m V U e off m V U e (addr_of V e (off / BLOCK_SIZE)).
Proof.
  intros HR HI HF Ho Hm. pose proof (Z.div_mod off BLOCK_SIZE ltac:(done)) as Hd. pose proof (Z.mod_pos_bound off BLOCK_SIZE ltac:(done)) as Hb.
  destruct (full_within V e off (off + 1) HF) as [HF' Eb]; [assert (off ≠ 0) by (by intros ->); lia|lia| |].
  { unfold BLOCK_SIZE in *. replace (off + 1 - 1) with off by lia. apply (Z.div_unique _ _ _ (off mod 512 - 1)); lia. }
  split; [apply (fu_addr _ _ _ HF); [by apply offset_block|lia]|]. split; [done|by apply extends_refl|done|done|lia|done].
Qed.
Lemma direct_boundary off : 0 ≤ off → off mod BLOCK_SIZE = 0 → off ≠ INODE_NUM_DIRECT * BLOCK_SIZE →
  file_blocks (off + 1) = file_blocks off + 1 ∧ (INODE_NUM_DIRECT * BLOCK_SIZE < off + 1 ↔ INODE_NUM_DIRECT * BLOCK_SIZE < off).
Proof.
  intros Ho Hm Hne. unfold file_blocks, INODE_NUM_DIRECT, BLOCK_SIZE in *. pose proof (Z.div_mod off 512 ltac:(lia)) as Hd. rewrite Hm in Hd.
  rewrite <- (Z.div_unique (off + 1 + 511) 512 (off / 512 + 1) 0) by lia. rewrite <- (Z.div_unique (off + 511) 512 (off / 512) 511) by lia.
  destruct (Z.ltb_spec (12 * 512) (off + 1)), (Z.ltb_spec (12 * 512) off); lia.
Qed.
Lemma addr_direct V e k : k < INODE_NUM_DIRECT → addr_of V e k = e_addrs e !!! Z.to_nat k.
Proof. intros Hk. unfold addr_of. by rewrite (proj2 (Z.ltb_lt _ _) Hk). Qed.
Lemma addr_indirect V e k : INODE_NUM_DIRECT ≤ k → e_indirect e ≠ 0 → addr_of V e k = get_addrs (V (e_indirect e)) !!! Z.to_nat (k - INODE_NUM_DIRECT).
Proof. intros Hk Hn. unfold addr_of. by rewrite (proj2 (Z.ltb_ge _ _) Hk), (proj2 (Z.eqb_neq _ _) Hn). Qed.

Lemma file_block_direct m V U e off : rep m V U → fs_inv V U e → full V e off → 0 ≤ off < INODE_MAX_BYTES → off / BLOCK_SIZE < INODE_NUM_DIRECT →
  mk_freeblock m + file_blocks (off + 1) - file_blocks off ≤ FSSIZE →
  ∃ m' V' U' e' a, file_block (off / BLOCK_SIZE) e m = Ok (a, e') m' ∧ mapped m V U e off m' V' U' e' a.
Proof.
  intros HR HI HF Ho Hk Hfr. pose proof (offset_block off Ho) as Hk'. unfold file_block. rewrite (proj2 (Z.ltb_lt _ _) Hk).
  pose proof (addr_word32 V U e _ HI Hk') as Hw. rewrite <- (addr_direct V e) by done. rewrite xint_id by done.
  destruct (decide (off mod BLOCK_SIZE = 0)) as [Hm|Hm].
  2:{ destruct (mapped_there m V U e off HR HI HF Ho Hm) as [Hn HM]. rewrite (proj2 (Z.eqb_neq _ _) Hn).
      erewrite bind_Ok by done. rewrite <- (addr_direct V e), xint_id by done. by do 5 eexists. }
  pose proof (Z.div_mod off BLOCK_SIZE ltac:(done)) as Hd. rewrite Hm in Hd.
  assert (Hz : addr_of V e (off / BLOCK_SIZE) = 0).
  { destruct (decide (addr_of V e (off / BLOCK_SIZE) = 0)) as [|Hn]; [done|]. apply (fu_addr _ _ _ HF) in Hn; [lia|done]. }
  destruct (direct_boundary off) as [Eb Ei]; [lia|done|unfold INODE_NUM_DIRECT, BLOCK_SIZE in *; lia|].
  rewrite Hz. cbn [Z.eqb]. destruct (next_block_Ok m V U HR ltac:(lia)) as (En & HR' & Hdb & Hub & Hwb). set (b := mk_freeblock m) in *.
  erewrite bind_Ok by (erewrite bind_Ok by exact En; done). rewrite (xint_id b) by done.
  destruct (extends_direct V U e b (off / BLOCK_SIZE) sb_layout HI Hdb Hub ltac:(lia) Hz) as [HE Ha].
  set (e' := with_e_addrs _ e) in *. set (V' := upd_fn V b zero_data) in *. rewrite <- (addr_direct V' e') by done. rewrite Ha, xint_id by done.
  do 5 eexists. split; [done|]. split; [exact HR'|exact HE|exact Ha| |simpl; lia|done].
  eapply full_extends; [exact HE|done|lia|done| | |lia|].
  - rewrite Ha. by apply (data_nonzero b sb_layout) in Hdb as [? _]; lia.
  - intros n. rewrite Ha. unfold upd_fn. case_decide; [by right; left|by left].
  - rewrite Ei. apply (fu_ind _ _ _ HF).
Qed.

Lemma slot_new m V U e k : rep m V U → fs_inv V U e → e_indirect e ≠ 0 → INODE_NUM_DIRECT ≤ k < INODE_MAX_BLOCKS → addr_of V e k = 0 →
  mk_freeblock m < FSSIZE → let b := mk_freeblock m in
  ∃ m' V' U', slot_block k e m = Ok (b, e) m' ∧ rep m' V' U' ∧ fs_ext V U e V' U' e ∧ addr_of V' e k = b ∧ b ≠ 0 ∧
    (∀ n, U' n = true → U n = true ∨ n = b) ∧ mk_freeblock m' = b + 1 ∧ mk_freeinode m' = mk_freeinode m.
Proof.
  intros HR HI Hi Hk Hz Hlt b. destruct (file_inv_indirect V U e HI Hi) as [Hir Hiu]. pose proof (eo_indirect _ (fi_ok _ _ _ HI)) as Hiw.
  destruct (next_block_Ok m V U HR Hlt) as (En & HR1 & Hdb & Hub & Hwb). fold b in En, HR1, Hdb, Hub, Hwb.
  pose proof (rp_bytes _ _ _ HR _ Hir) as Hbytes. assert (Hk2 : 0 ≤ k - INODE_NUM_DIRECT < 128) by (change INODE_NUM_DIRECT with 12 in *; change INODE_MAX_BLOCKS with 140 in *; lia).
  destruct (extends_slot V U e b k sb_layout HI Hdb Hub Hi Hbytes Hk Hz) as [HE Ha].
  apply (rp_used _ _ _ HR) in Hiu. destruct (wsect_Ok _ _ _ (e_indirect e) (set_addr (V (e_indirect e)) (k - INODE_NUM_DIRECT) b) HR1) as (m2 & E2 & HR2 & Hf2 & Hi2);
    [simpl; unfold b; lia|by apply set_addr_bytes|].
  exists m2. do 2 eexists. split; [|split; [exact HR2|split; [exact HE|split; [exact Ha|]]]].
  - unfold slot_block. rewrite (xint_id (e_indirect e)) by done. erewrite bind_Ok by (by eapply rsect_Ok).
    rewrite <- addr_indirect by (done || lia). rewrite Hz. cbn [Z.eqb]. erewrite bind_Ok by exact En. rewrite (xint_id b) by done.
    erewrite bind_Ok by exact E2. rewrite get_set_addr by done. rewrite list_lookup_total_insert_eq by (rewrite length_get_addrs; lia). by rewrite xint_id.
  - split_and!; [pose proof (data_nonzero b sb_layout Hdb); lia| |by rewrite Hf2|by rewrite Hi2].
    intros n. unfold upd_fn. case_decide; auto.
Qed.
Lemma slot_there m V U e k : rep m V U → fs_inv V U e → e_indirect e ≠ 0 → INODE_NUM_DIRECT ≤ k < INODE_MAX_BLOCKS → addr_of V e k ≠ 0 →
  slot_block k e m = Ok (addr_of V e k, e) m.
Proof.
  intros HR HI Hi Hk Hn. destruct (file_inv_indirect V U e HI Hi) as [Hir Hiu]. unfold slot_block.
  rewrite xint_id by apply (eo_indirect _ (fi_ok _ _ _ HI)). erewrite bind_Ok by (by eapply rsect_Ok).
  rewrite <- addr_indirect by (done || lia). rewrite (proj2 (Z.eqb_neq _ _) Hn), xint_id; [done|]. eapply addr_word32; [done|].
  assert (0 ≤ INODE_NUM_DIRECT) by done. lia.
Qed.

Lemma file_block_indirect m V U e off : rep m V U → fs_inv V U e → full V e off → 0 ≤ off < INODE_MAX_BYTES → INODE_NUM_DIRECT ≤ off / BLOCK_SIZE →
  mk_freeblock m + file_blocks (off + 1) - file_blocks off ≤ FSSIZE →
  ∃ m' V' U' e' a, file_block (off / BLOCK_SIZE) e m = Ok (a, e') m' ∧ mapped m V U e off m' V' U' e' a.
Proof.
  intros HR HI HF Ho Hk Hfr. pose proof (offset_block off Ho) as Hk'. unfold file_block. rewrite (proj2 (Z.ltb_ge _ _) Hk).
  rewrite xint_id by apply (eo_indirect _ (fi_ok _ _ _ HI)). pose proof (Z.div_mod off BLOCK_SIZE ltac:(done)) as Hd.
  destruct (decide (off mod BLOCK_SIZE = 0)) as [Hm|Hm].
  2:{ destruct (mapped_there m V U e off HR HI HF Ho Hm) as [Hn HM].
      assert (Hi : e_indirect e ≠ 0) by (apply (fu_ind _ _ _ HF); pose proof (Z.mod_pos_bound off BLOCK_SIZE); unfold INODE_NUM_DIRECT, BLOCK_SIZE in *; lia).
      rewrite (proj2 (Z.eqb_neq _ _) Hi). erewrite bind_Ok by done. erewrite slot_there by (done || lia). by do 5 eexists. }
  rewrite Hm in Hd.
  assert (Hz : addr_of V e (off / BLOCK_SIZE) = 0).
  { destruct (decide (addr_of V e (off / BLOCK_SIZE) = 0)) as [|Hn]; [done|]. apply (fu_addr _ _ _ HF) in Hn; [lia|done]. }
  destruct (decide (e_indirect e = 0)) as [Hi|Hi].
  - assert (Eo : off = 6144).
    { destruct (decide (INODE_NUM_DIRECT * BLOCK_SIZE < off)) as [Hlt|]; [by apply (fu_ind _ _ _ HF) in Hlt|]. unfold INODE_NUM_DIRECT, BLOCK_SIZE in *. lia. }
    rewrite Eo in Hfr. change (file_blocks (6144 + 1)) with 14 in Hfr. change (file_blocks 6144) with 12 in Hfr.
    rewrite Hi. cbn [Z.eqb]. destruct (next_block_Ok m V U HR ltac:(lia)) as (En & HR1 & Hdb & Hub & Hwb). set (b := mk_freeblock m) in *.
    erewrite bind_Ok by (erewrite bind_Ok by exact En; done). rewrite (xint_id b) by done.
    pose proof (extends_indirect V U e b sb_layout HI Hdb Hub Hi) as HE1. set (e1 := with_e_indirect b e) in *.
    assert (Hb0 : b ≠ 0) by (pose proof (data_nonzero b sb_layout Hdb); lia).
    destruct (slot_new _ _ _ e1 (off / BLOCK_SIZE) HR1 (ex_inv _ _ _ _ _ _ HE1)) as (m2 & V2 & U2 & E2 & HR2 & HE2 & Ha2 & Hb2 & HU2 & Hf2 & Hi2);
      [done|lia| |simpl; lia|].
    { rewrite addr_indirect by done. simpl. rewrite upd_fn_eq, zero_addrs, Eo. done. }
    pose proof (extends_trans _ _ _ _ _ _ _ _ _ HE1 HE2) as HE. rewrite E2. do 5 eexists. split; [done|].
    split; [exact HR2|exact HE|exact Ha2| |rewrite Hf2, Eo; simpl; change (file_blocks (6144 + 1)) with 14; change (file_blocks 6144) with 12; lia|by rewrite Hi2].
    eapply full_extends; [exact HE|done|lia|done|by rewrite Ha2| |lia|].
    + intros n Hn. rewrite Ha2. apply HU2 in Hn as [Hn| ->]; [|by right; left]. unfold upd_fn in Hn. case_decide; [by right; right|by left].
    + subst off. split; [intros _; done|done].
  - destruct (direct_boundary off) as [Eb Ei]; [lia|done| |].
    { intros ->. apply Hi. destruct (decide (e_indirect e = 0)) as [|Hn]; [done|]. apply (fu_ind _ _ _ HF) in Hn. lia. }
    rewrite (proj2 (Z.eqb_neq _ _) Hi). erewrite bind_Ok by done.
    destruct (slot_new m V U e (off / BLOCK_SIZE) HR HI Hi) as (m2 & V2 & U2 & E2 & HR2 & HE2 & Ha2 & Hb2 & HU2 & Hf2 & Hi2); [lia|done|lia|].
    rewrite E2. do 5 eexists. split; [done|]. split; [exact HR2|exact HE2|exact Ha2| |lia|done].
    eapply full_extends; [exact HE2|done|lia|done|by rewrite Ha2| |lia|rewrite Ei; apply (fu_ind _ _ _ HF)].
    intros n Hn. rewrite Ha2. apply HU2 in Hn as [Hn| ->]; auto.
Qed.
Lemma file_block_Ok m V U e off : rep m V U → fs_inv V U e → full V e off → 0 ≤ off < INODE_MAX_BYTES →
  mk_freeblock m + file_blocks (off + 1) - file_blocks off ≤ FSSIZE →
  ∃ m' V' U' e' a, file_block (off / BLOCK_SIZE) e m = Ok (a, e') m' ∧ mapped m V U e off m' V' U' e' a.
Proof.
  intros HR HI HF Ho Hfr. destruct (decide (off / BLOCK_SIZE < INODE_NUM_DIRECT)); [by apply file_block_direct|apply file_block_indirect; [done..|lia|done]].
Qed.

(** ** Appending to a file *)

Lemma addr_of_upd V e a v k : a ≠ e_indirect e → addr_of (upd_fn V a v) e k = addr_of V e k.
Proof. intros Ha. unfold addr_of. by rewrite upd_fn_ne by done. Qed.

Record appended (m : Mkfs) V U e off (p : list Z) (m' : Mkfs) V' U' e' : Prop := {
  ap_rep : rep m' V' U';
  ap_writes : fs_writes V U e V' U' e';
  ap_full : full V' e' (off + Z.of_nat (length p));
  ap_byte : ∀ o, 0 ≤ o < INODE_MAX_BYTES → byte_at V' e' o =
    if decide (off ≤ o < off + Z.of_nat (length p)) then p !!! Z.to_nat (o - off) else byte_at V e o;
  ap_free : mk_freeblock m' = mk_freeblock m + file_blocks (off + Z.of_nat (length p)) - file_blocks off;
  ap_ino : mk_freeinode m' = mk_freeinode m
}.
Lemma appended_trans m V U e off p1 m1 V1 U1 e1 p2 m2 V2 U2 e2 :
  appended m V U e off p1 m1 V1 U1 e1 → appended m1 V1 U1 e1 (off + Z.of_nat (length p1)) p2 m2 V2 U2 e2 →
  0 ≤ off → appended m V U e off (p1 ++ p2) m2 V2 U2 e2.
Proof.
  intros [A1 A2 A3 A4 A5 A6] [B1 B2 B3 B4 B5 B6] Ho. rewrite <- Z.add_assoc, <- Nat2Z.inj_add, <- length_app in B3, B4, B5. split.
  - done.
  - by eapply writes_trans.
  - done.
  - intros o Hr. rewrite B4, A4 by done. rewrite length_app in *. repeat case_decide; try lia; try done.
    + rewrite lookup_total_app_r by lia. f_equal. lia.
    + rewrite lookup_total_app_l by lia. done.
  - lia.
  - congruence.
Qed.

(** One round: the bytes of [p] go into the block of the file at [off]. *)
Lemma round_Ok m V U e off p : rep m V U → fs_inv V U e → full V e off → 0 ≤ off → p ≠ [] →
  off mod BLOCK_SIZE + Z.of_nat (length p) ≤ BLOCK_SIZE → off < INODE_MAX_BYTES → Forall (λ b, 0 ≤ b < 256) p →
  mk_freeblock m + file_blocks (off + Z.of_nat (length p)) - file_blocks off ≤ FSSIZE →
  ∃ m1 a e' m', file_block (off / BLOCK_SIZE) e m = Ok (a, e') m1 ∧
    (buf ← rsect a; wsect a (splice (Z.to_nat (off - off / BLOCK_SIZE * BLOCK_SIZE)) p buf)) m1 = Ok () m' ∧
    ∃ V' U', appended m V U e off p m' V' U' e'.
Proof.
  intros HR HI HF Ho Hp Hfit Hmax Hb Hfr. pose proof (offset_block off ltac:(lia)) as Hk. pose proof (Z.div_mod off BLOCK_SIZE ltac:(done)) as Hd.
  pose proof (Z.mod_pos_bound off BLOCK_SIZE ltac:(done)) as Hmb. assert (Hlen : 0 < Z.of_nat (length p)) by (destruct p; simpl; [done|lia]).
  assert (Hsame : (off + Z.of_nat (length p) - 1) / BLOCK_SIZE = (off + 1 - 1) / BLOCK_SIZE).
  { replace (off + 1 - 1) with off by lia. symmetry. apply (Z.div_unique _ _ _ (off mod BLOCK_SIZE + Z.of_nat (length p) - 1)); lia. }
  assert (Eb : file_blocks (off + Z.of_nat (length p)) = file_blocks (off + 1)).
  { unfold file_blocks. unfold BLOCK_SIZE, INODE_NUM_DIRECT in *. replace (off + Z.of_nat (length p) + 511) with (off + Z.of_nat (length p) - 1 + 1 * 512) by lia.
    replace (off + 1 + 511) with (off + 1 - 1 + 1 * 512) by lia. rewrite !Z.div_add, Hsame by lia. f_equal.
    destruct (Z.ltb_spec (12 * 512) (off + Z.of_nat (length p))), (Z.ltb_spec (12 * 512) (off + 1)); try done; lia. }
  destruct (file_block_Ok m V U e off HR HI HF ltac:(lia) ltac:(lia)) as (m1 & V1 & U1 & e1 & a & E1 & [R1 X1 Ha HF1 Hf1 Hi1]).
  pose proof (ex_inv _ _ _ _ _ _ X1) as HI1. assert (Ha0 : a ≠ 0).
  { rewrite <- Ha. apply (fu_addr _ _ _ HF1); [done|lia]. }
  destruct (fi_addr _ _ _ HI1 _ Hk ltac:(by rewrite Ha)) as (Hda & Hua & Hia). rewrite Ha in Hda, Hua, Hia.
  pose proof (proj1 (sb_data _) Hda) as Hra. change nmeta with 92 in Hra. pose proof (rp_bytes _ _ _ R1 a ltac:(lia)) as Hba.
  replace (off - off / BLOCK_SIZE * BLOCK_SIZE) with (off mod BLOCK_SIZE) by lia.
  destruct (write_block V1 U1 e1 a off p HI1 Ho Hk Ha Ha0 Hba Hfit) as [HW HB]. set (V2 := upd_fn V1 a _) in *.
  destruct (wsect_Ok m1 V1 U1 a (splice (Z.to_nat (off mod BLOCK_SIZE)) p (V1 a)) R1) as (m2 & E2 & R2 & Hf2 & Hi2).
  { apply (rp_used _ _ _ R1) in Hua. lia. }
  { destruct Hba as [Hl Hr]. split; [|by apply splice_range]. rewrite length_splice; [done|]. rewrite Hl. unfold BLOCK_SIZE in *. lia. }
  exists m1, a, e1, m2. split; [done|]. split; [erewrite bind_Ok by (eapply rsect_Ok; [exact R1|lia]); exact E2|].
  exists V2, U1. split; [exact R2| | | |lia|congruence].
  - eapply writes_trans; [apply extends_writes; [apply sb_layout|done|exact X1]|exact HW].
  - destruct (full_within V1 e1 (off + 1) (off + Z.of_nat (length p)) HF1) as [[F1 F2] _]; [lia|lia|done|].
    split; [|done]. intros k Hk'. unfold V2. rewrite addr_of_upd by done. by apply F1.
  - intros o Hr. rewrite HB by done. case_decide; [done|]. by apply (ex_byte _ _ _ _ _ _ X1).
Qed.

Lemma appended_nil m V U e off : rep m V U → fs_inv V U e → full V e off → appended m V U e off [] m V U e.
Proof.
  intros HR HI HF. split; simpl; rewrite ?Z.add_0_r; [done|by apply writes_refl|done| |lia|done].
  intros o _. by rewrite decide_False by lia.
Qed.
Lemma file_blocks_mono x y : x ≤ y → file_blocks x ≤ file_blocks y.
Proof.
  intros Hxy. unfold file_blocks. pose proof (Z.div_le_mono (x + 511) (y + 511) BLOCK_SIZE ltac:(done) ltac:(lia)).
  destruct (Z.ltb_spec (INODE_NUM_DIRECT * BLOCK_SIZE) x), (Z.ltb_spec (INODE_NUM_DIRECT * BLOCK_SIZE) y); lia.
Qed.
(** The piece that [iappend] takes in one round. *)
Lemma piece off n : 0 ≤ off < INODE_MAX_BYTES → 0 < n → let n1 := piece_len n off in
  0 < n1 ≤ n ∧ off mod BLOCK_SIZE + n1 ≤ BLOCK_SIZE.
Proof.
  intros Ho Hn n1. unfold n1, piece_len. change INODE_MAX_BYTES with 71680 in Ho. unfold BLOCK_SIZE in *.
  pose proof (Z.div_mod off 512 ltac:(lia)) as Hd. pose proof (Z.mod_pos_bound off 512 ltac:(lia)) as Hb.
  rewrite (u32_small ((_ + 1) * 512)), u32_small by lia. lia.
Qed.
Lemma loop_Ok fuel : ∀ p off e m V U, rep m V U → fs_inv V U e → full V e off → 0 ≤ off → (length p ≤ fuel)%nat →
  off + Z.of_nat (length p) ≤ INODE_MAX_BYTES → Forall (λ b, 0 ≤ b < 256) p →
  mk_freeblock m + file_blocks (off + Z.of_nat (length p)) - file_blocks off ≤ FSSIZE →
  ∃ m' V' U' e', iappend_loop fuel p off e m = Ok (off + Z.of_nat (length p), e') m' ∧ appended m V U e off p m' V' U' e'.
Proof.
  induction fuel as [|fuel IH]; intros p off e m V U HR HI HF Ho Hl Hmax Hb Hfr.
  { destruct p; [|simpl in Hl; lia]. exists m, V, U, e. split; [simpl; by rewrite Z.add_0_r|by apply appended_nil]. }
  destruct p as [|x p0]; [exists m, V, U, e; split; [simpl; by rewrite Z.add_0_r|by apply appended_nil]|].
  set (p := x :: p0) in *. assert (Hp0 : p ≠ []) by done. assert (Hlen : 0 < Z.of_nat (length p)) by (simpl; lia). clearbody p.
  destruct (piece off (Z.of_nat (length p)) ltac:(lia) Hlen) as [Hn1 Hfit]. pose proof (offset_block off ltac:(lia)) as Hk.
  assert (El : iappend_loop (S fuel) p off e = (assertM (off / BLOCK_SIZE <? INODE_MAX_BLOCKS) "fbn < INODE_MAX_BLOCKS";;
    xd ← file_block (off / BLOCK_SIZE) e;
    buf ← rsect xd.1;
    wsect xd.1 (splice (Z.to_nat (off - off / BLOCK_SIZE * BLOCK_SIZE)) (take (Z.to_nat (piece_len (Z.of_nat (length p)) off)) p) buf);;
    iappend_loop fuel (drop (Z.to_nat (piece_len (Z.of_nat (length p)) off)) p)
      (u32 (off + piece_len (Z.of_nat (length p)) off)) xd.2)) by (by destruct p).
  rewrite El. set (n1 := piece_len _ _) in *. clearbody n1. clear El. assert (Hp1 : length (take (Z.to_nat n1) p) = Z.to_nat n1) by (rewrite length_take; lia).
  set (p1 := take _ p) in *. set (p2 := drop _ p). assert (Ep : p1 ++ p2 = p) by apply take_drop.
  assert (Hp2 : Z.of_nat (length p2) = Z.of_nat (length p) - n1) by (unfold p2; rewrite length_drop; lia).
  destruct (round_Ok m V U e off p1 HR HI HF Ho) as (m1 & a & e1 & m2 & E1 & E2 & V2 & U2 & HA).
  { intros E. rewrite E in Hp1. simpl in Hp1. lia. }
  { lia. }
  { lia. }
  { by apply Forall_take. }
  { pose proof (file_blocks_mono (off + Z.of_nat (length p1)) (off + Z.of_nat (length p)) ltac:(lia)). lia. }
  rewrite (proj2 (Z.ltb_lt _ _)) by apply Hk. erewrite bind_Ok by done. erewrite bind_Ok by exact E1. simpl fst. simpl snd.
  apply bind_Ok_inv in E2 as (buf & m3 & E3 & E4). erewrite bind_Ok by exact E3. erewrite bind_Ok by exact E4.
  rewrite u32_small by (change INODE_MAX_BYTES with 71680 in Hmax; lia). replace n1 with (Z.of_nat (length p1)) by lia.
  pose proof HA as [A1 A2 A3 A4 A5 A6].
  destruct (IH p2 (off + Z.of_nat (length p1)) e1 m2 V2 U2 A1 (wr_inv _ _ _ _ _ _ A2) A3) as (m' & V' & U' & e' & E' & HA').
  { lia. }
  { lia. }
  { lia. }
  { by apply Forall_drop. }
  { replace (off + Z.of_nat (length p1) + Z.of_nat (length p2)) with (off + Z.of_nat (length p)) by lia. lia. }
  exists m', V', U', e'. rewrite E'. split; [do 2 f_equal; lia|]. rewrite <- Ep. by eapply appended_trans.
Qed.

(** ** The files of the image *)

Local Notation block_of_ino := (ino_block (sb := sb)).
Definition entry_at (V : Z → list Z) (ino : Z) : InodeEntry := get_entry (V (block_of_ino ino)) ino.
Record file_at (V : Z → list Z) (U : Z → bool) (ino type : Z) (data : list Z) : Prop := {
  fa_type : e_type (entry_at V ino) = type;
  fa_links : e_num_links (entry_at V ino) = 1;
  fa_size : e_num_bytes (entry_at V ino) = Z.of_nat (length data);
  fa_inv : fs_inv V U (entry_at V ino);
  fa_content : content V (entry_at V ino) = data;
  fa_full : full V (entry_at V ino) (Z.of_nat (length data));
  fa_zero : ∀ o, Z.of_nat (length data) ≤ o < INODE_MAX_BYTES → byte_at V (entry_at V ino) o = 0
}.
Definition total (fs : list (Z * list Z)) : Z := foldr (λ f n, file_blocks (Z.of_nat (length f.2)) + n) 0 fs.
Definition super_block : list Z := sb_bytes sb ++ replicate (Z.to_nat BLOCK_SIZE - length (sb_bytes sb)) 0.
(** The inodes from 1 on are the files [fs], of type and contents, with blocks of their
    own. *)
Record holds (m : Mkfs) (V : Z → list Z) (U : Z → bool) (fs : list (Z * list Z)) : Prop := {
  ho_rep : rep m V U;
  ho_ino : mk_freeinode m = Z.of_nat (length fs) + 1;
  ho_max : Z.of_nat (length fs) < NINODES;
  ho_file : ∀ i f, fs !! i = Some f → file_at V U (Z.of_nat i + 1) f.1 f.2;
  ho_sep : ∀ i j, (i < length fs)%nat → (j < length fs)%nat → i ≠ j → separate V (entry_at V (Z.of_nat i + 1)) (entry_at V (Z.of_nat j + 1));
  ho_free : mk_freeblock m = nmeta + total fs;
  ho_super : V 1 = super_block;
  ho_unused : ∀ ino, mk_freeinode m ≤ ino < NINODES → e_type (entry_at V ino) = INODE_INVALID
}.

Lemma valid_block ino : 0 < ino < NINODES → IBLOCK ino = block_of_ino ino ∧ 65 ≤ block_of_ino ino < 91.
Proof.
  intros Hi. unfold IBLOCK, ino_block, NINODES in *. rewrite sb_value. simpl. change INODE_PER_BLOCK with 8.
  assert (0 ≤ ino / 8 < 26) by (split; [apply Z.div_pos; lia|apply Z.div_lt_upper_bound; lia]). rewrite u32_small by lia. lia.
Qed.
Lemma rinode_Ok m V U ino : rep m V U → 0 < ino < NINODES → rinode ino m = Ok (entry_at V ino) m.
Proof.
  intros HR Hi. destruct (valid_block ino Hi) as [E Hb]. unfold rinode. rewrite E.
  by erewrite bind_Ok by (eapply rsect_Ok; [exact HR|change FSSIZE with 1000; lia]).
Qed.
Definition with_entry (V : Z → list Z) (ino : Z) (e : InodeEntry) : Z → list Z := upd_fn V (block_of_ino ino) (set_entry (V (block_of_ino ino)) ino e).
Lemma winode_Ok m V U ino e : rep m V U → 0 < ino < NINODES → entry_ok e →
  ∃ m', winode ino e m = Ok () m' ∧ rep m' (with_entry V ino e) U ∧ mk_freeblock m' = mk_freeblock m ∧ mk_freeinode m' = mk_freeinode m.
Proof.
  intros HR Hi He. destruct (valid_block ino Hi) as [E Hb]. unfold winode. rewrite E. pose proof (rp_free _ _ _ HR) as Hf. change nmeta with 92 in Hf.
  erewrite bind_Ok by (eapply rsect_Ok; [exact HR|change FSSIZE with 1000; lia]). apply wsect_Ok; [done|lia|].
  apply set_entry_bytes; [|done]. apply (rp_bytes _ _ _ HR). change FSSIZE with 1000. lia.
Qed.
Lemma with_entry_data V ino e n : 0 < ino < NINODES → data_block sb n ∨ n = 1 → with_entry V ino e n = V n.
Proof.
  intros Hi Hn. destruct (valid_block ino Hi) as [_ Hb]. apply upd_fn_ne. intros ->. destruct Hn as [Hn|Hn]; [|lia].
  pose proof (proj1 (sb_data _) Hn) as Hr. change nmeta with 92 in Hr. lia.
Qed.
Lemma with_entry_at V ino e ino' : bytes512 (V (block_of_ino ino)) → entry_ok e → 0 < ino < NINODES → 0 < ino' < NINODES →
  entry_at (with_entry V ino e) ino' = if decide (ino' = ino) then e else entry_at V ino'.
Proof. intros Hb He Hi Hi'. apply ino_entry_other; [done|done|lia|lia]. Qed.
Lemma data_entry_at V V' ino : 0 < ino < NINODES → (∀ n, ¬ data_block sb n → V' n = V n) → entry_at V' ino = entry_at V ino.
Proof.
  intros Hi HV. destruct (valid_block ino Hi) as [_ Hb]. unfold entry_at. rewrite HV; [done|]. intros Hd.
  pose proof (proj1 (sb_data _) Hd) as Hr. change nmeta with 92 in Hr. lia.
Qed.

(** A file whose entry and blocks did not change. *)
Lemma file_at_same V U V' U' ino type data : file_at V U ino type data → entry_at V' ino = entry_at V ino →
  fs_inv V' U' (entry_at V ino) → (∀ k, addr_of V' (entry_at V ino) k = addr_of V (entry_at V ino) k) →
  (∀ o, 0 ≤ o < INODE_MAX_BYTES → byte_at V' (entry_at V ino) o = byte_at V (entry_at V ino) o) → file_at V' U' ino type data.
Proof.
  intros [H1 H2 H3 H4 H5 [F1 F2] H7] E HI Ha Hb. split; rewrite ?E; try done.
  - rewrite <- H5. unfold content. apply list_fmap_ext. intros j o [-> Hj]%lookup_seqZ. apply Hb. pose proof (fi_size _ _ _ H4). lia.
  - split; [|done]. intros k Hk. rewrite Ha. by apply F1.
  - intros o Ho. rewrite Hb by lia. by apply H7.
Qed.
Lemma file_at_view V U V' ino type data : file_at V U ino type data → entry_at V' ino = entry_at V ino →
  (∀ n, data_block sb n → V' n = V n) → file_at V' U ino type data.
Proof.
  intros HF E HV. pose proof (fa_inv _ _ _ _ _ HF) as HI. eapply file_at_same; [done|done|by eapply file_inv_ext|by eapply addr_of_ext|by eapply byte_at_ext].
Qed.
(** A write to one file and the others. *)
Lemma writes_addr V U e V' U' e' ef : fs_writes V U e V' U' e' → fs_inv V U ef → separate V e ef → ∀ k, addr_of V' ef k = addr_of V ef k.
Proof.
  intros HW HI HS k. unfold addr_of. destruct (_ <? _); [done|]. destruct (Z.eqb_spec (e_indirect ef) 0) as [|Hn]; [done|].
  rewrite (wr_view _ _ _ _ _ _ HW); [done|by apply (fi_ind _ _ _ HI)|]. apply HS. split; [done|by left].
Qed.
Lemma writes_byte V U e V' U' e' ef : fs_writes V U e V' U' e' → fs_inv V U ef → separate V e ef →
  ∀ o, 0 ≤ o < INODE_MAX_BYTES → byte_at V' ef o = byte_at V ef o.
Proof.
  intros HW HI HS o Ho. unfold byte_at. rewrite (writes_addr V U e V' U' e') by done. destruct (Z.eqb_spec (addr_of V ef (o / BLOCK_SIZE)) 0) as [|Hn]; [done|].
  pose proof (offset_block o Ho) as Hk. rewrite (wr_view _ _ _ _ _ _ HW); [done|by apply (fi_addr _ _ _ HI)|]. apply HS. split; [done|right; eauto].
Qed.
Lemma writes_inv V U e V' U' e' ef : fs_writes V U e V' U' e' → fs_inv V U ef → separate V e ef → fs_inv V' U' ef.
Proof.
  intros HW HI HS. pose proof (writes_addr _ _ _ _ _ _ ef HW HI HS) as Ha. pose proof (wr_used _ _ _ _ _ _ HW) as Hu. destruct HI as [I1 I2 I3 I4 I5 I6].
  split; [done| | | | |done].
  - intros Hn. destruct (I2 Hn). auto.
  - intros k Hk. rewrite Ha. intros Hn. destruct (I3 k Hk Hn) as (? & ? & ?). auto.
  - intros k j Hk Hj. rewrite !Ha. auto.
  - intros k Hk. rewrite Ha. auto.
Qed.
Lemma owned_same V V' e e' : e_indirect e' = e_indirect e → (∀ k, addr_of V' e' k = addr_of V e k) → ∀ n, owned V' e' n ↔ owned V e n.
Proof. intros Ei Ha n. unfold owned. rewrite Ei. setoid_rewrite Ha. done. Qed.
Lemma owned_used V U e n : fs_inv V U e → owned V e n → U n = true.
Proof.
  intros HI [Hn [->|(k & Hk & <-)]]; [by apply (fi_ind _ _ _ HI)|by apply (fi_addr _ _ _ HI)].
Qed.
Lemma separate_sym V e ef : separate V e ef → separate V ef e.
Proof. intros HS n H1 H2. by apply (HS n). Qed.

Lemma total_insert fs i f f' : fs !! i = Some f →
  total (<[i := f']> fs) = total fs - file_blocks (Z.of_nat (length f.2)) + file_blocks (Z.of_nat (length f'.2)).
Proof.
  revert i. induction fs as [|g fs IH]; intros i Hi; [done|]. destruct i as [|i]; simpl in *; [injection Hi as ->; lia|]. rewrite IH by done. lia.
Qed.
Lemma total_app fs fs' : total (fs ++ fs') = total fs + total fs'.
Proof. induction fs as [|f fs IH]; simpl; lia. Qed.

(** The new entry of a file that was appended to. *)
Lemma appended_file m V U ino type data p m' V' U' e' : file_at V U ino type data → 0 < ino < NINODES →
  Z.of_nat (length data + length p) ≤ INODE_MAX_BYTES → appended m V U (entry_at V ino) (Z.of_nat (length data)) p m' V' U' e' →
  let e2 := with_e_num_bytes (Z.of_nat (length data + length p)) e' in
  entry_ok e2 ∧ file_at (with_entry V' ino e2) U' ino type (data ++ p) ∧ ∀ n, owned (with_entry V' ino e2) e2 n ↔ owned V' e' n.
Proof.
  intros [G1 G2 G3 G4 G5 G6 G7] Hino Hmax [A1 A2 A3 A4 A5 A6] e2. set (e := entry_at V ino) in *. pose proof (wr_inv _ _ _ _ _ _ A2) as HI'.
  destruct (wr_meta _ _ _ _ _ _ A2) as (al & ind & Emeta). replace (Z.of_nat (length data) + Z.of_nat (length p)) with (Z.of_nat (length data + length p)) in * by lia.
  assert (Hsz : e_num_bytes e' = Z.of_nat (length data)) by (rewrite Emeta; apply G3).
  assert (HI2 : fs_inv V' U' e2).
  { apply file_inv_size; [done|lia|]. intros o Ho. apply (fu_addr _ _ _ A3); [apply offset_block; lia|]. pose proof (Z.mul_div_le o BLOCK_SIZE ltac:(done)). lia. }
  assert (HV : ∀ n, data_block sb n → with_entry V' ino e2 n = V' n) by (intros n Hn; apply with_entry_data; auto).
  assert (Ha : ∀ k, addr_of (with_entry V' ino e2) e2 k = addr_of V' e' k) by (intros k; by rewrite (addr_of_ext V' _ U' e2 HI2 HV)).
  assert (Hb : ∀ o, 0 ≤ o < INODE_MAX_BYTES → byte_at (with_entry V' ino e2) e2 o = byte_at V' e' o) by (intros o Ho; by rewrite (byte_at_ext V' _ U' e2 HI2 HV)).
  pose proof (fi_ok _ _ _ HI2) as Hok. split; [done|]. split; [|by apply owned_same].
  assert (Ee : entry_at (with_entry V' ino e2) ino = e2).
  { rewrite with_entry_at, decide_True; [done|done| |done|done|done]. apply (rp_bytes _ _ _ A1). destruct (valid_block ino Hino). change FSSIZE with 1000. lia. }
  assert (HB : ∀ o, 0 ≤ o < INODE_MAX_BYTES → byte_at (with_entry V' ino e2) e2 o =
    if decide (Z.of_nat (length data) ≤ o < Z.of_nat (length data + length p)) then p !!! Z.to_nat (o - Z.of_nat (length data)) else byte_at V e o).
  { intros o Ho. by rewrite Hb, A4. }
  split; rewrite ?Ee, ?length_app; [rewrite <- G1; subst e2; by rewrite Emeta|rewrite <- G2; subst e2; by rewrite Emeta|done| | | |].
  - by eapply file_inv_ext.
  - rewrite (content_splice V e _ _ (Z.of_nat (length data)) p).
    + rewrite G5, Nat2Z.id. unfold splice. rewrite take_ge by lia. by rewrite drop_ge, app_nil_r by lia.
    + lia.
    + rewrite G3. lia.
    + lia.
    + rewrite G3. simpl. lia.
    + intros o Ho. rewrite HB by done. repeat case_decide; try done; lia.
  - destruct A3 as [F1 F2]. split; [|done]. intros k Hk. rewrite Ha. by apply F1.
  - intros o Ho. rewrite HB, decide_False by lia. apply G7. lia.
Qed.

(** The other files, after a file was written and its entry. *)
Lemma other_file V U e V1 U1 e1 ino e2 ino' type data : fs_writes V U e V1 U1 e1 → file_at V U ino' type data → separate V e (entry_at V ino') →
  bytes512 (V1 (block_of_ino ino)) → entry_ok e2 → 0 < ino < NINODES → 0 < ino' < NINODES → ino' ≠ ino → let V2 := with_entry V1 ino e2 in
  entry_at V2 ino' = entry_at V ino' ∧ file_at V2 U1 ino' type data ∧ ∀ n, owned V2 (entry_at V ino') n ↔ owned V (entry_at V ino') n.
Proof.
  intros HW HF HS Hb Hok Hi Hi' Hne V2. pose proof (fa_inv _ _ _ _ _ HF) as HI. pose proof (writes_inv _ _ _ _ _ _ _ HW HI HS) as HI1.
  assert (HV : ∀ n, data_block sb n → V2 n = V1 n) by (intros n Hn; apply with_entry_data; auto).
  assert (Ha : ∀ k, addr_of V2 (entry_at V ino') k = addr_of V (entry_at V ino') k).
  { intros k. rewrite (addr_of_ext V1 V2 U1 _ HI1 HV). by eapply writes_addr. }
  assert (Ee : entry_at V2 ino' = entry_at V ino').
  { unfold V2. rewrite with_entry_at, decide_False by done. apply data_entry_at; [done|]. apply (wr_other _ _ _ _ _ _ HW). }
  split; [done|]. split; [|by apply owned_same]. apply (file_at_same V U); [done|done|by eapply file_inv_ext|done|].
  intros o Ho. rewrite (byte_at_ext V1 V2 U1 _ HI1 HV) by done. by eapply writes_byte.
Qed.

Lemma iappend_Ok m V U fs i type data p : holds m V U fs → fs !! i = Some (type, data) → Z.of_nat (length data + length p) ≤ INODE_MAX_BYTES →
  Forall (λ b, 0 ≤ b < 256) p → nmeta + total (<[i := (type, data ++ p)]> fs) ≤ FSSIZE →
  ∃ m' V' U', iappend (Z.of_nat i + 1) p m = Ok () m' ∧ holds m' V' U' (<[i := (type, data ++ p)]> fs).
Proof.
  intros [HR Hn Hmx HF HS Hfr Hsup Hun] Hi Hmax Hb Hroom. set (ino := Z.of_nat i + 1). pose proof (lookup_lt_Some _ _ _ Hi) as Hlt.
  assert (Hino : 0 < ino < NINODES) by (unfold ino; lia). pose proof (HF i _ Hi) as Hfi. fold ino in Hfi. simpl in Hfi.
  pose proof (total_insert fs i _ (type, data ++ p) Hi) as Et. simpl in Et. rewrite length_app in Et.
  unfold iappend. erewrite bind_Ok by (by eapply rinode_Ok). rewrite xint_id by apply (eo_bytes _ (fi_ok _ _ _ (fa_inv _ _ _ _ _ Hfi))).
  rewrite (fa_size _ _ _ _ _ Hfi). set (e := entry_at V ino) in *.
  destruct (loop_Ok (length p) p (Z.of_nat (length data)) e m V U HR (fa_inv _ _ _ _ _ Hfi) (fa_full _ _ _ _ _ Hfi)) as (m1 & V1 & U1 & e1 & E1 & HA);
    [lia|done|lia|done|rewrite <- Nat2Z.inj_add; lia|].
  erewrite bind_Ok by exact E1. simpl fst. simpl snd. destruct (appended_file _ _ _ _ _ _ _ _ _ _ _ Hfi Hino Hmax HA) as (Hok & Hf2 & Hown). set (e2 := with_e_num_bytes _ e1) in *.
  pose proof HA as [A1 A2 _ _ A5 A6]. rewrite <- Nat2Z.inj_add in *. rewrite xint_id by (unfold word32; change INODE_MAX_BYTES with 71680 in Hmax; lia). fold e2.
  destruct (winode_Ok m1 V1 U1 ino e2 A1 Hino Hok) as (m2 & E2 & HR2 & Hf & Hfi2). exists m2, (with_entry V1 ino e2), U1. split; [done|].
  assert (Hby : bytes512 (V1 (block_of_ino ino))) by (apply (rp_bytes _ _ _ A1); destruct (valid_block ino Hino); change FSSIZE with 1000; lia).
  assert (Ee : entry_at (with_entry V1 ino e2) ino = e2) by (by rewrite with_entry_at, decide_True).
  assert (Hoth : ∀ j f, fs !! j = Some f → j ≠ i → let V2 := with_entry V1 ino e2 in let ef := entry_at V (Z.of_nat j + 1) in
    entry_at V2 (Z.of_nat j + 1) = ef ∧ file_at V2 U1 (Z.of_nat j + 1) f.1 f.2 ∧ (∀ n, owned V2 ef n ↔ owned V ef n) ∧ separate V2 e2 ef).
  { intros j f Hj Hne V2 ef. pose proof (lookup_lt_Some _ _ _ Hj) as Hjl. pose proof (HS i j Hlt Hjl ltac:(done)) as Hsep. fold ino e in Hsep.
    destruct (other_file V U e V1 U1 e1 ino e2 (Z.of_nat j + 1) f.1 f.2 A2 (HF j f Hj) Hsep Hby Hok Hino) as (H1 & H2 & H3); [lia|unfold ino; lia|].
    split_and!; [done|done|done|]. intros n Ho1 Ho2. apply H3 in Ho1. apply Hown in Ho2. destruct (wr_own _ _ _ _ _ _ A2 n Ho2) as [Ho|Hu]; [by apply (Hsep n)|].
    pose proof (owned_used _ _ _ _ (fa_inv _ _ _ _ _ (HF j f Hj)) Ho1). congruence. }
  split; [done|rewrite length_insert; lia|by rewrite length_insert| | |lia| |].
  - intros j f Hj. destruct (decide (j = i)) as [->|Hne]; [rewrite list_lookup_insert_eq in Hj by done; by injection Hj as <-|].
    rewrite list_lookup_insert_ne in Hj by done. by apply (Hoth j f).
  - rewrite length_insert. intros j k Hj Hk Hne. destruct (lookup_lt_is_Some_2 fs j Hj) as [fj Hfj], (lookup_lt_is_Some_2 fs k Hk) as [fk Hfk].
    destruct (decide (j = i)) as [->|Hji]; [destruct (Hoth k fk Hfk ltac:(auto)) as (-> & _ & _ & Hsep); fold ino; by rewrite Ee|].
    destruct (Hoth j fj Hfj Hji) as (-> & _ & Ho1 & Hs1). destruct (decide (k = i)) as [->|Hki]; [fold ino; rewrite Ee; by apply separate_sym|].
    destruct (Hoth k fk Hfk Hki) as (-> & _ & Ho2 & _). intros n Hn1 Hn2. apply Ho2 in Hn1. apply Ho1 in Hn2. by apply (HS j k Hj Hk Hne n).
  - rewrite with_entry_data by auto. rewrite <- Hsup. apply (wr_other _ _ _ _ _ _ A2). intros Hd. pose proof (proj1 (sb_data _) Hd) as Hr. change nmeta with 92 in Hr. lia.
  - intros ino' Hino'. rewrite with_entry_at, decide_False by (done || lia). rewrite (data_entry_at V V1); [apply Hun; lia|lia|apply (wr_other _ _ _ _ _ _ A2)].
Qed.

(** ** A new inode *)

Definition new_entry (type : Z) : InodeEntry := mkInodeEntry type 0 0 1 0 (replicate 12 0) 0.
Lemma new_addr V type k : 0 ≤ k → addr_of V (new_entry type) k = 0.
Proof.
  intros Hk. unfold addr_of, new_entry. cbn [e_addrs e_indirect Z.eqb]. destruct (Z.ltb_spec k INODE_NUM_DIRECT); [|done]. apply list_lookup_total_correct, lookup_replicate.
  change INODE_NUM_DIRECT with 12 in *. split; [done|lia].
Qed.
Lemma new_inv V U type : word16 type → fs_inv V U (new_entry type).
Proof.
  intros Ht. split; try done; [split; try done; by apply Forall_replicate|intros k Hk; by rewrite new_addr by lia|intros k j Hk Hj; by rewrite !new_addr by lia|intros k Hk Hs; simpl in Hs; unfold BLOCK_SIZE in Hs; lia].
Qed.
Lemma new_owned V type n : ¬ owned V (new_entry type) n.
Proof. intros [Hn [->|(k & Hk & E)]]; [done|]. rewrite new_addr in E by lia. lia. Qed.
Lemma new_full V type : full V (new_entry type) 0.
Proof. split; [|done]. intros k Hk. rewrite new_addr by lia. unfold BLOCK_SIZE. lia. Qed.

Lemma ialloc_Ok m V U fs type : holds m V U fs → Z.of_nat (length fs) + 1 < NINODES → word16 type →
  ∃ m' V', ialloc type m = Ok (Z.of_nat (length fs) + 1) m' ∧ holds m' V' U (fs ++ [(type, [])]).
Proof.
  intros [HR Hn Hmx HF HS Hfr Hsup Hun] Hlt Ht. set (ino := Z.of_nat (length fs) + 1) in *. assert (Hino : 0 < ino < NINODES) by (unfold ino; lia).
  unfold ialloc. erewrite bind_Ok by done. erewrite bind_Ok by done. rewrite Hn. set (m1 := set_freeinode _ m).
  replace (mkInodeEntry (xshort type) 0 0 (xshort 1) (xint 0) (replicate 12 0) 0) with (new_entry type).
  2:{ unfold new_entry, xshort. f_equal. symmetry. apply le_val_bytes_small. unfold word16 in Ht. simpl. lia. }
  pose proof (new_inv V U type Ht) as HI. pose proof (fi_ok _ _ _ HI) as Hok.
  assert (HR1 : rep m1 V U) by (by destruct HR; split).
  destruct (winode_Ok m1 V U ino (new_entry type) HR1 Hino Hok) as (m2 & E2 & HR2 & Hf2 & Hi2). erewrite bind_Ok by exact E2.
  set (V2 := with_entry V ino (new_entry type)) in *. exists m2, V2. split; [done|].
  assert (Hby : bytes512 (V (block_of_ino ino))) by (apply (rp_bytes _ _ _ HR); destruct (valid_block ino Hino); change FSSIZE with 1000; lia).
  assert (Ee : entry_at V2 ino = new_entry type) by (unfold V2; by rewrite with_entry_at, decide_True).
  assert (Hoth : ∀ j f, fs !! j = Some f → let ef := entry_at V (Z.of_nat j + 1) in
    entry_at V2 (Z.of_nat j + 1) = ef ∧ file_at V2 U (Z.of_nat j + 1) f.1 f.2 ∧ ∀ n, owned V2 ef n ↔ owned V ef n).
  { intros j f Hj ef. pose proof (lookup_lt_Some _ _ _ Hj) as Hjl. apply (other_file V U (new_entry type) V U (new_entry type)); [by apply writes_refl|by apply HF| |done|done|done|unfold NINODES in *; lia|unfold ino; lia].
    intros n _. apply new_owned. }
  assert (Hnew : file_at V2 U ino type []).
  { split; rewrite ?Ee; simpl; try done; [by apply new_inv|apply new_full|]. intros o Ho. unfold byte_at. pose proof (offset_block o ltac:(lia)). by rewrite new_addr by lia. }
  assert (Ei : mk_freeinode m2 = ino + 1) by (rewrite Hi2; simpl; rewrite u32_small; [done|change NINODES with 200 in *; lia]).
  assert (Hun2 : ∀ ino', mk_freeinode m2 ≤ ino' < NINODES → e_type (entry_at V2 ino') = INODE_INVALID).
  { intros ino' Hino'. unfold V2. rewrite with_entry_at, decide_False by (done || lia). apply Hun. lia. }
  split; rewrite ?length_app; [done|simpl; lia|simpl; lia| | |rewrite Hf2, total_app; change (total [(type, [])]) with 0; simpl; lia| |exact Hun2].
  - intros j f [Hj|[Hj Ej]]%lookup_app_Some; [by apply (Hoth j f)|]. apply list_lookup_singleton_Some in Ej as [E <-]. replace j with (length fs) by lia. done.
  - simpl. intros j k Hj Hk Hne. destruct (decide (k = length fs)) as [->|Hk1].
    { fold ino. rewrite Ee. intros n Ho. by apply new_owned in Ho. }
    destruct (decide (j = length fs)) as [->|Hj1]; [fold ino; rewrite Ee; intros n _ Ho; by apply new_owned in Ho|].
    destruct (lookup_lt_is_Some_2 fs j ltac:(lia)) as [fj Hfj], (lookup_lt_is_Some_2 fs k ltac:(lia)) as [fk Hfk].
    destruct (Hoth j fj Hfj) as (-> & _ & Ho1), (Hoth k fk Hfk) as (-> & _ & Ho2). intros n Hn1 Hn2. apply Ho2 in Hn1. apply Ho1 in Hn2. by apply (HS j k ltac:(lia) ltac:(lia) Hne n).
  - rewrite <- Hsup. apply with_entry_data; auto.
Qed.

(** ** The input files *)

Definition byte (b : Z) : Prop := 0 ≤ b < 256.
Definition data_of (i : input) : list Z := concat (default [] (in_data i)).
Record input_ok (i : input) : Prop := {
  io_open : is_Some (in_data i);
  io_path : Forall byte (in_path i);
  io_string : 0 ∉ in_path i;
  io_data : Forall byte (data_of i);
  io_size : Z.of_nat (length (data_of i)) ≤ INODE_MAX_BYTES
}.

(** The name of a file has no slash. *)
Lemma name_length_snoc l c : name_length (l ++ [c]) = if c =? SLASH then O else S (name_length l).
Proof. unfold name_length. by rewrite foldl_snoc. Qed.
Lemma name_length_le l : (name_length l ≤ length l)%nat.
Proof. induction l as [|c l IH] using rev_ind; [done|]. rewrite name_length_snoc, length_app. simpl. destruct (c =? SLASH); lia. Qed.
Lemma base_name_snoc l c : base_name (l ++ [c]) = if c =? SLASH then [] else base_name l ++ [c].
Proof.
  unfold base_name. rewrite name_length_snoc, length_app. simpl. pose proof (name_length_le l). destruct (c =? SLASH).
  - apply drop_ge. rewrite length_app. simpl. lia.
  - replace (length l + 1 - S (name_length l))%nat with (length l - name_length l)%nat by lia. apply drop_app_le. lia.
Qed.
Lemma base_name_spec path : SLASH ∉ base_name path ∧ ∃ dir, path = dir ++ base_name path ∧ (dir = [] ∨ last dir = Some SLASH).
Proof.
  induction path as [|c l IH] using rev_ind; [split; [by apply not_elem_of_nil|exists []; auto]|].
  rewrite base_name_snoc. destruct (Z.eqb_spec c SLASH) as [->|Hc].
  - split; [by apply not_elem_of_nil|]. exists (l ++ [SLASH]). rewrite app_nil_r. split; [done|right; by rewrite last_snoc].
  - destruct IH as [IH (dir & E & Hd)]. split; [rewrite elem_of_app, list_elem_of_singleton; by intros [?|?]|]. exists dir. rewrite E at 1. by rewrite app_assoc.
Qed.
Lemma dir_name_Ok name : Forall byte name → length (dir_name name) = 14%nat ∧ Forall byte (dir_name name).
Proof.
  intros Hb. unfold dir_name. destruct (strncpy_bytes_spec 14 (name ++ [0])) as (nm & E & Hl & Hr & _).
  - right. apply elem_of_app. right. by apply list_elem_of_singleton.
  - apply Forall_app. split; [done|by apply Forall_singleton].
  - change (Z.to_nat FILE_NAME_MAX_LENGTH) with 14%nat. by rewrite E.
Qed.
Lemma file_name_bytes path : Forall byte path → Forall byte (file_name path).
Proof.
  intros Hb. assert (Hbase : Forall byte (base_name path)) by (by apply Forall_drop). unfold file_name.
  destruct (hd 0 (base_name path) =? UNDERSCORE); [|done]. destruct Hbase; [constructor|done].
Qed.

(** *** The names of the inputs, independently of how the tool finds them

    The name under which a path appears: what follows the last slash, without a leading
    underscore, cut or padded with zeros to 14 bytes. *)
Fixpoint after_slash (path : list Z) : list Z :=
  match path with
  | [] => []
  | c :: path' => if decide (SLASH ∈ path') then after_slash path' else if decide (c = SLASH) then path' else path
  end.
Definition entry_name (path : list Z) : list Z :=
  take 14 ((match after_slash path with 95 :: name => name | name => name end) ++ replicate 14 0).

Lemma after_slash_app dir base : SLASH ∉ base → (dir = [] ∨ last dir = Some SLASH) → after_slash (dir ++ base) = base.
Proof.
  intros Hb. assert (after_slash base = base) as E0.
  { destruct base as [|c base]; [done|]. cbn [after_slash]. apply not_elem_of_cons in Hb as [Hc Hb]. by rewrite !decide_False by congruence. }
  induction dir as [|c dir IH]; [done|]. intros [|Hl]; [done|]. cbn [app after_slash]. destruct dir as [|d dir].
  - injection Hl as ->. cbn [app]. rewrite decide_False by done. by rewrite decide_True.
  - rewrite decide_True; [apply IH; by right|]. apply elem_of_app. left. by eapply last_Some_elem_of.
Qed.
Lemma strncpy_take n : ∀ name, 0 ∉ name → strncpy_bytes (name ++ [0]) n = Some (take n (name ++ replicate n 0)).
Proof.
  induction n as [|n IH]; intros name Hn; [done|]. destruct name as [|c name]; cbn [app strncpy_bytes].
  - simpl. f_equal. f_equal. by rewrite take_ge by (rewrite length_replicate; lia).
  - apply not_elem_of_cons in Hn as [Hc Hn]. rewrite (proj2 (Z.eqb_neq _ _)) by done. rewrite IH by done. cbn [fmap option_fmap option_map take]. do 2 f_equal.
    rewrite !take_app, !take_replicate. do 2 f_equal; lia.
Qed.
Lemma dir_name_entry path : 0 ∉ path → dir_name (file_name path) = entry_name path.
Proof.
  intros H0. destruct (base_name_spec path) as [Hs (dir & E & Hd)]. assert (after_slash path = base_name path) as Ea by (rewrite E at 1; by apply after_slash_app).
  assert (0 ∉ base_name path) as Hb by (intros Hb; apply H0; rewrite E; apply elem_of_app; by right).
  assert (file_name path = match after_slash path with 95 :: name => name | name => name end ∧ 0 ∉ file_name path) as [Ef Hf].
  { rewrite Ea. unfold file_name, UNDERSCORE. destruct (base_name path) as [|c name]; [done|]. cbn [hd tl].
    apply not_elem_of_cons in Hb as [Hc Hb]. destruct (Z.eqb_spec c 95) as [->|Hne]; [done|]. split; [|by apply not_elem_of_cons].
    destruct c as [|q|q]; [done| |done]. do 7 (destruct q as [q|q|]; try done). }
  unfold dir_name, entry_name. change (Z.to_nat FILE_NAME_MAX_LENGTH) with 14%nat. rewrite strncpy_take by done. by rewrite <- Ef.
Qed.

(** The entries of the root directory for the inputs, whose inodes are from [n] on. *)
Fixpoint dir_entries (n : Z) (l : list input) : list DirEntry :=
  match l with [] => [] | i :: l' => mkDirEntry n (dir_name (file_name (in_path i))) :: dir_entries (n + 1) l' end.
Definition dir_data (ds : list DirEntry) : list Z := ds ≫= dirent_bytes.
Definition file_list (l : list input) : list (Z * list Z) := (λ i, (INODE_REGULAR, data_of i)) <$> l.
Record dirent_ok (d : DirEntry) : Prop := { do_ino : word16 (d_inode_no d); do_len : length (d_name d) = 14%nat; do_bytes : Forall byte (d_name d) }.

Lemma dirent_bytes_Ok d : dirent_ok d → length (dirent_bytes d) = 16%nat ∧ Forall byte (dirent_bytes d).
Proof.
  intros [H1 H2 H3]. unfold dirent_bytes. rewrite length_app, length_le_bytes, H2. split; [done|]. apply Forall_app. split; [apply le_bytes_range|done].
Qed.
Lemma dir_data_length ds : Forall dirent_ok ds → length (dir_data ds) = (16 * length ds)%nat.
Proof. induction 1 as [|d ds Hd _ IH]; [done|]. unfold dir_data in *. rewrite bind_cons, length_app, IH. destruct (dirent_bytes_Ok d Hd) as [-> _]. simpl. lia. Qed.
Lemma dirents_cons (x l : list Z) : length x = 16%nat → dirents (x ++ l) = dirent_of_bytes x :: dirents l.
Proof.
  intros Hx. unfold dirents. rewrite length_app, Hx. replace (16 + length l)%nat with (length l + 1 * 16)%nat by lia. rewrite Nat.div_add by lia.
  rewrite Nat.add_1_r, <- cons_seq, <- fmap_S_seq, fmap_cons, <- list_fmap_compose. f_equal.
  - unfold slice. rewrite drop_0, take_app_length' by done. done.
  - apply list_fmap_ext. intros j k _. unfold compose, slice. f_equal. f_equal. replace (16 * S k)%nat with (length x + 16 * k)%nat by lia. by rewrite <- drop_drop, drop_app_length.
Qed.
Lemma dirents_dir_data ds : Forall dirent_ok ds → dirents (dir_data ds) = ds.
Proof.
  induction 1 as [|d ds Hd _ IH]; [done|]. unfold dir_data in *. rewrite bind_cons, dirents_cons by apply (dirent_bytes_Ok d Hd).
  by rewrite IH, dirent_round_trip by apply Hd.
Qed.

Lemma file_blocks_nonneg n : 0 ≤ n → 0 ≤ file_blocks n.
Proof. intros Hn. apply (file_blocks_mono 0 n) in Hn. change (file_blocks 0) with 0 in Hn. done. Qed.
(** Files that only grow need more blocks. *)
Lemma total_mono fs fs' : Forall2 (λ f g, (length f.2 ≤ length g.2)%nat) fs fs' → total fs ≤ total fs'.
Proof.
  induction 1 as [|f g fs fs' Hl _ IH]; simpl; [lia|]. pose proof (file_blocks_mono (Z.of_nat (length f.2)) (Z.of_nat (length g.2)) ltac:(lia)). lia.
Qed.
Lemma total_grow fs fs' l : Forall2 (λ f g, (length f.2 ≤ length g.2)%nat) fs fs' → total fs ≤ total (fs' ++ l).
Proof.
  intros H. rewrite total_app. apply total_mono in H. assert (0 ≤ total l); [|lia].
  induction l as [|f l IH]; simpl; [lia|]. pose proof (file_blocks_nonneg (Z.of_nat (length f.2))). lia.
Qed.

Lemma append_all_Ok chunks : ∀ m V U fs i type data, holds m V U fs → fs !! i = Some (type, data) →
  Z.of_nat (length data + length (concat chunks)) ≤ INODE_MAX_BYTES → Forall byte (concat chunks) →
  nmeta + total (<[i := (type, data ++ concat chunks)]> fs) ≤ FSSIZE →
  ∃ m' V' U', append_all (Z.of_nat i + 1) chunks m = Ok () m' ∧ holds m' V' U' (<[i := (type, data ++ concat chunks)]> fs).
Proof.
  induction chunks as [|c chunks IH]; intros m V U fs i type data HH Hi Hmax Hb Hroom; simpl in *.
  { exists m, V, U. rewrite app_nil_r, list_insert_id by done. done. }
  apply Forall_app in Hb as [Hb1 Hb2]. rewrite length_app in Hmax. pose proof (lookup_lt_Some _ _ _ Hi) as Hlt.
  destruct (iappend_Ok m V U fs i type data c HH Hi) as (m1 & V1 & U1 & E1 & HH1); [lia|done| |].
  { pose proof (total_insert fs i _ (type, data ++ c) Hi) as E1. pose proof (total_insert fs i _ (type, data ++ c ++ concat chunks) Hi) as E2. simpl in E1, E2.
    rewrite !length_app in *. pose proof (file_blocks_mono (Z.of_nat (length data + length c)) (Z.of_nat (length data + (length c + length (concat chunks)))) ltac:(lia)). lia. }
  destruct (IH m1 V1 U1 _ i type (data ++ c) HH1) as (m2 & V2 & U2 & E2 & HH2);
    [by apply list_lookup_insert_eq|rewrite length_app; lia|done|by rewrite list_insert_insert_eq, <- app_assoc|].
  rewrite list_insert_insert_eq, <- app_assoc in HH2. exists m2, V2, U2. split; [by erewrite bind_Ok by exact E1|done].
Qed.
Lemma append_dirent_Ok m V U r files inum name : holds m V U ((INODE_DIRECTORY, r) :: files) → 0 ≤ inum < NINODES → Forall byte name →
  Z.of_nat (length r) + 16 ≤ INODE_MAX_BYTES → let d := mkDirEntry inum (dir_name name) in nmeta + total ((INODE_DIRECTORY, r ++ dirent_bytes d) :: files) ≤ FSSIZE →
  ∃ m' V' U', append_dirent ROOT_INODE_NO inum name m = Ok () m' ∧ holds m' V' U' ((INODE_DIRECTORY, r ++ dirent_bytes d) :: files).
Proof.
  intros HH Hi Hb Hmax d Hroom. destruct (dir_name_Ok name Hb) as [Hnl Hnb]. assert (Hw : word16 inum) by (unfold word16; change NINODES with 200 in Hi; lia).
  destruct (dirent_bytes_Ok d) as [Hl Hd]; [by split|]. unfold append_dirent. replace (xshort inum) with inum by (symmetry; apply le_val_bytes_small; unfold word16 in Hw; simpl; lia).
  apply (iappend_Ok m V U ((INODE_DIRECTORY, r) :: files) 0 INODE_DIRECTORY r (dirent_bytes d) HH); [done|fold d in Hl; lia|done|done].
Qed.

Lemma add_file_Ok m V U r files i : holds m V U ((INODE_DIRECTORY, r) :: files) → input_ok i → Z.of_nat (length files) + 2 < NINODES →
  Z.of_nat (length r) + 16 ≤ INODE_MAX_BYTES → let d := mkDirEntry (Z.of_nat (length files) + 2) (dir_name (file_name (in_path i))) in
  let fs' := (INODE_DIRECTORY, r ++ dirent_bytes d) :: files ++ [(INODE_REGULAR, data_of i)] in nmeta + total fs' ≤ FSSIZE →
  ∃ m' V' U', add_file ROOT_INODE_NO i m = Ok () m' ∧ holds m' V' U' fs'.
Proof.
  intros HH [[chunks Hc] Hp Hd Hs] Hn Hmax d fs' Hroom. assert (Ed : data_of i = concat chunks) by (unfold data_of; by rewrite Hc). rewrite Ed in *.
  unfold add_file. erewrite bind_Ok by (unfold assertM; rewrite bool_decide_eq_true_2 by apply base_name_spec; done). rewrite Hc.
  destruct (ialloc_Ok m V U _ INODE_REGULAR HH) as (m1 & V1 & E1 & HH1); [simpl; lia|done|]. erewrite bind_Ok by exact E1.
  replace (Z.of_nat (length ((INODE_DIRECTORY, r) :: files)) + 1) with (Z.of_nat (length files) + 2) in * by (simpl; lia).
  assert (Ht : nmeta + total ((INODE_DIRECTORY, r ++ dirent_bytes d) :: files ++ [(INODE_REGULAR, [])]) ≤ FSSIZE).
  { etransitivity; [|exact Hroom]. apply Z.add_le_mono_l. unfold fs'. rewrite !app_comm_cons, !total_app. simpl total. rewrite !Z.add_0_r. change (file_blocks 0) with 0.
    pose proof (file_blocks_nonneg (Z.of_nat (length (data_of i))) ltac:(lia)). lia. }
  destruct (append_dirent_Ok m1 V1 U r (files ++ [(INODE_REGULAR, [])]) (Z.of_nat (length files) + 2) (file_name (in_path i)) HH1) as (m2 & V2 & U2 & E2 & HH2);
    [lia|by apply file_name_bytes|done|done|]. erewrite bind_Ok by exact E2. fold d in HH2.
  assert (El : ((INODE_DIRECTORY, r ++ dirent_bytes d) :: files ++ [(INODE_REGULAR, [])]) !! S (length files) = Some (INODE_REGULAR, [])) by (simpl; rewrite lookup_app_r, Nat.sub_diag by lia; done).
  assert (Ei : <[S (length files) := (INODE_REGULAR, [] ++ concat chunks)]> ((INODE_DIRECTORY, r ++ dirent_bytes d) :: files ++ [(INODE_REGULAR, [])]) = fs').
  { unfold fs'. rewrite Ed. simpl. f_equal. rewrite insert_app_r_alt, Nat.sub_diag by lia. done. }
  destruct (append_all_Ok chunks m2 V2 U2 _ (S (length files)) INODE_REGULAR [] HH2 El) as (m3 & V3 & U3 & E3 & HH3); [simpl; lia|done|by rewrite Ei|].
  rewrite Ei in HH3. exists m3, V3, U3. split; [|done]. by replace (Z.of_nat (length files) + 2) with (Z.of_nat (S (length files)) + 1) by lia.
Qed.

Lemma dir_entries_ok l : ∀ n, 0 ≤ n → n + Z.of_nat (length l) ≤ NINODES → Forall input_ok l → Forall dirent_ok (dir_entries n l).
Proof.
  induction l as [|i l IH]; intros n Hn Hm Hl; [constructor|]. apply Forall_cons in Hl as [Hi Hl]. simpl in *. constructor; [|apply IH; [lia|lia|done]].
  destruct (dir_name_Ok (file_name (in_path i)) (file_name_bytes _ (io_path _ Hi))) as [H1 H2].
  split; [unfold word16; simpl; change NINODES with 200 in Hm; lia|done|done].
Qed.
Lemma length_dir_entries l : ∀ n, length (dir_entries n l) = length l.
Proof. induction l as [|i l IH]; intros n; [done|]. simpl. by rewrite IH. Qed.

Lemma add_files_Ok l : ∀ m V U r files, holds m V U ((INODE_DIRECTORY, r) :: files) → Forall input_ok l →
  Z.of_nat (length files + length l) + 1 < NINODES → Z.of_nat (length r + 16 * length l) ≤ INODE_MAX_BYTES →
  let fs' := (INODE_DIRECTORY, r ++ dir_data (dir_entries (Z.of_nat (length files) + 2) l)) :: files ++ file_list l in nmeta + total fs' ≤ FSSIZE →
  ∃ m' V' U', add_files ROOT_INODE_NO l m = Ok () m' ∧ holds m' V' U' fs'.
Proof.
  induction l as [|i l IH]; intros m V U r files HH Hl Hn Hmax fs' Hroom.
  { exists m, V, U. split; [done|]. unfold fs'. simpl. by rewrite !app_nil_r. }
  apply Forall_cons in Hl as [Hi Hl]. simpl length in *. simpl add_files.
  pose proof (dir_entries_ok [i] (Z.of_nat (length files) + 2) ltac:(lia) ltac:(simpl; lia) (Forall_cons_2 _ _ _ Hi (Forall_nil_2 _))) as [Hd _]%Forall_cons.
  set (d := mkDirEntry (Z.of_nat (length files) + 2) (dir_name (file_name (in_path i)))) in *. destruct (dirent_bytes_Ok d Hd) as [Hdl _].
  assert (Edata : dir_data (dir_entries (Z.of_nat (length files) + 2) (i :: l)) = dirent_bytes d ++ dir_data (dir_entries (Z.of_nat (length files) + 2 + 1) l)) by done.
  set (fs1 := (INODE_DIRECTORY, r ++ dirent_bytes d) :: files ++ [(INODE_REGULAR, data_of i)]).
  assert (H1 : total fs1 ≤ total fs').
  { unfold fs'. rewrite Edata, app_assoc. change (file_list (i :: l)) with ([(INODE_REGULAR, data_of i)] ++ file_list l). rewrite (app_assoc files), app_comm_cons.
    apply total_grow. unfold fs1. constructor; [simpl; rewrite !length_app; lia|]. by apply Forall_Forall2_diag, Forall_forall. }
  destruct (add_file_Ok m V U r files i HH Hi) as (m1 & V1 & U1 & E1 & HH1); [lia|lia|fold d; fold fs1; lia|]. fold d fs1 in HH1.
  erewrite bind_Ok by exact E1.
  assert (Ef : fs' = (INODE_DIRECTORY, (r ++ dirent_bytes d) ++ dir_data (dir_entries (Z.of_nat (length (files ++ [(INODE_REGULAR, data_of i)])) + 2) l)) ::
    (files ++ [(INODE_REGULAR, data_of i)]) ++ file_list l).
  { unfold fs'. rewrite Edata, length_app, <- !app_assoc. replace (Z.of_nat (length files + length [(INODE_REGULAR, data_of i)]) + 2) with (Z.of_nat (length files) + 2 + 1) by (simpl; lia). done. }
  rewrite Ef in *. apply (IH m1 V1 U1); [done|done|rewrite length_app; simpl; lia|rewrite length_app; lia|done].
Qed.

(** ** Clearing the image, and the bitmap *)

Lemma clear_image_Ok n : ∀ i fi fb, (i + n ≤ Z.to_nat FSSIZE)%nat →
  clear_image (Z.of_nat i) n (mkMkfs (replicate i zero_data) fi fb) = Ok () (mkMkfs (replicate (i + n) zero_data) fi fb).
Proof.
  induction n as [|n IH]; intros i fi fb Hi; simpl; [by rewrite Nat.add_0_r|]. assert (Hs : sector (Z.of_nat i) = i) by (rewrite sector_id; [apply Nat2Z.id|lia]).
  erewrite bind_Ok; [|reflexivity]. cbv zeta. rewrite Hs. unfold set_img. simpl. rewrite length_replicate. replace (S i - i)%nat with 1%nat by lia.
  assert (E : replicate i zero_data ++ replicate 1 zero_data = replicate (i + 1) zero_data) by (by rewrite <- replicate_add).
  rewrite E. assert (Ei : <[i := zero_data]> (replicate (i + 1) zero_data) = replicate (i + 1) zero_data) by (apply list_insert_id, lookup_replicate; split; [done|lia]).
  rewrite Ei. replace (Z.of_nat i + 1) with (Z.of_nat (i + 1)) by lia. rewrite IH by lia. by replace (i + 1 + n)%nat with (i + S n)%nat by lia.
Qed.
Lemma set_bit_byte a k : 0 ≤ a < 256 → 0 ≤ k < 8 → 0 ≤ Z.lor a (Z.shiftl 1 k) < 256.
Proof.
  intros Ha Hk. rewrite Z.shiftl_1_l. assert (0 < 2 ^ k) by lia. assert (2 ^ k < 2 ^ 8) by (apply Z.pow_lt_mono_r; lia). split; [apply Z.lor_nonneg; lia|].
  destruct (decide (Z.lor a (2 ^ k) = 0)) as [->|Hn]; [done|]. change 256 with (2 ^ 8). assert (0 ≤ Z.lor a (2 ^ k)) by (apply Z.lor_nonneg; lia).
  apply Z.log2_lt_pow2; [lia|]. rewrite Z.log2_lor by lia. apply Z.max_lub_lt; [|apply Z.log2_lt_pow2; lia].
  destruct (decide (a = 0)) as [->|]; [done|]. apply Z.log2_lt_pow2; lia.
Qed.
Definition bit_at (buf : list Z) (n : Z) : bool := Z.testbit (buf !!! Z.to_nat (n / 8)) (n mod 8).
Lemma set_bit_Ok buf i : bytes512 buf → 0 ≤ i < 4096 → bytes512 (set_bit buf i) ∧
  ∀ n, 0 ≤ n < 4096 → bit_at (set_bit buf i) n = if decide (n = i) then true else bit_at buf n.
Proof.
  intros [Hl Hb] Hi. change (Z.to_nat BLOCK_SIZE) with 512%nat in Hl. assert (Hq : ∀ n, 0 ≤ n < 4096 → 0 ≤ n / 8 < 512) by (intros n Hn; split; [apply Z.div_pos; lia|apply Z.div_lt_upper_bound; lia]).
  pose proof (Hq i Hi) as Hqi. pose proof (Z.mod_pos_bound i 8 ltac:(lia)) as Hm. unfold set_bit. set (x := buf !!! _).
  assert (Hx : 0 ≤ x < 256) by (apply (Forall_lookup_1 _ _ (Z.to_nat (i / 8)) x Hb), list_lookup_lookup_total_lt; lia).
  split; [split; [by rewrite length_insert|apply Forall_insert; [done|by apply set_bit_byte]]|].
  intros n Hn. unfold bit_at. pose proof (Z.mod_pos_bound n 8 ltac:(lia)) as Hmn. pose proof (Z.div_mod n 8 ltac:(lia)) as Dn. pose proof (Z.div_mod i 8 ltac:(lia)) as Di.
  destruct (decide (n / 8 = i / 8)) as [E|E].
  - rewrite E, list_lookup_total_insert_eq by lia. rewrite Z.lor_spec, Z.shiftl_1_l. fold x. case_decide as En; [subst n; rewrite Z.pow2_bits_true by lia; apply orb_true_r|].
    rewrite Z.pow2_bits_false by lia. apply orb_false_r.
  - rewrite list_lookup_total_insert_ne by (pose proof (Hq n Hn); lia). by rewrite decide_False by (intros ->; done).
Qed.
Lemma bitmap_Ok l : ∀ buf, bytes512 buf → Forall (λ i, 0 ≤ i < 4096) l → bytes512 (foldl set_bit buf l) ∧
  ∀ n, 0 ≤ n < 4096 → bit_at (foldl set_bit buf l) n = bool_decide (n ∈ l) || bit_at buf n.
Proof.
  induction l as [|i l IH]; intros buf Hb Hl; [done|]. apply Forall_cons in Hl as [Hi Hl]. destruct (set_bit_Ok buf i Hb Hi) as [Hb' Hs]. destruct (IH _ Hb' Hl) as [H1 H2].
  simpl. split; [done|]. intros n Hn. rewrite H2, Hs by done. destruct (decide (n = i)) as [->|Hne].
  - rewrite orb_true_r. rewrite bool_decide_eq_true_2; [done|]. apply elem_of_cons. by left.
  - f_equal. apply bool_decide_ext. rewrite elem_of_cons. split; [by right|by intros [?|?]].
Qed.

(** ** The whole run *)

Lemma le_val_zeros n : le_val (replicate n 0) = 0.
Proof. induction n as [|n IH]; simpl; [done|]. by rewrite IH. Qed.
Lemma start_Ok : ∃ m V U, (modify (set_img []);; modify (set_freeblock nmeta);; clear_image 0 (Z.to_nat FSSIZE);; wsect 1 super_block) mk_start = Ok () m ∧ holds m V U [].
Proof.
  set (m0 := mkMkfs (replicate (Z.to_nat FSSIZE) zero_data) 1 nmeta). set (V0 := λ _ : Z, zero_data). set (U0 := λ n, n <? nmeta).
  assert (HR : rep m0 V0 U0).
  { split; [apply length_replicate|intros n Hn; apply lookup_replicate; split; [done|lia]|intros; apply zero_data_bytes|split; [done|done]| |done]. intros n. apply Z.ltb_lt. }
  destruct (wsect_Ok m0 V0 U0 1 super_block HR) as (m1 & E1 & HR1 & Hf1 & Hi1); [done| |].
  { split; [done|]. unfold super_block, sb_bytes. apply Forall_app. split; [apply Forall_bind_le_bytes|by apply Forall_replicate]. }
  exists m1. do 2 eexists. split; [|split; [exact HR1|by rewrite Hi1|done|by intros ? ?|simpl; lia|by rewrite Hf1|done|]].
  - erewrite bind_Ok by done. erewrite bind_Ok by done. erewrite bind_Ok; [exact E1|]. exact (clear_image_Ok (Z.to_nat FSSIZE) 0 1 nmeta ltac:(done)).
  - intros ino Hino. rewrite Hi1 in Hino. change NINODES with 200 in Hino. destruct (valid_block ino) as [_ Hb]; [change NINODES with 200; simpl in Hino; lia|].
    unfold entry_at. rewrite upd_fn_ne by lia. unfold V0, get_entry, entry_of_bytes, zero_data, slice. cbn [e_type].
    by rewrite !drop_replicate, !take_replicate, !drop_replicate, !take_replicate, le_val_zeros.
Qed.

Definition root_entries (l : list input) : list DirEntry :=
  mkDirEntry ROOT_INODE_NO (dir_name [46]) :: mkDirEntry ROOT_INODE_NO (dir_name [46; 46]) :: dir_entries 2 l.
Definition image_files (l : list input) : list (Z * list Z) := (INODE_DIRECTORY, dir_data (root_entries l)) :: file_list l.
(** What mkfs can put into an image. *)
Record fits (l : list input) : Prop := {
  ft_inputs : Forall input_ok l;
  ft_inodes : Z.of_nat (length l) + 1 < NINODES;
  ft_blocks : nmeta + total (image_files l) ≤ FSSIZE
}.
Lemma root_entries_ok l : fits l → Forall dirent_ok (root_entries l).
Proof.
  intros [H1 H2 _]. assert (Hdot : ∀ n, Forall byte n → dirent_ok (mkDirEntry ROOT_INODE_NO (dir_name n))) by (intros n Hn; destruct (dir_name_Ok n Hn); by split).
  constructor; [by apply Hdot, Forall_singleton|]. constructor; [by apply Hdot; repeat apply Forall_cons_2; [| |apply Forall_nil_2]|]. by apply dir_entries_ok; [|lia|].
Qed.
Lemma root_length l : fits l → length (dir_data (root_entries l)) = (16 * (length l + 2))%nat.
Proof. intros Hf. rewrite dir_data_length by (by apply root_entries_ok). simpl. rewrite length_dir_entries. lia. Qed.

(** Up to the directory that is complete but not yet rounded. *)
Lemma build_Ok l (k : Z → MK unit) : fits l → ∃ m V U, holds m V U (image_files l) ∧
  (modify (set_img []);; modify (set_freeblock nmeta);; clear_image 0 (Z.to_nat FSSIZE);; wsect 1 super_block;;
   rootino ← ialloc INODE_DIRECTORY; assertM (rootino =? ROOT_INODE_NO) "rootino == ROOT_INODE_NO";;
   append_dirent rootino rootino [46];; append_dirent rootino rootino [46; 46];; add_files rootino l;; k rootino) mk_start = k ROOT_INODE_NO m.
Proof.
  intros Hf. pose proof Hf as [Hin Hn Hroom]. pose proof (root_entries_ok l Hf) as Hok. pose proof (root_length l Hf) as Hrl.
  destruct start_Ok as (m0 & V0 & U0 & E0 & H0). apply bind_Ok_inv in E0 as ([] & ma & Ea & E0). apply bind_Ok_inv in E0 as ([] & mb & Eb & E0).
  apply bind_Ok_inv in E0 as ([] & mc & Ec & Ed).
  erewrite bind_Ok by exact Ea. erewrite bind_Ok by exact Eb. erewrite bind_Ok by exact Ec. erewrite bind_Ok by exact Ed. clear Ea Eb Ec Ed.
  destruct (ialloc_Ok m0 V0 U0 [] INODE_DIRECTORY H0) as (m1 & V1 & E1 & H1); [done|done|]. erewrite bind_Ok by exact E1. erewrite bind_Ok by done. simpl app in H1.
  set (d1 := mkDirEntry ROOT_INODE_NO (dir_name [46])). set (d2 := mkDirEntry ROOT_INODE_NO (dir_name [46; 46])).
  apply Forall_cons in Hok as [Hd1 Hok]. apply Forall_cons in Hok as [Hd2 Hok]. destruct (dirent_bytes_Ok _ Hd1) as [L1 _]. destruct (dirent_bytes_Ok _ Hd2) as [L2 _].
  assert (Hmono : ∀ r, (length r ≤ length (dir_data (root_entries l)))%nat → nmeta + total [(INODE_DIRECTORY, r)] ≤ FSSIZE).
  { intros r Hr. etransitivity; [|exact Hroom]. apply Z.add_le_mono_l. change (image_files l) with ([(INODE_DIRECTORY, dir_data (root_entries l))] ++ file_list l).
    apply total_grow. constructor; [exact Hr|constructor]. }
  destruct (append_dirent_Ok m1 V1 U0 [] [] ROOT_INODE_NO [46] H1) as (m2 & V2 & U2 & E2 & H2); [done|by apply Forall_singleton|done| |].
  { apply Hmono. simpl app. rewrite L1. lia. }
  erewrite bind_Ok by exact E2. fold d1 in H2. simpl app in H2.
  destruct (append_dirent_Ok m2 V2 U2 (dirent_bytes d1) [] ROOT_INODE_NO [46; 46] H2) as (m3 & V3 & U3 & E3 & H3); [done|by repeat apply Forall_cons_2; [| |apply Forall_nil_2]| | |].
  { fold d1 in L1. rewrite L1. done. }
  { apply Hmono. rewrite length_app. fold d1 d2 in L1, L2. fold d2. rewrite L1, L2. lia. }
  erewrite bind_Ok by exact E3. fold d2 in H3.
  assert (Ei : image_files l = (INODE_DIRECTORY, (dirent_bytes d1 ++ dirent_bytes d2) ++ dir_data (dir_entries (Z.of_nat (length ([] : list (Z * list Z))) + 2) l)) :: [] ++ file_list l).
  { rewrite <- app_assoc. done. }
  destruct (add_files_Ok l m3 V3 U3 (dirent_bytes d1 ++ dirent_bytes d2) [] H3) as (m4 & V4 & U4 & E4 & H4); [done|simpl; lia| |by rewrite <- Ei|].
  { rewrite length_app. fold d1 d2 in L1, L2. rewrite L1, L2. change INODE_MAX_BYTES with 71680. change NINODES with 200 in Hn. lia. }
  rewrite <- Ei in H4. exists m4, V4, U4. split; [done|]. by erewrite bind_Ok by exact E4.
Qed.

Definition used_blocks (l : list input) : Z := nmeta + total (image_files l).
Definition allocated (l : list input) (n : Z) : bool := n <? used_blocks l.
Definition no_entry : DirEntry := mkDirEntry 0 (replicate 14 0).
Definition root_blocks (l : list input) : Z := Z.of_nat (length l + 2) / 32 + 1.
(** The root directory: its size is rounded up to the next multiple of a block. If the
    entries fill their last block exactly, the size covers a block that is not there. *)
Definition root_ok (V : Z → list Z) (l : list input) : Prop :=
  let e := entry_at V ROOT_INODE_NO in
  e_type e = INODE_DIRECTORY ∧ e_num_links e = 1 ∧ e_num_bytes e = root_blocks l * BLOCK_SIZE ∧
  if decide (Z.of_nat (length l + 2) mod 32 = 0) then addr_of V e (root_blocks l - 1) = 0
  else fs_inv V (allocated l) e ∧ dirents (content V e) = root_entries l ++ replicate (Z.to_nat (32 * root_blocks l) - (length l + 2)) no_entry.
Record image (V : Z → list Z) (l : list input) : Prop := {
  im_super : words32 7 (V 1) = [FSSIZE; num_data_blocks; NINODES; num_log_blocks; 2; 2 + num_log_blocks; 2 + num_log_blocks + ninodeblocks];
  im_bitmap : ∀ n, 0 ≤ n < BLOCK_SIZE * 8 → bit_at (V (sb_bitmap_start sb)) n = allocated l n;
  im_files : ∀ i f, l !! i = Some f → let e := entry_at V (Z.of_nat i + 2) in
    e_type e = INODE_REGULAR ∧ e_num_links e = 1 ∧ fs_inv V (allocated l) e ∧ content V e = data_of f;
  im_separate : ∀ i j, (i ≤ length l)%nat → (j ≤ length l)%nat → i ≠ j → separate V (entry_at V (Z.of_nat i + 1)) (entry_at V (Z.of_nat j + 1));
  im_unused : ∀ ino, Z.of_nat (length l) + 2 ≤ ino < NINODES → e_type (entry_at V ino) = INODE_INVALID
}.

Lemma file_inv_used V U U' e : (∀ n, U n = true → U' n = true) → fs_inv V U e → fs_inv V U' e.
Proof.
  intros HU [I1 I2 I3 I4 I5 I6]. split; try done; [intros Hn; destruct (I2 Hn); auto|intros k Hk Hn; destruct (I3 k Hk Hn) as (? & ? & ?); auto].
Qed.
Lemma le_val_zeros_dirent : dirent_bytes no_entry = replicate 16 0.
Proof. reflexivity. Qed.
Lemma dir_data_app ds ds' : dir_data (ds ++ ds') = dir_data ds ++ dir_data ds'.
Proof. apply bind_app. Qed.
Lemma dir_data_zeros k : dir_data (replicate k no_entry) = replicate (16 * k) 0.
Proof.
  induction k as [|k IH]; [done|]. rewrite replicate_S. unfold dir_data in *. rewrite bind_cons, IH, le_val_zeros_dirent, <- replicate_add. f_equal. lia.
Qed.
(** The content of the root directory after the rounding. *)
Lemma rounded_content V U ino type data n : file_at V U ino type data → Z.of_nat (length data) ≤ n ≤ INODE_MAX_BYTES →
  content V (with_e_num_bytes n (entry_at V ino)) = data ++ replicate (Z.to_nat n - length data) 0.
Proof.
  intros HF Hn. pose proof (fa_size _ _ _ _ _ HF) as Hs. apply list_eq. intros j. rewrite content_lookup by (simpl; lia). cbn [e_num_bytes with_e_num_bytes].
  rewrite byte_at_size. destruct (decide (j < length data)%nat) as [Hj|Hj].
  - rewrite decide_True by lia. rewrite lookup_app_l by done. transitivity (content V (entry_at V ino) !! j); [by rewrite content_lookup, decide_True by lia|by rewrite (fa_content _ _ _ _ _ HF)].
  - rewrite lookup_app_r by lia. case_decide.
    + rewrite (fa_zero _ _ _ _ _ HF) by lia. symmetry. apply lookup_replicate. split; [done|lia].
    + symmetry. apply lookup_ge_None_2. rewrite length_replicate. lia.
Qed.

Lemma root_round l : fits l → let off := Z.of_nat (length (dir_data (root_entries l))) in
  u32 (u32 (off / BLOCK_SIZE + 1) * BLOCK_SIZE) = root_blocks l * BLOCK_SIZE ∧ off / BLOCK_SIZE = root_blocks l - 1 ∧ 1 ≤ root_blocks l ≤ 7 ∧
  off ≤ root_blocks l * BLOCK_SIZE ∧ off mod BLOCK_SIZE = 16 * (Z.of_nat (length l + 2) mod 32).
Proof.
  intros Hf off. pose proof (ft_inodes _ Hf) as Hn. change NINODES with 200 in Hn. unfold off, root_blocks, BLOCK_SIZE. rewrite (root_length l Hf).
  set (n := Z.of_nat (length l + 2)). replace (Z.of_nat (16 * (length l + 2))) with (16 * n) by lia. assert (Hn2 : 2 ≤ n ≤ 200) by lia. clearbody n.
  change 512 with (16 * 32). rewrite Z.div_mul_cancel_l, Z.mul_mod_distr_l by lia. pose proof (Z.div_mod n 32 ltac:(lia)) as Hd. pose proof (Z.mod_pos_bound n 32 ltac:(lia)) as Hm.
  assert (0 ≤ n / 32 ≤ 6) by lia. rewrite (u32_small (n / 32 + 1)), u32_small by lia. split_and!; lia.
Qed.
(** The last steps: the size of the root directory and the bitmap. *)
Lemma finish_Ok l m V U : fits l → holds m V U (image_files l) →
  let e' := with_e_num_bytes (root_blocks l * BLOCK_SIZE) (entry_at V ROOT_INODE_NO) in
  ∃ m' bm, (din ← rinode ROOT_INODE_NO; let off := xint (e_num_bytes din) in let off := u32 (u32 (off / BLOCK_SIZE + 1) * BLOCK_SIZE) in
     winode ROOT_INODE_NO (with_e_num_bytes (xint off) din);; used ← gets mk_freeblock; balloc (i32 used)) m = Ok () m' ∧ entry_ok e' ∧
  rep m' (upd_fn (with_entry V ROOT_INODE_NO e') (sb_bitmap_start sb) bm) U ∧ ∀ n, 0 ≤ n < BLOCK_SIZE * 8 → bit_at bm n = allocated l n.
Proof.
  intros Hf HH e'. pose proof HH as [HR Hn Hmx HF HS Hfr Hsup Hun]. pose proof (HF 0%nat _ eq_refl) as Hroot. change (Z.of_nat 0 + 1) with ROOT_INODE_NO in Hroot. cbn [fst snd] in Hroot.
  destruct (root_round l Hf) as (Eoff & _ & Hrb & Hle & _). erewrite bind_Ok by (by eapply rinode_Ok).
  pose proof (fi_ok _ _ _ (fa_inv _ _ _ _ _ Hroot)) as Hok. cbv zeta. rewrite (xint_id (e_num_bytes _)) by apply (eo_bytes _ Hok). rewrite (fa_size _ _ _ _ _ Hroot), Eoff.
  rewrite xint_id by (unfold word32, BLOCK_SIZE; lia). fold e'.
  assert (Hok' : entry_ok e') by (destruct Hok; split; try done; unfold e', word32, BLOCK_SIZE; simpl; lia).
  destruct (winode_Ok m V U ROOT_INODE_NO e' HR ltac:(done) Hok') as (m1 & E1 & HR1 & Hf1 & _). erewrite bind_Ok by exact E1. erewrite bind_Ok by done. rewrite Hf1, Hfr.
  fold (used_blocks l). pose proof (ft_blocks _ Hf) as Hroom. fold (used_blocks l) in Hroom. rewrite Hfr in Hf1. fold (used_blocks l) in Hf1.
  pose proof (rp_free _ _ _ HR) as Hb. rewrite Hfr in Hb. fold (used_blocks l) in Hb. change nmeta with 92 in Hb. change FSSIZE with 1000 in *.
  rewrite i32_small by lia. unfold balloc. rewrite (proj2 (Z.ltb_lt _ _)) by (unfold BLOCK_SIZE; lia). erewrite bind_Ok by done.
  destruct (bitmap_Ok (seqZ 0 (used_blocks l)) zero_bitmap) as [Hbm Hbits]; [apply zero_data_bytes|apply Forall_forall; intros i Hi%elem_of_seqZ; lia|].
  destruct (wsect_Ok m1 _ U (sb_bitmap_start sb) _ HR1 ltac:(rewrite sb_value; simpl; lia) Hbm) as (m2 & E2 & HR2 & _ & _).
  exists m2. eexists. split; [exact E2|]. split; [done|]. split; [exact HR2|]. intros n Hn'. rewrite Hbits by (unfold BLOCK_SIZE in Hn'; lia).
  assert (Hz : bit_at zero_bitmap n = false).
  { unfold bit_at. replace (zero_bitmap !!! Z.to_nat (n / 8)) with 0; [apply Z.bits_0|]. symmetry. apply zero_data_lookup.
    unfold BLOCK_SIZE in Hn'. assert (n / 8 < 512) by (apply Z.div_lt_upper_bound; lia). lia. }
  rewrite Hz, orb_false_r. unfold allocated. apply eq_true_iff_eq. rewrite bool_decide_eq_true, elem_of_seqZ, Z.ltb_lt. lia.
Qed.

Section final.
Context (l : list input) (Hf : fits l) (m : Mkfs) (V : Z → list Z) (U : Z → bool) (HH : holds m V U (image_files l)).
Local Notation root := (entry_at V ROOT_INODE_NO).
Local Notation e' := (with_e_num_bytes (root_blocks l * BLOCK_SIZE) root).
Context (Hok' : entry_ok e') (bm : list Z) (Hbm : ∀ n, 0 ≤ n < BLOCK_SIZE * 8 → bit_at bm n = allocated l n).
Local Notation V2 := (upd_fn (with_entry V ROOT_INODE_NO e') (sb_bitmap_start sb) bm).

Lemma final_data n : data_block sb n ∨ n = 1 → V2 n = V n.
Proof.
  intros Hn. rewrite upd_fn_ne; [by apply with_entry_data|]. intros ->. destruct Hn as [Hn|Hn]; [|done].
  pose proof (proj1 (sb_data _) Hn) as Hr. change nmeta with 92 in Hr. rewrite sb_value in Hr. simpl in Hr. lia.
Qed.
Lemma final_entry ino : 0 < ino < NINODES → entry_at V2 ino = if decide (ino = ROOT_INODE_NO) then e' else entry_at V ino.
Proof.
  intros Hi. pose proof (valid_block ino Hi) as [_ Hb]. unfold entry_at at 1. rewrite upd_fn_ne by (change (sb_bitmap_start sb) with 91; lia).
  apply with_entry_at; [|done|done|done]. apply (rp_bytes _ _ _ (ho_rep _ _ _ _ HH)). pose proof (valid_block ROOT_INODE_NO ltac:(done)) as [_ Hb']. change FSSIZE with 1000. lia.
Qed.
Lemma final_used n : U n = true → allocated l n = true.
Proof. intros Hu. apply (rp_used _ _ _ (ho_rep _ _ _ _ HH)) in Hu. rewrite (ho_free _ _ _ _ HH) in Hu. by apply Z.ltb_lt. Qed.
Lemma final_file_at i f : image_files l !! i = Some f → i ≠ 0%nat →
  entry_at V2 (Z.of_nat i + 1) = entry_at V (Z.of_nat i + 1) ∧ file_at V2 U (Z.of_nat i + 1) f.1 f.2.
Proof.
  intros Hi Hne. pose proof (lookup_lt_Some _ _ _ Hi). pose proof (ho_max _ _ _ _ HH).
  assert (Ee : entry_at V2 (Z.of_nat i + 1) = entry_at V (Z.of_nat i + 1)) by (rewrite final_entry, decide_False by (unfold ROOT_INODE_NO; lia); done).
  split; [done|]. eapply file_at_view; [by apply (ho_file _ _ _ _ HH)|done|]. intros n Hn. apply final_data. by left.
Qed.
Lemma final_root : root_ok V2 l.
Proof.
  pose proof (ho_file _ _ _ _ HH 0%nat _ eq_refl) as HR. change (Z.of_nat 0 + 1) with ROOT_INODE_NO in HR. cbn [fst snd] in HR.
  destruct (root_round l Hf) as (_ & Ediv & Hrb & Hle & Hmod). set (off := Z.of_nat (length (dir_data (root_entries l)))) in *.
  assert (HV : ∀ n, data_block sb n → V2 n = V n) by (intros n Hn; apply final_data; by left).
  pose proof (fa_inv _ _ _ _ _ HR) as HI. pose proof (fa_full _ _ _ _ _ HR) as HFu. fold off in HFu. pose proof (fa_size _ _ _ _ _ HR) as Hsz. fold off in Hsz.
  unfold root_ok. rewrite final_entry, decide_True by done.
  assert (Ha : ∀ k, addr_of V2 e' k = addr_of V root k) by (intros k; exact (addr_of_ext V V2 U root HI HV k)).
  split_and!; [apply (fa_type _ _ _ _ _ HR)|apply (fa_links _ _ _ _ _ HR)|done|]. pose proof (Z.div_mod off BLOCK_SIZE ltac:(done)) as Hd. rewrite Ediv in Hd. case_decide as Em.
  - rewrite Ha. destruct (decide (addr_of V root (root_blocks l - 1) = 0)) as [|Hn]; [done|]. apply (fu_addr _ _ _ HFu) in Hn; [rewrite Hmod, Em in Hd; lia|change INODE_MAX_BLOCKS with 140; lia].
  - assert (HI' : fs_inv V U e').
    { apply file_inv_size; [done|rewrite Hsz; change INODE_MAX_BYTES with (140 * BLOCK_SIZE); unfold BLOCK_SIZE in *; lia|]. intros o Ho. rewrite Hsz in Ho.
      assert (Eo : o / BLOCK_SIZE = root_blocks l - 1) by (symmetry; unfold BLOCK_SIZE in *; pose proof (Z.mod_pos_bound off 512); apply (Z.div_unique _ _ _ (o - 512 * (root_blocks l - 1))); lia).
      rewrite Eo. apply (fu_addr _ _ _ HFu); [change INODE_MAX_BLOCKS with 140; lia|]. pose proof (Z.mod_pos_bound (Z.of_nat (length l + 2)) 32). lia. }
    split; [eapply file_inv_used; [apply final_used|by eapply file_inv_ext]|].
    assert (Ec : content V2 e' = content V e').
    { unfold content. apply list_fmap_ext. intros j o [-> Hj]%lookup_seqZ. eapply byte_at_ext; [exact HI'|done|]. pose proof (fi_size _ _ _ HI'). lia. }
    rewrite Ec, (rounded_content V U ROOT_INODE_NO _ _ _ HR) by (change INODE_MAX_BYTES with (140 * BLOCK_SIZE); unfold BLOCK_SIZE in *; lia).
    set (k := (Z.to_nat (32 * root_blocks l) - (length l + 2))%nat). rewrite (root_length l Hf).
    replace (Z.to_nat (root_blocks l * BLOCK_SIZE) - 16 * (length l + 2))%nat with (16 * k)%nat by (unfold k, BLOCK_SIZE; lia).
    rewrite <- dir_data_zeros, <- dir_data_app. apply dirents_dir_data, Forall_app. split; [by apply root_entries_ok|]. apply Forall_replicate. split; [done|done|by apply (Forall_replicate _ 14)].
Qed.
Lemma final_owned i f : image_files l !! i = Some f → ∀ n, owned V2 (entry_at V2 (Z.of_nat i + 1)) n ↔ owned V (entry_at V (Z.of_nat i + 1)) n.
Proof.
  intros Hi. pose proof (lookup_lt_Some _ _ _ Hi). pose proof (ho_max _ _ _ _ HH). pose proof (fa_inv _ _ _ _ _ (ho_file _ _ _ _ HH i f Hi)) as HI.
  assert (HV : ∀ n, data_block sb n → V2 n = V n) by (intros n Hn; apply final_data; by left). pose proof (addr_of_ext V V2 U _ HI HV) as Ha.
  rewrite final_entry by lia. case_decide as E; [rewrite E in *|]; apply owned_same; done.
Qed.
Lemma final_image : image V2 l.
Proof.
  pose proof (ho_max _ _ _ _ HH) as Hmx. assert (Hlen : length (image_files l) = S (length l)) by (simpl; unfold file_list; by rewrite length_fmap). split.
  - rewrite final_data by (by right). by rewrite (ho_super _ _ _ _ HH).
  - intros n Hn. rewrite upd_fn_eq. by apply Hbm.
  - intros i f Hi. assert (Hi' : image_files l !! S i = Some (INODE_REGULAR, data_of f)) by (simpl; unfold file_list; by rewrite list_lookup_fmap, Hi).
    destruct (final_file_at (S i) _ Hi' ltac:(done)) as [_ [H1 H2 _ H4 H5 _ _]]. replace (Z.of_nat (S i) + 1) with (Z.of_nat i + 2) in * by lia.
    split_and!; [done|done| |done]. by eapply file_inv_used; [apply final_used|].
  - intros i j Hi Hj Hne n Ho1 Ho2. destruct (lookup_lt_is_Some_2 (image_files l) i ltac:(lia)) as [fi Hfi], (lookup_lt_is_Some_2 (image_files l) j ltac:(lia)) as [fj Hfj].
    apply (final_owned j fj Hfj) in Ho1. apply (final_owned i fi Hfi) in Ho2. by apply (ho_sep _ _ _ _ HH i j ltac:(lia) ltac:(lia) Hne n).
  - intros ino Hi. rewrite final_entry, decide_False by (unfold ROOT_INODE_NO; lia). apply (ho_unused _ _ _ _ HH). rewrite (ho_ino _ _ _ _ HH), Hlen. lia.
Qed.
End final.

Lemma build_image l : fits l → ∃ m V, main (Some true) l mk_start = Ok () m ∧ length (mk_img m) = Z.to_nat FSSIZE ∧
  (∀ n, 0 ≤ n < FSSIZE → mk_img m !! Z.to_nat n = Some (V n)) ∧ image V l ∧ root_ok V l.
Proof.
  intros Hf.
  destruct (build_Ok l (λ rootino, din ← rinode rootino; let off := xint (e_num_bytes din) in let off := u32 (u32 (off / BLOCK_SIZE + 1) * BLOCK_SIZE) in
     winode rootino (with_e_num_bytes (xint off) din);; used ← gets mk_freeblock; balloc (i32 used)) Hf) as (m1 & V1 & U1 & HH & E1).
  destruct (finish_Ok l m1 V1 U1 Hf HH) as (m2 & bm & E2 & Hok & HR2 & Hbm). rewrite E2 in E1.
  exists m2. eexists. split; [exact E1|]. split; [apply (rp_len _ _ _ HR2)|]. split; [exact (rp_view _ _ _ HR2)|].
  split; [by eapply final_image|by eapply final_root].
Qed.

(** The root directory of the image: well-formed, with its own name, that of its parent and
    those of the inputs, each with its inode, and only free entries after them. *)
Record root_dir (V : Z → list Z) (l : list input) : Prop := {
  rd_type : e_type (entry_at V ROOT_INODE_NO) = INODE_DIRECTORY;
  rd_links : e_num_links (entry_at V ROOT_INODE_NO) = 1;
  rd_inv : fs_inv V (allocated l) (entry_at V ROOT_INODE_NO);
  rd_dots : take 2 (dirents (content V (entry_at V ROOT_INODE_NO))) =
    [mkDirEntry ROOT_INODE_NO (entry_name [46]); mkDirEntry ROOT_INODE_NO (entry_name [46; 46])];
  rd_files : ∀ i f, l !! i = Some f →
    dirents (content V (entry_at V ROOT_INODE_NO)) !! (i + 2)%nat = Some (mkDirEntry (Z.of_nat i + 2) (entry_name (in_path f)));
  rd_rest : ∀ k d, (length l + 2 ≤ k)%nat → dirents (content V (entry_at V ROOT_INODE_NO)) !! k = Some d → d = no_entry
}.
Lemma dir_entries_lookup l : ∀ n i f, Forall input_ok l → l !! i = Some f → dir_entries n l !! i = Some (mkDirEntry (n + Z.of_nat i) (entry_name (in_path f))).
Proof.
  induction l as [|g l IH]; intros n i f Hok Hi; [done|]. apply Forall_cons in Hok as [Hg Hok]. destruct i as [|i].
  - injection Hi as <-. simpl. rewrite dir_name_entry by apply Hg. do 2 f_equal. lia.
  - change (dir_entries n (g :: l) !! S i) with (dir_entries (n + 1) l !! i). rewrite (IH (n + 1) i f Hok Hi). do 2 f_equal. lia.
Qed.
Lemma root_ok_dir V l : fits l → Z.of_nat (length l + 2) mod 32 ≠ 0 → root_ok V l → root_dir V l.
Proof.
  intros Hf Hm. unfold root_ok. cbv zeta. rewrite decide_False by done. intros (H1 & H2 & _ & H3 & H4).
  assert (length (root_entries l) = (length l + 2)%nat) as Hlen by (simpl; rewrite length_dir_entries; lia).
  split; try done; rewrite H4.
  - simpl. unfold entry_name. by rewrite take_0.
  - intros i f Hi. rewrite lookup_app_l by (rewrite Hlen; apply lookup_lt_Some in Hi; lia). replace (i + 2)%nat with (S (S i)) by lia.
    change (root_entries l !! S (S i)) with (dir_entries 2 l !! i). rewrite (dir_entries_lookup l 2 i f (ft_inputs _ Hf) Hi). do 2 f_equal. lia.
  - intros k d Hk. rewrite lookup_app_r by (rewrite Hlen; lia). by intros [-> _]%lookup_replicate.
Qed.

(** When the entries fill their last block exactly, the size of the directory covers one
    more block, which is not there. *)
Lemma mkfs_full_directory l : fits l → Z.of_nat (length l + 2) mod 32 = 0 →
  ∃ m V, main (Some true) l mk_start = Ok () m ∧ (∀ n, 0 ≤ n < FSSIZE → mk_img m !! Z.to_nat n = Some (V n)) ∧
    e_num_bytes (entry_at V ROOT_INODE_NO) = root_blocks l * BLOCK_SIZE ∧ addr_of V (entry_at V ROOT_INODE_NO) (root_blocks l - 1) = 0.
Proof.
  intros Hf Hm. destruct (build_image l Hf) as (m & V & E & _ & Hv & _ & Hr). exists m, V. split; [exact E|]. split; [exact Hv|].
  unfold root_ok in Hr. cbv zeta in Hr. rewrite decide_True in Hr by exact Hm. split; apply Hr.
Qed.

(** C14. mkfs builds a file system that the kernel can use. For inputs that can be
    opened and fit (files of at most the largest size, with enough inodes and blocks in
    the image) and do not fill the last block of the root directory exactly
    ([mkfs_full_directory] is about that case), the tool ends normally with an image of
    FSSIZE blocks: the super block describes the layout; the bitmap marks exactly the
    blocks in use; every input is a regular file with one link whose inode and block table
    satisfy the invariant of the inode layer and whose contents are the bytes of the input;
    no block belongs to two files; the other inodes are free. The root directory also
    satisfies the invariant. It holds the entries for itself, for its parent and for every
    input, under the last part of its path without a leading underscore, followed by free
    entries. Without an image argument, or when the image cannot be opened, the tool ends
    with an error. *)
Theorem mkfs_correct l : fits l → Z.of_nat (length l + 2) mod 32 ≠ 0 →
  (∃ m V, main (Some true) l mk_start = Ok () m ∧ length (mk_img m) = Z.to_nat FSSIZE ∧
     (∀ n, 0 ≤ n < FSSIZE → mk_img m !! Z.to_nat n = Some (V n)) ∧ image V l ∧ root_dir V l) ∧
  (∀ m, main None l m = Panic "Usage: mkfs fs.img files..." ∧ main (Some false) l m = Panic "open").
Proof.
  intros Hf Hm. split; [|done]. destruct (build_image l Hf) as (m & V & E & Hl & Hv & Hi & Hr). exists m, V.
  split; [exact E|]. split; [exact Hl|]. split; [exact Hv|]. split; [exact Hi|]. by apply root_ok_dir.
Qed.

(** An empty file and one of two blocks, under a path. *)
Definition demo_inputs : list input :=
  [mkInput [95; 99; 97; 116] (Some []); mkInput [98; 105; 110; 47; 108; 115] (Some [replicate 512 7; replicate 100 8])].
Lemma demo_inputs_fit : fits demo_inputs.
Proof.
  assert (Hb : ∀ l, bool_decide (Forall (λ b, 0 ≤ b < 256) l) = true → Forall byte l) by (intros l Hl; exact (proj1 (bool_decide_eq_true _) Hl)).
  split; [|done|by vm_compute]. repeat apply Forall_cons_2; [| |apply Forall_nil_2]; split; try done; try (apply Hb; by vm_compute); apply (bool_decide_unpack _); by vm_compute.
Qed.
Lemma mkfs_correct_witness :
  (∃ m V, main (Some true) demo_inputs mk_start = Ok () m ∧ length (mk_img m) = Z.to_nat FSSIZE ∧
     (∀ n, 0 ≤ n < FSSIZE → mk_img m !! Z.to_nat n = Some (V n)) ∧ image V demo_inputs ∧ root_dir V demo_inputs) ∧
  used_blocks demo_inputs = 95 ∧ entry_name ∘ in_path <$> demo_inputs = [[99; 97; 116; 0; 0; 0; 0; 0; 0; 0; 0; 0; 0; 0]; [108; 115; 0; 0; 0; 0; 0; 0; 0; 0; 0; 0; 0; 0]].
Proof. split; [exact (proj1 (mkfs_correct demo_inputs demo_inputs_fit ltac:(vm_compute; congruence)))|by vm_compute]. Defined.
